(* ===== verification/_CoqProject ===== *)
-Q . S2P
Prelude.v
Telemetry.v
Cluster.v
Float32.v
Softmax.v
ScoreFifo.v
OAccumulator.v
Fp16.v
GroupMsg.v
GroupSched.v
KvManager.v
KvSystem.v
KvWorker.v
LocalMem.v
Dma.v
DmaCompletion.v
DmaRetry.v
RemoteAccess.v
Effects.v
Sfu.v
SfuRows.v
SfuTiles.v
SfuEvents.v
SfuHistory.v
SchedMsg.v
SchedManager.v
SchedPanels.v
SchedWorker.v
SchedReads.v
MemNic.v
MemNicSteps.v
MemNicAnswers.v
ComputeArray.v
ArrayTransfers.v
ArrayProduct.v
