(* ===== verification/Prelude.v ===== *)
(** * Golem: a verified model of the many-core attention accelerator

    Golem is an element of the Structural Simulation Toolkit (SST) that models
    a many-core machine with compute-in-memory arrays: RISC-V cores issue custom
    instructions to a coprocessor, which drives arrays, a special function unit
    and a DMA engine; cores are tied together by a network, a group controller
    and shared attention resources; memory nodes answer the cores' DMA requests.
    The sources are under src/src/sst/elements/golem/, paths below are relative
    to it, and, for the memory nodes, src/src/sst/elements/memHierarchy/.

    This library translates the stateful core of that element into executable
    definitions and proves what makes it correct.  It is a shallow embedding: a
    class is a [Module] with its fields in a record [t], a method is a function
    on that record, and methods are composed as the code composes them.

    ** Conventions

    - A [uintN_t] is a [Z] in [0 <= z < 2^N].  Operations that can wrap are
      written with [u8]..[u64], or [⊞], [⊟] at 64 bits and [⊞₃₂], [⊟₃₂] at 32;
      where no reduction is written the theorems' invariants keep the value in
      range.
    - [r <| f := v |>] updates a field; [l.[i]] and [l.[i := v]] index arrays
      whose bounds are established by the state invariants.
    - A hash map is a [gmap]; where the code walks one, the order is a parameter
      ([order], [landing_order], [names]), so that theorems hold for every order.
    - A call that leaves the model (a network send, an event on a link, a callback
      of a client) is an element of a list of effects, in the order of the calls.
      A fatal exit or failed assertion is [None].
    - Code outside the element is a parameter: whether the network or a memory
      accepts a request, and the conversion of cycles to core time.
    - Statistics, traces and log output are left out unless a theorem is about
      them (the busy-cycle counters are).

    ** Files and what they show

    [Prelude] (this file): machine integers, record update, arrays, shared
    lemmas and tactics.

    Attention resources, attention/attentionCluster.h:
    - [Telemetry]: [BusyIntervalUnion], [BusyActivityTracker].  Both counters are
      equal to reference definitions that count cycles one by one.
    - [Cluster]: cancel registry, configuration, tags, generation fence and the
      ownership table of arrays, banks and contexts.  Reachable ownership states
      are well formed and exclusive, references are conserved, cancelled writes
      are consumed exactly.
    - [Float32]: binary32 values and fused multiply-add by the standard library's
      [SpecFloat].
    - [ScoreFifo]: refines an abstract contract of write-once cells.
    - [OAccumulator]: a drained tile is the multiply-add fold of the submitted
      contributions in key-tile order, whatever the timing; ports are used
      exclusively; tiles advance and drains complete.

    [Fp16], fp16.h: widening is exact, narrowing is to nearest even outside one
    interval where it is shown to flush to zero, and they round-trip.

    Group control, groupctrl/groupctrl.{h,cc}:
    - [GroupMsg]: messages, the byte storage of a window, the mailbox and its
      round trip.
    - [GroupSched]: grant scheduling and the worker endpoint.  Per-node counters
      are exact and capped, a pass is work conserving, a worker forwards once; two
      messages that the manager mishandles are exhibited.
    - [KvManager], [KvSystem]: staging and delivery of K/V tiles, alone and as a
      closed system with memory and workers.  Requests are conserved, answers
      carry the requested bytes, and nothing stalls.
    - [KvWorker]: the receiving side, its request story and termination, and the
      history in which a cancellation strands a slot.

    Global memory, globalmemory/globalmemory.{h,cc}:
    - [LocalMem]: the window and its asynchronous ports.  Accesses are conserved,
      answered, and do exactly the direct access.
    - [Dma]: routing, messages, the DMA engine with its window, retries, landing
      through [LocalMem], tokens, generations and message handler.
    - [DmaCompletion]: bursts cover a transfer; each callback runs exactly once.
    - [DmaRetry]: unanswered reads are given up in bounded time; their completion
      token is forgotten.
    - [RemoteAccess]: endpoints, remote reads and writes.  A remote read, composed
      of both cores' handlers, brings the owner's bytes and raises the flag.

    [Effects]: computations with state, effects and fatal errors, and their
    weakest preconditions, for the handlers of the following files.

    Request scheduler, requestscheduler/requestscheduler.{h,cc}:
    - [SchedMsg]: messages, request ids and credit limits.  Slot and node are read
      back from an id, and it is stated which ids are equal.
    - [SchedManager], [SchedPanels]: the manager's queues, credits and both issue
      policies.  The requests sent are exactly the chunks of accepted panels,
      within budget and credits; a tick stops only for lack of either; the panel
      of highest priority is served; panels beyond the queue depth are lost.
    - [SchedWorker], [SchedReads]: windows, their reads in the engine of [Dma],
      completion reports and the mailbox.  Each request of a window is submitted
      and reported once, a tick reports what has completed; ids that collide and
      a wake-up that is lost when a window is retired are exhibited.

    Memory nodes, memHierarchy/memNICBase.h (the DMA bridge) and memNIC.cc:
    - [MemNic]: requests from the network, credits, the three admission policies,
      reads that join another one or hit the shared K/V cache, answers of the
      memory and their multicast, the response queue, the clock; and what the node
      reads from the scheduler's request ids, whose layout it does not share.
    - [MemNicSteps]: the invariant that follows every answer owed and every credit
      through the bridge, and the specification of each handler.
    - [MemNicAnswers]: histories.  Each request is answered once with the bytes of
      the memory, credits are conserved, no history is fatal; admission is work
      conserving and the clock stops only when all is answered - except for a
      cache hit without admission control, which is exhibited.

    Compute arrays, array/computeArray.h and array/mvmComputeArray.h:
    - [ComputeArray]: operands in banks, outputs, the transfers that move them over
      ports with credits, validation, launches and the matrix-vector product, for
      an abstract element type (a class with integer and float instances).
    - [ArrayTransfers]: histories with calls from inside callbacks.  Each accepted
      transfer is called back once, the counters are exact and within the limits,
      nothing stalls and nothing is fatal.
    - [ArrayProduct]: programming, launching and reading delivers the product; on
      integers it is exact modulo [2^64]; launches on few columns equal launches on
      padded operands.

    Special function unit, the row engine of sfu/sfu.{h,cc} that attention tiles use:
    - [Softmax]: the arithmetic of a row - scale and mask, maximum, exponentials,
      online update, normalisation - over a class of numbers.  On reals the tiles
      of a row combine to its softmax; on machine numbers a row that a tile masks
      completely fails.
    - [Sfu]: the engine.  Arithmetic pipelines with a queue, tiles and row bands
      as workers with contexts, the stages of a row in chunks, streams, FIFO ports,
      retries, cancellation, callbacks; one definition per method and callback.
    - [SfuRows], [SfuTiles], [SfuEvents]: what an event does to a row, to a tile,
      and what a streamed tile waits for at any time.
    - [SfuHistory]: histories in which any number of streamed tiles are issued and
      events and memory answers arrive in any order.  Each tile ends once, with the
      scales, weights and online states of the reference; nothing stalls or is
      fatal, and all but retries uses up work.

    ** Bounds and fuel

    Loops of the code are structural recursions where they consume a list.
    Others take fuel that bounds the loop: the length of the queue for
    [flush_loop], [issue_reads], [issue_writes], [scan], [schedule] and
    [process_pending], the number of bytes for [bursts] (a burst has at least
    one), the number of rows for [dma_rows], the issue budget for the rounds of
    the request manager, two for the K/V pumps (they call
    themselves once, between K and V), ten for [normalize] (a fraction has ten
    bits).  The theorems about those functions show that the fuel is enough: a
    queue is emptied or its ports are busy, the bursts sum to the transfer, the
    rows to the tile.  At a memory node the fuel is the length of the queue, twice
    that where a bundle may run out between two admissions.  The arrays start at
    most as many transfers as are queued, and [ceilLog2] halves 64 bits.  A tile
    that starts visits its contexts ([start_contexts]).  Event loops of the
    simulator are histories: sequences of events or inductive relations with one
    constructor per event, so invariants cover all interleavings.

    Concrete inputs (names starting with [demo] or [ex]) serve to show that the hypotheses
    of a theorem can be met, and to run the exhibited faults.

    ** Not modelled

    - requestscheduler/: construction of links and network interface, traces and
      pressure statistics.  Manager and worker are verified each against the
      other's messages; their composition over the network is not stated.
    - globalmemory/: the control transport's wrapper, construction and
      statistics, the network-free variant; [handleDmaReceives] is registered
      nowhere.
    - memHierarchy/: endpoint discovery, untimed data, statistics, and the caches
      and controllers behind the node's interface; the memory is met as the
      contents its answers carry, which are taken not to change while they are
      read.
    - array/crossSim*.h: arrays whose products are calls into the CrossSim
      package.
    - sfu/: descriptors, primitives and jobs with their distributed reductions.  Of
      the row engine all modes are defined, the histories of [SfuHistory] are those
      of streamed tiles; tiles that read and write the FIFOs directly, row bands
      over DMA and cancellations are not part of them.  [exp] is a parameter.
    - workercmdproc/, rocc/: command interpreter and instruction engine; the
      resources they drive are modelled above.
    - golem.cc, tests/ and the other elements of the simulator: registration,
      configuration, and components met only as endpoints of links.
    - In [Dma], callbacks of clients are effects: a client that starts another
      transfer from inside its callback does so as a separate step of the
      history.  The histories of [DmaCompletion] contain no cancellation and no
      transfer out of the window, whose operations are defined. *)

From Stdlib Require Export ZArith Lia Bool.
From stdpp Require Export base numbers list sorting gmap.

#[global] Open Scope Z_scope.

(** ** Fixed-width unsigned integers

    A [uintN_t] of the source is a [Z] kept in [0 <= z < 2^N]; every operation
    of the source that can leave that range is followed by the reduction the
    language prescribes. *)

Definition u8 (z : Z) : Z := z mod 2 ^ 8.
Definition u16 (z : Z) : Z := z mod 2 ^ 16.
Definition u32 (z : Z) : Z := z mod 2 ^ 32.
Definition u64 (z : Z) : Z := z mod 2 ^ 64.

Definition is_u8 (z : Z) : Prop := 0 <= z < 2 ^ 8.
Definition is_u16 (z : Z) : Prop := 0 <= z < 2 ^ 16.
Definition is_u32 (z : Z) : Prop := 0 <= z < 2 ^ 32.
Definition is_u64 (z : Z) : Prop := 0 <= z < 2 ^ 64.

Declare Scope mach_scope.
Delimit Scope mach_scope with mach.
Notation "a ⊞ b" := (u64 (a + b)) (at level 50, left associativity) : mach_scope.
Notation "a ⊟ b" := (u64 (a - b)) (at level 50, left associativity) : mach_scope.
Notation "a ⊞₃₂ b" := (u32 (a + b)) (at level 50, left associativity) : mach_scope.
Notation "a ⊟₃₂ b" := (u32 (a - b)) (at level 50, left associativity) : mach_scope.
#[global] Open Scope mach_scope.

Lemma u8_small z : is_u8 z -> u8 z = z.
Proof. apply Z.mod_small. Qed.

Lemma u16_small z : is_u16 z -> u16 z = z.
Proof. apply Z.mod_small. Qed.

Lemma u32_small z : is_u32 z -> u32 z = z.
Proof. apply Z.mod_small. Qed.

Lemma u64_small z : is_u64 z -> u64 z = z.
Proof. apply Z.mod_small. Qed.

Lemma u8_range z : is_u8 (u8 z).
Proof. by apply Z.mod_pos_bound. Qed.

Lemma u16_range z : is_u16 (u16 z).
Proof. by apply Z.mod_pos_bound. Qed.

Lemma u32_range z : is_u32 (u32 z).
Proof. by apply Z.mod_pos_bound. Qed.

Lemma u64_range z : is_u64 (u64 z).
Proof. by apply Z.mod_pos_bound. Qed.

Lemma u32_add_l a b : u32 (u32 a + b) = u32 (a + b).
Proof. apply Zplus_mod_idemp_l. Qed.

Lemma u64_add_l a b : u64 (u64 a + b) = u64 (a + b).
Proof. apply Zplus_mod_idemp_l. Qed.

Lemma u64_sub_l a b : u64 (u64 a - b) = u64 (a - b).
Proof. apply Zminus_mod_idemp_l. Qed.

Create HintDb mach.
#[export] Hint Resolve u8_range u16_range u32_range u64_range : mach.
#[export] Hint Unfold is_u8 is_u16 is_u32 is_u64 : mach.

(** [unwrap] removes every reduction whose argument [lia] shows in range. *)
Ltac unwrap_goal :=
  repeat match goal with
  | |- context [u64 ?x] => rewrite (u64_small x) by (unfold is_u64 in *; lia)
  | |- context [u32 ?x] => rewrite (u32_small x) by (unfold is_u32 in *; lia)
  | |- context [u16 ?x] => rewrite (u16_small x) by (unfold is_u16 in *; lia)
  | |- context [u8 ?x] => rewrite (u8_small x) by (unfold is_u8 in *; lia)
  end.

Ltac mach_lia := unfold is_u64, is_u32, is_u16, is_u8 in *; unwrap_goal; lia.

(** ** Record update

    [r <| f := v |>] is [r] with field [f] replaced.  A record opts in with an
    instance of [Eta], its eta expansion; the setter of each field is then
    computed by abstracting that field's projection. *)

Class Eta (R : Type) := eta : R -> R.
Class Setter {R T : Type} (p : R -> T) := set_field : T -> R -> R.
#[global] Arguments set_field {R T} p {_} v r /.

Ltac solve_setter :=
  match goal with
  | |- @Setter ?R ?T ?p =>
      let v := fresh "v" in
      let r := fresh "r" in
      refine (fun (v : T) (r : R) => _);
      let e := constr:(_ : Eta R) in
      let h := match e with ?h => h end in
      let t := eval red in (h r) in
      match eval pattern (p r) in t with
      | ?g _ => let b := eval cbv beta in (g v) in exact b
      end
  end.

#[global] Hint Extern 1 (Setter _) => solve_setter : typeclass_instances.

Notation "r <| f := v |>" := (set_field f v r)
  (at level 1, left associativity, format "r  <| f  :=  v |>").

(** ** Arrays indexed by machine integers

    [l.[i]] reads and [l.[i := v]] writes; the operations of the source test
    the index first, so the behaviour out of range is never observed. *)

Notation "l .[ i ]" := (l !!! Z.to_nat i)
  (at level 1, left associativity, format "l .[ i ]").
Notation "l .[ i := v ]" := (<[Z.to_nat i := v]> l)
  (at level 1, left associativity, format "l .[ i  :=  v ]").

(** [std::fill] over a whole array. *)
Definition fill {A} (x : A) (l : list A) : list A := replicate (length l) x.

(** ** Bit operations as arithmetic *)

Lemma lor_add a b n : 0 <= n -> 0 <= b < 2 ^ n -> Z.lor (a * 2 ^ n) b = a * 2 ^ n + b.
Proof.
  intros Hn Hb. symmetry. apply Z.add_nocarry_lor, Z.bits_inj'. intros i Hi.
  rewrite Z.land_spec, Z.bits_0. destruct (decide (i < n)).
  - by rewrite Z.mul_pow2_bits_low.
  - by rewrite <- (Z.mod_small b (2 ^ n)), Z.mod_pow2_bits_high, andb_false_r by lia.
Qed.

Lemma land_ones_mod a n : 0 <= n -> Z.land a (2 ^ n - 1) = a mod 2 ^ n.
Proof. intros. rewrite <- Z.land_ones by done. f_equal. rewrite Z.ones_equiv. lia. Qed.

(** ** Writing a run of elements *)

Lemma inserts_same {A} i n (l : list A) : list_inserts i (take n (drop i l)) l = l.
Proof.
  revert i l. induction n as [|n IH]; intros i l; [done|].
  destruct (drop i l) as [|x k] eqn:E; [done|]. simpl.
  assert (l !! i = Some x /\ drop (S i) l = k) as [Hi Hk].
  { split; [by rewrite <- (Nat.add_0_r i), <- lookup_drop, E|].
    replace (S i) with (i + 1)%nat by lia. by rewrite <- drop_drop, E. }
  rewrite <- Hk, IH. by apply list_insert_id.
Qed.
