(* ===== verification/Telemetry.v ===== *)
(** * Busy-cycle telemetry of the attention datapath

    Models [BusyIntervalUnion] and [BusyActivityTracker] of
    golem/attention/attentionCluster.h: the two counters that turn the
    occupancy of a port (closed-open intervals in start order, or enter/leave
    events in time order) into busy, idle and span cycles and a peak
    concurrency.  Both are proved equal to a reference definition that counts
    cycles one by one. *)

From S2P Require Import Prelude.

(** ** Counting the cycles of a range that satisfy a predicate *)

Fixpoint cycles_where (P : Z -> bool) (lo : Z) (n : nat) : Z :=
  match n with
  | O => 0
  | S n' => Z.b2z (P lo) + cycles_where P (lo + 1) n'
  end.

(** [busy_count P lo hi] is the number of [t] with [lo <= t < hi] and [P t]. *)
Definition busy_count (P : Z -> bool) (lo hi : Z) : Z :=
  cycles_where P lo (Z.to_nat (hi - lo)).

Module BusyIntervalUnion.

Record t := mk {
  hasInterval_ : bool;
  firstStart_ : Z;
  lastStart_ : Z;
  mergedEnd_ : Z;
  lastEnd_ : Z;
  unionCycles_ : Z;
  idleCycles_ : Z;
  maxConcurrency_ : Z;
  operations_ : Z;
  activeEnds_ : list Z
}.

#[export] Instance eta_t : Eta t := fun s =>
  mk (hasInterval_ s) (firstStart_ s) (lastStart_ s) (mergedEnd_ s) (lastEnd_ s)
     (unionCycles_ s) (idleCycles_ s) (maxConcurrency_ s) (operations_ s)
     (activeEnds_ s).

Definition init : t := mk false 0 0 0 0 0 0 0 0 [].

(** The min-heap of interval ends, kept as its ascending list of elements:
    [top] is the head, [pop] the tail. *)
Fixpoint heap_push (x : Z) (q : list Z) : list Z :=
  match q with
  | [] => [x]
  | y :: q' => if x <=? y then x :: q else y :: heap_push x q'
  end.

Fixpoint pop_expired (start : Z) (q : list Z) : list Z :=
  match q with
  | [] => []
  | e :: q' => if e <=? start then pop_expired start q' else q
  end.

Definition add (start end_ : Z) (s : t) : bool * t :=
  if (end_ <=? start) || (hasInterval_ s && (start <? lastStart_ s)) then (false, s)
  else
    let active := heap_push end_ (pop_expired start (activeEnds_ s)) in
    let s := s <| activeEnds_ := active |>
               <| maxConcurrency_ := Z.max (maxConcurrency_ s) (Z.of_nat (length active)) |> in
    let s :=
      if negb (hasInterval_ s) then
        s <| firstStart_ := start |> <| mergedEnd_ := end_ |>
          <| unionCycles_ := end_ ⊟ start |> <| hasInterval_ := true |>
      else if start <=? mergedEnd_ s then
        if mergedEnd_ s <? end_ then
          s <| unionCycles_ := unionCycles_ s ⊞ (end_ ⊟ mergedEnd_ s) |>
            <| mergedEnd_ := end_ |>
        else s
      else
        s <| idleCycles_ := idleCycles_ s ⊞ (start ⊟ mergedEnd_ s) |>
          <| unionCycles_ := unionCycles_ s ⊞ (end_ ⊟ start) |>
          <| mergedEnd_ := end_ |> in
    (true, s <| lastStart_ := start |>
             <| lastEnd_ := Z.max (lastEnd_ s) end_ |>
             <| operations_ := operations_ s ⊞ 1 |>).

Definition empty (s : t) : bool := negb (hasInterval_ s).
Definition unionCycles (s : t) : Z := unionCycles_ s.
Definition spanCycles (s : t) : Z :=
  if hasInterval_ s then lastEnd_ s ⊟ firstStart_ s else 0.
Definition idleCycles (s : t) : Z := idleCycles_ s.
Definition maxConcurrency (s : t) : Z := maxConcurrency_ s.
Definition operations (s : t) : Z := operations_ s.
Definition reset (_ : t) : t := init.

(** *** Reference semantics over the list of accepted intervals *)

Definition contains (iv : Z * Z) (c : Z) : bool := (iv.1 <=? c) && (c <? iv.2).
Definition covered (h : list (Z * Z)) (c : Z) : bool := existsb (fun iv => contains iv c) h.
Fixpoint overlap (h : list (Z * Z)) (c : Z) : Z :=
  match h with
  | [] => 0
  | iv :: h' => Z.b2z (contains iv c) + overlap h' c
  end.

(** States reachable by [add], with the list of intervals it accepted; a
    rejected interval leaves the counter unchanged. *)
Inductive run : t -> list (Z * Z) -> Prop :=
| run_init : run init []
| run_add s h start end_ s' : run s h -> is_u64 start -> is_u64 end_ ->
    add start end_ s = (true, s') -> run s' (h ++ [(start, end_)])
| run_reject s h start end_ s' : run s h ->
    add start end_ s = (false, s') -> run s' h.

End BusyIntervalUnion.

Module BusyActivityTracker.

Record t := mk {
  hasEvent_ : bool;
  hasSpan_ : bool;
  active_ : Z;
  maxConcurrency_ : Z;
  firstCycle_ : Z;
  openCycle_ : Z;
  lastCloseCycle_ : Z;
  lastEventCycle_ : Z;
  unionCycles_ : Z
}.

#[export] Instance eta_t : Eta t := fun s =>
  mk (hasEvent_ s) (hasSpan_ s) (active_ s) (maxConcurrency_ s) (firstCycle_ s)
     (openCycle_ s) (lastCloseCycle_ s) (lastEventCycle_ s) (unionCycles_ s).

Definition init : t := mk false false 0 0 0 0 0 0 0.

Definition enter (cycle : Z) (s : t) : bool * t :=
  if hasEvent_ s && (cycle <? lastEventCycle_ s) then (false, s)
  else
    let s := s <| hasEvent_ := true |> <| lastEventCycle_ := cycle |> in
    let s :=
      if active_ s =? 0 then
        let s := s <| openCycle_ := cycle |> in
        if negb (hasSpan_ s) then s <| firstCycle_ := cycle |> <| hasSpan_ := true |> else s
      else s in
    let s := s <| active_ := active_ s ⊞ 1 |> in
    (true, s <| maxConcurrency_ := Z.max (maxConcurrency_ s) (active_ s) |>).

Definition leave (cycle : Z) (s : t) : bool * t :=
  if (active_ s =? 0) || (hasEvent_ s && (cycle <? lastEventCycle_ s)) then (false, s)
  else
    let s := s <| lastEventCycle_ := cycle |> <| active_ := active_ s ⊟ 1 |> in
    (true,
      if active_ s =? 0 then
        s <| unionCycles_ := unionCycles_ s ⊞ (cycle ⊟ openCycle_ s) |>
          <| lastCloseCycle_ := cycle |>
      else s).

Definition unionCycles (now : Z) (s : t) : Z :=
  if active_ s =? 0 then unionCycles_ s
  else (unionCycles_ s ⊞ Z.max now (lastEventCycle_ s)) ⊟ openCycle_ s.

Definition spanCycles (now : Z) (s : t) : Z :=
  if negb (hasSpan_ s) then 0
  else (if active_ s =? 0 then lastCloseCycle_ s else Z.max now (lastEventCycle_ s))
       ⊟ firstCycle_ s.

Definition idleCycles (now : Z) (s : t) : Z := spanCycles now s ⊟ unionCycles now s.
Definition maxConcurrency (s : t) : Z := maxConcurrency_ s.
Definition active (s : t) : Z := active_ s.

(** *** Reference semantics over the list of accepted events *)

Inductive event := Enter (cycle : Z) | Leave (cycle : Z).

(** Occupancy at cycle [c]: the events up to and including [c]. *)
Definition occ_of (e : event) (c : Z) : Z :=
  match e with
  | Enter k => Z.b2z (k <=? c)
  | Leave k => - Z.b2z (k <=? c)
  end.
Fixpoint occupancy (h : list event) (c : Z) : Z :=
  match h with
  | [] => 0
  | e :: h' => occ_of e c + occupancy h' c
  end.

Definition step (e : event) (s : t) : bool * t :=
  match e with Enter c => enter c s | Leave c => leave c s end.
Definition cycle_of (e : event) : Z := match e with Enter c | Leave c => c end.

Inductive run : t -> list event -> Prop :=
| run_init : run init []
| run_step s h e s' : run s h -> is_u64 (cycle_of e) ->
    step e s = (true, s') -> run s' (h ++ [e])
| run_reject s h e s' : run s h -> step e s = (false, s') -> run s' h.

(** The cycle at which the first event entered. *)
Definition first_cycle (h : list event) : Z :=
  match h with [] => 0 | e :: _ => cycle_of e end.

End BusyActivityTracker.

(** ** Lemmas on cycle counting *)

Lemma cycles_where_ext P Q lo n :
  (forall c, lo <= c < lo + Z.of_nat n -> P c = Q c) ->
  cycles_where P lo n = cycles_where Q lo n.
Proof.
  revert lo; induction n as [|n IH]; intros lo H; simpl; [done|].
  rewrite H by lia. f_equal. apply IH. intros c Hc. apply H. lia.
Qed.

Lemma cycles_where_app P lo n m :
  cycles_where P lo (n + m) = cycles_where P lo n + cycles_where P (lo + Z.of_nat n) m.
Proof.
  revert lo; induction n as [|n IH]; intros lo; simpl.
  - by rewrite Z.add_0_r.
  - rewrite IH. replace (lo + 1 + Z.of_nat n) with (lo + Z.of_nat (S n)) by lia. lia.
Qed.

Lemma cycles_where_const P b lo n :
  (forall c, lo <= c < lo + Z.of_nat n -> P c = b) ->
  cycles_where P lo n = Z.b2z b * Z.of_nat n.
Proof.
  revert lo; induction n as [|n IH]; intros lo H; simpl; [lia|].
  rewrite H by lia. rewrite IH; [destruct b; simpl; lia|]. intros c Hc. apply H. lia.
Qed.

Lemma cycles_where_bounds P lo n : 0 <= cycles_where P lo n <= Z.of_nat n.
Proof.
  revert lo; induction n as [|n IH]; intros lo; simpl; [lia|].
  specialize (IH (lo + 1)). destruct (P lo); simpl; lia.
Qed.

Lemma busy_count_ext P Q lo hi :
  (forall c, lo <= c < hi -> P c = Q c) -> busy_count P lo hi = busy_count Q lo hi.
Proof. intros H. apply cycles_where_ext. intros c Hc. apply H. lia. Qed.

Lemma busy_count_split P lo mid hi :
  lo <= mid <= hi -> busy_count P lo hi = busy_count P lo mid + busy_count P mid hi.
Proof.
  intros H. unfold busy_count.
  replace (Z.to_nat (hi - lo)) with (Z.to_nat (mid - lo) + Z.to_nat (hi - mid))%nat by lia.
  rewrite cycles_where_app. do 2 f_equal. lia.
Qed.

Lemma busy_count_const P b lo hi :
  lo <= hi -> (forall c, lo <= c < hi -> P c = b) ->
  busy_count P lo hi = Z.b2z b * (hi - lo).
Proof.
  intros Hle H. unfold busy_count. rewrite (cycles_where_const P b).
  - rewrite Z2Nat.id by lia. done.
  - intros c Hc. apply H. lia.
Qed.

Lemma busy_count_bounds P lo hi : lo <= hi -> 0 <= busy_count P lo hi <= hi - lo.
Proof. intros H. pose proof (cycles_where_bounds P lo (Z.to_nat (hi - lo))). unfold busy_count. lia. Qed.

Lemma cycles_where_compl P lo n :
  cycles_where P lo n + cycles_where (fun c => negb (P c)) lo n = Z.of_nat n.
Proof.
  revert lo; induction n as [|n IH]; intros lo; simpl; [done|].
  specialize (IH (lo + 1)). destruct (P lo); simpl; lia.
Qed.

Lemma busy_count_compl P Q lo hi :
  lo <= hi -> (forall c, lo <= c < hi -> Q c = negb (P c)) ->
  busy_count P lo hi + busy_count Q lo hi = hi - lo.
Proof.
  intros Hle H. rewrite (busy_count_ext Q (fun c => negb (P c))) by done.
  unfold busy_count. rewrite cycles_where_compl. lia.
Qed.

(** ** [BusyIntervalUnion] computes the measure of a union of intervals *)

Section IntervalUnion.
Import BusyIntervalUnion.

Lemma contains_spec iv c : contains iv c = true <-> iv.1 <= c < iv.2.
Proof. unfold contains. lia. Qed.

Lemma overlap_app h1 h2 c : overlap (h1 ++ h2) c = overlap h1 c + overlap h2 c.
Proof. induction h1 as [|iv h1 IH]; simpl; lia. Qed.

Lemma covered_app h1 h2 c : covered (h1 ++ h2) c = covered h1 c || covered h2 c.
Proof. apply existsb_app. Qed.

Lemma overlap_nonneg h c : 0 <= overlap h c.
Proof. induction h as [|iv h IH]; simpl; [lia|]. destruct (contains iv c); simpl; lia. Qed.

(** Ends of the intervals of [h] that are still open just after cycle [c]. *)
Definition open_ends (h : list (Z * Z)) (c : Z) : list Z :=
  filter (fun e => c < e) h.*2.

Lemma overlap_open_ends h c :
  Forall (fun iv => iv.1 <= c) h -> overlap h c = Z.of_nat (length (open_ends h c)).
Proof.
  induction 1 as [|iv h Hiv _ IH]; [done|]. unfold open_ends in *. csimpl.
  rewrite filter_cons. rewrite IH. unfold contains.
  case_decide; csimpl; destruct (Z.leb_spec iv.1 c), (Z.ltb_spec c iv.2); simpl; lia.
Qed.

Lemma heap_push_perm x q : heap_push x q ≡ₚ x :: q.
Proof.
  induction q as [|y q IH]; simpl; [done|]. case_match; [done|].
  rewrite IH. constructor.
Qed.

Lemma heap_push_sorted x q : Sorted Z.le q -> Sorted Z.le (heap_push x q).
Proof.
  induction 1 as [|y q Hq IH Hd]; simpl; [by repeat constructor|].
  destruct (Z.leb_spec x y); [constructor; [by constructor|constructor; lia]|].
  constructor; [done|]. destruct q as [|z q]; simpl in *; [constructor; lia|].
  inversion Hd. destruct (x <=? z); constructor; lia.
Qed.

Lemma pop_expired_filter start q :
  Sorted Z.le q -> pop_expired start q = filter (fun e => start < e) q.
Proof.
  intros Hs. apply Sorted_StronglySorted in Hs; [|intros ???; lia].
  induction Hs as [|e q Hq IH Hall]; simpl; [done|]. rewrite filter_cons.
  destruct (Z.leb_spec e start); case_decide; try lia; [done|].
  f_equal. clear IH Hq. induction q as [|y q IHq]; [done|].
  apply Forall_cons in Hall as [Hy Hall]. rewrite filter_cons, decide_True by lia.
  by rewrite <- IHq.
Qed.

Lemma filter_sorted (P : Z -> Prop) `{!forall x, Decision (P x)} q :
  Sorted Z.le q -> Sorted Z.le (filter P q).
Proof.
  intros Hs. apply Sorted_StronglySorted in Hs; [|intros ???; lia].
  apply StronglySorted_Sorted. induction Hs as [|e q Hq IH Hall]; [constructor|].
  rewrite filter_cons. case_decide; [|done]. constructor; [done|].
  apply Forall_forall. intros x [_ Hx]%list_elem_of_filter.
  by apply (proj1 (Forall_forall _ _) Hall).
Qed.

Lemma open_ends_later h c c' :
  c <= c' -> filter (fun e => c' < e) (open_ends h c) = open_ends h c'.
Proof.
  intros Hc. unfold open_ends. rewrite list_filter_filter.
  apply list_filter_iff. intros e. lia.
Qed.

(** What the counter records about the accepted intervals [h]. *)
Record tracks (s : t) (h : list (Z * Z)) : Prop := {
  tr_empty : h = [] -> s = init;
  tr_has : h <> [] -> hasInterval_ s = true;
  tr_ivs : Forall (fun iv => is_u64 iv.1 /\ is_u64 iv.2 /\ firstStart_ s <= iv.1 <= lastStart_ s
                             /\ iv.1 < iv.2 <= mergedEnd_ s) h;
  tr_first : h <> [] -> firstStart_ s <= lastStart_ s < mergedEnd_ s /\
             is_u64 (firstStart_ s) /\ is_u64 (mergedEnd_ s);
  tr_end : lastEnd_ s = mergedEnd_ s;
  tr_max : h <> [] -> mergedEnd_ s ∈ h.*2;
  tr_union : unionCycles_ s = busy_count (covered h) (firstStart_ s) (mergedEnd_ s);
  tr_idle : unionCycles_ s + idleCycles_ s = mergedEnd_ s - firstStart_ s;
  tr_idle_pos : 0 <= idleCycles_ s;
  tr_sorted : Sorted Z.le (activeEnds_ s);
  tr_active : activeEnds_ s ≡ₚ open_ends h (lastStart_ s);
  tr_conc : forall c, overlap h c <= maxConcurrency_ s;
  tr_conc_hit : h <> [] -> exists c, overlap h c = maxConcurrency_ s;
  tr_ops : operations_ s = u64 (Z.of_nat (length h))
}.

(** Past the last start, a cycle is covered exactly when it precedes the
    furthest end. *)
Lemma covered_late s h c :
  tracks s h -> h <> [] -> lastStart_ s <= c -> covered h c = (c <? mergedEnd_ s).
Proof.
  intros T Hne Hc. apply eq_bool_prop_intro. unfold covered.
  rewrite !Is_true_true, existsb_exists, Z.ltb_lt. split.
  - intros (iv & Hin & Hcon%contains_spec).
    apply list_elem_of_In in Hin.
    pose proof (proj1 (Forall_forall _ _) (tr_ivs _ _ T) iv Hin) as (?&?&?&?). lia.
  - intros Hlt. destruct (proj1 (list_elem_of_fmap _ _ _) (tr_max _ _ T Hne)) as (iv & Heq & Hin).
    exists iv. split; [by apply list_elem_of_In|]. apply contains_spec.
    pose proof (proj1 (Forall_forall _ _) (tr_ivs _ _ T) iv Hin) as (?&?&?&?). lia.
Qed.

Lemma overlap_late h c c' :
  Forall (fun iv => iv.1 <= c) h -> c <= c' -> overlap h c' <= overlap h c.
Proof.
  induction 1 as [|iv h Hiv _ IH]; intros Hc; simpl; [lia|].
  specialize (IH Hc). unfold contains.
  destruct (Z.leb_spec iv.1 c'), (Z.ltb_spec c' iv.2), (Z.leb_spec iv.1 c),
    (Z.ltb_spec c iv.2); simpl; lia.
Qed.

Lemma tracks_init : tracks init [].
Proof. constructor; try done; try lia; intros; simpl; try lia; done. Qed.

Lemma covered_snoc h a b c : covered (h ++ [(a, b)]) c = covered h c || contains (a, b) c.
Proof. rewrite covered_app. simpl. by rewrite orb_false_r. Qed.

(** Appending an interval that starts last adds the cycles past the furthest
    end. *)
Lemma union_extend s h a b :
  tracks s h -> h <> [] -> lastStart_ s <= a -> a < b ->
  busy_count (covered (h ++ [(a, b)])) (firstStart_ s) (Z.max (mergedEnd_ s) b) =
  unionCycles_ s + Z.max 0 (b - Z.max a (mergedEnd_ s)).
Proof.
  intros T Hne Ha Hab. destruct (tr_first _ _ T Hne) as (Hf & _ & _).
  set (F := firstStart_ s) in *. set (M := mergedEnd_ s) in *.
  rewrite (busy_count_split _ F M) by lia. f_equal.
  - rewrite (tr_union _ _ T). apply busy_count_ext. intros c Hc. rewrite covered_snoc.
    destruct (Z_lt_dec c a) as [Hlt|Hge].
    + replace (contains (a, b) c) with false by (unfold contains; simpl; lia).
      by rewrite orb_false_r.
    + rewrite (covered_late _ _ _ T Hne) by lia. fold M. lia.
  - rewrite (busy_count_split _ M (Z.max M (Z.min a (Z.max M b)))) by lia.
    rewrite (busy_count_const _ false M), (busy_count_const _ true); simpl Z.b2z; try lia.
    + intros c Hc. rewrite covered_snoc, (covered_late _ _ _ T Hne) by lia.
      fold M. unfold contains; simpl. lia.
    + intros c Hc. rewrite covered_snoc, (covered_late _ _ _ T Hne) by lia.
      fold M. unfold contains; simpl. lia.
Qed.

Lemma Forall_snoc_iff {A} (P : A -> Prop) l x : Forall P (l ++ [x]) <-> Forall P l /\ P x.
Proof. by rewrite Forall_app, Forall_singleton. Qed.

(** The heap after an accepted interval: its size is the overlap at the start. *)
Lemma active_extend s h a b :
  tracks s h -> (h <> [] -> lastStart_ s <= a) -> a < b ->
  let q := heap_push b (pop_expired a (activeEnds_ s)) in
  Sorted Z.le q /\ q ≡ₚ open_ends (h ++ [(a, b)]) a /\
  Z.of_nat (length q) = overlap (h ++ [(a, b)]) a.
Proof.
  intros T Ha Hab q. subst q. pose proof (tr_sorted _ _ T) as Hs.
  rewrite pop_expired_filter by done.
  assert (filter (fun e => a < e) (activeEnds_ s) ≡ₚ open_ends h a) as Hf.
  { rewrite (tr_active _ _ T). destruct h as [|iv h]; [done|].
    rewrite open_ends_later; [done|]. by apply Ha. }
  assert (heap_push b (filter (fun e => a < e) (activeEnds_ s)) ≡ₚ open_ends (h ++ [(a, b)]) a) as Hp.
  { rewrite heap_push_perm, Hf. unfold open_ends.
    rewrite fmap_app, filter_app. csimpl. rewrite filter_cons, decide_True by done.
    simpl. rewrite (Permutation_app_comm _ [b]). done. }
  split_and!; [by apply heap_push_sorted, filter_sorted|done|].
  rewrite overlap_open_ends, Hp; [done|]. apply Forall_snoc_iff. split; [|simpl; lia].
  destruct h as [|iv h]; [constructor|]. eapply Forall_impl; [apply (tr_ivs _ _ T)|].
  simpl. intros iv' (?&?&?&?). specialize (Ha ltac:(done)). lia.
Qed.

(** Every field after an accepted interval, in closed form and free of
    wrap-around. *)
Lemma add_fields s h a b s' :
  tracks s h -> h <> [] -> is_u64 a -> is_u64 b -> add a b s = (true, s') ->
  a < b /\ lastStart_ s <= a /\
  s' = mk true (firstStart_ s) a (Z.max (mergedEnd_ s) b) (Z.max (mergedEnd_ s) b)
         (unionCycles_ s + Z.max 0 (b - Z.max a (mergedEnd_ s)))
         (idleCycles_ s + Z.max 0 (a - mergedEnd_ s))
         (Z.max (maxConcurrency_ s)
            (Z.of_nat (length (heap_push b (pop_expired a (activeEnds_ s))))))
         (operations_ s ⊞ 1)
         (heap_push b (pop_expired a (activeEnds_ s))).
Proof.
  intros T Hne Hua Hub. unfold add. rewrite (tr_has _ _ T Hne). simpl.
  destruct (Z.leb_spec b a), (Z.ltb_spec a (lastStart_ s)); simpl; try discriminate.
  pose proof (tr_first _ _ T Hne) as (? & ? & ?). pose proof (tr_idle _ _ T).
  pose proof (tr_idle_pos _ _ T). pose proof (tr_end _ _ T) as Hend.
  pose proof (tr_has _ _ T Hne) as Hhas.
  pose proof (busy_count_bounds (covered h) (firstStart_ s) (mergedEnd_ s) ltac:(lia)) as Hbc.
  rewrite <- (tr_union _ _ T) in Hbc.
  intros Heq; injection Heq as <-. split_and!; [done..|].
  destruct s; simpl in *; subst.
  destruct (Z.leb_spec a mergedEnd_0), (Z.ltb_spec mergedEnd_0 b); simpl;
    f_equal; mach_lia.
Qed.

Lemma tracks_first a b s' :
  is_u64 a -> is_u64 b -> add a b init = (true, s') -> tracks s' [(a, b)].
Proof.
  intros Ha Hb. unfold add. simpl. destruct (Z.leb_spec b a); [discriminate|].
  intros Heq; injection Heq as <-. unfold is_u64 in *.
  assert (open_ends [(a, b)] a = [b]) as Ho.
  { unfold open_ends. csimpl. by rewrite filter_cons, decide_True. }
  constructor; csimpl; unwrap_goal; try done; try lia.
  - repeat constructor; simpl; lia.
  - intros _. left.
  - rewrite (busy_count_const _ true); simpl Z.b2z; [lia..|].
    intros c Hc. unfold covered, contains; simpl. lia.
  - repeat constructor.
  - by rewrite Ho.
  - intros c. destruct (contains (a, b) c); simpl; lia.
  - intros _. exists a. unfold contains; simpl. destruct (Z.leb_spec a a), (Z.ltb_spec a b); simpl; lia.
Qed.

Lemma tracks_next s h a b s' :
  tracks s h -> h <> [] -> is_u64 a -> is_u64 b -> add a b s = (true, s') ->
  tracks s' (h ++ [(a, b)]).
Proof.
  intros T Hne Ha Hb Hadd.
  destruct (add_fields _ _ _ _ _ T Hne Ha Hb Hadd) as (Hab & Hls & ->).
  pose proof (tr_first _ _ T Hne) as (? & ? & ?). pose proof (tr_idle _ _ T).
  pose proof (tr_idle_pos _ _ T).
  destruct (active_extend s h a b T ltac:(done) Hab) as (Hsort & Hperm & Hlen).
  assert (forall c, overlap (h ++ [(a, b)]) c <=
    Z.max (maxConcurrency_ s) (Z.of_nat (length (heap_push b (pop_expired a (activeEnds_ s)))))) as Hconc.
  { intros c. destruct (contains (a, b) c) eqn:Ec.
    - apply contains_spec in Ec; simpl in Ec. rewrite Hlen.
      etrans; [apply (overlap_late _ a); [|lia]|lia]. apply Forall_snoc_iff. split; [|simpl; lia].
      eapply Forall_impl; [apply (tr_ivs _ _ T)|]. simpl. intros ? (?&?&?&?). lia.
    - rewrite overlap_app. simpl. rewrite Ec. simpl. pose proof (tr_conc _ _ T c). lia. }
  constructor; simpl.
  - by destruct h.
  - done.
  - apply Forall_snoc_iff. split; [|simpl; unfold is_u64 in *; lia].
    eapply Forall_impl; [apply (tr_ivs _ _ T)|]. simpl. intros ? (?&?&?&?). split_and!; lia || done.
  - intros _. unfold is_u64 in *. split_and!; lia.
  - done.
  - intros _. rewrite fmap_app. apply elem_of_app.
    destruct (Z.max_spec (mergedEnd_ s) b) as [[_ ->]|[_ ->]]; [right; left|left].
    by apply (tr_max _ _ T).
  - by rewrite (union_extend _ _ _ _ T).
  - lia.
  - lia.
  - done.
  - done.
  - done.
  - intros _. destruct (tr_conc_hit _ _ T Hne) as [c Hc]. rewrite Hlen in *.
    pose proof (Hconc c). pose proof (overlap_nonneg [(a, b)] c). rewrite overlap_app in *.
    destruct (Z.max_spec (maxConcurrency_ s) (overlap (h ++ [(a, b)]) a)) as [[? E]|[? E]];
      rewrite overlap_app in *; [by exists a; rewrite overlap_app|exists c; rewrite overlap_app; lia].
  - rewrite (tr_ops _ _ T), length_app. simpl. unfold u64.
    rewrite Zplus_mod_idemp_l. f_equal. lia.
Qed.

Lemma add_reject a b s s' : add a b s = (false, s') -> s' = s.
Proof. unfold add. repeat case_match; intros [=]; done. Qed.

Lemma run_tracks s h : run s h -> tracks s h.
Proof.
  induction 1 as [|s h a b s' _ IH Ha Hb Hadd|s h a b s' _ IH Hadd].
  - apply tracks_init.
  - destruct h as [|iv h]; [|by eapply tracks_next].
    rewrite (tr_empty _ _ IH eq_refl) in Hadd. by apply tracks_first.
  - by rewrite (add_reject _ _ _ _ Hadd).
Qed.


(** Three overlapping bursts, a rejected out-of-order interval and a gap. *)
Definition demo1 : t := (add 5 10 init).2.
Definition demo2 : t := (add 9 12 demo1).2.
Definition demo3 : t := (add 1 2 demo2).2.
Definition demo : t := (add 20 25 demo3).2.


End IntervalUnion.

(** ** [BusyActivityTracker] counts the cycles with a non-zero occupancy *)

Section ActivityTracker.
Import BusyActivityTracker.

Definition busy_at (h : list event) (c : Z) : bool := 0 <? occupancy h c.
Definition idle_at (h : list event) (c : Z) : bool := occupancy h c =? 0.

Lemma occupancy_snoc h e c : occupancy (h ++ [e]) c = occupancy h c + occ_of e c.
Proof. induction h as [|e' h IH]; simpl; lia. Qed.

Lemma occ_of_spec e c :
  occ_of e c =
  if cycle_of e <=? c then match e with Enter _ => 1 | Leave _ => -1 end else 0.
Proof. destruct e; simpl; by destruct (_ <=? _). Qed.

(** What the tracker records about the accepted events [h]. *)
Record follows (s : t) (h : list event) : Prop := {
  fo_empty : h = [] -> s = init;
  fo_flags : h <> [] -> hasEvent_ s = true /\ hasSpan_ s = true;
  fo_first : h <> [] -> firstCycle_ s = first_cycle h;
  fo_range : is_u64 (firstCycle_ s) /\ is_u64 (lastEventCycle_ s) /\
             firstCycle_ s <= lastEventCycle_ s;
  fo_active : 0 <= active_ s <= Z.of_nat (length h);
  fo_late : forall c, lastEventCycle_ s <= c -> occupancy h c = active_ s;
  fo_peak : forall c, 0 <= occupancy h c <= maxConcurrency_ s;
  fo_closed : active_ s = 0 -> lastCloseCycle_ s = lastEventCycle_ s /\
    unionCycles_ s = busy_count (busy_at h) (firstCycle_ s) (lastEventCycle_ s);
  fo_open : 0 < active_ s -> firstCycle_ s <= openCycle_ s <= lastEventCycle_ s /\
    unionCycles_ s = busy_count (busy_at h) (firstCycle_ s) (openCycle_ s) /\
    forall c, openCycle_ s <= c -> busy_at h c = true
}.

Lemma follows_init : follows init [].
Proof. constructor; try done; simpl; try (unfold is_u64; lia); intros; lia. Qed.

Lemma busy_at_snoc h e c : c < cycle_of e -> busy_at (h ++ [e]) c = busy_at h c.
Proof.
  intros Hc. unfold busy_at. rewrite occupancy_snoc, occ_of_spec.
  destruct (Z.leb_spec (cycle_of e) c); [lia|]. by rewrite Z.add_0_r.
Qed.

Lemma busy_count_snoc h e lo hi :
  hi <= cycle_of e -> busy_count (busy_at (h ++ [e])) lo hi = busy_count (busy_at h) lo hi.
Proof. intros H. apply busy_count_ext. intros c Hc. apply busy_at_snoc. lia. Qed.

(** Busy cycles up to a cycle past the last event, whatever the state. *)
Lemma busy_upto s h now :
  follows s h -> lastEventCycle_ s <= now ->
  busy_count (busy_at h) (firstCycle_ s) now =
  unionCycles_ s + (if active_ s =? 0 then 0 else now - openCycle_ s).
Proof.
  intros F Hnow. destruct (fo_range _ _ F) as (_ & _ & Hr). pose proof (fo_active _ _ F).
  destruct (Z.eqb_spec (active_ s) 0) as [Ha|Ha].
  - destruct (fo_closed _ _ F Ha) as (_ & ->).
    rewrite (busy_count_split _ _ (lastEventCycle_ s)) by lia.
    rewrite (busy_count_const _ false (lastEventCycle_ s)); [simpl; lia|lia|].
    intros c Hc. unfold busy_at. rewrite (fo_late _ _ F) by lia. lia.
  - destruct (fo_open _ _ F ltac:(lia)) as (? & -> & Hb).
    rewrite (busy_count_split _ _ (openCycle_ s)) by lia.
    rewrite (busy_count_const _ true (openCycle_ s)); [simpl; lia|lia|].
    intros c Hc. apply Hb. lia.
Qed.

Lemma enter_fields s h k s' :
  follows s h -> h <> [] -> Z.of_nat (length h) < 2 ^ 64 - 1 -> enter k s = (true, s') ->
  lastEventCycle_ s <= k /\
  s' = mk true true (active_ s + 1) (Z.max (maxConcurrency_ s) (active_ s + 1)) (firstCycle_ s)
         (if active_ s =? 0 then k else openCycle_ s) (lastCloseCycle_ s) k (unionCycles_ s).
Proof.
  intros F Hne Hlen. unfold enter. destruct (fo_flags _ _ F Hne) as [He Hs].
  pose proof (fo_active _ _ F). rewrite He. simpl.
  destruct (Z.ltb_spec k (lastEventCycle_ s)); [discriminate|].
  intros Heq; injection Heq as <-. split; [done|].
  destruct s; simpl in *; subst. destruct (active_0 =? 0); simpl; f_equal; mach_lia.
Qed.

Lemma leave_fields s h k s' :
  follows s h -> h <> [] -> Z.of_nat (length h) < 2 ^ 64 -> is_u64 k ->
  leave k s = (true, s') ->
  lastEventCycle_ s <= k /\ 0 < active_ s /\
  s' = mk true true (active_ s - 1) (maxConcurrency_ s) (firstCycle_ s) (openCycle_ s)
         (if active_ s =? 1 then k else lastCloseCycle_ s) k
         (unionCycles_ s + (if active_ s =? 1 then k - openCycle_ s else 0)).
Proof.
  intros F Hne Hlen Hk. unfold leave. destruct (fo_flags _ _ F Hne) as [He Hs].
  pose proof (fo_active _ _ F) as Ha. pose proof (fo_range _ _ F) as (? & ? & ?).
  rewrite He. simpl.
  destruct (Z.eqb_spec (active_ s) 0) as [|Hz]; [discriminate|].
  destruct (Z.ltb_spec k (lastEventCycle_ s)); [discriminate|]. simpl.
  destruct (fo_open _ _ F ltac:(lia)) as (? & Hu & _).
  pose proof (busy_count_bounds (busy_at h) (firstCycle_ s) (openCycle_ s) ltac:(lia)) as Hb.
  rewrite <- Hu in Hb. clear Hu.
  intros Heq; injection Heq as <-. split_and!; [done|lia|].
  replace (active_ s ⊟ 1) with (active_ s - 1) by mach_lia.
  destruct s; simpl in *; subst.
  destruct (Z.eqb_spec (active_0 - 1) 0), (Z.eqb_spec active_0 1); simpl; try lia;
    f_equal; mach_lia.
Qed.

Lemma follows_first k s' :
  is_u64 k -> enter k init = (true, s') -> follows s' [Enter k].
Proof.
  intros Hk [=<-]. unfold is_u64 in *.
  constructor; simpl; unwrap_goal; try done; try lia.
  - intros c Hc. destruct (Z.leb_spec k c); simpl; lia.
  - intros c. destruct (Z.leb_spec k c); simpl; lia.
  - intros _. split_and!; [lia..|unfold busy_count; by rewrite Z.sub_diag|].
    intros c Hc. unfold busy_at; simpl. destruct (Z.leb_spec k c); simpl; lia.
Qed.

Lemma first_cycle_snoc h e : h <> [] -> first_cycle (h ++ [e]) = first_cycle h.
Proof. by destruct h. Qed.

Lemma follows_enter s h k s' :
  follows s h -> h <> [] -> Z.of_nat (length h) < 2 ^ 64 - 1 -> is_u64 k ->
  enter k s = (true, s') -> follows s' (h ++ [Enter k]).
Proof.
  intros F Hne Hlen Hk Hent. pose proof (fo_range _ _ F) as (? & ? & ?).
  pose proof (fo_active _ _ F).
  destruct (enter_fields _ _ _ _ F Hne Hlen Hent) as (Hge & ->).
  pose proof (busy_upto _ _ k F Hge) as Hup.
  constructor; simpl; try done.
  - by destruct h.
  - intros _. rewrite first_cycle_snoc by done. by apply (fo_first _ _ F).
  - split_and!; [done..|lia].
  - rewrite length_app. simpl. lia.
  - intros c Hc. rewrite occupancy_snoc, (fo_late _ _ F) by lia. simpl.
    destruct (Z.leb_spec k c); simpl; lia.
  - intros c. rewrite occupancy_snoc. pose proof (fo_peak _ _ F c). simpl.
    destruct (Z.leb_spec k c); simpl; [|lia]. rewrite (fo_late _ _ F) in * by lia. lia.
  - lia.
  - intros _. destruct (Z.eqb_spec (active_ s) 0) as [Ha|Ha].
    + split_and!; [lia..|rewrite busy_count_snoc by done; lia|].
      intros c Hc. unfold busy_at. rewrite occupancy_snoc, (fo_late _ _ F) by lia.
      simpl. destruct (Z.leb_spec k c); simpl; lia.
    + destruct (fo_open _ _ F ltac:(lia)) as (? & Hu & Hb).
      split_and!; [lia..|rewrite busy_count_snoc by (simpl; lia); done|].
      intros c Hc. specialize (Hb c Hc). unfold busy_at in *. rewrite occupancy_snoc. simpl.
      destruct (k <=? c); simpl; lia.
Qed.

Lemma follows_leave s h k s' :
  follows s h -> h <> [] -> Z.of_nat (length h) < 2 ^ 64 -> is_u64 k ->
  leave k s = (true, s') -> follows s' (h ++ [Leave k]).
Proof.
  intros F Hne Hlen Hk Hlv. pose proof (fo_range _ _ F) as (? & ? & ?).
  pose proof (fo_active _ _ F).
  destruct (leave_fields _ _ _ _ F Hne Hlen Hk Hlv) as (Hge & Hpos & ->).
  pose proof (busy_upto _ _ k F Hge) as Hup.
  destruct (fo_open _ _ F Hpos) as (? & Hu & Hb).
  constructor; simpl; try done.
  - by destruct h.
  - intros _. rewrite first_cycle_snoc by done. by apply (fo_first _ _ F).
  - split_and!; [done..|lia].
  - rewrite length_app. simpl. lia.
  - intros c Hc. rewrite occupancy_snoc, (fo_late _ _ F) by lia. simpl.
    destruct (Z.leb_spec k c); simpl; lia.
  - intros c. rewrite occupancy_snoc. pose proof (fo_peak _ _ F c). simpl.
    destruct (Z.leb_spec k c); simpl; [|lia]. rewrite (fo_late _ _ F) in * by lia. lia.
  - intros Ha. destruct (Z.eqb_spec (active_ s) 1); [|lia]. split; [done|].
    rewrite busy_count_snoc by done. rewrite Hup. destruct (Z.eqb_spec (active_ s) 0); lia.
  - intros Ha. destruct (Z.eqb_spec (active_ s) 1); [lia|].
    split_and!; [lia..|rewrite busy_count_snoc by (simpl; lia); lia|].
    intros c Hc. specialize (Hb c Hc). unfold busy_at in *. rewrite occupancy_snoc. simpl.
    destruct (Z.leb_spec k c); simpl; [|lia]. rewrite (fo_late _ _ F) by lia. lia.
Qed.

Lemma step_reject e s s' : step e s = (false, s') -> s' = s.
Proof. destruct e; simpl; unfold enter, leave; repeat case_match; intros [=]; done. Qed.

Lemma run_follows s h : run s h -> Z.of_nat (length h) < 2 ^ 64 -> follows s h.
Proof.
  induction 1 as [|s h e s' _ IH Hk Hst|s h e s' _ IH Hst]; intros Hlen.
  - apply follows_init.
  - rewrite length_app in Hlen. simpl in Hlen. specialize (IH ltac:(lia)).
    destruct h as [|e' h].
    + rewrite (fo_empty _ _ IH eq_refl) in Hst. destruct e; [by apply follows_first|].
      discriminate.
    + destruct e; [eapply follows_enter|eapply follows_leave]; eauto; simpl in *; lia.
  - rewrite (step_reject _ _ _ Hst). by apply IH.
Qed.

(** For every sequence of enter/leave events, read at any cycle [now] not
    before the last event, [unionCycles] is the number of cycles with a
    non-zero occupancy, [idleCycles] the number of cycles of the span with
    occupancy zero (the subtraction never wraps), and the recorded peak bounds
    the occupancy of every cycle. *)
Theorem activity_exact s h now :
  run s h -> Z.of_nat (length h) < 2 ^ 64 -> is_u64 now -> lastEventCycle_ s <= now ->
  let stop := if active s =? 0 then lastCloseCycle_ s else now in
  unionCycles now s = busy_count (busy_at h) (firstCycle_ s) now /\
  idleCycles now s = busy_count (idle_at h) (firstCycle_ s) stop /\
  unionCycles now s + idleCycles now s = spanCycles now s /\
  (forall c, lastEventCycle_ s <= c -> occupancy h c = active s) /\
  (forall c, 0 <= occupancy h c <= maxConcurrency s).
Proof.
  intros F Hlen Hnow Hle. apply run_follows in F; [|done].
  pose proof (fo_range _ _ F) as (? & ? & ?). pose proof (fo_active _ _ F).
  pose proof (busy_upto _ _ now F Hle) as Hup.
  pose proof (busy_count_bounds (busy_at h) (firstCycle_ s) now ltac:(lia)) as Hb.
  intros stop. unfold active in stop.
  assert (firstCycle_ s <= stop <= now) as Hstop.
  { subst stop. destruct (Z.eqb_spec (active_ s) 0) as [Ha|]; [|lia].
    destruct (fo_closed _ _ F Ha) as [-> _]. lia. }
  assert (unionCycles now s = busy_count (busy_at h) (firstCycle_ s) now) as HU.
  { unfold unionCycles. destruct (Z.eqb_spec (active_ s) 0) as [Ha|Ha]; [lia|].
    destruct (fo_open _ _ F ltac:(lia)) as (? & Hu & _).
    pose proof (busy_count_bounds (busy_at h) (firstCycle_ s) (openCycle_ s) ltac:(lia)).
    rewrite Z.max_l by lia. rewrite Hup. unfold u64.
    rewrite Zminus_mod_idemp_l. rewrite Z.mod_small; unfold is_u64 in *; lia. }
  assert (busy_count (busy_at h) (firstCycle_ s) stop = unionCycles now s) as Hst.
  { rewrite HU. subst stop. destruct (Z.eqb_spec (active_ s) 0) as [Ha|]; [|done].
    destruct (fo_closed _ _ F Ha) as [-> Hu]. lia. }
  assert (spanCycles now s = stop - firstCycle_ s) as Hsp.
  { unfold spanCycles. subst stop. destruct h as [|e h].
    - by rewrite (fo_empty _ _ F eq_refl).
    - destruct (fo_flags _ _ F ltac:(done)) as [_ ->]. simpl.
      rewrite Z.max_l by lia. mach_lia. }
  pose proof (busy_count_compl (busy_at h) (idle_at h) (firstCycle_ s) stop ltac:(lia)) as Hc.
  lapply Hc; [clear Hc; intros Hc|].
  - pose proof (busy_count_bounds (idle_at h) (firstCycle_ s) stop ltac:(lia)).
    unfold idleCycles. rewrite Hsp. split_and!; [done| | |apply (fo_late _ _ F)|apply (fo_peak _ _ F)].
    + mach_lia.
    + mach_lia.
  - intros c _. unfold idle_at, busy_at. pose proof (fo_peak _ _ F c). lia.
Qed.

Definition tdemo1 : t := (enter 3 init).2.
Definition tdemo2 : t := (enter 5 tdemo1).2.
Definition tdemo3 : t := (leave 6 tdemo2).2.
Definition tdemo4 : t := (leave 9 tdemo3).2.
Definition tdemo : t := (enter 14 tdemo4).2.

Lemma activity_exact_witness :
  let h := [Enter 3; Enter 5; Leave 6; Leave 9; Enter 14] in
  run tdemo h /\ unionCycles 20 tdemo = busy_count (busy_at h) 3 20 /\
  unionCycles 20 tdemo = 12 /\ idleCycles 20 tdemo = 5.
Proof.
  assert (run tdemo [Enter 3; Enter 5; Leave 6; Leave 9; Enter 14]) as R.
  { apply (run_step tdemo4 [Enter 3; Enter 5; Leave 6; Leave 9] (Enter 14));
      [|unfold is_u64; simpl; lia|reflexivity].
    apply (run_step tdemo3 [Enter 3; Enter 5; Leave 6] (Leave 9));
      [|unfold is_u64; simpl; lia|reflexivity].
    apply (run_step tdemo2 [Enter 3; Enter 5] (Leave 6));
      [|unfold is_u64; simpl; lia|reflexivity].
    apply (run_step tdemo1 [Enter 3] (Enter 5)); [|unfold is_u64; simpl; lia|reflexivity].
    apply (run_step init [] (Enter 3) _ run_init); [unfold is_u64; simpl; lia|reflexivity]. }
  destruct (activity_exact tdemo _ 20 R ltac:(simpl; lia) ltac:(unfold is_u64; lia)
    ltac:(simpl; lia)) as (E1 & E2 & _).
  split; [exact R|]. split; [exact E1|]. split; [rewrite E1; reflexivity|].
  rewrite E2. reflexivity.
Defined.

End ActivityTracker.
