(* ===== verification/Cluster.v ===== *)
(** * Attention cluster bookkeeping

    Models the generation and ownership bookkeeping of
    golem/attention/attentionCluster.h: the cancel registry
    ([CancelRegistry]), the traffic classes, the cluster configuration with its
    validation and fingerprint ([Config]), the tag that names a unit of work,
    the generation fence ([Fence]) and the array/bank/context ownership table
    ([ClusterState]). *)

From S2P Require Import Prelude.
From stdpp Require Import strings.
#[local] Open Scope Z_scope.

(** ** Generation cancel registry *)

Module CancelRegistry.

(** [cancelled_]: writes still to be discarded, per generation token. *)
Definition registry := gmap Z Z.

Definition token (owner generation : Z) : Z := Z.lxor (u64 (Z.shiftl owner 32)) generation.

Definition cancel (owner generation pendingWrites : Z) (r : gmap Z Z) : gmap Z Z :=
  if negb (pendingWrites =? 0) then
    <[token owner generation := default 0 (r !! token owner generation) ⊞ pendingWrites]> r
  else r.

Definition consume (generationToken : Z) (r : gmap Z Z) : bool * gmap Z Z :=
  if generationToken =? 0 then (false, r)
  else match r !! generationToken with
       | None => (false, r)
       | Some n =>
           (true, if n <=? 1 then delete generationToken r
                  else <[generationToken := n ⊟ 1]> r)
       end.

Definition cancelledToken (generationToken : Z) (r : gmap Z Z) : bool * gmap Z Z :=
  consume generationToken r.
Definition discardToken (generationToken : Z) (r : gmap Z Z) : bool * gmap Z Z :=
  consume generationToken r.

(** Call sequences on the registry. *)
Inductive call :=
| Cancel (owner generation pendingWrites : Z)
| CancelledToken (generationToken : Z)
| DiscardToken (generationToken : Z).

(** One call: the token it consumed, when it did, and the new registry. *)
Definition exec (c : call) (r : gmap Z Z) : option Z * gmap Z Z :=
  match c with
  | Cancel o g n => (None, cancel o g n r)
  | CancelledToken k =>
      let '(ok, r') := cancelledToken k r in (if ok then Some k else None, r')
  | DiscardToken k =>
      let '(ok, r') := discardToken k r in (if ok then Some k else None, r')
  end.

(** The tokens consumed by a sequence of calls, oldest first, and the final
    registry. *)
Fixpoint exec_all (cs : list call) (r : gmap Z Z) : list Z * gmap Z Z :=
  match cs with
  | [] => ([], r)
  | c :: cs' =>
      let '(o, r') := exec c r in
      let '(ks, r'') := exec_all cs' r' in
      (option_list o ++ ks, r'')
  end.

(** Writes announced as pending for [(owner, generation)] by the calls. *)
Fixpoint announced (owner generation : Z) (cs : list call) : Z :=
  match cs with
  | [] => 0
  | Cancel o g n :: cs' =>
      (if (o =? owner) && (g =? generation) then n else 0) + announced owner generation cs'
  | _ :: cs' => announced owner generation cs'
  end.

Definition call_ok (c : call) : Prop :=
  match c with
  | Cancel o g n => is_u32 o /\ is_u32 g /\ 0 <= n
  | _ => True
  end.

Definition remaining (k : Z) (r : gmap Z Z) : Z := default 0 (r !! k).
Definition times (k : Z) (ks : list Z) : Z := Z.of_nat (length (filter (fun x => x = k) ks)).

End CancelRegistry.

(** ** Traffic classes *)

Inductive AttentionClusterTrafficClass :=
| Legacy | QkKMatrix | QkQPair | QkScoreOut | SequentialQkScoreOut
| SequentialQkInputScatter | PvVMatrix | PvPInput | SequentialPvInput
| SequentialPvInputScatter | SequentialPvORestore | SequentialPvOOutput
| PvOFinalDrain | ScoreSfuRead | SfuPWrite | OScale | OAccumulate | Count.

Definition attentionClusterTrafficClassName (c : AttentionClusterTrafficClass) : string :=
  match c with
  | Legacy => "legacy"
  | QkKMatrix => "qk_k_matrix"
  | QkQPair => "qk_q_pair"
  | QkScoreOut => "qk_score_out"
  | SequentialQkScoreOut => "sequential_qk_score_out"
  | SequentialQkInputScatter => "sequential_qk_input_scatter"
  | PvVMatrix => "pv_v_matrix"
  | PvPInput => "pv_p_input"
  | SequentialPvInput => "sequential_pv_input"
  | SequentialPvInputScatter => "sequential_pv_input_scatter"
  | SequentialPvORestore => "sequential_pv_o_restore"
  | SequentialPvOOutput => "sequential_pv_o_output"
  | PvOFinalDrain => "pv_o_final_drain"
  | ScoreSfuRead => "score_sfu_read"
  | SfuPWrite => "sfu_p_write"
  | OScale => "o_scale"
  | OAccumulate => "o_accumulate"
  | Count => "invalid"
  end.

(** ** Cluster configuration *)

Module Config.

Record t := mk {
  arrays : Z; qkArrays : Z; pvArrays : Z; arrayInputs : Z; arrayOutputs : Z;
  operandBanks : Z; scoreSlots : Z; pSlots : Z; oContexts : Z; headDim : Z;
  queryTileRows : Z; kvTileRows : Z; groupSize : Z; elemBytes : Z; oFmaLanes : Z;
  oFmaLatencyCycles : Z; oFp32Fused : bool; causal : bool
}.

Definition default_config : t := mk 64 16 48 64 64 2 4 4 4 128 16 64 4 4 16 2 true false.

(** The diagnosis of the first violated requirement; empty when there is none. *)
Definition validate (c : t) : string :=
  if negb (arrays c =? 64) || negb ((qkArrays c ⊞₃₂ pvArrays c) =? arrays c) ||
     (negb (qkArrays c =? 16) && negb (qkArrays c =? 24) && negb (qkArrays c =? 32) &&
      negb (qkArrays c =? 40))
  then "cluster requires 64 arrays with QK ownership 16, 24, 32, or 40"
  else if negb (qkArrays c mod 2 =? 0) || negb (pvArrays c mod 2 =? 0)
  then "cluster D128 ownership must contain complete D64 array pairs"
  else if negb (arrayInputs c =? 64) || negb (arrayOutputs c =? 64)
  then "cluster requires 64x64 arrays"
  else if negb (operandBanks c =? 2) then "cluster requires two operand banks"
  else if negb (scoreSlots c =? 4) || negb (pSlots c =? 4) || negb (oContexts c =? 4)
  then "cluster requires four score/P/O contexts"
  else if negb (headDim c =? 128) || negb (queryTileRows c =? 16) ||
          (negb (kvTileRows c =? 32) && negb (kvTileRows c =? 64))
  then "cluster requires D128 Br16 and Bc32 or Bc64"
  else if negb (groupSize c =? 4) then "cluster requires query group size four"
  else if negb (elemBytes c =? 4) then "cluster requires FP32 operands"
  else if negb (oFmaLanes c =? 16) || negb (oFmaLatencyCycles c =? 2) || negb (oFp32Fused c)
  then "cluster requires a 16-lane two-cycle fused FP32 O engine"
  else if causal c then "cluster phase L2-L4 supports non-causal attention only"
  else "".

Definition values (c : t) : list Z :=
  [arrays c; qkArrays c; pvArrays c; arrayInputs c; arrayOutputs c; operandBanks c;
   scoreSlots c; pSlots c; oContexts c; headDim c; queryTileRows c; kvTileRows c;
   groupSize c; elemBytes c; oFmaLanes c; oFmaLatencyCycles c;
   Z.b2z (oFp32Fused c); Z.b2z (causal c)].

(** One byte of the FNV-1a hash. *)
Definition hash_byte (value hash byte : Z) : Z :=
  u64 (Z.lxor hash (Z.land (Z.shiftr value (byte * 8)) 0xff) * 1099511628211).

Definition fingerprint (c : t) : Z :=
  fold_left (fun hash value => fold_left (hash_byte value) [0; 1; 2; 3; 4; 5; 6; 7] hash)
    (values c) 1469598103934665603.

Definition fields_u32 (c : t) : Prop := Forall is_u32 (values c).

(** The configurations the cluster is built for. *)
Definition supported : list t :=
  kv ← [32; 64]; qk ← [16; 24; 32; 40];
  [mk 64 qk (64 - qk) 64 64 2 4 4 4 128 16 kv 4 4 16 2 true false].

End Config.

(** ** Work tags *)

Record AttentionClusterTag := mkTag {
  generation : Z;
  jobId : Z;
  group : Z;
  queryContext : Z;
  queryTileIndex : Z;
  kvTileIndex : Z;
  sequence : Z
}.

Definition no_tag : AttentionClusterTag := mkTag 0 0 0 0 0 0 0.

#[export] Instance tag_inhabited : Inhabited AttentionClusterTag := populate no_tag.
#[export] Instance tag_eq_dec : EqDecision AttentionClusterTag.
Proof. solve_decision. Defined.

Definition tag_eqb (a b : AttentionClusterTag) : bool :=
  (generation a =? generation b) && (jobId a =? jobId b) && (group a =? group b) &&
  (queryContext a =? queryContext b) && (queryTileIndex a =? queryTileIndex b) &&
  (kvTileIndex a =? kvTileIndex b) && (sequence a =? sequence b).

(** ** Generation fence *)

Module Fence.

Record t := mk { activeGeneration_ : Z }.
#[export] Instance eta_t : Eta t := fun s => mk (activeGeneration_ s).

Definition init : t := mk 0.

Definition begin (g : Z) (s : t) : bool * t :=
  if (g =? 0) || negb (activeGeneration_ s =? 0) then (false, s)
  else (true, s <| activeGeneration_ := g |>).

Definition matches (g : Z) (s : t) : bool := negb (g =? 0) && (g =? activeGeneration_ s).

Definition retire (g : Z) (s : t) : bool * t :=
  if negb (matches g s) then (false, s) else (true, s <| activeGeneration_ := 0 |>).

Definition cancel (g : Z) (s : t) : bool * t := retire g s.
Definition active (s : t) : Z := activeGeneration_ s.

End Fence.

(** ** Array, operand-bank and context ownership *)

Inductive AttentionArrayOwner := OwnerNone | OwnerQk | OwnerPv.
Inductive AttentionClusterContextKind := KindQk | KindScore | KindPv | KindO.

#[export] Instance owner_eq_dec : EqDecision AttentionArrayOwner.
Proof. solve_decision. Defined.
#[export] Instance kind_eq_dec : EqDecision AttentionClusterContextKind.
Proof. solve_decision. Defined.
#[export] Instance owner_inhabited : Inhabited AttentionArrayOwner := populate OwnerNone.

Record AttentionClusterContext := mkContext {
  valid : bool;
  tag : AttentionClusterTag;
  operandBank : Z;
  creditsHeld : Z
}.
Definition no_context : AttentionClusterContext := mkContext false no_tag 0 0.
#[export] Instance context_inhabited : Inhabited AttentionClusterContext := populate no_context.

Record BankLease := mkLease { lease_tag : AttentionClusterTag; refs : Z }.
Definition no_lease : BankLease := mkLease no_tag 0.
#[export] Instance lease_inhabited : Inhabited BankLease := populate no_lease.

Module ClusterState.

Definition kArrayCount : nat := 64.
Definition kQkArrayCount : Z := 16.
Definition kOperandBanks : Z := 2.

Record t := mk {
  enabled_ : bool;
  generation_ : Z;
  owners_ : list AttentionArrayOwner;
  bankLeases_ : list (list BankLease);
  qkContexts_ : list AttentionClusterContext;
  scoreContexts_ : list AttentionClusterContext;
  pvContexts_ : list AttentionClusterContext;
  oContexts_ : list AttentionClusterContext
}.

#[export] Instance eta_t : Eta t := fun s =>
  mk (enabled_ s) (generation_ s) (owners_ s) (bankLeases_ s) (qkContexts_ s)
     (scoreContexts_ s) (pvContexts_ s) (oContexts_ s).

Definition no_contexts : list AttentionClusterContext := replicate 4 no_context.
Definition no_leases : list (list BankLease) := replicate kArrayCount (replicate 2 no_lease).

Definition init : t :=
  mk false 0 (replicate kArrayCount OwnerNone) no_leases
     no_contexts no_contexts no_contexts no_contexts.

Definition capacity (kind : AttentionClusterContextKind) : nat :=
  match kind with KindQk | KindPv => 2 | KindScore | KindO => 4 end.

Definition contextArray (kind : AttentionClusterContextKind) (s : t) :
    list AttentionClusterContext :=
  match kind with
  | KindQk => qkContexts_ s
  | KindScore => scoreContexts_ s
  | KindPv => pvContexts_ s
  | KindO => oContexts_ s
  end.

(** Assignment through the reference [contextArray] returns. *)
Definition set_contextArray (kind : AttentionClusterContextKind)
    (cs : list AttentionClusterContext) (s : t) : t :=
  match kind with
  | KindQk => s <| qkContexts_ := cs |>
  | KindScore => s <| scoreContexts_ := cs |>
  | KindPv => s <| pvContexts_ := cs |>
  | KindO => s <| oContexts_ := cs |>
  end.

Definition count_valid (cs : list AttentionClusterContext) : Z :=
  Z.of_nat (length (filter (fun c => valid c = true) cs)).

Definition cancel (s : t) : Z * t :=
  (u32 (count_valid (qkContexts_ s) + count_valid (scoreContexts_ s) +
        count_valid (pvContexts_ s) + count_valid (oContexts_ s)),
   mk false 0
      (fill OwnerNone (owners_ s))
      (map (fill no_lease) (bankLeases_ s))
      (fill no_context (qkContexts_ s)) (fill no_context (scoreContexts_ s))
      (fill no_context (pvContexts_ s)) (fill no_context (oContexts_ s))).

Definition configure (gen qkArrays : Z) (s : t) : bool * t :=
  if (gen =? 0) || (negb (qkArrays =? 16) && negb (qkArrays =? 24) &&
                    negb (qkArrays =? 32) && negb (qkArrays =? 40))
  then (false, s)
  else
    let s := (cancel s).2 in
    let s := s <| enabled_ := true |> <| generation_ := gen |> in
    (true, s <| owners_ :=
      map (fun id => if Z.of_nat id <? qkArrays then OwnerQk else OwnerPv)
        (seq 0 kArrayCount) |>).

Definition enabled (s : t) : bool := enabled_ s.
Definition current_generation (s : t) : Z := generation_ s.

Definition owns (arrayId : Z) (owner : AttentionArrayOwner) (s : t) : bool :=
  enabled_ s && (arrayId <? Z.of_nat (length (owners_ s))) &&
  bool_decide ((owners_ s).[arrayId] = owner).

(** The scan for a free context, from index [i] on, [n] entries left. *)
Fixpoint first_free (cs : list AttentionClusterContext) (i n : nat) : option nat :=
  match n with
  | O => None
  | S n' => if negb (valid (cs !!! i)) then Some i else first_free cs (S i) n'
  end.

Definition reserve (kind : AttentionClusterContextKind) (tg : AttentionClusterTag)
    (bank : Z) (s : t) : Z * t :=
  if negb (enabled_ s) || negb (generation tg =? generation_ s) || (kOperandBanks <=? bank)
  then (-1, s)
  else
    let contexts := contextArray kind s in
    match first_free contexts 0 (capacity kind) with
    | Some i => (Z.of_nat i, set_contextArray kind (<[i := mkContext true tg bank 0]> contexts) s)
    | None => (-1, s)
    end.

Definition callbackMatches (kind : AttentionClusterContextKind) (slot : Z)
    (tg : AttentionClusterTag) (s : t) : bool :=
  let contexts := contextArray kind s in
  (slot <? Z.of_nat (length contexts)) && valid (contexts.[slot]) &&
  tag_eqb (tag (contexts.[slot])) tg && (generation tg =? generation_ s).

Definition release (kind : AttentionClusterContextKind) (slot : Z)
    (tg : AttentionClusterTag) (s : t) : bool * t :=
  if negb (callbackMatches kind slot tg s) then (false, s)
  else (true, set_contextArray kind ((contextArray kind s).[slot := no_context]) s).

Definition bank_lease (arrayId bank : Z) (s : t) : BankLease := (bankLeases_ s).[arrayId].[bank].
Definition set_lease (arrayId bank : Z) (l : BankLease) (s : t) : t :=
  s <| bankLeases_ := (bankLeases_ s).[arrayId := ((bankLeases_ s).[arrayId]).[bank := l]] |>.

Definition acquireBank (arrayId bank : Z) (owner : AttentionArrayOwner)
    (tg : AttentionClusterTag) (s : t) : bool * t :=
  if negb (owns arrayId owner s) || (kOperandBanks <=? bank) then (false, s)
  else
    let lease := bank_lease arrayId bank s in
    if negb (refs lease =? 0) || negb (generation tg =? generation_ s) then (false, s)
    else (true, set_lease arrayId bank (mkLease tg 1) s).

(** The common guard of [retainBank] and [releaseBank]. *)
Definition bankMatches (arrayId bank : Z) (owner : AttentionArrayOwner)
    (tg : AttentionClusterTag) (s : t) : bool :=
  owns arrayId owner s && (bank <? kOperandBanks) &&
  negb (refs (bank_lease arrayId bank s) =? 0) &&
  tag_eqb (lease_tag (bank_lease arrayId bank s)) tg.

Definition retainBank (arrayId bank : Z) (owner : AttentionArrayOwner)
    (tg : AttentionClusterTag) (s : t) : bool * t :=
  if negb (owns arrayId owner s) || (kOperandBanks <=? bank) ||
     (refs (bank_lease arrayId bank s) =? 0) ||
     negb (tag_eqb (lease_tag (bank_lease arrayId bank s)) tg)
  then (false, s)
  else
    let lease := bank_lease arrayId bank s in
    (true, set_lease arrayId bank (mkLease (lease_tag lease) (refs lease ⊞₃₂ 1)) s).

Definition releaseBank (arrayId bank : Z) (owner : AttentionArrayOwner)
    (tg : AttentionClusterTag) (s : t) : bool * t :=
  if negb (owns arrayId owner s) || (kOperandBanks <=? bank) ||
     (refs (bank_lease arrayId bank s) =? 0) ||
     negb (tag_eqb (lease_tag (bank_lease arrayId bank s)) tg)
  then (false, s)
  else
    let lease := bank_lease arrayId bank s in
    let lease := mkLease (lease_tag lease) (refs lease ⊟₃₂ 1) in
    (true, set_lease arrayId bank (if refs lease =? 0 then no_lease else lease) s).

Definition bankRefcount (arrayId bank : Z) (s : t) : Z :=
  if (arrayId <? Z.of_nat kArrayCount) && (bank <? kOperandBanks)
  then refs (bank_lease arrayId bank s) else 0.

Definition liveBankRefs (s : t) : Z :=
  fold_left (fun acc leases => fold_left (fun acc lease => acc ⊞₃₂ refs lease) leases acc)
    (bankLeases_ s) 0.

Definition liveContexts (kind : AttentionClusterContextKind) (s : t) : Z :=
  count_valid (take (capacity kind) (contextArray kind s)).

Definition liveContexts_all (s : t) : Z :=
  u32 (liveContexts KindQk s + liveContexts KindScore s + liveContexts KindPv s +
       liveContexts KindO s).

Definition drained (s : t) : bool :=
  let noLive cs := forallb (fun c => negb (valid c)) cs in
  noLive (qkContexts_ s) && noLive (scoreContexts_ s) && noLive (pvContexts_ s) &&
  noLive (oContexts_ s) &&
  forallb (fun leases => (refs (leases !!! 0%nat) =? 0) && (refs (leases !!! 1%nat) =? 0))
    (bankLeases_ s).

(** *** Call sequences *)

Inductive call :=
| Configure (gen qkArrays : Z)
| CancelAll
| Reserve (kind : AttentionClusterContextKind) (tg : AttentionClusterTag) (bank : Z)
| Release (kind : AttentionClusterContextKind) (slot : Z) (tg : AttentionClusterTag)
| AcquireBank (arrayId bank : Z) (owner : AttentionArrayOwner) (tg : AttentionClusterTag)
| RetainBank (arrayId bank : Z) (owner : AttentionArrayOwner) (tg : AttentionClusterTag)
| ReleaseBank (arrayId bank : Z) (owner : AttentionArrayOwner) (tg : AttentionClusterTag).

(** A call, whether it succeeded, and the state it leaves. *)
Definition exec (c : call) (s : t) : bool * t :=
  match c with
  | Configure g qk => configure g qk s
  | CancelAll => (true, (cancel s).2)
  | Reserve kind tg bank => let '(i, s') := reserve kind tg bank s in (0 <=? i, s')
  | Release kind slot tg => release kind slot tg s
  | AcquireBank a b o tg => acquireBank a b o tg s
  | RetainBank a b o tg => retainBank a b o tg s
  | ReleaseBank a b o tg => releaseBank a b o tg s
  end.

(** The arguments are unsigned in the source. *)
Definition call_ok (c : call) : Prop :=
  match c with
  | Configure g _ => 0 <= g
  | CancelAll => True
  | Reserve _ _ bank => 0 <= bank
  | Release _ slot _ => 0 <= slot
  | AcquireBank a b o _ | RetainBank a b o _ | ReleaseBank a b o _ =>
      0 <= a /\ 0 <= b /\ o <> OwnerNone
  end.

(** The tag a call presents, if any. *)
Definition call_tag (c : call) : option AttentionClusterTag :=
  match c with
  | Configure _ _ | CancelAll => None
  | Reserve _ tg _ | Release _ _ tg | AcquireBank _ _ _ tg | RetainBank _ _ _ tg
  | ReleaseBank _ _ _ tg => Some tg
  end.

Inductive reachable : t -> Prop :=
| reach_init : reachable init
| reach_call s c : reachable s -> call_ok c -> reachable (exec c s).2.

(** The signed change a successful call makes to the reference count of one
    bank. *)
Definition ref_delta (a b : Z) (c : call) : Z :=
  match c with
  | AcquireBank a' b' _ _ | RetainBank a' b' _ _ => Z.b2z ((a' =? a) && (b' =? b))
  | ReleaseBank a' b' _ _ => - Z.b2z ((a' =? a) && (b' =? b))
  | _ => 0
  end.

(** A run of calls: the accumulated change to one bank, and the final state. *)
Fixpoint exec_all (a b : Z) (cs : list call) (s : t) : Z * t :=
  match cs with
  | [] => (0, s)
  | c :: cs' =>
      let '(ok, s') := exec c s in
      let '(d, s'') := exec_all a b cs' s' in
      ((if ok then ref_delta a b c else 0) + d, s'')
  end.

End ClusterState.

(** ** Cancel registry: every announced write is discarded exactly once *)

Section CancelRegistryFacts.
Import CancelRegistry.

Lemma token_eq o g : is_u32 o -> is_u32 g -> token o g = o * 2 ^ 32 + g.
Proof.
  intros Ho Hg. unfold token. rewrite Z.shiftl_mul_pow2 by lia.
  rewrite u64_small by mach_lia. rewrite Z.add_nocarry_lxor; [done|].
  apply Z.bits_inj'. intros n Hn. rewrite Z.land_spec, Z.bits_0.
  destruct (Z_lt_dec n 32).
  - by rewrite Z.mul_pow2_bits_low.
  - rewrite (Z.bits_above_log2 g n), andb_false_r; [done|unfold is_u32 in *; lia|].
    destruct (Z.eq_dec g 0) as [->|]; [simpl; lia|].
    apply Z.log2_lt_pow2; [unfold is_u32 in *; lia|].
    apply Z.lt_le_trans with (2 ^ 32); [unfold is_u32 in *; lia|].
    apply Z.pow_le_mono_r; lia.
Qed.

Lemma token_inj o g o' g' :
  is_u32 o -> is_u32 g -> is_u32 o' -> is_u32 g' ->
  token o g = token o' g' -> o = o' /\ g = g'.
Proof. intros. rewrite !token_eq in * by done. unfold is_u32 in *. lia. Qed.

Definition live_count (k : Z) (r : gmap Z Z) : Prop := forall n, r !! k = Some n -> 1 <= n.

Lemma consume_same k r :
  k <> 0 -> live_count k r -> remaining k r < 2 ^ 64 ->
  live_count k (consume k r).2 /\
  (consume k r).1 = (0 <? remaining k r) /\
  remaining k (consume k r).2 = remaining k r - Z.b2z (consume k r).1.
Proof.
  intros Hk Hl Hb. unfold consume, remaining in *. destruct (Z.eqb_spec k 0) as [|_]; [done|].
  destruct (r !! k) as [n|] eqn:E; simpl; [|by rewrite E].
  specialize (Hl n E). simpl in Hb. destruct (Z.leb_spec n 1).
  - rewrite lookup_delete_eq. simpl. split_and!; [|lia..].
    intros m. by rewrite lookup_delete_eq.
  - rewrite lookup_insert_eq. simpl. split_and!; [|lia|mach_lia].
    intros m. rewrite lookup_insert_eq. intros [=<-]. mach_lia.
Qed.

Lemma consume_other k k' r : k <> k' -> (consume k' r).2 !! k = r !! k.
Proof.
  intros Hne. unfold consume. repeat case_match; simpl; try done.
  - by rewrite lookup_delete_ne.
  - by rewrite lookup_insert_ne.
Qed.

(** The effect of a lookup of token [k'] on the count of token [k]. *)
Lemma consume_effect k' k r :
  k <> 0 -> live_count k r -> remaining k r < 2 ^ 64 ->
  live_count k (consume k' r).2 /\
  remaining k (consume k' r).2 = remaining k r - Z.b2z ((consume k' r).1 && (k' =? k)).
Proof.
  intros Hk Hl Hr. destruct (Z.eqb_spec k' k) as [->|Hne].
  - rewrite andb_true_r. destruct (consume_same k r) as (? & _ & ?); done.
  - rewrite andb_false_r. simpl. unfold live_count, remaining.
    rewrite consume_other by done. split; [done|lia].
Qed.

Lemma times_cons k x ks : times k (x :: ks) = Z.b2z (x =? k) + times k ks.
Proof.
  unfold times. rewrite filter_cons. case_decide; destruct (Z.eqb_spec x k); simpl; lia || done.
Qed.

Lemma announced_nonneg o g cs : Forall call_ok cs -> 0 <= announced o g cs.
Proof.
  induction 1 as [|c cs Hc _ IH]; simpl; [done|]. destruct c; simpl in *; try done.
  destruct (_ && _); lia.
Qed.

Lemma cancel_lookup o g o' g' n r :
  is_u32 o -> is_u32 g -> is_u32 o' -> is_u32 g' -> 0 <= n ->
  live_count (token o g) r ->
  (if (o' =? o) && (g' =? g) then n else 0) + remaining (token o g) r < 2 ^ 64 ->
  live_count (token o g) (cancel o' g' n r) /\
  remaining (token o g) (cancel o' g' n r) =
    (if (o' =? o) && (g' =? g) then n else 0) + remaining (token o g) r.
Proof.
  intros Ho Hg Ho' Hg' Hn Hl Hb. unfold cancel.
  destruct (Z.eqb_spec n 0) as [->|Hn0]; simpl; [by destruct (_ && _)|]. revert Hb.
  destruct (Z.eqb_spec o' o) as [->|Hoo]; [destruct (Z.eqb_spec g' g) as [->|Hgg]|]; simpl; intros Hb.
  2: assert (token o g' <> token o g) by (intros []%token_inj; done).
  3: assert (token o' g' <> token o g) by (intros []%token_inj; done).
  2,3: unfold live_count, remaining; rewrite lookup_insert_ne by done; done.
  unfold live_count, remaining in *. rewrite !lookup_insert_eq. simpl.
  assert (0 <= default 0 (r !! token o g)).
  { destruct (r !! token o g) eqn:E; simpl; [|lia]. specialize (Hl _ eq_refl). lia. }
  split; [intros m [=<-]|]; mach_lia.
Qed.

Lemma exec_all_conserves o g cs r :
  is_u32 o -> is_u32 g -> token o g <> 0 -> Forall call_ok cs ->
  live_count (token o g) r -> 
  remaining (token o g) r + announced o g cs < 2 ^ 64 ->
  let '(ks, r') := exec_all cs r in
  live_count (token o g) r' /\
  times (token o g) ks + remaining (token o g) r' = remaining (token o g) r + announced o g cs.
Proof.
  intros Ho Hg Hk Hok. revert r. induction Hok as [|c cs Hc Hok IH]; intros r Hl Hb; simpl.
  { unfold times. simpl. split; [done|lia]. }
  pose proof (announced_nonneg o g cs Hok) as Hnn.
  assert (remaining (token o g) r + announced o g cs < 2 ^ 64 -> forall k, let '(ks, r') :=
      let '(o0, r') := let '(ok, r') := consume k r in (if ok then Some k else None, r') in
      let '(ks, r'') := exec_all cs r' in (option_list o0 ++ ks, r'') in
    live_count (token o g) r' /\
    times (token o g) ks + remaining (token o g) r' =
      remaining (token o g) r + announced o g cs) as consume_step.
  { intros Hb' k. destruct (consume_effect k (token o g) r) as [Hl' Hr']; [done|done|lia|].
    destruct (consume k r) as [ok r1]. simpl in *. specialize (IH r1 Hl').
    destruct (exec_all cs r1) as [ks r2]. destruct IH as [Hl2 Hr2]; [destruct (_ && _); simpl in *; lia|].
    split; [done|]. destruct ok; simpl; [rewrite times_cons|]; simpl in *; lia. }
  destruct c as [o' g' n|k|k]; simpl in *.
  - destruct Hc as (Ho' & Hg' & Hn).
    destruct (cancel_lookup o g o' g' n r) as [Hl' Hr']; try done; [lia|].
    specialize (IH (cancel o' g' n r) Hl' ltac:(lia)).
    destruct (exec_all cs (cancel o' g' n r)) as [ks r']. simpl. destruct IH as [? ?].
    split; [done|lia].
  - by apply consume_step.
  - by apply consume_step.
Qed.

(** For 32-bit owner and generation ids other than [(0, 0)], over any
    sequence of registry calls whose announced writes fit in 64 bits, the
    number of writes discarded for a generation plus the number still to be
    discarded is the number announced by [cancel] for exactly that owner and
    generation; the next lookup of the token succeeds exactly when some remain,
    whichever of the two consuming entry points is used. *)
Theorem cancel_registry_conserves o g cs :
  is_u32 o -> is_u32 g -> (o, g) <> (0, 0) -> Forall call_ok cs ->
  announced o g cs < 2 ^ 64 ->
  let '(ks, r) := exec_all cs ∅ in
  times (token o g) ks + remaining (token o g) r = announced o g cs /\
  (cancelledToken (token o g) r).1 = (0 <? remaining (token o g) r) /\
  discardToken (token o g) r = cancelledToken (token o g) r.
Proof.
  intros Ho Hg Hne Hok Hb.
  assert (token o g <> 0) as Hk.
  { rewrite token_eq by done. unfold is_u32 in *. intros E. apply Hne. f_equal; lia. }
  pose proof (exec_all_conserves o g cs ∅ Ho Hg Hk Hok) as H.
  destruct (exec_all cs ∅) as [ks r]. destruct H as [Hl Hc]; [done|done|].
  unfold remaining in Hc at 2. rewrite lookup_empty in Hc. simpl in Hc.
  assert (0 <= times (token o g) ks) by (unfold times; lia).
  split_and!; [lia| |done]. apply (consume_same _ r Hk Hl). lia.
Qed.

Lemma cancel_registry_conserves_witness :
  let '(ks, r) := exec_all [Cancel 7 3 2; CancelledToken (token 7 3); Cancel 1 3 1;
                            DiscardToken (token 7 3); DiscardToken (token 7 3)] ∅ in
  times (token 7 3) ks + remaining (token 7 3) r = 2 /\
  (cancelledToken (token 7 3) r).1 = false.
Proof.
  pose proof (cancel_registry_conserves 7 3
    [Cancel 7 3 2; CancelledToken (token 7 3); Cancel 1 3 1;
     DiscardToken (token 7 3); DiscardToken (token 7 3)]
    ltac:(unfold is_u32; lia) ltac:(unfold is_u32; lia) ltac:(congruence)
    ltac:(repeat constructor; unfold is_u32; lia) ltac:(reflexivity)) as (E1 & E2 & _).
  split; [exact E1|]. rewrite E2. reflexivity.
Defined.

End CancelRegistryFacts.

(** ** Configuration *)

Section ConfigFacts.
Import Config.

Lemma validate_accepts c :
  fields_u32 c -> validate c = ""%string -> c ∈ supported.
Proof.
  unfold fields_u32, values. intros Hu. destruct c; simpl in *.
  rewrite !Forall_cons in Hu. destruct_and? Hu.
  unfold validate; simpl. repeat (case_match; [discriminate|]). intros _.
  repeat match goal with
  | H : _ || _ = false |- _ => apply orb_false_iff in H as [? ?]
  | H : _ && _ = false |- _ => apply andb_false_iff in H
  | H : negb _ = false |- _ => apply negb_false_iff in H
  | H : (_ =? _) = true |- _ => apply Z.eqb_eq in H
  end.
  subst.
  assert (kvTileRows0 = 32 \/ kvTileRows0 = 64) as Hkv by lia.
  assert (qkArrays0 = 16 \/ qkArrays0 = 24 \/ qkArrays0 = 32 \/ qkArrays0 = 40) as Hqk by lia.
  assert (pvArrays0 = 64 - qkArrays0) as -> by (unfold u32, is_u32 in *; Z.div_mod_to_equations; lia).
  apply list_elem_of_In.
  destruct Hkv as [->| ->]; destruct Hqk as [->|[->|[->| ->]]]; vm_compute; tauto.
Qed.

(** [validate] accepts exactly the eight supported configurations (QK
    ownership 16, 24, 32 or 40 of the 64 arrays, Bc 32 or 64, everything else
    fixed), and the fingerprints of any two of them differ. *)
Theorem validate_exact c :
  fields_u32 c ->
  (validate c = ""%string <-> c ∈ supported) /\
  length supported = 8%nat /\ NoDup (map fingerprint supported).
Proof.
  intros Hu. split_and!; [|reflexivity|].
  - split; [by apply validate_accepts|]. intros Hin%list_elem_of_In.
    vm_compute in Hin. repeat destruct Hin as [<-|Hin]; [reflexivity..|done].
  - apply (bool_decide_unpack _). vm_compute. exact I.
Qed.

Lemma validate_exact_witness :
  fields_u32 default_config /\ validate default_config = ""%string /\
  default_config ∈ supported.
Proof.
  assert (fields_u32 default_config) as Hu by (repeat constructor; unfold is_u32; simpl; lia).
  split; [exact Hu|]. split; [reflexivity|].
  apply (validate_exact default_config Hu). reflexivity.
Defined.

End ConfigFacts.

(** ** Tags and the generation fence *)

Lemma tag_eqb_eq a b : tag_eqb a b = true <-> a = b.
Proof.
  unfold tag_eqb. rewrite !andb_true_iff, !Z.eqb_eq. destruct a, b; simpl.
  split; [intros; destruct_and!; congruence|by intros [= -> -> -> -> -> -> ->]].
Qed.

Lemma tag_eqb_refl a : tag_eqb a a = true.
Proof. by apply tag_eqb_eq. Qed.

Lemma traffic_name_inj c c' :
  attentionClusterTrafficClassName c = attentionClusterTrafficClassName c' -> c = c'.
Proof. destruct c, c'; done. Qed.

(** ** Ownership invariant of the cluster *)

Section ClusterStateFacts.
Import ClusterState.

Record wf (s : t) : Prop := {
  wf_owners : length (owners_ s) = kArrayCount;
  wf_leases : length (bankLeases_ s) = kArrayCount /\
              Forall (fun ls => length ls = 2%nat) (bankLeases_ s);
  wf_contexts : forall kind, length (contextArray kind s) = 4%nat;
  wf_off : enabled_ s = false -> generation_ s = 0 /\ Forall (eq OwnerNone) (owners_ s);
  wf_on : enabled_ s = true -> generation_ s <> 0;
  wf_context : forall kind i c, contextArray kind s !! i = Some c -> valid c = true ->
    enabled_ s = true /\ generation (tag c) = generation_ s /\ (i < capacity kind)%nat /\
    0 <= operandBank c < kOperandBanks;
  wf_lease : forall a ls b l, bankLeases_ s !! a = Some ls -> ls !! b = Some l ->
    0 <= refs l < 2 ^ 32 /\
    (refs l <> 0 -> enabled_ s = true /\ generation (lease_tag l) = generation_ s)
}.

(** *** Frame lemmas *)

Lemma contextArray_set kind kind' cs s :
  contextArray kind (set_contextArray kind' cs s) =
  if decide (kind = kind') then cs else contextArray kind s.
Proof. by destruct kind, kind'. Qed.

Lemma set_contextArray_frame kind cs s :
  let s' := set_contextArray kind cs s in
  enabled_ s' = enabled_ s /\ generation_ s' = generation_ s /\ owners_ s' = owners_ s /\
  bankLeases_ s' = bankLeases_ s.
Proof. by destruct kind. Qed.

Lemma contextArray_set_lease kind a b l s :
  contextArray kind (set_lease a b l s) = contextArray kind s.
Proof. by destruct kind. Qed.

Lemma wf_set_context s kind i c :
  wf s -> (i < capacity kind)%nat ->
  (valid c = true -> enabled_ s = true /\ generation (tag c) = generation_ s /\
                     0 <= operandBank c < kOperandBanks) ->
  wf (set_contextArray kind (<[i := c]> (contextArray kind s)) s).
Proof.
  intros W Hi Hc. destruct (set_contextArray_frame kind (<[i := c]> (contextArray kind s)) s)
    as (E1 & E2 & E3 & E4).
  constructor; rewrite ?E1, ?E2, ?E3, ?E4.
  - apply (wf_owners _ W).
  - apply (wf_leases _ W).
  - intros kind'. rewrite contextArray_set. case_decide; [|apply (wf_contexts _ W)].
    by rewrite length_insert, (wf_contexts _ W).
  - apply (wf_off _ W).
  - apply (wf_on _ W).
  - intros kind' j d. rewrite contextArray_set. case_decide as Hk; [subst|apply (wf_context _ W)].
    intros [(-> & -> & _)|(_ & Hj)]%list_lookup_insert_Some Hv.
    { destruct (Hc Hv) as (? & ? & ?). done. }
    by eapply (wf_context _ W).
  - apply (wf_lease _ W).
Qed.

Lemma bank_lease_lookup s a b :
  wf s -> 0 <= a < Z.of_nat kArrayCount -> 0 <= b < kOperandBanks ->
  exists ls, bankLeases_ s !! Z.to_nat a = Some ls /\ (bankLeases_ s).[a] = ls /\
    length ls = 2%nat /\ ls !! Z.to_nat b = Some (bank_lease a b s).
Proof.
  intros W Ha Hb. destruct (wf_leases _ W) as [Hl Hf].
  destruct (lookup_lt_is_Some_2 (bankLeases_ s) (Z.to_nat a)) as [ls Hls].
  { rewrite Hl. unfold kArrayCount in *. lia. }
  pose proof (proj1 (Forall_lookup _ _) Hf _ _ Hls) as Hlen. simpl in Hlen.
  exists ls. unfold bank_lease. rewrite (list_lookup_total_correct _ _ _ Hls).
  split_and!; [done..|]. apply list_lookup_lookup_total_lt. unfold kOperandBanks in *. lia.
Qed.

Lemma wf_set_lease s a b l :
  wf s -> 0 <= a < Z.of_nat kArrayCount -> 0 <= b < kOperandBanks ->
  0 <= refs l < 2 ^ 32 ->
  (refs l <> 0 -> enabled_ s = true /\ generation (lease_tag l) = generation_ s) ->
  wf (set_lease a b l s).
Proof.
  intros W Ha Hb Hr Hg. destruct (bank_lease_lookup s a b W Ha Hb) as (ls & Hls & Et & Hlen & _).
  destruct (wf_leases _ W) as [Hl Hf]. constructor; simpl.
  - apply (wf_owners _ W).
  - rewrite length_insert. split; [done|]. apply Forall_insert; [done|].
    by rewrite length_insert, Et.
  - intros kind. rewrite contextArray_set_lease. apply (wf_contexts _ W).
  - apply (wf_off _ W).
  - apply (wf_on _ W).
  - intros kind i c. rewrite contextArray_set_lease. apply (wf_context _ W).
  - intros a' ls' b' l' [(? & ? & _)|(_ & Hn)]%list_lookup_insert_Some; subst.
    + intros [(? & ? & _)|(_ & Hn)]%list_lookup_insert_Some; subst; [done|].
      by eapply (wf_lease _ W).
    + by eapply (wf_lease _ W).
Qed.

Lemma bank_lease_set s a b a' b' l :
  wf s -> 0 <= a < Z.of_nat kArrayCount -> 0 <= b < kOperandBanks -> 0 <= a' -> 0 <= b' ->
  bank_lease a' b' (set_lease a b l s) =
  if (a =? a') && (b =? b') then l else bank_lease a' b' s.
Proof.
  intros W Ha Hb Ha' Hb'. destruct (bank_lease_lookup s a b W Ha Hb) as (ls & Hls & Et & Hlen & _).
  unfold bank_lease, set_lease; simpl. apply lookup_lt_Some in Hls as Hlt.
  destruct (Z.eqb_spec a a') as [<-|Hne]; simpl.
  - rewrite list_lookup_total_insert_eq by done. rewrite Et.
    destruct (Z.eqb_spec b b') as [<-|Hne].
    + apply list_lookup_total_insert_eq. unfold kOperandBanks in *. lia.
    + apply list_lookup_total_insert_ne. lia.
  - by rewrite list_lookup_total_insert_ne by lia.
Qed.

(** *** Every call preserves the invariant *)

Lemma contextArray_cancel kind s :
  contextArray kind (cancel s).2 = fill no_context (contextArray kind s).
Proof. by destruct kind. Qed.

(** A state with no live context and no lease satisfies the invariant as soon
    as its enable bit, generation and owners agree. *)
Lemma wf_blank s e g os :
  wf s -> length os = kArrayCount ->
  (e = false -> g = 0 /\ Forall (eq OwnerNone) os) -> (e = true -> g <> 0) ->
  wf ((cancel s).2 <| enabled_ := e |> <| generation_ := g |> <| owners_ := os |>).
Proof.
  intros W Hos Hoff Hon. destruct (wf_leases _ W) as [Hl Hf]. constructor; simpl; try done.
  - rewrite length_map. split; [done|]. apply Forall_map.
    eapply Forall_impl; [exact Hf|]. intros ls Hls. unfold fill, compose. by rewrite length_replicate.
  - intros kind. pose proof (wf_contexts _ W kind). destruct kind; simpl in *; unfold fill;
      by rewrite length_replicate.
  - intros kind i c Hlk Hv. exfalso.
    assert (fill no_context (contextArray kind s) !! i = Some c) as Hlk' by by destruct kind.
    apply lookup_replicate in Hlk' as [-> _]. done.
  - intros a ls b l Hls Hb.
    apply list_elem_of_lookup_2, list_elem_of_In, in_map_iff in Hls as (ls0 & <- & _).
    apply lookup_replicate in Hb as [-> _]. simpl. split; [lia|done].
Qed.

Lemma wf_init : wf init.
Proof.
  constructor; simpl; try done.
  - split; [done|]. by repeat constructor.
  - by intros [].
  - intros _. split; [done|]. by repeat constructor.
  - intros kind i c Hlk Hv. exfalso.
    assert (no_contexts !! i = Some c) as Hlk' by by destruct kind.
    apply lookup_replicate in Hlk' as [-> _]. done.
  - intros a ls b l [-> _]%lookup_replicate [-> _]%lookup_replicate. simpl. split; [lia|done].
Qed.

Lemma wf_cancel s : wf s -> wf (cancel s).2.
Proof.
  intros W. apply (wf_blank s false 0 (fill OwnerNone (owners_ s)) W).
  - unfold fill. by rewrite length_replicate, (wf_owners _ W).
  - intros _. split; [done|]. unfold fill. by apply Forall_replicate.
  - done.
Qed.

Lemma wf_configure s g qk : wf s -> wf (configure g qk s).2.
Proof.
  intros W. unfold configure. destruct (_ || _) eqn:E; [done|].
  apply (wf_blank s true g _ W); [done..|]. intros _. lia.
Qed.

Lemma first_free_spec cs i n j :
  first_free cs i n = Some j -> (i <= j < i + n)%nat /\ valid (cs !!! j) = false.
Proof.
  revert i; induction n as [|n IH]; intros i; simpl; [done|].
  destruct (valid (cs !!! i)) eqn:E; simpl.
  - intros H%IH. destruct H. split; [lia|done].
  - intros [= <-]. split; [lia|done].
Qed.

Lemma wf_reserve s kind tg bank : wf s -> 0 <= bank -> wf (reserve kind tg bank s).2.
Proof.
  intros W Hb. unfold reserve. destruct (_ || _) eqn:E; [done|].
  destruct (first_free _ _ _) as [i|] eqn:F; [|done]. apply first_free_spec in F as [Hi _].
  apply wf_set_context; [done|lia|]. simpl. intros _.
  unfold kOperandBanks in *. split_and!; [destruct (enabled_ s); done|lia|lia|lia].
Qed.

Lemma callback_slot s kind slot tg :
  wf s -> 0 <= slot -> callbackMatches kind slot tg s = true ->
  (Z.to_nat slot < capacity kind)%nat /\ generation tg = generation_ s.
Proof.
  intros W Hs. unfold callbackMatches. rewrite !andb_true_iff, Z.ltb_lt, Z.eqb_eq.
  intros [[[Hlt Hv] _] Hg]. split; [|done].
  destruct (lookup_lt_is_Some_2 (contextArray kind s) (Z.to_nat slot)) as [c Hc]; [lia|].
  rewrite (list_lookup_total_correct _ _ _ Hc) in Hv. by eapply (wf_context _ W).
Qed.

Lemma wf_release s kind slot tg : wf s -> 0 <= slot -> wf (release kind slot tg s).2.
Proof.
  intros W Hs. unfold release. destruct (callbackMatches _ _ _ _) eqn:E; simpl; [|done].
  apply callback_slot in E as [? _]; [|done..]. by apply wf_set_context.
Qed.

Lemma owns_range s a o : wf s -> 0 <= a -> owns a o s = true ->
  0 <= a < Z.of_nat kArrayCount /\ enabled_ s = true.
Proof.
  intros W Ha. unfold owns. rewrite !andb_true_iff, Z.ltb_lt, (wf_owners _ W).
  intros [[? ?] _]. done.
Qed.

(** What an accepted bank call does to its lease. *)
Lemma bank_call_spec s a b o tg :
  wf s -> 0 <= a -> 0 <= b ->
  (acquireBank a b o tg s = (false, s) \/
   acquireBank a b o tg s = (true, set_lease a b (mkLease tg 1) s) /\
   refs (bank_lease a b s) = 0 /\ generation tg = generation_ s /\
   0 <= a < Z.of_nat kArrayCount /\ 0 <= b < kOperandBanks /\ enabled_ s = true).
Proof.
  intros W Ha Hb. unfold acquireBank. destruct (owns a o s) eqn:Ho; simpl; [|by left].
  apply owns_range in Ho as [? ?]; [|done..].
  destruct (Z.leb_spec kOperandBanks b); [by left|]. simpl.
  destruct (Z.eqb_spec (refs (bank_lease a b s)) 0), (Z.eqb_spec (generation tg) (generation_ s));
    simpl; [right|by left..]. done.
Qed.

Lemma lease_call_spec s a b o tg (next : BankLease -> BankLease) :
  wf s -> 0 <= a -> 0 <= b ->
  let r := if negb (owns a o s) || (kOperandBanks <=? b) ||
              (refs (bank_lease a b s) =? 0) || negb (tag_eqb (lease_tag (bank_lease a b s)) tg)
           then (false, s) else (true, set_lease a b (next (bank_lease a b s)) s) in
  r = (false, s) \/
  r = (true, set_lease a b (next (bank_lease a b s)) s) /\
  0 < refs (bank_lease a b s) < 2 ^ 32 /\ lease_tag (bank_lease a b s) = tg /\
  generation tg = generation_ s /\
  0 <= a < Z.of_nat kArrayCount /\ 0 <= b < kOperandBanks /\ enabled_ s = true.
Proof.
  intros W Ha Hb. destruct (owns a o s) eqn:Ho; simpl; [|by left].
  apply owns_range in Ho as [? ?]; [|done..].
  destruct (Z.leb_spec kOperandBanks b); [by left|]. simpl.
  destruct (Z.eqb_spec (refs (bank_lease a b s)) 0) as [|Hr]; [by left|]. simpl.
  destruct (tag_eqb _ tg) eqn:E; simpl; [right|by left]. apply tag_eqb_eq in E.
  destruct (bank_lease_lookup s a b W) as (ls & Hls & _ & _ & Hl); [done..|].
  destruct (wf_lease _ W _ _ _ _ Hls Hl) as [Hrange Hg]. destruct (Hg Hr) as [_ Hgen].
  rewrite E in Hgen. split_and!; try done; lia.
Qed.

Definition retained (l : BankLease) : BankLease := mkLease (lease_tag l) (refs l ⊞₃₂ 1).
Definition returned (l : BankLease) : BankLease :=
  if (refs l ⊟₃₂ 1) =? 0 then no_lease else mkLease (lease_tag l) (refs l ⊟₃₂ 1).

Lemma retain_spec s a b o tg :
  wf s -> 0 <= a -> 0 <= b ->
  retainBank a b o tg s = (false, s) \/
  retainBank a b o tg s = (true, set_lease a b (retained (bank_lease a b s)) s) /\
  0 < refs (bank_lease a b s) < 2 ^ 32 /\ lease_tag (bank_lease a b s) = tg /\
  generation tg = generation_ s /\
  0 <= a < Z.of_nat kArrayCount /\ 0 <= b < kOperandBanks /\ enabled_ s = true.
Proof. exact (lease_call_spec s a b o tg retained). Qed.

Lemma release_spec s a b o tg :
  wf s -> 0 <= a -> 0 <= b ->
  releaseBank a b o tg s = (false, s) \/
  releaseBank a b o tg s = (true, set_lease a b (returned (bank_lease a b s)) s) /\
  0 < refs (bank_lease a b s) < 2 ^ 32 /\ lease_tag (bank_lease a b s) = tg /\
  generation tg = generation_ s /\
  0 <= a < Z.of_nat kArrayCount /\ 0 <= b < kOperandBanks /\ enabled_ s = true.
Proof. exact (lease_call_spec s a b o tg returned). Qed.

Lemma wf_exec c s : wf s -> call_ok c -> wf (exec c s).2.
Proof.
  intros W Hok. destruct c as [g qk| |k tg b|k sl tg|a b o tg|a b o tg|a b o tg]; simpl in *.
  - by apply wf_configure.
  - by apply wf_cancel.
  - pose proof (wf_reserve s k tg b W Hok). by destruct (reserve k tg b s).
  - by apply wf_release.
  - destruct Hok as (Ha & Hb & _).
    destruct (bank_call_spec s a b o tg W Ha Hb) as [->|(-> & ? & ? & ? & ? & ?)]; [done|].
    apply wf_set_lease; simpl; done || lia.
  - destruct Hok as (Ha & Hb & _).
    destruct (retain_spec s a b o tg W Ha Hb) as [->|(-> & ? & Ht & ? & ? & ? & ?)]; [done|].
    apply wf_set_lease; simpl; rewrite ?Ht; try done. apply u32_range.
  - destruct Hok as (Ha & Hb & _).
    destruct (release_spec s a b o tg W Ha Hb) as [->|(-> & ? & Ht & ? & ? & ? & ?)]; [done|].
    unfold returned. case_match; apply wf_set_lease; simpl; rewrite ?Ht; try done; apply u32_range.
Qed.

Lemma reachable_wf s : reachable s -> wf s.
Proof. induction 1; [apply wf_init|by apply wf_exec]. Qed.


Definition demo_tag : AttentionClusterTag := mkTag 5 1 0 0 0 0 0.
Definition demo_calls : list call :=
  [Configure 5 16; Reserve KindQk demo_tag 1; AcquireBank 3 1 OwnerQk demo_tag;
   RetainBank 3 1 OwnerQk demo_tag; Configure 6 24].
Definition demo_state : t := fold_left (fun s c => (exec c s).2) demo_calls init.

Lemma reachable_fold cs s :
  Forall call_ok cs -> reachable s -> reachable (fold_left (fun s c => (exec c s).2) cs s).
Proof. intros Hok. revert s. induction Hok; intros s Hs; simpl; [done|]. by apply IHHok, reach_call. Qed.

Lemma demo_reachable : reachable demo_state.
Proof. apply reachable_fold; [by repeat constructor|apply reach_init]. Qed.


(** *** Reference counts *)

(** Calls that neither reset nor reconfigure the cluster. *)
Definition keeps_leases (c : call) : Prop :=
  match c with Configure _ _ | CancelAll => False | _ => True end.

Lemma reserve_leases kind tg n s : bankLeases_ (reserve kind tg n s).2 = bankLeases_ s.
Proof.
  unfold reserve. destruct (_ || _); [done|]. destruct (first_free _ _ _); [|done].
  apply set_contextArray_frame.
Qed.

Lemma exec_refs a b c s :
  wf s -> call_ok c -> keeps_leases c -> 0 <= a -> 0 <= b ->
  refs (bank_lease a b s) + 1 < 2 ^ 32 ->
  refs (bank_lease a b (exec c s).2) =
  refs (bank_lease a b s) + (if (exec c s).1 then ref_delta a b c else 0).
Proof.
  intros W Hok Hk Ha Hb Hr.
  destruct c as [g qk| |k tg n|k sl tg|a' b' o tg|a' b' o tg|a' b' o tg]; simpl in *; try done.
  - unfold bank_lease. pose proof (reserve_leases k tg n s) as Hl.
    destruct (reserve k tg n s) as [i s']. simpl in *. rewrite Hl. case_match; lia.
  - unfold release, bank_lease. case_match; simpl; [lia|].
    rewrite (proj2 (proj2 (proj2 (set_contextArray_frame _ _ _)))). lia.
  - destruct Hok as (Ha' & Hb' & _).
    destruct (bank_call_spec s a' b' o tg W Ha' Hb') as [->|(-> & ? & ? & ? & ? & ?)]; simpl; [lia|].
    rewrite bank_lease_set by done. destruct (Z.eqb_spec a' a), (Z.eqb_spec b' b); simpl; subst; lia.
  - destruct Hok as (Ha' & Hb' & _).
    destruct (retain_spec s a' b' o tg W Ha' Hb') as [->|(-> & ? & ? & ? & ? & ? & ?)]; simpl; [lia|].
    rewrite bank_lease_set by done.
    destruct (Z.eqb_spec a' a), (Z.eqb_spec b' b); simpl; subst; mach_lia.
  - destruct Hok as (Ha' & Hb' & _).
    destruct (release_spec s a' b' o tg W Ha' Hb') as [->|(-> & ? & ? & ? & ? & ? & ?)]; simpl; [lia|].
    rewrite bank_lease_set by done. unfold returned.
    destruct (Z.eqb_spec a' a), (Z.eqb_spec b' b); simpl; subst; try lia.
    rewrite u32_small by mach_lia.
    destruct (Z.eqb_spec (refs (bank_lease a b s) - 1) 0); simpl; lia.
Qed.

(** Reference counts of the operand banks are conserved: over any sequence
    of calls that does not reset the cluster, a bank's count is its initial
    count plus the acquisitions and retentions that succeeded minus the
    releases that succeeded; it never wraps and a bank whose count is not zero
    cannot be acquired. *)
Theorem bank_refs_conserved s a b cs :
  reachable s -> 0 <= a -> 0 <= b -> Forall call_ok cs -> Forall keeps_leases cs ->
  refs (bank_lease a b s) + Z.of_nat (length cs) < 2 ^ 32 ->
  let '(d, s') := exec_all a b cs s in
  refs (bank_lease a b s') = refs (bank_lease a b s) + d /\
  (refs (bank_lease a b s') <> 0 -> forall o tg, acquireBank a b o tg s' = (false, s')).
Proof.
  intros W%reachable_wf Ha Hb Hok. revert s W. induction Hok as [|c cs Hc Hok IH];
    intros s W Hk Hlen; simpl in *.
  - split; [lia|]. intros Hr o tg.
    destruct (bank_call_spec s a b o tg W Ha Hb) as [->|(_ & ? & _)]; done.
  - apply Forall_cons in Hk as [Hkc Hk].
    pose proof (exec_refs a b c s W Hc Hkc Ha Hb ltac:(lia)) as He.
    pose proof (wf_exec c s W Hc) as W'. destruct (exec c s) as [ok s1]; simpl in *.
    specialize (IH s1 W' Hk). destruct (exec_all a b cs s1) as [d s2].
    assert (ref_delta a b c <= 1).
    { destruct c; simpl; try lia; destruct (_ && _); simpl; lia. }
    destruct IH as [IH1 IH2]; [destruct ok; lia|]. split; [lia|exact IH2].
Qed.

Definition lease_calls : list call :=
  [AcquireBank 3 1 OwnerQk demo_tag; RetainBank 3 1 OwnerQk demo_tag;
   AcquireBank 3 1 OwnerQk demo_tag; ReleaseBank 3 1 OwnerQk demo_tag].
Definition leased_state : t := (exec (Configure 5 16) init).2.

Lemma bank_refs_conserved_witness :
  let '(d, s') := exec_all 3 1 lease_calls leased_state in
  refs (bank_lease 3 1 s') = 1 /\
  acquireBank 3 1 OwnerQk demo_tag s' = (false, s').
Proof.
  pose proof (bank_refs_conserved leased_state 3 1 lease_calls
    (reach_call _ (Configure 5 16) reach_init ltac:(simpl; lia)) ltac:(lia) ltac:(lia)
    ltac:(by repeat constructor) ltac:(by repeat constructor) ltac:(vm_compute; reflexivity)) as H.
  destruct (exec_all 3 1 lease_calls leased_state) as [d s'] eqn:E.
  vm_compute in E. injection E as <- <-. destruct H as [H1 H2].
  split; [exact H1|]. apply H2. vm_compute. discriminate.
Defined.

(** *** Draining *)

Lemma count_valid_nil cs :
  count_valid cs = 0 <-> forallb (fun c => negb (valid c)) cs = true.
Proof.
  unfold count_valid. rewrite forallb_forall. split.
  - intros Hl c Hin%list_elem_of_In. destruct (valid c) eqn:E; [|done].
    assert (c ∈ filter (fun c => valid c = true) cs) as Hf by by apply list_elem_of_filter.
    destruct (filter _ cs); [by apply elem_of_nil in Hf|]. simpl in Hl. lia.
  - intros Hall. destruct (filter _ cs) as [|c l] eqn:E; [done|].
    assert (c ∈ filter (fun c => valid c = true) cs) as [Hv Hin%list_elem_of_In]%list_elem_of_filter
      by (rewrite E; left).
    specialize (Hall c Hin). by rewrite Hv in Hall.
Qed.

Lemma count_valid_le cs : 0 <= count_valid cs <= Z.of_nat (length cs).
Proof. unfold count_valid. pose proof (length_filter (fun c => valid c = true) cs). lia. Qed.

(** The scan of [liveContexts] stops at the capacity; nothing beyond is live. *)
Lemma liveContexts_all_valid kind s :
  wf s -> liveContexts kind s = count_valid (contextArray kind s).
Proof.
  intros W. unfold liveContexts.
  rewrite <- (take_drop (capacity kind) (contextArray kind s)) at 2.
  unfold count_valid. rewrite filter_app, length_app.
  replace (filter _ (drop _ _)) with (@nil AttentionClusterContext); [simpl; lia|].
  symmetry. apply elem_of_nil_inv.
  intros c [Hv [i Hi]%list_elem_of_lookup]%list_elem_of_filter. rewrite lookup_drop in Hi.
  destruct (wf_context _ W kind _ _ Hi Hv) as (_ & _ & Hlt & _). lia.
Qed.

(** The leases of every bank, and the exact sum of their counts. *)
Definition all_leases (s : t) : list BankLease := concat (bankLeases_ s).
Definition total_refs (ls : list BankLease) : Z := fold_right (fun l acc => refs l + acc) 0 ls.

Lemma fold_refs ls acc :
  fold_left (fun acc lease => acc ⊞₃₂ refs lease) ls (u32 acc) = u32 (acc + total_refs ls).
Proof.
  revert acc; induction ls as [|l ls IH]; intros acc; simpl; [by rewrite Z.add_0_r|].
  rewrite u32_add_l, IH. f_equal. lia.
Qed.

Lemma liveBankRefs_sum s : liveBankRefs s = u32 (total_refs (all_leases s)).
Proof.
  unfold liveBankRefs, all_leases. change 0 with (u32 0). 
  replace (total_refs (concat (bankLeases_ s))) with (0 + total_refs (concat (bankLeases_ s))) by lia.
  generalize 0. induction (bankLeases_ s) as [|ls lls IH]; intros acc; simpl; [by rewrite Z.add_0_r|].
  rewrite fold_refs, IH. f_equal. clear. induction ls as [|l ls IH]; simpl in *; lia.
Qed.

Lemma total_refs_zero ls :
  Forall (fun l => 0 <= refs l) ls ->
  0 <= total_refs ls /\ (total_refs ls = 0 <-> Forall (fun l => refs l = 0) ls).
Proof.
  induction 1 as [|l ls Hl _ [IH1 IH2]]; simpl; [split; [lia|done]|].
  split; [lia|]. rewrite Forall_cons, <- IH2. lia.
Qed.

Lemma all_leases_zero s :
  wf s ->
  forallb (fun leases => (refs (leases !!! 0%nat) =? 0) && (refs (leases !!! 1%nat) =? 0))
    (bankLeases_ s) = true <-> Forall (fun l => refs l = 0) (all_leases s).
Proof.
  intros W. destruct (wf_leases _ W) as [_ Hf]. unfold all_leases.
  induction Hf as [|ls lls Hls Hf IH]; simpl; [done|].
  rewrite andb_true_iff, IH, Forall_app. clear IH.
  destruct ls as [|l0 [|l1 [|? ?]]]; try done. simpl.
  rewrite !Forall_cons, Forall_nil. change ([l0; l1] !!! 0%nat) with l0.
  change ([l0; l1] !!! 1%nat) with l1. rewrite andb_true_iff, !Z.eqb_eq. tauto.
Qed.

(** [drained] reports exactly that no context of any kind is live and no
    bank is leased, in agreement with the two counters [liveContexts] and
    [liveBankRefs], although the former only scans up to each kind's capacity
    and the latter sums in 32 bits (the counts must fit). *)
Theorem drained_iff_no_live s :
  reachable s -> total_refs (all_leases s) < 2 ^ 32 ->
  drained s = true <-> liveContexts_all s = 0 /\ liveBankRefs s = 0.
Proof.
  intros W%reachable_wf Hsum. unfold drained, liveContexts_all.
  rewrite !andb_true_iff, <- !count_valid_nil, all_leases_zero, liveBankRefs_sum by done.
  assert (Forall (fun l => 0 <= refs l) (all_leases s)) as Hpos.
  { apply Forall_forall. intros l Hl%list_elem_of_In. unfold all_leases in Hl.
    apply in_concat in Hl as (ls & Hls%list_elem_of_In & Hl%list_elem_of_In).
    apply list_elem_of_lookup in Hls as [a Ha]. apply list_elem_of_lookup in Hl as [b Hb].
    apply (wf_lease _ W _ _ _ _ Ha Hb). }
  destruct (total_refs_zero _ Hpos) as [Hge <-]. rewrite (u32_small (total_refs _)) by mach_lia.
  rewrite !liveContexts_all_valid by done.
  assert (forall kind, 0 <= count_valid (contextArray kind s) <= 4) as Hc.
  { intros kind. pose proof (count_valid_le (contextArray kind s)).
    rewrite (wf_contexts _ W kind) in *. lia. }
  pose proof (Hc KindQk). pose proof (Hc KindScore). pose proof (Hc KindPv). pose proof (Hc KindO).
  simpl in *. rewrite u32_small by mach_lia. lia.
Qed.

Lemma drained_iff_no_live_witness :
  drained demo_state = true <->
  liveContexts_all demo_state = 0 /\ liveBankRefs demo_state = 0.
Proof.
  apply (drained_iff_no_live demo_state demo_reachable). vm_compute. reflexivity.
Defined.

End ClusterStateFacts.
