(* ===== verification/Float32.v ===== *)
(** * IEEE-754 binary32 values

    [float] of the source is a binary32 value; the standard library's
    [SpecFloat] gives the values and the rounding.  [fma] is [std::fma]: the
    exact product and sum, rounded once to nearest even. *)

From S2P Require Import Prelude.
From Stdlib Require Export SpecFloat.

Definition float := spec_float.
#[export] Instance float_inhabited : Inhabited float := populate (S754_zero false).
#[export] Instance float_eq_dec : EqDecision float.
Proof. intros x y. unfold Decision. decide equality; try apply Bool.bool_dec; try apply Z.eq_dec; apply Pos.eq_dec. Defined.

Definition prec32 : Z := 24.
Definition emax32 : Z := 128.

(** [0.0f] and [1.0f]. *)
Definition float_zero : float := S754_zero false.
Definition float_one : float := S754_finite false 8388608 (-23).

Definition isfinite (f : float) : bool :=
  match f with
  | S754_zero _ | S754_finite _ _ _ => true
  | S754_infinity _ | S754_nan => false
  end.

(** The signed integer [(-1)^s * m * 2^(e - ez)], for [ez <= e]. *)
Definition aligned (s : bool) (m : positive) (e ez : Z) : Z :=
  cond_Zopp s (Zpos (fst (shl_align m e ez))).

Definition fma (x y z : float) : float :=
  match x, y, z with
  | S754_nan, _, _ | _, S754_nan, _ | _, _, S754_nan => S754_nan
  | S754_infinity _, S754_zero _, _ | S754_zero _, S754_infinity _, _ => S754_nan
  | S754_infinity sx, (S754_infinity sy | S754_finite sy _ _), S754_infinity sz
  | S754_finite sx _ _, S754_infinity sy, S754_infinity sz =>
      if eqb (xorb sx sy) sz then z else S754_nan
  | S754_infinity sx, (S754_infinity sy | S754_finite sy _ _), _
  | S754_finite sx _ _, S754_infinity sy, _ => S754_infinity (xorb sx sy)
  | _, _, S754_infinity _ => z
  | S754_zero sx, (S754_zero sy | S754_finite sy _ _), S754_zero sz
  | S754_finite sx _ _, S754_zero sy, S754_zero sz =>
      if eqb (xorb sx sy) sz then z else S754_zero false
  | S754_zero _, _, _ | _, S754_zero _, _ => z
  | S754_finite sx mx ex, S754_finite sy my ey, S754_zero _ =>
      binary_round prec32 emax32 (xorb sx sy) (mx * my) (ex + ey)
  | S754_finite sx mx ex, S754_finite sy my ey, S754_finite sz mz ez =>
      let e := Z.min (ex + ey) ez in
      binary_normalize prec32 emax32
        (aligned (xorb sx sy) (mx * my) (ex + ey) e + aligned sz mz ez e) e false
  end.

(** Integers of small magnitude as floats, for examples. *)
Definition of_Z (n : Z) : float := binary_normalize prec32 emax32 n 0 false.

(** ** Doubles, conversions and bytes *)

Abbreviation double := spec_float.
Abbreviation prec64 := 53.
Abbreviation emax64 := 1024.
Definition double_of_Z (z : Z) : double := binary_normalize prec64 emax64 z 0 false.
Definition double_zero : double := S754_zero false.
Definition double_one : double := S754_finite false 4503599627370496 (-52).

(** The bits of a [float]. *)
Definition float_bits (f : float) : Z :=
  match f with
  | S754_zero s => Z.b2z s * 2 ^ 31
  | S754_infinity s => Z.b2z s * 2 ^ 31 + 255 * 2 ^ 23
  | S754_nan => 0x7fc00000
  | S754_finite s m e =>
      Z.b2z s * 2 ^ 31 + (if Zpos m <? 2 ^ 23 then Zpos m else (e + 150) * 2 ^ 23 + (Zpos m - 2 ^ 23))
  end.
Definition round_to (prec emax : Z) (x : spec_float) : spec_float :=
  match x with S754_finite s m e => binary_round prec emax s m e | _ => x end.


Definition le_bytes (n : nat) (z : Z) : list Z := map (fun i => Z.shiftr z (8 * i) mod 2 ^ 8) (seqZ 0 (Z.of_nat n)).

(** The [float] of 32 bits. *)
Definition float_of_bits (b : Z) : float :=
  let s := Z.testbit b 31 in
  let e := Z.shiftr b 23 mod 256 in
  let f := b mod 2 ^ 23 in
  if e =? 255 then (if f =? 0 then S754_infinity s else S754_nan)
  else if e =? 0 then (match f with Zpos p => S754_finite s p (-149) | _ => S754_zero s end)
  else (match f + 2 ^ 23 with Zpos p => S754_finite s p (e - 150) | _ => S754_nan end).

(** An array of [float] as bytes and back ([memcpy]). *)
Definition bytes_of_floats (l : list float) : list Z := concat (map (fun f => le_bytes 4 (float_bits f)) l).
Fixpoint floats_of_bytes (l : list Z) : list float :=
  match l with
  | a :: b :: c :: d :: l => float_of_bits (a + 2 ^ 8 * b + 2 ^ 16 * c + 2 ^ 24 * d) :: floats_of_bytes l
  | _ => []
  end.
