(* ===== verification/Softmax.v ===== *)
(** * Rows of an online softmax

    The arithmetic of the row engine of golem/sfu/sfu.cc, apart from its timing:
    what the stages MAX, EXP/SUM, the online update and NORMALIZE of
    [handleTensorRowEngineEvent] make of one row of scores.  Operations on floats
    and doubles are those of a class, with the machine's numbers as one instance
    and exact reals as another.  [online_softmax_exact]: on reals the scales and
    weights of the tiles of a row combine to the softmax of the whole row. *)

From S2P Require Import Prelude Float32.
From Stdlib Require Import Reals Lra.

(** Floats [F], doubles [D] and what the engine does with them. *)
Class Arith (F D : Type) := {
  f_lt : F -> F -> bool;
  f_mul : F -> F -> F;
  f_sub : F -> F -> F;
  f_exp : F -> F;
  f_neginf : F;
  to_d : F -> D;
  to_f : D -> F;
  d_lt : D -> D -> bool;
  d_add : D -> D -> D;
  d_sub : D -> D -> D;
  d_mul : D -> D -> D;
  d_div : D -> D -> D;
  d_exp : D -> D;
  d_zero : D;
  d_one : D;
  d_neginf : D;
  d_is_neginf : D -> bool;
  d_finite : D -> bool
}.

Section Rows.
Context {F D : Type} {arith : Arith F D}.

(** [std::max] and [std::max_element]. *)
Definition f_max (a b : F) : F := if f_lt a b then b else a.
Definition d_max (a b : D) : D := if d_lt a b then b else a.
Definition max_element (l : list F) : F :=
  match l with [] => f_neginf | x :: l => foldl f_max x l end.

(** The columns [begin], [begin + 1], .. of a row. *)
Definition mask_lane (causal : bool) (scale : F) (keyBegin row col : Z) (v : F) : F :=
  if causal && (row <? u32 (keyBegin + col)) then f_neginf else f_mul v scale.
Fixpoint mask_lanes (causal : bool) (scale : F) (keyBegin row col : Z) (l : list F) : list F :=
  match l with [] => [] | v :: l => mask_lane causal scale keyBegin row col v :: mask_lanes causal scale keyBegin row (col + 1) l end.

Definition exp_lanes (rowMax : F) (l : list F) : list F := map (fun v => f_exp (f_sub v rowMax)) l.
Definition sum_lanes (l : list F) (sum : D) : D := foldl (fun sum v => d_add sum (to_d v)) sum l.
Definition scale_lanes (w : F) (l : list F) : list F := map (fun v => f_mul v w) l.

(** [AttentionOnlineRowContext]: maximum and sum of the row so far. *)
Record Online := mkOnline { on_m : D; on_l : D }.
Definition fresh_online : Online := mkOnline d_neginf d_zero.

(** The online update: the scales of the old output and of the tile's weights. *)
Definition alpha_of (o : Online) (mNew : D) : D :=
  if d_is_neginf (on_m o) then d_zero else d_exp (d_sub (on_m o) mNew).
Definition beta_of (rowMax : F) (mNew : D) : D := d_exp (d_sub (to_d rowMax) mNew).
Definition sum_ok (l : D) : bool := d_lt d_zero l && d_finite l.
Definition scale_of (final : bool) (x lNew : D) : F :=
  to_f (if final then d_mul x (d_div d_one lNew) else x).

(** A row in chunks of [n]. *)
Fixpoint chunks_of {A} (fuel n : nat) (l : list A) : list (list A) :=
  match fuel, l with
  | S fuel, _ :: _ => take n l :: chunks_of fuel n (drop n l)
  | _, _ => []
  end.
Definition chunks {A} (n : nat) (l : list A) : list (list A) := chunks_of (length l) n l.
Definition row_max (n : nat) (l : list F) : F := foldl (fun m ch => f_max m (max_element ch)) f_neginf (chunks n l).

Record RowResult := mkRow { r_online : Online; r_oldScale : F; r_weights : list F }.

(** One row of a tile whose scores are scaled and masked; [lanes] are the lanes of
    the comparator. *)
Definition row_update (lanes : nat) (final : bool) (o : Online) (s : list F) : option RowResult :=
  let m := row_max lanes s in
  let e := exp_lanes m s in
  let mNew := d_max (on_m o) (to_d m) in
  let alpha := alpha_of o mNew in
  let beta := beta_of m mNew in
  let lNew := d_add (d_mul (on_l o) alpha) (d_mul (sum_lanes e d_zero) beta) in
  if sum_ok lNew then Some (mkRow (mkOnline mNew lNew) (scale_of final alpha lNew) (scale_lanes (scale_of final beta lNew) e))
  else None.
Definition row_step (lanes : nat) (final causal : bool) (scale : F) (keyBegin row : Z) (o : Online) (raw : list F) : option RowResult :=
  row_update lanes final o (mask_lanes causal scale keyBegin row 0 raw).

(** *** Rows in chunks *)

Lemma length_mask_lanes causal scale keyBegin row l : forall col, length (mask_lanes causal scale keyBegin row col l) = length l.
Proof. induction l as [|v l IH]; intros col; cbn; [done|]. by rewrite IH. Qed.
Lemma mask_lanes_drop causal scale keyBegin row b : forall l col,
  drop b (mask_lanes causal scale keyBegin row col l) = mask_lanes causal scale keyBegin row (col + Z.of_nat b) (drop b l).
Proof.
  induction b as [|b IH]; intros [|v l] col; cbn [drop mask_lanes]; try done; [by rewrite Z.add_0_r|].
  rewrite IH. f_equal. lia.
Qed.
Lemma mask_lanes_take causal scale keyBegin row n : forall l col,
  take n (mask_lanes causal scale keyBegin row col l) = mask_lanes causal scale keyBegin row col (take n l).
Proof. induction n as [|n IH]; intros [|v l] col; cbn [take mask_lanes]; try done. by rewrite IH. Qed.

Lemma chunks_of_fuel {A} n (l : list A) : forall f f', (0 < n)%nat -> (length l <= f)%nat -> (length l <= f')%nat ->
  chunks_of f n l = chunks_of f' n l.
Proof.
  intros f f' Hn. revert f' l. induction f as [|f IH]; intros [|f'] [|x l] H H'; cbn [chunks_of length] in *; try done; try lia.
  f_equal. apply IH; rewrite length_drop; cbn [length]; lia.
Qed.
Lemma chunks_app {A} n (l l' : list A) : (0 < n)%nat -> length l = n -> chunks n (l ++ l') = l :: chunks n l'.
Proof.
  intros Hn Hl. unfold chunks. destruct (l ++ l') as [|x k] eqn:E; [destruct l; cbn in *; [lia|done]|].
  cbn [length chunks_of]. rewrite <- E. rewrite take_app_length', drop_app_length' by done. f_equal.
  apply chunks_of_fuel; [done| |done]. apply (f_equal length) in E. rewrite length_app in E. cbn in E. lia.
Qed.
Lemma chunks_last {A} n (l : list A) : (length l <= n)%nat -> l <> [] -> chunks n l = [l].
Proof. intros H Hl. unfold chunks. destruct l as [|x l]; [done|]. cbn [length chunks_of]. rewrite take_ge, drop_ge by done. by destruct (length l). Qed.
Lemma chunks_prefix {A} n q (l k : list A) : (0 < n)%nat -> length l = (n * q)%nat -> (length k <= n)%nat -> k <> [] ->
  chunks n (l ++ k) = chunks n l ++ [k].
Proof.
  intros Hn. revert l. induction q as [|q IH]; intros l Hl Hk Hne.
  - destruct l; [|cbn in Hl; lia]. by apply chunks_last.
  - rewrite <- (take_drop n l), <- (assoc_L (++)). rewrite (chunks_app n (take n l) (drop n l ++ k)), (chunks_app n (take n l) (drop n l)) by (rewrite ?length_take; lia).
    cbn [app]. f_equal. apply IH; [rewrite length_drop; lia|done|done].
Qed.
Lemma row_max_chunk n q (l k : list F) : (0 < n)%nat -> length l = (n * q)%nat -> (length k <= n)%nat -> k <> [] ->
  row_max n (l ++ k) = f_max (row_max n l) (max_element k).
Proof. intros Hn Hl Hk Hne. unfold row_max. by rewrite (chunks_prefix _ q), foldl_snoc. Qed.

Lemma sum_lanes_app l k (a : D) : sum_lanes (l ++ k) a = sum_lanes k (sum_lanes l a).
Proof. apply foldl_app. Qed.
End Rows.
#[global] Arguments Online D : clear implicits.
#[global] Arguments RowResult F D : clear implicits.

(** ** Machine numbers

    [exp] comes from the mathematical library and is a parameter. *)
Definition machine (exp32 exp64 : float -> float) : Arith float float := {|
  f_lt := SFltb;
  f_mul := SFmul prec32 emax32;
  f_sub := SFsub prec32 emax32;
  f_exp := exp32;
  f_neginf := S754_infinity true;
  to_d := round_to prec64 emax64;
  to_f := round_to prec32 emax32;
  d_lt := SFltb;
  d_add := SFadd prec64 emax64;
  d_sub := SFsub prec64 emax64;
  d_mul := SFmul prec64 emax64;
  d_div := SFdiv prec64 emax64;
  d_exp := exp64;
  d_zero := double_zero;
  d_one := double_one;
  d_neginf := S754_infinity true;
  d_is_neginf x := match x with S754_infinity true => true | _ => false end;
  d_finite := isfinite
|}.

(** *** Masked rows *)
Section Masked.
Variables exp32 exp64 : float -> float.
#[local] Hint Extern 0 (Arith _ _) => exact (machine exp32 exp64) : typeclass_instances.
Hypothesis exp_nan : exp32 S754_nan = S754_nan.

Abbreviation minus_inf := (S754_infinity true).
Lemma max_minus_inf (l : list float) : Forall (fun v => v = minus_inf) l -> max_element l = minus_inf.
Proof using Type.
  destruct l as [|x l]; [done|]. intros [-> Hl]%Forall_cons. cbn [max_element]. induction Hl as [|v l -> _ IH]; [done|exact IH].
Qed.
Lemma row_max_minus_inf n (l : list float) : Forall (fun v => v = minus_inf) l -> row_max n l = minus_inf.
Proof using Type.
  unfold row_max, chunks. generalize (length l) as f. intros f. revert l. induction f as [|f IH]; intros l Hl; [done|]. destruct l as [|x l]; [done|].
  cbn [chunks_of foldl]. rewrite max_minus_inf by (by apply Forall_take). by apply IH, Forall_drop.
Qed.
Lemma sum_nan (l : list float) : sum_lanes l (S754_nan : float) = S754_nan.
Proof using Type. induction l as [|v l IH]; [done|exact IH]. Qed.

(** C35. A row all of whose keys a tile masks fails the tile.  Its maximum is minus
    infinity, the exponentials of the differences and with them the sum are not
    numbers, and the online update refuses the sum - whatever the row's state and
    scores are, if [exp] of not-a-number is not a number. *)
Theorem masked_row_fails lanes final scale keyBegin row o raw : raw <> [] ->
  (forall col, 0 <= col < Z.of_nat (length raw) -> row < u32 (keyBegin + col))%Z ->
  row_step lanes final true scale keyBegin row o raw = None.
Proof.
  intros Hne Hm. unfold row_step, row_update.
  assert (Forall (fun v => v = minus_inf) (mask_lanes true scale keyBegin row 0 raw)) as Hall.
  { clear Hne. assert (forall col, (0 <= col)%Z -> (forall k, 0 <= k < Z.of_nat (length raw) -> row < u32 (keyBegin + (col + k)))%Z ->
      Forall (fun v => v = minus_inf) (mask_lanes true scale keyBegin row col raw)) as K.
    { clear Hm. induction raw as [|v raw IH]; intros col Hc Hm; [constructor|]. cbn [mask_lanes]. constructor.
      - unfold mask_lane. specialize (Hm 0%Z). rewrite Z.add_0_r in Hm. cbn [length] in Hm. by rewrite (proj2 (Z.ltb_lt _ _)) by (apply Hm; lia).
      - apply IH; [lia|]. intros k Hk. replace (col + 1 + k)%Z with (col + (1 + k))%Z by lia. apply Hm. cbn [length]. lia. }
    apply K; [lia|]. exact Hm. }
  rewrite row_max_minus_inf by done. destruct raw as [|v raw]; [done|]. cbn [mask_lanes] in *. apply Forall_cons in Hall as [-> _].
  unfold exp_lanes. cbn [map]. change (f_exp (f_sub minus_inf minus_inf)) with (exp32 S754_nan). rewrite exp_nan.
  unfold sum_lanes. cbn [foldl]. change (d_add d_zero (to_d S754_nan)) with (S754_nan : float).
  match goal with |- context [foldl ?f S754_nan ?l] => change (foldl f S754_nan l) with (sum_lanes l (S754_nan : float)) end.
  rewrite sum_nan. cbn [d_mul d_add machine]. by destruct (SFmul _ _ (on_l o) _).
Qed.
End Masked.

Lemma masked_row_fails_witness :
  row_step (arith := machine (fun x => x) (fun x => x)) 16 false true float_zero 32 0 (mkOnline double_one double_one) (replicate 32 float_zero) = None.
Proof.
  apply (masked_row_fails (fun x => x) (fun x => x) eq_refl); [done|]. intros col Hc. rewrite length_replicate in Hc. rewrite u32_small by (unfold is_u32; lia). lia.
Defined.

(** ** Exact numbers *)

(** Reals with minus infinity. *)
Abbreviation ER := (option R).
Section Exact.
Local Open Scope R_scope.

Definition er2 (f : R -> R -> R) (x y : ER) : ER :=
  match x, y with Some x, Some y => Some (f x y) | _, _ => None end.
Definition er_lt (x y : ER) : bool :=
  match x, y with
  | Some x, Some y => if Rlt_dec x y then true else false
  | None, Some _ => true
  | _, None => false
  end.
Definition er_exp (x : ER) : ER := Some (match x with Some x => exp x | None => 0 end).

Instance exact : Arith ER ER := {
  f_lt := er_lt; f_mul := er2 Rmult; f_sub := er2 Rminus; f_exp := er_exp; f_neginf := None;
  to_d x := x; to_f x := x;
  d_lt := er_lt; d_add := er2 Rplus; d_sub := er2 Rminus; d_mul := er2 Rmult; d_div := er2 Rdiv; d_exp := er_exp;
  d_zero := Some 0; d_one := Some 1; d_neginf := None;
  d_is_neginf x := match x with None => true | _ => false end;
  d_finite x := match x with None => false | _ => true end
}.

Definition sum (l : list R) : R := foldr Rplus 0 l.
Definition val (x : ER) : R := match x with Some x => x | None => 0 end.
(** The exponential of a score, zero where it is masked. *)
Definition weight (x : ER) : R := match x with Some x => exp x | None => 0 end.

(** A tile of keys: its first key, the scores of the row, and one component of
    the values. *)
Record Tile := mkTile { t_key : Z; t_scores : list ER; t_values : list R }.

Section Attention.
Variable lanes : nat.
Variable causal : bool.
Variable scale : R.
Variable row : Z.

Definition masked (t : Tile) : list ER := mask_lanes causal (Some scale) (t_key t) row 0 (t_scores t).

(** What the engine's client does with a row result: the output so far is
    rescaled and the tile's weighted values are added. *)
Definition accumulate (out : R) (res : RowResult ER ER) (values : list R) : R :=
  out * val (r_oldScale res) + sum (zip_with (fun w v => val w * v) (r_weights res) values).

Fixpoint attend (tiles : list Tile) (o : Online ER) (out : R) : option R :=
  match tiles with
  | [] => Some out
  | t :: tiles =>
      match row_step lanes (match tiles with [] => true | _ => false end) causal (Some scale) (t_key t) row o (t_scores t) with
      | None => None
      | Some res => attend tiles (r_online res) (accumulate out res (t_values t))
      end
  end.

(** Softmax of the whole row: sums over all tiles. *)
Definition denominator (tiles : list Tile) : R := sum (concat (map (fun t => map weight (masked t)) tiles)).
Definition numerator (tiles : list Tile) : R :=
  sum (concat (map (fun t => zip_with (fun x v => weight x * v) (masked t) (t_values t)) tiles)).

(** A tile with scores that are numbers, one of them not masked. *)
Definition tile_ok (t : Tile) : Prop :=
  Forall (fun x => x <> None) (t_scores t) /\ Exists (fun x => x <> None) (masked t).

Lemma sum_app l l' : sum (l ++ l') = sum l + sum l'.
Proof. unfold sum. induction l as [|x l IH]; cbn; [lra|]. rewrite IH. lra. Qed.
Lemma sum_scale c l : sum (map (fun x => x * c) l) = sum l * c.
Proof. unfold sum. induction l as [|x l IH]; cbn; [lra|]. rewrite IH. lra. Qed.

Lemma f_max_some (a b : ER) : a <> None \/ b <> None -> f_max a b <> None.
Proof. unfold f_max. cbn. destruct a, b; cbn; intros H; try by destruct H. by destruct (Rlt_dec _ _). Qed.
Lemma foldl_max_some (l : list ER) : forall a, a <> None \/ Exists (fun x => x <> None) l -> foldl f_max a l <> None.
Proof.
  induction l as [|x l IH]; intros a H; cbn [foldl].
  - destruct H as [H|H]; [done|]. by apply Exists_nil in H.
  - apply IH. destruct H as [H|H]; [left; apply f_max_some; auto|]. apply Exists_cons in H as [H|H]; [left; apply f_max_some; auto|auto].
Qed.
Lemma max_element_some (l : list ER) : Exists (fun x => x <> None) l -> max_element l <> None.
Proof.
  destruct l as [|x l]; cbn [max_element]; intros H; [by apply Exists_nil in H|]. apply foldl_max_some. by apply Exists_cons in H.
Qed.

Lemma row_max_some (l : list ER) : (0 < lanes)%nat -> Exists (fun x => x <> None) l -> row_max lanes l <> None.
Proof.
  intros Hl. unfold row_max, chunks. assert (length l <= length l)%nat as Hf by done. revert Hf. generalize (length l) at 2 3 as fuel. intros fuel.
  assert (forall a : ER, a <> None \/ Exists (fun x => x <> None) l -> (length l <= fuel)%nat ->
    foldl (fun m ch => f_max m (max_element ch)) a (chunks_of fuel lanes l) <> None) as K; [|auto].
  revert l. induction fuel as [|fuel IH]; intros l a H Hf; destruct l as [|x l]; cbn [chunks_of foldl].
  - destruct H as [H|H]; [done|]. by apply Exists_nil in H.
  - by apply Nat.nle_succ_0 in Hf.
  - destruct H as [H|H]; [done|]. by apply Exists_nil in H.
  - apply IH; [|rewrite length_drop; cbn [length] in *; lia]. rewrite <- (take_drop lanes (x :: l)) in H.
    destruct H as [H|H]; [left; apply f_max_some; auto|]. apply Exists_app in H as [H|H]; [left; apply f_max_some; right; by apply max_element_some|auto].
Qed.

Lemma exp_lanes_exact (s : list ER) M : exp_lanes (Some M) s = map (fun x => Some (weight x * exp (- M))) s.
Proof.
  apply map_ext. intros [x|]; cbn; [|by rewrite Rmult_0_l]. by rewrite <- exp_plus.
Qed.
Lemma sum_lanes_exact (l : list R) : forall a, sum_lanes (map Some l) (Some a) = Some (a + sum l).
Proof. unfold sum. induction l as [|x l IH]; intros a; cbn; [f_equal; lra|]. unfold sum_lanes in IH. rewrite IH. f_equal. lra. Qed.
Lemma weighted_exact (s : list ER) c d : forall values,
  sum (zip_with (fun w v => val w * v) (scale_lanes (Some c) (map (fun x => Some (weight x * d)) s)) values) =
    sum (zip_with (fun x v => weight x * v) s values) * (d * c).
Proof.
  unfold sum. induction s as [|x s IH]; intros [|v values]; cbn; try lra. unfold scale_lanes in IH. rewrite IH. lra.
Qed.

(** [den] and [num] are the sums over the tiles so far. *)
Definition tracks (o : Online ER) (out den num : R) : Prop :=
  on_m o = None /\ on_l o = Some 0 /\ den = 0 /\ num = 0 \/
  exists M, on_m o = Some M /\ on_l o = Some (den * exp (- M)) /\ out = num * exp (- M).

Abbreviation tile_den t := (sum (map weight (masked t))).
Abbreviation tile_num t := (sum (zip_with (fun x v => weight x * v) (masked t) (t_values t))).

Lemma weight_nonneg (l : list ER) : 0 <= sum (map weight l).
Proof.
  unfold sum. induction l as [|[x|] l IH]; cbn; [lra| |lra]. pose proof (exp_pos x). lra.
Qed.
Lemma tile_den_pos t : tile_ok t -> 0 < tile_den t.
Proof.
  intros [_ H]. induction H as [x l Hx|x l _ IH]; cbn.
  - destruct x as [x|]; [|done]. pose proof (exp_pos x). pose proof (weight_nonneg l). unfold sum in *. cbn. lra.
  - unfold sum in *. destruct x as [x|]; cbn; [pose proof (exp_pos x); lra|lra].
Qed.

(** The sums of a tile enter with the scales the step has computed. *)
Lemma row_step_exact final t o out den num : (0 < lanes)%nat -> tile_ok t -> 0 <= den -> tracks o out den num ->
  exists M L res, L = (den + tile_den t) * exp (- M) /\ 0 < L /\
    row_step lanes final causal (Some scale) (t_key t) row o (t_scores t) = Some res /\
    r_online res = mkOnline (Some M) (Some L) /\
    accumulate out res (t_values t) = (num + tile_num t) * exp (- M) * (if final then / L else 1).
Proof.
  intros Hl Ht Hd Htr. pose proof (tile_den_pos t Ht) as Hp. destruct Ht as [_ Ht]. unfold row_step, row_update. fold (masked t).
  destruct (row_max lanes (masked t)) as [Mt|] eqn:Em; [|by pose proof (row_max_some _ Hl Ht)].
  rewrite exp_lanes_exact. rewrite <- (map_map (fun x => weight x * exp (- Mt)) Some). cbn [d_zero exact]. rewrite sum_lanes_exact.
  rewrite <- (map_map weight (fun x => x * exp (- Mt))), sum_scale, Rplus_0_l.
  assert (exists M a, d_max (on_m o) (Some Mt) = Some M /\ alpha_of o (Some M) = Some a /\
    d_mul (on_l o) (Some a) = Some (den * exp (- M)) /\ out * a = num * exp (- M)) as (M & a & E1 & E2 & E3 & E4).
  { destruct Htr as [(H1 & H2 & -> & ->)|(M0 & H1 & H2 & ->)]; unfold alpha_of; rewrite H1, ?H2.
    - exists Mt, 0. cbn. split_and!; [done|done|f_equal; lra|lra].
    - assert (forall M, exp (- M0) * exp (M0 - M) = exp (- M)) as X by (intros M; rewrite <- exp_plus; f_equal; lra).
      unfold d_max. cbn. destruct (Rlt_dec M0 Mt).
      + exists Mt, (exp (M0 - Mt)). split_and!; [done|done|cbn; f_equal; rewrite <- (X Mt); lra|rewrite <- (X Mt); lra].
      + exists M0, (exp (M0 - M0)). split_and!; [done|done|cbn; f_equal; rewrite <- (X M0) at 2; lra|rewrite <- (X M0) at 2; lra]. }
  cbn [to_d exact] in *. rewrite E1, E2, E3. unfold beta_of. cbn [to_d d_sub d_exp d_mul d_add exact er2 er_exp].
  assert (forall x, x * exp (- Mt) * exp (Mt - M) = x * exp (- M)) as X by (intros x; rewrite Rmult_assoc, <- exp_plus; do 2 f_equal; lra).
  rewrite X. set (L := den * exp (- M) + tile_den t * exp (- M)).
  assert (0 < L) as HL by (unfold L; rewrite <- Rmult_plus_distr_r; apply Rmult_lt_0_compat; [lra|apply exp_pos]).
  assert (sum_ok (Some L) = true) as -> by (unfold sum_ok; cbn; by destruct (Rlt_dec 0 L)).
  exists M, L. eexists. split; [unfold L; lra|]. split; [done|]. split; [done|]. split; [done|].
  assert (forall x, scale_of final (Some x) (Some L) = Some (x * if final then / L else 1)) as Sc.
  { intros x. unfold scale_of. destruct final; cbn; f_equal; [unfold Rdiv; lra|lra]. }
  unfold accumulate. cbn [r_oldScale r_weights]. change (er_exp (Some (Mt - M))) with (Some (exp (Mt - M))).
  rewrite !Sc, !map_map, weighted_exact. cbn [val].
  replace (exp (- Mt) * (exp (Mt - M) * if final then / L else 1)) with (exp (- M) * if final then / L else 1).
  - rewrite <- Rmult_assoc, E4. lra.
  - rewrite <- Rmult_assoc, <- exp_plus. do 2 f_equal. lra.
Qed.

Lemma sum_concat_cons (l : list R) ls : sum (concat (l :: ls)) = sum l + sum (concat ls).
Proof. cbn [concat]. apply sum_app. Qed.

Lemma attend_from tiles : forall o out den num, tiles <> [] -> (0 < lanes)%nat -> Forall tile_ok tiles -> 0 <= den -> tracks o out den num ->
  attend tiles o out = Some ((num + numerator tiles) / (den + denominator tiles)).
Proof.
  induction tiles as [|t tiles IH]; intros o out den num Hne Hl Hf Hd Htr; [done|]. apply Forall_cons in Hf as [Ht Hf].
  unfold numerator, denominator in *. cbn [map]. rewrite !sum_concat_cons. cbn [attend].
  destruct (row_step_exact (match tiles with [] => true | _ => false end) t o out den num Hl Ht Hd Htr) as (M & L & res & EL & HL & -> & Eo & Ea).
  pose proof (tile_den_pos t Ht) as Hp. destruct tiles as [|t' tiles].
  - cbn [attend map concat]. rewrite Ea. f_equal. change (sum []) with 0. rewrite !Rplus_0_r, EL. pose proof (exp_pos (- M)). field. lra.
  - rewrite (IH _ _ (den + tile_den t) (num + tile_num t)); [f_equal; f_equal; lra|done|done|done|lra|].
    right. exists M. rewrite Eo. cbn. rewrite EL, Ea, Rmult_1_r. done.
Qed.

(** C6. The tiles of a row combine to its softmax.  With exact arithmetic, from a
    fresh online state and any old output, rescaling the output and adding the
    weighted values of each tile ends with the sum of the values weighted by the
    softmax of the whole row's scaled and masked scores - however the row is cut
    into tiles and lanes, if every tile has a key that is not masked. *)
Theorem online_softmax_exact tiles out : tiles <> [] -> (0 < lanes)%nat -> Forall tile_ok tiles ->
  attend tiles fresh_online out = Some (numerator tiles / denominator tiles).
Proof.
  intros Hne Hl Hf. rewrite (attend_from tiles fresh_online out 0 0); [by rewrite !Rplus_0_l|done|done|done|lra|]. left. by split_and!.
Qed.
End Attention.

(** Three equal scores in two tiles: the mean of the values. *)
Definition even_tiles : list Tile := [mkTile 0 [Some 0; Some 0] [1; 3]; mkTile 2 [Some 0] [5]].
Lemma online_softmax_exact_witness : attend 4 false 1 0 even_tiles fresh_online 0 = Some 3.
Proof.
  rewrite (online_softmax_exact 4 false 1 0 even_tiles 0).
  - f_equal. unfold numerator, denominator, sum, masked. cbn. rewrite !Rmult_0_l, exp_0. lra.
  - done.
  - lia.
  - repeat constructor; done.
Defined.
End Exact.
