(* ===== verification/ScoreFifo.v ===== *)
(** * Attention score FIFO

    Models [AttentionScoreFifo] of golem/attention/attentionCluster.h: sixteen
    slots of up to 1024 scores, each owned by a tag, filled element by element
    (directly, or by a reservation that a later commit fulfils) and read once
    complete.  [Spec] is the abstract contract, a slot of write-once cells;
    [score_fifo_refines] shows the implementation keeps it. *)

From S2P Require Import Prelude Float32 Cluster.

Module ScoreFifo.

Definition kSlots : nat := 16.
Definition kElementsPerSlot : Z := 1024.

(** The [uint8_t] flags of the source hold 0 and 1 only. *)
Record Slot := mkSlot {
  valid : bool;
  tag : AttentionClusterTag;
  elements : list float;
  elementValid : list bool;
  elementReserved : list bool;
  validElements : Z
}.
#[export] Instance eta_slot : Eta Slot := fun s =>
  mkSlot (valid s) (tag s) (elements s) (elementValid s) (elementReserved s) (validElements s).

Definition no_slot : Slot := mkSlot false no_tag [] [] [] 0.
#[export] Instance slot_inhabited : Inhabited Slot := populate no_slot.

(** The state of the FIFO is its array [slots_]. *)
Definition init : list Slot := replicate kSlots no_slot.

Definition size (s : Slot) : Z := Z.of_nat (length (elements s)).

(** The flags of the [count] elements from [offset] on. *)
Definition range {A} (l : list A) (offset count : Z) : list A :=
  take (Z.to_nat count) (drop (Z.to_nat offset) l).
Definition find_none (flag : bool) (l : list bool) : bool := forallb (fun b => negb (eqb b flag)) l.

(** [count] consecutive assignments from [offset] on. *)
Definition store {A} (offset : Z) (values : list A) (l : list A) : list A :=
  list_inserts (Z.to_nat offset) values l.

Definition matches (slot : Z) (tg : AttentionClusterTag) (f : list Slot) : bool :=
  (slot <? Z.of_nat kSlots) && valid (f.[slot]) && tag_eqb (tag (f.[slot])) tg.

Definition rangeInBounds (s : Slot) (offset count : Z) : bool :=
  negb (count =? 0) && (offset <=? size s) && (count <=? size s - offset).

Definition rangeAvailable (slot : Z) (tg : AttentionClusterTag) (offset count : Z) (f : list Slot) : bool :=
  if negb (matches slot tg f) then false
  else
    let target := f.[slot] in
    if negb (rangeInBounds target offset count) then false
    else find_none true (range (elementValid target) offset count) &&
         find_none true (range (elementReserved target) offset count).

Definition reserve (slot : Z) (tg : AttentionClusterTag) (n : Z) (f : list Slot) : bool * list Slot :=
  if (Z.of_nat kSlots <=? slot) || (n =? 0) || (kElementsPerSlot <? n) || valid (f.[slot])
  then (false, f)
  else
    let k := Z.to_nat n in
    (true, f.[slot := mkSlot true tg (replicate k float_zero) (replicate k false)
                        (replicate k false) 0]).

Definition write (slot : Z) (tg : AttentionClusterTag) (offset : Z) (values : list float)
    (f : list Slot) : bool * list Slot :=
  if negb (rangeAvailable slot tg offset (Z.of_nat (length values)) f) then (false, f)
  else
    let target := f.[slot] in
    (true, f.[slot :=
      target <| elementValid := store offset (map (fun _ => true) values) (elementValid target) |>
             <| validElements := validElements target ⊞ Z.of_nat (length values) |>
             <| elements := store offset values (elements target) |>]).

Definition reserveWrite (slot : Z) (tg : AttentionClusterTag) (offset count : Z)
    (f : list Slot) : bool * list Slot :=
  if negb (rangeAvailable slot tg offset count f) then (false, f)
  else
    let target := f.[slot] in
    (true, f.[slot :=
      target <| elementReserved :=
        store offset (replicate (Z.to_nat count) true) (elementReserved target) |>]).

Definition commitWrite (slot : Z) (tg : AttentionClusterTag) (offset : Z) (values : list float)
    (f : list Slot) : bool * list Slot :=
  let n := Z.of_nat (length values) in
  if negb (matches slot tg f) || (n =? 0) then (false, f)
  else
    let target := f.[slot] in
    if negb (rangeInBounds target offset n) ||
       negb (find_none false (range (elementReserved target) offset n)) ||
       negb (find_none true (range (elementValid target) offset n))
    then (false, f)
    else
      (true, f.[slot :=
        target <| elementReserved :=
                    store offset (map (fun _ => false) values) (elementReserved target) |>
               <| elementValid :=
                    store offset (map (fun _ => true) values) (elementValid target) |>
               <| elements := store offset values (elements target) |>
               <| validElements := validElements target ⊞ n |>]).

Definition canRead (slot : Z) (tg : AttentionClusterTag) (offset count : Z) (f : list Slot) : bool :=
  if negb (matches slot tg f) || (count =? 0) then false
  else
    let source := f.[slot] in
    if (size source <? offset) || (size source - offset <? count) then false
    else find_none false (range (elementValid source) offset count).

Definition overwrite (slot : Z) (tg : AttentionClusterTag) (offset : Z) (values : list float)
    (f : list Slot) : bool * list Slot :=
  if negb (canRead slot tg offset (Z.of_nat (length values)) f) then (false, f)
  else
    let target := f.[slot] in
    (true, f.[slot := target <| elements := store offset values (elements target) |>]).

Definition read (slot : Z) (tg : AttentionClusterTag) (offset count : Z) (f : list Slot) :
    option (list float) :=
  if negb (canRead slot tg offset count f) then None
  else Some (range (elements (f.[slot])) offset count).

Definition ready (slot : Z) (tg : AttentionClusterTag) (f : list Slot) : bool :=
  matches slot tg f && (validElements (f.[slot]) =? size (f.[slot])).

Definition reserved (slot : Z) (tg : AttentionClusterTag) (f : list Slot) : bool := matches slot tg f.

Definition occupied_slot (slot : Z) (f : list Slot) : bool :=
  (slot <? Z.of_nat kSlots) && valid (f.[slot]).

Definition release (slot : Z) (tg : AttentionClusterTag) (f : list Slot) : bool * list Slot :=
  if negb (matches slot tg f) then (false, f) else (true, f.[slot := no_slot]).

Definition of_generation (gen : Z) (s : Slot) : bool := valid s && (generation (tag s) =? gen).

Definition cancelGeneration (gen : Z) (f : list Slot) : Z * list Slot :=
  (u32 (Z.of_nat (length (filter (fun s => of_generation gen s = true) f))),
   (fun s : Slot => if of_generation gen s then no_slot else s) <$> f).

Definition occupied (f : list Slot) : Z := Z.of_nat (length (filter (fun s => valid s = true) f)).

(** *** Operations as data *)

Inductive op :=
| Reserve (slot : Z) (tg : AttentionClusterTag) (n : Z)
| Write (slot : Z) (tg : AttentionClusterTag) (offset : Z) (values : list float)
| ReserveWrite (slot : Z) (tg : AttentionClusterTag) (offset count : Z)
| CommitWrite (slot : Z) (tg : AttentionClusterTag) (offset : Z) (values : list float)
| Overwrite (slot : Z) (tg : AttentionClusterTag) (offset : Z) (values : list float)
| Read (slot : Z) (tg : AttentionClusterTag) (offset count : Z)
| Ready (slot : Z) (tg : AttentionClusterTag)
| Release (slot : Z) (tg : AttentionClusterTag)
| CancelGeneration (gen : Z).

Inductive result := RBool (b : bool) | RValues (o : option (list float)) | RCount (n : Z).

Definition exec (o : op) (f : list Slot) : result * list Slot :=
  match o with
  | Reserve sl tg n => let '(b, f') := reserve sl tg n f in (RBool b, f')
  | Write sl tg off vs => let '(b, f') := write sl tg off vs f in (RBool b, f')
  | ReserveWrite sl tg off n => let '(b, f') := reserveWrite sl tg off n f in (RBool b, f')
  | CommitWrite sl tg off vs => let '(b, f') := commitWrite sl tg off vs f in (RBool b, f')
  | Overwrite sl tg off vs => let '(b, f') := overwrite sl tg off vs f in (RBool b, f')
  | Read sl tg off n => (RValues (read sl tg off n f), f)
  | Ready sl tg => (RBool (ready sl tg f), f)
  | Release sl tg => let '(b, f') := release sl tg f in (RBool b, f')
  | CancelGeneration g => let '(n, f') := cancelGeneration g f in (RCount n, f')
  end.

Fixpoint exec_all (os : list op) (f : list Slot) : list result * list Slot :=
  match os with
  | [] => ([], f)
  | o :: os =>
      let '(r, f1) := exec o f in let '(rs, f2) := exec_all os f1 in (r :: rs, f2)
  end.

(** The arguments are unsigned in the source. *)
Definition op_ok (o : op) : Prop :=
  match o with
  | Reserve sl _ n => 0 <= sl /\ 0 <= n
  | Write sl _ off _ | CommitWrite sl _ off _ | Overwrite sl _ off _ => 0 <= sl /\ 0 <= off
  | ReserveWrite sl _ off n | Read sl _ off n => 0 <= sl /\ 0 <= off /\ 0 <= n
  | Ready sl _ | Release sl _ => 0 <= sl
  | CancelGeneration _ => True
  end.

End ScoreFifo.

(** ** The contract: slots of write-once cells *)

Module Spec.

Inductive cell := Empty | Reserved | Written (v : float).

(** A slot is free, or owned by a tag and made of cells. *)
Abbreviation slot := (option (AttentionClusterTag * list cell)).

Definition is_empty (c : cell) : bool := match c with Empty => true | _ => false end.
Definition is_reserved (c : cell) : bool := match c with Reserved => true | _ => false end.
Definition is_written (c : cell) : bool := match c with Written _ => true | _ => false end.

(** The cells of the slot [i] if [tg] owns it. *)
Definition owned (i : Z) (tg : AttentionClusterTag) (f : list slot) : option (list cell) :=
  match f !! Z.to_nat i with
  | Some (Some (tg', cs)) => if decide (tg' = tg) then Some cs else None
  | _ => None
  end.

(** A non-empty range lies inside [cs] and all its cells satisfy [P]. *)
Definition range_is (P : cell -> bool) (off n : nat) (cs : list cell) : bool :=
  bool_decide (0 < n /\ off + n <= length cs)%nat && forallb P (take n (drop off cs)).

(** Replace a range of cells that all satisfy [P] by [new]. *)
Definition transition (P : cell -> bool) (i : Z) (tg : AttentionClusterTag) (off : Z)
    (new : list cell) (f : list slot) : bool * list slot :=
  match owned i tg f with
  | Some cs =>
      if range_is P (Z.to_nat off) (length new) cs
      then (true, <[Z.to_nat i := Some (tg, list_inserts (Z.to_nat off) new cs)]> f)
      else (false, f)
  | None => (false, f)
  end.

Definition cell_value (c : cell) : float :=
  match c with Written v => v | _ => float_zero end.

Definition exec (o : ScoreFifo.op) (f : list slot) : ScoreFifo.result * list slot :=
  match o with
  | ScoreFifo.Reserve i tg n =>
      match f !! Z.to_nat i with
      | Some None =>
          if bool_decide (1 <= n <= 1024)
          then (ScoreFifo.RBool true,
                <[Z.to_nat i := Some (tg, replicate (Z.to_nat n) Empty)]> f)
          else (ScoreFifo.RBool false, f)
      | _ => (ScoreFifo.RBool false, f)
      end
  | ScoreFifo.Write i tg off vs =>
      let '(b, f') := transition is_empty i tg off (map Written vs) f in (ScoreFifo.RBool b, f')
  | ScoreFifo.ReserveWrite i tg off n =>
      let '(b, f') := transition is_empty i tg off (replicate (Z.to_nat n) Reserved) f in
      (ScoreFifo.RBool b, f')
  | ScoreFifo.CommitWrite i tg off vs =>
      let '(b, f') := transition is_reserved i tg off (map Written vs) f in
      (ScoreFifo.RBool b, f')
  | ScoreFifo.Overwrite i tg off vs =>
      let '(b, f') := transition is_written i tg off (map Written vs) f in
      (ScoreFifo.RBool b, f')
  | ScoreFifo.Read i tg off n =>
      (ScoreFifo.RValues
         match owned i tg f with
         | Some cs =>
             if range_is is_written (Z.to_nat off) (Z.to_nat n) cs
             then Some (map cell_value (take (Z.to_nat n) (drop (Z.to_nat off) cs)))
             else None
         | None => None
         end, f)
  | ScoreFifo.Ready i tg =>
      (ScoreFifo.RBool
         match owned i tg f with Some cs => forallb is_written cs | None => false end, f)
  | ScoreFifo.Release i tg =>
      match owned i tg f with
      | Some _ => (ScoreFifo.RBool true, <[Z.to_nat i := None]> f)
      | None => (ScoreFifo.RBool false, f)
      end
  | ScoreFifo.CancelGeneration g =>
      let stale (s : slot) := match s with Some (tg, _) => generation tg =? g | None => false end in
      (ScoreFifo.RCount (Z.of_nat (length (filter (fun s => stale s = true) f))),
       (fun s : slot => if stale s then None else s) <$> f)
  end.

Fixpoint exec_all (os : list ScoreFifo.op) (f : list slot) :
    list ScoreFifo.result * list slot :=
  match os with
  | [] => ([], f)
  | o :: os =>
      let '(r, f1) := exec o f in let '(rs, f2) := exec_all os f1 in (r :: rs, f2)
  end.

End Spec.

(** ** Splitting an array around a range *)

Lemma split_range {A} (l : list A) (off n : Z) :
  0 <= off -> 0 <= n -> off + n <= Z.of_nat (length l) ->
  exists l1 l2 l3, l = l1 ++ l2 ++ l3 /\ length l1 = Z.to_nat off /\ length l2 = Z.to_nat n.
Proof.
  intros Ho Hn Hl.
  exists (take (Z.to_nat off) l), (take (Z.to_nat n) (drop (Z.to_nat off) l)),
    (drop (Z.to_nat n) (drop (Z.to_nat off) l)).
  rewrite !take_drop, !length_take, length_drop. split_and!; [done|lia|lia].
Qed.

Lemma range_split {A} (l1 l2 l3 : list A) off n :
  length l1 = Z.to_nat off -> length l2 = Z.to_nat n -> ScoreFifo.range (l1 ++ l2 ++ l3) off n = l2.
Proof. intros H1 H2. unfold ScoreFifo.range. rewrite drop_app_length' by done. by rewrite take_app_length' by done. Qed.

Lemma store_split {A} (l1 l2 l3 k : list A) off :
  length l1 = Z.to_nat off -> length k = length l2 ->
  ScoreFifo.store off k (l1 ++ l2 ++ l3) = l1 ++ k ++ l3.
Proof.
  intros H1. unfold ScoreFifo.store. rewrite <- H1. clear H1.
  revert l1 l2. induction k as [|x k IH]; intros l1 l2 Hk; destruct l2 as [|y l2]; try done.
  simpl in *. injection Hk as Hk.
  replace (l1 ++ y :: l2 ++ l3) with ((l1 ++ [y]) ++ l2 ++ l3) by by rewrite <- app_assoc.
  replace (S (length l1)) with (length (l1 ++ [y])) by (rewrite length_app; simpl; lia).
  rewrite IH by done. rewrite <- app_assoc. simpl.
  by rewrite insert_app_r_alt, Nat.sub_diag by done.
Qed.

Section ScoreFifoFacts.
Import ScoreFifo.

Definition cell_from (vr : bool * bool) (e : float) : Spec.cell :=
  if vr.1 then Spec.Written e else if vr.2 then Spec.Reserved else Spec.Empty.
Definition cells (ev er : list bool) (el : list float) : list Spec.cell :=
  zip_with cell_from (zip ev er) el.

Definition abs_slot (s : Slot) : Spec.slot :=
  if valid s then Some (tag s, cells (elementValid s) (elementReserved s) (elements s)) else None.
Definition abs (f : list Slot) : list Spec.slot := abs_slot <$> f.

Definition marked (l : list bool) : Z := Z.of_nat (length (filter (fun b => b = true) l)).
Definition exclusive (v r : bool) : Prop := v && r = false.

(** The representation invariant of one slot. *)
Record live (s : Slot) : Prop := {
  live_valid : length (elementValid s) = length (elements s);
  live_reserved : length (elementReserved s) = length (elements s);
  live_size : 1 <= size s <= kElementsPerSlot;
  live_count : validElements s = marked (elementValid s);
  live_excl : Forall2 exclusive (elementValid s) (elementReserved s)
}.
Definition slot_wf (s : Slot) : Prop := if valid s then live s else s = no_slot.
Definition wf (f : list Slot) : Prop := length f = kSlots /\ Forall slot_wf f.

Lemma cells_app v1 v2 r1 r2 e1 e2 :
  length v1 = length e1 -> length r1 = length e1 ->
  cells (v1 ++ v2) (r1 ++ r2) (e1 ++ e2) = cells v1 r1 e1 ++ cells v2 r2 e2.
Proof.
  intros Hv Hr. unfold cells. rewrite zip_with_app by lia.
  rewrite zip_with_app; [done|]. rewrite length_zip_with. lia.
Qed.

Lemma cells_length v r e :
  length v = length e -> length r = length e -> length (cells v r e) = length e.
Proof. intros. unfold cells. rewrite !length_zip_with. lia. Qed.

Lemma marked_app l1 l2 : marked (l1 ++ l2) = marked l1 + marked l2.
Proof. unfold marked. rewrite filter_app, length_app. lia. Qed.

Lemma marked_le l : 0 <= marked l <= Z.of_nat (length l).
Proof. unfold marked. pose proof (length_filter (fun b => b = true) l). lia. Qed.

Lemma marked_all l : marked l = Z.of_nat (length l) <-> find_none false l = true.
Proof.
  unfold find_none. induction l as [|b l IH]; [done|]. pose proof (marked_le l).
  unfold marked in *. rewrite filter_cons. destruct b; simpl; [rewrite <- IH; lia|].
  split; [lia|done].
Qed.

Lemma marked_none l : find_none true l = true -> marked l = 0.
Proof.
  unfold find_none. induction l as [|b l IH]; [done|]. unfold marked in *. rewrite filter_cons.
  destruct b; simpl; [done|exact IH].
Qed.

Lemma marked_true {A} (l : list A) : marked (map (fun _ => true) l) = Z.of_nat (length l).
Proof.
  induction l as [|x l IH]; [done|]. unfold marked in *. cbn [map].
  rewrite filter_cons, decide_True by done. cbn [length]. lia.
Qed.

(** The flags of a range, seen as cells. *)
Lemma cells_empty v r e :
  length v = length e -> length r = length e ->
  forallb Spec.is_empty (cells v r e) = find_none true v && find_none true r.
Proof.
  unfold find_none. revert v r; induction e as [|x e IH]; intros [|b v] [|c r] Hv Hr; try done.
  simpl in *. injection Hv as Hv. injection Hr as Hr. specialize (IH v r Hv Hr). unfold cells in IH.
  rewrite IH. destruct b, c; simpl; done || by rewrite andb_false_r.
Qed.

Lemma cells_written v r e :
  length v = length e -> length r = length e ->
  forallb Spec.is_written (cells v r e) = find_none false v.
Proof.
  unfold find_none. revert v r; induction e as [|x e IH]; intros [|b v] [|c r] Hv Hr; try done.
  simpl in *. injection Hv as Hv. injection Hr as Hr. specialize (IH v r Hv Hr). unfold cells in IH.
  rewrite IH. destruct b, c; done.
Qed.

Lemma cells_reserved v r e :
  length v = length e -> length r = length e ->
  forallb Spec.is_reserved (cells v r e) = find_none true v && find_none false r.
Proof.
  unfold find_none. revert v r; induction e as [|x e IH]; intros [|b v] [|c r] Hv Hr; try done.
  simpl in *. injection Hv as Hv. injection Hr as Hr. specialize (IH v r Hv Hr). unfold cells in IH.
  rewrite IH. destruct b, c; simpl; done || by rewrite andb_false_r.
Qed.

Lemma cells_of_written r e : length r = length e ->
  cells (map (fun _ => true) e) r e = map Spec.Written e.
Proof.
  revert r; induction e as [|x e IH]; intros [|c r] Hr; try done.
  simpl in *. injection Hr as Hr. unfold cells in *. simpl. by rewrite IH.
Qed.

Lemma cells_of_reserved v e : length v = length e -> find_none true v = true ->
  cells v (replicate (length e) true) e = replicate (length e) Spec.Reserved.
Proof.
  unfold find_none. revert v; induction e as [|x e IH]; intros [|b v] Hv Hn; try done.
  simpl in *. injection Hv as Hv. destruct b; [done|]. unfold cells in *. simpl in *.
  f_equal. by apply IH.
Qed.

Lemma cells_values v r e : length v = length e -> length r = length e ->
  find_none false v = true -> map Spec.cell_value (cells v r e) = e.
Proof.
  unfold find_none. revert v r; induction e as [|x e IH]; intros [|b v] [|c r] Hv Hr Hn; try done.
  simpl in *. injection Hv as Hv. injection Hr as Hr. destruct b; [|done]. unfold cells in *.
  simpl in *. f_equal. by apply IH.
Qed.

(** *** Ranges of cells *)

Lemma range_length {A} (l : list A) off n :
  0 <= off -> 0 <= n -> off + n <= Z.of_nat (length l) -> length (range l off n) = Z.to_nat n.
Proof. intros. unfold range. rewrite length_take, length_drop. lia. Qed.

Lemma cells_range v r e off n :
  length v = length e -> length r = length e ->
  range (cells v r e) off n = cells (range v off n) (range r off n) (range e off n).
Proof.
  intros Hv Hr. unfold range, cells. rewrite !zip_with_drop, !zip_with_take. done.
Qed.

Lemma range_is_cells P v r e off n :
  length v = length e -> length r = length e -> 0 <= off -> 0 <= n ->
  Spec.range_is P (Z.to_nat off) (Z.to_nat n) (cells v r e) =
  (negb (n =? 0) && (off <=? Z.of_nat (length e)) && (n <=? Z.of_nat (length e) - off)) &&
  forallb P (cells (range v off n) (range r off n) (range e off n)).
Proof.
  intros Hv Hr Ho Hn. unfold Spec.range_is.
  rewrite <- cells_range, cells_length by done. unfold range. f_equal.
  case_bool_decide; lia.
Qed.

Lemma store_range {A} off n (l : list A) :
  0 <= off -> 0 <= n -> off + n <= Z.of_nat (length l) -> store off (range l off n) l = l.
Proof.
  intros Ho Hn Hl. destruct (split_range l off n) as (l1 & l2 & l3 & -> & H1 & H2); [done..|].
  by rewrite range_split, store_split.
Qed.

Lemma length_store {A} off (k l : list A) : length (store off k l) = length l.
Proof. apply length_inserts. Qed.

(** The three arrays of a slot, split around the same range. *)
Lemma cells_store v r e kv kr ke off :
  length v = length e -> length r = length e -> length kv = length ke -> length kr = length ke ->
  0 <= off -> off + Z.of_nat (length ke) <= Z.of_nat (length e) ->
  cells (store off kv v) (store off kr r) (store off ke e) =
  list_inserts (Z.to_nat off) (cells kv kr ke) (cells v r e).
Proof.
  intros Hv Hr Hkv Hkr Ho Hl.
  destruct (split_range e off (Z.of_nat (length ke))) as (e1 & e2 & e3 & -> & E1 & E2); [lia..|].
  destruct (split_range v off (Z.of_nat (length ke))) as (v1 & v2 & v3 & -> & V1 & V2); [lia..|].
  destruct (split_range r off (Z.of_nat (length ke))) as (r1 & r2 & r3 & -> & R1 & R2); [lia..|].
  rewrite !length_app in *. rewrite !store_split by lia. rewrite !cells_app by lia.
  symmetry. apply (store_split (cells v1 r1 e1) (cells v2 r2 e2)); rewrite !cells_length; lia.
Qed.

Lemma marked_store v kv off :
  0 <= off -> off + Z.of_nat (length kv) <= Z.of_nat (length v) ->
  marked (store off kv v) =
  marked v - marked (range v off (Z.of_nat (length kv))) + marked kv.
Proof.
  intros Ho Hl.
  destruct (split_range v off (Z.of_nat (length kv))) as (v1 & v2 & v3 & -> & V1 & V2); [lia..|].
  rewrite store_split, range_split by lia. rewrite !marked_app. lia.
Qed.

Lemma exclusive_store v r kv kr off :
  length v = length r -> length kv = length kr -> 0 <= off ->
  off + Z.of_nat (length kv) <= Z.of_nat (length v) ->
  Forall2 exclusive v r -> Forall2 exclusive kv kr ->
  Forall2 exclusive (store off kv v) (store off kr r).
Proof.
  intros Hv Hk Ho Hl Hvr Hkvr.
  destruct (split_range v off (Z.of_nat (length kv))) as (v1 & v2 & v3 & -> & V1 & V2); [lia..|].
  destruct (split_range r off (Z.of_nat (length kv))) as (r1 & r2 & r3 & -> & R1 & R2); [lia..|].
  rewrite !store_split by lia. rewrite !length_app in *.
  apply Forall2_app_inv in Hvr as [H1 Hvr]; [|lia]. apply Forall2_app_inv in Hvr as [H2 H3]; [|lia].
  by repeat apply Forall2_app.
Qed.

Lemma exclusive_false_l v r :
  length v = length r -> find_none true v = true -> Forall2 exclusive v r.
Proof.
  unfold find_none. revert r; induction v as [|b v IH]; intros [|c r]; try done. simpl.
  intros [= Hl] [Hb Hv]%andb_true_iff. constructor; [by destruct b|by apply IH].
Qed.

Lemma exclusive_false_r v r :
  length v = length r -> find_none true r = true -> Forall2 exclusive v r.
Proof.
  unfold find_none. revert v; induction r as [|c r IH]; intros [|b v]; try done. simpl.
  intros [= Hl] [Hb Hv]%andb_true_iff. constructor; [by destruct b, c|by apply IH].
Qed.

(** *** From slots to the FIFO *)

Definition slot_cells (s : Slot) : list Spec.cell :=
  cells (elementValid s) (elementReserved s) (elements s).

Lemma wf_lookup f slot :
  wf f -> 0 <= slot < Z.of_nat kSlots ->
  f !! Z.to_nat slot = Some (f.[slot]) /\ slot_wf (f.[slot]).
Proof.
  intros [Hl Hf] Hs. assert (f !! Z.to_nat slot = Some (f.[slot])) as E.
  { apply list_lookup_lookup_total_lt. unfold kSlots in *. lia. }
  split; [done|]. by eapply (proj1 (Forall_lookup _ _) Hf).
Qed.

Lemma matches_spec f slot tg :
  wf f -> 0 <= slot -> matches slot tg f = true ->
  slot < Z.of_nat kSlots /\ valid (f.[slot]) = true /\ tag (f.[slot]) = tg /\ live (f.[slot]).
Proof.
  intros W Hs. unfold matches. rewrite !andb_true_iff, Z.ltb_lt, tag_eqb_eq.
  intros [[Hlt Hv] Ht]. destruct (wf_lookup f slot W ltac:(lia)) as [_ Hw].
  unfold slot_wf in Hw. rewrite Hv in Hw. done.
Qed.

Lemma owned_abs f slot tg :
  wf f -> 0 <= slot ->
  Spec.owned slot tg (abs f) =
  if matches slot tg f then Some (slot_cells (f.[slot])) else None.
Proof.
  intros W Hs. unfold Spec.owned, abs. rewrite list_lookup_fmap. unfold matches.
  destruct (Z.ltb_spec slot (Z.of_nat kSlots)); simpl.
  - destruct (wf_lookup f slot W ltac:(lia)) as [-> _]. simpl. unfold abs_slot.
    destruct (valid (f.[slot])); simpl; [|done].
    destruct (tag_eqb _ _) eqn:E; [apply tag_eqb_eq in E; by rewrite decide_True|].
    rewrite decide_False; [done|]. intros Ht%tag_eqb_eq. congruence.
  - rewrite lookup_ge_None_2; [done|]. destruct W as [-> _]. lia.
Qed.

Lemma wf_update f slot s' :
  wf f -> 0 <= slot < Z.of_nat kSlots -> slot_wf s' ->
  wf (f.[slot := s']) /\ abs (f.[slot := s']) = <[Z.to_nat slot := abs_slot s']> (abs f).
Proof.
  intros [Hl Hf] Hs Hw. split.
  - split; [by rewrite length_insert|by apply Forall_insert].
  - unfold abs. by rewrite list_fmap_insert.
Qed.

Lemma live_wf s : valid s = true -> live s -> slot_wf s /\ abs_slot s = Some (tag s, slot_cells s).
Proof. intros Hv Hl. unfold slot_wf, abs_slot. by rewrite Hv. Qed.

(** [upd] replaces the flags and values of [length ke] elements from [off] on. *)
Record range_update (s : Slot) (off : Z) (kv kr : list bool) (ke : list float) (upd : Slot) : Prop := {
  ru_kv : length kv = length ke;
  ru_kr : length kr = length ke;
  ru_excl : Forall2 exclusive kv kr;
  ru_valid : valid upd = true;
  ru_tag : tag upd = tag s;
  ru_elements : elements upd = store off ke (elements s);
  ru_elementValid : elementValid upd = store off kv (elementValid s);
  ru_elementReserved : elementReserved upd = store off kr (elementReserved s);
  ru_count : validElements upd =
    validElements s - marked (range (elementValid s) off (Z.of_nat (length kv))) + marked kv
}.

Lemma range_update_live s off kv kr ke upd :
  live s -> 0 <= off -> off + Z.of_nat (length ke) <= size s ->
  range_update s off kv kr ke upd ->
  live upd /\ slot_cells upd = list_inserts (Z.to_nat off) (cells kv kr ke) (slot_cells s).
Proof.
  intros [Lv Lr Ls Lc Le] Ho Hb []. unfold size in *. split.
  - constructor; rewrite ?ru_elements0, ?ru_elementValid0, ?ru_elementReserved0; unfold size;
      rewrite ?ru_elements0, ?length_store; [lia|lia|lia| |].
    + rewrite ru_count0, Lc, marked_store; lia.
    + apply exclusive_store; done || lia.
  - unfold slot_cells. rewrite ru_elements0, ru_elementValid0, ru_elementReserved0.
    apply cells_store; done || lia.
Qed.

(** A guarded update of a range of one slot refines [Spec.transition]. *)
Lemma refine_transition P f slot tg off n (new : list Spec.cell) (guard : bool) upd :
  wf f -> 0 <= slot -> 0 <= off -> 0 <= n -> length new = Z.to_nat n ->
  let s := f.[slot] in
  let v := range (elementValid s) off n in
  let r := range (elementReserved s) off n in
  let e := range (elements s) off n in
  (matches slot tg f && rangeInBounds s off n = true -> live s -> valid s = true ->
     off + n <= size s ->
     length v = Z.to_nat n -> length r = Z.to_nat n -> length e = Z.to_nat n ->
     forallb P (cells v r e) = guard /\
     (guard = true -> exists kv kr ke, new = cells kv kr ke /\ length ke = Z.to_nat n /\
        range_update s off kv kr ke upd)) ->
  let go := matches slot tg f && rangeInBounds s off n && guard in
  let f' := if go then f.[slot := upd] else f in
  wf f' /\ Spec.transition P slot tg off new (abs f) = (go, abs f').
Proof.
  intros W Hs Ho Hn Hnew s v r e Hu. unfold Spec.transition. rewrite (owned_abs f slot tg W Hs).
  destruct (matches slot tg f) eqn:Hm; simpl; [|done].
  destruct (matches_spec f slot tg W Hs Hm) as (Hlt & Hv & Ht & L). fold s in Hv, Ht, L |- *.
  pose proof L as [Lv Lr _ _ _]. rewrite Hnew. unfold slot_cells at 1.
  rewrite range_is_cells by done. fold (size s). fold (rangeInBounds s off n). fold v r e.
  destruct (rangeInBounds s off n) eqn:Hb; simpl; [|done].
  assert (off + n <= size s) as Hb' by (unfold rangeInBounds in Hb; lia).
  destruct Hu as [-> Hu]; [done|done|done|done|unfold size in Hb'; apply range_length; lia..|].
  destruct guard; [|done]. destruct Hu as (kv & kr & ke & -> & Hke & U); [done|].
  destruct (range_update_live s off kv kr ke upd L Ho ltac:(lia) U) as [L' Hc].
  destruct U as [_ _ _ Uv Ut _ _ _ _].
  destruct (live_wf upd Uv L') as [W' Ha].
  destruct (wf_update f slot upd W ltac:(lia) W') as [Wf ->]. split; [done|].
  by rewrite Ha, Ut, Ht, Hc.
Qed.

(** Elements newly written are counted without wrap-around. *)
Lemma count_new s off n :
  live s -> 0 <= off -> 0 <= n -> off + n <= size s ->
  find_none true (range (elementValid s) off n) = true ->
  validElements s ⊞ n = validElements s - marked (range (elementValid s) off n) + n.
Proof.
  intros [Lv _ Ls Lc _] Ho Hn Hb Hf. rewrite (marked_none _ Hf), Lc. unfold size in *.
  destruct (split_range (elementValid s) off n) as (v1 & v2 & v3 & E & H1 & H2); [lia..|].
  rewrite E, range_split in * by done. rewrite !length_app in Lv. rewrite !marked_app.
  pose proof (marked_none _ Hf). pose proof (marked_le v1). pose proof (marked_le v3).
  unfold kElementsPerSlot in *. mach_lia.
Qed.

Ltac range_side :=
  rewrite ?length_map, ?length_replicate; try done; unfold size in *; try congruence; try lia.

(** *** Each operation refines its specification *)

Lemma write_refines f slot tg off vs :
  wf f -> 0 <= slot -> 0 <= off ->
  let '(b, f') := write slot tg off vs f in
  wf f' /\ Spec.transition Spec.is_empty slot tg off (map Spec.Written vs) (abs f) = (b, abs f').
Proof.
  intros W Hs Ho. set (n := Z.of_nat (length vs)). set (s := f.[slot]).
  pose proof (refine_transition Spec.is_empty f slot tg off n (map Spec.Written vs)
    (find_none true (range (elementValid s) off n) && find_none true (range (elementReserved s) off n))
    (s <| elementValid := store off (map (fun _ => true) vs) (elementValid s) |>
       <| validElements := validElements s ⊞ n |>
       <| elements := store off vs (elements s) |>) W Hs Ho ltac:(lia)
       ltac:(range_side)) as R. fold s in R. cbv zeta in R.
  unfold write, rangeAvailable. fold n. fold s.
  destruct (matches slot tg f), (rangeInBounds s off n); simpl in R |- *;
    try by apply R.
  destruct (_ && _) eqn:Hg; apply R; intros Hgo L Hv Hb Lv Lr Le; rewrite cells_empty by congruence;
    [|done].
  split; [done|]. intros _. apply andb_true_iff in Hg as [Hgv Hgr]. destruct L as [? ? ? ? ?] eqn:EL.
  exists (map (fun _ => true) vs), (range (elementReserved s) off n), vs.
  split; [by rewrite cells_of_written by lia|]. split; [lia|].
  constructor; simpl; range_side.
  - apply exclusive_false_r; range_side.
  - rewrite store_range; range_side.
  - rewrite marked_true. by apply count_new; try lia.
Qed.

Lemma reserveWrite_refines f slot tg off n :
  wf f -> 0 <= slot -> 0 <= off -> 0 <= n ->
  let '(b, f') := reserveWrite slot tg off n f in
  wf f' /\ Spec.transition Spec.is_empty slot tg off (replicate (Z.to_nat n) Spec.Reserved) (abs f)
           = (b, abs f').
Proof.
  intros W Hs Ho Hn. set (s := f.[slot]).
  pose proof (refine_transition Spec.is_empty f slot tg off n (replicate (Z.to_nat n) Spec.Reserved)
    (find_none true (range (elementValid s) off n) && find_none true (range (elementReserved s) off n))
    (s <| elementReserved := store off (replicate (Z.to_nat n) true) (elementReserved s) |>)
    W Hs Ho Hn ltac:(range_side)) as R. fold s in R. cbv zeta in R.
  unfold reserveWrite, rangeAvailable. fold s.
  destruct (matches slot tg f), (rangeInBounds s off n); simpl in R |- *;
    try by apply R.
  destruct (_ && _) eqn:Hg; apply R; intros Hgo L Hv Hb Lv Lr Le; rewrite cells_empty by congruence;
    [|done].
  split; [done|]. intros _. apply andb_true_iff in Hg as [Hgv Hgr]. destruct L as [? ? ? ? ?].
  exists (range (elementValid s) off n), (replicate (Z.to_nat n) true), (range (elements s) off n).
  split; [rewrite <- Le; by rewrite cells_of_reserved by congruence|]. split; [done|].
  constructor; simpl; range_side.
  - apply exclusive_false_l; range_side.
  - rewrite store_range; range_side.
  - rewrite store_range; range_side.
  - rewrite Lv, Z2Nat.id by done. lia.
Qed.

Lemma commitWrite_refines f slot tg off vs :
  wf f -> 0 <= slot -> 0 <= off ->
  let '(b, f') := commitWrite slot tg off vs f in
  wf f' /\ Spec.transition Spec.is_reserved slot tg off (map Spec.Written vs) (abs f) = (b, abs f').
Proof.
  intros W Hs Ho. set (n := Z.of_nat (length vs)). set (s := f.[slot]).
  pose proof (refine_transition Spec.is_reserved f slot tg off n (map Spec.Written vs)
    (find_none true (range (elementValid s) off n) && find_none false (range (elementReserved s) off n))
    (s <| elementReserved := store off (map (fun _ => false) vs) (elementReserved s) |>
       <| elementValid := store off (map (fun _ => true) vs) (elementValid s) |>
       <| elements := store off vs (elements s) |>
       <| validElements := validElements s ⊞ n |>) W Hs Ho ltac:(lia)
       ltac:(range_side)) as R. fold s in R. cbv zeta in R.
  unfold commitWrite. fold n. fold s. unfold rangeInBounds in *.
  destruct (matches slot tg f), (n =? 0); simpl in R |- *;
    try by apply R.
  destruct (_ && (_ <=? _)); simpl in R |- *;
    [|by apply R].
  rewrite <- negb_andb, andb_comm.
  destruct (_ && _) eqn:Hg; apply R; intros Hgo L Hv Hb Lv Lr Le; rewrite cells_reserved by congruence;
    [|done].
  split; [done|]. intros _. apply andb_true_iff in Hg as [Hgv Hgr]. destruct L as [? ? ? ? ?] eqn:EL.
  exists (map (fun _ => true) vs), (map (fun _ => false) vs), vs.
  split; [rewrite cells_of_written by range_side; done|]. split; [lia|].
  constructor; simpl; range_side.
  - clear. induction vs; simpl; by constructor.
  - rewrite marked_true. by apply count_new; try lia.
Qed.

Lemma canRead_eq slot tg off n f :
  canRead slot tg off n f =
  matches slot tg f && rangeInBounds (f.[slot]) off n &&
  find_none false (range (elementValid (f.[slot])) off n).
Proof.
  unfold canRead, rangeInBounds.
  destruct (matches slot tg f), (Z.eqb_spec n 0); simpl; try done.
  rewrite (Z.leb_antisym _ off), (Z.leb_antisym _ n), <- negb_orb.
  by destruct (_ || _).
Qed.

Lemma find_none_false {A} l (vs : list A) :
  find_none false l = true -> length l = length vs -> l = map (fun _ => true) vs.
Proof.
  unfold find_none. revert vs; induction l as [|b l IH]; intros [|x vs] Hf Hl; try done.
  simpl in *. apply andb_true_iff in Hf as [Hb Hf]. injection Hl as Hl. destruct b; [|done].
  f_equal. by apply IH.
Qed.

Lemma overwrite_refines f slot tg off vs :
  wf f -> 0 <= slot -> 0 <= off ->
  let '(b, f') := overwrite slot tg off vs f in
  wf f' /\ Spec.transition Spec.is_written slot tg off (map Spec.Written vs) (abs f) = (b, abs f').
Proof.
  intros W Hs Ho. set (n := Z.of_nat (length vs)). set (s := f.[slot]).
  pose proof (refine_transition Spec.is_written f slot tg off n (map Spec.Written vs)
    (find_none false (range (elementValid s) off n))
    (s <| elements := store off vs (elements s) |>) W Hs Ho ltac:(lia)
       ltac:(range_side)) as R. fold s in R. cbv zeta in R.
  unfold overwrite. rewrite canRead_eq. fold n. fold s.
  destruct (matches slot tg f), (rangeInBounds s off n); simpl in R |- *; try by apply R.
  destruct (find_none _ _) eqn:Hg; apply R; intros Hgo L Hv Hb Lv Lr Le;
    rewrite cells_written by congruence; [|done].
  split; [done|]. intros _. destruct L as [Hlv ? ? ? Hex].
  exists (range (elementValid s) off n), (range (elementReserved s) off n), vs.
  split; [rewrite (find_none_false _ vs Hg) by range_side; by rewrite cells_of_written by range_side|].
  split; [lia|]. constructor; simpl; range_side.
  - unfold range. by apply Forall2_take, Forall2_drop.
  - rewrite store_range; range_side.
  - rewrite store_range; range_side.
  - rewrite Lv, Z2Nat.id by lia. lia.
Qed.

Lemma read_refines f slot tg off n :
  wf f -> 0 <= slot -> 0 <= off -> 0 <= n ->
  read slot tg off n f =
  match Spec.owned slot tg (abs f) with
  | Some cs =>
      if Spec.range_is Spec.is_written (Z.to_nat off) (Z.to_nat n) cs
      then Some (map Spec.cell_value (take (Z.to_nat n) (drop (Z.to_nat off) cs)))
      else None
  | None => None
  end.
Proof.
  intros W Hs Ho Hn. unfold read. rewrite canRead_eq, owned_abs by done.
  destruct (matches slot tg f) eqn:Hm; simpl; [|done].
  destruct (matches_spec f slot tg W Hs Hm) as (_ & _ & _ & [Lv Lr Ls _ _]).
  set (s := f.[slot]) in *. unfold slot_cells. rewrite range_is_cells by done.
  fold (size s). fold (rangeInBounds s off n).
  destruct (rangeInBounds s off n) eqn:Hb; simpl; [|done].
  assert (off + n <= size s) as Hb' by (unfold rangeInBounds in Hb; lia). unfold size in Hb'.
  rewrite cells_written by (rewrite !range_length; lia).
  destruct (find_none _ _) eqn:Hf; simpl; [|done]. f_equal.
  fold (range (cells (elementValid s) (elementReserved s) (elements s)) off n).
  rewrite cells_range, cells_values by (done || rewrite !range_length; lia). done.
Qed.

Lemma ready_refines f slot tg :
  wf f -> 0 <= slot ->
  ready slot tg f =
  match Spec.owned slot tg (abs f) with Some cs => forallb Spec.is_written cs | None => false end.
Proof.
  intros W Hs. unfold ready. rewrite owned_abs by done.
  destruct (matches slot tg f) eqn:Hm; simpl; [|done].
  destruct (matches_spec f slot tg W Hs Hm) as (_ & _ & _ & [Lv Lr Ls Lc _]).
  unfold slot_cells. rewrite cells_written by done. apply eq_iff_eq_true.
  rewrite Z.eqb_eq, <- marked_all, Lc, Lv. done.
Qed.

Lemma reserve_refines f slot tg n :
  wf f -> 0 <= slot -> 0 <= n ->
  let '(b, f') := reserve slot tg n f in
  wf f' /\ Spec.exec (Reserve slot tg n) (abs f) = (RBool b, abs f').
Proof.
  intros W Hs Hn. unfold reserve, Spec.exec, abs. rewrite list_lookup_fmap.
  destruct (Z.leb_spec (Z.of_nat kSlots) slot); simpl.
  { rewrite lookup_ge_None_2; [done|]. destruct W as [-> _]. lia. }
  destruct (wf_lookup f slot W ltac:(lia)) as [-> Hw]. unfold slot_wf in Hw. simpl. unfold abs_slot at 1.
  destruct (valid (f.[slot])) eqn:Hv; [by rewrite orb_true_r|]. rewrite orb_false_r.
  case_bool_decide as Hk; [|destruct (_ || _) eqn:E; [done|unfold kElementsPerSlot in *; lia]].
  destruct (_ || _) eqn:E; [unfold kElementsPerSlot in *; lia|].
  set (s' := mkSlot _ _ _ _ _ _). assert (slot_wf s') as Hs'.
  { unfold slot_wf. simpl. constructor; simpl; unfold size; rewrite ?length_replicate; try done.
    - simpl. rewrite length_replicate. unfold kElementsPerSlot. lia.
    - rewrite marked_none; [done|]. unfold find_none. clear. by induction (Z.to_nat n).
    - apply Forall2_replicate. done. }
  destruct (wf_update f slot s' W ltac:(lia) Hs') as [Wf E']. split; [done|].
  unfold abs in E'. rewrite E'. repeat f_equal. unfold abs_slot, s'. simpl. repeat f_equal.
  unfold cells. clear. by induction (Z.to_nat n) as [|k IH]; simpl; [|rewrite <- IH].
Qed.

Lemma release_refines f slot tg :
  wf f -> 0 <= slot ->
  let '(b, f') := release slot tg f in
  wf f' /\ Spec.exec (Release slot tg) (abs f) = (RBool b, abs f').
Proof.
  intros W Hs. unfold release, Spec.exec. rewrite owned_abs by done.
  destruct (matches slot tg f) eqn:Hm; simpl; [|done].
  destruct (matches_spec f slot tg W Hs Hm) as (Hlt & _).
  by destruct (wf_update f slot no_slot W ltac:(lia)) as [? ->].
Qed.

Lemma cancelGeneration_refines f gen :
  wf f ->
  let '(n, f') := cancelGeneration gen f in
  wf f' /\ Spec.exec (CancelGeneration gen) (abs f) = (RCount n, abs f').
Proof.
  intros [Wl Wf]. unfold cancelGeneration, Spec.exec. cbv zeta.
  assert (forall s, match abs_slot s with Some (tg, _) => generation tg =? gen | None => false end
                    = of_generation gen s) as Hst.
  { intros s. unfold abs_slot, of_generation. by destruct (valid s). }
  split.
  - split; [by rewrite length_fmap|]. apply Forall_fmap, (Forall_impl _ _ _ Wf). intros s Hs.
    simpl. destruct (of_generation gen s); done.
  - f_equal.
    + f_equal. pose proof (length_filter (fun s => of_generation gen s = true) f).
      rewrite u32_small by (unfold is_u32, kSlots in *; lia). f_equal. unfold abs. clear -Hst.
      induction f as [|s f IH]; [done|]. rewrite fmap_cons, !filter_cons, Hst.
      case_decide; simpl; by rewrite IH.
    + unfold abs. rewrite <- !list_fmap_compose. apply list_fmap_ext. intros _ s _. simpl.
      rewrite Hst. by destruct (of_generation gen s).
Qed.

Lemma exec_refines f o :
  wf f -> op_ok o ->
  let '(r, f') := exec o f in wf f' /\ Spec.exec o (abs f) = (r, abs f').
Proof.
  intros W Ho. destruct o as [sl tg n|sl tg off vs|sl tg off n|sl tg off vs|sl tg off vs|sl tg off n
                             |sl tg|sl tg|g]; simpl in Ho; cbn [exec].
  - pose proof (reserve_refines f sl tg n W ltac:(lia) ltac:(lia)) as R.
    by destruct (reserve sl tg n f).
  - pose proof (write_refines f sl tg off vs W ltac:(lia) ltac:(lia)) as R.
    destruct (write sl tg off vs f) as [b f']. destruct R as [? R]. simpl. by rewrite R.
  - pose proof (reserveWrite_refines f sl tg off n W ltac:(lia) ltac:(lia) ltac:(lia)) as R.
    destruct (reserveWrite sl tg off n f) as [b f']. destruct R as [? R]. simpl. by rewrite R.
  - pose proof (commitWrite_refines f sl tg off vs W ltac:(lia) ltac:(lia)) as R.
    destruct (commitWrite sl tg off vs f) as [b f']. destruct R as [? R]. simpl. by rewrite R.
  - pose proof (overwrite_refines f sl tg off vs W ltac:(lia) ltac:(lia)) as R.
    destruct (overwrite sl tg off vs f) as [b f']. destruct R as [? R]. simpl. by rewrite R.
  - simpl. by rewrite read_refines by (done || lia).
  - simpl. by rewrite ready_refines by done.
  - pose proof (release_refines f sl tg W Ho) as R. by destruct (release sl tg f).
  - pose proof (cancelGeneration_refines f g W) as R. by destruct (cancelGeneration g f).
Qed.

Lemma init_wf : wf init.
Proof. split; [done|]. apply Forall_replicate. done. Qed.

Lemma run_refines os f :
  wf f -> Forall op_ok os ->
  let '(rs, f') := exec_all os f in wf f' /\ Spec.exec_all os (abs f) = (rs, abs f').
Proof.
  revert f; induction os as [|o os IH]; intros f W Hos; [done|].
  inversion Hos; subst. simpl. pose proof (exec_refines f o W ltac:(done)) as R.
  destruct (exec o f) as [r f1]. destruct R as [W1 ->]. specialize (IH f1 W1 ltac:(done)).
  destruct (exec_all os f1) as [rs f2]. destruct IH as [W2 ->]. done.
Qed.

(** C4. Every sequence of calls on a fresh [AttentionScoreFifo] answers exactly
    what the contract of write-once cells answers: a range is written only
    while empty, committed only while reserved, overwritten and read only once
    written, a read returns the values last stored, a slot is ready exactly
    when all its cells are written, and no counter of the implementation ever
    disagrees with the flags it summarises. *)
Theorem score_fifo_refines os :
  Forall op_ok os ->
  (exec_all os init).1 = (Spec.exec_all os (replicate kSlots None)).1.
Proof.
  intros Hos. pose proof (run_refines os init init_wf Hos) as R.
  destruct (exec_all os init) as [rs f]. destruct R as [_ R].
  change (replicate kSlots None) with (abs init). by rewrite R.
Qed.

Definition demo_tag : AttentionClusterTag := mkTag 7 0 0 0 0 0 0.
Definition demo : list op :=
  [Reserve 3 demo_tag 4; ReserveWrite 3 demo_tag 0 2; CommitWrite 3 demo_tag 0 [float_one; float_zero];
   Write 3 demo_tag 1 [float_one]; Ready 3 demo_tag; Write 3 demo_tag 2 [float_one; float_one];
   Ready 3 demo_tag; Read 3 demo_tag 0 4; CancelGeneration 7; Read 3 demo_tag 0 1].

(** A slot filled by a commit and a write, read back, and cancelled. *)
Lemma score_fifo_refines_witness :
  (Spec.exec_all demo (replicate kSlots None)).1 =
  [RBool true; RBool true; RBool true; RBool false; RBool false; RBool true; RBool true;
   RValues (Some [float_one; float_zero; float_one; float_one]); RCount 1; RValues None].
Proof.
  rewrite <- (score_fifo_refines demo); [vm_compute; reflexivity|].
  repeat constructor; simpl; lia.
Defined.

End ScoreFifoFacts.
