(* ===== verification/OAccumulator.v ===== *)
(** * Attention output accumulator

    Models [AttentionOAccumulator] of golem/attention/attentionCluster.h: four
    contexts of 16 rows by 8 panels by 16 lanes of FP32 partial outputs.  A
    submission for one segment (or one fused row) is scheduled on shared read,
    arithmetic and write ports and queued; [progress] commits the queued work
    whose ready cycle has come, in submission order; a drain returns the
    accumulated values once every key tile has been committed.

    The theorems show that no queued operation is ever lost or refused, that a
    drained value is the fused multiply-add fold over the key tiles in order
    whatever the timing, and that each port serves one operation per cycle. *)

From S2P Require Import Prelude Float32 Cluster Telemetry.

Module OAccumulator.

Definition kContexts : Z := 4.
Definition kRows : Z := 16.
Definition kPanels : Z := 8.
Definition kValuesPerSegment : Z := 16.
Definition kValuesPerContext : Z := kRows * kPanels * kValuesPerSegment.
Abbreviation kFmaLanes := 16.
Abbreviation kRowFmaBanks := kPanels.
Definition kRowFmaLanes : Z := kRowFmaBanks * kFmaLanes.
Abbreviation kFmaLatencyCycles := 2.
Abbreviation fmaLatency_ := kFmaLatencyCycles.
Abbreviation addLatency_ := 2.

Record Completion := mkCompletion {
  c_id : Z;
  c_ok : bool;
  c_drain : bool;
  c_slot : Z;
  c_tag : AttentionClusterTag;
  c_values : list float
}.

Record Context := mkContext {
  valid : bool;
  draining : bool;
  tag : AttentionClusterTag;
  keyTiles : Z;
  expectedKeyTile : Z;
  committedSegments : Z;
  values : list float;
  segmentState : list Z
}.
#[export] Instance eta_context : Eta Context := fun c =>
  mkContext (valid c) (draining c) (tag c) (keyTiles c) (expectedKeyTile c)
    (committedSegments c) (values c) (segmentState c).

Definition no_context : Context :=
  mkContext false false no_tag 0 0 0 (replicate (Z.to_nat kValuesPerContext) float_zero)
    (replicate (Z.to_nat (kRows * kPanels)) 0).
#[export] Instance context_inhabited : Inhabited Context := populate no_context.

Record Pending := mkPending {
  p_id : Z;
  p_readyCycle : Z;
  p_slot : Z;
  p_tag : AttentionClusterTag;
  p_kvTileIndex : Z;
  p_row : Z;
  p_panel : Z;
  p_alpha : float;
  p_drain : bool;
  p_rowFused : bool;
  p_values : list float;
  p_rowValues : list float
}.

(** The fields of the class that schedule the shared ports. *)
Record Ports := mkPorts {
  nextReadCycle_ : Z;
  nextWriteCycle_ : Z;
  nextAluCycle_ : Z;
  bankReadyCycle_ : list Z;
  scaleOperations_ : Z;
  readWaitCycles_ : Z;
  writeWaitCycles_ : Z;
  aluWaitCycles_ : Z;
  bankConflictCycles_ : Z;
  drainWaitCycles_ : Z;
  readIntervals_ : BusyIntervalUnion.t;
  writeIntervals_ : BusyIntervalUnion.t;
  aluIntervals_ : BusyIntervalUnion.t;
  intervalOrderValid_ : bool
}.
#[export] Instance eta_ports : Eta Ports := fun p =>
  mkPorts (nextReadCycle_ p) (nextWriteCycle_ p) (nextAluCycle_ p) (bankReadyCycle_ p)
    (scaleOperations_ p) (readWaitCycles_ p) (writeWaitCycles_ p) (aluWaitCycles_ p)
    (bankConflictCycles_ p) (drainWaitCycles_ p) (readIntervals_ p) (writeIntervals_ p)
    (aluIntervals_ p) (intervalOrderValid_ p).

Record t := mk {
  ports_ : Ports;
  nextId_ : Z;
  contexts_ : list Context;
  pending_ : list (Z * Pending);
  occupied_ : Z;
  highWater_ : Z;
  accumulateOperations_ : Z;
  rowOperations_ : Z;
  drainOperations_ : Z
}.
#[export] Instance eta_t : Eta t := fun s =>
  mk (ports_ s) (nextId_ s) (contexts_ s) (pending_ s) (occupied_ s) (highWater_ s)
    (accumulateOperations_ s) (rowOperations_ s) (drainOperations_ s).

Definition init_ports : Ports :=
  mkPorts 0 0 0 (replicate (Z.to_nat kRows) 0) 0 0 0 0 0 0
    BusyIntervalUnion.init BusyIntervalUnion.init BusyIntervalUnion.init true.
Definition init : t := mk init_ports 1 (replicate (Z.to_nat kContexts) no_context) [] 0 0 0 0 0.

Definition matches (slot : Z) (tg : AttentionClusterTag) (cs : list Context) : bool :=
  (slot <? kContexts) && valid (cs.[slot]) && tag_eqb (tag (cs.[slot])) tg.

Definition hasPending (slot : Z) (tg : AttentionClusterTag) (ps : list (Z * Pending)) : bool :=
  existsb (fun item => (p_slot item.2 =? slot) && tag_eqb (p_tag item.2) tg) ps.

(** [std::map::emplace]: the map is its list of entries in key order; an entry
    whose key is present is left alone. *)
Fixpoint emplace (k : Z) (p : Pending) (ps : list (Z * Pending)) : list (Z * Pending) :=
  match ps with
  | [] => [(k, p)]
  | (k', p') :: ps' =>
      if k <? k' then (k, p) :: ps
      else if k' <? k then (k', p') :: emplace k p ps'
      else ps
  end.

Definition reserve (slot : Z) (tg : AttentionClusterTag) (tiles : Z) (s : t) : bool * t :=
  if (kContexts <=? slot) || (generation tg =? 0) || (tiles =? 0) || valid ((contexts_ s).[slot])
  then (false, s)
  else
    let context := (contexts_ s).[slot] in
    let context := context <| valid := true |> <| tag := tg |> <| keyTiles := tiles |>
                           <| values := fill float_zero (values context) |>
                           <| segmentState := fill 0 (segmentState context) |> in
    let n := occupied_ s ⊞₃₂ 1 in
    (true, s <| contexts_ := (contexts_ s).[slot := context] |>
             <| occupied_ := n |>
             <| highWater_ := Z.max (highWater_ s) n |>).

(** *** Port scheduling *)

(** One cycle on a port: the interval is recorded and the order flag updated. *)
Definition use_read (start : Z) (p : Ports) : Ports :=
  let '(ok, iv) := BusyIntervalUnion.add start (start ⊞ 1) (readIntervals_ p) in
  p <| nextReadCycle_ := start ⊞ 1 |> <| readIntervals_ := iv |>
    <| intervalOrderValid_ := ok && intervalOrderValid_ p |>.
Definition use_alu (start : Z) (p : Ports) : Ports :=
  let '(ok, iv) := BusyIntervalUnion.add start (start ⊞ 1) (aluIntervals_ p) in
  p <| nextAluCycle_ := start ⊞ 1 |> <| aluIntervals_ := iv |>
    <| intervalOrderValid_ := ok && intervalOrderValid_ p |>.
Definition use_write (start : Z) (p : Ports) : Ports :=
  let '(ok, iv) := BusyIntervalUnion.add start (start ⊞ 1) (writeIntervals_ p) in
  p <| nextWriteCycle_ := start ⊞ 1 |> <| writeIntervals_ := iv |>
    <| intervalOrderValid_ := ok && intervalOrderValid_ p |>.

(** The datapath of one submission from [cursor] on: read and fused
    multiply-add (or a plain add for the first tile), then the write back.
    [scales] is the number of scale operations counted.  Returns the ready
    cycle. *)
Definition schedule (kvTileIndex row cursor scales : Z) (p : Ports) : Z * Ports :=
  let '(cursor, p) :=
    if negb (kvTileIndex =? 0) then
      let readStart := Z.max cursor (nextReadCycle_ p) in
      let p := p <| readWaitCycles_ := readWaitCycles_ p ⊞ (readStart ⊟ cursor) |> in
      let p := use_read readStart p in
      let fmaIssue := Z.max (readStart ⊞ 1) (nextAluCycle_ p) in
      let p := p <| aluWaitCycles_ := aluWaitCycles_ p ⊞ (fmaIssue ⊟ (readStart ⊞ 1)) |> in
      let p := use_alu fmaIssue p in
      (fmaIssue ⊞ fmaLatency_, p <| scaleOperations_ := scaleOperations_ p ⊞ scales |>)
    else
      let accumulateIssue := Z.max cursor (nextAluCycle_ p) in
      let p := p <| aluWaitCycles_ := aluWaitCycles_ p ⊞ (accumulateIssue ⊟ cursor) |> in
      let p := use_alu accumulateIssue p in
      (accumulateIssue ⊞ addLatency_, p) in
  let writeStart := Z.max cursor (nextWriteCycle_ p) in
  let p := p <| writeWaitCycles_ := writeWaitCycles_ p ⊞ (writeStart ⊟ cursor) |> in
  let p := use_write writeStart p in
  (writeStart ⊞ 1, p <| bankReadyCycle_ := (bankReadyCycle_ p).[row := writeStart ⊞ 1] |>).

(** *** Submissions.  [outputs] tells whether both result pointers are
    non-null; the result is the id and the ready cycle. *)

Definition submitSegment (slot : Z) (tg : AttentionClusterTag) (kvTileIndex row panel : Z)
    (alpha : float) (vals : list float) (now : Z) (outputs : bool) (s : t) :
    option (Z * Z) * t :=
  if negb (matches slot tg (contexts_ s)) || (kRows <=? row) || (kPanels <=? panel) ||
     negb (Z.of_nat (length vals) =? kValuesPerSegment) || negb (isfinite alpha) || negb outputs
  then (None, s)
  else
    let context := (contexts_ s).[slot] in
    let segment := row * kPanels + panel in
    if draining context || negb (kvTileIndex =? expectedKeyTile context) ||
       negb ((segmentState context).[segment] =? 0)
    then (None, s)
    else
      let p := ports_ s in
      let cursor := Z.max now ((bankReadyCycle_ p).[row]) in
      let p := p <| bankConflictCycles_ := bankConflictCycles_ p ⊞ (cursor ⊟ now) |> in
      let '(ready, p) := schedule kvTileIndex row cursor 1 p in
      let id := nextId_ s in
      let pending := mkPending id ready slot tg kvTileIndex row panel alpha false false vals
                       (replicate (Z.to_nat kRowFmaLanes) float_zero) in
      let context := context <| segmentState := (segmentState context).[segment := 1] |> in
      (Some (id, ready),
       s <| ports_ := p |> <| nextId_ := id ⊞ 1 |>
         <| contexts_ := (contexts_ s).[slot := context] |>
         <| pending_ := emplace id pending (pending_ s) |>
         <| accumulateOperations_ := accumulateOperations_ s ⊞ 1 |>).

(** [std::fill] of [n] entries from [i] on. *)
Definition fill_range {A} (i n : Z) (x : A) (l : list A) : list A :=
  list_inserts (Z.to_nat i) (replicate (Z.to_nat n) x) l.

Definition submitRow (slot : Z) (tg : AttentionClusterTag) (kvTileIndex row : Z)
    (alpha : float) (vals : list float) (now : Z) (outputs : bool) (s : t) :
    option (Z * Z) * t :=
  if negb (matches slot tg (contexts_ s)) || (kRows <=? row) ||
     negb (Z.of_nat (length vals) =? kRowFmaLanes) || negb (isfinite alpha) || negb outputs
  then (None, s)
  else
    let context := (contexts_ s).[slot] in
    let firstSegment := row * kPanels in
    if draining context || negb (kvTileIndex =? expectedKeyTile context) ||
       existsb (fun state => negb (state =? 0))
         (take (Z.to_nat kPanels) (drop (Z.to_nat firstSegment) (segmentState context)))
    then (None, s)
    else
      let p := ports_ s in
      let cursor := Z.max now ((bankReadyCycle_ p).[row]) in
      let '(ready, p) := schedule kvTileIndex row cursor kPanels p in
      let id := nextId_ s in
      let pending := mkPending id ready slot tg kvTileIndex row 0 alpha false true
                       (replicate (Z.to_nat kValuesPerSegment) float_zero) vals in
      let context :=
        context <| segmentState := fill_range firstSegment kPanels 1 (segmentState context) |> in
      (Some (id, ready),
       s <| ports_ := p |> <| nextId_ := id ⊞ 1 |>
         <| contexts_ := (contexts_ s).[slot := context] |>
         <| pending_ := emplace id pending (pending_ s) |>
         <| accumulateOperations_ := accumulateOperations_ s ⊞ kPanels |>
         <| rowOperations_ := rowOperations_ s ⊞ 1 |>).

(** One panel read of a drain. *)
Definition drain_read (row : Z) (st : Z * Ports) : Z * Ports :=
  let '(cursor, p) := st in
  let start := Z.max (Z.max cursor (nextReadCycle_ p)) ((bankReadyCycle_ p).[row]) in
  let p := p <| drainWaitCycles_ := drainWaitCycles_ p ⊞ (start ⊟ cursor) |> in
  let p := use_read start p in
  (start ⊞ 1, p <| bankReadyCycle_ := (bankReadyCycle_ p).[row := start ⊞ 1] |>).

(** The row and panel loops of a drain. *)
Definition drain_reads (st : Z * Ports) : Z * Ports :=
  foldl (fun st row =>
    foldl (fun st (_ : nat) => drain_read (Z.of_nat row) st) st (seq 0 (Z.to_nat kPanels)))
    st (seq 0 (Z.to_nat kRows)).

Definition requestDrain (slot : Z) (tg : AttentionClusterTag) (now : Z) (outputs : bool) (s : t) :
    option (Z * Z) * t :=
  if negb (matches slot tg (contexts_ s)) || negb outputs then (None, s)
  else
    let context := (contexts_ s).[slot] in
    if draining context || negb (expectedKeyTile context =? keyTiles context) ||
       negb (committedSegments context =? 0)
    then (None, s)
    else
      let '(cursor, p) := drain_reads (now, ports_ s) in
      let id := nextId_ s in
      let pending := mkPending id cursor slot tg 0 0 0 float_one true false
                       (replicate (Z.to_nat kValuesPerSegment) float_zero)
                       (replicate (Z.to_nat kRowFmaLanes) float_zero) in
      (Some (id, cursor),
       s <| ports_ := p |> <| nextId_ := id ⊞ 1 |>
         <| pending_ := emplace id pending (pending_ s) |>
         <| contexts_ := (contexts_ s).[slot := context <| draining := true |>] |>
         <| drainOperations_ := drainOperations_ s ⊞ 1 |>).

(** *** Completion *)

(** The value of a lane before and after a commit. *)
Definition commit_value (pending : Pending) (panel lane : Z) (old : float) : float :=
  let value := if p_rowFused pending
               then (p_rowValues pending).[panel * kValuesPerSegment + lane]
               else (p_values pending).[lane] in
  if p_kvTileIndex pending =? 0 then value else fma (p_alpha pending) old value.

(** The lane loop of one panel. *)
Definition commit_lanes (pending : Pending) (panel offset : Z) (vs : list float) : list float :=
  foldl (fun vs lane =>
    vs.[offset + Z.of_nat lane :=
      commit_value pending panel (Z.of_nat lane) (vs.[offset + Z.of_nat lane])])
    vs (seq 0 (Z.to_nat kValuesPerSegment)).

(** The panel loop. *)
Definition commit_panels (pending : Pending) (segment : Z) (committed : nat) (c : Context) : Context :=
  foldl (fun c panel =>
    let targetSegment := segment + Z.of_nat panel in
    let offset := targetSegment * kValuesPerSegment in
    c <| values := commit_lanes pending (Z.of_nat panel) offset (values c) |>
      <| segmentState := (segmentState c).[targetSegment := 2] |>)
    c (seq 0 committed).

Definition commit (pending : Pending) (segment : Z) (committed : nat) (c : Context) : Context :=
  let c := commit_panels pending segment committed c in
  let c := c <| committedSegments := committedSegments c ⊞₃₂ Z.of_nat committed |> in
  if committedSegments c =? kRows * kPanels then
    c <| expectedKeyTile := expectedKeyTile c ⊞₃₂ 1 |>
      <| committedSegments := 0 |>
      <| segmentState := fill 0 (segmentState c) |>
  else c.

(** The body of the loop of [progress] for one entry that is ready. *)
Definition complete (pending : Pending) (cs : list Context) : Completion * list Context :=
  let completion ok vals :=
    mkCompletion (p_id pending) ok (p_drain pending) (p_slot pending) (p_tag pending) vals in
  if negb (matches (p_slot pending) (p_tag pending) cs) then (completion false [], cs)
  else
    let context := cs.[p_slot pending] in
    if p_drain pending then (completion true (values context), cs)
    else
      let segment := p_row pending * kPanels + p_panel pending in
      let committed := if p_rowFused pending then Z.to_nat kPanels else 1%nat in
      let ok := (p_kvTileIndex pending =? expectedKeyTile context) &&
        forallb (fun panel => (segmentState context).[segment + Z.of_nat panel] =? 1)
          (seq 0 committed) in
      (completion ok [],
       if ok then cs.[p_slot pending := commit pending segment committed context] else cs).

(** The loop over [pending_] in key order: what stays queued, the contexts and
    the completions. *)
Fixpoint progress_loop (now : Z) (ps : list (Z * Pending)) (cs : list Context) :
    list (Z * Pending) * list Context * list Completion :=
  match ps with
  | [] => ([], cs, [])
  | (k, p) :: ps =>
      if now <? p_readyCycle p then
        let '(kept, cs, out) := progress_loop now ps cs in ((k, p) :: kept, cs, out)
      else
        let '(c, cs) := complete p cs in
        let '(kept, cs, out) := progress_loop now ps cs in (kept, cs, c :: out)
  end.

Definition progress (now : Z) (s : t) : list Completion * t :=
  let '(kept, cs, out) := progress_loop now (pending_ s) (contexts_ s) in
  (out, s <| pending_ := kept |> <| contexts_ := cs |>).

Definition release (slot : Z) (tg : AttentionClusterTag) (s : t) : bool * t :=
  if negb (matches slot tg (contexts_ s)) || negb (draining ((contexts_ s).[slot])) ||
     hasPending slot tg (pending_ s)
  then (false, s)
  else (true, s <| contexts_ := (contexts_ s).[slot := no_context] |>
                <| occupied_ := occupied_ s ⊟₃₂ 1 |>).

Definition of_generation (gen : Z) (c : Context) : bool := valid c && (generation (tag c) =? gen).

(** The loop over [contexts_] of [cancelGeneration]. *)
Fixpoint cancel_contexts (gen : Z) (cs : list Context) (occ cancelled : Z) :
    list Context * Z * Z :=
  match cs with
  | [] => ([], occ, cancelled)
  | c :: cs =>
      if of_generation gen c then
        let '(cs, occ, cancelled) := cancel_contexts gen cs (occ ⊟₃₂ 1) (cancelled ⊞₃₂ 1) in
        (no_context :: cs, occ, cancelled)
      else
        let '(cs, occ, cancelled) := cancel_contexts gen cs occ cancelled in
        (c :: cs, occ, cancelled)
  end.

Definition cancelGeneration (gen : Z) (s : t) : Z * t :=
  let ps := filter (fun item : Z * Pending => generation (p_tag item.2) <> gen) (pending_ s) in
  let '(cs, occ, cancelled) := cancel_contexts gen (contexts_ s) (occupied_ s) 0 in
  (cancelled, s <| pending_ := ps |> <| contexts_ := cs |> <| occupied_ := occ |>).

Definition drained (s : t) : bool :=
  (occupied_ s =? 0) && match pending_ s with [] => true | _ => false end.

Definition occupied (s : t) : Z := occupied_ s.
Definition highWater (s : t) : Z := highWater_ s.
Definition readBusyCycles (s : t) : Z := BusyIntervalUnion.unionCycles (readIntervals_ (ports_ s)).
Definition writeBusyCycles (s : t) : Z := BusyIntervalUnion.unionCycles (writeIntervals_ (ports_ s)).
Definition aluBusyCycles (s : t) : Z := BusyIntervalUnion.unionCycles (aluIntervals_ (ports_ s)).
Definition readMaxConcurrency (s : t) : Z :=
  BusyIntervalUnion.maxConcurrency (readIntervals_ (ports_ s)).
Definition writeMaxConcurrency (s : t) : Z :=
  BusyIntervalUnion.maxConcurrency (writeIntervals_ (ports_ s)).
Definition aluMaxConcurrency (s : t) : Z :=
  BusyIntervalUnion.maxConcurrency (aluIntervals_ (ports_ s)).
Definition intervalOrderValid (s : t) : bool := intervalOrderValid_ (ports_ s).

(** *** Calls as data *)

Inductive call :=
| Reserve (slot : Z) (tg : AttentionClusterTag) (tiles : Z)
| SubmitSegment (slot : Z) (tg : AttentionClusterTag) (kvTileIndex row panel : Z)
    (alpha : float) (vals : list float) (now : Z) (outputs : bool)
| SubmitRow (slot : Z) (tg : AttentionClusterTag) (kvTileIndex row : Z)
    (alpha : float) (vals : list float) (now : Z) (outputs : bool)
| RequestDrain (slot : Z) (tg : AttentionClusterTag) (now : Z) (outputs : bool)
| Progress (now : Z)
| Release (slot : Z) (tg : AttentionClusterTag)
| CancelGeneration (gen : Z).

Inductive result :=
| RBool (b : bool)
| RTicket (o : option (Z * Z))
| RCompletions (l : list Completion)
| RCount (n : Z).

Definition exec (c : call) (s : t) : result * t :=
  match c with
  | Reserve slot tg tiles => let '(b, s) := reserve slot tg tiles s in (RBool b, s)
  | SubmitSegment slot tg kv row panel alpha vals now outputs =>
      let '(o, s) := submitSegment slot tg kv row panel alpha vals now outputs s in (RTicket o, s)
  | SubmitRow slot tg kv row alpha vals now outputs =>
      let '(o, s) := submitRow slot tg kv row alpha vals now outputs s in (RTicket o, s)
  | RequestDrain slot tg now outputs =>
      let '(o, s) := requestDrain slot tg now outputs s in (RTicket o, s)
  | Progress now => let '(l, s) := progress now s in (RCompletions l, s)
  | Release slot tg => let '(b, s) := release slot tg s in (RBool b, s)
  | CancelGeneration gen => let '(n, s) := cancelGeneration gen s in (RCount n, s)
  end.

End OAccumulator.

(** ** Reference semantics *)

Section OAccumulatorFacts.
Import OAccumulator.

(** What one submission contributes to one segment: the rescaling factor and
    the sixteen new values. *)
Abbreviation contribution := (float * list float)%type.

(** The value of a lane after a list of contributions, first tile first. *)
Definition accumulate (lane : Z) (cs : list contribution) : float :=
  match cs with
  | [] => float_zero
  | (_, v) :: cs => foldl (fun x '(alpha, v) => fma alpha x (v.[lane])) (v.[lane]) cs
  end.

(** The part of a fused row that belongs to the panel of segment [seg]. *)
Definition row_part (seg : Z) (vals : list float) : list float :=
  take (Z.to_nat kValuesPerSegment)
    (drop (Z.to_nat ((seg mod kPanels) * kValuesPerSegment)) vals).

(** The contributions accepted for a segment of a slot since its reservation,
    oldest first; the history has the newest call first. *)
Fixpoint contributions (slot seg : Z) (h : list (call * result)) : list contribution :=
  match h with
  | [] => []
  | (c, r) :: h =>
      let prev := contributions slot seg h in
      match c, r with
      | Reserve sl _ _, RBool true => if sl =? slot then [] else prev
      | SubmitSegment sl _ _ row panel alpha vals _ _, RTicket (Some _) =>
          if (sl =? slot) && (row * kPanels + panel =? seg) then prev ++ [(alpha, vals)] else prev
      | SubmitRow sl _ _ row alpha vals _ _, RTicket (Some _) =>
          if (sl =? slot) && (row =? seg / kPanels) then prev ++ [(alpha, row_part seg vals)]
          else prev
      | _, _ => prev
      end
  end.

(** The arguments are unsigned, and a client submits only the tiles it
    announced when it reserved the context. *)
Definition tile_in_range (slot : Z) (tg : AttentionClusterTag) (kv : Z) (s : t) : Prop :=
  matches slot tg (contexts_ s) = true -> kv < keyTiles ((contexts_ s).[slot]).
Definition call_ok (s : t) (c : call) : Prop :=
  match c with
  | Reserve slot _ tiles => 0 <= slot /\ is_u32 tiles
  | SubmitSegment slot tg kv row panel _ _ now _ =>
      0 <= slot /\ 0 <= row /\ 0 <= panel /\ is_u64 now /\ tile_in_range slot tg kv s
  | SubmitRow slot tg kv row _ _ now _ =>
      0 <= slot /\ 0 <= row /\ is_u64 now /\ tile_in_range slot tg kv s
  | RequestDrain slot _ now _ => 0 <= slot /\ is_u64 now
  | Progress _ | CancelGeneration _ => True
  | Release slot _ => 0 <= slot
  end.

(** Histories of calls on a fresh accumulator. *)
Inductive run : list (call * result) -> t -> Prop :=
| run_init : run [] init
| run_call h s c r s' :
    run h s -> call_ok s c -> exec c s = (r, s') -> run ((c, r) :: h) s'.

(** ** The invariant *)

Definition covers (slot seg : Z) (p : Pending) : bool :=
  (p_slot p =? slot) && negb (p_drain p) &&
  if p_rowFused p then p_row p =? seg / kPanels else p_row p * kPanels + p_panel p =? seg.

Definition covering (slot seg : Z) (ps : list (Z * Pending)) : list (Z * Pending) :=
  filter (fun item => covers slot seg item.2 = true) ps.

Definition contribution_of (seg : Z) (p : Pending) : contribution :=
  (p_alpha p, if p_rowFused p then row_part seg (p_rowValues p) else p_values p).

Definition holds (c : Context) (seg : Z) (cs : list contribution) : Prop :=
  forall lane, 0 <= lane < kValuesPerSegment ->
    (values c).[seg * kValuesPerSegment + lane] = accumulate lane cs.

(** A segment is idle at the current tile, queued, or committed. *)
Inductive segment_status (c : Context) (seg : Z) (queued : list (Z * Pending))
    (cs : list contribution) : Prop :=
| seg_idle :
    (segmentState c).[seg] = 0 -> queued = [] ->
    Z.of_nat (length cs) = expectedKeyTile c -> holds c seg cs ->
    segment_status c seg queued cs
| seg_queued k p cs0 :
    (segmentState c).[seg] = 1 -> queued = [(k, p)] -> p_kvTileIndex p = expectedKeyTile c ->
    cs = cs0 ++ [contribution_of seg p] ->
    Z.of_nat (length cs0) = expectedKeyTile c -> holds c seg cs0 ->
    segment_status c seg queued cs
| seg_committed :
    (segmentState c).[seg] = 2 -> queued = [] ->
    Z.of_nat (length cs) = expectedKeyTile c + 1 -> holds c seg cs ->
    segment_status c seg queued cs.

Definition kSegments : Z := kRows * kPanels.
Definition count_committed (l : list Z) : Z := Z.of_nat (length (filter (fun x => x = 2) l)).

Record live_context (slot : Z) (ps : list (Z * Pending)) (G : Z -> list contribution)
    (c : Context) : Prop := {
  lc_values : Z.of_nat (length (values c)) = kValuesPerContext;
  lc_states : Z.of_nat (length (segmentState c)) = kSegments;
  lc_tiles : 0 <= expectedKeyTile c <= keyTiles c /\ is_u32 (keyTiles c);
  lc_committed : committedSegments c = count_committed (segmentState c) /\
                 committedSegments c < kSegments;
  lc_segments : forall seg, 0 <= seg < kSegments ->
    segment_status c seg (covering slot seg ps) (G seg);
  lc_last : expectedKeyTile c = keyTiles c -> Forall (fun x => x = 0) (segmentState c);
  lc_drain : draining c = true -> expectedKeyTile c = keyTiles c
}.

Definition context_ok (slot : Z) (ps : list (Z * Pending)) (G : Z -> list contribution)
    (c : Context) : Prop :=
  if valid c then live_context slot ps G c else c = no_context.

(** A queued entry belongs to a live context with its tag. *)
Record entry_ok (cs : list Context) (item : Z * Pending) : Prop := {
  eo_id : p_id item.2 = item.1;
  eo_slot : 0 <= p_slot item.2;
  eo_matches : matches (p_slot item.2) (p_tag item.2) cs = true;
  eo_place : p_drain item.2 = false ->
    0 <= p_row item.2 < kRows /\ 0 <= p_panel item.2 < kPanels /\
    (p_rowFused item.2 = true -> p_panel item.2 = 0);
  eo_drain : p_drain item.2 = true -> draining (cs.[p_slot item.2]) = true
}.

Record queue_ok (cs : list Context) (ps : list (Z * Pending)) (G : Z -> Z -> list contribution) :
    Prop := {
  qo_contexts : Z.of_nat (length cs) = kContexts;
  qo_context : forall i, 0 <= i < kContexts -> context_ok i ps (G i) (cs.[i]);
  qo_entries : Forall (entry_ok cs) ps
}.

(** ** The commit loops, pointwise *)

Lemma lanes_loop (g : nat -> float -> float) offset n (vs : list float) :
  0 <= offset -> offset + Z.of_nat n <= Z.of_nat (length vs) ->
  let vs' := foldl (fun vs lane => vs.[offset + Z.of_nat lane :=
                      g lane (vs.[offset + Z.of_nat lane])]) vs (seq 0 n) in
  length vs' = length vs /\
  forall i, 0 <= i ->
    vs'.[i] = if bool_decide (offset <= i < offset + Z.of_nat n)
              then g (Z.to_nat (i - offset)) (vs.[i]) else vs.[i].
Proof.
  intros Ho. induction n as [|n IH]; intros Hn; cbv zeta.
  { split; [done|]. intros i Hi. rewrite bool_decide_false by lia. done. }
  rewrite seq_S, foldl_app. cbn [foldl Nat.add]. destruct IH as [IHl IH]; [lia|].
  split; [by rewrite length_insert|]. intros i Hi.
  destruct (decide (i = offset + Z.of_nat n)) as [->|Hne].
  - rewrite list_lookup_total_insert_eq by lia. rewrite IH by lia.
    repeat case_bool_decide; try lia. by rewrite Z.add_simpl_l, Nat2Z.id.
  - rewrite list_lookup_total_insert_ne by lia. rewrite IH by done.
    repeat case_bool_decide; done || lia.
Qed.

Lemma commit_panels_spec p segment n c :
  0 <= segment -> segment + Z.of_nat n <= kSegments ->
  Z.of_nat (length (values c)) = kValuesPerContext ->
  Z.of_nat (length (segmentState c)) = kSegments ->
  let c' := commit_panels p segment n c in
  c' = c <| values := values c' |> <| segmentState := segmentState c' |> /\
  length (values c') = length (values c) /\
  length (segmentState c') = length (segmentState c) /\
  (forall seg, 0 <= seg ->
    (segmentState c').[seg] =
      if bool_decide (segment <= seg < segment + Z.of_nat n) then 2 else (segmentState c).[seg]) /\
  (forall seg lane, 0 <= seg -> 0 <= lane < kValuesPerSegment ->
    (values c').[seg * kValuesPerSegment + lane] =
      let old := (values c).[seg * kValuesPerSegment + lane] in
      if bool_decide (segment <= seg < segment + Z.of_nat n)
      then commit_value p (seg - segment) lane old else old).
Proof.
  intros Hs Hn Hv Hst. induction n as [|n IH]; cbv zeta.
  { split; [by destruct c|]. split_and!; try done; intros; by rewrite bool_decide_false by lia. }
  unfold commit_panels. rewrite seq_S, foldl_app. cbn [foldl].
  fold (commit_panels p segment n c).
  destruct IH as (E & Lv & Ls & IHs & IHv); [lia|].
  set (c1 := commit_panels p segment n c) in *. cbn [Nat.add].
  set (off := (segment + Z.of_nat n) * kValuesPerSegment).
  assert (off + 16 <= Z.of_nat (length (values c1))) as Hoff.
  { unfold off, kSegments, kValuesPerContext, kValuesPerSegment, kRows, kPanels in *. lia. }
  destruct (lanes_loop (fun lane => commit_value p (Z.of_nat n) (Z.of_nat lane)) off 16 (values c1))
    as [Ll Lk]; [unfold off, kValuesPerSegment; lia|lia|].
  change 16%nat with (Z.to_nat kValuesPerSegment) in Ll, Lk.
  fold (commit_lanes p (Z.of_nat n) off (values c1)) in Ll, Lk. simpl. split_and!.
  - rewrite E. done.
  - by rewrite Ll.
  - by rewrite length_insert.
  - intros seg Hseg. destruct (decide (seg = segment + Z.of_nat n)) as [->|Hne].
    + rewrite list_lookup_total_insert_eq by lia. by rewrite bool_decide_true by lia.
    + rewrite list_lookup_total_insert_ne by lia. rewrite IHs by done.
      repeat case_bool_decide; done || lia.
  - intros seg lane Hseg Hlane. rewrite Lk by (unfold kValuesPerSegment in *; lia).
    rewrite IHv by done. cbv zeta.
    assert (off <= seg * kValuesPerSegment + lane < off + Z.of_nat (Z.to_nat kValuesPerSegment) <->
            seg = segment + Z.of_nat n) as Hin.
    { unfold off, kValuesPerSegment in *. lia. }
    destruct (decide (seg = segment + Z.of_nat n)) as [->|Hne].
    + rewrite bool_decide_true by by apply Hin. repeat case_bool_decide; try lia.
      unfold off. rewrite !Z.add_simpl_l, Z2Nat.id by lia. done.
    + rewrite bool_decide_false by tauto. repeat case_bool_decide; done || lia.
Qed.

(** *** Counting committed segments *)

Lemma count_committed_le l : 0 <= count_committed l <= Z.of_nat (length l).
Proof. unfold count_committed. pose proof (length_filter (fun x => x = 2) l). lia. Qed.

Lemma count_committed_insert l i :
  (i < length l)%nat -> l !!! i <> 2 ->
  count_committed (<[i := 2]> l) = count_committed l + 1.
Proof.
  unfold count_committed. revert i. induction l as [|x l IH]; intros i Hi Hx; simpl in Hi; [lia|].
  destruct i as [|i]; simpl.
  - rewrite !filter_cons. change (x <> 2) in Hx. repeat case_decide; try done. simpl. lia.
  - rewrite !filter_cons. specialize (IH i ltac:(lia) Hx). case_decide; simpl; lia.
Qed.

Lemma count_committed_full l :
  count_committed l = Z.of_nat (length l) -> Forall (fun x => x = 2) l.
Proof.
  unfold count_committed. induction l as [|x l IH]; intros H; [constructor|].
  pose proof (count_committed_le l) as Hb. unfold count_committed in Hb.
  rewrite filter_cons in H. case_decide; simpl in H; constructor; [done|apply IH; lia|lia|].
  apply IH; lia.
Qed.

Lemma commit_panels_count p segment n c :
  0 <= segment -> segment + Z.of_nat n <= kSegments ->
  Z.of_nat (length (values c)) = kValuesPerContext ->
  Z.of_nat (length (segmentState c)) = kSegments ->
  (forall seg, segment <= seg < segment + Z.of_nat n -> (segmentState c).[seg] <> 2) ->
  count_committed (segmentState (commit_panels p segment n c)) =
  count_committed (segmentState c) + Z.of_nat n.
Proof.
  intros Hs Hn Hv Hst Hne. induction n as [|n IH]; [by rewrite Z.add_0_r|].
  destruct (commit_panels_spec p segment n c Hs ltac:(lia) Hv Hst) as (_ & _ & Ls & Hseg & _).
  unfold commit_panels. rewrite seq_S, foldl_app. cbn [foldl Nat.add].
  fold (commit_panels p segment n c). simpl.
  rewrite count_committed_insert.
  - rewrite IH; [lia..|]. intros. apply Hne. lia.
  - rewrite Ls. lia.
  - rewrite Hseg by lia. case_bool_decide; [lia|]. apply Hne. lia.
Qed.

(** *** What a queued entry covers *)

Definition first_segment (p : Pending) : Z := p_row p * kPanels + p_panel p.
Definition segments_of (p : Pending) : nat := if p_rowFused p then Z.to_nat kPanels else 1%nat.
Definition placed (p : Pending) : Prop :=
  0 <= p_row p < kRows /\ 0 <= p_panel p < kPanels /\ (p_rowFused p = true -> p_panel p = 0).

Lemma segments_of_bounds p : 1 <= Z.of_nat (segments_of p) <= kPanels.
Proof. unfold segments_of, kPanels. destruct (p_rowFused p); simpl; lia. Qed.

Lemma placed_bounds p :
  placed p -> 0 <= first_segment p /\ first_segment p + Z.of_nat (segments_of p) <= kSegments.
Proof.
  unfold placed, first_segment, segments_of, kSegments, kRows, kPanels.
  destruct (p_rowFused p); simpl; lia.
Qed.

Lemma covers_spec p seg :
  placed p -> p_drain p = false -> 0 <= seg ->
  covers (p_slot p) seg p = bool_decide (first_segment p <= seg < first_segment p + Z.of_nat (segments_of p)).
Proof.
  unfold placed, covers, first_segment, segments_of, kRows, kPanels.
  intros (Hr & Hp & Hf) -> Hseg. rewrite Z.eqb_refl. simpl. apply eq_bool_prop_intro.
  rewrite bool_decide_spec.
  destruct (p_rowFused p); rewrite Is_true_true, Z.eqb_eq; simpl.
  - rewrite Hf by done. split; intros H; Z.div_mod_to_equations; lia.
  - lia.
Qed.

Lemma row_part_lookup seg vals lane :
  0 <= lane < kValuesPerSegment ->
  (row_part seg vals).[lane] = vals.[(seg mod kPanels) * kValuesPerSegment + lane].
Proof.
  unfold row_part, kValuesPerSegment, kPanels. intros Hl.
  assert (0 <= seg mod 8 < 8) as Hm by (apply Z.mod_pos_bound; lia).
  rewrite !list_lookup_total_alt, lookup_take_lt, lookup_drop by lia. do 2 f_equal. lia.
Qed.

Lemma accumulate_snoc lane cs x :
  accumulate lane (cs ++ [x]) =
  if decide (cs = []) then x.2.[lane] else fma x.1 (accumulate lane cs) (x.2.[lane]).
Proof.
  destruct cs as [|[a v] cs]; simpl; destruct x as [b w]; [done|].
  by rewrite foldl_app.
Qed.

Lemma commit_value_accumulate p seg lane cs :
  placed p -> first_segment p <= seg < first_segment p + Z.of_nat (segments_of p) ->
  0 <= lane < kValuesPerSegment -> Z.of_nat (length cs) = p_kvTileIndex p ->
  commit_value p (seg - first_segment p) lane (accumulate lane cs) =
  accumulate lane (cs ++ [contribution_of seg p]).
Proof.
  intros (Hr & Hp & Hf) Hseg Hl Hlen. rewrite accumulate_snoc. unfold commit_value, contribution_of.
  assert ((if p_rowFused p then (p_rowValues p).[(seg - first_segment p) * kValuesPerSegment + lane]
           else (p_values p).[lane]) =
          (if p_rowFused p then row_part seg (p_rowValues p) else p_values p).[lane]) as ->.
  { unfold first_segment, segments_of, kPanels in *. destruct (p_rowFused p) eqn:E; [|done].
    rewrite row_part_lookup by done. do 2 f_equal. rewrite (Hf eq_refl) in *. simpl in Hseg.
    f_equal. f_equal. unfold kPanels. apply (Z.mod_unique _ _ (p_row p)); lia. }
  destruct (Z.eqb_spec (p_kvTileIndex p) 0) as [E|E].
  - rewrite decide_True; [done|]. apply length_zero_iff_nil. lia.
  - rewrite decide_False; [done|]. intros ->. simpl in Hlen. lia.
Qed.

Lemma Forall_at {A} `{!Inhabited A} (P : A -> Prop) (l : list A) i :
  Forall P l -> 0 <= i < Z.of_nat (length l) -> P (l.[i]).
Proof. intros Hf Hi. apply (proj1 (Forall_lookup_total P l) Hf). lia. Qed.

(** ** Completing one queued entry *)

Lemma covering_app slot seg ps1 ps2 :
  covering slot seg (ps1 ++ ps2) = covering slot seg ps1 ++ covering slot seg ps2.
Proof. apply filter_app. Qed.

Lemma covering_cons slot seg item ps :
  covering slot seg (item :: ps) =
  (if covers slot seg item.2 then [item] else []) ++ covering slot seg ps.
Proof.
  unfold covering. rewrite filter_cons. destruct (covers slot seg item.2) eqn:E.
  - by rewrite decide_True by done.
  - by rewrite decide_False by congruence.
Qed.

(** A covered segment is queued with exactly that entry. *)
Lemma covered_queued c slot seg ps1 k p ps2 cs :
  segment_status c seg (covering slot seg (ps1 ++ (k, p) :: ps2)) cs ->
  covers slot seg p = true ->
  covering slot seg (ps1 ++ ps2) = [] /\ (segmentState c).[seg] = 1 /\
  p_kvTileIndex p = expectedKeyTile c /\
  exists cs0, cs = cs0 ++ [contribution_of seg p] /\
    Z.of_nat (length cs0) = expectedKeyTile c /\ holds c seg cs0.
Proof.
  rewrite !covering_app, covering_cons. simpl. intros St Hc. rewrite Hc in St.
  destruct St as [_ E|k' p' cs0 Hs E Hkv -> Hl Hh|_ E]; [by destruct (covering slot seg ps1)| |
    by destruct (covering slot seg ps1)].
  assert (covering slot seg ps1 = [] /\ covering slot seg ps2 = [] /\ p' = p) as (-> & -> & ->).
  { destruct (covering slot seg ps1) as [|x [|y l]]; simpl in E; by simplify_eq. }
  eauto 10.
Qed.

Lemma segment_status_ext c c' seg q cs :
  segment_status c seg q cs ->
  (segmentState c').[seg] = (segmentState c).[seg] ->
  expectedKeyTile c' = expectedKeyTile c ->
  (forall lane, 0 <= lane < kValuesPerSegment ->
     (values c').[seg * kValuesPerSegment + lane] = (values c).[seg * kValuesPerSegment + lane]) ->
  segment_status c' seg q cs.
Proof.
  intros St Es Ee Ev.
  assert (forall l, holds c seg l -> holds c' seg l) as Hh.
  { intros l H lane Hl. by rewrite Ev, H. }
  destruct St; [apply seg_idle|eapply seg_queued|apply seg_committed]; rewrite ?Es, ?Ee; eauto.
Qed.

Lemma covering_uncovered slot seg ps1 k p ps2 :
  covers slot seg p = false ->
  covering slot seg (ps1 ++ (k, p) :: ps2) = covering slot seg (ps1 ++ ps2).
Proof. intros Hc. rewrite !covering_app, covering_cons. simpl. by rewrite Hc. Qed.

(** The panel loop turns the covered segments from queued to committed. *)
Lemma commit_panels_status c slot ps1 k p ps2 G :
  live_context slot (ps1 ++ (k, p) :: ps2) G c -> placed p -> p_slot p = slot ->
  p_drain p = false ->
  let c' := commit_panels p (first_segment p) (segments_of p) c in
  (forall seg, 0 <= seg < kSegments -> segment_status c' seg (covering slot seg (ps1 ++ ps2)) (G seg)) /\
  count_committed (segmentState c') = committedSegments c + Z.of_nat (segments_of p).
Proof.
  intros L Hp Hs Hd. destruct L as [Lv Lst _ [Lc _] Lseg _ _].
  destruct (placed_bounds p Hp) as [B1 B2].
  destruct (commit_panels_spec p (first_segment p) (segments_of p) c B1 B2 Lv Lst)
    as (E & _ & _ & Hst & Hval). cbv zeta in *.
  set (c' := commit_panels _ _ _ _) in *. assert (expectedKeyTile c' = expectedKeyTile c) as Ee.
  { by rewrite E. }
  assert (forall seg, 0 <= seg -> covers slot seg p =
    bool_decide (first_segment p <= seg < first_segment p + Z.of_nat (segments_of p))) as Hcov.
  { intros seg Hseg. rewrite <- Hs. by apply covers_spec. }
  split.
  - intros seg Hseg. specialize (Lseg seg Hseg). specialize (Hcov seg ltac:(lia)).
    specialize (Hst seg ltac:(lia)).
    case_bool_decide as Hin.
    + destruct (covered_queued _ _ _ _ _ _ _ _ Lseg Hcov) as (-> & H1 & Hkv & cs0 & -> & Hl & Hh).
      apply seg_committed; [done|done|rewrite length_app, Ee; simpl; lia|].
      intros lane Hlane. rewrite Hval by (done || lia). rewrite bool_decide_true by done.
      rewrite Hh by done. apply commit_value_accumulate; done || lia.
    + rewrite covering_uncovered in Lseg by done.
      apply (segment_status_ext c); [done|done|done|].
      intros lane Hlane. rewrite Hval by (done || lia). by rewrite bool_decide_false by done.
  - unfold c'. rewrite Lc. apply commit_panels_count; [done..|].
    intros seg Hin. specialize (Lseg seg ltac:(lia)). specialize (Hcov seg ltac:(lia)).
    rewrite bool_decide_true in Hcov by done.
    destruct (covered_queued _ _ _ _ _ _ _ _ Lseg Hcov) as (_ & -> & _). lia.
Qed.

(** The whole commit, roll-over to the next tile included. *)
Lemma commit_live c slot ps1 k p ps2 G :
  live_context slot (ps1 ++ (k, p) :: ps2) G c -> placed p -> p_slot p = slot ->
  p_drain p = false ->
  live_context slot (ps1 ++ ps2) G (commit p (first_segment p) (segments_of p) c).
Proof.
  intros L Hp Hs Hd. destruct (placed_bounds p Hp) as [B1 B2].
  pose proof (segments_of_bounds p) as B3.
  destruct (commit_panels_status c slot ps1 k p ps2 G L Hp Hs Hd) as [St Cnt].
  pose proof L as [Lv Lst [Lt Lk] [Lc Lc'] Lseg Ll Ldr].
  destruct (commit_panels_spec p (first_segment p) (segments_of p) c B1 B2 Lv Lst)
    as (E & Hlv & Hls & Hst & _). cbv zeta in *. unfold commit.
  set (c1 := commit_panels _ _ _ _) in *.
  assert (expectedKeyTile c < keyTiles c) as Hlt.
  { destruct (decide (expectedKeyTile c = keyTiles c)) as [Heq|]; [|lia].
    assert (covers slot (first_segment p) p = true) as Hcov.
    { rewrite <- Hs, covers_spec by (done || lia). apply bool_decide_true. lia. }
    destruct (covered_queued _ _ _ _ _ _ _ _ (Lseg (first_segment p) ltac:(lia)) Hcov)
      as (_ & H1 & _).
    pose proof (Forall_at _ _ (first_segment p) (Ll Heq) ltac:(lia)) as H0. simpl in H0. lia. }
  assert (committedSegments c1 = committedSegments c) as Ec by by rewrite E.
  pose proof (count_committed_le (segmentState c1)) as Hle.
  assert (u32 (committedSegments c1 + Z.of_nat (segments_of p)) = count_committed (segmentState c1))
    as Hu.
  { rewrite Ec, Cnt. apply u32_small. unfold is_u32, kSegments, kRows, kPanels in *. lia. }
  simpl. rewrite Hu. change (kRows * kPanels) with kSegments.
  destruct (Z.eqb_spec (count_committed (segmentState c1)) kSegments) as [Hfull|Hfull].
  - pose proof (count_committed_full (segmentState c1) ltac:(lia)) as Hall.
    assert (expectedKeyTile c1 = expectedKeyTile c) as -> by by rewrite E.
    rewrite u32_small by (unfold is_u32 in *; lia).
    assert (keyTiles c1 = keyTiles c) as Ek by by rewrite E.
    constructor; simpl; unfold fill; rewrite ?length_replicate, ?Ek; [lia|lia|split; [lia|done]| | | |].
    + unfold count_committed. clear. split; [|done].
      by induction (length (segmentState c1)).
    + intros seg Hseg. specialize (St seg Hseg).
      assert ((segmentState c1).[seg] = 2) as H2.
      { apply (Forall_at _ _ seg Hall). lia. }
      destruct St as [H0| |Hs2 Hq Hlen Hh]; [congruence..|].
      apply seg_idle; simpl; [|done| |done].
      * apply lookup_total_replicate_2. lia.
      * rewrite Hlen, E. done.
    + intros _. by apply Forall_replicate.
    + rewrite E. simpl. intros Hdr. apply Ldr in Hdr. lia.
  - assert (keyTiles c1 = keyTiles c /\ expectedKeyTile c1 = expectedKeyTile c /\
            draining c1 = draining c) as (Ek & Ee & Ed) by by rewrite E.
    constructor; simpl; rewrite ?Ek, ?Ee, ?Ed; [lia|lia|done|lia| |lia|done].
    intros seg Hseg. by apply (segment_status_ext c1); [apply St|..].
Qed.

(** *** From one context to all of them *)

Lemma matches_update cs slot c' i tg :
  0 <= slot -> 0 <= i -> slot < Z.of_nat (length cs) ->
  valid c' = valid (cs.[slot]) -> tag c' = tag (cs.[slot]) ->
  matches i tg (cs.[slot := c']) = matches i tg cs.
Proof.
  intros Hs Hi Hl Hv Ht. unfold matches. destruct (decide (i = slot)) as [->|Hne].
  - by rewrite list_lookup_total_insert_eq, Hv, Ht by lia.
  - by rewrite list_lookup_total_insert_ne by lia.
Qed.

Lemma entries_update cs slot c' ps :
  0 <= slot < Z.of_nat (length cs) ->
  valid c' = valid (cs.[slot]) -> tag c' = tag (cs.[slot]) ->
  (draining (cs.[slot]) = true -> draining c' = true) ->
  Forall (entry_ok cs) ps -> Forall (entry_ok (cs.[slot := c'])) ps.
Proof.
  intros Hs Hv Ht Hd Hf. apply (Forall_impl _ _ _ Hf). intros item [? ? Hm ? Hdr]. constructor; try done.
  - by rewrite matches_update by (done || lia).
  - intros H. specialize (Hdr H). destruct (decide (p_slot item.2 = slot)) as [E|Hne].
    + rewrite E in *. rewrite list_lookup_total_insert_eq by lia. by apply Hd.
    + by rewrite list_lookup_total_insert_ne by lia.
Qed.

Lemma context_ok_ext slot ps ps' G G' c :
  (forall seg, 0 <= seg < kSegments -> covering slot seg ps' = covering slot seg ps) ->
  (forall seg, 0 <= seg < kSegments -> G' seg = G seg) ->
  context_ok slot ps G c -> context_ok slot ps' G' c.
Proof.
  intros Hc HG. unfold context_ok. destruct (valid c); [|done].
  intros [? ? ? ? Hs ? ?]. constructor; try done. intros seg Hseg. rewrite Hc, HG by done. by apply Hs.
Qed.

Lemma covering_other slot seg p :
  p_slot p <> slot -> covers slot seg p = false.
Proof. intros H. unfold covers. by rewrite (proj2 (Z.eqb_neq _ _) H). Qed.

Lemma queue_slot cs ps G slot tg :
  queue_ok cs ps G -> 0 <= slot -> matches slot tg cs = true ->
  slot < Z.of_nat (length cs) /\ valid (cs.[slot]) = true /\ tag (cs.[slot]) = tg /\
  live_context slot ps (G slot) (cs.[slot]).
Proof.
  intros [Hl Hc _] Hs. unfold matches. rewrite !andb_true_iff, Z.ltb_lt, tag_eqb_eq.
  intros [[Hlt Hv] Ht]. specialize (Hc slot ltac:(lia)). unfold context_ok in Hc. rewrite Hv in Hc.
  split_and!; done || lia.
Qed.

(** A new state of one context, with its entries and contributions. *)
Lemma queue_update cs ps ps' G G' slot c' :
  queue_ok cs ps G -> 0 <= slot < kContexts ->
  context_ok slot ps' (G' slot) c' ->
  (forall i seg, i <> slot -> covering i seg ps' = covering i seg ps /\ G' i seg = G i seg) ->
  Forall (entry_ok (cs.[slot := c'])) ps' ->
  queue_ok (cs.[slot := c']) ps' G'.
Proof.
  intros [Hl Hc _] Hs Hc' Ho Hf. constructor; [by rewrite length_insert| |done].
  intros i Hi. destruct (decide (i = slot)) as [->|Hne].
  - by rewrite list_lookup_total_insert_eq by lia.
  - rewrite list_lookup_total_insert_ne by lia.
    apply (context_ok_ext i ps ps' (G i)); [intros; by apply Ho..|by apply Hc].
Qed.

Definition completes (G : Z -> Z -> list contribution) (cs : list Context) (p : Pending)
    (c : Completion) : Prop :=
  c_id c = p_id p /\ c_slot c = p_slot p /\ c_tag c = p_tag p /\ c_drain c = p_drain p /\
  c_ok c = true /\
  (c_drain c = true ->
     Z.of_nat (length (c_values c)) = kValuesPerContext /\
     forall seg lane, 0 <= seg < kSegments -> 0 <= lane < kValuesPerSegment ->
       Z.of_nat (length (G (c_slot c) seg)) = keyTiles (cs.[c_slot c]) /\
       (c_values c).[seg * kValuesPerSegment + lane] = accumulate lane (G (c_slot c) seg)).

(** A drained context holds, in every lane, all its contributions. *)
Lemma drain_values slot ps G c :
  live_context slot ps G c -> draining c = true ->
  forall seg lane, 0 <= seg < kSegments -> 0 <= lane < kValuesPerSegment ->
    Z.of_nat (length (G seg)) = keyTiles c /\
    (values c).[seg * kValuesPerSegment + lane] = accumulate lane (G seg).
Proof.
  intros [_ Lst _ _ Lseg Ll Ldr] Hd seg lane Hseg Hl. specialize (Ldr Hd).
  pose proof (Forall_at _ _ seg (Ll Ldr) ltac:(lia)) as H0. simpl in H0.
  destruct (Lseg seg Hseg) as [_ _ Hn Hh|?????|]; [|congruence..].
  split; [lia|by apply Hh].
Qed.

Lemma commit_keeps p n segment c :
  Z.of_nat (length (values c)) = kValuesPerContext ->
  Z.of_nat (length (segmentState c)) = kSegments ->
  0 <= segment -> segment + Z.of_nat n <= kSegments ->
  let c' := commit p segment n c in
  valid c' = valid c /\ tag c' = tag c /\ draining c' = draining c /\ keyTiles c' = keyTiles c.
Proof.
  intros Hv Hs H0 Hn. destruct (commit_panels_spec p segment n c H0 Hn Hv Hs) as (E & _).
  cbv zeta in *. unfold commit. case_match; simpl; rewrite E; done.
Qed.

(** The checks of [progress] on a queued entry all pass. *)
Lemma queued_entry_ok cs ps1 k p ps2 G :
  queue_ok cs (ps1 ++ (k, p) :: ps2) G -> 0 <= p_slot p ->
  matches (p_slot p) (p_tag p) cs = true -> placed p -> p_drain p = false ->
  (p_kvTileIndex p =? expectedKeyTile (cs.[p_slot p])) &&
  forallb (fun panel => (segmentState (cs.[p_slot p])).[first_segment p + Z.of_nat panel] =? 1)
    (seq 0 (segments_of p)) = true.
Proof.
  intros Q Hs Hm Hp Hd. destruct (queue_slot _ _ _ _ _ Q Hs Hm) as (_ & _ & _ & L).
  destruct (placed_bounds p Hp) as [B1 B2]. pose proof (segments_of_bounds p) as B3.
  assert (forall seg, first_segment p <= seg < first_segment p + Z.of_nat (segments_of p) ->
    (segmentState (cs.[p_slot p])).[seg] = 1 /\
    p_kvTileIndex p = expectedKeyTile (cs.[p_slot p])) as H.
  { intros seg Hseg. destruct L as [_ _ _ _ Lseg _ _].
    assert (covers (p_slot p) seg p = true) as Hcov.
    { rewrite covers_spec by (done || lia). by apply bool_decide_true. }
    destruct (covered_queued _ _ _ _ _ _ _ _ (Lseg seg ltac:(lia)) Hcov) as (_ & ? & ? & _). done. }
  apply andb_true_iff. split.
  - apply Z.eqb_eq, (H (first_segment p)). lia.
  - apply forallb_forall. intros panel Hin%in_seq. apply Z.eqb_eq, H. lia.
Qed.

(** What completing entries never changes. *)
Definition keeps (cs cs' : list Context) : Prop :=
  length cs' = length cs /\
  forall i, keyTiles (cs'.[i]) = keyTiles (cs.[i]) /\ valid (cs'.[i]) = valid (cs.[i]) /\
    draining (cs'.[i]) = draining (cs.[i]) /\ tag (cs'.[i]) = tag (cs.[i]).

Lemma keeps_update cs slot c' :
  keyTiles c' = keyTiles (cs.[slot]) -> valid c' = valid (cs.[slot]) ->
  draining c' = draining (cs.[slot]) -> tag c' = tag (cs.[slot]) -> keeps cs (cs.[slot := c']).
Proof.
  intros Hk Hv Hd Ht. split; [by rewrite length_insert|]. intros i.
  rewrite list_lookup_total_insert. case_decide as H; [|done]. destruct H as [<- _]. done.
Qed.

Lemma complete_ok cs ps1 k p ps2 G :
  queue_ok cs (ps1 ++ (k, p) :: ps2) G ->
  let '(c, cs') := complete p cs in
  completes G cs p c /\ queue_ok cs' (ps1 ++ ps2) G /\ keeps cs cs'.
Proof.
  intros Q. pose proof Q as [Hl Hc He].
  assert (entry_ok cs (k, p)) as [_ Es Em Ep Ed].
  { rewrite Forall_app, Forall_cons in He. tauto. }
  assert (Forall (entry_ok cs) (ps1 ++ ps2)) as He'.
  { rewrite Forall_app, Forall_cons in He. rewrite Forall_app. tauto. }
  simpl in *. destruct (queue_slot _ _ _ _ _ Q Es Em) as (Hlt & Hv & Ht & L).
  unfold complete. rewrite Em. cbn [negb]. destruct (p_drain p) eqn:Hd.
  - split; [|split; [|done]].
    + split_and!; try done. simpl. intros _. pose proof L as [Lv _ _ _ _ _ _]. split; [done|].
      intros seg lane. by apply (drain_values _ _ _ _ L), Ed.
    + constructor; [done| |done]. intros i Hi.
      apply (context_ok_ext i (ps1 ++ (k, p) :: ps2) _ (G i)); [|done|by apply Hc].
      intros seg _. symmetry. apply covering_uncovered. unfold covers.
      rewrite Hd. simpl. by rewrite andb_false_r.
  - specialize (Ep eq_refl). fold (placed p) in Ep.
    change (p_row p * kPanels + p_panel p) with (first_segment p).
    change (if p_rowFused p then Z.to_nat kPanels else 1%nat) with (segments_of p). cbv zeta.
    rewrite (queued_entry_ok cs ps1 k p ps2 G) by done.
    set (c' := commit p (first_segment p) (segments_of p) (cs.[p_slot p])).
    assert (valid c' = true /\ tag c' = tag (cs.[p_slot p]) /\
            draining c' = draining (cs.[p_slot p]) /\ keyTiles c' = keyTiles (cs.[p_slot p]))
      as (Ev & Et & Edr & Ek).
    { pose proof L as [Lv Lst _ _ _ _ _]. rewrite <- Hv.
      destruct (placed_bounds p Ep). by apply commit_keeps. }
    split; [by split_and!|]. split.
    + apply (queue_update cs (ps1 ++ (k, p) :: ps2) _ G); [done|lia| | |].
      * unfold context_ok. rewrite Ev. by apply commit_live with k.
      * intros i seg Hi. split; [|done]. symmetry. by apply covering_uncovered, covering_other.
      * apply entries_update; [done|congruence|done|congruence|done].
    + apply keeps_update; congruence.
Qed.

(** ** The loop of [progress] *)

Definition due (now : Z) (item : Z * Pending) : bool := p_readyCycle item.2 <=? now.

Lemma keeps_trans cs1 cs2 cs3 : keeps cs1 cs2 -> keeps cs2 cs3 -> keeps cs1 cs3.
Proof.
  intros [L1 K1] [L2 K2]. split; [congruence|]. intros i.
  destruct (K1 i) as (? & ? & ? & ?), (K2 i) as (? & ? & ? & ?). split_and!; congruence.
Qed.

Lemma progress_loop_ok now ps : forall kept0 cs G,
  queue_ok cs (kept0 ++ ps) G ->
  let '(kept, cs', out) := progress_loop now ps cs in
  kept = filter (fun item => due now item = false) ps /\
  queue_ok cs' (kept0 ++ kept) G /\
  keeps cs cs' /\
  Forall2 (fun item => completes G cs item.2) (filter (fun item => due now item = true) ps) out.
Proof.
  induction ps as [|[k p] ps IH]; intros kept0 cs G Q; simpl; [done|].
  rewrite !filter_cons.
  destruct (Z.ltb_spec now (p_readyCycle p)) as [Hlt|Hge].
  - assert (due now (k, p) = false) as -> by (unfold due; simpl; lia). simpl.
    specialize (IH (kept0 ++ [(k, p)]) cs G). rewrite <- app_assoc in IH. specialize (IH Q).
    destruct (progress_loop now ps cs) as [[kept cs'] out]. destruct IH as (-> & Q' & Hk & Hf).
    rewrite <- app_assoc in Q'. by split_and!.
  - assert (due now (k, p) = true) as -> by (unfold due; simpl; lia). simpl.
    pose proof (complete_ok _ _ _ _ _ _ Q) as C. destruct (complete p cs) as [c cs1].
    destruct C as (C & Q1 & Hk1). specialize (IH kept0 cs1 G Q1).
    destruct (progress_loop now ps cs1) as [[kept cs'] out]. destruct IH as (-> & Q' & Hk & Hf).
    split_and!; [done|done|by eapply keeps_trans|]. constructor; [done|].
    apply (Forall2_impl _ _ _ _ Hf). intros item c' (?&?&?&?&?&Hd). split_and!; try done.
    intros Hdr. destruct (Hd Hdr) as [? Hv]. split; [done|]. intros.
    destruct Hk1 as [_ Hk1]. rewrite <- (proj1 (Hk1 _)). by apply Hv.
Qed.

(** ** Submissions *)

Lemma emplace_last k p ps : Forall (fun item => item.1 < k) ps -> emplace k p ps = ps ++ [(k, p)].
Proof.
  induction 1 as [|[k' p'] ps Hk _ IH]; simpl in *; [done|].
  rewrite (proj2 (Z.ltb_ge _ _)), (proj2 (Z.ltb_lt _ _)) by lia. by rewrite IH.
Qed.

Lemma fill_range_lookup {A} `{!Inhabited A} i n (x : A) l :
  0 <= i -> 0 <= n -> i + n <= Z.of_nat (length l) ->
  length (fill_range i n x l) = length l /\
  forall j, 0 <= j ->
    (fill_range i n x l).[j] = if bool_decide (i <= j < i + n) then x else l.[j].
Proof.
  intros Hi Hn Hl. unfold fill_range. split; [apply length_inserts|]. intros j Hj.
  rewrite !list_lookup_total_alt. case_bool_decide as H.
  - rewrite list_lookup_inserts by (rewrite ?length_replicate; lia).
    by rewrite lookup_replicate_2 by lia.
  - destruct (decide (j < i)).
    + by rewrite list_lookup_inserts_lt by lia.
    + by rewrite list_lookup_inserts_ge by (rewrite ?length_replicate; lia).
Qed.

Lemma count_committed_ext l l' :
  length l = length l' ->
  (forall i, 0 <= i < Z.of_nat (length l) -> l.[i] = 2 <-> l'.[i] = 2) ->
  count_committed l = count_committed l'.
Proof.
  unfold count_committed. revert l'; induction l as [|x l IH]; intros [|y l'] Hl H; try done.
  injection Hl as Hl. rewrite !filter_cons. specialize (IH l' Hl).
  assert (x = 2 <-> y = 2) as Hxy by (apply (H 0); simpl; lia).
  assert (length (filter (fun x => x = 2) l) = length (filter (fun x => x = 2) l')) as Ef.
  { apply Nat2Z.inj, IH. intros i Hi. specialize (H (i + 1)).
    rewrite Z.add_1_r, Z2Nat.inj_succ in H by lia. apply H. simpl. lia. }
  repeat case_decide; simpl; lia || tauto.
Qed.

Definition submitted (p : Pending) (G : Z -> Z -> list contribution) : Z -> Z -> list contribution :=
  fun slot seg => if covers slot seg p then G slot seg ++ [contribution_of seg p] else G slot seg.

Lemma submit_live slot ps G k p c states :
  live_context slot ps (G slot) c -> placed p -> p_slot p = slot -> p_drain p = false ->
  p_kvTileIndex p = expectedKeyTile c -> p_kvTileIndex p < keyTiles c ->
  length states = length (segmentState c) ->
  (forall seg, 0 <= seg ->
     states.[seg] = if bool_decide (first_segment p <= seg < first_segment p + Z.of_nat (segments_of p))
                    then 1 else (segmentState c).[seg]) ->
  (forall seg, first_segment p <= seg < first_segment p + Z.of_nat (segments_of p) ->
     (segmentState c).[seg] = 0) ->
  live_context slot (ps ++ [(k, p)]) (submitted p G slot) (c <| segmentState := states |>).
Proof.
  intros [Lv Lst Lt [Lc Lc'] Lseg Ll Ldr] Hp Hs Hd Hkv Hlt Hlen Hst H0.
  constructor; simpl; [done|lia|done| | |lia|done].
  - split; [|done]. rewrite Lc. symmetry. apply count_committed_ext; [done|].
    intros i Hi. rewrite Hst by lia. case_bool_decide as Hin; [|done]. specialize (H0 i Hin). lia.
  - intros seg Hseg. specialize (Hst seg ltac:(lia)). specialize (Lseg seg Hseg).
    unfold submitted. rewrite covering_app, covering_cons. simpl.
    rewrite <- Hs in *. rewrite covers_spec by (done || lia).
    case_bool_decide as Hin.
    + specialize (H0 seg Hin). destruct Lseg as [_ E Hn Hh|?????|]; [|congruence..].
      rewrite E. by eapply seg_queued.
    + simpl. rewrite app_nil_r. by apply (segment_status_ext c).
Qed.

(** Queueing an entry for idle segments of the current tile. *)
Lemma queue_submit cs ps G k p states :
  queue_ok cs ps G -> p_id p = k -> 0 <= p_slot p ->
  matches (p_slot p) (p_tag p) cs = true -> placed p -> p_drain p = false ->
  let c := cs.[p_slot p] in
  p_kvTileIndex p = expectedKeyTile c -> p_kvTileIndex p < keyTiles c ->
  length states = length (segmentState c) ->
  (forall seg, 0 <= seg ->
     states.[seg] = if bool_decide (first_segment p <= seg < first_segment p + Z.of_nat (segments_of p))
                    then 1 else (segmentState c).[seg]) ->
  (forall seg, first_segment p <= seg < first_segment p + Z.of_nat (segments_of p) ->
     (segmentState c).[seg] = 0) ->
  queue_ok (cs.[p_slot p := c <| segmentState := states |>]) (ps ++ [(k, p)]) (submitted p G).
Proof.
  intros Q Hid Hs Hm Hp Hd c Hkv Hlt Hlen Hst H0. pose proof (qo_entries _ _ _ Q) as He.
  destruct (queue_slot _ _ _ _ _ Q Hs Hm) as (Hl & Hv & Ht & L). fold c in Hv, Ht, L.
  assert (p_slot p < kContexts) as Hk by (unfold matches in Hm; lia).
  apply (queue_update cs ps _ G); [done|lia| | |].
  - unfold context_ok. replace (valid _) with true by by rewrite <- Hv. by apply submit_live.
  - intros i seg Hi. unfold submitted. rewrite covering_app, covering_cons. simpl.
    rewrite covering_other by done. by rewrite app_nil_r.
  - apply entries_update; [lia|done..|]. apply Forall_app. split; [done|].
    apply Forall_singleton. constructor; simpl; done || congruence.
Qed.

(** ** Every call preserves the invariant *)

Definition live_count (cs : list Context) : Z :=
  Z.of_nat (length (filter (fun c => valid c = true) cs)).

Record inv (h : list (call * result)) (s : t) : Prop := {
  inv_queue : queue_ok (contexts_ s) (pending_ s) (fun slot seg => contributions slot seg h);
  inv_ids : Forall (fun item => item.1 < nextId_ s) (pending_ s);
  inv_next : 1 <= nextId_ s <= Z.of_nat (length h) + 1;
  inv_sorted : StronglySorted Z.lt (pending_ s).*1;
  inv_occupied : occupied_ s = live_count (contexts_ s);
  inv_high : occupied_ s <= highWater_ s <= kContexts
}.

Lemma live_count_bounds cs : 0 <= live_count cs <= Z.of_nat (length cs).
Proof. unfold live_count. pose proof (length_filter (fun c => valid c = true) cs). lia. Qed.

Lemma live_count_insert cs i c' :
  (i < length cs)%nat ->
  live_count (<[i := c']> cs) = live_count cs - Z.b2z (valid (cs !!! i)) + Z.b2z (valid c').
Proof.
  unfold live_count. revert i. induction cs as [|c cs IH]; intros [|i] Hi; simpl in Hi; try lia.
  - change ((c :: cs) !!! 0%nat) with c. change (<[0%nat := c']> (c :: cs)) with (c' :: cs).
    rewrite !filter_cons. destruct (valid c), (valid c'); simpl; lia.
  - change ((c :: cs) !!! S i) with (cs !!! i).
    change (<[S i := c']> (c :: cs)) with (c :: <[i := c']> cs).
    specialize (IH i ltac:(lia)). rewrite !filter_cons. case_decide; simpl; lia.
Qed.

Lemma queue_ok_ext cs ps G G' :
  (forall i seg, G' i seg = G i seg) -> queue_ok cs ps G -> queue_ok cs ps G'.
Proof.
  intros HG [Hl Hc He]. constructor; [done| |done]. intros i Hi.
  by apply (context_ok_ext i ps ps (G i)), Hc.
Qed.

Lemma covering_nil slot seg ps :
  Forall (fun item => p_slot item.2 <> slot) ps -> covering slot seg ps = [].
Proof.
  induction 1 as [|item ps Hs _ IH]; [done|]. rewrite covering_cons, IH.
  by rewrite covering_other.
Qed.

Lemma free_slot_entries cs ps G slot :
  queue_ok cs ps G -> valid (cs.[slot]) = false -> Forall (fun item => p_slot item.2 <> slot) ps.
Proof.
  intros [_ _ He] Hv. apply (Forall_impl _ _ _ He). intros item [_ _ Hm _ _] E.
  unfold matches in Hm. rewrite E, Hv, andb_false_r in Hm. done.
Qed.

(** Entries that do not belong to a slot keep their standing when it changes. *)
Lemma entries_other cs slot c' ps :
  0 <= slot -> Forall (fun item => p_slot item.2 <> slot) ps ->
  Forall (entry_ok cs) ps -> Forall (entry_ok (cs.[slot := c'])) ps.
Proof.
  intros Hs Hn He. apply Forall_lookup. intros i item Hi.
  pose proof (proj1 (Forall_lookup _ _) Hn i item Hi) as Hne. simpl in Hne.
  destruct (proj1 (Forall_lookup _ _) He i item Hi). constructor; try done.
  - unfold matches. by rewrite list_lookup_total_insert_ne by lia.
  - by rewrite list_lookup_total_insert_ne by lia.
Qed.

Lemma reserve_live slot ps tg tiles :
  is_u32 tiles -> tiles <> 0 -> Forall (fun item => p_slot item.2 <> slot) ps ->
  live_context slot ps (fun _ => [])
    (mkContext true false tg tiles 0 0 (fill float_zero (values no_context))
       (fill 0 (segmentState no_context))).
Proof.
  intros Ht Hne Hps. constructor; simpl; try done.
  - unfold is_u32 in *. lia.
  - intros seg Hseg. apply seg_idle; simpl; [|by apply covering_nil|done|].
    + apply lookup_total_replicate_2. unfold kSegments, kRows, kPanels in *. simpl. lia.
    + intros lane Hl. simpl. apply lookup_total_replicate_2.
      unfold kSegments, kRows, kPanels, kValuesPerSegment in *. simpl. lia.
Qed.

Lemma reserve_inv h s slot tg tiles r s' :
  inv h s -> call_ok s (Reserve slot tg tiles) ->
  exec (Reserve slot tg tiles) s = (r, s') -> inv ((Reserve slot tg tiles, r) :: h) s'.
Proof.
  intros [Q Hid Hn Hso Ho Hh] [Hs Ht]. simpl. unfold reserve.
  destruct (_ || _) eqn:Hg; intros [= <- <-].
  { constructor; simpl; try done. lia. }
  rewrite !orb_false_iff in Hg. destruct Hg as [[[Hk _] Htl] Hv].
  pose proof Q as [Hl Hc He]. pose proof (live_count_bounds (contexts_ s)) as Hb.
  pose proof (free_slot_entries _ _ _ _ Q Hv) as Hfree.
  assert ((contexts_ s).[slot] = no_context) as Ec.
  { specialize (Hc slot ltac:(lia)). unfold context_ok in Hc. by rewrite Hv in Hc. }
  match goal with |- context [<[_ := ?c]> (contexts_ s)] => set (c' := c) end.
  assert (live_count ((contexts_ s).[slot := c']) = live_count (contexts_ s) + 1) as Hcnt.
  { rewrite live_count_insert by lia. rewrite Ec. simpl. lia. }
  pose proof (live_count_bounds ((contexts_ s).[slot := c'])) as Hb'. rewrite length_insert in Hb'.
  constructor; simpl; try done.
  - apply (queue_update (contexts_ s) (pending_ s) _ (fun slot seg => contributions slot seg h));
      [done|lia| | |by apply entries_other].
    + unfold context_ok. simpl. rewrite Z.eqb_refl. unfold c'. rewrite Ec.
      apply reserve_live; done || lia.
    + intros i seg Hi. split; [done|]. by rewrite (proj2 (Z.eqb_neq slot i)) by done.
  - lia.
  - rewrite Hcnt, Ho. apply u32_small. unfold is_u32, kContexts in *. lia.
  - rewrite u32_small by (unfold is_u32, kContexts in *; lia). lia.
Qed.

Lemma sorted_snoc l k :
  StronglySorted Z.lt l -> Forall (fun x => x < k) l -> StronglySorted Z.lt (l ++ [k]).
Proof.
  induction 1 as [|x l Hs IH Hx]; intros Hf; simpl; [repeat constructor|].
  inversion Hf; subst. constructor; [by apply IH|]. apply Forall_app. by repeat constructor.
Qed.

(** The part shared by the three calls that queue an entry. *)
Lemma ticket_inv h s cr s' p c' slot :
  inv h s -> Z.of_nat (length h) + 2 < 2 ^ 64 ->
  0 <= slot < Z.of_nat (length (contexts_ s)) -> valid c' = valid ((contexts_ s).[slot]) ->
  queue_ok ((contexts_ s).[slot := c']) (pending_ s ++ [(nextId_ s, p)])
    (fun slot seg => contributions slot seg (cr :: h)) ->
  contexts_ s' = (contexts_ s).[slot := c'] ->
  pending_ s' = emplace (nextId_ s) p (pending_ s) ->
  nextId_ s' = nextId_ s ⊞ 1 -> occupied_ s' = occupied_ s -> highWater_ s' = highWater_ s ->
  inv (cr :: h) s'.
Proof.
  intros [Q Hid Hn Hso Ho Hh] Hlen Hs Hv Q' Ec Ep En Eo Eh.
  rewrite emplace_last in Ep by done.
  assert (nextId_ s' = nextId_ s + 1) as En' by (rewrite En; mach_lia).
  constructor; rewrite ?Ec, ?Ep, ?En', ?Eo, ?Eh; try done.
  - apply Forall_app. split; [|repeat constructor; simpl; lia].
    apply (Forall_impl _ _ _ Hid). intros item. simpl. lia.
  - simpl. lia.
  - rewrite fmap_app. simpl. apply sorted_snoc; [done|]. by apply Forall_fmap.
  - rewrite live_count_insert, Hv, Ho by lia. lia.
Qed.

Lemma inv_skip h s c r :
  inv h s -> (forall slot seg, contributions slot seg ((c, r) :: h) = contributions slot seg h) ->
  inv ((c, r) :: h) s.
Proof.
  intros [Q Hid Hn Hso Ho Hh] HG. constructor; try done; [|simpl; lia].
  by apply (queue_ok_ext _ _ (fun slot seg => contributions slot seg h)).
Qed.

Lemma submitSegment_inv h s slot tg kv row panel alpha vals now outputs r s' :
  let c := SubmitSegment slot tg kv row panel alpha vals now outputs in
  inv h s -> Z.of_nat (length h) + 2 < 2 ^ 64 -> call_ok s c ->
  exec c s = (r, s') -> inv ((c, r) :: h) s'.
Proof.
  intros c I Hlen (Hs & Hr & Hp & Hnow & Htile). pose proof I as [Q Hid Hn Hso Ho Hh].
  unfold c, exec, submitSegment.
  destruct (_ || negb outputs) eqn:Hg; [intros [= <- <-]; by apply inv_skip|].
  rewrite !orb_false_iff, !negb_false_iff in Hg. destruct Hg as [[[[[Hm Hrow] Hpan] _] _] _].
  destruct (_ || _) eqn:Hg; [intros [= <- <-]; by apply inv_skip|].
  rewrite !orb_false_iff, !negb_false_iff, !Z.eqb_eq in Hg. destruct Hg as [[Hdr Hkv] H0].
  destruct (queue_slot _ _ _ _ _ Q Hs Hm) as (Hl & Hv & Ht & L).
  destruct (schedule _ _ _ _ _) as [ready p]. intros [= <- <-].
  set (pend := mkPending _ _ _ _ _ _ _ _ _ _ _ _).
  assert (placed pend) as Hplaced by (unfold placed, pend; simpl; lia).
  assert (first_segment pend = row * kPanels + panel) as Ef by done.
  assert (segments_of pend = 1%nat) as En by done.
  destruct (placed_bounds pend Hplaced) as [B1 B2]. pose proof (lc_states _ _ _ _ L) as Hst.
  destruct (fill_range_lookup (first_segment pend) 1 1 (segmentState ((contexts_ s).[slot])))
    as [Lf Lk]; [lia..|].
  eapply (ticket_inv h s _ _ pend); [done|done|exact (conj Hs Hl)| | |reflexivity..]; [done|].
  eapply queue_ok_ext;
    [|apply (queue_submit (contexts_ s) (pending_ s) (fun slot seg => contributions slot seg h)
        (nextId_ s) pend ((segmentState ((contexts_ s).[slot])).[row * kPanels + panel := 1]))];
    try done; simpl.
  - intros i seg. unfold submitted, covers. simpl. by rewrite andb_true_r.
  - by apply Htile.
  - intros seg Hin. replace seg with (row * kPanels + panel) by lia. done.
Qed.

Lemma idle_range l i n :
  0 <= i -> 0 <= n -> i + n <= Z.of_nat (length l) ->
  existsb (fun state => negb (state =? 0)) (take (Z.to_nat n) (drop (Z.to_nat i) l)) = false ->
  forall seg, i <= seg < i + n -> l.[seg] = 0.
Proof.
  intros Hi Hn Hl He seg Hseg.
  assert (take (Z.to_nat n) (drop (Z.to_nat i) l) !! Z.to_nat (seg - i) = Some (l.[seg])) as Hk.
  { rewrite lookup_take_lt, lookup_drop by lia.
    replace (Z.to_nat i + Z.to_nat (seg - i))%nat with (Z.to_nat seg) by lia.
    apply list_lookup_lookup_total_lt. lia. }
  destruct (Z.eqb_spec (l.[seg]) 0) as [|Hne]; [done|].
  rewrite <- not_true_iff_false, existsb_exists in He. destruct He. exists (l.[seg]).
  split; [by eapply list_elem_of_In, list_elem_of_lookup_2|]. by apply negb_true_iff, Z.eqb_neq.
Qed.

Lemma submitRow_inv h s slot tg kv row alpha vals now outputs r s' :
  let c := SubmitRow slot tg kv row alpha vals now outputs in
  inv h s -> Z.of_nat (length h) + 2 < 2 ^ 64 -> call_ok s c ->
  exec c s = (r, s') -> inv ((c, r) :: h) s'.
Proof.
  intros c I Hlen (Hs & Hr & Hnow & Htile). pose proof I as [Q Hid Hn Hso Ho Hh].
  unfold c, exec, submitRow.
  destruct (_ || negb outputs) eqn:Hg; [intros [= <- <-]; by apply inv_skip|].
  rewrite !orb_false_iff, !negb_false_iff in Hg. destruct Hg as [[[[Hm Hrow] _] _] _].
  destruct (_ || _) eqn:Hg; [intros [= <- <-]; by apply inv_skip|].
  rewrite !orb_false_iff, !negb_false_iff, !Z.eqb_eq in Hg. destruct Hg as [[Hdr Hkv] H0].
  destruct (queue_slot _ _ _ _ _ Q Hs Hm) as (Hl & Hv & Ht & L).
  destruct (schedule _ _ _ _ _) as [ready p]. intros [= <- <-].
  set (pend := mkPending _ _ _ _ _ _ _ _ _ _ _ _).
  assert (placed pend) as Hplaced by (unfold placed, pend, kPanels; simpl; lia).
  assert (first_segment pend = row * kPanels) as Ef by apply Z.add_0_r.
  assert (segments_of pend = Z.to_nat kPanels) as En by done.
  destruct (placed_bounds pend Hplaced) as [B1 B2]. pose proof (lc_states _ _ _ _ L) as Hst.
  rewrite Ef, En, Z2Nat.id in B2 by done. rewrite Ef in B1.
  destruct (fill_range_lookup (row * kPanels) kPanels 1 (segmentState ((contexts_ s).[slot])))
    as [Lf Lk]; [done|done|lia|].
  eapply (ticket_inv h s _ _ pend); [done|done|exact (conj Hs Hl)| | |reflexivity..]; [done|].
  eapply queue_ok_ext;
    [|apply (queue_submit (contexts_ s) (pending_ s) (fun slot seg => contributions slot seg h)
        (nextId_ s) pend (fill_range (row * kPanels) kPanels 1
                            (segmentState ((contexts_ s).[slot]))))];
    try done; rewrite ?Ef, ?En, ?Z2Nat.id by done.
  - intros i seg. unfold submitted, covers. simpl. by rewrite andb_true_r.
  - by apply Htile.
  - done.
  - apply (idle_range (segmentState ((contexts_ s).[slot]))); done || lia.
Qed.

Lemma requestDrain_inv h s slot tg now outputs r s' :
  let c := RequestDrain slot tg now outputs in
  inv h s -> Z.of_nat (length h) + 2 < 2 ^ 64 -> call_ok s c ->
  exec c s = (r, s') -> inv ((c, r) :: h) s'.
Proof.
  intros c I Hlen (Hs & Hnow). pose proof I as [Q Hid Hn Hso Ho Hh].
  unfold c, exec, requestDrain.
  destruct (_ || negb outputs) eqn:Hg; [intros [= <- <-]; by apply inv_skip|].
  rewrite !orb_false_iff, !negb_false_iff in Hg. destruct Hg as [Hm _].
  destruct (_ || _) eqn:Hg; [intros [= <- <-]; by apply inv_skip|].
  rewrite !orb_false_iff, !negb_false_iff, !Z.eqb_eq in Hg. destruct Hg as [[Hdr Htl] _].
  destruct (queue_slot _ _ _ _ _ Q Hs Hm) as (Hl & Hv & Ht & L).
  destruct (drain_reads _) as [ready p]. intros [= <- <-].
  set (pend := mkPending _ _ _ _ _ _ _ _ _ _ _ _).
  assert (forall i seg, covering i seg (pending_ s ++ [(nextId_ s, pend)]) =
                        covering i seg (pending_ s)) as Hcov.
  { intros i seg. rewrite covering_app, covering_cons. unfold covers. simpl.
    rewrite andb_false_r. simpl. by rewrite app_nil_r. }
  eapply (ticket_inv h s _ _ pend); [done|done|exact (conj Hs Hl)| | |reflexivity..]; [done|].
  pose proof Q as [Hl' _ He].
  apply (queue_update (contexts_ s) (pending_ s) _ (fun slot seg => contributions slot seg h));
    [done|lia| | |].
  - apply (context_ok_ext slot (pending_ s) _ (fun seg => contributions slot seg h)); [done|done|].
    unfold context_ok. simpl. rewrite Hv. destruct L as [? ? ? ? Lseg ? ?]. constructor; try done.
    intros seg Hseg. by apply (segment_status_ext ((contexts_ s).[slot])); [apply Lseg|..].
  - intros i seg _. split; [apply Hcov|done].
  - apply Forall_app. split; [by apply entries_update|]. apply Forall_singleton.
    constructor; simpl; try done.
    + by rewrite matches_update by (done || lia).
    + intros _. by rewrite list_lookup_total_insert_eq by lia.
Qed.

Lemma live_count_keeps cs cs' : keeps cs cs' -> live_count cs' = live_count cs.
Proof.
  intros [Hl Hk]. unfold live_count. f_equal. revert cs' Hl Hk.
  induction cs as [|c cs IH]; intros [|c' cs'] Hl Hk; try done.
  injection Hl as Hl. destruct (Hk 0) as (_ & Hv & _). simpl in Hv.
  change ((c' :: cs').[0]) with c' in Hv. change ((c :: cs).[0]) with c in Hv.
  rewrite !filter_cons, Hv.
  assert (length (filter (fun c => valid c = true) cs') = length (filter (fun c => valid c = true) cs))
    as E.
  { apply IH; [done|]. intros i. destruct (decide (0 <= i)).
    - specialize (Hk (i + 1)). by rewrite Z.add_1_r, Z2Nat.inj_succ in Hk by lia.
    - specialize (Hk 1). replace (Z.to_nat i) with 0%nat by lia. done. }
  case_decide; simpl; lia.
Qed.

(** Dropping entries keeps the ids in order. *)
Lemma filter_ids (P : Z * Pending -> Prop) `{!forall x, Decision (P x)} n ps :
  Forall (fun item => item.1 < n) ps -> StronglySorted Z.lt ps.*1 ->
  Forall (fun item => item.1 < n) (filter P ps) /\ StronglySorted Z.lt (filter P ps).*1.
Proof.
  intros Hf. induction Hf as [|item ps Hn _ IH]; intros Hs; [done|].
  inversion Hs as [|? ? Hs' Hlt]; subst. rewrite Forall_fmap in Hlt.
  assert (forall k, Forall (fun item => k < item.1) ps -> Forall (Z.lt k) (filter P ps).*1) as Hk'.
  { intros k Hkp. apply Forall_fmap, Forall_forall. intros x [_ Hin]%list_elem_of_filter.
    exact (proj1 (Forall_forall _ _) Hkp x Hin). }
  destruct (IH Hs') as [? ?]. rewrite filter_cons. case_decide; [|done].
  split; [by constructor|]. rewrite fmap_cons. constructor; [done|]. by apply Hk'.
Qed.

Lemma progress_inv h s now r s' :
  inv h s -> exec (Progress now) s = (r, s') -> inv ((Progress now, r) :: h) s'.
Proof.
  intros [Q Hid Hn Hso Ho Hh]. simpl. unfold progress.
  pose proof (progress_loop_ok now (pending_ s) [] _ _ Q) as P.
  destruct (progress_loop _ _ _) as [[kept cs'] out]. destruct P as (-> & Q' & Hk & _).
  destruct (filter_ids (fun item => due now item = false) _ _ Hid Hso) as [? ?].
  intros [= <- <-]. constructor; simpl; try done; [lia|]. by rewrite (live_count_keeps (contexts_ s)).
Qed.

Lemma release_inv h s slot tg r s' :
  inv h s -> call_ok s (Release slot tg) ->
  exec (Release slot tg) s = (r, s') -> inv ((Release slot tg, r) :: h) s'.
Proof.
  intros I Hs. pose proof I as [Q Hid Hn Hso Ho Hh]. simpl in Hs |- *. unfold release.
  destruct (_ || _) eqn:Hg; intros [= <- <-]; [by apply inv_skip|].
  rewrite !orb_false_iff, !negb_false_iff in Hg. destruct Hg as [[Hm Hdr] Hp].
  destruct (queue_slot _ _ _ _ _ Q Hs Hm) as (Hl & Hv & Ht & _).
  pose proof Q as [Hl' _ He].
  assert (Forall (fun item => p_slot item.2 <> slot) (pending_ s)) as Hfree.
  { apply Forall_forall. intros item Hin E.
    pose proof (proj1 (Forall_forall _ _) He item Hin) as [_ _ Hm' _ _].
    unfold hasPending in Hp. rewrite <- not_true_iff_false, existsb_exists in Hp. apply Hp.
    exists item. split; [by apply list_elem_of_In|]. unfold matches in Hm'.
    rewrite E, Ht, !andb_true_iff, tag_eqb_eq in Hm'. destruct Hm' as [_ <-].
    rewrite E, Z.eqb_refl. apply tag_eqb_refl. }
  pose proof (live_count_insert (contexts_ s) (Z.to_nat slot) no_context ltac:(lia)) as Hcnt.
  rewrite Hv in Hcnt. simpl in Hcnt.
  pose proof (live_count_bounds ((contexts_ s).[slot := no_context])) as Hb.
  rewrite length_insert in Hb.
  constructor; simpl; try done.
  - apply (queue_update (contexts_ s) (pending_ s) _ (fun slot seg => contributions slot seg h));
      [done|lia|done|done|by apply entries_other].
  - lia.
  - rewrite Hcnt, Ho. rewrite u32_small by (unfold is_u32, kContexts in *; lia). lia.
  - rewrite u32_small by (unfold is_u32, kContexts in *; lia). lia.
Qed.

(** *** Cancelling a generation *)

Definition keep_context (gen : Z) (c : Context) : Context :=
  if of_generation gen c then no_context else c.

Lemma cancel_contexts_spec gen cs : forall occ cancelled,
  live_count cs <= occ < 2 ^ 32 -> 0 <= cancelled -> cancelled + Z.of_nat (length cs) < 2 ^ 32 ->
  let '(cs', occ', cancelled') := cancel_contexts gen cs occ cancelled in
  let n := Z.of_nat (length (filter (fun c => of_generation gen c = true) cs)) in
  cs' = keep_context gen <$> cs /\ occ' = occ - n /\ cancelled' = cancelled + n /\
  live_count cs' = live_count cs - n.
Proof.
  induction cs as [|c cs IH]; intros occ cancelled Ho Hc Hn; [simpl; split_and!; done || lia|].
  pose proof (live_count_bounds cs) as Hb. unfold live_count in *.
  cbn [cancel_contexts]. rewrite fmap_cons, !filter_cons in *. unfold keep_context at 1.
  destruct (of_generation gen c) eqn:Hg.
  - assert (valid c = true) as Hv by (unfold of_generation in Hg; by apply andb_true_iff in Hg as [? _]).
    rewrite Hv in *. simpl in Ho, Hn.
    rewrite !u32_small by (unfold is_u32; simpl in *; lia).
    specialize (IH (occ - 1) (cancelled + 1) ltac:(lia) ltac:(lia) ltac:(lia)).
    destruct (cancel_contexts _ _ _ _) as [[cs' occ'] cancelled']. destruct IH as (-> & -> & -> & IH).
    rewrite filter_cons. simpl. split_and!; [done|lia..].
  - simpl in Hn. assert (Z.of_nat (length (filter (fun c => valid c = true) cs)) <= occ < 2 ^ 32).
    { case_decide; simpl in Ho; lia. }
    specialize (IH occ cancelled ltac:(lia) ltac:(lia) ltac:(lia)).
    destruct (cancel_contexts _ _ _ _) as [[cs' occ'] cancelled']. destruct IH as (-> & -> & -> & IH).
    rewrite decide_False by done. split_and!; [done..|].
    rewrite filter_cons. case_decide; simpl; lia.
Qed.

Lemma keep_context_at gen (cs : list Context) i : (keep_context gen <$> cs).[i] = keep_context gen (cs.[i]).
Proof.
  rewrite !list_lookup_total_alt, list_lookup_fmap.
  destruct (cs !! Z.to_nat i); [done|]. reflexivity.
Qed.

Lemma covering_filter (P : Z * Pending -> Prop) `{!forall x, Decision (P x)} slot seg ps :
  Forall (fun item => covers slot seg item.2 = true -> P item) ps ->
  covering slot seg (filter P ps) = covering slot seg ps.
Proof.
  induction 1 as [|item ps Hi _ IH]; [done|]. rewrite filter_cons, covering_cons.
  case_decide as HP; [by rewrite covering_cons, IH|].
  destruct (covers slot seg item.2); [by destruct HP; apply Hi|done].
Qed.

(** The context of an entry survives exactly when the entry does. *)
Lemma entry_generation cs item gen :
  entry_ok cs item ->
  of_generation gen (cs.[p_slot item.2]) = (generation (p_tag item.2) =? gen).
Proof.
  intros [_ _ Hm _ _]. unfold matches in Hm. rewrite !andb_true_iff, tag_eqb_eq in Hm.
  destruct Hm as [[_ Hv] <-]. unfold of_generation. by rewrite Hv.
Qed.

Lemma cancel_queue cs ps G gen :
  queue_ok cs ps G ->
  queue_ok (keep_context gen <$> cs)
    (filter (fun item : Z * Pending => generation (p_tag item.2) <> gen) ps) G.
Proof.
  intros Q. pose proof Q as [Hl Hc He]. constructor; [by rewrite length_fmap| |].
  - intros i Hi. rewrite keep_context_at. specialize (Hc i Hi). unfold keep_context.
    destruct (of_generation gen (cs.[i])) eqn:Hg; [done|].
    apply (context_ok_ext i ps _ (G i)); [|done|done]. intros seg _. apply covering_filter.
    apply (Forall_impl _ _ _ He). intros item Hok Hcov.
    apply entry_generation with (gen := gen) in Hok. unfold covers in Hcov.
    rewrite !andb_true_iff, Z.eqb_eq in Hcov. destruct Hcov as [[Es _] _].
    rewrite Es, Hg in Hok. by apply Z.eqb_neq.
  - apply Forall_forall. intros item [Hg Hin]%list_elem_of_filter.
    pose proof (proj1 (Forall_forall _ _) He item Hin) as Hok.
    pose proof (entry_generation _ _ gen Hok) as Eg. rewrite (proj2 (Z.eqb_neq _ _) Hg) in Eg.
    destruct Hok. constructor; try done; unfold matches in *; rewrite keep_context_at;
      unfold keep_context; by rewrite Eg.
Qed.

Lemma cancelGeneration_inv h s gen r s' :
  inv h s -> exec (CancelGeneration gen) s = (r, s') -> inv ((CancelGeneration gen, r) :: h) s'.
Proof.
  intros [Q Hid Hn Hso Ho Hh]. simpl. unfold cancelGeneration. pose proof Q as [Hl _ _].
  pose proof (live_count_bounds (contexts_ s)) as Hb. unfold kContexts in *.
  pose proof (cancel_contexts_spec gen (contexts_ s) (occupied_ s) 0
                ltac:(lia) ltac:(lia) ltac:(lia)) as C.
  destruct (cancel_contexts _ _ _ _) as [[cs' occ'] cancelled]. destruct C as (-> & -> & -> & C).
  destruct (filter_ids (fun item : Z * Pending => generation (p_tag item.2) <> gen) _ _ Hid Hso)
    as [? ?].
  intros [= <- <-]. constructor; simpl; try done; unfold kContexts; try lia.
  by apply cancel_queue.
Qed.

Lemma exec_inv h s c r s' :
  inv h s -> Z.of_nat (length h) + 2 < 2 ^ 64 -> call_ok s c -> exec c s = (r, s') ->
  inv ((c, r) :: h) s'.
Proof.
  intros I Hl Hc He. destruct c.
  - by apply (reserve_inv _ s).
  - by apply (submitSegment_inv _ s).
  - by apply (submitRow_inv _ s).
  - by apply (requestDrain_inv _ s).
  - by apply (progress_inv _ s).
  - by apply (release_inv _ s).
  - by apply (cancelGeneration_inv _ s).
Qed.

Lemma init_inv : inv [] init.
Proof.
  constructor; try done; [|constructor].
  constructor; [done| |done]. intros i Hi. unfold context_ok, init. cbn [contexts_].
  rewrite lookup_total_replicate_2 by (unfold kContexts in *; lia). done.
Qed.

Lemma run_inv h s : run h s -> Z.of_nat (length h) + 2 < 2 ^ 64 -> inv h s.
Proof.
  induction 1 as [|h s c r s' _ IH Hc He]; intros Hl; [apply init_inv|].
  simpl in Hl. apply (exec_inv _ s); try done; [apply IH|]; lia.
Qed.

(** ** Theorems on the accumulated values *)

(** In every reachable state, [progress] at cycle [now] retires exactly the
    queued operations whose ready cycle has come, in submission order, each of
    them with [ok] set (none is ever lost, refused or stale), and keeps the
    others queued. *)
Theorem progress_completes h s now out s' :
  run h s -> Z.of_nat (length h) + 2 < 2 ^ 64 -> progress now s = (out, s') ->
  c_id <$> out = (filter (fun item => due now item = true) (pending_ s)).*1 /\
  StronglySorted Z.lt (c_id <$> out) /\
  Forall (fun c => c_ok c = true) out /\
  pending_ s' = filter (fun item => due now item = false) (pending_ s).
Proof.
  intros R Hl. destruct (run_inv h s R Hl) as [Q Hid Hn Hso _ _]. unfold progress.
  pose proof (progress_loop_ok now (pending_ s) [] _ _ Q) as P.
  destruct (progress_loop _ _ _) as [[kept cs'] outs]. destruct P as (-> & _ & _ & Hf).
  intros [= <- <-].
  assert (c_id <$> outs = (filter (fun item => due now item = true) (pending_ s)).*1) as E.
  { assert (forall item, item ∈ filter (fun item => due now item = true) (pending_ s) ->
      p_id item.2 = item.1) as Hk.
    { intros item [_ Hin]%list_elem_of_filter.
      exact (eo_id _ _ (proj1 (Forall_forall _ _) (qo_entries _ _ _ Q) item Hin)). }
    revert Hk. induction Hf as [|item c ps cs C _ IH]; intros Hk; [done|].
    rewrite !fmap_cons, IH by (intros; apply Hk; by constructor).
    f_equal. destruct C as (-> & _). apply Hk. by constructor. }
  split_and!; [done| | |done].
  - rewrite E. by apply (filter_ids _ (nextId_ s)).
  - clear E. induction Hf as [|item c ps cs C _ IH]; constructor; [by destruct C as (_&_&_&_&?&_)|done].
Qed.

(** C2. The drained output is the attention recurrence, whatever the order and
    timing in which rows and segments were submitted: when a drain completes
    for a context reserved for [keyTiles] tiles, every segment has received
    exactly [keyTiles] contributions and every lane holds
    [fma alpha_n (... (fma alpha_1 v_0 v_1) ...) v_n]. *)
Theorem drain_is_fold h s now out s' c :
  run h s -> Z.of_nat (length h) + 2 < 2 ^ 64 -> progress now s = (out, s') ->
  c ∈ out -> c_drain c = true ->
  Z.of_nat (length (c_values c)) = kValuesPerContext /\
  forall seg lane, 0 <= seg < kSegments -> 0 <= lane < kValuesPerSegment ->
    Z.of_nat (length (contributions (c_slot c) seg h)) = keyTiles ((contexts_ s).[c_slot c]) /\
    (c_values c).[seg * kValuesPerSegment + lane] =
      accumulate lane (contributions (c_slot c) seg h).
Proof.
  intros R Hl. destruct (run_inv h s R Hl) as [Q _ _ _ _ _]. unfold progress.
  pose proof (progress_loop_ok now (pending_ s) [] _ _ Q) as P.
  destruct (progress_loop _ _ _) as [[kept cs'] outs]. destruct P as (_ & _ & _ & Hf).
  intros [= <- <-] Hin Hd. apply list_elem_of_lookup in Hin as [i Hi].
  destruct (Forall2_lookup_r _ _ _ _ _ Hf Hi) as (item & _ & (_&_&_&_&_&C)).
  by apply C.
Qed.

Lemma live_count_zero cs i :
  live_count cs = 0 -> 0 <= i < Z.of_nat (length cs) -> valid (cs.[i]) = false.
Proof.
  intros H0 Hi. pose proof (live_count_insert cs (Z.to_nat i) no_context ltac:(lia)) as H.
  pose proof (live_count_bounds (<[Z.to_nat i := no_context]> cs)).
  destruct (valid (cs.[i])); simpl in H; [lia|done].
Qed.

(** The occupancy counters are exact in every reachable state: [occupied]
    is the number of reserved contexts, never more than [highWater] nor four,
    and [drained] holds exactly when no context is reserved, so no operation
    outlives its context. *)
Theorem occupancy_exact h s :
  run h s -> Z.of_nat (length h) + 2 < 2 ^ 64 ->
  occupied s = live_count (contexts_ s) /\ 0 <= occupied s <= highWater s /\
  highWater s <= kContexts /\ (drained s = true <-> live_count (contexts_ s) = 0).
Proof.
  intros R Hl. destruct (run_inv h s R Hl) as [Q _ _ _ Ho Hh]. unfold occupied, highWater.
  pose proof (live_count_bounds (contexts_ s)). split_and!; try lia.
  unfold drained. rewrite <- Ho, andb_true_iff, Z.eqb_eq. split; [tauto|]. intros H0. split; [done|].
  destruct (pending_ s) as [|item ps]; [done|]. pose proof Q as [Hlen _ He].
  inversion He as [|? ? [_ Hs Hm _ _] _]; subst.
  destruct (queue_slot _ _ _ _ _ Q Hs Hm) as (Hlt & Hv & _).
  rewrite live_count_zero in Hv; done || lia.
Qed.

(** No entry of a slot is queued once all its tiles are committed, unless a
    drain is. *)
Lemma finished_entries cs ps G slot tg :
  queue_ok cs ps G -> 0 <= slot -> matches slot tg cs = true ->
  expectedKeyTile (cs.[slot]) = keyTiles (cs.[slot]) ->
  Forall (fun item => p_slot item.2 = slot -> p_drain item.2 = true) ps.
Proof.
  intros Q Hs Hm Ht. pose proof Q as [_ _ He]. apply Forall_forall. intros [k p] Hin Es.
  destruct (proj1 (Forall_forall _ _) He _ Hin) as [_ _ _ Hp _]. simpl in *.
  destruct (p_drain p) eqn:Hd; [done|]. specialize (Hp eq_refl). fold (placed p) in Hp.
  destruct (queue_slot _ _ _ _ _ Q Hs Hm) as (_ & _ & _ & [_ Lst _ _ Lseg Ll _]).
  destruct (placed_bounds p Hp) as [B1 B2]. pose proof (segments_of_bounds p).
  apply list_elem_of_split in Hin as (ps1 & ps2 & ->).
  assert (covers slot (first_segment p) p = true) as Hcov.
  { rewrite <- Es, covers_spec by done. apply bool_decide_true. lia. }
  destruct (covered_queued _ _ _ _ _ _ _ _ (Lseg (first_segment p) ltac:(lia)) Hcov) as (_ & H1 & _).
  pose proof (Forall_at _ _ (first_segment p) (Ll Ht) ltac:(lia)) as H0. simpl in H0. lia.
Qed.

Lemma keeps_matches cs cs' slot tg : keeps cs cs' -> matches slot tg cs' = matches slot tg cs.
Proof. intros [_ K]. unfold matches. by destruct (K slot) as (_ & -> & _ & ->). Qed.

Lemma count_committed_zero l : Forall (fun x => x = 0) l -> count_committed l = 0.
Proof.
  unfold count_committed. induction 1 as [|x l -> _ IH]; [done|].
  by rewrite filter_cons, decide_False.
Qed.

(** A context with no tile left accepts a drain, which is then its only entry. *)
Lemma drain_accepted h s slot tg now :
  inv h s -> 0 <= slot -> matches slot tg (contexts_ s) = true ->
  draining ((contexts_ s).[slot]) = false ->
  expectedKeyTile ((contexts_ s).[slot]) = keyTiles ((contexts_ s).[slot]) ->
  exists p s1, requestDrain slot tg now true s = (Some (nextId_ s, p_readyCycle p), s1) /\
    pending_ s1 = pending_ s ++ [(nextId_ s, p)] /\ p_drain p = true /\ p_id p = nextId_ s /\
    Forall (fun item => p_slot item.2 <> slot) (pending_ s) /\
    matches slot tg (contexts_ s1) = true /\ draining ((contexts_ s1).[slot]) = true.
Proof.
  intros [Q Hid _ _ _ _] Hs Hm Hd Ht. pose proof Q as [_ _ He].
  destruct (queue_slot _ _ _ _ _ Q Hs Hm) as (Hl & Hv & Htg & [_ _ _ [Lc _] _ Ll _]).
  assert (committedSegments ((contexts_ s).[slot]) = 0) as Hc0.
  { rewrite Lc. by apply count_committed_zero, Ll. }
  unfold requestDrain. rewrite Hm, Hd, Ht, Hc0, !Z.eqb_refl. cbn [negb orb].
  destruct (drain_reads _) as [ready p].
  eexists (mkPending _ ready _ _ _ _ _ _ _ _ _ _), _.
  split; [reflexivity|]. cbn [pending_ contexts_ set_field]. split_and!; [by apply emplace_last|done|done| | |].
  - pose proof (finished_entries _ _ _ _ _ Q Hs Hm Ht) as Hf. apply Forall_forall. intros item Hin Es.
    pose proof (proj1 (Forall_forall _ _) Hf item Hin Es) as Hdr.
    destruct (proj1 (Forall_forall _ _) He item Hin) as [_ _ _ _ Hdr']. rewrite Es in Hdr'.
    rewrite Hdr' in Hd; done.
  - by rewrite matches_update by (done || lia).
  - by rewrite list_lookup_total_insert_eq by lia.
Qed.

(** Once every tile of a context is committed its drain goes through: the
    request is accepted, [progress] at its ready cycle or later reports it,
    and the context can then be released. *)
Theorem drain_lifecycle h s slot tg now :
  run h s -> Z.of_nat (length h) + 3 < 2 ^ 64 -> 0 <= slot -> is_u64 now ->
  matches slot tg (contexts_ s) = true ->
  draining ((contexts_ s).[slot]) = false ->
  expectedKeyTile ((contexts_ s).[slot]) = keyTiles ((contexts_ s).[slot]) ->
  exists id ready s1, requestDrain slot tg now true s = (Some (id, ready), s1) /\
    forall later, ready <= later ->
      Exists (fun c => c_id c = id /\ c_drain c = true /\ c_ok c = true) (progress later s1).1 /\
      (release slot tg (progress later s1).2).1 = true.
Proof.
  intros R Hl Hs Hnow Hm Hd Ht. pose proof (run_inv h s R ltac:(lia)) as I.
  destruct (drain_accepted h s slot tg now I Hs Hm Hd Ht)
    as (p & s1 & E & Ep & Hdr & Hpid & Hfree & Hm1 & Hd1).
  exists (nextId_ s), (p_readyCycle p), s1. split; [done|]. intros later Hlater.
  assert (inv ((RequestDrain slot tg now true, RTicket (Some (nextId_ s, p_readyCycle p))) :: h) s1)
    as [Q1 _ _ _ _ _].
  { apply (exec_inv _ s); [done|lia|done|]. simpl. by rewrite E. }
  assert (due later (nextId_ s, p) = true) as Hdue by (unfold due; simpl; lia).
  unfold progress. pose proof (progress_loop_ok later (pending_ s1) [] _ _ Q1) as P.
  destruct (progress_loop _ _ _) as [[kept cs'] outs]. destruct P as (-> & _ & K & Hf). simpl. split.
  - rewrite Ep, filter_app, filter_cons, Hdue in Hf. simpl in Hf.
    apply Forall2_app_inv_l in Hf as (o1 & o2 & _ & Hf & ->).
    inversion Hf as [|? c ? ? (Hc & _ & _ & Hcd & Hok & _) _]; subst.
    apply Exists_app. right. constructor. simpl in *. split_and!; [congruence|congruence|done].
  - unfold release. cbn [contexts_ pending_ set_field].
    rewrite (keeps_matches _ _ slot tg K), Hm1. destruct K as [_ K].
    destruct (K slot) as (_ & _ & -> & _). rewrite Hd1. cbn [negb orb].
    destruct (hasPending _ _ _) eqn:Hp; [|done]. exfalso. unfold hasPending in Hp.
    apply existsb_exists in Hp as (item & Hin & Hc%andb_true_iff). destruct Hc as [Es%Z.eqb_eq _].
    apply list_elem_of_In, list_elem_of_filter in Hin as [Hnd Hin].
    rewrite Ep, elem_of_app, list_elem_of_singleton in Hin. destruct Hin as [Hin| ->]; [|congruence].
    by apply (proj1 (Forall_forall _ _) Hfree item Hin).
Qed.

Lemma covering_due slot seg now ps :
  Forall (fun item => p_slot item.2 = slot -> p_readyCycle item.2 <= now) ps ->
  covering slot seg (filter (fun item => due now item = false) ps) = [].
Proof.
  intros Hf. apply covering_nil, Forall_forall. intros item [Hd Hin]%list_elem_of_filter Es.
  pose proof (proj1 (Forall_forall _ _) Hf item Hin Es). unfold due in Hd. lia.
Qed.

Lemma Forall_all_at (P : Z -> Prop) (l : list Z) :
  (forall i, 0 <= i < Z.of_nat (length l) -> P (l.[i])) -> Forall P l.
Proof.
  intros H. apply Forall_lookup. intros i x Hi. pose proof (lookup_lt_Some _ _ _ Hi).
  specialize (H (Z.of_nat i) ltac:(lia)). rewrite Nat2Z.id in H.
  by rewrite (list_lookup_total_correct _ _ _ Hi) in H.
Qed.

Lemma count_committed_all l :
  Forall (fun x => x = 2) l -> count_committed l = Z.of_nat (length l).
Proof.
  unfold count_committed. induction 1 as [|x l -> _ IH]; [done|].
  rewrite filter_cons, decide_True by done. simpl. lia.
Qed.

(** A tile advances as soon as its last segment is written: if every
    segment of the current tile of a context has been submitted, then a
    [progress] that reaches the ready cycle of all its queued work moves the
    context to the next tile, with every segment free again. *)
Theorem tile_advances h s slot tg now :
  run h s -> Z.of_nat (length h) + 2 < 2 ^ 64 -> 0 <= slot ->
  matches slot tg (contexts_ s) = true ->
  (forall seg, 0 <= seg < kSegments -> (segmentState ((contexts_ s).[slot])).[seg] <> 0) ->
  Forall (fun item => p_slot item.2 = slot -> p_readyCycle item.2 <= now) (pending_ s) ->
  let c' := (contexts_ (progress now s).2).[slot] in
  expectedKeyTile c' = expectedKeyTile ((contexts_ s).[slot]) + 1 /\
  committedSegments c' = 0 /\
  forall seg, 0 <= seg < kSegments -> (segmentState c').[seg] = 0.
Proof.
  intros R Hl Hs Hm Hst Hdue. destruct (run_inv h s R Hl) as [Q _ _ _ _ _]. unfold progress.
  pose proof (progress_loop_ok now (pending_ s) [] _ _ Q) as P.
  destruct (progress_loop _ _ _) as [[kept cs'] outs]. destruct P as (-> & Q' & K & _).
  cbn [contexts_ set_field snd]. cbv zeta.
  destruct (queue_slot _ _ _ _ _ Q Hs Hm) as (_ & _ & _ & L).
  rewrite <- (keeps_matches _ _ _ _ K) in Hm.
  destruct (queue_slot _ _ _ _ _ Q' Hs Hm) as (_ & _ & _ & L').
  set (c := (contexts_ s).[slot]) in *. set (c' := cs'.[slot]) in *.
  assert (forall seg, 0 <= seg < kSegments ->
    Z.of_nat (length (contributions slot seg h)) = expectedKeyTile c + 1) as Hlen.
  { intros seg Hseg. specialize (Hst seg Hseg).
    destruct (lc_segments _ _ _ _ L seg Hseg) as [?|? ? cs0 _ _ _ -> Hn _|]; [done| |done].
    rewrite length_app. simpl. lia. }
  assert (forall seg, 0 <= seg < kSegments ->
    (segmentState c').[seg] = 0 /\ expectedKeyTile c' = expectedKeyTile c + 1 \/
    (segmentState c').[seg] = 2 /\ expectedKeyTile c' = expectedKeyTile c) as Hseg'.
  { intros seg Hseg. specialize (Hlen seg Hseg).
    pose proof (lc_segments _ _ _ _ L' seg Hseg) as St. rewrite app_nil_l, covering_due in St by done.
    destruct St as [? _ ? _|k p cs0 _ Hq|? _ ? _]; [left; lia|done|right; lia]. }
  destruct L' as [_ Lst' _ [Lc' Hc'] _ _ _].
  destruct (Hseg' 0 ltac:(done)) as [[_ He]|[_ He]].
  - assert (Forall (fun x => x = 0) (segmentState c')) as H0.
    { apply Forall_all_at. intros seg Hseg. destruct (Hseg' seg ltac:(lia)) as [[? _]|[_ ?]]; [done|lia]. }
    split_and!; [done|by rewrite Lc', count_committed_zero|].
    intros seg Hseg. apply (Forall_at (fun x => x = 0)); [done|lia].
  - exfalso. assert (count_committed (segmentState c') = Z.of_nat (length (segmentState c'))); [|lia].
    apply count_committed_all, Forall_all_at.
    intros seg Hseg. destruct (Hseg' seg ltac:(lia)) as [[_ ?]|[? _]]; [lia|done].
Qed.

(** ** The shared ports *)

(** A port that has served unit intervals, all over by cycle [next]; [n] is
    their number. *)
Record port_ok (iv : BusyIntervalUnion.t) (next n : Z) : Prop := {
  po_next : 0 <= next;
  po_start : BusyIntervalUnion.lastStart_ iv <= next;
  po_merged : BusyIntervalUnion.mergedEnd_ iv <= next;
  po_active : Forall (fun e => e <= next) (BusyIntervalUnion.activeEnds_ iv);
  po_exclusive : BusyIntervalUnion.maxConcurrency iv <= 1;
  po_union : BusyIntervalUnion.unionCycles iv = u64 n;
  po_operations : BusyIntervalUnion.operations iv = u64 n;
  po_empty : BusyIntervalUnion.hasInterval_ iv = false -> u64 n = 0
}.

Lemma pop_expired_all start q :
  Forall (fun e => e <= start) q -> BusyIntervalUnion.pop_expired start q = [].
Proof. induction 1 as [|e q He _ IH]; simpl; [done|]. by rewrite (proj2 (Z.leb_le _ _) He). Qed.

Ltac unfold_port :=
  unfold BusyIntervalUnion.maxConcurrency, BusyIntervalUnion.unionCycles,
    BusyIntervalUnion.operations; simpl.

Lemma port_add iv next n start :
  port_ok iv next n -> next <= start -> start + 1 < 2 ^ 64 ->
  let '(ok, iv') := BusyIntervalUnion.add start (start ⊞ 1) iv in
  ok = true /\ port_ok iv' (start + 1) (n + 1).
Proof.
  intros [Hn Hs Hm Ha Hx Hu Ho He] Hle Hlt. rewrite u64_small by (unfold is_u64; lia).
  assert (forall a, a = u64 n -> u64 (a + 1) = u64 (n + 1)) as H1.
  { intros a ->. apply u64_add_l. }
  assert (u64 (start + 1 - start) = 1) as E1.
  { replace (start + 1 - start) with 1 by lia. reflexivity. }
  unfold BusyIntervalUnion.add.
  rewrite pop_expired_all by (eapply Forall_impl; [exact Ha|]; simpl; lia).
  destruct iv as [hi fs ls me le uc ic mc op ae]. simpl in *. clear Ha.
  unfold BusyIntervalUnion.maxConcurrency, BusyIntervalUnion.unionCycles,
    BusyIntervalUnion.operations in *. simpl in *.
  rewrite (proj2 (Z.leb_gt (start + 1) start)), (proj2 (Z.ltb_ge start ls)), andb_false_r by lia.
  cbn [orb]. split; [reflexivity|].
  destruct hi; simpl.
  - destruct (Z.leb_spec start me) as [Hle'|Hgt].
    + rewrite (proj2 (Z.ltb_lt me _)) by lia. replace me with start by lia. rewrite E1.
      constructor; unfold_port; auto; try lia; try discriminate;
        apply Forall_singleton; lia.
    + rewrite E1. constructor; unfold_port; auto; try lia; try discriminate;
        apply Forall_singleton; lia.
  - specialize (He eq_refl). assert (u64 (n + 1) = 1) as E2.
    { rewrite <- u64_add_l, He. reflexivity. }
    rewrite E1. constructor; unfold_port; auto; try lia; try discriminate;
        apply Forall_singleton; lia.
Qed.

(** All the ports, no booking later than [B]; the three counts are the
    operations each port has served. *)
Record ports_ok (B nr nw na : Z) (p : Ports) : Prop := {
  ps_read : port_ok (readIntervals_ p) (nextReadCycle_ p) nr;
  ps_write : port_ok (writeIntervals_ p) (nextWriteCycle_ p) nw;
  ps_alu : port_ok (aluIntervals_ p) (nextAluCycle_ p) na;
  ps_next : nextReadCycle_ p <= B /\ nextWriteCycle_ p <= B /\ nextAluCycle_ p <= B;
  ps_banks : Forall (fun c => 0 <= c <= B) (bankReadyCycle_ p) /\
             Z.of_nat (length (bankReadyCycle_ p)) = kRows;
  ps_order : intervalOrderValid_ p = true
}.

Lemma use_read_ok B nr nw na p start :
  ports_ok B nr nw na p -> nextReadCycle_ p <= start -> start + 1 < 2 ^ 64 -> start + 1 <= B ->
  let p' := use_read start p in
  ports_ok B (nr + 1) nw na p' /\ nextAluCycle_ p' = nextAluCycle_ p /\
  nextWriteCycle_ p' = nextWriteCycle_ p /\ bankReadyCycle_ p' = bankReadyCycle_ p.
Proof.
  intros [R W A Nx Bk Or] Hn Hs HB. unfold use_read.
  pose proof (port_add _ _ _ start R Hn Hs) as P. destruct (BusyIntervalUnion.add _ _ _) as [ok iv].
  destruct P as [-> P]. cbv zeta. split; [|done].
  constructor; simpl; rewrite ?u64_small by (unfold is_u64; destruct R; lia); try done; lia.
Qed.

Lemma use_alu_ok B nr nw na p start :
  ports_ok B nr nw na p -> nextAluCycle_ p <= start -> start + 1 < 2 ^ 64 -> start + 1 <= B ->
  let p' := use_alu start p in
  ports_ok B nr nw (na + 1) p' /\ nextReadCycle_ p' = nextReadCycle_ p /\
  nextWriteCycle_ p' = nextWriteCycle_ p /\ bankReadyCycle_ p' = bankReadyCycle_ p.
Proof.
  intros [R W A Nx Bk Or] Hn Hs HB. unfold use_alu.
  pose proof (port_add _ _ _ start A Hn Hs) as P. destruct (BusyIntervalUnion.add _ _ _) as [ok iv].
  destruct P as [-> P]. cbv zeta. split; [|done].
  constructor; simpl; rewrite ?u64_small by (unfold is_u64; destruct A; lia); try done; lia.
Qed.

Lemma use_write_ok B nr nw na p start :
  ports_ok B nr nw na p -> nextWriteCycle_ p <= start -> start + 1 < 2 ^ 64 -> start + 1 <= B ->
  let p' := use_write start p in
  ports_ok B nr (nw + 1) na p' /\ nextWriteCycle_ p' = start + 1 /\
  bankReadyCycle_ p' = bankReadyCycle_ p.
Proof.
  intros [R W A Nx Bk Or] Hn Hs HB. unfold use_write.
  pose proof (port_add _ _ _ start W Hn Hs) as P. destruct (BusyIntervalUnion.add _ _ _) as [ok iv].
  destruct P as [-> P]. cbv zeta.
  assert (u64 (start + 1) = start + 1) as E by (apply u64_small; unfold is_u64; destruct W; lia).
  split; [|simpl; by rewrite E]. constructor; simpl; rewrite ?E; try done; lia.
Qed.

Lemma ports_ok_mono B B' nr nw na p : ports_ok B nr nw na p -> B <= B' -> ports_ok B' nr nw na p.
Proof.
  intros [R W A Nx Bk Or] HB. constructor; try done; [lia|].
  destruct Bk as [Bk Hl]. split; [|done]. apply (Forall_impl _ _ _ Bk). simpl. lia.
Qed.

(** The counters of waiting cycles play no part. *)
Lemma ports_ok_ext B nr nw na p p' :
  ports_ok B nr nw na p ->
  readIntervals_ p' = readIntervals_ p -> writeIntervals_ p' = writeIntervals_ p ->
  aluIntervals_ p' = aluIntervals_ p -> nextReadCycle_ p' = nextReadCycle_ p ->
  nextWriteCycle_ p' = nextWriteCycle_ p -> nextAluCycle_ p' = nextAluCycle_ p ->
  bankReadyCycle_ p' = bankReadyCycle_ p -> intervalOrderValid_ p' = intervalOrderValid_ p ->
  ports_ok B nr nw na p'.
Proof. intros [R W A Nx Bk Or] E1 E2 E3 E4 E5 E6 E7 E8. constructor; congruence. Qed.

Lemma bank_update B nr nw na p row c :
  ports_ok B nr nw na p -> 0 <= c <= B ->
  ports_ok B nr nw na (p <| bankReadyCycle_ := (bankReadyCycle_ p).[row := c] |>).
Proof. intros [R W A Nx [Bk Hl] Or] Hc. constructor; try done. simpl. rewrite length_insert.
  split; [by apply Forall_insert|done]. Qed.

Ltac same_ports H := apply (ports_ok_ext _ _ _ _ _ _ H); reflexivity.

(** The write back that ends every submission. *)
Lemma write_back B nr nw na p row cursor :
  ports_ok B nr nw na p -> 0 <= cursor < B -> nextWriteCycle_ p < B -> B < 2 ^ 64 ->
  let writeStart := Z.max cursor (nextWriteCycle_ p) in
  let p1 := p <| writeWaitCycles_ := writeWaitCycles_ p ⊞ (writeStart ⊟ cursor) |> in
  let p2 := use_write writeStart p1 in
  let p' := p2 <| bankReadyCycle_ := (bankReadyCycle_ p2).[row := writeStart ⊞ 1] |> in
  ports_ok B nr (nw + 1) na p' /\ writeStart ⊞ 1 = writeStart + 1 /\
  nextWriteCycle_ p' = writeStart + 1.
Proof.
  intros P Hc Hn HB. cbv zeta. set (writeStart := Z.max cursor (nextWriteCycle_ p)).
  assert (u64 (writeStart + 1) = writeStart + 1) as E by (apply u64_small; unfold is_u64; lia).
  set (p1 := p <| writeWaitCycles_ := _ |>).
  assert (ports_ok B nr nw na p1) as P1 by same_ports P.
  destruct (use_write_ok B nr nw na p1 writeStart P1) as (P2 & Hw & Hb); [unfold p1; simpl; lia|lia|lia|].
  split_and!; [|done|done]. apply bank_update; [done|]. lia.
Qed.

Lemma schedule_ok B nr nw na p kv row cursor scales :
  ports_ok B nr nw na p -> 0 <= cursor <= B -> B + 5 < 2 ^ 64 ->
  let '(ready, p') := schedule kv row cursor scales p in
  ports_ok (B + 4) (nr + (if kv =? 0 then 0 else 1)) (nw + 1) (na + 1) p' /\
  cursor + (if kv =? 0 then 3 else 4) <= ready <= B + 4 /\
  nextWriteCycle_ p < ready /\ nextWriteCycle_ p' = ready.
Proof.
  intros P Hc HB. pose proof (ps_next _ _ _ _ _ P) as (Nr & Nw & Na).
  pose proof (po_next _ _ _ (ps_read _ _ _ _ _ P)).
  pose proof (po_next _ _ _ (ps_alu _ _ _ _ _ P)).
  apply ports_ok_mono with (B' := B + 4) in P as P0; [|lia]. unfold schedule.
  destruct (Z.eqb_spec kv 0) as [->|Hkv]; cbn [negb].
  - rewrite Z.add_0_r. set (issue := Z.max cursor (nextAluCycle_ p)).
    set (p1 := p <| aluWaitCycles_ := _ |>).
    assert (ports_ok (B + 4) nr nw na p1) as P1 by same_ports P0.
    destruct (use_alu_ok (B + 4) nr nw na p1 issue P1) as (P2 & _ & Hw & _);
      [unfold p1; simpl; lia|lia|lia|].
    change (nextWriteCycle_ p1) with (nextWriteCycle_ p) in Hw.
    set (p2 := use_alu issue p1) in *.
    rewrite (u64_small (issue + 2)) by (unfold is_u64; lia).
    destruct (write_back (B + 4) nr nw (na + 1) p2 row (issue + 2) P2) as (P3 & Ew & Hw'); [lia..|].
    split; [done|]. rewrite Hw', Ew, Hw. lia.
  - set (start := Z.max cursor (nextReadCycle_ p)).
    set (p1 := p <| readWaitCycles_ := _ |>).
    assert (ports_ok (B + 4) nr nw na p1) as P1 by same_ports P0.
    destruct (use_read_ok (B + 4) nr nw na p1 start P1) as (P2 & Ha & Hw & _);
      [unfold p1; simpl; lia|lia|lia|].
    change (nextWriteCycle_ p1) with (nextWriteCycle_ p) in Hw.
    change (nextAluCycle_ p1) with (nextAluCycle_ p) in Ha.
    set (p2 := use_read start p1) in *.
    rewrite (u64_small (start + 1)) by (unfold is_u64; lia).
    set (issue := Z.max (start + 1) (nextAluCycle_ p2)). set (p3 := p2 <| aluWaitCycles_ := _ |>).
    assert (ports_ok (B + 4) (nr + 1) nw na p3) as P3 by same_ports P2.
    destruct (use_alu_ok (B + 4) (nr + 1) nw na p3 issue P3) as (P4 & _ & Hw' & _);
      [unfold p3; simpl; lia|lia|lia|].
    change (nextWriteCycle_ p3) with (nextWriteCycle_ p2) in Hw'.
    set (p4 := use_alu issue p3) in *. set (p5 := p4 <| scaleOperations_ := _ |>).
    assert (ports_ok (B + 4) (nr + 1) nw (na + 1) p5) as P5 by same_ports P4.
    change (nextWriteCycle_ p4) with (nextWriteCycle_ p5) in Hw'.
    rewrite (u64_small (issue + 2)) by (unfold is_u64; lia).
    destruct (write_back (B + 4) (nr + 1) nw (na + 1) p5 row (issue + 2) P5) as (P6 & Ew & Hw''); [lia..|].
    split; [done|]. rewrite Hw'', Ew, Hw', Hw. lia.
Qed.

(** *** Drains *)

Lemma drain_read_ok B nr nw na row st :
  ports_ok B nr nw na st.2 -> 0 <= st.1 <= B -> 0 <= row < kRows -> B + 1 < 2 ^ 64 ->
  let st' := drain_read row st in
  ports_ok (B + 1) (nr + 1) nw na st'.2 /\ st.1 < st'.1 <= B + 1.
Proof.
  destruct st as [cursor p]. cbn [fst snd]. intros P Hc Hr HB. unfold drain_read.
  pose proof (ps_next _ _ _ _ _ P) as (Nr & Nw & Na). destruct (ps_banks _ _ _ _ _ P) as [Bk Hl].
  pose proof (Forall_at _ _ row Bk ltac:(lia)) as Hb. simpl in Hb.
  apply ports_ok_mono with (B' := B + 1) in P as P0; [|lia].
  set (start := Z.max _ _). set (p1 := p <| drainWaitCycles_ := _ |>).
  assert (ports_ok (B + 1) nr nw na p1) as P1 by same_ports P0.
  destruct (use_read_ok (B + 1) nr nw na p1 start P1) as (P2 & _); [unfold p1; simpl; lia|lia|lia|].
  cbn [fst snd]. rewrite u64_small by (unfold is_u64; lia). split; [|lia].
  apply bank_update; [done|lia].
Qed.

Lemma drain_loop_ok {A} (l : list A) (f : Z * Ports -> A -> Z * Ports) k nw na :
  0 <= k ->
  (forall x B nr st, x ∈ l -> ports_ok B nr nw na st.2 -> 0 <= st.1 <= B -> B + k < 2 ^ 64 ->
     ports_ok (B + k) (nr + k) nw na (f st x).2 /\ st.1 <= (f st x).1 <= B + k) ->
  forall B nr st, ports_ok B nr nw na st.2 -> 0 <= st.1 <= B ->
    B + k * Z.of_nat (length l) < 2 ^ 64 ->
    let st' := foldl f st l in
    ports_ok (B + k * Z.of_nat (length l)) (nr + k * Z.of_nat (length l)) nw na st'.2 /\
    st.1 <= st'.1 <= B + k * Z.of_nat (length l).
Proof.
  intros Hk. induction l as [|x l IH]; intros Hf B nr st P Hc HB; cbn [foldl length].
  { rewrite !Z.mul_0_r, !Z.add_0_r. split; [done|lia]. }
  cbn [length] in HB. rewrite Nat2Z.inj_succ in HB.
  destruct (Hf x B nr st) as [P1 Hc1]; [constructor|done|done|nia|].
  destruct (IH ltac:(intros; apply Hf; [by constructor|done..]) (B + k) (nr + k) (f st x))
    as [P2 Hc2]; [done|lia|nia|].
  replace (k * Z.of_nat (S (length l))) with (k + k * Z.of_nat (length l)) by nia.
  rewrite !Z.add_assoc. split; [done|lia].
Qed.

Lemma drain_reads_ok B nr nw na st :
  ports_ok B nr nw na st.2 -> 0 <= st.1 <= B -> B + kSegments < 2 ^ 64 ->
  let st' := drain_reads st in
  ports_ok (B + kSegments) (nr + kSegments) nw na st'.2 /\ st.1 <= st'.1 <= B + kSegments.
Proof.
  intros P Hc HB. change kSegments with (8 * Z.of_nat (length (seq 0 (Z.to_nat kRows)))) in *.
  apply drain_loop_ok; [lia| |done..].
  intros row B' nr' st' Hin%elem_of_seq P' Hc' HB'.
  change 8 with (1 * Z.of_nat (length (seq 0 (Z.to_nat kPanels)))) in HB' |- *.
  apply drain_loop_ok; [lia| |done..].
  intros _ B2 nr2 st2 _ P2 Hc2 HB2.
  destruct (drain_read_ok B2 nr2 nw na (Z.of_nat row) st2 P2 Hc2) as [P3 ?].
  { unfold kRows in *. lia. } { lia. }
  split; [done|lia].
Qed.

(** *** Histories *)

(** No booking of a history lies past its horizon. *)
Fixpoint horizon (h : list (call * result)) : Z :=
  match h with
  | [] => 0
  | (SubmitSegment _ _ _ _ _ _ _ now _, _) :: h
  | (SubmitRow _ _ _ _ _ _ now _, _) :: h
  | (RequestDrain _ _ now _, _) :: h => Z.max now (horizon h) + kSegments
  | _ :: h => horizon h
  end.

(** The port cycles an accepted call needs. *)
Definition reads_of (cr : call * result) : Z :=
  match cr with
  | (SubmitSegment _ _ kv _ _ _ _ _ _, RTicket (Some _))
  | (SubmitRow _ _ kv _ _ _ _ _, RTicket (Some _)) => if kv =? 0 then 0 else 1
  | (RequestDrain _ _ _ _, RTicket (Some _)) => kSegments
  | _ => 0
  end.
Definition writes_of (cr : call * result) : Z :=
  match cr with
  | (SubmitSegment _ _ _ _ _ _ _ _ _, RTicket (Some _))
  | (SubmitRow _ _ _ _ _ _ _ _, RTicket (Some _)) => 1
  | _ => 0
  end.
Fixpoint total (f : call * result -> Z) (h : list (call * result)) : Z :=
  match h with [] => 0 | cr :: h => total f h + f cr end.

Lemma horizon_nonneg h : 0 <= horizon h.
Proof. induction h as [|[[] ?] h IH]; simpl; unfold kSegments, kRows, kPanels; lia. Qed.

Definition ports_inv (h : list (call * result)) (s : t) : Prop :=
  ports_ok (horizon h) (total reads_of h) (total writes_of h) (total writes_of h) (ports_ s).

Lemma ports_inv_skip h s s' c r :
  ports_inv h s -> ports_ s' = ports_ s -> reads_of (c, r) = 0 -> writes_of (c, r) = 0 ->
  horizon h <= horizon ((c, r) :: h) -> ports_inv ((c, r) :: h) s'.
Proof.
  unfold ports_inv. intros P E Er Ew Hh. cbn [total]. rewrite Er, Ew, !Z.add_0_r, E.
  by apply (ports_ok_mono (horizon h)).
Qed.

(** The bank conflict counter and the start of a submission. *)
Lemma bank_cursor h s row now :
  ports_inv h s -> is_u64 now -> 0 <= row < kRows ->
  let B := Z.max now (horizon h) in
  ports_ok B (total reads_of h) (total writes_of h) (total writes_of h) (ports_ s) /\
  now <= Z.max now ((bankReadyCycle_ (ports_ s)).[row]) <= B.
Proof.
  intros P Hn Hr B. split; [apply (ports_ok_mono _ B) in P; [done|lia]|].
  destruct (ps_banks _ _ _ _ _ P) as [Bk Hl].
  pose proof (Forall_at _ _ row Bk ltac:(lia)) as Hb. simpl in Hb. lia.
Qed.

Lemma submitSegment_ports h s slot tg kv row panel alpha vals now outputs r s' :
  let c := SubmitSegment slot tg kv row panel alpha vals now outputs in
  ports_inv h s -> call_ok s c -> exec c s = (r, s') -> horizon ((c, r) :: h) < 2 ^ 64 ->
  ports_inv ((c, r) :: h) s' /\
  (forall id ready, r = RTicket (Some (id, ready)) ->
     now + (if kv =? 0 then 3 else 4) <= ready /\
     nextWriteCycle_ (ports_ s) < ready /\ nextWriteCycle_ (ports_ s') = ready).
Proof.
  intros c P (Hs & Hr & Hp & Hnow & _). unfold c, exec, submitSegment.
  assert (horizon h <= horizon ((c, r) :: h)) as Hh by (simpl; unfold kSegments, kRows, kPanels; lia).
  destruct (_ || negb outputs) eqn:Hg; [intros [= <- <-] _; split; [by apply (ports_inv_skip h s)|done]|].
  rewrite !orb_false_iff, !negb_false_iff in Hg. destruct Hg as [[[[[_ Hrow] _] _] _] _].
  destruct (_ || _); [intros [= <- <-] _; split; [by apply (ports_inv_skip h s)|done]|].
  destruct (bank_cursor h s row now P Hnow ltac:(lia)) as [P1 Hc].
  cbv zeta. set (cursor := Z.max now ((bankReadyCycle_ (ports_ s)).[row])) in *. set (p1 := (ports_ s) <| bankConflictCycles_ := _ |>).
  assert (ports_ok (Z.max now (horizon h)) (total reads_of h) (total writes_of h)
            (total writes_of h) p1) as P2 by same_ports P1.
  intros Heq Hlt. cbn [horizon] in Hlt. change kSegments with 128 in Hlt.
  unfold is_u64 in Hnow.
  pose proof (schedule_ok _ _ _ _ p1 kv row cursor 1 P2 ltac:(lia) ltac:(lia)) as Sch.
  destruct (schedule _ _ _ _ _) as [ready p]. destruct Sch as (P3 & Hrd & Hw & Hw').
  injection Heq as <- <-. split.
  - unfold ports_inv. cbn [horizon total reads_of writes_of ports_ set_field].
    apply (ports_ok_mono _ _ _ _ _ _ P3). unfold kSegments, kRows, kPanels. lia.
  - intros id' ready' [= <- <-]. cbn [ports_ set_field]. split_and!; [lia|done|done].
Qed.

Lemma submitRow_ports h s slot tg kv row alpha vals now outputs r s' :
  let c := SubmitRow slot tg kv row alpha vals now outputs in
  ports_inv h s -> call_ok s c -> exec c s = (r, s') -> horizon ((c, r) :: h) < 2 ^ 64 ->
  ports_inv ((c, r) :: h) s' /\
  (forall id ready, r = RTicket (Some (id, ready)) ->
     now + (if kv =? 0 then 3 else 4) <= ready /\
     nextWriteCycle_ (ports_ s) < ready /\ nextWriteCycle_ (ports_ s') = ready).
Proof.
  intros c P (Hs & Hr & Hnow & _). unfold c, exec, submitRow.
  assert (horizon h <= horizon ((c, r) :: h)) as Hh by (simpl; unfold kSegments, kRows, kPanels; lia).
  destruct (_ || negb outputs) eqn:Hg; [intros [= <- <-] _; split; [by apply (ports_inv_skip h s)|done]|].
  rewrite !orb_false_iff, !negb_false_iff in Hg. destruct Hg as [[[[_ Hrow] _] _] _].
  destruct (_ || _); [intros [= <- <-] _; split; [by apply (ports_inv_skip h s)|done]|].
  destruct (bank_cursor h s row now P Hnow ltac:(lia)) as [P1 Hc].
  cbv zeta. set (cursor := Z.max now ((bankReadyCycle_ (ports_ s)).[row])) in *.
  intros Heq Hlt. cbn [horizon] in Hlt. change kSegments with 128 in Hlt.
  unfold is_u64 in Hnow.
  pose proof (schedule_ok _ _ _ _ (ports_ s) kv row cursor kPanels P1 ltac:(lia) ltac:(lia)) as Sch.
  destruct (schedule _ _ _ _ _) as [ready p]. destruct Sch as (P3 & Hrd & Hw & Hw').
  injection Heq as <- <-. split.
  - unfold ports_inv. cbn [horizon total reads_of writes_of ports_ set_field].
    apply (ports_ok_mono _ _ _ _ _ _ P3). unfold kSegments, kRows, kPanels. lia.
  - intros id' ready' [= <- <-]. cbn [ports_ set_field]. split_and!; [lia|done|done].
Qed.

Lemma requestDrain_ports h s slot tg now outputs r s' :
  let c := RequestDrain slot tg now outputs in
  ports_inv h s -> call_ok s c -> exec c s = (r, s') -> horizon ((c, r) :: h) < 2 ^ 64 ->
  ports_inv ((c, r) :: h) s'.
Proof.
  intros c P (Hs & Hnow). unfold c, exec, requestDrain.
  assert (horizon h <= horizon ((c, r) :: h)) as Hh by (simpl; unfold kSegments, kRows, kPanels; lia).
  destruct (_ || negb outputs); [intros [= <- <-] _; by apply (ports_inv_skip h s)|].
  destruct (_ || _); [intros [= <- <-] _; by apply (ports_inv_skip h s)|].
  intros Heq Hlt. cbn [horizon] in Hlt. unfold is_u64 in Hnow.
  apply (ports_ok_mono _ (Z.max now (horizon h))) in P; [|lia].
  destruct (drain_reads_ok _ _ _ _ (now, ports_ s) P ltac:(simpl; lia) Hlt) as [P1 _].
  destruct (drain_reads _) as [cursor p]. injection Heq as <- <-.
  unfold ports_inv. cbn [horizon total reads_of writes_of ports_ set_field].
  by rewrite Z.add_0_r.
Qed.

Lemma init_ports_ok : ports_inv [] init.
Proof.
  assert (port_ok BusyIntervalUnion.init 0 0) as P by (constructor; simpl; done).
  constructor; try done. split; [|done]. apply Forall_replicate. simpl. lia.
Qed.

Lemma run_ports h s : run h s -> horizon h < 2 ^ 64 -> ports_inv h s.
Proof.
  induction 1 as [|h s c r s' _ IH Hc He]; intros Hl; [apply init_ports_ok|].
  assert (horizon h <= horizon ((c, r) :: h)) as Hh.
  { pose proof (horizon_nonneg h). destruct c; simpl; unfold kSegments, kRows, kPanels; lia. }
  specialize (IH ltac:(lia)).
  destruct c; [|by eapply submitSegment_ports|by eapply submitRow_ports|by eapply requestDrain_ports|..];
    apply (ports_inv_skip h s); try done; simpl in He;
    unfold reserve, progress, release, cancelGeneration in He;
    repeat case_match; by simplify_eq.
Qed.

(** The ports are exclusive: as long as no cycle count overflows, no two
    operations ever hold the read, write or arithmetic port in the same cycle,
    the interval counters never see an out-of-order interval, and each port
    has been busy exactly one cycle per operation that needs it: one write and
    one arithmetic cycle per accepted submission, one read per submission
    after the first tile and 128 per drain. *)
Theorem ports_exclusive h s :
  run h s -> horizon h < 2 ^ 64 ->
  intervalOrderValid s = true /\
  readMaxConcurrency s <= 1 /\ writeMaxConcurrency s <= 1 /\ aluMaxConcurrency s <= 1 /\
  readBusyCycles s = u64 (total reads_of h) /\
  writeBusyCycles s = u64 (total writes_of h) /\ aluBusyCycles s = u64 (total writes_of h).
Proof.
  intros R Hl. destruct (run_ports h s R Hl) as [[] [] [] _ _ Ho].
  unfold intervalOrderValid, readMaxConcurrency, writeMaxConcurrency, aluMaxConcurrency,
    readBusyCycles, writeBusyCycles, aluBusyCycles. by split_and!.
Qed.

(** The latency of a submission: its result is written at least three
    cycles after [now] (four when a previous tile has to be read back), later
    than every earlier write, so ready cycles strictly increase with ids. *)
Theorem submission_latency h s c r s' id ready :
  run h s -> call_ok s c -> exec c s = (r, s') -> horizon ((c, r) :: h) < 2 ^ 64 ->
  r = RTicket (Some (id, ready)) -> writes_of (c, r) = 1 ->
  match c with
  | SubmitSegment _ _ kv _ _ _ _ now _ | SubmitRow _ _ kv _ _ _ now _ =>
      now + (if kv =? 0 then 3 else 4) <= ready
  | _ => False
  end /\
  nextWriteCycle_ (ports_ s) < ready /\ nextWriteCycle_ (ports_ s') = ready.
Proof.
  intros R Hc He Hl Hr Hw.
  assert (horizon h <= horizon ((c, r) :: h)) as Hh.
  { pose proof (horizon_nonneg h). destruct c; simpl; unfold kSegments, kRows, kPanels; lia. }
  pose proof (run_ports h s R ltac:(lia)) as P.
  destruct c; try (subst r; discriminate Hw).
  - eapply submitSegment_ports; eauto.
  - eapply submitRow_ports; eauto.
Qed.

(** ** A worked example: two key tiles of one context *)

Definition call_okb (s : t) (c : call) : bool :=
  let in_range slot tg kv :=
    negb (matches slot tg (contexts_ s)) || (kv <? keyTiles ((contexts_ s).[slot])) in
  let u64b x := (0 <=? x) && (x <? 2 ^ 64) in
  match c with
  | Reserve slot _ tiles => (0 <=? slot) && ((0 <=? tiles) && (tiles <? 2 ^ 32))
  | SubmitSegment slot tg kv row panel _ _ now _ =>
      (0 <=? slot) && (0 <=? row) && (0 <=? panel) && u64b now && in_range slot tg kv
  | SubmitRow slot tg kv row _ _ now _ =>
      (0 <=? slot) && (0 <=? row) && u64b now && in_range slot tg kv
  | RequestDrain slot _ now _ => (0 <=? slot) && u64b now
  | Progress _ | CancelGeneration _ => true
  | Release slot _ => 0 <=? slot
  end.

Lemma call_okb_ok s c : call_okb s c = true -> call_ok s c.
Proof.
  unfold call_okb, call_ok, tile_in_range, is_u64, is_u32. destruct c; try done; intros H;
    rewrite ?andb_true_iff, ?orb_true_iff, ?negb_true_iff, ?Z.leb_le, ?Z.ltb_lt in H;
    repeat match goal with H : _ /\ _ |- _ => destruct H end; repeat apply conj; try done; try lia;
    intros Hm; rewrite Hm in *;
    match goal with H : _ = false \/ _ |- _ => by destruct H end.
Qed.

Fixpoint calls (cs : list call) (h : list (call * result)) (s : t) : list (call * result) * t :=
  match cs with
  | [] => (h, s)
  | c :: cs => let '(r, s') := exec c s in calls cs ((c, r) :: h) s'
  end.
Fixpoint calls_okb (cs : list call) (s : t) : bool :=
  match cs with
  | [] => true
  | c :: cs => call_okb s c && calls_okb cs (exec c s).2
  end.

Lemma calls_run cs : forall h s,
  run h s -> calls_okb cs s = true -> run (calls cs h s).1 (calls cs h s).2.
Proof.
  induction cs as [|c cs IH]; intros h s R Hok; [done|]. simpl in *.
  apply andb_true_iff in Hok as [Hc Hcs]. destruct (exec c s) as [r s'] eqn:E.
  apply IH; [|done]. econstructor; [done|by apply call_okb_ok|done].
Qed.

Definition demo_tag : AttentionClusterTag := mkTag 7 0 0 0 0 0 0.
Definition demo_rows (kv : Z) (alpha v : float) (now : Z) : list call :=
  (fun row => SubmitRow 1 demo_tag kv (Z.of_nat row) alpha
                (replicate (Z.to_nat kRowFmaLanes) v) now true) <$> seq 0 (Z.to_nat kRows).
Definition demo_tiles : list call :=
  Reserve 1 demo_tag 2 :: demo_rows 0 float_one (of_Z 1) 0 ++ [Progress 100] ++
  demo_rows 1 (of_Z 2) (of_Z 3) 100.
Definition demo_calls : list call :=
  demo_tiles ++ [Progress 300; RequestDrain 1 demo_tag 300 true].
Definition demo0 := calls demo_tiles [] init.
Definition demo1 := calls (demo_tiles ++ [Progress 300]) [] init.
Definition demo2 := calls demo_calls [] init.

Lemma demo_runs : run demo0.1 demo0.2 /\ run demo1.1 demo1.2 /\ run demo2.1 demo2.2.
Proof. split_and!; (apply calls_run; [constructor|vm_compute; reflexivity]). Qed.

Lemma progress_completes_witness :
  Forall (fun c => c_ok c = true) (progress 120 demo0.2).1 /\ length (progress 120 demo0.2).1 = 16%nat.
Proof.
  split; [|vm_compute; reflexivity].
  destruct demo_runs as (R & _).
  by apply (progress_completes demo0.1 demo0.2 120 (progress 120 demo0.2).1
                (progress 120 demo0.2).2 R);
    [vm_compute|apply surjective_pairing].
Defined.

Lemma drain_is_fold_witness :
  Forall (fun c => c_drain c = true -> (c_values c).[77] = of_Z 5) (progress 900 demo2.2).1 /\
  map c_drain (progress 900 demo2.2).1 = [true].
Proof.
  split; [|vm_compute; reflexivity]. apply Forall_forall. intros c Hc Hd.
  destruct demo_runs as (_ & _ & R).
  destruct (drain_is_fold demo2.1 demo2.2 900 (progress 900 demo2.2).1 (progress 900 demo2.2).2 c R) as [_ Hv];
    [vm_compute; reflexivity|apply surjective_pairing|done|done|].
  assert (c_slot c = 1) as Es.
  { revert Hc. vm_compute. intros Hc. by apply list_elem_of_singleton in Hc as ->. }
  destruct (Hv 4 13 ltac:(done) ltac:(done)) as [_ E]. rewrite Es in E.
  etransitivity; [exact E|]. vm_compute. reflexivity.
Defined.

Lemma occupancy_exact_witness : occupied demo2.2 = live_count (contexts_ demo2.2) /\ occupied demo2.2 = 1.
Proof.
  destruct demo_runs as (_ & _ & R). split; [|vm_compute; reflexivity].
  apply (occupancy_exact demo2.1 demo2.2 R). vm_compute. reflexivity.
Defined.

Lemma drain_lifecycle_witness :
  exists id ready s1, requestDrain 1 demo_tag 300 true demo1.2 = (Some (id, ready), s1) /\
    (release 1 demo_tag (progress ready s1).2).1 = true.
Proof.
  destruct demo_runs as (_ & R & _).
  destruct (drain_lifecycle demo1.1 demo1.2 1 demo_tag 300 R) as (id & ready & s1 & E & H);
    [vm_compute; reflexivity|lia|split; [lia|reflexivity]|vm_compute; reflexivity..|].
  exists id, ready, s1. split; [done|]. by apply H.
Defined.

Lemma tile_advances_witness :
  expectedKeyTile ((contexts_ (progress 300 demo0.2).2).[1]) =
    expectedKeyTile ((contexts_ demo0.2).[1]) + 1 /\
  expectedKeyTile ((contexts_ demo0.2).[1]) = 1.
Proof.
  destruct demo_runs as (R & _). split; [|vm_compute; reflexivity].
  destruct (tile_advances demo0.1 demo0.2 1 demo_tag 300 R) as [H _];
    [vm_compute; reflexivity|lia|vm_compute; reflexivity| | |exact H].
  - intros seg Hseg. apply (Forall_at (fun x => x <> 0)).
    + apply Forall_forall. intros x Hx. revert x Hx. apply Forall_forall.
      apply (Forall_impl (fun x => negb (x =? 0) = true)).
      * apply Forall_forall. intros x Hx%list_elem_of_In. revert x Hx. apply forallb_forall.
        vm_compute. reflexivity.
      * intros x Hx. by apply negb_true_iff, Z.eqb_neq in Hx.
    + replace (Z.of_nat (length (segmentState ((contexts_ demo0.2).[1])))) with kSegments
        by (vm_compute; reflexivity). lia.
  - apply Forall_forall. intros item Hi%list_elem_of_In _. apply Z.leb_le. revert item Hi.
    apply (forallb_forall (fun item => p_readyCycle item.2 <=? 300)). vm_compute. reflexivity.
Defined.

Lemma ports_exclusive_witness :
  writeMaxConcurrency demo2.2 <= 1 /\ writeBusyCycles demo2.2 = 32 /\ readBusyCycles demo2.2 = 144.
Proof.
  destruct demo_runs as (_ & _ & R).
  destruct (ports_exclusive demo2.1 demo2.2 R) as (_ & _ & Hw & _ & Hr & Hwb & _);
    [vm_compute; reflexivity|].
  split_and!; [done|rewrite Hwb; vm_compute; reflexivity|rewrite Hr; vm_compute; reflexivity].
Defined.

Definition demo_submit : call :=
  SubmitSegment 1 demo_tag 0 3 5 float_one (replicate (Z.to_nat kValuesPerSegment) (of_Z 1)) 40 true.
Definition demo_reserved : t := (exec (Reserve 1 demo_tag 2) init).2.

Lemma submission_latency_witness : 40 + 3 <= 43 /\
  exec demo_submit demo_reserved = (RTicket (Some (1, 43)), (exec demo_submit demo_reserved).2).
Proof.
  assert (exec demo_submit demo_reserved =
          (RTicket (Some (1, 43)), (exec demo_submit demo_reserved).2)) as E
    by (vm_compute; reflexivity).
  split; [|done].
  apply (submission_latency [(Reserve 1 demo_tag 2, RBool true)] demo_reserved demo_submit _ _ 1 43)
    in E; [apply E|apply (calls_run [Reserve 1 demo_tag 2] [] init); [constructor|vm_compute; reflexivity]
           |apply call_okb_ok; vm_compute; reflexivity|vm_compute; reflexivity|reflexivity..].
Defined.
End OAccumulatorFacts.
