(* ===== verification/Fp16.v ===== *)
(** * FP16 storage conversions

    Models golem/fp16.h: the widening [golem_fp16_to_float] and the narrowing
    [golem_float_to_fp16] on IEEE-754 bit patterns ([memcpy] between [float]
    and [uint32_t] is the identity on patterns).

    Magnitudes are compared as integers: [mag32] in units of 2^-149 and
    [mag16] in units of 2^-24.  Finite halves are ordered by their fifteen
    magnitude bits, and infinity (0x7c00) sits where the next finite value
    would be, so "round to nearest even, overflow to infinity" is
    [nearest_even] over the magnitudes 0 to 0x7c00. *)

From S2P Require Import Prelude.

Module Fp16.

(** The loop that shifts a subnormal fraction up to its leading bit; ten
    rounds are enough for a non-zero ten-bit fraction. *)
Fixpoint normalize (fuel : nat) (normalized exp : Z) : Z * Z :=
  match fuel with
  | O => (normalized, exp)
  | S fuel =>
      if Z.land normalized 0x0400 =? 0
      then normalize fuel (u32 (Z.shiftl normalized 1)) (exp - 1)
      else (normalized, exp)
  end.

Definition golem_fp16_to_float (value : Z) : Z :=
  let sign := u32 (Z.shiftl (Z.land value 0x8000) 16) in
  let exponent := Z.land (Z.shiftr value 10) 0x1f in
  let fraction := Z.land value 0x03ff in
  if exponent =? 0 then
    if fraction =? 0 then sign
    else
      let '(normalized, exp) := normalize 10 fraction (-14) in
      let normalized := Z.land normalized 0x03ff in
      Z.lor (Z.lor sign (u32 (Z.shiftl (u32 (exp + 127)) 23))) (u32 (Z.shiftl normalized 13))
  else if exponent =? 0x1f then
    Z.lor (Z.lor sign 0x7f800000) (u32 (Z.shiftl fraction 13))
  else
    Z.lor (Z.lor sign (u32 (Z.shiftl (exponent ⊞₃₂ 112) 23))) (u32 (Z.shiftl fraction 13)).

Definition golem_float_to_fp16 (bits : Z) : Z :=
  let sign := u16 (Z.land (Z.shiftr bits 16) 0x8000) in
  let exponent := Z.land (Z.shiftr bits 23) 0xff in
  let fraction := Z.land bits 0x7fffff in
  if exponent =? 0xff then
    if fraction =? 0 then u16 (Z.lor sign 0x7c00)
    else
      let payload := u16 (Z.shiftr fraction 13) in
      u16 (Z.lor (Z.lor (Z.lor sign 0x7c00) payload) 0x0200)
  else
    let unbiased := exponent - 127 in
    if 15 <? unbiased then u16 (Z.lor sign 0x7c00)
    else if unbiased <? -14 then
      if unbiased <? -24 then sign
      else
        let mantissa := Z.lor fraction 0x00800000 in
        let shift := - unbiased - 14 in
        let half_fraction := Z.shiftr mantissa (shift + 13) in
        let remainder_mask := u32 (Z.shiftl 1 (shift + 13)) ⊟₃₂ 1 in
        let remainder := Z.land mantissa remainder_mask in
        let halfway := u32 (Z.shiftl 1 (shift + 12)) in
        let half_fraction :=
          if (halfway <? remainder) ||
             ((remainder =? halfway) && negb (Z.land half_fraction 1 =? 0))
          then half_fraction ⊞₃₂ 1 else half_fraction in
        u16 (Z.lor sign half_fraction)
    else
      let half_exponent := u32 (unbiased + 15) in
      let half_fraction := Z.shiftr fraction 13 in
      let remainder := Z.land fraction 0x1fff in
      if (0x1000 <? remainder) || ((remainder =? 0x1000) && negb (Z.land half_fraction 1 =? 0))
      then
        let half_fraction := half_fraction ⊞₃₂ 1 in
        if half_fraction =? 0x400 then
          let half_exponent := half_exponent ⊞₃₂ 1 in
          if 0x1f <=? half_exponent then u16 (Z.lor sign 0x7c00)
          else u16 (Z.lor (Z.lor sign (u32 (Z.shiftl half_exponent 10))) 0)
        else u16 (Z.lor (Z.lor sign (u32 (Z.shiftl half_exponent 10))) half_fraction)
      else u16 (Z.lor (Z.lor sign (u32 (Z.shiftl half_exponent 10))) half_fraction).

(** *** [GolemFp16]: the storage type *)

Record GolemFp16 := mkFp16 { bits : Z }.
Definition of_float (value : Z) : GolemFp16 := mkFp16 (golem_float_to_fp16 value).
Definition to_float (h : GolemFp16) : Z := golem_fp16_to_float (bits h).

End Fp16.

(** ** Reference semantics *)

(** The magnitude of a half, from its fifteen low bits, in units of 2^-24. *)
Definition mag16 (k : Z) : Z :=
  let e := k / 1024 in let f := k mod 1024 in
  if e =? 0 then f else (1024 + f) * 2 ^ (e - 1).

(** The magnitude of a binary32 pattern, in units of 2^-149. *)
Definition exp32 (b : Z) : Z := (b / 2 ^ 23) mod 256.
Definition frac32 (b : Z) : Z := b mod 2 ^ 23.
Definition mag32 (b : Z) : Z :=
  if exp32 b =? 0 then frac32 b else (2 ^ 23 + frac32 b) * 2 ^ (exp32 b - 1).

Definition sign32 (b : Z) : Z := b / 2 ^ 31.
Definition sign16 (h : Z) : Z := h / 2 ^ 15.
Definition magnitude16 (h : Z) : Z := h mod 2 ^ 15.
Definition infinity16 : Z := 0x7c00.

(** [2^-24] in units of [2^-149]. *)
Definition unit16 : Z := 2 ^ 125.

(** [k] is the half magnitude nearest to [v], ties going to the even one. *)
Definition nearest_even (k v : Z) : Prop :=
  0 <= k <= infinity16 /\
  forall k', 0 <= k' <= infinity16 ->
    let d := Z.abs (mag16 k * unit16 - v) in
    let d' := Z.abs (mag16 k' * unit16 - v) in
    d < d' \/ (d = d' /\ (k' = k \/ Z.even k = true)).

(** Patterns with exponent 102 (values in [[2^-25, 2^-24)]) other than 2^-25. *)
Definition flushed (b : Z) : bool := (exp32 b =? 102) && negb (frac32 b =? 0).

(** ** Exhaustive checks over bit patterns *)

Fixpoint all_bits (n : nat) (P : Z -> bool) (a : Z) : bool :=
  match n with
  | O => P a
  | S n => all_bits n P (2 * a) && all_bits n P (2 * a + 1)
  end.

Lemma all_bits_spec n P : forall a z,
  all_bits n P a = true -> a * 2 ^ Z.of_nat n <= z < (a + 1) * 2 ^ Z.of_nat n -> P z = true.
Proof.
  induction n as [|n IH]; intros a z; cbn [all_bits].
  - intros Hp Hz. change (2 ^ Z.of_nat 0) with 1 in Hz. by replace z with a by lia.
  - rewrite andb_true_iff, Nat2Z.inj_succ, Z.pow_succ_r by lia. intros [H0 H1] Hz.
    destruct (decide (z < (2 * a + 1) * 2 ^ Z.of_nat n)).
    + apply (IH _ _ H0). nia.
    + apply (IH _ _ H1). nia.
Qed.

(** ** Bit operations as arithmetic *)

Lemma land_1_odd a : negb (Z.land a 1 =? 0) = Z.odd a.
Proof.
  pose proof (land_ones_mod a 1 ltac:(done)) as E. change (2 ^ 1 - 1) with 1 in E.
  change (2 ^ 1) with 2 in E. rewrite E, Zmod_odd. by destruct (Z.odd a).
Qed.

(** ** The narrowing in closed form *)

Definition round_up (q r half : Z) : Z :=
  if (half <? r) || ((r =? half) && Z.odd q) then 1 else 0.

(** The magnitude bits [golem_float_to_fp16] computes from a finite pattern. *)
Definition narrow_mag (e f : Z) : Z :=
  if 142 <? e then infinity16
  else if e <? 113 then
    if e <? 103 then 0
    else
      let m := 2 ^ 23 + f in
      let q := m / 2 ^ (126 - e) in
      q + round_up q (m mod 2 ^ (126 - e)) (2 ^ (125 - e))
  else
    let q := (e - 112) * 1024 + f / 2 ^ 13 in
    q + round_up q (f mod 2 ^ 13) (2 ^ 12).

Section Narrowing.
Import Fp16.
Context (b : Z) (Hb : is_u32 b).

Lemma sign_form : u16 (Z.land (Z.shiftr b 16) 0x8000) = sign32 b * 2 ^ 15.
Proof using Hb.
  unfold sign32, is_u32 in *.
  assert (Z.land (Z.shiftr b 16) 0x8000 = (b / 2 ^ 31) * 2 ^ 15) as ->.
  { rewrite Z.shiftr_div_pow2 by done. apply Z.bits_inj'. intros i Hi. rewrite Z.land_spec.
    destruct (decide (i = 15)) as [->|Hne].
    - rewrite Z.mul_pow2_bits by done. rewrite !Z.div_pow2_bits by done. by rewrite andb_true_r.
    - change 0x8000 with (2 ^ 15). rewrite Z.pow2_bits_false by done. rewrite andb_false_r.
      destruct (decide (i < 15)); [by rewrite Z.mul_pow2_bits_low by lia|].
      rewrite Z.mul_pow2_bits, Z.div_pow2_bits by lia.
      by rewrite <- (Z.mod_small b (2 ^ 32)), Z.mod_pow2_bits_high by lia. }
  apply u16_small. unfold is_u16. Z.div_mod_to_equations. lia.
Qed.

Lemma exponent_form : Z.land (Z.shiftr b 23) 0xff = exp32 b.
Proof using. rewrite Z.shiftr_div_pow2 by done. apply (land_ones_mod _ 8). done. Qed.

Lemma fraction_form : Z.land b 0x7fffff = frac32 b.
Proof using. by apply (land_ones_mod _ 23). Qed.

Lemma field_bounds : 0 <= sign32 b <= 1 /\ 0 <= exp32 b <= 255 /\ 0 <= frac32 b < 2 ^ 23.
Proof using Hb.
  unfold sign32, exp32, frac32, is_u32 in *. Z.div_mod_to_equations. lia.
Qed.

Lemma with_sign k : 0 <= k < 2 ^ 15 -> u16 (Z.lor (sign32 b * 2 ^ 15) k) = sign32 b * 2 ^ 15 + k.
Proof using Hb.
  intros Hk. rewrite lor_add by done. apply u16_small. pose proof field_bounds. unfold is_u16. lia.
Qed.

Lemma round_bit q r half :
  (half <? r) || ((r =? half) && negb (Z.land q 1 =? 0)) = (round_up q r half =? 1).
Proof using. rewrite land_1_odd. unfold round_up. by destruct (_ || _). Qed.

Lemma round_up_range q r half : 0 <= round_up q r half <= 1.
Proof using. unfold round_up. destruct (_ || _); lia. Qed.

Lemma subnormal_form e f :
  103 <= e < 113 -> 0 <= f < 2 ^ 23 ->
  let mantissa := Z.lor f 0x00800000 in
  let q := Z.shiftr mantissa (126 - e) in
  let r := Z.land mantissa (u32 (Z.shiftl 1 (126 - e)) ⊟₃₂ 1) in
  let half := u32 (Z.shiftl 1 (125 - e)) in
  u16 (Z.lor (sign32 b * 2 ^ 15)
         (if (half <? r) || ((r =? half) && negb (Z.land q 1 =? 0)) then q ⊞₃₂ 1 else q)) =
  sign32 b * 2 ^ 15 +
    ((2 ^ 23 + f) / 2 ^ (126 - e) +
     round_up ((2 ^ 23 + f) / 2 ^ (126 - e)) ((2 ^ 23 + f) mod 2 ^ (126 - e)) (2 ^ (125 - e))).
Proof using Hb.
  intros He Hf mantissa q r half.
  assert (mantissa = 2 ^ 23 + f) as Em.
  { unfold mantissa. rewrite Z.lor_comm. apply (lor_add 1 f 23); done. }
  assert (2 ^ 14 <= 2 ^ (126 - e) <= 2 ^ 23) as Hp by (split; apply Z.pow_le_mono_r; lia).
  assert (u32 (Z.shiftl 1 (126 - e)) ⊟₃₂ 1 = 2 ^ (126 - e) - 1) as Emask.
  { rewrite Z.shiftl_1_l, (u32_small (2 ^ _)) by (unfold is_u32; lia).
    apply u32_small. unfold is_u32. lia. }
  assert (half = 2 ^ (125 - e)) as Eh.
  { unfold half. rewrite Z.shiftl_1_l. apply u32_small. unfold is_u32.
    assert (0 < 2 ^ (125 - e) <= 2 ^ 23) by (split; [lia|apply Z.pow_le_mono_r; lia]). lia. }
  assert (q = (2 ^ 23 + f) / 2 ^ (126 - e)) as Eq.
  { unfold q. by rewrite Em, Z.shiftr_div_pow2 by lia. }
  assert (r = (2 ^ 23 + f) mod 2 ^ (126 - e)) as Er.
  { unfold r. by rewrite Em, Emask, land_ones_mod by lia. }
  assert (0 <= q < 2 ^ 10) as Hq.
  { rewrite Eq. split; [apply Z.div_pos; lia|]. apply Z.div_lt_upper_bound; [lia|]. nia. }
  rewrite round_bit, <- Eq, <- Er, <- Eh. pose proof (round_up_range q r half).
  rewrite with_sign.
  - destruct (Z.eqb_spec (round_up q r half) 1) as [->|]; [|lia].
    rewrite u32_small by (unfold is_u32; lia). lia.
  - destruct (round_up q r half =? 1); [rewrite u32_small by (unfold is_u32; lia)|]; lia.
Qed.

Lemma normal_form e f :
  113 <= e <= 142 -> 0 <= f < 2 ^ 23 ->
  (let half_exponent := u32 (e - 112) in
   let half_fraction := Z.shiftr f 13 in
   let remainder := Z.land f 0x1fff in
   if (0x1000 <? remainder) || ((remainder =? 0x1000) && negb (Z.land half_fraction 1 =? 0))
   then
     let half_fraction := half_fraction ⊞₃₂ 1 in
     if half_fraction =? 0x400 then
       let half_exponent := half_exponent ⊞₃₂ 1 in
       if 0x1f <=? half_exponent then u16 (Z.lor (sign32 b * 2 ^ 15) 0x7c00)
       else u16 (Z.lor (Z.lor (sign32 b * 2 ^ 15) (u32 (Z.shiftl half_exponent 10))) 0)
     else u16 (Z.lor (Z.lor (sign32 b * 2 ^ 15) (u32 (Z.shiftl half_exponent 10))) half_fraction)
   else u16 (Z.lor (Z.lor (sign32 b * 2 ^ 15) (u32 (Z.shiftl half_exponent 10))) half_fraction)) =
  sign32 b * 2 ^ 15 +
    ((e - 112) * 1024 + f / 2 ^ 13 +
     round_up ((e - 112) * 1024 + f / 2 ^ 13) (f mod 2 ^ 13) (2 ^ 12)).
Proof using Hb.
  intros He Hf. cbv zeta. rewrite (u32_small (e - 112)) by (unfold is_u32; lia).
  rewrite Z.shiftr_div_pow2 by done. change 0x1fff with (2 ^ 13 - 1). rewrite land_ones_mod by done.
  set (q := f / 2 ^ 13). set (r := f mod 2 ^ 13). change 0x1000 with (2 ^ 12).
  assert (0 <= q < 1024) as Hq by (unfold q; Z.div_mod_to_equations; lia).
  rewrite round_bit.
  assert (round_up ((e - 112) * 1024 + q) r (2 ^ 12) = round_up q r (2 ^ 12)) as ->.
  { unfold round_up. rewrite Z.odd_add, Z.odd_mul. change (Z.odd 1024) with false.
    by rewrite andb_false_r, xorb_false_l. }
  assert (forall x y, 0 <= x < 31 -> 0 <= y < 1024 ->
    u16 (Z.lor (Z.lor (sign32 b * 2 ^ 15) (u32 (Z.shiftl x 10))) y) =
    sign32 b * 2 ^ 15 + (x * 1024 + y)) as Hpack.
  { intros x y Hx Hy. rewrite Z.shiftl_mul_pow2 by done.
    rewrite u32_small by (unfold is_u32; lia). rewrite <- Z.lor_assoc, (lor_add x y 10) by done.
    apply with_sign. lia. }
  pose proof (round_up_range q r (2 ^ 12)) as Hr.
  destruct (Z.eqb_spec (round_up q r (2 ^ 12)) 1) as [->|]; [|rewrite Hpack by lia; lia].
  rewrite !u32_small by (unfold is_u32; lia).
  destruct (Z.eqb_spec (q + 1) 0x400); [|rewrite Hpack by lia; lia].
  destruct (Z.leb_spec 0x1f (e - 112 + 1)); [rewrite with_sign by lia; lia|].
  rewrite Hpack by lia. lia.
Qed.

Lemma narrow_form :
  exp32 b <> 255 ->
  golem_float_to_fp16 b = sign32 b * 2 ^ 15 + narrow_mag (exp32 b) (frac32 b).
Proof using Hb.
  intros He. pose proof field_bounds as (Hs & Hx & Hf).
  unfold golem_float_to_fp16. rewrite sign_form, exponent_form, fraction_form.
  set (s := sign32 b) in *. set (e := exp32 b) in *. set (f := frac32 b) in *.
  rewrite (proj2 (Z.eqb_neq e 0xff)) by done. unfold narrow_mag.
  destruct (Z.ltb_spec 15 (e - 127)); [rewrite (proj2 (Z.ltb_lt 142 e)) by lia; by apply with_sign|].
  rewrite (proj2 (Z.ltb_ge 142 e)) by lia.
  destruct (Z.ltb_spec (e - 127) (-14)).
  - rewrite (proj2 (Z.ltb_lt e 113)) by lia.
    destruct (Z.ltb_spec (e - 127) (-24)); [rewrite (proj2 (Z.ltb_lt e 103)) by lia; lia|].
    rewrite (proj2 (Z.ltb_ge e 103)) by lia. cbv zeta.
    replace (- (e - 127) - 14 + 13) with (126 - e) by lia.
    replace (- (e - 127) - 14 + 12) with (125 - e) by lia.
    apply subnormal_form; lia.
  - rewrite (proj2 (Z.ltb_ge e 113)) by lia. cbv zeta.
    replace (e - 127 + 15) with (e - 112) by lia. apply normal_form; lia.
Qed.

End Narrowing.

(** ** Rounding to nearest *)

Lemma mag16_step k : 0 <= k -> mag16 (k + 1) = mag16 k + 2 ^ (Z.max (k / 1024) 1 - 1).
Proof.
  intros Hk. unfold mag16.
  destruct (decide ((k + 1) mod 1024 = 0)) as [Hm|Hm].
  - assert (k mod 1024 = 1023 /\ (k + 1) / 1024 = k / 1024 + 1) as [E1 E2].
    { Z.div_mod_to_equations. lia. }
    assert (0 <= k / 1024) by (apply Z.div_pos; lia). rewrite Hm, E1, E2.
    destruct (Z.eqb_spec (k / 1024) 0) as [->|]; [reflexivity|].
    rewrite (proj2 (Z.eqb_neq _ _)) by lia. rewrite Z.max_l by lia.
    replace (k / 1024 + 1 - 1) with (Z.succ (k / 1024 - 1)) by lia. rewrite Z.pow_succ_r by lia. lia.
  - assert ((k + 1) mod 1024 = k mod 1024 + 1 /\ (k + 1) / 1024 = k / 1024) as [-> ->].
    { Z.div_mod_to_equations. lia. }
    assert (0 <= k / 1024) by (apply Z.div_pos; lia).
    destruct (Z.eqb_spec (k / 1024) 0) as [->|]; [reflexivity|].
    rewrite Z.max_l by lia. lia.
Qed.

Lemma mag16_lt k k' : 0 <= k < k' -> mag16 k < mag16 k'.
Proof.
  intros [Hk Hlt]. replace k' with (k + 1 + Z.of_nat (Z.to_nat (k' - k - 1))) by lia.
  induction (Z.to_nat (k' - k - 1)) as [|n IH].
  - rewrite Z.add_0_r, mag16_step by done.
    pose proof (Z.pow_pos_nonneg 2 (Z.max (k / 1024) 1 - 1)). lia.
  - rewrite Nat2Z.inj_succ. replace (k + 1 + Z.succ (Z.of_nat n)) with (k + 1 + Z.of_nat n + 1) by lia.
    rewrite mag16_step by lia.
    pose proof (Z.pow_pos_nonneg 2 (Z.max ((k + 1 + Z.of_nat n) / 1024) 1 - 1)). lia.
Qed.

Lemma mag16_le k k' : 0 <= k <= k' -> mag16 k <= mag16 k'.
Proof.
  intros H. destruct (decide (k = k')) as [->|]; [done|]. pose proof (mag16_lt k k' ltac:(lia)). lia.
Qed.

Lemma unit16_pos : 0 < unit16.
Proof. done. Qed.

(** Rounding a value that lies between two neighbouring magnitudes. *)
Lemma nearest_between k v r half :
  0 <= k < infinity16 -> 0 < half -> 0 <= r <= 2 * half ->
  (exists s, 0 < s /\ v = mag16 k * unit16 + r * s /\
             mag16 (k + 1) * unit16 = mag16 k * unit16 + 2 * half * s) ->
  nearest_even (k + round_up k r half) v.
Proof.
  intros Hk Hh Hr (s & Hs & Hv & Hn). pose proof unit16_pos as Hu.
  unfold nearest_even. assert (0 <= round_up k r half <= 1) as Hru.
  { unfold round_up. destruct (_ || _); lia. }
  split; [lia|]. intros k' Hk'. cbv zeta.
  set (A := mag16 k * unit16) in *. set (B := mag16 (k + 1) * unit16) in *.
  assert (k' <= k /\ mag16 k' * unit16 <= A /\ (k' <> k -> mag16 k' * unit16 < A) \/
          k + 1 <= k' /\ B <= mag16 k' * unit16 /\ (k' <> k + 1 -> B < mag16 k' * unit16)) as Hcase.
  { destruct (decide (k' <= k)); [left|right]; split_and!; try lia.
    - pose proof (mag16_le k' k ltac:(lia)). unfold A. nia.
    - intros. pose proof (mag16_lt k' k ltac:(lia)). unfold A. nia.
    - pose proof (mag16_le (k + 1) k' ltac:(lia)). unfold B. nia.
    - intros. pose proof (mag16_lt (k + 1) k' ltac:(lia)). unfold B. nia. }
  set (C := mag16 k' * unit16) in *. unfold round_up in *.
  assert (0 <= r * s <= 2 * half * s) by nia.
  destruct (Z.ltb_spec half r) as [Hlt|Hge]; simpl.
  - destruct (decide (k' = k + 1)) as [->|]; [by right; split; [|left]|]. fold B.
    assert (half * s < r * s) by nia. left. lia.
  - destruct (Z.eqb_spec r half) as [->|Hne]; simpl.
    + destruct (Z.odd k) eqn:Hodd; simpl.
      * fold B. assert (Z.even (k + 1) = true) as -> by (rewrite Z.add_1_r, Z.even_succ; done). lia.
      * rewrite Z.add_0_r. fold A.
        assert (Z.even k = true) as -> by (rewrite <- Z.negb_odd, Hodd; done). lia.
    + rewrite Z.add_0_r. destruct (decide (k' = k)) as [->|]; [by right; split; [|left]|]. fold A.
      assert (r * s < half * s) by nia. left. lia.
Qed.

(** ** The magnitude computed is the nearest one *)

Definition value32 (e f : Z) : Z := if e =? 0 then f else (2 ^ 23 + f) * 2 ^ (e - 1).

Lemma nearest_overflow e f :
  142 < e -> 0 <= f -> nearest_even infinity16 (value32 e f).
Proof.
  intros He Hf. unfold value32. rewrite (proj2 (Z.eqb_neq e 0)) by lia.
  assert (2 ^ 142 <= 2 ^ (e - 1)) by (apply Z.pow_le_mono_r; lia).
  assert (mag16 infinity16 * unit16 = 2 ^ 23 * 2 ^ 142) as Hm by reflexivity.
  split; [unfold infinity16; lia|]. intros k' Hk'. cbv zeta.
  destruct (decide (k' = infinity16)) as [->|Hne]; [by right; split; [|left]|left].
  pose proof (mag16_lt k' infinity16 ltac:(lia)). pose proof unit16_pos.
  assert (mag16 k' * unit16 < mag16 infinity16 * unit16) by nia. nia.
Qed.

Lemma nearest_normal e f :
  113 <= e <= 142 -> 0 <= f < 2 ^ 23 ->
  let q := (e - 112) * 1024 + f / 2 ^ 13 in
  nearest_even (q + round_up q (f mod 2 ^ 13) (2 ^ 12)) (value32 e f).
Proof.
  intros He Hf q. assert (0 <= f / 2 ^ 13 < 1024) as Hq by (Z.div_mod_to_equations; lia).
  assert (0 <= f mod 2 ^ 13 < 2 ^ 13) as Hr by (apply Z.mod_pos_bound; lia).
  assert (q / 1024 = e - 112 /\ q mod 1024 = f / 2 ^ 13) as [Ed Em].
  { unfold q. Z.div_mod_to_equations. lia. }
  assert (2 ^ (e - 113) * unit16 = 2 ^ 13 * 2 ^ (e - 1)) as Es.
  { unfold unit16. rewrite <- !Z.pow_add_r by lia. f_equal. lia. }
  apply nearest_between; [unfold q, infinity16; lia|lia|lia|].
  exists (2 ^ (e - 1)). split; [apply Z.pow_pos_nonneg; lia|].
  rewrite mag16_step by (unfold q; lia). unfold mag16, value32. rewrite Ed, Em.
  rewrite !(proj2 (Z.eqb_neq _ 0)) by lia. rewrite Z.max_l by lia.
  replace (e - 112 - 1) with (e - 113) by lia.
  pose proof (Z.div_mod f (2 ^ 13) ltac:(lia)). split; nia.
Qed.

Lemma nearest_subnormal e f :
  103 <= e < 113 -> 0 <= f < 2 ^ 23 ->
  let m := 2 ^ 23 + f in let q := m / 2 ^ (126 - e) in
  nearest_even (q + round_up q (m mod 2 ^ (126 - e)) (2 ^ (125 - e))) (value32 e f).
Proof.
  intros He Hf m q.
  assert (2 ^ 14 <= 2 ^ (126 - e) <= 2 ^ 23) as Hp by (split; apply Z.pow_le_mono_r; lia).
  assert (2 ^ (126 - e) = 2 * 2 ^ (125 - e)) as E2.
  { rewrite <- Z.pow_succ_r by lia. f_equal. lia. }
  assert (unit16 = 2 ^ (126 - e) * 2 ^ (e - 1)) as Eu.
  { unfold unit16. rewrite <- Z.pow_add_r by lia. f_equal. lia. }
  assert (0 <= q < 1024) as Hq.
  { unfold q, m. split; [apply Z.div_pos; lia|]. apply Z.div_lt_upper_bound; nia. }
  pose proof (Z.mod_pos_bound m (2 ^ (126 - e)) ltac:(lia)) as Hr.
  pose proof (Z.div_mod m (2 ^ (126 - e)) ltac:(lia)) as Hdm. fold q in Hdm.
  apply nearest_between; [unfold infinity16; lia|lia|lia|].
  exists (2 ^ (e - 1)). split; [apply Z.pow_pos_nonneg; lia|].
  rewrite mag16_step by lia. unfold mag16, value32.
  rewrite (Z.div_small q), (Z.mod_small q) by lia. simpl (0 =? 0).
  rewrite (proj2 (Z.eqb_neq e 0)) by lia. change (2 ^ (Z.max 0 1 - 1)) with 1. fold m. cbv iota.
  split; nia.
Qed.

(** Below half of the least subnormal. *)
Lemma nearest_tiny v r : 0 <= v <= unit16 -> 2 * v <= unit16 -> r = 0 -> nearest_even r v.
Proof.
  intros Hv H2 ->. replace 0 with (0 + round_up 0 v (2 ^ 124)) at 1.
  - apply nearest_between; [unfold infinity16; lia|lia|unfold unit16 in *; lia|].
    exists 1. split; [done|]. split; [change (mag16 0) with 0; lia|reflexivity].
  - unfold round_up. rewrite (proj2 (Z.ltb_ge _ _)) by (unfold unit16 in *; lia).
    simpl (Z.odd 0). by rewrite andb_false_r.
Qed.

Lemma narrow_nearest e f :
  0 <= e < 255 -> 0 <= f < 2 ^ 23 -> (e =? 102) && negb (f =? 0) = false ->
  nearest_even (narrow_mag e f) (value32 e f).
Proof.
  intros He Hf Hfl. unfold narrow_mag.
  destruct (Z.ltb_spec 142 e); [by apply nearest_overflow; lia|].
  destruct (Z.ltb_spec e 113); [|by apply nearest_normal; lia].
  destruct (Z.ltb_spec e 103); [|by apply nearest_subnormal; lia].
  assert (0 <= value32 e f <= 2 ^ 124) as Hv.
  { unfold value32. destruct (Z.eqb_spec e 0); [lia|].
    destruct (Z.eqb_spec e 102) as [->|Hne]; simpl in Hfl.
    - apply negb_false_iff, Z.eqb_eq in Hfl as ->. by vm_compute.
    - assert (0 < 2 ^ (e - 1) <= 2 ^ 100).
      { split; [apply Z.pow_pos_nonneg; lia|apply Z.pow_le_mono_r; lia]. }
      change (2 ^ 124) with (2 ^ 24 * 2 ^ 100). nia. }
  apply nearest_tiny; [unfold unit16; lia..|done].
Qed.

Section Fp16Facts.
Import Fp16.

Lemma mag32_value b : mag32 b = value32 (exp32 b) (frac32 b).
Proof. done. Qed.

Lemma split_half s k : 0 <= k < 2 ^ 15 -> sign16 (s * 2 ^ 15 + k) = s /\ magnitude16 (s * 2 ^ 15 + k) = k.
Proof. intros Hk. unfold sign16, magnitude16. Z.div_mod_to_equations. lia. Qed.

Lemma narrow_mag_range e f : 0 <= e < 255 -> 0 <= f < 2 ^ 23 -> 0 <= narrow_mag e f < 2 ^ 15.
Proof.
  intros He Hf. destruct ((e =? 102) && negb (f =? 0)) eqn:E.
  - assert (e = 102) as -> by lia. done.
  - pose proof (proj1 (narrow_nearest e f He Hf E)) as H. unfold infinity16 in H. lia.
Qed.

(** C24. Narrowing rounds correctly: for every finite [float] pattern outside the
    band [(2^-25, 2^-24)], [golem_float_to_fp16] keeps the sign and returns
    the half nearest to the value, ties to even, overflow to infinity. *)
Theorem fp16_narrow_nearest b :
  is_u32 b -> exp32 b <> 255 -> flushed b = false ->
  sign16 (golem_float_to_fp16 b) = sign32 b /\
  nearest_even (magnitude16 (golem_float_to_fp16 b)) (mag32 b).
Proof.
  intros Hb He Hfl. pose proof (field_bounds b Hb) as (Hs & Hx & Hf).
  rewrite (narrow_form b Hb He), mag32_value.
  destruct (split_half (sign32 b) (narrow_mag (exp32 b) (frac32 b))) as [-> ->].
  { apply narrow_mag_range; lia. }
  split; [done|]. apply narrow_nearest; done || lia.
Qed.

Lemma fp16_narrow_nearest_witness :
  sign16 (golem_float_to_fp16 0xc0490fdb) = sign32 0xc0490fdb /\
  nearest_even (magnitude16 (golem_float_to_fp16 0xc0490fdb)) (mag32 0xc0490fdb).
Proof.
  apply (fp16_narrow_nearest 0xc0490fdb); [split; [lia|reflexivity]|vm_compute; discriminate|reflexivity].
Defined.

(** The band where narrowing is wrong: every [float] strictly between
    [2^-25] and [2^-24] is flushed to a signed zero, although the smallest
    subnormal half is the nearest value and zero is not. *)
Theorem fp16_narrow_flushes b :
  is_u32 b -> flushed b = true ->
  magnitude16 (golem_float_to_fp16 b) = 0 /\ nearest_even 1 (mag32 b) /\ ~ nearest_even 0 (mag32 b).
Proof.
  intros Hb Hfl. pose proof (field_bounds b Hb) as (Hs & Hx & Hf).
  unfold flushed in Hfl. assert (exp32 b = 102) as E by lia. assert (frac32 b <> 0) as Hne by lia.
  rewrite (narrow_form b Hb) by lia. rewrite mag32_value, E.
  destruct (split_half (sign32 b) (narrow_mag 102 (frac32 b))) as [_ ->]; [done|].
  set (f := frac32 b) in *.
  assert (value32 102 f = 2 ^ 124 + f * 2 ^ 101) as -> by (unfold value32; simpl (102 =? 0); lia).
  split; [done|]. split.
  - replace 1 with (0 + round_up 0 (2 ^ 23 + f) (2 ^ 23)).
    + apply nearest_between; [done|lia|lia|]. exists (2 ^ 101). split; [done|].
      split; [change (mag16 0) with 0; lia|reflexivity].
    + unfold round_up. by rewrite (proj2 (Z.ltb_lt _ _)) by lia.
  - intros [_ H]. specialize (H 1 ltac:(done)). cbv zeta in H.
    change (mag16 0) with 0 in H. change (mag16 1) with 1 in H. unfold unit16 in H. lia.
Qed.

Lemma fp16_narrow_flushes_witness :
  magnitude16 (golem_float_to_fp16 0x337fffff) = 0 /\
  nearest_even 1 (mag32 0x337fffff) /\ ~ nearest_even 0 (mag32 0x337fffff).
Proof. apply (fp16_narrow_flushes 0x337fffff); [split; [lia|reflexivity]|reflexivity]. Defined.

(** *** Widening *)

Definition is_nan16 (h : Z) : bool := infinity16 <? magnitude16 h.

(** What the widening of a half has to satisfy, as a test. *)
Definition widen_ok (h : Z) : bool :=
  let b := golem_fp16_to_float h in
  (0 <=? b) && (b <? 2 ^ 32) && (sign32 b =? sign16 h) &&
  (if magnitude16 h <? infinity16 then
     negb (exp32 b =? 255) && (mag32 b =? mag16 (magnitude16 h) * unit16)
   else (exp32 b =? 255) && (frac32 b =? (magnitude16 h - infinity16) * 2 ^ 13)) &&
  (golem_float_to_fp16 b =? (if is_nan16 h then Z.lor h 0x200 else h)).

(** Subnormals, infinities and NaNs are checked one by one. *)
Lemma widen_special c h :
  c ∈ [0; 0x8000; 0x7c00; 0xfc00] -> c <= h < c + 1024 -> widen_ok h = true.
Proof.
  intros Hc Hh. replace h with (c + (h - c)) by lia.
  apply (all_bits_spec 10 (fun z => widen_ok (c + z)) 0); [|simpl; lia].
  clear Hh. rewrite !elem_of_cons, elem_of_nil in Hc.
  destruct Hc as [->|[->|[->|[->|[]]]]]; vm_compute; reflexivity.
Qed.

(** Normal halves: the exponent is rebiased and the fraction shifted. *)
Lemma widen_normal_form s e f :
  0 <= s <= 1 -> 1 <= e <= 30 -> 0 <= f < 1024 ->
  golem_fp16_to_float (s * 2 ^ 15 + (e * 1024 + f)) = s * 2 ^ 31 + (e + 112) * 2 ^ 23 + f * 2 ^ 13.
Proof.
  intros Hs He Hf. unfold golem_fp16_to_float. set (h := s * 2 ^ 15 + (e * 1024 + f)).
  assert (Z.land (Z.shiftr h 10) 0x1f = e) as ->.
  { rewrite Z.shiftr_div_pow2 by done. change 0x1f with (2 ^ 5 - 1). rewrite land_ones_mod by done.
    unfold h. Z.div_mod_to_equations. lia. }
  assert (Z.land h 0x3ff = f) as ->.
  { change 0x3ff with (2 ^ 10 - 1). rewrite land_ones_mod by done. unfold h.
    Z.div_mod_to_equations. lia. }
  assert (Z.land h 0x8000 = s * 2 ^ 15) as ->.
  { unfold h. rewrite <- lor_add by lia. rewrite Z.land_lor_distr_l.
    assert (Z.land (e * 1024 + f) 0x8000 = 0) as ->.
    { apply Z.bits_inj'. intros i Hi. rewrite Z.land_spec, Z.bits_0. change 0x8000 with (2 ^ 15).
      destruct (decide (i = 15)) as [->|]; [|by rewrite Z.pow2_bits_false, andb_false_r].
      rewrite <- (Z.mod_small (e * 1024 + f) (2 ^ 15)) by lia. by rewrite Z.mod_pow2_bits_high. }
    assert (s = 0 \/ s = 1) as [-> | ->] by lia; reflexivity. }
  rewrite !(proj2 (Z.eqb_neq e _)) by lia. rewrite !Z.shiftl_mul_pow2 by done.
  rewrite (u32_small (s * _ * _)), (u32_small (e + 112)) by (unfold is_u32; lia).
  rewrite (u32_small (_ * 2 ^ 23)), (u32_small (f * _)) by (unfold is_u32; lia).
  replace (s * 2 ^ 15 * 2 ^ 16) with (s * 2 ^ 8 * 2 ^ 23) by lia.
  rewrite <- (Z.lor_assoc (s * 2 ^ 8 * 2 ^ 23)), (lor_add (e + 112) (f * 2 ^ 13) 23) by lia.
  replace (s * 2 ^ 8 * 2 ^ 23) with (s * 2 ^ 31) by lia. rewrite lor_add by lia. lia.
Qed.

Lemma widen_normal s e f :
  0 <= s <= 1 -> 1 <= e <= 30 -> 0 <= f < 1024 -> widen_ok (s * 2 ^ 15 + (e * 1024 + f)) = true.
Proof.
  intros Hs He Hf. unfold widen_ok. rewrite widen_normal_form by done. cbv zeta.
  destruct (split_half s (e * 1024 + f) ltac:(lia)) as [Es Em].
  set (b := s * 2 ^ 31 + (e + 112) * 2 ^ 23 + f * 2 ^ 13).
  assert (sign32 b = s /\ exp32 b = e + 112 /\ frac32 b = f * 2 ^ 13) as (E1 & E2 & E3).
  { unfold sign32, exp32, frac32, b. Z.div_mod_to_equations. lia. }
  assert (is_u32 b) as Hb by (unfold is_u32, b; lia).
  rewrite (narrow_form b Hb) by lia. unfold is_nan16, mag32. rewrite Es, Em, E1, E2, E3, !Z.eqb_refl.
  unfold infinity16.
  rewrite (proj2 (Z.ltb_lt _ 0x7c00)), (proj2 (Z.ltb_ge 0x7c00 _)) by lia.
  rewrite !(proj2 (Z.eqb_neq (e + 112) _)) by lia.
  assert (mag16 (e * 1024 + f) = (1024 + f) * 2 ^ (e - 1)) as ->.
  { unfold mag16. rewrite Z.div_add_l, Z.div_small, Z.add_0_r by lia.
    rewrite (proj2 (Z.eqb_neq e 0)) by lia. do 2 f_equal. Z.div_mod_to_equations. lia. }
  assert ((2 ^ 23 + f * 2 ^ 13) * 2 ^ (e + 112 - 1) = (1024 + f) * 2 ^ (e - 1) * unit16) as ->.
  { unfold unit16. replace (e + 112 - 1) with (e - 1 + 112) by lia. rewrite Z.pow_add_r by lia.
    change (2 ^ 125) with (2 ^ 13 * 2 ^ 112). lia. }
  assert (narrow_mag (e + 112) (f * 2 ^ 13) = e * 1024 + f) as ->.
  { unfold narrow_mag. rewrite (proj2 (Z.ltb_ge 142 _)), (proj2 (Z.ltb_ge _ 113)) by lia.
    rewrite Z.div_mul, Z.mod_mul by lia. unfold round_up. simpl. lia. }
  rewrite !Z.eqb_refl. unfold is_u32 in Hb. simpl. lia.
Qed.

Lemma widen_all h : is_u16 h -> widen_ok h = true.
Proof.
  intros Hh. unfold is_u16 in Hh.
  set (s := h / 2 ^ 15). set (e := (h / 1024) mod 32). set (f := h mod 1024).
  assert (h = s * 2 ^ 15 + (e * 1024 + f)) as Eh by (unfold s, e, f; Z.div_mod_to_equations; lia).
  assert (0 <= s <= 1 /\ 0 <= e <= 31 /\ 0 <= f < 1024) as (Hs & He & Hf).
  { unfold s, e, f. Z.div_mod_to_equations. lia. }
  destruct (decide (1 <= e <= 30)) as [He'|He']; [rewrite Eh; by apply widen_normal|].
  assert (s = 0 \/ s = 1) as Hs' by lia. assert (e = 0 \/ e = 31) as He'' by lia.
  apply (widen_special (s * 2 ^ 15 + e * 1024)); [|lia].
  destruct Hs' as [E1|E1], He'' as [E2|E2]; rewrite E1, E2; simpl;
    rewrite !elem_of_cons; tauto.
Qed.

(** Widening is exact: every finite half becomes the [float] of the same
    sign and value, infinities become infinities and a NaN keeps its payload. *)
Theorem fp16_widen_exact h :
  is_u16 h ->
  let b := golem_fp16_to_float h in
  is_u32 b /\ sign32 b = sign16 h /\
  (magnitude16 h < infinity16 -> exp32 b <> 255 /\ mag32 b = mag16 (magnitude16 h) * unit16) /\
  (infinity16 <= magnitude16 h ->
     exp32 b = 255 /\ frac32 b = (magnitude16 h - infinity16) * 2 ^ 13).
Proof.
  intros Hh. pose proof (widen_all h Hh) as H. unfold widen_ok in H. cbv zeta in *.
  set (b := golem_fp16_to_float h) in *. rewrite !andb_true_iff in H.
  destruct H as [[[[H1 H2] H3] H4] _]. unfold is_u32.
  destruct (Z.ltb_spec (magnitude16 h) infinity16); split_and!; lia.
Qed.

Lemma fp16_widen_exact_witness :
  mag32 (golem_fp16_to_float 0x8001) = mag16 1 * unit16 /\ sign32 (golem_fp16_to_float 0x8001) = 1.
Proof.
  destruct (fp16_widen_exact 0x8001) as (_ & Hs & Hf & _); [split; [lia|reflexivity]|].
  split; [apply Hf; reflexivity|exact Hs].
Defined.

(** Storing a widened half gives the half back: the round trip is the
    identity on every pattern except that a signalling NaN is made quiet. *)
Theorem fp16_roundtrip h :
  is_u16 h ->
  golem_float_to_fp16 (golem_fp16_to_float h) = if is_nan16 h then Z.lor h 0x200 else h.
Proof.
  intros Hh. pose proof (widen_all h Hh) as H. unfold widen_ok in H. cbv zeta in *.
  rewrite !andb_true_iff in H. destruct H as [_ H]. by apply Z.eqb_eq.
Qed.

Lemma fp16_roundtrip_witness :
  golem_float_to_fp16 (golem_fp16_to_float 0x3555) = 0x3555 /\ is_nan16 0x3555 = false.
Proof. split; [apply (fp16_roundtrip 0x3555); split; [lia|reflexivity]|reflexivity]. Defined.

End Fp16Facts.
