(* ===== verification/GroupMsg.v ===== *)
(** * Group control messages and the local mailbox

    Models the messages of golem/groupctrl/groupctrl.{h,cc} and the mailbox a
    core and its control endpoint share.  The mailbox lives in the byte
    storage of the local global-memory window; 64-bit accesses are little
    endian and an access outside the window is fatal ([None]). *)

From S2P Require Import Prelude.

(** ** Messages *)

Inductive GroupCtrlMsgType :=
| REQUEST | GRANT | DONE | FINISHED | GROUP_DONE
| ATTENTION_KV_REQUEST | ATTENTION_KV_DELIVERY | ATTENTION_KV_ACK | ATTENTION_KV_CANCEL.
#[export] Instance msg_type_eq_dec : EqDecision GroupCtrlMsgType.
Proof. solve_decision. Defined.

Inductive GroupCtrlRole := WORKER | MANAGER.
#[export] Instance role_eq_dec : EqDecision GroupCtrlRole.
Proof. solve_decision. Defined.

Module Msg.

Record t := mk {
  type : GroupCtrlMsgType;
  groupId : Z;
  workerSlot : Z;
  window : Z;
  status : Z;
  reqSeq : Z;
  srcAddr : Z;
  dstAddr : Z;
  bytes : Z;
  targetNode : Z;
  generation : Z;
  jobTag : Z;
  queryGroup : Z;
  kvTileIndex : Z;
  physicalKvTileIndex : Z;
  numKvTiles : Z;
  kvLength : Z;
  kvTileRows : Z;
  tileRows : Z;
  rowsPerBand : Z;
  headDim : Z;
  nodeStrideBytes : Z;
  kAddr : Z;
  vAddr : Z;
  kDstAddr : Z;
  vDstAddr : Z;
  kData : list Z;
  vData : list Z
}.
#[global] Instance eta_t : Eta t := fun m =>
  mk (type m) (groupId m) (workerSlot m) (window m) (status m) (reqSeq m) (srcAddr m) (dstAddr m)
    (bytes m) (targetNode m) (generation m) (jobTag m) (queryGroup m) (kvTileIndex m)
    (physicalKvTileIndex m) (numKvTiles m) (kvLength m) (kvTileRows m) (tileRows m)
    (rowsPerBand m) (headDim m) (nodeStrideBytes m) (kAddr m) (vAddr m) (kDstAddr m) (vDstAddr m)
    (kData m) (vData m).

(** [GroupCtrlMsg(type)]: every other field zero. *)
Definition make (ty : GroupCtrlMsgType) : t :=
  mk ty 0 0 0 0 0 0 0 0 0 0 0 0 0 0 0 0 0 0 0 0 0 0 0 0 0 [] [].

End Msg.

Module KvRequest.

Record t := mk {
  generation : Z;
  jobTag : Z;
  queryGroup : Z;
  kvTileIndex : Z;
  physicalKvTileIndex : Z;
  numKvTiles : Z;
  kvLength : Z;
  kvTileRows : Z;
  tileRows : Z;
  rowsPerBand : Z;
  headDim : Z;
  nodeStrideBytes : Z;
  kAddr : Z;
  vAddr : Z;
  kDstAddr : Z;
  vDstAddr : Z
}.

End KvRequest.

Definition attentionKvRequestFromMessage (m : Msg.t) : KvRequest.t :=
  KvRequest.mk (Msg.generation m) (Msg.jobTag m) (Msg.queryGroup m) (Msg.kvTileIndex m)
    (Msg.physicalKvTileIndex m) (Msg.numKvTiles m) (Msg.kvLength m) (Msg.kvTileRows m)
    (Msg.tileRows m) (Msg.rowsPerBand m) (Msg.headDim m) (Msg.nodeStrideBytes m) (Msg.kAddr m)
    (Msg.vAddr m) (Msg.kDstAddr m) (Msg.vDstAddr m).

Definition fillAttentionKvMessage (m : Msg.t) (r : KvRequest.t) : Msg.t :=
  Msg.mk (Msg.type m) (Msg.groupId m) (Msg.workerSlot m) (Msg.window m) (Msg.status m)
    (Msg.reqSeq m) (Msg.srcAddr m) (Msg.dstAddr m) (Msg.bytes m) (Msg.targetNode m)
    (KvRequest.generation r) (KvRequest.jobTag r) (KvRequest.queryGroup r)
    (KvRequest.kvTileIndex r) (KvRequest.physicalKvTileIndex r) (KvRequest.numKvTiles r)
    (KvRequest.kvLength r) (KvRequest.kvTileRows r) (KvRequest.tileRows r)
    (KvRequest.rowsPerBand r) (KvRequest.headDim r) (KvRequest.nodeStrideBytes r)
    (KvRequest.kAddr r) (KvRequest.vAddr r) (KvRequest.kDstAddr r) (KvRequest.vDstAddr r)
    (Msg.kData m) (Msg.vData m).

(** ** Local storage *)

Module Storage.

(** The window [baseAddr, baseAddr + size) of the local memory. *)
Record t := mk { baseAddr : Z; bytes : list Z }.
#[global] Instance eta_t : Eta t := fun s => mk (baseAddr s) (bytes s).

Definition size (s : t) : Z := Z.of_nat (length (bytes s)).

(** Little-endian encoding of a 64-bit word. *)
Fixpoint encode_le (n : nat) (v : Z) : list Z :=
  match n with O => [] | S n => v mod 256 :: encode_le n (v / 256) end.
Fixpoint decode_le (l : list Z) : Z :=
  match l with [] => 0 | b :: l => b + 256 * decode_le l end.

Definition out_of_range (addr : Z) (s : t) : bool :=
  (addr <? baseAddr s) || (baseAddr s ⊞ size s <? addr ⊞ 8).

Definition read_u64 (addr : Z) (s : t) : option Z :=
  if out_of_range addr s then None
  else
    let offset := addr ⊟ baseAddr s in
    Some (decode_le (take 8 (drop (Z.to_nat offset) (bytes s)))).

Definition write_u64 (addr value : Z) (s : t) : option t :=
  if out_of_range addr s then None
  else
    let offset := addr ⊟ baseAddr s in
    Some (s <| bytes := list_inserts (Z.to_nat offset) (encode_le 8 value) (bytes s) |>).

End Storage.

(** ** The mailbox *)

Module Mailbox.

Definition CTRL_LOCAL_MAILBOX_BASE : Z := 0x1900.
Abbreviation CTRL_LOCAL_REQ_SEQ_OFF := 0x00.
Abbreviation CTRL_LOCAL_REQ_VALID_OFF := 0x08.
Abbreviation CTRL_LOCAL_GRANT_SEQ_OFF := 0x10.
Abbreviation CTRL_LOCAL_GRANT_WINDOW_OFF := 0x18.
Abbreviation CTRL_LOCAL_DONE_SEQ_OFF := 0x20.
Abbreviation CTRL_LOCAL_DONE_VALID_OFF := 0x28.
Abbreviation CTRL_LOCAL_FINISHED_OFF := 0x30.
Abbreviation CTRL_LOCAL_GROUP_DONE_OFF := 0x38.
Abbreviation CTRL_LOCAL_REQ_SRC_OFF := 0x40.
Abbreviation CTRL_LOCAL_REQ_DST_OFF := 0x48.
Abbreviation CTRL_LOCAL_REQ_BYTES_OFF := 0x50.
Abbreviation CTRL_LOCAL_REQ_NODE_OFF := 0x58.
Abbreviation CTRL_LOCAL_REQ_WINDOW_OFF := 0x60.
Abbreviation GOLEM_WCP_COARSE_FINISHED_FLAG := 0x8000000000000000.

(** The mailbox of an endpoint whose window starts at [gmBase]. *)
Definition mailboxAddr (gmBase off : Z) : Z := gmBase ⊞ CTRL_LOCAL_MAILBOX_BASE ⊞ off.

Definition readMailbox (gmBase off : Z) (s : Storage.t) : option Z :=
  Storage.read_u64 (mailboxAddr gmBase off) s.

Definition writeMailbox (gmBase off value : Z) (s : Storage.t) : option Storage.t :=
  Storage.write_u64 (mailboxAddr gmBase off) value s.

Definition readMailboxU32 (gmBase off : Z) (s : Storage.t) : option Z :=
  v ← readMailbox gmBase off s; Some (Z.land v 0xffffffff).

Definition writeMailboxU32 (gmBase off value : Z) (s : Storage.t) : option Storage.t :=
  let baseOff := Z.land off (u64 (Z.lnot 0x7)) in
  let shift := u64 ((off ⊟ baseOff) * 8) in
  let mask := u64 (Z.shiftl 0xffffffff shift) in
  cur ← readMailbox gmBase baseOff s;
  let next := Z.lor (Z.land cur (u64 (Z.lnot mask))) (u64 (Z.shiftl value shift)) in
  writeMailbox gmBase baseOff next s.

End Mailbox.

(** ** Words in byte storage *)

Section MailboxFacts.
Import Storage Mailbox.

Lemma length_encode n : forall v, length (encode_le n v) = n.
Proof. induction n as [|n IH]; intros v; simpl; [done|]. by rewrite IH. Qed.

Lemma encode_u8 n : forall v, Forall is_u8 (encode_le n v).
Proof.
  induction n as [|n IH]; intros v; simpl; constructor; [|done].
  unfold is_u8. apply Z.mod_pos_bound. lia.
Qed.

Lemma decode_encode n : forall v, 0 <= v < 2 ^ (8 * Z.of_nat n) -> decode_le (encode_le n v) = v.
Proof.
  induction n as [|n IH]; intros v Hv; [simpl in *; lia|].
  cbn [encode_le decode_le]. rewrite IH.
  - pose proof (Z.div_mod v 256). lia.
  - replace (8 * Z.of_nat (S n)) with (8 + 8 * Z.of_nat n) in Hv by lia.
    rewrite Z.pow_add_r in Hv by lia. change (2 ^ 8) with 256 in Hv.
    split; [apply Z.div_pos; lia|]. apply Z.div_lt_upper_bound; lia.
Qed.

Lemma decode_range l : Forall is_u8 l -> 0 <= decode_le l < 2 ^ (8 * Z.of_nat (length l)).
Proof.
  induction 1 as [|b l Hb _ IH]; [simpl; lia|]. cbn [decode_le length].
  replace (8 * Z.of_nat (S (length l))) with (8 + 8 * Z.of_nat (length l)) by lia.
  rewrite Z.pow_add_r by lia. change (2 ^ 8) with 256. unfold is_u8 in Hb. lia.
Qed.

Lemma encode_decode l : Forall is_u8 l -> encode_le (length l) (decode_le l) = l.
Proof.
  induction 1 as [|b l Hb _ IH]; [done|]. cbn [decode_le length encode_le]. unfold is_u8 in Hb.
  f_equal; [|rewrite <- IH at 3; f_equal]; Z.div_mod_to_equations; lia.
Qed.

Lemma decode_app l1 l2 :
  decode_le (l1 ++ l2) = decode_le l1 + 2 ^ (8 * Z.of_nat (length l1)) * decode_le l2.
Proof.
  induction l1 as [|b l1 IH]; [simpl; lia|]. cbn [app decode_le length]. rewrite IH.
  replace (8 * Z.of_nat (S (length l1))) with (8 + 8 * Z.of_nat (length l1)) by lia.
  rewrite Z.pow_add_r by lia. change (2 ^ 8) with 256. lia.
Qed.

(** Two halves of an encoded word. *)
Lemma encode_halves x y :
  0 <= x < 2 ^ 32 -> 0 <= y < 2 ^ 32 -> encode_le 8 (x + 2 ^ 32 * y) = encode_le 4 x ++ encode_le 4 y.
Proof.
  intros Hx Hy. rewrite <- (encode_decode (encode_le 4 x ++ encode_le 4 y)).
  - rewrite length_app, !length_encode, decode_app, length_encode.
    rewrite !decode_encode by (simpl; lia). done.
  - apply Forall_app. split; apply encode_u8.
Qed.

(** An endpoint bound to its own window, large enough for the mailbox. *)
Record mailbox_ok (gmBase : Z) (s : Storage.t) : Prop := {
  mb_base : baseAddr s = gmBase;
  mb_pos : 0 <= gmBase;
  mb_top : gmBase + size s < 2 ^ 64;
  mb_size : CTRL_LOCAL_MAILBOX_BASE + 0x68 <= size s;
  mb_bytes : Forall is_u8 (Storage.bytes s)
}.

Definition at_off (off : Z) : nat := Z.to_nat (CTRL_LOCAL_MAILBOX_BASE + off).

Lemma mailbox_offset gmBase off s :
  mailbox_ok gmBase s -> 0 <= off <= 0x60 ->
  out_of_range (mailboxAddr gmBase off) s = false /\
  Z.to_nat (mailboxAddr gmBase off ⊟ baseAddr s) = at_off off.
Proof.
  intros [Hb Hp Ht Hs _] Ho. unfold out_of_range, mailboxAddr, at_off in *.
  unfold CTRL_LOCAL_MAILBOX_BASE in *. rewrite Hb.
  rewrite (u64_small (gmBase + 0x1900)) by (unfold is_u64; lia).
  rewrite (u64_small (gmBase + 0x1900 + off)) by (unfold is_u64; lia).
  rewrite !u64_small by (unfold is_u64; lia). split; [lia|]. f_equal. lia.
Qed.

Lemma read_mailbox gmBase off s :
  mailbox_ok gmBase s -> 0 <= off <= 0x60 ->
  readMailbox gmBase off s = Some (decode_le (take 8 (drop (at_off off) (Storage.bytes s)))).
Proof.
  intros M Ho. unfold readMailbox, read_u64.
  destruct (mailbox_offset gmBase off s M Ho) as [-> ->]. done.
Qed.

Lemma write_mailbox gmBase off v s :
  mailbox_ok gmBase s -> 0 <= off <= 0x60 ->
  writeMailbox gmBase off v s =
    Some (s <| Storage.bytes := list_inserts (at_off off) (encode_le 8 v) (Storage.bytes s) |>).
Proof.
  intros M Ho. unfold writeMailbox, write_u64.
  destruct (mailbox_offset gmBase off s M Ho) as [-> ->]. done.
Qed.

Lemma mailbox_insert gmBase i l s :
  mailbox_ok gmBase s -> Forall is_u8 l ->
  mailbox_ok gmBase (s <| Storage.bytes := list_inserts i l (Storage.bytes s) |>).
Proof.
  intros [? ? ? ? Hby] Hl. constructor; try done; unfold size in *; simpl;
    rewrite ?length_inserts; try done.
  revert i. induction l as [|b l IH]; intros i; simpl; [done|]. inversion Hl; subst.
  apply Forall_insert; [by apply IH|done].
Qed.

Lemma low_word l : Forall is_u8 l -> (4 <= length l)%nat ->
  Z.land (decode_le l) 0xffffffff = decode_le (take 4 l).
Proof.
  intros Hl Hlen. change 0xffffffff with (Z.ones 32). rewrite Z.land_ones by done.
  rewrite <- (take_drop 4 l) at 1. rewrite decode_app, length_take_le by done.
  pose proof (decode_range (take 4 l) ltac:(by apply Forall_take)) as Hr.
  rewrite length_take_le in Hr by done.
  change (8 * Z.of_nat 4) with 32 in *. rewrite Z.mul_comm, Z.mod_add by done. by apply Z.mod_small.
Qed.

Lemma read_u32 gmBase off s :
  mailbox_ok gmBase s -> 0 <= off <= 0x60 ->
  readMailboxU32 gmBase off s = Some (decode_le (take 4 (drop (at_off off) (Storage.bytes s)))).
Proof.
  intros M Ho. unfold readMailboxU32. rewrite read_mailbox by done. simpl. f_equal.
  pose proof M as [_ _ _ Hs Hby]. unfold size, CTRL_LOCAL_MAILBOX_BASE in *. rewrite low_word.
  - by rewrite take_take.
  - by apply Forall_take, Forall_drop.
  - rewrite length_take, length_drop. unfold at_off, CTRL_LOCAL_MAILBOX_BASE. lia.
Qed.


(** Masking one half of a word. *)
Lemma land_high x y :
  0 <= x < 2 ^ 32 -> 0 <= y < 2 ^ 32 -> Z.land (x + 2 ^ 32 * y) 0xffffffff00000000 = 2 ^ 32 * y.
Proof.
  intros Hx Hy. replace (x + 2 ^ 32 * y) with (y * 2 ^ 32 + x) by lia. rewrite <- lor_add by done.
  change 0xffffffff00000000 with (Z.shiftl (Z.ones 32) 32).
  rewrite Z.land_lor_distr_l, <- (Z.shiftl_mul_pow2 y) by done.
  rewrite <- Z.shiftl_land, Z.land_ones, Z.mod_small by done.
  assert (Z.land x (Z.shiftl (Z.ones 32) 32) = 0) as ->.
  { rewrite <- (Z.mod_small x (2 ^ 32)) by done. rewrite <- Z.land_ones by done.
    rewrite <- Z.land_assoc. apply Z.land_0_r. }
  rewrite Z.lor_0_r, Z.shiftl_mul_pow2 by done. lia.
Qed.

Lemma land_low x y :
  0 <= x < 2 ^ 32 -> 0 <= y < 2 ^ 32 -> Z.land (x + 2 ^ 32 * y) 0x00000000ffffffff = x.
Proof.
  intros Hx Hy. change 0xffffffff with (Z.ones 32). rewrite Z.land_ones by done.
  rewrite Z.mul_comm, Z.mod_add by done. by apply Z.mod_small.
Qed.

(** The word at a mailbox offset, split in halves. *)
Lemma mailbox_word gmBase off s :
  mailbox_ok gmBase s -> 0 <= off <= 0x60 ->
  let l1 := take 4 (drop (at_off off) (Storage.bytes s)) in
  let l2 := take 4 (drop (at_off off + 4) (Storage.bytes s)) in
  readMailbox gmBase off s = Some (decode_le l1 + 2 ^ 32 * decode_le l2) /\
  length l1 = 4%nat /\ length l2 = 4%nat /\ Forall is_u8 l1 /\ Forall is_u8 l2.
Proof.
  intros M Ho l1 l2. pose proof M as [_ _ _ Hs Hby].
  unfold size, CTRL_LOCAL_MAILBOX_BASE in Hs.
  assert (length l1 = 4%nat /\ length l2 = 4%nat) as [H1 H2].
  { unfold l1, l2, at_off, CTRL_LOCAL_MAILBOX_BASE. rewrite !length_take, !length_drop. lia. }
  rewrite read_mailbox by done. split_and!; try done; try by apply Forall_take, Forall_drop.
  f_equal. replace (take 8 (drop (at_off off) (Storage.bytes s))) with (l1 ++ l2).
  - rewrite decode_app, H1. done.
  - unfold l1, l2. rewrite <- drop_drop. set (d := drop (at_off off) (Storage.bytes s)).
    rewrite <- (take_drop 4 d) at 3. rewrite take_app.
    rewrite take_take, length_take. fold d in H1. unfold l1 in H1. fold d in H1.
    rewrite length_take in H1. f_equal. f_equal. lia.
Qed.

Lemma drop_inserts {A} i n (k l : list A) :
  (i + length k <= n)%nat -> drop n (list_inserts i k l) = drop n l.
Proof.
  intros Hn. apply list_eq. intros j. rewrite !lookup_drop.
  apply list_lookup_inserts_ge. lia.
Qed.

Lemma write_u32 gmBase off v s :
  mailbox_ok gmBase s -> 0 <= off <= 0x60 -> off mod 4 = 0 -> is_u32 v ->
  writeMailboxU32 gmBase off v s =
    Some (s <| Storage.bytes := list_inserts (at_off off) (encode_le 4 v) (Storage.bytes s) |>).
Proof.
  intros M Ho Hm Hv. unfold is_u32 in Hv. unfold writeMailboxU32.
  set (b := 8 * (off / 8)).
  assert (0 <= b <= 0x60 /\ (off = b \/ off = b + 4)) as [Hb Hcase].
  { unfold b. Z.div_mod_to_equations. lia. }
  assert (Z.land off (u64 (Z.lnot 7)) = b) as ->.
  { change (u64 (Z.lnot 7)) with (Z.shiftl (Z.ones 61) 3). unfold b.
    apply Z.bits_inj'. intros i Hi. rewrite Z.land_spec, Z.mul_comm. change 8 with (2 ^ 3).
    destruct (decide (i < 3)).
    - rewrite Z.shiftl_spec_low, Z.mul_pow2_bits_low by lia. apply andb_false_r.
    - rewrite Z.shiftl_spec, Z.mul_pow2_bits, Z.div_pow2_bits by lia.
      replace (i - 3 + 3) with i by lia. destruct (decide (i < 64)).
      + rewrite Z.ones_spec_low by lia. apply andb_true_r.
      + rewrite Z.ones_spec_high by lia. rewrite andb_false_r.
        rewrite <- (Z.mod_small off (2 ^ 64)) by lia. by rewrite Z.mod_pow2_bits_high by lia. }
  destruct (mailbox_word gmBase b s M Hb) as (-> & L1 & L2 & U1 & U2). simpl mbind.
  set (l1 := take 4 (drop (at_off b) (Storage.bytes s))) in *.
  set (l2 := take 4 (drop (at_off b + 4) (Storage.bytes s))) in *.
  pose proof (decode_range l1 U1) as R1. pose proof (decode_range l2 U2) as R2.
  rewrite L1 in R1. rewrite L2 in R2. change (8 * Z.of_nat 4) with 32 in *.
  assert (encode_le 4 (decode_le l1) = l1) as E1 by (rewrite <- L1; by apply encode_decode).
  assert (encode_le 4 (decode_le l2) = l2) as E2 by (rewrite <- L2; by apply encode_decode).
  destruct Hcase as [E|E].
  - replace (off ⊟ b) with 0 by (rewrite E, Z.sub_diag; done).
    change (u64 (Z.lnot (u64 (Z.shiftl 0xffffffff (u64 (0 * 8)))))) with 0xffffffff00000000.
    change (u64 (0 * 8)) with 0. rewrite Z.shiftl_0_r, land_high by done.
    rewrite (u64_small v) by (unfold is_u64; lia).
    replace (2 ^ 32 * decode_le l2) with (decode_le l2 * 2 ^ 32) by lia. rewrite lor_add by done.
    replace (decode_le l2 * 2 ^ 32 + v) with (v + 2 ^ 32 * decode_le l2) by lia.
    rewrite write_mailbox, encode_halves, E2, list_inserts_app_l, length_encode, E by done.
    unfold l2. rewrite (Nat.add_comm 4).
    rewrite <- (drop_inserts (at_off b) _ (encode_le 4 v)) by (rewrite length_encode; lia).
    by rewrite inserts_same.
  - replace (off ⊟ b) with 4 by (rewrite E, Z.add_simpl_l; done).
    change (u64 (Z.lnot (u64 (Z.shiftl 0xffffffff (u64 (4 * 8)))))) with 0x00000000ffffffff.
    change (u64 (4 * 8)) with 32. rewrite Z.shiftl_mul_pow2, land_low by done.
    rewrite (u64_small (v * _)) by (unfold is_u64; lia).
    rewrite Z.lor_comm, lor_add by done.
    replace (v * 2 ^ 32 + decode_le l1) with (decode_le l1 + 2 ^ 32 * v) by lia.
    rewrite write_mailbox, encode_halves, E1, list_inserts_app_l, L1 by done.
    unfold l1 at 1. rewrite inserts_same.
    replace (4 + at_off b)%nat with (at_off off); [done|]. unfold at_off.
    unfold CTRL_LOCAL_MAILBOX_BASE. lia.
Qed.


Lemma bytes_set s l : Storage.bytes (s <| Storage.bytes := l |>) = l.
Proof. done. Qed.

Lemma read_back {A} i (k l : list A) :
  (i + length k <= length l)%nat -> take (length k) (drop i (list_inserts i k l)) = k.
Proof.
  intros Hl. apply list_eq. intros j. destruct (decide (j < length k)%nat).
  - rewrite lookup_take_lt, lookup_drop by done. rewrite list_lookup_inserts by lia.
    f_equal. lia.
  - rewrite lookup_take_ge by lia. symmetry. apply lookup_ge_None_2. lia.
Qed.

Lemma read_other {A} i j n (k l : list A) :
  (j + n <= i \/ i + length k <= j)%nat ->
  take n (drop j (list_inserts i k l)) = take n (drop j l).
Proof.
  intros Hd. apply list_eq. intros x. destruct (decide (x < n)%nat).
  - rewrite !lookup_take_lt, !lookup_drop by done. destruct Hd.
    + apply list_lookup_inserts_lt. lia.
    + apply list_lookup_inserts_ge. lia.
  - by rewrite !lookup_take_ge by lia.
Qed.

(** The mailbox is a memory of 32-bit words: a word written with
    [writeMailboxU32] at any 4-aligned mailbox offset is read back by
    [readMailboxU32], and every other word keeps its value. *)
Theorem mailbox_roundtrip gmBase off v s :
  mailbox_ok gmBase s -> 0 <= off <= 0x60 -> off mod 4 = 0 -> is_u32 v ->
  exists s', writeMailboxU32 gmBase off v s = Some s' /\ mailbox_ok gmBase s' /\
    readMailboxU32 gmBase off s' = Some v /\
    forall off', 0 <= off' <= 0x60 -> off' mod 4 = 0 -> off' <> off ->
      readMailboxU32 gmBase off' s' = readMailboxU32 gmBase off' s.
Proof.
  intros M Ho Hm Hv. eexists. split; [by apply write_u32|].
  assert (mailbox_ok gmBase (s <| Storage.bytes :=
    list_inserts (at_off off) (encode_le 4 v) (Storage.bytes s) |>)) as M'.
  { apply mailbox_insert; [done|]. apply encode_u8. }
  split; [done|]. pose proof M as [_ _ _ Hs _]. unfold size, CTRL_LOCAL_MAILBOX_BASE in Hs.
  split.
  - rewrite read_u32 by done. rewrite bytes_set. f_equal.
    pose proof (read_back (at_off off) (encode_le 4 v) (Storage.bytes s)) as R.
    rewrite length_encode in R. rewrite R.
    + apply decode_encode. done.
    + unfold at_off, CTRL_LOCAL_MAILBOX_BASE. lia.
  - intros off' Ho' Hm' Hne. rewrite !read_u32 by done. rewrite bytes_set. do 2 f_equal.
    apply read_other. rewrite length_encode. unfold at_off, CTRL_LOCAL_MAILBOX_BASE.
    Z.div_mod_to_equations. lia.
Qed.

Definition demo_storage : Storage.t := Storage.mk 0x10000 (replicate 0x2000 7).

Lemma mailbox_roundtrip_witness :
  exists s', writeMailboxU32 0x10000 0x24 123456789 demo_storage = Some s' /\
    readMailboxU32 0x10000 0x24 s' = Some 123456789 /\
    readMailboxU32 0x10000 CTRL_LOCAL_DONE_SEQ_OFF s' = Some 0x07070707.
Proof.
  destruct (mailbox_roundtrip 0x10000 0x24 123456789 demo_storage) as (s' & E & M & R & O).
  - constructor; [done|lia|vm_compute; reflexivity|vm_compute; discriminate|].
    apply Forall_replicate. unfold is_u8. lia.
  - lia.
  - reflexivity.
  - unfold is_u32. lia.
  - exists s'. split_and!; [done|done|]. rewrite O; [vm_compute; reflexivity|..];
      done || lia.
Defined.

End MailboxFacts.
