(* ===== verification/GroupSched.v ===== *)
(** * Group control: grant scheduling and the worker endpoint

    Models the REQUEST/GRANT/DONE/FINISHED protocol of
    golem/groupctrl/groupctrl.cc.  [Sched] is the manager side: a bounded queue
    of requests, one outstanding grant per worker and a cap on the grants in
    flight per memory node.  [Worker] is the other end: a clock tick that turns
    mailbox flags into messages, and the handler of the manager's answers.

    The theorems show that the per-node counters are exact and capped, that a
    scheduling pass grants whenever it may, when the group is declared done,
    and that a worker forwards every mailbox request at most once.  They also
    exhibit two messages the manager mishandles: a DONE from a worker that
    holds no grant breaks the cap, and a FINISHED that gives back a coarse
    grant leaves requests waiting for the freed node. *)

From S2P Require Import Prelude GroupMsg.

Module Sched.

Record Config := mkConfig {
  groupId_ : Z;
  queueDepth_ : Z;
  maxInflightPerNode_ : Z;
  maxGrantsPerSchedule_ : Z;
  numMemoryNodes_ : Z
}.

(** The constructor replaces a zero cap by one. *)
Definition configure (groupId queueDepth maxInflight maxGrants numNodes : Z) : Config :=
  mkConfig groupId queueDepth (if maxInflight =? 0 then 1 else maxInflight)
    (if maxGrants =? 0 then 1 else maxGrants) numNodes.

Record PendingReq := mkPendingReq {
  workerSlot : Z;
  reqSeq : Z;
  window : Z;
  srcAddr : Z;
  dstAddr : Z;
  bytes : Z;
  targetNode : Z
}.
#[export] Instance pendingReq_inhabited : Inhabited PendingReq :=
  populate (mkPendingReq 0 0 0 0 0 0 0).

Record WorkerState := mkWorker {
  lastReqSeq : Z;
  lastGrantSeq : Z;
  lastDoneSeq : Z;
  finished : bool;
  inflight : bool;
  inflightNode : Z
}.
#[export] Instance eta_worker : Eta WorkerState := fun w =>
  mkWorker (lastReqSeq w) (lastGrantSeq w) (lastDoneSeq w) (finished w) (inflight w) (inflightNode w).
Definition no_worker : WorkerState := mkWorker 0 0 0 false false 0.
#[export] Instance worker_inhabited : Inhabited WorkerState := populate no_worker.

Record t := mk {
  pendingQ_ : list PendingReq;
  workers_ : list WorkerState;
  inflightPerNode_ : list Z;
  scheduleCursor_ : Z
}.
#[export] Instance eta_t : Eta t := fun s =>
  mk (pendingQ_ s) (workers_ s) (inflightPerNode_ s) (scheduleCursor_ s).

Definition kWorkers : Z := 4.

Definition init (cfg : Config) : t :=
  mk [] (replicate 4 no_worker) (replicate (Z.to_nat (numMemoryNodes_ cfg)) 0) 0.

Definition qsize (s : t) : Z := Z.of_nat (length (pendingQ_ s)).
Definition nodes (s : t) : Z := Z.of_nat (length (inflightPerNode_ s)).

(** A message and the worker slot it leaves for; all four links are connected. *)
Abbreviation sent := (Z * Msg.t)%type.

Definition sendRsp (slot : Z) (m : Msg.t) : list sent :=
  if (slot <? 0) || (kWorkers <=? slot) then []
  else
    let m := if decide (Msg.type m = GRANT) then
               if Msg.reqSeq m =? 0 then m <| Msg.window := 0 |> else m
             else m in
    [(slot, m)].

(** *** Scheduling *)

Definition eligible (cfg : Config) (s : t) (req : PendingReq) : bool :=
  negb (kWorkers <=? workerSlot req) &&
  negb (inflight ((workers_ s).[workerSlot req])) &&
  negb (nodes s <=? targetNode req) &&
  negb (maxInflightPerNode_ cfg <=? (inflightPerNode_ s).[targetNode req]).

(** The scan of the queue, [scanned] positions after the cursor. *)
Fixpoint scan (cfg : Config) (s : t) (fuel : nat) (scanned : Z) : option Z :=
  match fuel with
  | O => None
  | S fuel =>
      let idx := (scheduleCursor_ s + scanned) mod qsize s in
      if eligible cfg s ((pendingQ_ s).[idx]) then Some idx
      else scan cfg s fuel (scanned + 1)
  end.

Definition grant_msg (cfg : Config) (req : PendingReq) : Msg.t :=
  (Msg.make GRANT) <| Msg.groupId := u8 (groupId_ cfg) |>
    <| Msg.workerSlot := workerSlot req |> <| Msg.reqSeq := reqSeq req |>
    <| Msg.window := if window req =? 0 then 1 else window req |>
    <| Msg.targetNode := targetNode req |>.

Definition grant (idx : Z) (s : t) : t :=
  let req := (pendingQ_ s).[idx] in
  let w := (workers_ s).[workerSlot req] in
  let seq := if 1 <? window req
             then Z.lor (reqSeq req) Mailbox.GOLEM_WCP_COARSE_FINISHED_FLAG else reqSeq req in
  let w := w <| lastGrantSeq := seq |> <| inflight := true |> <| inflightNode := targetNode req |> in
  let q := delete (Z.to_nat idx) (pendingQ_ s) in
  mk q
     ((workers_ s).[workerSlot req := w])
     ((inflightPerNode_ s).[targetNode req := (inflightPerNode_ s).[targetNode req] ⊞₃₂ 1])
     (match q with [] => 0 | _ => idx mod Z.of_nat (length q) end).

(** The loop of [trySchedule]; every round but the last removes a request. *)
Fixpoint schedule (cfg : Config) (fuel : nat) (grantsIssued : Z) (s : t) : list sent * t :=
  match fuel with
  | O => ([], s)
  | S fuel =>
      if negb (0 <? qsize s) || negb (grantsIssued <? maxGrantsPerSchedule_ cfg) then ([], s)
      else
        let s := if qsize s <=? scheduleCursor_ s then s <| scheduleCursor_ := 0 |> else s in
        match scan cfg s (length (pendingQ_ s)) 0 with
        | None => ([], s)
        | Some idx =>
            let req := (pendingQ_ s).[idx] in
            let out := sendRsp (workerSlot req) (grant_msg cfg req) in
            let '(out', s') := schedule cfg fuel (grantsIssued + 1) (grant idx s) in
            (out ++ out', s')
        end
  end.

Definition trySchedule (cfg : Config) (s : t) : list sent * t :=
  schedule cfg (S (length (pendingQ_ s))) 0 s.

(** *** Completion of the group *)

Definition allWorkersFinished (s : t) : bool := forallb finished (workers_ s).

Definition groupDrained (s : t) : bool :=
  match pendingQ_ s with
  | [] => forallb (fun w => negb (inflight w)) (workers_ s) &&
          forallb (fun n => n =? 0) (inflightPerNode_ s)
  | _ => false
  end.

Definition done_msg (cfg : Config) (slot : Z) : Msg.t :=
  (Msg.make GROUP_DONE) <| Msg.groupId := u8 (groupId_ cfg) |> <| Msg.workerSlot := u8 slot |>.

Definition maybeSendGroupDone (cfg : Config) (s : t) : list sent :=
  if negb (allWorkersFinished s) || negb (groupDrained s) then []
  else concat (map (fun slot => sendRsp (Z.of_nat slot) (done_msg cfg (Z.of_nat slot)))
                 (seq 0 4)).

(** *** The three scheduling messages of [handleReq] *)

Definition handleRequest (cfg : Config) (m : Msg.t) (slot : Z) (s : t) : list sent * t :=
  if queueDepth_ cfg <=? qsize s then ([], s)
  else
    let req := mkPendingReq (u8 slot) (Msg.reqSeq m) (Msg.window m) (Msg.srcAddr m)
                 (Msg.dstAddr m) (Msg.bytes m) (Msg.targetNode m) in
    let w := ((workers_ s).[slot]) <| lastReqSeq := Msg.reqSeq m |> in
    trySchedule cfg (s <| workers_ := (workers_ s).[slot := w] |>
                       <| pendingQ_ := pendingQ_ s ++ [req] |>).

Definition decrement (node : Z) (s : t) : list Z :=
  if (node <? nodes s) && (0 <? (inflightPerNode_ s).[node])
  then (inflightPerNode_ s).[node := (inflightPerNode_ s).[node] - 1]
  else inflightPerNode_ s.

Definition handleDone (cfg : Config) (m : Msg.t) (slot : Z) (s : t) : list sent * t :=
  let w := (workers_ s).[slot] in
  let counts := decrement (inflightNode w) s in
  let w := w <| lastDoneSeq := Msg.reqSeq m |> <| inflight := false |> <| inflightNode := 0 |> in
  let '(out, s) := trySchedule cfg (s <| workers_ := (workers_ s).[slot := w] |>
                                      <| inflightPerNode_ := counts |>) in
  (out ++ maybeSendGroupDone cfg s, s).

Definition handleFinished (cfg : Config) (slot : Z) (s : t) : list sent * t :=
  let w := ((workers_ s).[slot]) <| finished := true |> in
  let coarse := negb (Z.land (lastGrantSeq w) Mailbox.GOLEM_WCP_COARSE_FINISHED_FLAG =? 0) in
  let counts := if coarse && inflight w then decrement (inflightNode w) s else inflightPerNode_ s in
  let w := if coarse then w <| inflight := false |> <| inflightNode := 0 |> else w in
  let s := s <| workers_ := (workers_ s).[slot := w] |> <| inflightPerNode_ := counts |> in
  (maybeSendGroupDone cfg s, s).

(** The scheduling part of [handleReq]; [slot] is that of the input link. *)
Definition handleReq (cfg : Config) (m : Msg.t) (slot : Z) (s : t) : list sent * t :=
  match Msg.type m with
  | REQUEST => handleRequest cfg m slot s
  | DONE => handleDone cfg m slot s
  | FINISHED => handleFinished cfg slot s
  | _ => ([], s)
  end.

End Sched.

(** ** The worker endpoint *)

Module Worker.
Import Mailbox.

(** The scheduling fields of a worker endpoint and the storage of its window. *)
Record t := mk {
  localGrantSeq_ : Z;
  localGrantWindow_ : Z;
  localGroupDone_ : bool;
  localReqSeqSeen_ : Z;
  localDoneSeqSeen_ : Z;
  localFinishedSeen_ : bool;
  gm_ : Storage.t
}.
#[export] Instance eta_t : Eta t := fun s =>
  mk (localGrantSeq_ s) (localGrantWindow_ s) (localGroupDone_ s) (localReqSeqSeen_ s)
    (localDoneSeqSeen_ s) (localFinishedSeen_ s) (gm_ s).

Record Identity := mkIdentity { groupId_ : Z; workerSlot_ : Z; gmBaseAddr_ : Z }.

Definition init (gm : Storage.t) : t := mk 0 0 false 0 0 false gm.

Definition header (me : Identity) (ty : GroupCtrlMsgType) : Msg.t :=
  (Msg.make ty) <| Msg.groupId := u8 (groupId_ me) |> <| Msg.workerSlot := u8 (workerSlot_ me) |>.

(** Forward a request the core posted; [None] is a fatal storage access. *)
Definition tick_request (me : Identity) (s : t) : option (list Msg.t * t) :=
  reqValid ← readMailboxU32 (gmBaseAddr_ me) CTRL_LOCAL_REQ_VALID_OFF (gm_ s);
  reqSeq ← readMailboxU32 (gmBaseAddr_ me) CTRL_LOCAL_REQ_SEQ_OFF (gm_ s);
  if negb (reqValid =? 0) && (localReqSeqSeen_ s <? reqSeq) then
    src ← readMailbox (gmBaseAddr_ me) CTRL_LOCAL_REQ_SRC_OFF (gm_ s);
    dst ← readMailbox (gmBaseAddr_ me) CTRL_LOCAL_REQ_DST_OFF (gm_ s);
    bytes ← readMailbox (gmBaseAddr_ me) CTRL_LOCAL_REQ_BYTES_OFF (gm_ s);
    node ← readMailbox (gmBaseAddr_ me) CTRL_LOCAL_REQ_NODE_OFF (gm_ s);
    window ← readMailbox (gmBaseAddr_ me) CTRL_LOCAL_REQ_WINDOW_OFF (gm_ s);
    let req := (header me REQUEST) <| Msg.reqSeq := reqSeq |> <| Msg.srcAddr := src |>
                 <| Msg.dstAddr := dst |> <| Msg.bytes := u32 bytes |>
                 <| Msg.targetNode := u16 node |> <| Msg.window := u8 window |> in
    gm ← writeMailboxU32 (gmBaseAddr_ me) CTRL_LOCAL_REQ_VALID_OFF 0 (gm_ s);
    Some ([req], s <| localReqSeqSeen_ := reqSeq |> <| gm_ := gm |>)
  else Some ([], s).

Definition tick_done (me : Identity) (s : t) : option (list Msg.t * t) :=
  doneValid ← readMailboxU32 (gmBaseAddr_ me) CTRL_LOCAL_DONE_VALID_OFF (gm_ s);
  doneSeq ← readMailboxU32 (gmBaseAddr_ me) CTRL_LOCAL_DONE_SEQ_OFF (gm_ s);
  if negb (doneValid =? 0) && (localDoneSeqSeen_ s <? doneSeq) then
    node ← readMailbox (gmBaseAddr_ me) CTRL_LOCAL_REQ_NODE_OFF (gm_ s);
    let done := (header me DONE) <| Msg.reqSeq := doneSeq |> <| Msg.targetNode := u16 node |> in
    gm ← writeMailboxU32 (gmBaseAddr_ me) CTRL_LOCAL_DONE_VALID_OFF 0 (gm_ s);
    Some ([done], s <| localDoneSeqSeen_ := doneSeq |> <| gm_ := gm |>)
  else Some ([], s).

Definition tick_finished (me : Identity) (s : t) : option (list Msg.t * t) :=
  finished ← readMailbox (gmBaseAddr_ me) CTRL_LOCAL_FINISHED_OFF (gm_ s);
  if negb (finished =? 0) && negb (localFinishedSeen_ s) then
    gm ← writeMailbox (gmBaseAddr_ me) CTRL_LOCAL_FINISHED_OFF 0 (gm_ s);
    Some ([header me FINISHED], s <| localFinishedSeen_ := true |> <| gm_ := gm |>)
  else Some ([], s).

(** The mailbox part of [tick], in the order of the source. *)
Definition tick (me : Identity) (s : t) : option (list Msg.t * t) :=
  '(o1, s) ← tick_request me s;
  '(o2, s) ← tick_done me s;
  '(o3, s) ← tick_finished me s;
  Some (o1 ++ o2 ++ o3, s).

(** The scheduling answers of [handleRsp]. *)
Definition handleRsp (me : Identity) (m : Msg.t) (s : t) : option t :=
  match Msg.type m with
  | GRANT =>
      gm ← writeMailboxU32 (gmBaseAddr_ me) CTRL_LOCAL_GRANT_SEQ_OFF (u32 (Msg.reqSeq m)) (gm_ s);
      gm ← writeMailboxU32 (gmBaseAddr_ me) CTRL_LOCAL_GRANT_WINDOW_OFF (u32 (Msg.window m)) gm;
      Some (s <| localGrantSeq_ := Msg.reqSeq m |> <| localGrantWindow_ := Msg.window m |>
              <| gm_ := gm |>)
  | GROUP_DONE =>
      gm ← writeMailboxU32 (gmBaseAddr_ me) CTRL_LOCAL_GROUP_DONE_OFF 1 (gm_ s);
      Some (s <| localGroupDone_ := true |> <| gm_ := gm |>)
  | _ => Some s
  end.

End Worker.

(** ** Scheduling invariants *)

Section SchedFacts.
Import Sched.

(** The grants in flight on a node, counted over the workers. *)
Definition on_node (node : Z) (w : WorkerState) : bool := inflight w && (inflightNode w =? node).
Definition count_on (node : Z) (ws : list WorkerState) : Z :=
  Z.of_nat (length (filter (fun w => on_node node w = true) ws)).

Record config_ok (cfg : Config) : Prop := {
  co_depth : 0 <= queueDepth_ cfg;
  co_inflight : 1 <= maxInflightPerNode_ cfg < 2 ^ 32;
  co_grants : 1 <= maxGrantsPerSchedule_ cfg;
  co_nodes : 0 <= numMemoryNodes_ cfg
}.

Definition req_ok (r : PendingReq) : Prop := 0 <= workerSlot r < kWorkers /\ 0 <= targetNode r.

(** The shape of the state, kept by every message. *)
Record shape (cfg : Config) (s : t) : Prop := {
  sh_workers : length (workers_ s) = 4%nat;
  sh_nodes : nodes s = numMemoryNodes_ cfg;
  sh_cap : Forall (fun c => 0 <= c <= maxInflightPerNode_ cfg) (inflightPerNode_ s);
  sh_queue : Forall req_ok (pendingQ_ s);
  sh_cursor : 0 <= scheduleCursor_ s
}.

(** The counters are exact and every grant in flight targets a real node. *)
Record exact (s : t) : Prop := {
  ex_count : forall node, 0 <= node < nodes s -> (inflightPerNode_ s).[node] = count_on node (workers_ s);
  ex_node : Forall (fun w => inflight w = true -> 0 <= inflightNode w < nodes s) (workers_ s)
}.

Lemma count_on_nonneg node ws : 0 <= count_on node ws.
Proof. unfold count_on. lia. Qed.

Lemma count_on_insert node ws i w :
  (i < length ws)%nat ->
  count_on node (<[i := w]> ws) =
  count_on node ws - Z.b2z (on_node node (ws !!! i)) + Z.b2z (on_node node w).
Proof.
  unfold count_on. revert i. induction ws as [|v ws IH]; intros [|i] Hi; simpl in Hi; try lia.
  - change ((v :: ws) !!! 0%nat) with v. change (<[0%nat := w]> (v :: ws)) with (w :: ws).
    rewrite !filter_cons. destruct (on_node node v), (on_node node w); simpl; lia.
  - change ((v :: ws) !!! S i) with (ws !!! i).
    change (<[S i := w]> (v :: ws)) with (v :: <[i := w]> ws).
    specialize (IH i ltac:(lia)). rewrite !filter_cons. case_decide; simpl; lia.
Qed.

(** *** The scan *)

Lemma scan_some cfg s fuel scanned idx :
  0 < qsize s -> scan cfg s fuel scanned = Some idx ->
  0 <= idx < qsize s /\ eligible cfg s ((pendingQ_ s).[idx]) = true.
Proof.
  intros Hq. revert scanned. induction fuel as [|fuel IH]; intros scanned; cbn [scan]; [done|].
  destruct (eligible cfg s ((pendingQ_ s).[(scheduleCursor_ s + scanned) mod qsize s])) eqn:E;
    [|by apply IH]. intros [= <-].
  split; [|done]. apply Z.mod_pos_bound. lia.
Qed.

Lemma scan_none cfg s fuel scanned i :
  scan cfg s fuel scanned = None -> scanned <= i < scanned + Z.of_nat fuel ->
  eligible cfg s ((pendingQ_ s).[(scheduleCursor_ s + i) mod qsize s]) = false.
Proof.
  revert scanned. induction fuel as [|fuel IH]; intros scanned; [lia|]. cbn [scan].
  destruct (eligible cfg s ((pendingQ_ s).[(scheduleCursor_ s + scanned) mod qsize s])) eqn:E;
    [done|]. intros Hn Hi.
  destruct (decide (i = scanned)) as [->|]; [done|]. apply (IH (scanned + 1)); [done|lia].
Qed.

Lemma scan_none_all cfg s :
  scan cfg s (length (pendingQ_ s)) 0 = None ->
  Forall (fun r => eligible cfg s r = false) (pendingQ_ s).
Proof.
  intros Hn. apply Forall_lookup. intros j r Hj. pose proof (lookup_lt_Some _ _ _ Hj) as Hlt.
  set (q := qsize s). assert (0 < q) as Hq by (unfold q, qsize; lia).
  set (i := (Z.of_nat j - scheduleCursor_ s) mod q).
  pose proof (Z.mod_pos_bound (Z.of_nat j - scheduleCursor_ s) q Hq) as Hi. fold i in Hi.
  pose proof (scan_none cfg s _ 0 i Hn) as H.
  assert ((scheduleCursor_ s + i) mod q = Z.of_nat j) as E.
  { unfold i. rewrite Z.add_mod_idemp_r by lia.
    replace (scheduleCursor_ s + (Z.of_nat j - scheduleCursor_ s)) with (Z.of_nat j) by lia.
    apply Z.mod_small. unfold q, qsize. lia. }
  fold q in H. rewrite E, Nat2Z.id in H. rewrite (list_lookup_total_correct _ _ _ Hj) in H.
  apply H. unfold q, qsize in Hi. lia.
Qed.

Lemma eligible_spec cfg s r :
  eligible cfg s r = true ->
  workerSlot r < kWorkers /\ inflight ((workers_ s).[workerSlot r]) = false /\
  targetNode r < nodes s /\ (inflightPerNode_ s).[targetNode r] < maxInflightPerNode_ cfg.
Proof.
  unfold eligible. rewrite !andb_true_iff, !negb_true_iff. intros [[[? ?] ?] ?].
  split_and!; done || lia.
Qed.

(** *** One grant *)

Lemma grant_shape cfg s idx :
  config_ok cfg -> shape cfg s -> 0 <= idx < qsize s ->
  eligible cfg s ((pendingQ_ s).[idx]) = true -> shape cfg (grant idx s).
Proof.
  intros C [Hw Hn Hc Hq Hcu] Hi He. apply eligible_spec in He as (Hs & _ & Ht & Hlt).
  assert (req_ok ((pendingQ_ s).[idx])) as [Hr1 Hr2].
  { apply (proj1 (Forall_lookup_total _ _) Hq). unfold qsize in Hi. lia. }
  constructor; unfold grant; cbn [workers_ inflightPerNode_ pendingQ_ scheduleCursor_].
  - by rewrite length_insert.
  - unfold nodes. cbn [inflightPerNode_]. by rewrite length_insert.
  - apply Forall_insert; [done|].
    assert (0 <= (inflightPerNode_ s).[targetNode ((pendingQ_ s).[idx])]) as H0.
    { apply (proj1 (Forall_lookup_total _ _) Hc). unfold nodes in Ht. lia. }
    pose proof (co_inflight _ C). rewrite u32_small by (unfold is_u32; lia). lia.
  - by apply Forall_delete.
  - destruct (delete _ _) eqn:E; [lia|]. apply Z.mod_pos_bound. simpl. lia.
Qed.

Lemma grant_exact cfg s idx :
  config_ok cfg -> shape cfg s -> exact s -> 0 <= idx < qsize s ->
  eligible cfg s ((pendingQ_ s).[idx]) = true -> exact (grant idx s).
Proof.
  intros C [Hw Hn Hc Hq Hcu] [Hx Hnode] Hi He. apply eligible_spec in He as (Hs & Hinf & Ht & Hlt).
  assert (req_ok ((pendingQ_ s).[idx])) as [Hr1 Hr2].
  { apply (proj1 (Forall_lookup_total _ _) Hq). unfold qsize in Hi. lia. }
  set (r := (pendingQ_ s).[idx]) in *. pose proof (co_inflight _ C). unfold nodes in *.
  constructor; unfold grant; fold r; cbn [workers_ inflightPerNode_]; unfold nodes;
    cbn [inflightPerNode_]; rewrite length_insert.
  - intros node Hnd. rewrite count_on_insert by (unfold kWorkers in *; lia).
    unfold on_node. rewrite Hinf. cbn [andb inflight inflightNode set_field]. simpl.
    destruct (decide (node = targetNode r)) as [->|Hne].
    + rewrite list_lookup_total_insert_eq by lia. rewrite (Hx (targetNode r)) by lia.
      rewrite Z.eqb_refl. pose proof (count_on_nonneg (targetNode r) (workers_ s)).
      rewrite <- Hx in * by lia. rewrite u32_small by (unfold is_u32; lia). simpl. lia.
    + rewrite list_lookup_total_insert_ne by lia. rewrite Hx by done.
      rewrite (proj2 (Z.eqb_neq (targetNode r) node)) by done. simpl. lia.
  - apply Forall_insert; [done|]. simpl. intros _. lia.
Qed.

(** *** A whole scheduling pass *)

(** The message a granted request produces. *)
Definition granted_msg (cfg : Config) (r : PendingReq) : Msg.t :=
  if reqSeq r =? 0 then (grant_msg cfg r) <| Msg.window := 0 |> else grant_msg cfg r.

Lemma sendRsp_grant cfg r :
  req_ok r -> sendRsp (workerSlot r) (grant_msg cfg r) = [(workerSlot r, granted_msg cfg r)].
Proof.
  intros [Hs _]. unfold sendRsp, kWorkers in *.
  rewrite (proj2 (Z.ltb_ge _ _)), (proj2 (Z.leb_gt _ _)) by lia. simpl orb. cbv iota.
  rewrite decide_True by done. done.
Qed.

(** What a pass of the loop does to the state. *)
Record pass (cfg : Config) (budget : Z) (s : t) (out : list sent) (s' : t)
    (granted : list PendingReq) : Prop := {
  ps_perm : pendingQ_ s ≡ₚ granted ++ pendingQ_ s';
  ps_order : sublist (pendingQ_ s') (pendingQ_ s);
  ps_out : out = map (fun r => (workerSlot r, granted_msg cfg r)) granted;
  ps_budget : Z.of_nat (length granted) <= Z.max 0 budget;
  ps_max : budget <= Z.of_nat (length granted) \/
           Forall (fun r => eligible cfg s' r = false) (pendingQ_ s');
  ps_keep : forall slot, 0 <= slot < kWorkers -> inflight ((workers_ s).[slot]) = true ->
            (workers_ s').[slot] = (workers_ s).[slot];
  ps_granted : Forall (fun r => inflight ((workers_ s).[workerSlot r]) = false /\
                 on_node (targetNode r) ((workers_ s').[workerSlot r]) = true) granted
}.

Lemma pass_stop cfg budget s :
  budget <= 0 \/ Forall (fun r => eligible cfg s r = false) (pendingQ_ s) -> pass cfg budget s [] s [].
Proof.
  intros H. constructor; done || (simpl; lia).
Qed.

Lemma grant_at idx s r :
  pendingQ_ s !! Z.to_nat idx = Some r -> 0 <= idx ->
  pendingQ_ s ≡ₚ r :: pendingQ_ (grant idx s).
Proof. intros H Hi. unfold grant. cbn [pendingQ_]. by apply delete_Permutation. Qed.

Lemma grant_worker s idx slot :
  length (workers_ s) = 4%nat -> 0 <= slot < kWorkers ->
  0 <= workerSlot ((pendingQ_ s).[idx]) < kWorkers ->
  (slot = workerSlot ((pendingQ_ s).[idx]) ->
     on_node (targetNode ((pendingQ_ s).[idx])) ((workers_ (grant idx s)).[slot]) = true) /\
  (slot <> workerSlot ((pendingQ_ s).[idx]) ->
     (workers_ (grant idx s)).[slot] = (workers_ s).[slot]).
Proof.
  intros Hw Hs Hr. unfold kWorkers in *. unfold grant. cbn [workers_]. split.
  - intros ->. rewrite list_lookup_total_insert_eq by lia. unfold on_node. simpl. apply Z.eqb_refl.
  - intros Hne. apply list_lookup_total_insert_ne. lia.
Qed.

Lemma pass_grant cfg budget s idx out s' granted :
  shape cfg s -> 0 <= idx < qsize s -> eligible cfg s ((pendingQ_ s).[idx]) = true -> 0 < budget ->
  pass cfg (budget - 1) (grant idx s) out s' granted ->
  pass cfg budget s (sendRsp (workerSlot ((pendingQ_ s).[idx])) (grant_msg cfg ((pendingQ_ s).[idx])) ++ out)
    s' ((pendingQ_ s).[idx] :: granted).
Proof.
  intros [Hw _ _ Hq _] Hi He Hb [P1 P2 P3 P4 P5 P6 P7].
  assert (pendingQ_ s !! Z.to_nat idx = Some ((pendingQ_ s).[idx])) as Hl
    by (apply list_lookup_lookup_total_lt; unfold qsize in Hi; lia).
  set (r := (pendingQ_ s).[idx]) in *.
  assert (req_ok r) as Hr by exact (proj1 (Forall_lookup _ _) Hq _ _ Hl).
  apply eligible_spec in He as (_ & Hinf & _ & _). pose proof Hr as [Hr1 _].
  constructor.
  - rewrite (grant_at idx s r Hl) by lia. simpl. by rewrite P1.
  - etransitivity; [exact P2|]. apply sublist_delete.
  - rewrite sendRsp_grant by done. simpl. by rewrite P3.
  - simpl. lia.
  - destruct P5; [left; simpl; lia|by right].
  - intros slot Hs Hin. destruct (grant_worker s idx slot Hw Hs Hr1) as [_ G].
    assert (slot <> workerSlot r) as Hne by congruence.
    rewrite P6 by (done || by rewrite G). by apply G.
  - constructor.
    + split; [done|]. destruct (grant_worker s idx (workerSlot r) Hw Hr1 Hr1) as [G _].
      specialize (G eq_refl). rewrite P6; [done|done|]. unfold on_node in G.
      by apply andb_true_iff in G as [? _].
    + apply Forall_forall. intros r' Hin. rewrite Forall_forall in P7. destruct (P7 r' Hin) as [Hf Hn].
      split; [|done]. destruct (decide (workerSlot r' = workerSlot r)) as [->|Hne]; [done|].
      assert (req_ok r') as [Hs _].
      { rewrite Forall_forall in Hq. apply Hq. rewrite (grant_at idx s r Hl), P1 by lia.
        right. apply elem_of_app. by left. }
      destruct (grant_worker s idx _ Hw Hs Hr1) as [_ G]. by rewrite G in Hf by done.
Qed.

Lemma shape_cursor cfg s : shape cfg s -> shape cfg (s <| scheduleCursor_ := 0 |>).
Proof. intros [? ? ? ? ?]. by constructor. Qed.

Lemma schedule_spec cfg fuel : config_ok cfg -> forall g s,
  shape cfg s -> (length (pendingQ_ s) < fuel)%nat ->
  let '(out, s') := schedule cfg fuel g s in
  shape cfg s' /\ (exact s -> exact s') /\
  exists granted, pass cfg (maxGrantsPerSchedule_ cfg - g) s out s' granted.
Proof.
  intros C. induction fuel as [|fuel IH]; intros g s Hsh Hf; [lia|]. cbn [schedule].
  destruct (negb (0 <? qsize s) || negb (g <? maxGrantsPerSchedule_ cfg)) eqn:Estop.
  { split_and!; [done|done|]. exists []. apply pass_stop.
    apply orb_true_iff in Estop as [E|E]; [right|left; lia].
    unfold qsize in E. destruct (pendingQ_ s); [constructor|simpl in E; lia]. }
  apply orb_false_iff in Estop as [Eq Eg].
  set (s0 := if qsize s <=? scheduleCursor_ s then s <| scheduleCursor_ := 0 |> else s).
  assert (shape cfg s0) as Hsh0 by (unfold s0; destruct (_ <=? _); [by apply shape_cursor|done]).
  assert (pendingQ_ s0 = pendingQ_ s /\ workers_ s0 = workers_ s /\
          inflightPerNode_ s0 = inflightPerNode_ s) as (Q0 & W0 & N0)
    by (unfold s0; destruct (_ <=? _); done).
  assert (exact s -> exact s0) as Hx0.
  { intros [? ?]. constructor; unfold nodes in *; rewrite ?N0, ?W0; done. }
  assert (forall out s' granted, pass cfg (maxGrantsPerSchedule_ cfg - g) s0 out s' granted ->
            pass cfg (maxGrantsPerSchedule_ cfg - g) s out s' granted) as Hp0.
  { intros out s' gr [P1 P2 P3 P4 P5 P6 P7]. rewrite Q0 in *. rewrite W0 in *. by constructor. }
  assert (0 < qsize s0) as Hq0 by (unfold qsize in *; rewrite Q0; lia).
  clearbody s0. destruct (scan cfg s0 (length (pendingQ_ s0)) 0) as [idx|] eqn:Es.
  - apply scan_some in Es as [Hi He]; [|done].
    pose proof (grant_shape cfg s0 idx C Hsh0 Hi He) as Hsh1.
    specialize (IH (g + 1) (grant idx s0) Hsh1).
    assert (length (pendingQ_ (grant idx s0)) < fuel)%nat as Hf'.
    { unfold grant. cbn [pendingQ_]. unfold qsize in *. rewrite Q0 in *.
      rewrite length_delete by (apply lookup_lt_is_Some_2; lia). lia. }
    specialize (IH Hf'). destruct (schedule cfg fuel (g + 1) (grant idx s0)) as [out' s'].
    destruct IH as (I1 & I2 & granted & I3). split_and!; [done| |].
    + intros Hx. apply I2, (grant_exact cfg); auto.
    + eexists. apply Hp0. eapply pass_grant; try done; [lia|].
      replace (maxGrantsPerSchedule_ cfg - g - 1) with (maxGrantsPerSchedule_ cfg - (g + 1)) by lia.
      exact I3.
  - split_and!; [done|auto|]. exists []. apply Hp0, pass_stop. right. by apply scan_none_all.
Qed.

Lemma trySchedule_spec cfg s : config_ok cfg -> shape cfg s ->
  let '(out, s') := trySchedule cfg s in
  shape cfg s' /\ (exact s -> exact s') /\ exists granted, pass cfg (maxGrantsPerSchedule_ cfg) s out s' granted.
Proof.
  intros C Hsh. pose proof (schedule_spec cfg (S (length (pendingQ_ s))) C 0 s Hsh ltac:(lia)) as H.
  unfold trySchedule. destruct (schedule _ _ _ _). by rewrite Z.sub_0_r in H.
Qed.

(** *** Messages *)

(** Storing a worker record that keeps its grant. *)
Lemma store_worker cfg s slot w :
  shape cfg s -> 0 <= slot < kWorkers ->
  inflight w = inflight ((workers_ s).[slot]) ->
  (inflight w = true -> inflightNode w = inflightNode ((workers_ s).[slot])) ->
  shape cfg (s <| workers_ := (workers_ s).[slot := w] |>) /\
  (exact s -> exact (s <| workers_ := (workers_ s).[slot := w] |>)).
Proof.
  intros [Hw Hn Hc Hq Hcu] Hs Ei En. unfold kWorkers in Hs. split.
  - constructor; try done. simpl. by rewrite length_insert.
  - intros [Hx Hnode]. constructor; unfold nodes in *; simpl.
    + intros node Hnd. rewrite Hx by done. rewrite count_on_insert by lia. unfold on_node.
      rewrite <- Ei. destruct (inflight w); [rewrite En by done|]; simpl; lia.
    + apply Forall_insert; [done|]. intros Hi. rewrite En by done. rewrite Ei in Hi. revert Hi.
      apply (proj1 (Forall_lookup_total _ _) Hnode). lia.
Qed.

(** A worker gives its grant back. *)
Lemma release_worker cfg s slot w :
  config_ok cfg -> shape cfg s -> 0 <= slot < kWorkers -> inflight w = false ->
  let s' := s <| workers_ := (workers_ s).[slot := w] |>
              <| inflightPerNode_ := decrement (inflightNode ((workers_ s).[slot])) s |> in
  shape cfg s' /\ (inflight ((workers_ s).[slot]) = true -> exact s -> exact s').
Proof.
  intros C [Hw Hn Hc Hq Hcu] Hs Ei s'. unfold kWorkers in Hs.
  set (old := (workers_ s).[slot]) in *. unfold nodes in *.
  assert (length (decrement (inflightNode old) s) = length (inflightPerNode_ s)) as Hlen.
  { unfold decrement. destruct (_ && _); [apply length_insert|done]. }
  split.
  - constructor; unfold nodes; simpl; rewrite ?length_insert, ?Hlen; try done.
    unfold decrement. destruct (_ && _) eqn:E; [|done].
    destruct (decide (Z.to_nat (inflightNode old) < length (inflightPerNode_ s))%nat) as [Hlt|Hge].
    + apply Forall_insert; [done|]. pose proof (proj1 (Forall_lookup_total _ _) Hc _ Hlt).
      simpl in *. lia.
    + by rewrite list_insert_ge by lia.
  - intros Ho [Hx Hnode].
    assert (0 <= inflightNode old < Z.of_nat (length (inflightPerNode_ s))) as Hold.
    { apply (proj1 (Forall_lookup_total _ _) Hnode); [lia|done]. }
    assert (1 <= count_on (inflightNode old) (workers_ s)) as Hpos.
    { pose proof (count_on_nonneg (inflightNode old) (<[Z.to_nat slot := w]> (workers_ s))) as H0.
      rewrite count_on_insert in H0 by lia. fold old in H0. unfold on_node in H0.
      rewrite Ho, Ei, Z.eqb_refl in H0. simpl in H0. lia. }
    assert (decrement (inflightNode old) s =
      (inflightPerNode_ s).[inflightNode old := (inflightPerNode_ s).[inflightNode old] - 1]) as Ed.
    { unfold decrement, nodes. rewrite Hx by done. rewrite (proj2 (Z.ltb_lt _ _)) by lia.
      by rewrite (proj2 (Z.ltb_lt 0 _)) by lia. }
    constructor; unfold nodes; unfold s'; simpl; rewrite ?Hlen.
    + intros node Hnd. rewrite Ed, count_on_insert by lia. fold old. unfold on_node. rewrite Ho, Ei. simpl.
      destruct (decide (node = inflightNode old)) as [->|Hne].
      * rewrite list_lookup_total_insert_eq by lia. rewrite Hx by done. rewrite Z.eqb_refl. simpl. lia.
      * rewrite list_lookup_total_insert_ne by lia. rewrite Hx by done.
        rewrite (proj2 (Z.eqb_neq _ _)) by done. simpl. lia.
    + apply Forall_insert; [done|]. by rewrite Ei.
Qed.

(** The full invariant. *)
Definition inv (cfg : Config) (s : t) : Prop := shape cfg s /\ exact s /\ qsize s <= queueDepth_ cfg.

Lemma try_inv cfg s :
  config_ok cfg -> inv cfg s -> inv cfg (snd (trySchedule cfg s)).
Proof.
  intros C (Hsh & Hx & Hq). pose proof (trySchedule_spec cfg s C Hsh) as H.
  destruct (trySchedule cfg s) as [out s']. destruct H as (Hsh' & Hx' & granted & P).
  split_and!; [done|auto|]. simpl. unfold qsize in *.
  pose proof (sublist_length _ _ (ps_order _ _ _ _ _ _ P)). lia.
Qed.

Lemma sched_init_inv cfg : config_ok cfg -> inv cfg (init cfg).
Proof.
  intros C. pose proof (co_nodes _ C). pose proof (co_inflight _ C). pose proof (co_depth _ C).
  split_and!; [| |done].
  - constructor; try done; unfold nodes; simpl.
    + rewrite length_replicate. lia.
    + apply Forall_replicate. lia.
  - constructor; unfold nodes; simpl.
    + rewrite length_replicate. intros node Hn. rewrite lookup_total_replicate_2 by lia. done.
    + repeat constructor; done.
Qed.

(** A worker reports DONE only for a grant it holds. *)
Definition protocol (m : Msg.t) (slot : Z) (s : t) : Prop :=
  0 <= slot < kWorkers /\ 0 <= Msg.targetNode m /\
  (Msg.type m = DONE -> inflight ((workers_ s).[slot]) = true).

Lemma handle_inv cfg m slot s :
  config_ok cfg -> inv cfg s -> protocol m slot s -> inv cfg (snd (handleReq cfg m slot s)).
Proof.
  intros C I (Hs & Ht & Hd). pose proof I as (Hsh & Hx & Hq). unfold handleReq.
  destruct (Msg.type m) eqn:Ety; try exact I.
  - unfold handleRequest. destruct (queueDepth_ cfg <=? qsize s) eqn:E; [done|]. apply try_inv; [done|].
    set (w := _ <| lastReqSeq := _ |>).
    destruct (store_worker cfg s slot w Hsh Hs) as [Hsh' Hx']; [done|done|].
    specialize (Hx' Hx). destruct Hsh' as [? ? ? ? ?], Hx' as [? ?].
    split_and!; [constructor; try done| by constructor|].
    + simpl. apply Forall_app. split; [done|]. repeat constructor; simpl; try done.
      all: unfold kWorkers in *; rewrite u8_small by (unfold is_u8; lia); lia.
    + unfold qsize in *. simpl. rewrite length_app. simpl. lia.
  - unfold handleDone. set (w := _ <| inflightNode := 0 |>).
    destruct (release_worker cfg s slot w C Hsh Hs) as [Hsh' Hx']; [done|].
    specialize (Hx' (Hd eq_refl) Hx). set (s1 := _ <| inflightPerNode_ := _ |>) in *.
    pose proof (try_inv cfg s1 C) as H. destruct (trySchedule cfg s1). apply H. by split_and!.
  - unfold handleFinished. cbv zeta. cbn [snd]. set (w := _ <| finished := true |>).
    destruct (negb _); cbn [andb].
    + destruct (inflight w) eqn:Ei.
      * set (w' := _ <| inflightNode := 0 |>).
        destruct (release_worker cfg s slot w' C Hsh Hs) as [Hsh' Hx']; [done|].
        split_and!; [exact Hsh'|exact (Hx' Ei Hx)|done].
      * set (w' := _ <| inflightNode := 0 |>).
        destruct (store_worker cfg s slot w' Hsh Hs) as [Hsh' Hx']; [done|done|].
        split_and!; [|by apply Hx'|done]. exact Hsh'.
    + destruct (store_worker cfg s slot w Hsh Hs) as [Hsh' Hx']; [done|done|].
      split_and!; [|by apply Hx'|done]. exact Hsh'.
Qed.

(** ** Reachable states *)

(** Histories of a manager whose workers follow the protocol. *)
Inductive history (cfg : Config) : t -> Prop :=
| history_init : history cfg (init cfg)
| history_step m slot s : history cfg s -> protocol m slot s -> history cfg (snd (handleReq cfg m slot s)).

Lemma history_inv cfg s : config_ok cfg -> history cfg s -> inv cfg s.
Proof. intros C. induction 1; [by apply sched_init_inv|by apply handle_inv]. Qed.

(** C17. Along every history in which workers report DONE only for grants they
    hold, the counter of each memory node is exactly the number of workers in
    flight on it and never exceeds [maxInflightPerNode_]; every grant in flight
    targets an existing node and the request queue never exceeds its depth. *)
Theorem sched_safe cfg s :
  config_ok cfg -> history cfg s ->
  (forall node, 0 <= node < numMemoryNodes_ cfg ->
     (inflightPerNode_ s).[node] = count_on node (workers_ s) /\
     count_on node (workers_ s) <= maxInflightPerNode_ cfg) /\
  Forall (fun w => inflight w = true -> 0 <= inflightNode w < numMemoryNodes_ cfg) (workers_ s) /\
  qsize s <= queueDepth_ cfg.
Proof.
  intros C H. destruct (history_inv cfg s C H) as ([Hw Hn Hc _ _] & [Hx Hnode] & Hq).
  rewrite Hn in *. split_and!; [|done|done]. intros node Hnd. pose proof (Hx node Hnd) as E.
  split; [done|]. rewrite <- E. unfold nodes in Hn.
  apply (proj1 (Forall_lookup_total _ _) Hc). lia.
Qed.

(** C33. Scheduling is work conserving.  A pass of [trySchedule] takes requests
    out of the queue, keeps the rest in order, sends one GRANT per request taken
    to a worker that had none and is then in flight on the requested node, and
    stops only after [maxGrantsPerSchedule_] grants or when no queued request
    may be granted; grants already in flight are untouched. *)
Theorem schedule_maximal cfg s :
  config_ok cfg -> shape cfg s ->
  let '(out, s') := trySchedule cfg s in
  exists granted,
    pendingQ_ s ≡ₚ granted ++ pendingQ_ s' /\ sublist (pendingQ_ s') (pendingQ_ s) /\
    out = map (fun r => (workerSlot r, granted_msg cfg r)) granted /\
    Z.of_nat (length granted) <= maxGrantsPerSchedule_ cfg /\
    (Z.of_nat (length granted) = maxGrantsPerSchedule_ cfg \/
     Forall (fun r => eligible cfg s' r = false) (pendingQ_ s')) /\
    (forall slot, 0 <= slot < kWorkers -> inflight ((workers_ s).[slot]) = true ->
       (workers_ s').[slot] = (workers_ s).[slot]) /\
    Forall (fun r => inflight ((workers_ s).[workerSlot r]) = false /\
                     on_node (targetNode r) ((workers_ s').[workerSlot r]) = true) granted.
Proof.
  intros C Hsh. pose proof (trySchedule_spec cfg s C Hsh) as H. pose proof (co_grants _ C).
  destruct (trySchedule cfg s) as [out s']. destruct H as (_ & _ & granted & [? ? ? ? P5 ? ?]).
  exists granted. split_and!; try done; [lia|]. destruct P5; [left; lia|by right].
Qed.

(** ** Completion of the group *)

Definition quiescent (s : t) : Prop :=
  Forall (fun w => finished w = true) (workers_ s) /\ pendingQ_ s = [] /\
  Forall (fun w => inflight w = false) (workers_ s).

Lemma forallb_Forall {A} (f : A -> bool) l : forallb f l = true <-> Forall (fun x => f x = true) l.
Proof. rewrite forallb_forall, Forall_forall. by setoid_rewrite list_elem_of_In. Qed.

Lemma drained_quiescent cfg s :
  inv cfg s -> allWorkersFinished s && groupDrained s = true <-> quiescent s.
Proof.
  intros ([Hw Hn Hc _ _] & [Hx _] & _). unfold quiescent, allWorkersFinished, groupDrained.
  rewrite andb_true_iff, forallb_Forall. destruct (pendingQ_ s);
    [|split; [by intros [_ ?]|by intros (_ & ? & _)]].
  rewrite andb_true_iff, !forallb_Forall. split.
  - intros (H1 & H2 & _). split_and!; try done. apply (Forall_impl _ _ _ H2). intros w.
    apply negb_true_iff.
  - intros (H1 & _ & H2). split_and!; [done| |].
    + apply (Forall_impl _ _ _ H2). intros w ->. done.
    + apply Forall_lookup. intros i c Hi. pose proof (lookup_lt_Some _ _ _ Hi).
      assert (c = (inflightPerNode_ s).[Z.of_nat i]) as ->
        by (rewrite Nat2Z.id; symmetry; by apply list_lookup_total_correct).
      rewrite Hx by (unfold nodes; lia). apply Z.eqb_eq. unfold count_on.
      assert (filter (fun w => on_node (Z.of_nat i) w = true) (workers_ s) = []) as ->; [|done].
      clear -H2. induction H2 as [|w ws Hw _ IH]; [done|]. rewrite filter_cons_False; [done|].
      unfold on_node. by rewrite Hw.
Qed.

Definition done_msgs (cfg : Config) : list sent :=
  map (fun slot => (slot, done_msg cfg slot)) [0; 1; 2; 3].

Abbreviation group_done_of out := (filter (fun o : sent => Msg.type (snd o) = GROUP_DONE) out).

Lemma maybe_done cfg s :
  inv cfg s ->
  (quiescent s -> maybeSendGroupDone cfg s = done_msgs cfg) /\
  (~ quiescent s -> maybeSendGroupDone cfg s = []).
Proof.
  intros I. pose proof (drained_quiescent cfg s I) as D. unfold maybeSendGroupDone.
  rewrite <- negb_andb. split; intros Hq.
  - apply D in Hq as ->. done.
  - destruct (_ && _); [|done]. by destruct Hq; apply D.
Qed.

Lemma try_no_done cfg s :
  config_ok cfg -> shape cfg s -> group_done_of (fst (trySchedule cfg s)) = [].
Proof.
  intros C Hsh. pose proof (trySchedule_spec cfg s C Hsh) as H.
  destruct (trySchedule cfg s) as [out s']. destruct H as (_ & _ & granted & P).
  simpl. rewrite (ps_out _ _ _ _ _ _ P). clear P. induction granted as [|r l IH]; [done|].
  simpl map. rewrite filter_cons_False; [done|]. unfold granted_msg. simpl.
  by destruct (_ =? 0).
Qed.

Lemma handle_out cfg m slot s :
  config_ok cfg -> inv cfg s -> protocol m slot s ->
  let '(out, s') := handleReq cfg m slot s in
  group_done_of out =
    if decide (Msg.type m = DONE \/ Msg.type m = FINISHED) then maybeSendGroupDone cfg s' else [].
Proof.
  intros C I P. pose proof (handle_inv cfg m slot s C I P) as I'. destruct I as (Hsh & Hx & Hq).
  destruct P as (Hs & Ht & Hd).
  assert (forall s, inv cfg s -> group_done_of (maybeSendGroupDone cfg s) = maybeSendGroupDone cfg s)
    as Hf.
  { intros s0 _. unfold maybeSendGroupDone. destruct (_ || _); done. }
  unfold handleReq in *. destruct (Msg.type m) eqn:Ety; try done.
  - unfold handleRequest in *. destruct (_ <=? _); [done|].
    set (s1 := _ <| pendingQ_ := _ |>) in *.
    pose proof (try_no_done cfg s1 C) as H. destruct (trySchedule cfg s1). simpl fst in H.
    rewrite decide_False by (by intros [?|?]). apply H.
    destruct (store_worker cfg s slot (((workers_ s).[slot]) <| lastReqSeq := Msg.reqSeq m |>) Hsh Hs)
      as [[? ? ? ? ?] _]; [done|done|]. constructor; try done.
    simpl. apply Forall_app. split; [done|]. repeat constructor; simpl; try done.
    all: unfold kWorkers in *; rewrite u8_small by (unfold is_u8; lia); lia.
  - unfold handleDone in *.
    set (s1 := _ <| inflightPerNode_ := _ |>) in *.
    pose proof (try_no_done cfg s1 C) as H. destruct (trySchedule cfg s1).
    rewrite decide_True, filter_app by (by left). simpl fst in H. rewrite Hf by done.
    rewrite H; [done|]. by apply release_worker.
  - unfold handleFinished in *. cbv zeta in *. rewrite decide_True by (by right). by apply Hf.
Qed.

(** GROUP_DONE is sent exactly when the group is done: the manager answers a
    DONE or FINISHED message with GROUP_DONE to all four workers if afterwards
    every worker has finished, no request is queued and no grant is in flight;
    otherwise, and for any other message, it sends no GROUP_DONE at all. *)
Theorem group_done_exact cfg m slot s :
  config_ok cfg -> history cfg s -> protocol m slot s ->
  let '(out, s') := handleReq cfg m slot s in
  let done_now := (Msg.type m = DONE \/ Msg.type m = FINISHED) /\ quiescent s' in
  (done_now -> group_done_of out = done_msgs cfg) /\ (~ done_now -> group_done_of out = []).
Proof.
  intros C H P. pose proof (history_inv cfg s C H) as I.
  pose proof (handle_out cfg m slot s C I P) as Ho. pose proof (handle_inv cfg m slot s C I P) as I'.
  destruct (handleReq cfg m slot s) as [out s']. destruct (maybe_done cfg s' I') as [M1 M2].
  rewrite Ho. case_decide as Ht; split; intros Hd; try done.
  - by apply M1, Hd.
  - apply M2. intros Hq. by apply Hd.
  - by destruct Hd.
Qed.

(** ** Messages that the manager mishandles *)

Fixpoint run (cfg : Config) (msgs : list (Msg.t * Z)) (s : t) : list sent * t :=
  match msgs with
  | [] => ([], s)
  | (m, slot) :: msgs =>
      let '(o, s) := handleReq cfg m slot s in
      let '(o', s) := run cfg msgs s in (o ++ o', s)
  end.

Definition request (seq node window : Z) : Msg.t :=
  (Msg.make REQUEST) <| Msg.reqSeq := seq |> <| Msg.targetNode := node |> <| Msg.window := window |>.
Definition demo_cfg : Config := configure 0 32 1 1 5.


Lemma finished_waits cfg slot s :
  pendingQ_ s <> [] ->
  fst (handleFinished cfg slot s) = [] /\
  pendingQ_ (snd (handleFinished cfg slot s)) = pendingQ_ s.
Proof.
  intros Hq. unfold handleFinished. cbv zeta. cbn [fst snd]. split; [|done].
  unfold maybeSendGroupDone, groupDrained. cbn [pendingQ_ set_field]. simpl.
  destruct (pendingQ_ s); [done|]. by rewrite orb_true_r.
Qed.

Lemma finished_run cfg slots s :
  pendingQ_ s <> [] ->
  let '(out, s') := run cfg (map (fun slot => (Msg.make FINISHED, slot)) slots) s in
  out = [] /\ pendingQ_ s' = pendingQ_ s.
Proof.
  revert s. induction slots as [|slot slots IH]; intros s Hq; [done|]. cbn [map run].
  change (handleReq cfg (Msg.make FINISHED) slot s) with (handleFinished cfg slot s).
  destruct (finished_waits cfg slot s Hq) as [H1 H2].
  destruct (handleFinished cfg slot s) as [o s1]. simpl in H1, H2. subst o.
  specialize (IH s1). rewrite H2 in IH. specialize (IH Hq).
  destruct (run _ _ s1) as [o s2]. done.
Qed.

(** A FINISHED message that gives back a coarse grant frees its node without
    scheduling: after worker 0 finishes, the request of worker 1 may be granted
    and is not, and however many FINISHED messages follow, the manager sends
    neither the grant nor GROUP_DONE. *)
Theorem coarse_finish_strands :
  let '(_, s) := run demo_cfg [(request 1 0 4, 0); (request 1 0 1, 1); (Msg.make FINISHED, 0)]
                   (init demo_cfg) in
  map (eligible demo_cfg s) (pendingQ_ s) = [true] /\
  forall slots, let '(out, s') := run demo_cfg (map (fun slot => (Msg.make FINISHED, slot)) slots) s in
    out = [] /\ pendingQ_ s' = pendingQ_ s.
Proof.
  set (r := run _ _ (init demo_cfg)). vm_compute in r. subst r.
  split; [done|]. intros slots. by apply finished_run.
Qed.

Lemma demo_ok : config_ok demo_cfg.
Proof. constructor; simpl; lia. Qed.

Definition demo_1 : t := snd (handleReq demo_cfg (request 1 0 1) 0 (init demo_cfg)).
Definition demo_2 : t := snd (handleReq demo_cfg (request 1 0 1) 1 demo_1).

Lemma demo_history : history demo_cfg demo_2.
Proof.
  apply history_step; [apply history_step; [apply history_init|]|]; by repeat split.
Qed.

Lemma sched_safe_witness :
  (inflightPerNode_ demo_2).[0] = 1 /\ count_on 0 (workers_ demo_2) <= 1 /\ qsize demo_2 <= 32.
Proof.
  destruct (sched_safe demo_cfg demo_2 demo_ok demo_history) as (H & _ & Hq).
  destruct (H 0 ltac:(simpl; lia)) as [_ Hc]. split_and!; [by vm_compute|exact Hc|exact Hq].
Defined.

(** One free node, two queued requests for it. *)
Definition demo_queue : t :=
  (init demo_cfg) <| pendingQ_ := [mkPendingReq 2 7 1 0 0 64 3; mkPendingReq 1 4 1 0 0 64 3] |>.

Lemma schedule_maximal_witness :
  Forall (fun r => eligible demo_cfg (snd (trySchedule demo_cfg demo_queue)) r = false)
    (pendingQ_ (snd (trySchedule demo_cfg demo_queue))) /\
  exists granted, pendingQ_ demo_queue ≡ₚ granted ++ pendingQ_ (snd (trySchedule demo_cfg demo_queue)) /\
    length granted = 1%nat.
Proof.
  assert (shape demo_cfg demo_queue) as Hsh.
  { constructor; try done; repeat constructor; simpl; lia. }
  pose proof (schedule_maximal demo_cfg demo_queue demo_ok Hsh) as H.
  split; [vm_compute; repeat constructor|].
  assert (trySchedule demo_cfg demo_queue =
    (fst (trySchedule demo_cfg demo_queue), snd (trySchedule demo_cfg demo_queue))) as E
    by apply surjective_pairing.
  rewrite E in H. destruct H as (granted & Hp & _). exists granted. split; [exact Hp|].
  apply Permutation_length in Hp. rewrite length_app in Hp.
  change (length (pendingQ_ demo_queue)) with 2%nat in Hp.
  assert (length (pendingQ_ (snd (trySchedule demo_cfg demo_queue))) = 1%nat) as E1 by (by vm_compute).
  lia.
Defined.

(** A group in which only worker 3 still has to finish. *)
Definition fin (slot : Z) (s : t) : t := snd (handleReq demo_cfg (Msg.make FINISHED) slot s).

Lemma group_done_exact_witness :
  group_done_of (fst (handleReq demo_cfg (Msg.make FINISHED) 3 (fin 2 (fin 1 (fin 0 (init demo_cfg))))))
    = done_msgs demo_cfg.
Proof.
  assert (history demo_cfg (fin 2 (fin 1 (fin 0 (init demo_cfg))))) as H.
  { repeat (apply history_step; [|by repeat split]). apply history_init. }
  pose proof (group_done_exact demo_cfg (Msg.make FINISHED) 3 _ demo_ok H ltac:(by repeat split)) as G.
  set (r := handleReq _ _ _ _) in *. vm_compute in r. subst r. destruct G as [G _].
  simpl fst. apply G. split; [by right|]. repeat split; repeat constructor.
Defined.

End SchedFacts.

(** ** The worker endpoint *)

Section WorkerFacts.
Import Worker.

(** Sequence numbers of the messages of one type, in the order sent. *)
Definition seqs (ty : GroupCtrlMsgType) (out : list Msg.t) : list Z :=
  map Msg.reqSeq (filter (fun m => Msg.type m = ty) out).

(** A worker's life: its clock ticks, the manager's answers arrive, and between
    them the core writes its window as it likes. *)
Inductive wrun (me : Identity) : list Msg.t -> Worker.t -> Prop :=
| wrun_init gm : mailbox_ok (gmBaseAddr_ me) gm -> wrun me [] (Worker.init gm)
| wrun_core out s gm :
    wrun me out s -> mailbox_ok (gmBaseAddr_ me) gm -> wrun me out (s <| gm_ := gm |>)
| wrun_tick out s o s' : wrun me out s -> tick me s = Some (o, s') -> wrun me (out ++ o) s'
| wrun_rsp out s m s' : wrun me out s -> Worker.handleRsp me m s = Some s' -> wrun me out s'.

Lemma seqs_app ty a b : seqs ty (a ++ b) = seqs ty a ++ seqs ty b.
Proof. unfold seqs. by rewrite filter_app, map_app. Qed.

(** Every mailbox access of an endpoint bound to its window succeeds. *)
Lemma mailbox_read_ok base off gm :
  mailbox_ok base gm -> 0 <= off <= 0x60 -> exists v, Mailbox.readMailbox base off gm = Some v.
Proof. intros M Ho. rewrite read_mailbox by done. eauto. Qed.

Lemma mailbox_read32_ok base off gm :
  mailbox_ok base gm -> 0 <= off <= 0x60 -> exists v, Mailbox.readMailboxU32 base off gm = Some v.
Proof. intros M Ho. rewrite read_u32 by done. eauto. Qed.

Lemma mailbox_write_ok base off v gm :
  mailbox_ok base gm -> 0 <= off <= 0x60 ->
  exists gm', Mailbox.writeMailbox base off v gm = Some gm' /\ mailbox_ok base gm'.
Proof.
  intros M Ho. rewrite write_mailbox by done. eexists. split; [done|].
  apply mailbox_insert; [done|apply encode_u8].
Qed.

Lemma mailbox_write32_ok base off v gm :
  mailbox_ok base gm -> 0 <= off <= 0x60 -> off mod 4 = 0 -> is_u32 v ->
  exists gm', Mailbox.writeMailboxU32 base off v gm = Some gm' /\ mailbox_ok base gm' /\
    Mailbox.readMailboxU32 base off gm' = Some v.
Proof.
  intros M Ho Hm Hv. rewrite write_u32 by done. eexists. split; [done|].
  assert (mailbox_ok base (gm <| Storage.bytes :=
    list_inserts (at_off off) (Storage.encode_le 4 v) (Storage.bytes gm) |>)) as M'
    by (apply mailbox_insert; [done|apply encode_u8]).
  split; [done|]. rewrite read_u32, bytes_set by done. f_equal.
  pose proof (read_back (at_off off) (Storage.encode_le 4 v) (Storage.bytes gm)) as R.
  rewrite length_encode in R. rewrite R; [by apply decode_encode|].
  pose proof (mb_size _ _ M). unfold Storage.size, at_off, Mailbox.CTRL_LOCAL_MAILBOX_BASE in *. lia.
Qed.

Ltac mb_off := done || lia.

Ltac mb_read o v :=
  match goal with
  | M : mailbox_ok ?b ?g |- context [Mailbox.readMailbox ?b o ?g] =>
      destruct (mailbox_read_ok b o g M ltac:(mb_off)) as [v ->]; cbn [mbind option_bind]
  end.

Ltac mb_read32 o v :=
  match goal with
  | M : mailbox_ok ?b ?g |- context [Mailbox.readMailboxU32 ?b o ?g] =>
      destruct (mailbox_read32_ok b o g M ltac:(mb_off)) as [v ->]; cbn [mbind option_bind]
  end.

(** One part of the tick: at most one message, of the part's type. *)
Lemma tick_request_spec me s :
  mailbox_ok (gmBaseAddr_ me) (gm_ s) ->
  exists o s', tick_request me s = Some (o, s') /\ mailbox_ok (gmBaseAddr_ me) (gm_ s') /\
    localDoneSeqSeen_ s' = localDoneSeqSeen_ s /\ localFinishedSeen_ s' = localFinishedSeen_ s /\
    (o = [] /\ localReqSeqSeen_ s' = localReqSeqSeen_ s \/
     exists m, o = [m] /\ Msg.type m = REQUEST /\ Msg.reqSeq m = localReqSeqSeen_ s' /\
       localReqSeqSeen_ s < localReqSeqSeen_ s' /\
       Mailbox.readMailboxU32 (gmBaseAddr_ me) Mailbox.CTRL_LOCAL_REQ_SEQ_OFF (gm_ s)
         = Some (Msg.reqSeq m) /\
       Mailbox.readMailboxU32 (gmBaseAddr_ me) Mailbox.CTRL_LOCAL_REQ_VALID_OFF (gm_ s') = Some 0).
Proof.
  intros M. unfold tick_request. mb_read32 constr:(Mailbox.CTRL_LOCAL_REQ_VALID_OFF) valid.
  mb_read32 constr:(Mailbox.CTRL_LOCAL_REQ_SEQ_OFF) rs.
  destruct (negb (valid =? 0) && (localReqSeqSeen_ s <? rs)) eqn:E; [|by eexists _, _; eauto 10].
  mb_read constr:(Mailbox.CTRL_LOCAL_REQ_SRC_OFF) src. mb_read constr:(Mailbox.CTRL_LOCAL_REQ_DST_OFF) dst.
  mb_read constr:(Mailbox.CTRL_LOCAL_REQ_BYTES_OFF) bytes. mb_read constr:(Mailbox.CTRL_LOCAL_REQ_NODE_OFF) node.
  mb_read constr:(Mailbox.CTRL_LOCAL_REQ_WINDOW_OFF) window.
  destruct (mailbox_write32_ok _ Mailbox.CTRL_LOCAL_REQ_VALID_OFF 0 _ M ltac:(mb_off) ltac:(mb_off)
    ltac:(unfold is_u32; lia)) as (gm & -> & M' & R). cbn [mbind option_bind].
  eexists _, _. split; [reflexivity|]. split; [exact M'|]. split; [done|]. split; [done|]. right.
  eexists. split; [done|]. apply andb_true_iff in E as [_ E].
  repeat apply conj; try done; simpl; lia.
Qed.

Lemma tick_done_spec me s :
  mailbox_ok (gmBaseAddr_ me) (gm_ s) ->
  exists o s', tick_done me s = Some (o, s') /\ mailbox_ok (gmBaseAddr_ me) (gm_ s') /\
    localReqSeqSeen_ s' = localReqSeqSeen_ s /\ localFinishedSeen_ s' = localFinishedSeen_ s /\
    (o = [] /\ localDoneSeqSeen_ s' = localDoneSeqSeen_ s \/
     exists m, o = [m] /\ Msg.type m = DONE /\ Msg.reqSeq m = localDoneSeqSeen_ s' /\
       localDoneSeqSeen_ s < localDoneSeqSeen_ s').
Proof.
  intros M. unfold tick_done. mb_read32 constr:(Mailbox.CTRL_LOCAL_DONE_VALID_OFF) valid.
  mb_read32 constr:(Mailbox.CTRL_LOCAL_DONE_SEQ_OFF) rs.
  destruct (negb (valid =? 0) && (localDoneSeqSeen_ s <? rs)) eqn:E; [|by eexists _, _; eauto 10].
  mb_read constr:(Mailbox.CTRL_LOCAL_REQ_NODE_OFF) node.
  destruct (mailbox_write32_ok _ Mailbox.CTRL_LOCAL_DONE_VALID_OFF 0 _ M ltac:(mb_off) ltac:(mb_off)
    ltac:(unfold is_u32; lia)) as (gm & -> & M' & _). cbn [mbind option_bind].
  eexists _, _. split; [reflexivity|]. split; [exact M'|]. split; [done|]. split; [done|]. right.
  eexists. split; [done|]. apply andb_true_iff in E as [_ E].
  repeat apply conj; try done; simpl; lia.
Qed.

Lemma tick_finished_spec me s :
  mailbox_ok (gmBaseAddr_ me) (gm_ s) ->
  exists o s', tick_finished me s = Some (o, s') /\ mailbox_ok (gmBaseAddr_ me) (gm_ s') /\
    localReqSeqSeen_ s' = localReqSeqSeen_ s /\ localDoneSeqSeen_ s' = localDoneSeqSeen_ s /\
    (o = [] /\ localFinishedSeen_ s' = localFinishedSeen_ s \/
     exists m, o = [m] /\ Msg.type m = FINISHED /\
       localFinishedSeen_ s = false /\ localFinishedSeen_ s' = true).
Proof.
  intros M. unfold tick_finished. mb_read constr:(Mailbox.CTRL_LOCAL_FINISHED_OFF) v.
  destruct (negb (v =? 0) && negb (localFinishedSeen_ s)) eqn:E; [|by eexists _, _; eauto 10].
  destruct (mailbox_write_ok _ Mailbox.CTRL_LOCAL_FINISHED_OFF 0 _ M ltac:(mb_off))
    as (gm & -> & M'). cbn [mbind option_bind].
  eexists _, _. split; [reflexivity|]. split; [exact M'|]. split; [done|]. split; [done|]. right.
  eexists. split; [done|]. apply andb_true_iff in E as [_ E]. apply negb_true_iff in E. done.
Qed.

Lemma sched_sorted_snoc (l : list Z) k x :
  StronglySorted Z.lt l -> Forall (fun y => y <= k) l -> k < x ->
  StronglySorted Z.lt (l ++ [x]) /\ Forall (fun y => y <= x) (l ++ [x]).
Proof.
  intros Hs Hf Hx. induction Hs as [|y l Hl IH Hy]; simpl.
  - repeat constructor. lia.
  - inversion Hf as [|? ? H1 H2]; subst. destruct (IH H2) as [I1 I2].
    split; constructor; try done; [|lia]. apply Forall_app. repeat constructor; [done|lia].
Qed.

(** What the endpoint remembers about the messages it has sent. *)
Record sent_ok (me : Identity) (out : list Msg.t) (s : Worker.t) : Prop := {
  so_mailbox : mailbox_ok (gmBaseAddr_ me) (gm_ s);
  so_req : StronglySorted Z.lt (seqs REQUEST out) /\
           Forall (fun q => q <= localReqSeqSeen_ s) (seqs REQUEST out);
  so_done : StronglySorted Z.lt (seqs DONE out) /\
            Forall (fun q => q <= localDoneSeqSeen_ s) (seqs DONE out);
  so_fin : length (seqs FINISHED out) = if localFinishedSeen_ s then 1%nat else 0%nat
}.

Lemma seqs_one ty m : seqs ty [m] = if decide (Msg.type m = ty) then [Msg.reqSeq m] else [].
Proof. unfold seqs. rewrite filter_cons. by case_decide. Qed.

Ltac other_seqs :=
  rewrite ?seqs_app, ?seqs_one, ?app_nil_r;
  repeat match goal with
  | E : Msg.type ?m = ?ty |- context [decide (Msg.type ?m = ?ty')] =>
      first [rewrite (decide_True (P := Msg.type m = ty')) by exact E
            |rewrite (decide_False (P := Msg.type m = ty')) by congruence]
  end; rewrite ?app_nil_r.

Lemma sent_request me out s :
  sent_ok me out s -> exists o s', tick_request me s = Some (o, s') /\ sent_ok me (out ++ o) s'.
Proof.
  intros [M [R1 R2] [D1 D2] F].
  destruct (tick_request_spec me s M) as (o & s' & -> & M' & Ed & Ef & H). eexists _, _.
  split; [reflexivity|]. destruct H as [[-> E]|(m & -> & T & Q & L & _)];
    constructor; other_seqs; rewrite ?Ed, ?Ef, ?E; try done.
  rewrite Q. by apply (sched_sorted_snoc _ (localReqSeqSeen_ s)).
Qed.

Lemma sent_done me out s :
  sent_ok me out s -> exists o s', tick_done me s = Some (o, s') /\ sent_ok me (out ++ o) s'.
Proof.
  intros [M [R1 R2] [D1 D2] F].
  destruct (tick_done_spec me s M) as (o & s' & -> & M' & Er & Ef & H). eexists _, _.
  split; [reflexivity|]. destruct H as [[-> E]|(m & -> & T & Q & L)];
    constructor; other_seqs; rewrite ?Er, ?Ef, ?E; try done.
  rewrite Q. by apply (sched_sorted_snoc _ (localDoneSeqSeen_ s)).
Qed.

Lemma sent_finished me out s :
  sent_ok me out s -> exists o s', tick_finished me s = Some (o, s') /\ sent_ok me (out ++ o) s'.
Proof.
  intros [M [R1 R2] [D1 D2] F].
  destruct (tick_finished_spec me s M) as (o & s' & -> & M' & Er & Ed & H). eexists _, _.
  split; [reflexivity|]. destruct H as [[-> E]|(m & -> & T & E1 & E2)];
    constructor; other_seqs; rewrite ?Er, ?Ed, ?E; try done.
  rewrite length_app, F, E1, E2. done.
Qed.

Lemma sent_tick me out s :
  sent_ok me out s -> exists o s', tick me s = Some (o, s') /\ sent_ok me (out ++ o) s'.
Proof.
  intros S0. unfold tick.
  destruct (sent_request me out s S0) as (o1 & s1 & -> & S1). cbn [mbind option_bind].
  destruct (sent_done me _ s1 S1) as (o2 & s2 & -> & S2). cbn [mbind option_bind].
  destruct (sent_finished me _ s2 S2) as (o3 & s3 & -> & S3). cbn [mbind option_bind].
  eexists _, _. split; [reflexivity|]. by rewrite !app_assoc.
Qed.

Lemma rsp_keeps me out m s :
  sent_ok me out s -> exists s', Worker.handleRsp me m s = Some s' /\ sent_ok me out s'.
Proof.
  intros [M R D F]. unfold Worker.handleRsp. destruct (Msg.type m); try (by eexists).
  - destruct (mailbox_write32_ok _ Mailbox.CTRL_LOCAL_GRANT_SEQ_OFF (u32 (Msg.reqSeq m)) _ M
      ltac:(mb_off) ltac:(mb_off) ltac:(apply u32_range)) as (gm & -> & M1 & _).
    cbn [mbind option_bind].
    destruct (mailbox_write32_ok _ Mailbox.CTRL_LOCAL_GRANT_WINDOW_OFF (u32 (Msg.window m)) _ M1
      ltac:(mb_off) ltac:(mb_off) ltac:(apply u32_range)) as (gm' & -> & M2 & _).
    cbn [mbind option_bind]. eexists. split; [reflexivity|]. by constructor.
  - destruct (mailbox_write32_ok _ Mailbox.CTRL_LOCAL_GROUP_DONE_OFF 1 _ M
      ltac:(mb_off) ltac:(mb_off) ltac:(unfold is_u32; lia)) as (gm & -> & M1 & _).
    cbn [mbind option_bind]. eexists. split; [reflexivity|]. by constructor.
Qed.

Lemma wrun_ok me out s : wrun me out s -> sent_ok me out s.
Proof.
  induction 1 as [gm M|out s gm _ [M R D F] M'|out s o s' _ IH E|out s m s' _ IH E].
  - constructor; [done|split; constructor|split; constructor|done].
  - by constructor.
  - destruct (sent_tick me out s IH) as (o1 & s1 & E1 & S1). rewrite E1 in E. by simplify_eq.
  - destruct (rsp_keeps me out m s IH) as (s1 & E1 & S1). rewrite E1 in E. by simplify_eq.
Qed.

(** A request the core has posted and the endpoint has not seen. *)
Definition posted (me : Identity) (s : Worker.t) (q : Z) : Prop :=
  localReqSeqSeen_ s < q /\
  Mailbox.readMailboxU32 (gmBaseAddr_ me) Mailbox.CTRL_LOCAL_REQ_SEQ_OFF (gm_ s) = Some q /\
  exists v, v <> 0 /\
    Mailbox.readMailboxU32 (gmBaseAddr_ me) Mailbox.CTRL_LOCAL_REQ_VALID_OFF (gm_ s) = Some v.

Lemma tick_forwards me s q :
  mailbox_ok (gmBaseAddr_ me) (gm_ s) -> posted me s q ->
  exists m o s', tick me s = Some (m :: o, s') /\ Msg.type m = REQUEST /\ Msg.reqSeq m = q /\
    Some (Msg.srcAddr m) = Mailbox.readMailbox (gmBaseAddr_ me) Mailbox.CTRL_LOCAL_REQ_SRC_OFF (gm_ s) /\
    Some (Msg.dstAddr m) = Mailbox.readMailbox (gmBaseAddr_ me) Mailbox.CTRL_LOCAL_REQ_DST_OFF (gm_ s).
Proof.
  intros M (Hlt & Hq & v & Hv & Ev). unfold tick, tick_request. rewrite Hq, Ev. cbn [mbind option_bind].
  rewrite (proj2 (Z.eqb_neq v 0)) by done. rewrite (proj2 (Z.ltb_lt _ _)) by done. cbn [negb andb].
  mb_read constr:(Mailbox.CTRL_LOCAL_REQ_SRC_OFF) src. mb_read constr:(Mailbox.CTRL_LOCAL_REQ_DST_OFF) dst.
  mb_read constr:(Mailbox.CTRL_LOCAL_REQ_BYTES_OFF) bytes. mb_read constr:(Mailbox.CTRL_LOCAL_REQ_NODE_OFF) node.
  mb_read constr:(Mailbox.CTRL_LOCAL_REQ_WINDOW_OFF) window.
  destruct (mailbox_write32_ok _ Mailbox.CTRL_LOCAL_REQ_VALID_OFF 0 _ M ltac:(mb_off) ltac:(mb_off)
    ltac:(unfold is_u32; lia)) as (gm & -> & M' & R). cbn [mbind option_bind].
  set (s1 := _ <| gm_ := gm |>).
  destruct (tick_done_spec me s1 M') as (o2 & s2 & -> & M2 & _). cbn [mbind option_bind].
  destruct (tick_finished_spec me s2 M2) as (o3 & s3 & -> & _). cbn [mbind option_bind].
  eexists _, _, _. split; [reflexivity|]. done.
Qed.

(** Whatever the core writes into the mailbox and whatever the manager
    answers, a worker endpoint sends REQUEST messages with strictly increasing
    sequence numbers, likewise DONE messages, and FINISHED at most once; its
    tick never makes a fatal access, and a request posted with a new sequence
    number is forwarded by the next tick with the addresses the core wrote. *)
Theorem worker_forwards_once me out s :
  wrun me out s ->
  StronglySorted Z.lt (seqs REQUEST out) /\ StronglySorted Z.lt (seqs DONE out) /\
  (length (seqs FINISHED out) <= 1)%nat /\ (exists o s', tick me s = Some (o, s')) /\
  forall q, posted me s q ->
    exists m o s', tick me s = Some (m :: o, s') /\ Msg.type m = REQUEST /\ Msg.reqSeq m = q /\
      Some (Msg.srcAddr m) = Mailbox.readMailbox (gmBaseAddr_ me) Mailbox.CTRL_LOCAL_REQ_SRC_OFF (gm_ s) /\
      Some (Msg.dstAddr m) = Mailbox.readMailbox (gmBaseAddr_ me) Mailbox.CTRL_LOCAL_REQ_DST_OFF (gm_ s).
Proof.
  intros W. pose proof (wrun_ok me out s W) as S0. pose proof S0 as [M [R _] [D _] F].
  split_and!; [done|done|rewrite F; destruct (localFinishedSeen_ s); lia| |].
  - destruct (sent_tick me out s S0) as (o & s' & E & _). eauto.
  - intros q P. by apply tick_forwards.
Qed.

Definition demo_me : Identity := mkIdentity 0 1 0x10000.

Lemma worker_forwards_once_witness :
  let s := (Worker.init demo_storage) in
  posted demo_me s 0x07070707 /\
  exists m o s', tick demo_me s = Some (m :: o, s') /\ Msg.type m = REQUEST /\
    Msg.reqSeq m = 0x07070707.
Proof.
  cbv zeta.
  assert (posted demo_me (Worker.init demo_storage) 0x07070707) as P.
  { split; [done|]. split; [by vm_compute|]. exists 0x07070707. split; [done|by vm_compute]. }
  assert (mailbox_ok 0x10000 demo_storage) as M.
  { constructor; [done|lia|by vm_compute|by vm_compute|]. apply Forall_replicate. unfold is_u8. lia. }
  destruct (worker_forwards_once demo_me [] _ (wrun_init demo_me _ M)) as (_ & _ & _ & _ & H).
  split; [exact P|]. destruct (H _ P) as (m & o & s' & E & T & Q & _). eauto 6.
Defined.

End WorkerFacts.
