(* ===== verification/KvManager.v ===== *)
(** * Group control: distribution of K/V tiles, manager side

    Models the manager half of the attention K/V distribution of
    golem/groupctrl/groupctrl.cc: a fixed set of slots, each staging one pair
    of K and V tiles in the manager's scratch memory.  A request for a tile
    that is being staged joins its slot; otherwise it takes a free slot or
    waits in a queue.  Loading a slot is a set of DMA transfers followed by
    chunked local reads; when both tiles are complete they are delivered to
    every subscriber, and the slot is freed when all expected workers have
    acknowledged or cancelled.

    Handlers return the effects they cause in order.  The local memory decides
    whether it accepts an access ([accepts], by tag); its completions and those
    of the DMA engine arrive as separate events.  Statistics and log output are
    dropped; the role is that of a manager throughout. *)

From S2P Require Import Prelude GroupMsg GroupSched.

Module Kv.

Record Config := mkConfig {
  groupId_ : Z;
  queueDepth_ : Z;
  gmBaseAddr_ : Z;
  gmSize_ : Z;
  attentionKvDistributionEnable_ : bool;
  attentionKvManagerLookahead_ : bool;
  attentionKvDistributionSlots_ : Z;
  attentionKvDistributionTileBytes_ : Z;
  attentionKvDistributionScratchOffset_ : Z;
  attentionKvDistributionExpectedWorkers_ : Z;
  localMaxRequestBytes : Z
}.

(** The constructor's and [setup]'s tests of the configuration. *)
Definition dimensions_ok (c : Config) : bool :=
  negb ((attentionKvDistributionSlots_ c =? 0) || (attentionKvDistributionTileBytes_ c =? 0) ||
        (attentionKvDistributionExpectedWorkers_ c =? 0) ||
        (4 <? attentionKvDistributionExpectedWorkers_ c)).

Definition scratch_ok (c : Config) : bool :=
  let scratchBytes :=
    u64 (attentionKvDistributionSlots_ c * 2 * attentionKvDistributionTileBytes_ c) in
  negb ((attentionKvDistributionScratchOffset_ c <? 0x2000) ||
        (gmSize_ c <? attentionKvDistributionScratchOffset_ c) ||
        (gmSize_ c ⊟ attentionKvDistributionScratchOffset_ c <? scratchBytes) ||
        (gmSize_ c ⊟ 64 <? attentionKvDistributionScratchOffset_ c ⊞ scratchBytes)).

Record KvSubscriber := mkSubscriber {
  present : bool;
  requestId : Z;
  sub_generation : Z;
  sub_kDstAddr : Z;
  sub_vDstAddr : Z
}.
Definition no_subscriber : KvSubscriber := mkSubscriber false 0 0 0 0.
#[global] Instance subscriber_inhabited : Inhabited KvSubscriber := populate no_subscriber.

Record KvSlot := mkSlot {
  occupied : bool;
  failed : bool;
  speculative : bool;
  readInflight : bool;
  readingV : bool;
  epoch : Z;
  generation : Z;
  jobTag : Z;
  queryGroup : Z;
  kvTileIndex : Z;
  physicalKvTileIndex : Z;
  numKvTiles : Z;
  kvLength : Z;
  kvTileRows : Z;
  tileRows : Z;
  rowsPerBand : Z;
  headDim : Z;
  nodeStrideBytes : Z;
  kAddr : Z;
  vAddr : Z;
  bytes : Z;
  kLoadsPending : Z;
  vLoadsPending : Z;
  requestedMask : Z;
  deliveredMask : Z;
  completedMask : Z;
  cancelledMask : Z;
  readOffset : Z;
  subscribers : list KvSubscriber;
  kData : list Z;
  vData : list Z
}.
#[global] Instance eta_slot : Eta KvSlot := fun s =>
  mkSlot (occupied s) (failed s) (speculative s) (readInflight s) (readingV s) (epoch s)
    (generation s) (jobTag s) (queryGroup s) (kvTileIndex s) (physicalKvTileIndex s) (numKvTiles s)
    (kvLength s) (kvTileRows s) (tileRows s) (rowsPerBand s) (headDim s) (nodeStrideBytes s)
    (kAddr s) (vAddr s) (bytes s) (kLoadsPending s) (vLoadsPending s) (requestedMask s)
    (deliveredMask s) (completedMask s) (cancelledMask s) (readOffset s) (subscribers s) (kData s)
    (vData s).

(** [KvSlot{}]. *)
Definition no_slot : KvSlot :=
  mkSlot false false false false false 0 0 0 0 0 0 0 0 0 0 0 0 0 0 0 0 0 0 0 0 0 0 0
    (replicate 4 no_subscriber) [] [].
#[global] Instance slot_inhabited : Inhabited KvSlot := populate no_slot.

Record PendingKvRequest := mkPending {
  pend_workerSlot : Z;
  pend_requestId : Z;
  pend_request : KvRequest.t
}.

Record t := mk {
  kvSlots_ : list KvSlot;
  pendingKvRequests_ : list PendingKvRequest;
  nextKvSlotEpoch_ : Z;
  nextKvLocalTag_ : Z
}.
#[global] Instance eta_t : Eta t := fun s =>
  mk (kvSlots_ s) (pendingKvRequests_ s) (nextKvSlotEpoch_ s) (nextKvLocalTag_ s).

Definition init (c : Config) : t :=
  mk (replicate (Z.to_nat (attentionKvDistributionSlots_ c)) no_slot) [] 1 1.

(** What a handler does to the rest of the system. *)
Inductive effect :=
| Send (workerSlot : Z) (m : Msg.t)
| Dma (source bytes destination : Z) (slotIndex epoch : Z) (valueOperand : bool)
| LocalRead (addr length tag : Z) (slotIndex epoch : Z).

(** A handler, and running one after another. *)
Definition cmd : Type := t -> list effect * t.
Definition skip : cmd := fun s => ([], s).
Definition andThen (f g : cmd) : cmd := fun s =>
  let '(o1, s1) := f s in
  let '(o2, s2) := g s1 in
  (o1 ++ o2, s2).
Declare Scope kv_scope.
Notation "f ⨟ g" := (andThen f g) (at level 60, right associativity) : kv_scope.
Local Open Scope kv_scope.

Definition emit (os : list effect) : cmd := fun s => (os, s).
Definition slot_at (i : Z) (s : t) : KvSlot := (kvSlots_ s).[i].
Definition slot_count (s : t) : Z := Z.of_nat (length (kvSlots_ s)).
Definition modify_slot (i : Z) (f : KvSlot -> KvSlot) : cmd := fun s =>
  ([], s <| kvSlots_ := (kvSlots_ s).[i := f (slot_at i s)] |>).

Definition send (slot : Z) (m : Msg.t) : cmd :=
  emit (map (fun '(i, m) => Send i m) (Sched.sendRsp slot m)).

(** [1u << workerSlot] as a [uint8_t]. *)
Definition bit (workerSlot : Z) : Z := u8 (Z.shiftl 1 workerSlot).

(** *** Slots *)

Definition same_tile (m : Msg.t) (slot : KvSlot) : bool :=
  occupied slot && (jobTag slot =? Msg.jobTag m) && (queryGroup slot =? Msg.queryGroup m) &&
  (kvTileIndex slot =? Msg.kvTileIndex m) &&
  (physicalKvTileIndex slot =? Msg.physicalKvTileIndex m).

(** The first index whose slot satisfies [p], or -1. *)
Fixpoint find_index (p : KvSlot -> bool) (index : Z) (slots : list KvSlot) : Z :=
  match slots with
  | [] => -1
  | slot :: slots => if p slot then index else find_index p (index + 1) slots
  end.

Definition findAttentionKvSlot (m : Msg.t) (s : t) : Z := find_index (same_tile m) 0 (kvSlots_ s).

Definition findFreeAttentionKvSlot (s : t) : Z :=
  find_index (fun slot => negb (occupied slot)) 0 (kvSlots_ s).

Definition startAttentionKvSlot (slotIndex : Z) (m : Msg.t) : cmd := fun s =>
  let slot := mkSlot true false false false false (nextKvSlotEpoch_ s) (Msg.generation m)
    (Msg.jobTag m) (Msg.queryGroup m) (Msg.kvTileIndex m) (Msg.physicalKvTileIndex m)
    (Msg.numKvTiles m) (Msg.kvLength m) (Msg.kvTileRows m) (Msg.tileRows m) (Msg.rowsPerBand m)
    (Msg.headDim m) (Msg.nodeStrideBytes m) (Msg.kAddr m) (Msg.vAddr m) (Msg.bytes m)
    0 0 0 0 0 0 0 (replicate 4 no_subscriber) [] [] in
  ([], s <| nextKvSlotEpoch_ := nextKvSlotEpoch_ s ⊞ 1 |>
         <| kvSlots_ := (kvSlots_ s).[slotIndex := slot] |>).

Definition addAttentionKvSubscriber (slotIndex : Z) (m : Msg.t) (workerSlot : Z) : cmd :=
  modify_slot slotIndex (fun slot =>
    slot <| speculative := false |>
         <| subscribers := (subscribers slot).[workerSlot :=
              mkSubscriber true (Msg.reqSeq m) (Msg.generation m) (Msg.kDstAddr m) (Msg.vDstAddr m)] |>
         <| requestedMask := Z.lor (requestedMask slot) (bit workerSlot) |>).

(** *** Loading *)

Definition scratchAddr (c : Config) (slotIndex : Z) (valueOperand : bool) : Z :=
  u64 (gmBaseAddr_ c + attentionKvDistributionScratchOffset_ c +
       slotIndex * 2 * attentionKvDistributionTileBytes_ c +
       (if valueOperand then attentionKvDistributionTileBytes_ c else 0)).

(** The transfers of one operand: runs of rows that stay within a node's band. *)
Fixpoint dma_rows (slot : KvSlot) (tensorBase scratchBase firstRow : Z) (fuel : nat)
    (rowsIssued : Z) : list (Z * Z * Z) :=
  match fuel with
  | O => []
  | S fuel =>
      if rowsIssued <? tileRows slot then
        let globalRow := firstRow ⊞₃₂ rowsIssued in
        let nodeBand := globalRow / rowsPerBand slot in
        let rowInBand := globalRow mod rowsPerBand slot in
        let rows := Z.min (tileRows slot ⊟₃₂ rowsIssued) (rowsPerBand slot ⊟₃₂ rowInBand) in
        let rowBytes := headDim slot * 4 in
        let source := u64 (tensorBase + nodeBand * nodeStrideBytes slot + rowInBand * rowBytes) in
        let destination := u64 (scratchBase + rowsIssued * rowBytes) in
        (source, u64 (rows * rowBytes), destination)
          :: dma_rows slot tensorBase scratchBase firstRow fuel (rowsIssued ⊞₃₂ rows)
      else []
  end.

Definition slot_dmas (c : Config) (slotIndex : Z) (valueOperand : bool) (slot : KvSlot)
    : list (Z * Z * Z) :=
  dma_rows slot (if valueOperand then vAddr slot else kAddr slot)
    (scratchAddr c slotIndex valueOperand)
    (u32 (physicalKvTileIndex slot * kvTileRows slot))
    (Z.to_nat (tileRows slot)) 0.

(** Every row takes at least one transfer, so [tileRows] rounds are enough. *)
Definition issueAttentionKvDma (c : Config) (slotIndex : Z) (valueOperand : bool) : cmd := fun s =>
  let slot := slot_at slotIndex s in
  let dmas := slot_dmas c slotIndex valueOperand slot in
  let count := Z.of_nat (length dmas) in
  (emit (map (fun '(source, n, destination) =>
                Dma source n destination slotIndex (epoch slot) valueOperand) dmas) ⨟
   modify_slot slotIndex (fun slot =>
     if valueOperand then slot <| vLoadsPending := vLoadsPending slot ⊞₃₂ count |>
     else slot <| kLoadsPending := kLoadsPending slot ⊞₃₂ count |>)) s.

(** *** Delivery *)

Definition ready (slot : KvSlot) : bool :=
  failed slot || ((Z.of_nat (length (kData slot)) =? bytes slot) &&
                  (Z.of_nat (length (vData slot)) =? bytes slot)).

Definition delivery_msg (c : Config) (slot : KvSlot) (workerSlot : Z) : Msg.t :=
  let subscriber := (subscribers slot).[workerSlot] in
  let m := (Msg.make ATTENTION_KV_DELIVERY) <| Msg.groupId := u8 (groupId_ c) |>
             <| Msg.workerSlot := u8 workerSlot |> <| Msg.reqSeq := requestId subscriber |>
             <| Msg.generation := sub_generation subscriber |>
             <| Msg.kDstAddr := sub_kDstAddr subscriber |>
             <| Msg.vDstAddr := sub_vDstAddr subscriber |>
             <| Msg.status := if failed slot then 0 else 1 |> in
  if failed slot then m else m <| Msg.kData := kData slot |> <| Msg.vData := vData slot |>.

(** One round of the delivery loop. *)
Definition deliver_to (c : Config) (slotIndex workerSlot : Z) : cmd := fun s =>
  let slot := slot_at slotIndex s in
  if negb (present ((subscribers slot).[workerSlot])) ||
     negb (Z.land (deliveredMask slot) (bit workerSlot) =? 0) then skip s
  else (send workerSlot (delivery_msg c slot workerSlot) ⨟
        modify_slot slotIndex (fun slot =>
          slot <| deliveredMask := Z.lor (deliveredMask slot) (bit workerSlot) |>)) s.

Definition deliverAttentionKvSlot (c : Config) (slotIndex : Z) : cmd := fun s =>
  if slot_count s <=? slotIndex then skip s
  else if negb (occupied (slot_at slotIndex s)) || negb (ready (slot_at slotIndex s)) then skip s
  else (deliver_to c slotIndex 0 ⨟ deliver_to c slotIndex 1 ⨟ deliver_to c slotIndex 2 ⨟
        deliver_to c slotIndex 3) s.

(** *** Reading the scratch memory back *)

Section Memory.
Variable c : Config.
Variable accepts : Z -> bool.

Definition localReadAsync (addr n tag slotIndex slotEpoch : Z) : cmd := fun s =>
  if accepts tag then
    (emit [LocalRead addr n tag slotIndex slotEpoch] ⨟
     modify_slot slotIndex (fun slot => slot <| readInflight := true |>)) s
  else skip s.

(** The recursive call happens at most once, when K is complete. *)
Fixpoint pump (fuel : nat) (slotIndex : Z) : cmd := fun s =>
  match fuel with
  | O => skip s
  | S fuel =>
      if slot_count s <=? slotIndex then skip s
      else
        let slot := slot_at slotIndex s in
        if negb (occupied slot) || failed slot || readInflight slot ||
           negb (kLoadsPending slot =? 0) || negb (vLoadsPending slot =? 0) then skip s
        else if readOffset slot =? bytes slot then
          if negb (readingV slot) then
            (modify_slot slotIndex (fun slot => slot <| readingV := true |> <| readOffset := 0 |>) ⨟
             pump fuel slotIndex) s
          else deliverAttentionKvSlot c slotIndex s
        else
          let chunk := Z.min (bytes slot ⊟ readOffset slot) (localMaxRequestBytes c) in
          let source := scratchAddr c slotIndex (readingV slot) ⊞ readOffset slot in
          let tag := nextKvLocalTag_ s in
          localReadAsync source chunk tag slotIndex (epoch slot)
            (s <| nextKvLocalTag_ := tag ⊞ 1 |>)
  end.
Definition pumpAttentionKvManagerRead (slotIndex : Z) : cmd := pump 2 slotIndex.

(** Completion of one DMA transfer. *)
Definition completeAttentionKvDma (slotIndex dmaEpoch : Z) (valueOperand ok : bool) : cmd := fun s =>
  if slot_count s <=? slotIndex then skip s
  else
    let slot := slot_at slotIndex s in
    if negb (occupied slot) || negb (epoch slot =? dmaEpoch) then skip s
    else if (if valueOperand then vLoadsPending slot else kLoadsPending slot) =? 0 then skip s
    else
      let slot := slot <| failed := failed slot || negb ok |> in
      let slot := if valueOperand then slot <| vLoadsPending := vLoadsPending slot - 1 |>
                  else slot <| kLoadsPending := kLoadsPending slot - 1 |> in
      (modify_slot slotIndex (fun _ => slot) ⨟
       (if (kLoadsPending slot =? 0) && (vLoadsPending slot =? 0) then
          if failed slot then deliverAttentionKvSlot c slotIndex
          else pumpAttentionKvManagerRead slotIndex
        else skip)) s.

(** The callback of a local read issued with [tag] for [readEpoch]. *)
Definition completeLocalRead (slotIndex readEpoch tag : Z) (ok : bool) (callbackTag : Z)
    (data : list Z) : cmd := fun s =>
  if slot_count s <=? slotIndex then skip s
  else
    let slot := slot_at slotIndex s in
    if negb (occupied slot) || negb (epoch slot =? readEpoch) then skip s
    else if negb ok || negb (callbackTag =? tag) || bool_decide (data = []) then
      (modify_slot slotIndex (fun slot => slot <| readInflight := false |> <| failed := true |>) ⨟
       deliverAttentionKvSlot c slotIndex) s
    else
      (modify_slot slotIndex (fun slot =>
         let slot := slot <| readInflight := false |>
                          <| readOffset := readOffset slot ⊞ Z.of_nat (length data) |> in
         if readingV slot then slot <| vData := vData slot ++ data |>
         else slot <| kData := kData slot ++ data |>) ⨟
       pumpAttentionKvManagerRead slotIndex) s.

(** The manager half of [tick]. *)
Definition tick : cmd := fun s =>
  if attentionKvDistributionEnable_ c then
    foldr (fun i k => pumpAttentionKvManagerRead (Z.of_nat i) ⨟ k) skip (seq 0 (length (kvSlots_ s))) s
  else skip s.

End Memory.

(** *** Requests *)

Definition failure_msg (m : Msg.t) : Msg.t :=
  (Msg.make ATTENTION_KV_DELIVERY) <| Msg.reqSeq := Msg.reqSeq m |>
    <| Msg.generation := Msg.generation m |> <| Msg.status := 0 |>.

Definition compatible (slot : KvSlot) (m : Msg.t) : bool :=
  (bytes slot =? Msg.bytes m) && (kvTileRows slot =? Msg.kvTileRows m) &&
  (numKvTiles slot =? Msg.numKvTiles m) && (kvLength slot =? Msg.kvLength m) &&
  (tileRows slot =? Msg.tileRows m) && (rowsPerBand slot =? Msg.rowsPerBand m) &&
  (headDim slot =? Msg.headDim m) && (nodeStrideBytes slot =? Msg.nodeStrideBytes m) &&
  (kAddr slot =? Msg.kAddr m) && (vAddr slot =? Msg.vAddr m).

Definition invalid_request (c : Config) (m : Msg.t) (workerSlot : Z) : bool :=
  negb (attentionKvDistributionEnable_ c) || (workerSlot <? 0) || (4 <=? workerSlot) ||
  (Msg.generation m =? 0) || (Msg.bytes m =? 0) || (Msg.numKvTiles m =? 0) ||
  (Msg.kvLength m =? 0) || (Msg.numKvTiles m <=? Msg.kvTileIndex m) ||
  (attentionKvDistributionTileBytes_ c <? Msg.bytes m).

Definition handleAttentionKvRequest (c : Config) (m : Msg.t) (workerSlot : Z) : cmd := fun s =>
  if invalid_request c m workerSlot then send workerSlot (failure_msg m) s
  else
    let slotIndex := findAttentionKvSlot m s in
    if 0 <=? slotIndex then
      let slot := slot_at slotIndex s in
      if negb (compatible slot m) || present ((subscribers slot).[workerSlot])
      then send workerSlot (failure_msg m) s
      else (addAttentionKvSubscriber slotIndex m workerSlot ⨟ deliverAttentionKvSlot c slotIndex) s
    else
      let slotIndex := findFreeAttentionKvSlot s in
      if slotIndex <? 0 then
        if queueDepth_ c <=? Z.of_nat (length (pendingKvRequests_ s))
        then send workerSlot (failure_msg m) s
        else ([], s <| pendingKvRequests_ := pendingKvRequests_ s ++
                       [mkPending workerSlot (Msg.reqSeq m) (attentionKvRequestFromMessage m)] |>)
      else
        (startAttentionKvSlot slotIndex m ⨟ addAttentionKvSubscriber slotIndex m workerSlot ⨟
         issueAttentionKvDma c slotIndex false ⨟ issueAttentionKvDma c slotIndex true) s.

(** The message rebuilt from a queued request. *)
Definition pending_msg (p : PendingKvRequest) : Msg.t :=
  fillAttentionKvMessage
    ((Msg.make ATTENTION_KV_REQUEST) <| Msg.reqSeq := pend_requestId p |>
       <| Msg.bytes := u32 (u64 (KvRequest.tileRows (pend_request p) *
                                 KvRequest.headDim (pend_request p) * 4)) |>)
    (pend_request p).

(** Every round removes the head of the queue, so its length is enough fuel. *)
Fixpoint process_pending (c : Config) (fuel : nat) : cmd := fun s =>
  match fuel with
  | O => skip s
  | S fuel =>
      match pendingKvRequests_ s with
      | [] => skip s
      | pending :: rest =>
          let m := pending_msg pending in
          if (findAttentionKvSlot m s <? 0) && (findFreeAttentionKvSlot s <? 0) then skip s
          else (handleAttentionKvRequest c m (pend_workerSlot pending) ⨟ process_pending c fuel)
                 (s <| pendingKvRequests_ := rest |>)
      end
  end.
Definition processPendingAttentionKvRequests (c : Config) : cmd := fun s =>
  process_pending c (length (pendingKvRequests_ s)) s.

(** *** Release and lookahead *)

Definition same_stream (a b : KvSlot) : bool :=
  occupied a && (jobTag a =? jobTag b) && (queryGroup a =? queryGroup b) &&
  (numKvTiles a =? numKvTiles b).

Definition farthestOrdinal (released : KvSlot) (slots : list KvSlot) : Z :=
  foldl (fun far slot => if same_stream slot released then Z.max far (kvTileIndex slot) else far)
    (kvTileIndex released) slots.

Definition lookahead_msg (released : KvSlot) (nextOrdinal nextTile rows : Z) : Msg.t :=
  (Msg.make ATTENTION_KV_REQUEST) <| Msg.generation := generation released |>
    <| Msg.jobTag := jobTag released |> <| Msg.queryGroup := queryGroup released |>
    <| Msg.kvTileIndex := nextOrdinal |> <| Msg.physicalKvTileIndex := nextTile |>
    <| Msg.numKvTiles := numKvTiles released |> <| Msg.kvLength := kvLength released |>
    <| Msg.kvTileRows := kvTileRows released |> <| Msg.tileRows := rows |>
    <| Msg.rowsPerBand := rowsPerBand released |> <| Msg.headDim := headDim released |>
    <| Msg.nodeStrideBytes := nodeStrideBytes released |> <| Msg.kAddr := kAddr released |>
    <| Msg.vAddr := vAddr released |>
    <| Msg.bytes := u32 (u64 (u32 (rows * headDim released) * 4)) |>.

Definition maybeStartAttentionKvLookahead (c : Config) (released : KvSlot) : cmd := fun s =>
  if negb (attentionKvManagerLookahead_ c) || failed released || (numKvTiles released =? 0) ||
     (kvLength released =? 0) || negb (bool_decide (pendingKvRequests_ s = [])) then skip s
  else
    let freeSlot := findFreeAttentionKvSlot s in
    if freeSlot <? 0 then skip s
    else
      let nextOrdinal := farthestOrdinal released (kvSlots_ s) ⊞₃₂ 1 in
      if numKvTiles released <=? nextOrdinal then skip s
      else
        let ordinalDelta := nextOrdinal ⊟₃₂ kvTileIndex released in
        let nextTile := (physicalKvTileIndex released ⊞₃₂ ordinalDelta) mod numKvTiles released in
        let firstRow := u64 (nextTile * kvTileRows released) in
        if kvLength released <=? firstRow then skip s
        else
          let rows := Z.min (kvTileRows released) (kvLength released - firstRow) in
          (startAttentionKvSlot freeSlot (lookahead_msg released nextOrdinal nextTile rows) ⨟
           modify_slot freeSlot (fun slot => slot <| speculative := true |>) ⨟
           issueAttentionKvDma c freeSlot false ⨟ issueAttentionKvDma c freeSlot true) s.

Definition expectedMask (c : Config) : Z :=
  u8 (Z.shiftl 1 (attentionKvDistributionExpectedWorkers_ c) - 1).

Definition all_done (c : Config) (slot : KvSlot) : bool :=
  let accountedMask := Z.lor (requestedMask slot) (cancelledMask slot) in
  let doneMask := Z.lor (completedMask slot) (cancelledMask slot) in
  (Z.land accountedMask (expectedMask c) =? expectedMask c) &&
  (Z.land doneMask (expectedMask c) =? expectedMask c).

Definition maybeReleaseAttentionKvSlot (c : Config) (slotIndex : Z) (allowLookahead : bool) : cmd :=
  fun s =>
  if (slot_count s <=? slotIndex) || negb (occupied (slot_at slotIndex s)) then skip s
  else if negb (all_done c (slot_at slotIndex s)) then skip s
  else
    let released := slot_at slotIndex s in
    (modify_slot slotIndex (fun _ => no_slot) ⨟ processPendingAttentionKvRequests c ⨟
     (if allowLookahead then maybeStartAttentionKvLookahead c released else skip)) s.

(** *** Acknowledgement and cancellation *)

Definition acks (m : Msg.t) (workerSlot : Z) (slot : KvSlot) : bool :=
  occupied slot && present ((subscribers slot).[workerSlot]) &&
  (requestId ((subscribers slot).[workerSlot]) =? Msg.reqSeq m) &&
  (sub_generation ((subscribers slot).[workerSlot]) =? Msg.generation m).

Definition handleAttentionKvAck (c : Config) (m : Msg.t) (workerSlot : Z) : cmd := fun s =>
  if negb (attentionKvDistributionEnable_ c) || (workerSlot <? 0) || (4 <=? workerSlot) then skip s
  else
    let index := find_index (acks m workerSlot) 0 (kvSlots_ s) in
    if index <? 0 then skip s
    else
      (modify_slot index (fun slot =>
         slot <| completedMask := Z.lor (completedMask slot) (bit workerSlot) |>) ⨟
       maybeReleaseAttentionKvSlot c index true) s.

Definition cancel_slot (c : Config) (m : Msg.t) (workerSlot index : Z) : cmd := fun s =>
  let slot := slot_at index s in
  if negb (occupied slot) || negb (generation slot =? Msg.generation m) then skip s
  else
    let subscriber := (subscribers slot).[workerSlot] in
    (modify_slot index (fun slot =>
       if present subscriber && (sub_generation subscriber =? Msg.generation m)
       then slot <| completedMask := Z.lor (completedMask slot) (bit workerSlot) |>
       else slot <| cancelledMask := Z.lor (cancelledMask slot) (bit workerSlot) |>) ⨟
     maybeReleaseAttentionKvSlot c index false) s.

Definition of_worker (m : Msg.t) (workerSlot : Z) (p : PendingKvRequest) : bool :=
  (pend_workerSlot p =? workerSlot) &&
  (KvRequest.generation (pend_request p) =? Msg.generation m).

Definition handleAttentionKvCancel (c : Config) (m : Msg.t) (workerSlot : Z) : cmd := fun s =>
  if negb (attentionKvDistributionEnable_ c) || (workerSlot <? 0) || (4 <=? workerSlot) ||
     (Msg.generation m =? 0) then skip s
  else
    (foldr (fun i k => cancel_slot c m workerSlot (Z.of_nat i) ⨟ k) skip
       (seq 0 (length (kvSlots_ s))) ⨟
     (fun s => ([], s <| pendingKvRequests_ :=
        filter (fun p => of_worker m workerSlot p = false) (pendingKvRequests_ s) |>))) s.

End Kv.

(** ** The manager's message handler *)

Module Manager.

Record t := mk { sched : Sched.t; kv : Kv.t }.

Definition handleReq (cfg : Sched.Config) (c : Kv.Config) (m : Msg.t) (slot : Z) (s : t)
    : list Kv.effect * t :=
  let on_kv f := let '(o, kv') := f (kv s) in (o, mk (sched s) kv') in
  match Msg.type m with
  | ATTENTION_KV_REQUEST => on_kv (Kv.handleAttentionKvRequest c m slot)
  | ATTENTION_KV_ACK => on_kv (Kv.handleAttentionKvAck c m slot)
  | ATTENTION_KV_CANCEL => on_kv (Kv.handleAttentionKvCancel c m slot)
  | _ => let '(o, sched') := Sched.handleReq cfg m slot (sched s) in
         (map (fun '(i, m) => Kv.Send i m) o, mk sched' (kv s))
  end.

End Manager.

(** ** Masks *)

Section KvFacts.
Import Kv.
Local Open Scope kv_scope.

Lemma bit_pow w : 0 <= w < 8 -> bit w = 2 ^ w.
Proof.
  intros Hw. unfold bit. rewrite Z.shiftl_1_l. apply u8_small. unfold is_u8.
  pose proof (Z.pow_lt_mono_r 2 w 8). lia.
Qed.

Lemma bit_testbit w v : 0 <= w < 8 -> Z.testbit (bit w) v = (v =? w).
Proof.
  intros Hw. rewrite bit_pow by done. rewrite Z.pow2_bits_eqb by lia. apply Z.eqb_sym.
Qed.

Lemma bit_test m w : 0 <= w < 8 -> (Z.land m (bit w) =? 0) = negb (Z.testbit m w).
Proof.
  intros Hw. destruct (Z.testbit m w) eqn:E; simpl.
  - apply Z.eqb_neq. intros H. assert (Z.testbit (Z.land m (bit w)) w = true) as T.
    { rewrite Z.land_spec, bit_testbit, E, Z.eqb_refl by done. done. }
    rewrite H, Z.bits_0 in T. done.
  - apply Z.eqb_eq, Z.bits_inj'. intros v Hv. rewrite Z.land_spec, bit_testbit, Z.bits_0 by done.
    destruct (v =? w) eqn:Ev; [|by rewrite andb_false_r]. apply Z.eqb_eq in Ev as ->. by rewrite E.
Qed.

Lemma lor_bit m w v : 0 <= w < 8 -> Z.testbit (Z.lor m (bit w)) v = Z.testbit m v || (v =? w).
Proof. intros Hw. by rewrite Z.lor_spec, bit_testbit. Qed.

Definition dims_ok (c : Config) : Prop :=
  0 < attentionKvDistributionSlots_ c < 2 ^ 32 /\ 0 <= queueDepth_ c < 2 ^ 32 /\
  0 < attentionKvDistributionTileBytes_ c < 2 ^ 32 /\
  1 <= attentionKvDistributionExpectedWorkers_ c <= 4 /\ 1 <= localMaxRequestBytes c < 2 ^ 64.

Lemma land_expected c m w :
  dims_ok c -> Z.land m (expectedMask c) = expectedMask c ->
  0 <= w < attentionKvDistributionExpectedWorkers_ c -> Z.testbit m w = true.
Proof.
  intros (_ & _ & _ & He & _) Hm Hw. set (n := attentionKvDistributionExpectedWorkers_ c) in *.
  assert (expectedMask c = Z.ones n) as E.
  { unfold expectedMask. fold n. rewrite Z.shiftl_1_l. rewrite u8_small; [|].
    - rewrite Z.ones_equiv. lia.
    - unfold is_u8. pose proof (Z.pow_le_mono_r 2 n 4). pose proof (Z.pow_pos_nonneg 2 n).
      change (2 ^ 4) with 16 in *. lia. }
  assert (Z.testbit (Z.land m (expectedMask c)) w = true) as T.
  { rewrite Hm, E. apply Z.ones_spec_low. lia. }
  rewrite Z.land_spec in T. by apply andb_true_iff in T as [? _].
Qed.

(** The workers of a group. *)
Definition worker_ids : list Z := [0; 1; 2; 3].

Lemma worker_ids_iff w : w ∈ worker_ids <-> 0 <= w < 4.
Proof. unfold worker_ids. rewrite !elem_of_cons, elem_of_nil. lia. Qed.

(** ** Delivery in closed form *)

Definition waiting (slot : KvSlot) (w : Z) : bool :=
  present ((subscribers slot).[w]) && negb (Z.testbit (deliveredMask slot) w).

Definition delivery_effects (c : Config) (slot : KvSlot) : list effect :=
  concat (map (fun w => if waiting slot w then [Send w (delivery_msg c slot w)] else []) worker_ids).

Definition mark_delivered (slot : KvSlot) : KvSlot :=
  slot <| deliveredMask :=
    foldl (fun mask w => if present ((subscribers slot).[w]) then Z.lor mask (bit w) else mask)
      (deliveredMask slot) worker_ids |>.

Lemma lor_present m w : 0 <= w < 8 -> Z.testbit m w = true -> Z.lor m (bit w) = m.
Proof.
  intros Hw Ht. apply Z.bits_inj'. intros v Hv. rewrite lor_bit by done.
  destruct (v =? w) eqn:E; [|by rewrite orb_false_r]. apply Z.eqb_eq in E as ->. by rewrite Ht.
Qed.

Lemma slot_insert i s x : (Z.to_nat i < length (kvSlots_ s))%nat ->
  slot_at i (s <| kvSlots_ := (kvSlots_ s).[i := x] |>) = x.
Proof. intros H. unfold slot_at. simpl. by rewrite list_lookup_total_insert_eq. Qed.

Lemma slot_same i s : (Z.to_nat i < length (kvSlots_ s))%nat ->
  s <| kvSlots_ := (kvSlots_ s).[i := slot_at i s] |> = s.
Proof.
  intros H. destruct s as [l p e n]. unfold slot_at. simpl in *. f_equal.
  apply list_insert_id. by apply list_lookup_lookup_total_lt.
Qed.

(** Replace slot [i]. *)
Definition put (i : Z) (x : KvSlot) (s : t) : t := s <| kvSlots_ := (kvSlots_ s).[i := x] |>.

Definition in_range (i : Z) (s : t) : Prop := 0 <= i /\ (Z.to_nat i < length (kvSlots_ s))%nat.

Lemma put_range i j x s : in_range i s -> in_range i (put j x s).
Proof. unfold in_range, put. simpl. by rewrite length_insert. Qed.

Lemma put_same i s : in_range i s -> put i (slot_at i s) s = s.
Proof. intros [_ H]. by apply slot_same. Qed.

Lemma put_at i x s : in_range i s -> slot_at i (put i x s) = x.
Proof. intros [_ H]. by apply slot_insert. Qed.

Lemma put_put i x y s : put i x (put i y s) = put i x s.
Proof. unfold put. destruct s. simpl. f_equal. apply list_insert_insert_eq. Qed.

Lemma put_ne i j x s : in_range i s -> in_range j s -> i <> j -> slot_at i (put j x s) = slot_at i s.
Proof.
  intros [Hi _] [Hj _] Hne. unfold slot_at, put. simpl. apply list_lookup_total_insert_ne. lia.
Qed.

Lemma in_range_count i s : in_range i s -> (slot_count s <=? i) = false.
Proof. unfold in_range, slot_count. intros H. apply Z.leb_gt. lia. Qed.

Definition mark_bit (slot : KvSlot) (mask w : Z) : Z :=
  if present ((subscribers slot).[w]) then Z.lor mask (bit w) else mask.
Definition mark_one (w : Z) (slot : KvSlot) : KvSlot :=
  slot <| deliveredMask := mark_bit slot (deliveredMask slot) w |>.

Lemma mask_same slot : slot <| deliveredMask := deliveredMask slot |> = slot.
Proof. by destruct slot. Qed.

Lemma deliver_to_eq c i w s :
  in_range i s -> 0 <= w < 4 ->
  deliver_to c i w s =
    (if waiting (slot_at i s) w then [Send w (delivery_msg c (slot_at i s) w)] else [],
     put i (mark_one w (slot_at i s)) s).
Proof.
  intros Hi Hw. unfold deliver_to, waiting, mark_one, mark_bit. rewrite bit_test, negb_involutive by lia.
  destruct (present _) eqn:Ep; cbn [negb orb andb]; [|by rewrite mask_same, put_same].
  destruct (Z.testbit _ w) eqn:Et; cbn [negb].
  - rewrite lor_present by (done || lia). by rewrite mask_same, put_same.
  - unfold andThen, send, emit, modify_slot, Sched.sendRsp, Sched.kWorkers.
    rewrite (proj2 (Z.ltb_ge _ _)), (proj2 (Z.leb_gt _ _)) by lia. simpl orb. cbv iota.
    rewrite decide_False; [done|]. unfold delivery_msg. by destruct (failed _).
Qed.

Lemma delivery_msg_mask c slot mask w :
  delivery_msg c (slot <| deliveredMask := mask |>) w = delivery_msg c slot w.
Proof. by destruct slot. Qed.

Lemma mark_one_waiting v w slot :
  0 <= v < 4 -> v <> w -> waiting (mark_one v slot) w = waiting slot w.
Proof.
  intros Hv Hne. unfold waiting. change (subscribers (mark_one v slot)) with (subscribers slot).
  change (deliveredMask (mark_one v slot)) with (mark_bit slot (deliveredMask slot) v).
  unfold mark_bit. destruct (present ((subscribers slot).[v])); [|done].
  rewrite lor_bit by lia. rewrite (proj2 (Z.eqb_neq w v)) by done. by rewrite orb_false_r.
Qed.

Lemma mark_one_msg c v w slot : delivery_msg c (mark_one v slot) w = delivery_msg c slot w.
Proof. apply delivery_msg_mask. Qed.

Lemma set_mask_twice slot m m' : (slot <| deliveredMask := m |>) <| deliveredMask := m' |> = slot <| deliveredMask := m' |>.
Proof. reflexivity. Qed.

Lemma mark_two slot m w :
  mark_one w (slot <| deliveredMask := m |>) = slot <| deliveredMask := mark_bit slot m w |>.
Proof. reflexivity. Qed.

Lemma mark_all slot :
  mark_one 3 (mark_one 2 (mark_one 1 (mark_one 0 slot))) = mark_delivered slot.
Proof. unfold mark_one at 4. rewrite !mark_two. reflexivity. Qed.

Lemma deliver_eq c i s :
  in_range i s ->
  deliverAttentionKvSlot c i s =
    if occupied (slot_at i s) && ready (slot_at i s)
    then (delivery_effects c (slot_at i s), put i (mark_delivered (slot_at i s)) s) else ([], s).
Proof.
  intros Hi. unfold deliverAttentionKvSlot. rewrite in_range_count by done.
  rewrite <- negb_andb. destruct (_ && _); cbn [negb]; [|done]. unfold andThen.
  rewrite deliver_to_eq by (done || lia).
  rewrite deliver_to_eq by (done || lia || by apply put_range).
  rewrite put_at by done. rewrite put_put.
  rewrite deliver_to_eq by (done || lia || by apply put_range).
  rewrite put_at by done. rewrite put_put.
  rewrite deliver_to_eq by (done || lia || by apply put_range).
  rewrite put_at by done. rewrite put_put.
  rewrite mark_all, !mark_one_msg, !mark_one_waiting by lia. f_equal.
  unfold delivery_effects, worker_ids. cbn [map concat]. by rewrite app_nil_r.
Qed.

Lemma mark_bits slot ws w mask :
  Forall (fun v => 0 <= v < 8) ws ->
  Z.testbit (foldl (mark_bit slot) mask ws) w =
    Z.testbit mask w || (existsb (Z.eqb w) ws && present ((subscribers slot).[w])).
Proof.
  intros H. revert mask. induction H as [|v ws Hv _ IH]; intros mask; cbn [foldl existsb].
  - by rewrite orb_false_r.
  - rewrite IH. unfold mark_bit. destruct (w =? v) eqn:E.
    + apply Z.eqb_eq in E as ->. destruct (present _) eqn:Ep; [|by rewrite !andb_false_r].
      rewrite lor_bit, Z.eqb_refl, !orb_true_r by done. done.
    + destruct (present ((subscribers slot).[v])); [|done]. by rewrite lor_bit, E, orb_false_r by done.
Qed.

Lemma mark_delivered_bits slot w :
  0 <= w < 4 ->
  Z.testbit (deliveredMask (mark_delivered slot)) w =
    Z.testbit (deliveredMask slot) w || present ((subscribers slot).[w]).
Proof.
  intros Hw.
  change (deliveredMask (mark_delivered slot)) with
    (foldl (mark_bit slot) (deliveredMask slot) worker_ids).
  rewrite mark_bits by (apply Forall_forall; intros ? ?%worker_ids_iff; lia). f_equal.
  assert (existsb (Z.eqb w) worker_ids = true) as ->; [|done].
  apply existsb_exists. exists w. rewrite <- list_elem_of_In, worker_ids_iff. split; [done|apply Z.eqb_refl].
Qed.

(** ** The transfers that load a tile *)

(** The rows one transfer copies, as pairs of source and destination address. *)
Definition copied_rows (rowBytes : Z) (d : Z * Z * Z) : list (Z * Z) :=
  let '(source, n, destination) := d in
  map (fun j => (u64 (source + j * rowBytes), u64 (destination + j * rowBytes))) (seqZ 0 (n / rowBytes)).

(** Row [r] of the tile lives in its node's band and goes to row [r] of the scratch. *)
Definition row_copy (slot : KvSlot) (tensorBase scratchBase firstRow r : Z) : Z * Z :=
  (u64 (tensorBase + (firstRow + r) / rowsPerBand slot * nodeStrideBytes slot +
        (firstRow + r) mod rowsPerBand slot * (headDim slot * 4)),
   u64 (scratchBase + r * (headDim slot * 4))).

Record tile_ok (slot : KvSlot) (firstRow : Z) : Prop := {
  tl_first : 0 <= firstRow;
  tl_rows : 0 <= tileRows slot;
  tl_last : firstRow + tileRows slot < 2 ^ 32;
  tl_band : 1 <= rowsPerBand slot < 2 ^ 32;
  tl_dim : 1 <= headDim slot;
  tl_bytes : tileRows slot * (headDim slot * 4) < 2 ^ 64
}.

Lemma seqZ_map_add {A} (f : Z -> A) a n : map f (seqZ a n) = map (fun j => f (a + j)) (seqZ 0 n).
Proof.
  rewrite <- (Z.add_0_r a) at 1. rewrite <- fmap_add_seqZ, map_map. done.
Qed.

Lemma dma_rows_exact slot tb sb firstRow fuel : tile_ok slot firstRow -> forall r,
  0 <= r <= tileRows slot -> tileRows slot - r <= Z.of_nat fuel ->
  let dmas := dma_rows slot tb sb firstRow fuel r in
  concat (map (copied_rows (headDim slot * 4)) dmas) =
    map (row_copy slot tb sb firstRow) (seqZ r (tileRows slot - r)) /\
  Z.of_nat (length dmas) <= tileRows slot - r.
Proof.
  intros [T1 T2 T3 T4 T5 T6]. induction fuel as [|fuel IH]; intros r Hr Hf; cbn [dma_rows].
  - replace (tileRows slot - r) with 0 by lia. done.
  - destruct (r <? tileRows slot) eqn:E; [|replace (tileRows slot - r) with 0 by lia; done].
    cbv zeta. rewrite (u32_small (firstRow + r)) by (unfold is_u32; lia).
    set (g := firstRow + r) in *. set (rpb := rowsPerBand slot) in *.
    pose proof (Z.mod_pos_bound g rpb ltac:(lia)) as Hm.
    rewrite (u32_small (rpb - g mod rpb)) by (unfold is_u32; lia).
    rewrite (u32_small (tileRows slot - r)) by (unfold is_u32; lia).
    set (rows := Z.min (tileRows slot - r) (rpb - g mod rpb)) in *.
    assert (1 <= rows <= tileRows slot - r) as Hrows by (unfold rows; lia).
    rewrite (u32_small (r + rows)) by (unfold is_u32; lia).
    destruct (IH (r + rows) ltac:(lia) ltac:(lia)) as [I1 I2]. split; [|cbn [length]; lia].
    cbn [map concat]. rewrite I1. clear I1 I2 IH.
    replace (tileRows slot - r) with (rows + (tileRows slot - (r + rows))) by lia.
    rewrite seqZ_app, map_app by lia. f_equal. unfold copied_rows.
    assert (u64 (rows * (headDim slot * 4)) / (headDim slot * 4) = rows) as ->.
    { rewrite u64_small; [apply Z.div_mul; lia|]. unfold is_u64.
      pose proof (Z.mul_le_mono_nonneg_r rows (tileRows slot) (headDim slot * 4)). lia. }
    rewrite (seqZ_map_add _ r). apply map_ext_in. intros j Hj%list_elem_of_In%elem_of_seqZ.
    unfold row_copy. fold rpb. replace (firstRow + (r + j)) with (g + j) by lia.
    assert ((g + j) / rpb = g / rpb /\ (g + j) mod rpb = g mod rpb + j) as [-> ->].
    { pose proof (Z.div_mod g rpb ltac:(lia)) as Hd. unfold rows in Hj.
      assert (g + j = rpb * (g / rpb) + (g mod rpb + j)) as Hd' by lia. split.
      - symmetry. apply (Z.div_unique_pos _ _ _ (g mod rpb + j)); lia.
      - symmetry. apply (Z.mod_unique_pos _ _ (g / rpb)); lia. }
    rewrite !u64_add_l. f_equal; f_equal; lia.
Qed.


(** Three rows, the fourth to the sixth, over bands of two rows each. *)
Definition demo_tile : KvSlot :=
  mkSlot true false false false false 1 5 0 0 1 1 2 6 3 3 2 4 0x1000 0x80000 0x90000 48 0 0 0 0 0 0 0
    [no_subscriber; no_subscriber; no_subscriber; no_subscriber] [] [].
Definition demo_stage : t := mk [demo_tile] [] 2 1.


End KvFacts.
