(* ===== verification/KvSystem.v ===== *)
(** * The K/V distribution as a closed system

    [KvManager] models the handlers of the manager; here they run against the
    memory that carries out their transfers and reads and the workers that ask
    for tiles.  The theorems are about every history of that system: each
    request is answered exactly once and with the bytes of the tile it named,
    a slot with a waiting subscriber always has something left to happen, and
    requests are queued only while every slot is taken. *)

From S2P Require Import Prelude GroupMsg GroupSched KvManager.

Section KvSystem.
Import Kv.
Local Open Scope kv_scope.

(** ** The manager with its memory and its workers

    The rest of the system is what it owes the manager: transfers and reads in
    progress, requests made and answers given. *)

Section World.
Variable c : Config.
Variable accepts : Z -> bool.

(** The scratch memory as the reads of a slot's epoch find it. *)
Variable mem : Z -> Z -> Z.

(** Whether no worker cancels. *)
Variable lossless : bool.

Definition peek (e addr n : Z) : list Z := map (fun k => mem e (u64 (addr + k))) (seqZ 0 n).

Record read := mkRead { rd_addr : Z; rd_length : Z; rd_tag : Z; rd_slot : Z; rd_epoch : Z }.
Record load := mkLoad { ld_slot : Z; ld_epoch : Z; ld_value : bool }.

#[local] Instance load_eq_dec : EqDecision load.
Proof. solve_decision. Defined.

Record ghost := mkGhost {
  asked : list (Z * Msg.t);
  told : list (Z * Msg.t);
  reads : list read;
  loads : list load;
  issued : list effect
}.

Definition sends_of (o : list effect) : list (Z * Msg.t) :=
  omap (fun e => match e with Send w m => Some (w, m) | _ => None end) o.
Definition reads_of (o : list effect) : list read :=
  omap (fun e => match e with LocalRead a n tag i e => Some (mkRead a n tag i e) | _ => None end) o.
Definition loads_of (o : list effect) : list load :=
  omap (fun e => match e with Dma _ _ _ i e v => Some (mkLoad i e v) | _ => None end) o.

Definition absorb (o : list effect) (g : ghost) : ghost :=
  mkGhost (asked g) (told g ++ sends_of o) (reads g ++ reads_of o) (loads g ++ loads_of o)
    (issued g ++ o).

Lemma absorb_nil g : absorb [] g = g.
Proof. destruct g. unfold absorb. simpl. by rewrite !app_nil_r. Qed.

Lemma absorb_app o o' g : absorb (o ++ o') g = absorb o' (absorb o g).
Proof.
  unfold absorb, sends_of, reads_of, loads_of. simpl. by rewrite !omap_app, !app_assoc.
Qed.

(** Reads and loads in progress for one staging of a slot. *)
Definition slot_reads (i e : Z) (g : ghost) : list read :=
  filter (fun r => rd_slot r = i /\ rd_epoch r = e) (reads g).
Definition slot_loads (i e : Z) (v : bool) (g : ghost) : list load :=
  filter (fun l => l = mkLoad i e v) (loads g).

(** A request that a subscriber of the slot stands for. *)
Definition asked_for (slot : KvSlot) (w : Z) (m : Msg.t) : Prop :=
  let sub := (subscribers slot).[w] in
  Msg.reqSeq m = requestId sub /\ Msg.generation m = sub_generation sub /\
  Msg.kDstAddr m = sub_kDstAddr sub /\ Msg.vDstAddr m = sub_vDstAddr sub /\
  same_tile m slot = true /\ compatible slot m = true.

(** Two slots with the same transfers. *)
Definition same_plan (a b : KvSlot) : Prop :=
  kAddr a = kAddr b /\ vAddr a = vAddr b /\ physicalKvTileIndex a = physicalKvTileIndex b /\
  kvTileRows a = kvTileRows b /\ tileRows a = tileRows b /\ rowsPerBand a = rowsPerBand b /\
  headDim a = headDim b /\ nodeStrideBytes a = nodeStrideBytes b.

Definition dma_effect (i e : Z) (v : bool) (d : Z * Z * Z) : effect :=
  let '(source, n, destination) := d in Dma source n destination i e v.

(** All transfers that load the tile have been issued for this staging. *)
Definition issued_for (g : ghost) (i : Z) (slot : KvSlot) : Prop :=
  exists y, same_plan slot y /\
    forall v d, d ∈ slot_dmas c i v y -> dma_effect i (epoch slot) v d ∈ issued g.

Definition idle_loads (slot : KvSlot) : Prop := kLoadsPending slot = 0 /\ vLoadsPending slot = 0.

Definition chunk_of (slot : KvSlot) : Z :=
  Z.min (bytes slot ⊟ readOffset slot) (localMaxRequestBytes c).

(** What holds of an occupied slot even between two steps of a handler. *)
Record slot_pre (g : ghost) (next i : Z) (slot : KvSlot) : Prop := {
  sp_occ : occupied slot = true;
  sp_subs : length (subscribers slot) = 4%nat;
  sp_req : forall w, 0 <= w < 4 -> Z.testbit (requestedMask slot) w = present ((subscribers slot).[w]);
  sp_del : forall w, 0 <= w < 4 -> Z.testbit (deliveredMask slot) w = true ->
             present ((subscribers slot).[w]) = true /\ ready slot = true;
  sp_k : kLoadsPending slot = Z.of_nat (length (slot_loads i (epoch slot) false g)) /\
         is_u32 (kLoadsPending slot);
  sp_v : vLoadsPending slot = Z.of_nat (length (slot_loads i (epoch slot) true g)) /\
         is_u32 (vLoadsPending slot);
  sp_dims : 0 <= kvTileIndex slot < numKvTiles slot /\ numKvTiles slot < 2 ^ 32 /\
            is_u32 (kvTileRows slot) /\ is_u32 (tileRows slot);
  sp_off : 0 <= readOffset slot <= bytes slot /\ bytes slot < 2 ^ 32;
  sp_klen : Z.of_nat (length (kData slot)) = if readingV slot then bytes slot else readOffset slot;
  sp_vlen : Z.of_nat (length (vData slot)) = if readingV slot then readOffset slot else 0;
  sp_kdata : kData slot = peek (epoch slot) (scratchAddr c i false) (Z.of_nat (length (kData slot)));
  sp_vdata : vData slot = peek (epoch slot) (scratchAddr c i true) (Z.of_nat (length (vData slot)));
  sp_reading : readInflight slot = true ->
    idle_loads slot /\ failed slot = false /\ readOffset slot < bytes slot /\
    exists tag, slot_reads i (epoch slot) g =
      [mkRead (scratchAddr c i (readingV slot) ⊞ readOffset slot) (chunk_of slot) tag i (epoch slot)];
  sp_quiet : readInflight slot = false -> slot_reads i (epoch slot) g = [];
  sp_epoch : 1 <= epoch slot < next;
  sp_issued : issued_for g i slot;
  sp_sub : forall w, 0 <= w < 4 -> present ((subscribers slot).[w]) = true ->
             exists m, (w, m) ∈ asked g /\ asked_for slot w m
}.

(** Between handlers, in addition: a delivery reaches everybody who waits, and
    a complete slot has been delivered. *)
Record slot_inv (g : ghost) (next i : Z) (slot : KvSlot) : Prop := {
  si_pre : slot_pre g next i slot;
  si_any : forall w v, 0 <= w < 4 -> 0 <= v < 4 -> Z.testbit (deliveredMask slot) w = true ->
             waiting slot v = false;
  si_ready : ready slot = true -> idle_loads slot -> forall w, 0 <= w < 4 -> waiting slot w = false
}.

(** Requests a worker may send: the fields are those [requestAttentionKvPair] fills in. *)
Record request_ok (w : Z) (m : Msg.t) : Prop := {
  rq_worker : 0 <= w < 4;
  rq_bytes : Msg.bytes m = u32 (u64 (Msg.tileRows m * Msg.headDim m * 4));
  rq_index : 0 <= Msg.kvTileIndex m /\ is_u32 (Msg.numKvTiles m);
  rq_rows : is_u32 (Msg.tileRows m) /\ is_u32 (Msg.kvTileRows m)
}.

Definition queued_ok (g : ghost) (p : PendingKvRequest) : Prop :=
  exists m, (pend_workerSlot p, m) ∈ asked g /\ request_ok (pend_workerSlot p) m /\
    p = mkPending (pend_workerSlot p) (Msg.reqSeq m) (attentionKvRequestFromMessage m).

(** The whole state, but for slot [hole]. *)
Record frame (hole : Z) (s : t) (g : ghost) : Prop := {
  fr_len : length (kvSlots_ s) = Z.to_nat (attentionKvDistributionSlots_ c);
  fr_free : forall i, in_range i s -> i <> hole -> occupied (slot_at i s) = false -> slot_at i s = no_slot;
  fr_slots : forall i, in_range i s -> i <> hole -> occupied (slot_at i s) = true ->
               slot_inv g (nextKvSlotEpoch_ s) i (slot_at i s);
  fr_reads : Forall (fun r => 0 <= rd_slot r /\ rd_epoch r < nextKvSlotEpoch_ s) (reads g);
  fr_loads : Forall (fun l => 0 <= ld_slot l /\ ld_epoch l < nextKvSlotEpoch_ s) (loads g);
  fr_next : 1 <= nextKvSlotEpoch_ s;
  fr_queue : Z.of_nat (length (pendingKvRequests_ s)) <= queueDepth_ c;
  fr_pending : Forall (queued_ok g) (pendingKvRequests_ s)
}.
Definition core (s : t) (g : ghost) : Prop := frame (-1) s g.

Lemma core_frame i s g : core s g -> frame i s g.
Proof.
  intros [? F1 F2 ? ? ? ? ?]. constructor; try done.
  - intros j Hj _. apply F1; [done|]. destruct Hj. lia.
  - intros j Hj _. apply F2; [done|]. destruct Hj. lia.
Qed.

Lemma core_slot i s g :
  core s g -> in_range i s -> occupied (slot_at i s) = true ->
  slot_inv g (nextKvSlotEpoch_ s) i (slot_at i s).
Proof. intros C Hi Ho. apply (fr_slots _ _ _ C); [done| |done]. destruct Hi. lia. Qed.

(** A slot that may fill the hole. *)
Definition slot_ok (g : ghost) (next i : Z) (x : KvSlot) : Prop :=
  if occupied x then slot_inv g next i x else x = no_slot.

Lemma put_range_inv i j x s : in_range i (put j x s) -> in_range i s.
Proof. unfold in_range, put. simpl. by rewrite length_insert. Qed.

Lemma frame_put i s g x :
  frame i s g -> in_range i s -> slot_ok g (nextKvSlotEpoch_ s) i x -> core (put i x s) g.
Proof.
  intros [F0 F1 F2 F3 F4 F5 F6 F7] Hi Hx.
  constructor; try done; [by unfold put; simpl; rewrite length_insert| |].
  - intros j Hj _ Ho. apply put_range_inv in Hj.
    destruct (decide (j = i)) as [->|Hne].
    + rewrite put_at in * by done. unfold slot_ok in Hx. by rewrite Ho in Hx.
    + rewrite put_ne in * by done. by apply F1.
  - intros j Hj _ Ho. apply put_range_inv in Hj.
    destruct (decide (j = i)) as [->|Hne].
    + rewrite put_at in * by done. unfold slot_ok in Hx. by rewrite Ho in Hx.
    + rewrite put_ne in * by done. by apply F2.
Qed.

(** *** Changing what is in progress *)

(** [g'] has the same reads and loads as [g] for slot [j]. *)
Definition same_slot (j : Z) (g g' : ghost) : Prop :=
  forall e, slot_reads j e g' = slot_reads j e g /\ forall v, slot_loads j e v g' = slot_loads j e v g.

(** [g'] knows at least what [g] knows. *)
Definition extends (g g' : ghost) : Prop := asked g ⊆ asked g' /\ issued g ⊆ issued g'.

(** The same for one staging of the slot. *)
Definition same_staging (j e : Z) (g g' : ghost) : Prop :=
  slot_reads j e g' = slot_reads j e g /\ forall v, slot_loads j e v g' = slot_loads j e v g.

Lemma issued_mono g g' i slot : issued_for g i slot -> issued g ⊆ issued g' -> issued_for g' i slot.
Proof. intros (y & Hy & Hd) Hi. exists y. split; [done|]. intros v d Hin. by apply Hi, Hd. Qed.

Lemma slot_pre_ghost g g' n i x :
  slot_pre g n i x -> extends g g' -> same_staging i (epoch x) g g' -> slot_pre g' n i x.
Proof.
  intros [] [Ha Hi] [Hr Hl]. constructor; rewrite ?Hr, ?Hl; try done.
  - by apply (issued_mono g).
  - intros w Hw Hp. destruct (sp_sub0 w Hw Hp) as (m & Hm & ?). exists m. split; [by apply Ha|done].
Qed.

Lemma slot_inv_ghost g g' n i x :
  slot_inv g n i x -> extends g g' -> same_staging i (epoch x) g g' -> slot_inv g' n i x.
Proof. intros [P ? ?] Ha Hs. constructor; [by apply (slot_pre_ghost g)|done|done]. Qed.

Lemma slot_pre_next g n n' i x : slot_pre g n i x -> n <= n' -> slot_pre g n' i x.
Proof. intros [] Hn. constructor; try done. lia. Qed.

Lemma frame_ghost i s g g' :
  frame i s g -> extends g g' -> (forall j, j <> i -> same_slot j g g') ->
  Forall (fun r => 0 <= rd_slot r /\ rd_epoch r < nextKvSlotEpoch_ s) (reads g') ->
  Forall (fun l => 0 <= ld_slot l /\ ld_epoch l < nextKvSlotEpoch_ s) (loads g') -> frame i s g'.
Proof.
  intros [F0 F1 F2 F3 F4 F5 F6 F7] Ha Hs Hr Hl. constructor; try done.
  - intros j Hj Hne Ho. apply (slot_inv_ghost g); [auto|done|]. by apply Hs.
  - apply (Forall_impl _ _ _ F7). intros p (m & Hm & ?). exists m. split; [by apply (proj1 Ha)|done].
Qed.

Lemma extends_refl g g' : asked g' = asked g -> issued g' = issued g -> extends g g'.
Proof. intros E1 E2. unfold extends. by rewrite E1, E2. Qed.

Lemma extends_absorb o g : extends g (absorb o g).
Proof. split; [done|]. unfold absorb. simpl. intros x Hx. apply elem_of_app. by left. Qed.

(** Effects that concern slot [i] only. *)
Definition local_to (i n : Z) (o : list effect) : Prop :=
  Forall (fun r => rd_slot r = i /\ rd_epoch r < n) (reads_of o) /\
  Forall (fun l => ld_slot l = i /\ ld_epoch l < n) (loads_of o).

Lemma filter_none {A} (P : A -> Prop) `{!forall x, Decision (P x)} l :
  Forall (fun x => ~ P x) l -> filter P l = [].
Proof. induction 1; [done|]. by rewrite filter_cons_False. Qed.

Lemma local_same i j n o g : local_to i n o -> j <> i -> same_slot j g (absorb o g).
Proof.
  intros [Hr Hl] Hne e. split; [|intros v]; unfold slot_reads, slot_loads, absorb; simpl.
  - rewrite filter_app, (filter_none _ (reads_of o)), app_nil_r; [done|].
    apply (Forall_impl _ _ _ Hr). intros r [Hi _] [Hj _]. congruence.
  - rewrite filter_app, (filter_none _ (loads_of o)), app_nil_r; [done|].
    apply (Forall_impl _ _ _ Hl). intros l [Hi _] ->. simpl in Hi. congruence.
Qed.

Lemma frame_absorb i s g o :
  frame i s g -> 0 <= i -> local_to i (nextKvSlotEpoch_ s) o -> frame i s (absorb o g).
Proof.
  intros F Hi L. apply (frame_ghost i s g); [done|apply extends_absorb| | |].
  - intros j Hne. by apply (local_same i j (nextKvSlotEpoch_ s)).
  - unfold absorb. simpl. apply Forall_app. split; [apply F|].
    apply (Forall_impl _ _ _ (proj1 L)). intros r [? ?]. lia.
  - unfold absorb. simpl. apply Forall_app. split; [apply F|].
    apply (Forall_impl _ _ _ (proj2 L)). intros l [? ?]. lia.
Qed.

(** *** Requests that still wait and answers *)

Definition answers (w id : Z) (o : list effect) : Z :=
  Z.of_nat (length (filter (fun a => fst a = w /\ Msg.reqSeq (snd a) = id) (sends_of o))).

Definition track (slot : KvSlot) (w id : Z) : Z :=
  Z.b2z (occupied slot && waiting slot w && (requestId ((subscribers slot).[w]) =? id)).

Lemma answers_app w id o o' : answers w id (o ++ o') = answers w id o + answers w id o'.
Proof.
  unfold answers, sends_of. rewrite omap_app, filter_app, length_app. lia.
Qed.

(** A delivery that carries the tile its receiver asked for. *)
Definition good_send (g : ghost) (i : Z) (slot : KvSlot) (a : Z * Msg.t) : Prop :=
  exists m, (fst a, m) ∈ asked g /\ Msg.reqSeq (snd a) = Msg.reqSeq m /\
    Msg.generation (snd a) = Msg.generation m /\
    (Msg.status (snd a) = 0 \/
     Msg.status (snd a) = 1 /\ issued_for g i slot /\ same_tile m slot = true /\ compatible slot m = true /\
     Msg.kDstAddr (snd a) = Msg.kDstAddr m /\ Msg.vDstAddr (snd a) = Msg.vDstAddr m /\
     Msg.kData (snd a) = peek (epoch slot) (scratchAddr c i false) (Msg.bytes m) /\
     Msg.vData (snd a) = peek (epoch slot) (scratchAddr c i true) (Msg.bytes m)).

Lemma sends_local i n o : reads_of o = [] -> loads_of o = [] -> local_to i n o.
Proof. intros H1 H2. unfold local_to. rewrite H1, H2. split; constructor. Qed.

Lemma delivery_effects_sends slot :
  sends_of (delivery_effects c slot) =
    map (fun w => (w, delivery_msg c slot w)) (filter (fun w => waiting slot w = true) worker_ids) /\
  reads_of (delivery_effects c slot) = [] /\ loads_of (delivery_effects c slot) = [].
Proof.
  unfold delivery_effects. generalize worker_ids. intros ws.
  induction ws as [|w ws (I1 & I2 & I3)]; [done|]. cbn [map concat].
  unfold sends_of, reads_of, loads_of in *. rewrite !omap_app, I1, I2, I3, filter_cons.
  destruct (waiting slot w) eqn:E; case_decide; try done; congruence.
Qed.

Lemma delivery_msg_fields slot w :
  Msg.reqSeq (delivery_msg c slot w) = requestId ((subscribers slot).[w]) /\
  Msg.generation (delivery_msg c slot w) = sub_generation ((subscribers slot).[w]) /\
  Msg.kDstAddr (delivery_msg c slot w) = sub_kDstAddr ((subscribers slot).[w]) /\
  Msg.vDstAddr (delivery_msg c slot w) = sub_vDstAddr ((subscribers slot).[w]) /\
  Msg.status (delivery_msg c slot w) = (if failed slot then 0 else 1) /\
  (failed slot = false -> Msg.kData (delivery_msg c slot w) = kData slot /\
                          Msg.vData (delivery_msg c slot w) = vData slot).
Proof. unfold delivery_msg. destruct (failed slot); split_and!; done. Qed.

Lemma compatible_bytes slot m : compatible slot m = true -> bytes slot = Msg.bytes m.
Proof. unfold compatible. rewrite !andb_true_iff. intros [[[[[[[[[H _] _] _] _] _] _] _] _] _]. lia. Qed.

Lemma delivery_good g n i slot :
  slot_pre g n i slot -> ready slot = true ->
  Forall (good_send g i slot) (sends_of (delivery_effects c slot)).
Proof.
  intros P Hr. destruct (delivery_effects_sends slot) as [-> _]. apply Forall_forall.
  intros a (w & -> & [Hw Hin]%list_elem_of_filter)%list_elem_of_fmap. apply worker_ids_iff in Hin.
  unfold waiting in Hw. apply andb_true_iff in Hw as [Hp _].
  destruct (sp_sub _ _ _ _ P w Hin Hp) as (m & Hm & A1 & A2 & A3 & A4 & A5 & A6). exists m. simpl.
  destruct (delivery_msg_fields slot w) as (-> & -> & -> & -> & -> & D).
  split_and!; [done|done|done|]. unfold ready in Hr. destruct (failed slot); [by left|right].
  destruct (D eq_refl) as [-> ->]. pose proof (sp_issued _ _ _ _ P). simpl in Hr. apply andb_true_iff in Hr as [Hk Hv].
  apply Z.eqb_eq in Hk, Hv. pose proof (compatible_bytes _ _ A6) as Hb. split_and!; try done.
  - rewrite (sp_kdata _ _ _ _ P), Hk, Hb. done.
  - rewrite (sp_vdata _ _ _ _ P), Hv, Hb. done.
Qed.

(** *** One step of one slot *)

(** Nothing is marked done that was not delivered. *)
Definition clean_slot (slot : KvSlot) : Prop :=
  lossless = true -> cancelledMask slot = 0 /\
    forall w, 0 <= w < 4 -> Z.testbit (completedMask slot) w = true ->
      Z.testbit (deliveredMask slot) w = true.

Record slot_step (g : ghost) (n i : Z) (slot : KvSlot) (o : list effect) (x : KvSlot) : Prop := {
  ss_inv : slot_inv (absorb o g) n i x;
  ss_bal : forall w id, 0 <= w < 4 -> answers w id o + track x w id = track slot w id;
  ss_clean : clean_slot slot -> clean_slot x;
  ss_good : Forall (good_send g i x) (sends_of o);
  ss_local : local_to i n o
}.

Lemma waiting_marked slot w : 0 <= w < 4 -> waiting (mark_delivered slot) w = false.
Proof.
  intros Hw. unfold waiting. rewrite mark_delivered_bits by done.
  change (subscribers (mark_delivered slot)) with (subscribers slot).
  destruct (present _); [|done]. by rewrite orb_true_r.
Qed.

Lemma mark_pre g n i slot :
  slot_pre g n i slot -> ready slot = true -> slot_pre g n i (mark_delivered slot).
Proof.
  intros [] Hr. constructor; try done. intros w Hw Hd. rewrite mark_delivered_bits in Hd by done.
  split; [|done]. apply orb_true_iff in Hd as [Hd|Hd]; [by apply sp_del0|done].
Qed.

Lemma answers_waiting slot w id :
  0 <= w < 4 ->
  answers w id (delivery_effects c slot) =
    Z.b2z (waiting slot w && (requestId ((subscribers slot).[w]) =? id)).
Proof.
  intros Hw. unfold answers. destruct (delivery_effects_sends slot) as [-> _].
  assert (forall ws, NoDup ws ->
    Z.of_nat (length (filter (fun a : Z * Msg.t => fst a = w /\ Msg.reqSeq (snd a) = id)
      (map (fun w => (w, delivery_msg c slot w)) (filter (fun w => waiting slot w = true) ws)))) =
    if decide (w ∈ ws) then Z.b2z (waiting slot w && (requestId ((subscribers slot).[w]) =? id)) else 0)
    as Hg.
  { induction 1 as [|v ws Hv _ IH]; [done|]. rewrite filter_cons.
    destruct (delivery_msg_fields slot v) as (Eq & _).
    assert (w <> v \/ w = v /\ ~ w ∈ ws) as [Hne|[-> Hni]].
    { destruct (decide (w = v)) as [->|]; auto. }
    - assert (Z.of_nat (length (filter (fun a : Z * Msg.t => fst a = w /\ Msg.reqSeq (snd a) = id)
        (map (fun w => (w, delivery_msg c slot w)) (if decide (waiting slot v = true)
          then v :: filter (fun w => waiting slot w = true) ws
          else filter (fun w => waiting slot w = true) ws)))) =
        (if decide (w ∈ ws) then Z.b2z (waiting slot w && (requestId ((subscribers slot).[w]) =? id))
         else 0)) as ->.
      { destruct (decide (waiting slot v = true)); cbn [map]; [rewrite filter_cons_False by (simpl; intros [? _]; congruence)|];
          apply IH. }
      case_decide as D1; case_decide as D2; try done; [destruct D2; by right|].
      apply elem_of_cons in D2 as [?|?]; done.
    - rewrite (decide_True (P := v ∈ v :: ws)) by (by left). rewrite decide_False in IH by done.
      case_decide as E; cbn [map].
      + rewrite E. cbn [andb]. rewrite filter_cons. simpl fst. simpl snd. rewrite Eq.
        destruct (requestId _ =? id) eqn:Ei.
        * rewrite decide_True by lia. cbn [length]. simpl. lia.
        * rewrite decide_False by lia. simpl. lia.
      + destruct (waiting slot v); [done|]. simpl. lia. }
  rewrite Hg; [|apply (bool_decide_unpack _); by vm_compute].
  rewrite decide_True; [done|]. by apply worker_ids_iff.
Qed.

Lemma unready_inv g n i slot : slot_pre g n i slot -> ready slot = false -> slot_inv g n i slot.
Proof.
  intros P Hr. constructor; [done| |congruence]. intros w v Hw _ Hd.
  apply (sp_del _ _ _ _ P) in Hd as [_ ?]; congruence.
Qed.

Lemma step_same g n i slot x :
  slot_inv g n i x -> (forall w id, track x w id = track slot w id) ->
  (clean_slot slot -> clean_slot x) -> slot_step g n i slot [] x.
Proof.
  intros I T Cl. constructor; [by rewrite absorb_nil|intros w id _; by rewrite T|done|constructor|].
  by apply sends_local.
Qed.

(** Delivering if ready turns [slot_pre] into the invariant. *)
Lemma settle g n i slot :
  slot_pre g n i slot ->
  slot_step g n i slot (if ready slot then delivery_effects c slot else [])
    (if ready slot then mark_delivered slot else slot).
Proof.
  intros P. destruct (ready slot) eqn:Hr.
  - destruct (delivery_effects_sends slot) as (Es & Er & El).
    pose proof (sends_local i n _ Er El) as L. constructor; [|intros w id Hw|intros Cl Hll| |done].
    + apply (slot_inv_ghost g).
      * constructor; [by apply mark_pre| |]; intros; by apply waiting_marked.
      * apply extends_absorb.
      * unfold same_staging, slot_reads, slot_loads, absorb. simpl. by rewrite Er, El, !app_nil_r.
    + rewrite answers_waiting by done. unfold track. rewrite waiting_marked by done.
      rewrite (sp_occ _ _ _ _ P), andb_false_r. simpl. lia.
    + destruct (Cl Hll) as [H1 H2]. split; [done|]. intros w Hw Hcm. rewrite mark_delivered_bits by done.
      by rewrite H2.
    + apply (Forall_impl _ _ _ (delivery_good g n i slot P Hr)). intros a. done.
  - apply step_same; [by apply unready_inv|done|done].
Qed.

Lemma deliver_step s g i :
  in_range i s -> slot_pre g (nextKvSlotEpoch_ s) i (slot_at i s) ->
  exists o x, deliverAttentionKvSlot c i s = (o, put i x s) /\
    slot_step g (nextKvSlotEpoch_ s) i (slot_at i s) o x.
Proof.
  intros Hi P. pose proof (settle _ _ _ _ P) as S0. rewrite deliver_eq by done.
  rewrite (sp_occ _ _ _ _ P). cbn [andb]. destruct (ready (slot_at i s)); [by eauto|].
  eexists _, _. split; [|exact S0]. by rewrite put_same.
Qed.

(** *** Reading a tile back *)

Definition retag (tag : Z) (s : t) : t := s <| nextKvLocalTag_ := tag |>.

Definition blocked (slot : KvSlot) : bool :=
  failed slot || readInflight slot || negb (kLoadsPending slot =? 0) || negb (vLoadsPending slot =? 0).

Lemma unblocked slot :
  blocked slot = false -> failed slot = false /\ readInflight slot = false /\ idle_loads slot.
Proof. unfold blocked, idle_loads. rewrite !orb_false_iff, !negb_false_iff. intros [[[? ?] ?] ?]. split_and!; done || lia. Qed.

Lemma short_unready g n i slot :
  slot_pre g n i slot -> failed slot = false -> readOffset slot < bytes slot -> ready slot = false.
Proof.
  intros P Hf Ho. unfold ready. rewrite Hf. pose proof (sp_klen _ _ _ _ P) as Hk.
  pose proof (sp_vlen _ _ _ _ P) as Hv. cbn [orb].
  destruct (readingV slot); [rewrite andb_false_intro2; [done|lia]|rewrite andb_false_intro1; [done|lia]].
Qed.

Lemma issue_read_step s g i slot tag tag' :
  in_range i s -> slot_pre g (nextKvSlotEpoch_ s) i slot -> blocked slot = false ->
  readOffset slot < bytes slot ->
  exists o x, localReadAsync accepts (scratchAddr c i (readingV slot) ⊞ readOffset slot) (chunk_of slot)
      tag i (epoch slot) (retag tag' (put i slot s)) = (o, retag tag' (put i x s)) /\
    slot_step g (nextKvSlotEpoch_ s) i slot o x.
Proof.
  intros Hi P B Ho. destruct (unblocked _ B) as (Hf & Hri & Hid).
  pose proof (short_unready _ _ _ _ P Hf Ho) as Hr. unfold localReadAsync.
  destruct (accepts tag).
  - eexists _, (slot <| readInflight := true |>).
    unfold andThen, emit, modify_slot. rewrite app_nil_r. split.
    { change (slot_at i (retag tag' (put i slot s))) with (slot_at i (put i slot s)).
      rewrite put_at by done. f_equal.
      change (retag tag' (put i (slot <| readInflight := true |>) (put i slot s)) =
              retag tag' (put i (slot <| readInflight := true |>) s)). by rewrite put_put. }
    constructor.
    + apply unready_inv; [|done].
      destruct P. constructor; try done.
      * unfold slot_loads, absorb. simpl. by rewrite app_nil_r.
      * unfold slot_loads, absorb. simpl. by rewrite app_nil_r.
      * intros _. split_and!; [done|done|done|]. exists tag. unfold slot_reads, absorb. simpl.
        rewrite filter_app. unfold slot_reads in sp_quiet0. rewrite sp_quiet0 by done. simpl.
        rewrite filter_cons_True by done. done.
      * apply (issued_mono g); [done|apply extends_absorb].
    + intros w id _. simpl. done.
    + done.
    + constructor.
    + split; repeat constructor. simpl. apply (sp_epoch _ _ _ _ P).
  - eexists [], slot. split; [done|]. apply step_same; [by apply unready_inv|done|done].
Qed.

(** Turning from K to V. *)
Definition turn (slot : KvSlot) : KvSlot := slot <| readingV := true |> <| readOffset := 0 |>.

Lemma turn_pre g n i slot :
  slot_pre g n i slot -> readInflight slot = false -> readingV slot = false ->
  readOffset slot = bytes slot -> slot_pre g n i (turn slot).
Proof.
  intros P Hri Hv Ho. pose proof (sp_klen _ _ _ _ P) as Hk. pose proof (sp_vlen _ _ _ _ P) as Hvl.
  pose proof (sp_off _ _ _ _ P) as Hoff. rewrite Hv in Hk, Hvl.
  destruct P. constructor; try done.
  - simpl. lia.
  - change (Z.of_nat (length (kData slot)) = bytes slot). congruence.
  - intros H. change (readInflight slot = true) in H. congruence.
Qed.

Lemma put_ranged i x s : in_range i s -> in_range i (put i x s).
Proof. apply put_range. Qed.

Lemma step_from g n i slot slot' o x :
  (forall w id, track slot' w id = track slot w id) -> (clean_slot slot -> clean_slot slot') ->
  slot_step g n i slot' o x -> slot_step g n i slot o x.
Proof. intros T Cl [? B ? ? ?]. constructor; try done; [|auto]. intros w id Hw. by rewrite B, T. Qed.

Lemma pump_step s g i :
  in_range i s -> let slot := slot_at i s in
  slot_pre g (nextKvSlotEpoch_ s) i slot ->
  (blocked slot = true -> slot_inv g (nextKvSlotEpoch_ s) i slot) ->
  exists o x tag, pumpAttentionKvManagerRead c accepts i s = (o, retag tag (put i x s)) /\
    slot_step g (nextKvSlotEpoch_ s) i slot o x.
Proof.
  intros Hi slot P HB. unfold pumpAttentionKvManagerRead. cbn [pump].
  rewrite in_range_count by done. fold slot. rewrite (sp_occ _ _ _ _ P). cbn [negb orb].
  fold (blocked slot). destruct (blocked slot) eqn:B.
  { exists [], slot, (nextKvLocalTag_ s). unfold slot. rewrite put_same by done.
    split; [by destruct s|]. apply step_same; [by apply HB|done|done]. }
  pose proof (unblocked _ B) as (Hf & Hri & Hid). pose proof (sp_off _ _ _ _ P) as Hoff.
  destruct (readOffset slot =? bytes slot) eqn:Eo.
  - apply Z.eqb_eq in Eo. destruct (readingV slot) eqn:Ev; cbn [negb].
    + destruct (deliver_step s g i Hi P) as (o & x & E & S0). exists o, x, (nextKvLocalTag_ s).
      rewrite E. split; [by destruct s|done].
    + unfold andThen at 1, modify_slot. fold slot. fold (turn slot).
      change (s <| kvSlots_ := (kvSlots_ s).[i := turn slot] |>) with (put i (turn slot) s).
      pose proof (turn_pre _ _ _ _ P Hri Ev Eo) as P1.
      rewrite in_range_count by (by apply put_range). rewrite put_at by done.
      change (occupied (turn slot)) with (occupied slot). rewrite (sp_occ _ _ _ _ P). cbn [negb orb].
      fold (blocked (turn slot)). change (blocked (turn slot)) with (blocked slot). rewrite B.
      change (readOffset (turn slot)) with 0. change (bytes (turn slot)) with (bytes slot).
      change (readingV (turn slot)) with true. change (epoch (turn slot)) with (epoch slot). cbn [negb].
      pose proof (put_ranged i (turn slot) s Hi) as Hi1. destruct (0 =? bytes slot) eqn:E0.
      * destruct (deliver_step (put i (turn slot) s) g i Hi1) as (o & x & E & S0);
          [by rewrite put_at|]. rewrite E, put_put. rewrite put_at in S0 by done.
        exists o, x, (nextKvLocalTag_ s). split; [by destruct s|].
        apply (step_from _ _ _ _ (turn slot)); [done|done|exact S0].
      * set (tag := nextKvLocalTag_ (put i (turn slot) s)).
        destruct (issue_read_step s g i (turn slot) tag (tag ⊞ 1) Hi P1 B) as (o & x & E & S0);
          [change (0 < bytes slot); lia|].
        exists o, x, (tag ⊞ 1). split.
        { match type of E with ?L = _ =>
            transitivity (let '(o2, s2) := L in ([] ++ o2 : list effect, s2)) end;
            [reflexivity|by rewrite E]. }
        apply (step_from _ _ _ _ (turn slot)); [done|done|exact S0].
  - set (tag := nextKvLocalTag_ s).
    destruct (issue_read_step s g i slot tag (tag ⊞ 1) Hi P B) as (o & x & E & S0); [lia|].
    assert (put i slot s = s) as Es by (by apply put_same). rewrite Es in E.
    exists o, x, (tag ⊞ 1). split; [exact E|done].
Qed.

(** *** Steps of the whole state *)

Definition full (s : t) : Prop :=
  pendingKvRequests_ s <> [] -> forall i, in_range i s -> occupied (slot_at i s) = true.

Definition queued (w id : Z) (ps : list PendingKvRequest) : Z :=
  Z.of_nat (length (filter (fun p => pend_workerSlot p = w /\ pend_requestId p = id) ps)).
Definition staged (w id : Z) (slots : list KvSlot) : Z :=
  foldr (fun slot n => track slot w id + n) 0 slots.

(** The requests of worker [w] with id [id] that have not been answered. *)
Definition tracked (s : t) (w id : Z) : Z := queued w id (pendingKvRequests_ s) + staged w id (kvSlots_ s).

Definition good (g : ghost) (a : Z * Msg.t) : Prop := exists i slot, good_send g i slot a.

Lemma good_mono g g' a : extends g g' -> good g a -> good g' a.
Proof.
  intros [H1 H2] (i & slot & m & Hm & R1 & R2 & R3). exists i, slot, m. split_and!; [by apply H1|done|done|].
  destruct R3 as [?|(? & Hi & ?)]; [by left|right]. split_and!; try tauto. by apply (issued_mono g).
Qed.

Definition clean (s : t) : Prop := forall i, in_range i s -> clean_slot (slot_at i s).

Record world_step (s : t) (g : ghost) (o : list effect) (s' : t) (made : Z -> Z -> Z) : Prop := {
  ws_core : core s' (absorb o g);
  ws_bal : forall w id, 0 <= w < 4 -> answers w id o + tracked s' w id = tracked s w id + made w id;
  ws_clean : clean s -> clean s';
  ws_good : Forall (good (absorb o g)) (sends_of o);
  ws_full : full s -> full s'
}.
Definition none (w id : Z) : Z := 0.

Lemma staged_insert w id slots i x :
  (i < length slots)%nat ->
  staged w id (<[i := x]> slots) = staged w id slots - track (slots !!! i) w id + track x w id.
Proof.
  revert i. induction slots as [|y l IH]; intros [|i] Hi; simpl in Hi; try lia.
  - change ((y :: l) !!! 0%nat) with y. simpl. lia.
  - change ((y :: l) !!! S i) with (l !!! i).
    change (track y w id + staged w id (<[i := x]> l) =
      track y w id + staged w id l - track (l !!! i) w id + track x w id).
    rewrite IH by lia. lia.
Qed.

Lemma tracked_put w id i x s :
  in_range i s -> tracked (put i x s) w id = tracked s w id - track (slot_at i s) w id + track x w id.
Proof.
  intros [_ Hi]. unfold tracked, put, slot_at. cbn [kvSlots_ pendingKvRequests_ set_field]. simpl.
  rewrite staged_insert by done. lia.
Qed.

Lemma full_put i x s : in_range i s -> occupied x = true -> full s -> full (put i x s).
Proof.
  intros Hi Hx F Hp j Hj. apply put_range_inv in Hj. destruct (decide (j = i)) as [->|Hne].
  - by rewrite put_at.
  - rewrite put_ne by done. by apply F.
Qed.

Lemma clean_put i x s : in_range i s -> clean_slot x -> clean s -> clean (put i x s).
Proof.
  intros Hi Hx F j Hj. apply put_range_inv in Hj. destruct (decide (j = i)) as [->|Hne].
  - by rewrite put_at.
  - rewrite put_ne by done. by apply F.
Qed.

Lemma core_retag tag s g : core s g -> core (retag tag s) g.
Proof. intros []. by constructor. Qed.

Lemma put_step i s g o x tag :
  frame i s g -> in_range i s -> occupied (slot_at i s) = true ->
  slot_step g (nextKvSlotEpoch_ s) i (slot_at i s) o x ->
  world_step s g o (retag tag (put i x s)) none.
Proof.
  intros F Hi Ho [I B Cl G L]. pose proof (si_pre _ _ _ _ I) as P. constructor.
  - apply core_retag, frame_put; [apply frame_absorb; [done|apply Hi|done]|done|].
    unfold slot_ok. by rewrite (sp_occ _ _ _ _ P).
  - intros w id Hw. change (tracked (retag tag (put i x s)) w id) with (tracked (put i x s) w id).
    rewrite tracked_put by done. specialize (B w id Hw). unfold none. lia.
  - intros Hc. by apply (clean_put i x s); [|apply Cl, Hc|].
  - apply (Forall_impl _ _ _ G). intros a Ha. apply (good_mono g); [apply extends_absorb|by exists i, x].
  - intros Hf. apply (full_put i x s); [done|apply P|done].
Qed.

Lemma skip_step s g : core s g -> world_step s g [] s none.
Proof.
  intros C. constructor; [by rewrite absorb_nil| |done|constructor|done].
  intros w id _. unfold answers, none. simpl. lia.
Qed.

Lemma chain s g o s1 o' s2 m m' :
  world_step s g o s1 m -> world_step s1 (absorb o g) o' s2 m' ->
  world_step s g (o ++ o') s2 (fun w id => m w id + m' w id).
Proof.
  intros [C1 B1 L1 G1 F1] [C2 B2 L2 G2 F2]. constructor.
  - by rewrite absorb_app.
  - intros w id Hw. rewrite answers_app. specialize (B1 w id Hw). specialize (B2 w id Hw). lia.
  - auto.
  - unfold sends_of. rewrite omap_app, absorb_app. apply Forall_app. split; [|done].
    apply (Forall_impl _ _ _ G1). intros a. apply good_mono, extends_absorb.
  - auto.
Qed.

Lemma world_ext s g o s' m m' :
  world_step s g o s' m -> (forall w id, m w id = m' w id) -> world_step s g o s' m'.
Proof. intros [? B ? ? ?] E. constructor; try done. intros w id Hw. by rewrite <- E, B. Qed.

(** *** A tick *)

Lemma pump_world i s g :
  core s g -> in_range i s ->
  exists o s', pumpAttentionKvManagerRead c accepts i s = (o, s') /\ world_step s g o s' none /\
    length (kvSlots_ s') = length (kvSlots_ s).
Proof.
  intros C Hi. destruct (occupied (slot_at i s)) eqn:Ho.
  - pose proof (core_slot i s g C Hi Ho) as I.
    destruct (pump_step s g i Hi (si_pre _ _ _ _ I) (fun _ => I)) as (o & x & tag & E & S0).
    eexists _, _. split; [exact E|]. split; [by apply put_step; [apply core_frame|..]|].
    unfold retag, put. simpl. by rewrite length_insert.
  - eexists _, _. split; [|split; [by apply skip_step|done]].
    unfold pumpAttentionKvManagerRead. cbn [pump]. rewrite in_range_count by done. by rewrite Ho.
Qed.

Lemma tick_world s g :
  core s g -> exists o s', tick c accepts s = (o, s') /\ world_step s g o s' none.
Proof.
  intros C. unfold tick. destruct (attentionKvDistributionEnable_ c); [|exists [], s; split; [done|by apply skip_step]].
  assert (Forall (fun i => (i < length (kvSlots_ s))%nat) (seq 0 (length (kvSlots_ s)))) as Hf.
  { apply Forall_forall. intros i Hi%elem_of_seq. lia. }
  revert Hf C. generalize (seq 0 (length (kvSlots_ s))). intros l. revert s g. induction l as [|i l IH]; intros s g Hf C; [exists [], s; split; [done|by apply skip_step]|].
  inversion Hf as [|? ? H1 H2]; subst. cbn [foldr]. unfold andThen at 1.
  destruct (pump_world (Z.of_nat i) s g C) as (o & s1 & -> & W & Hl); [split; [lia|by rewrite Nat2Z.id]|].
  rewrite <- Hl in H2. destruct (IH s1 (absorb o g) H2 (ws_core _ _ _ _ _ W)) as (o' & s2 & -> & W').
  eexists _, _. split; [done|]. eapply world_ext; [by eapply chain|done].
Qed.

(** *** Completion of transfers and reads *)

Lemma frame_close i s g :
  frame i s g -> (in_range i s -> slot_ok g (nextKvSlotEpoch_ s) i (slot_at i s)) -> core s g.
Proof.
  intros F Hs. destruct (decide (in_range i s)) as [Hi|Hi].
  - rewrite <- (put_same i s Hi). by apply (frame_put i s g); [|done|apply Hs].
  - destruct F. constructor; try done; intros j Hj _; [apply fr_free0|apply fr_slots0];
      try done; intros ->; done.
Qed.

Definition without_load (g : ghost) (l1 l2 : list load) : ghost :=
  mkGhost (asked g) (told g) (reads g) (l1 ++ l2) (issued g).
Definition without_read (g : ghost) (r1 r2 : list read) : ghost :=
  mkGhost (asked g) (told g) (r1 ++ r2) (loads g) (issued g).

Lemma load_filter g l1 l l2 i e v :
  loads g = l1 ++ l :: l2 ->
  slot_loads i e v g = filter (fun l => l = mkLoad i e v) l1 ++
    (if decide (l = mkLoad i e v) then [l] else []) ++ filter (fun l => l = mkLoad i e v) l2 /\
  slot_loads i e v (without_load g l1 l2) =
    filter (fun l => l = mkLoad i e v) l1 ++ filter (fun l => l = mkLoad i e v) l2.
Proof.
  intros E. unfold slot_loads, without_load. simpl. rewrite E, !filter_app, filter_cons.
  split; [|done]. by case_decide.
Qed.

Lemma without_load_frame s g l1 l l2 :
  core s g -> loads g = l1 ++ l :: l2 -> frame (ld_slot l) s (without_load g l1 l2).
Proof.
  intros C E. apply (frame_ghost _ s g); [by apply core_frame|by apply extends_refl| |apply C|].
  - intros j Hne e. split; [done|]. intros v. destruct (load_filter g l1 l l2 j e v E) as [-> ->].
    rewrite decide_False; [done|]. intros ->. done.
  - pose proof (fr_loads _ _ _ C) as F. rewrite E in F. simpl.
    apply Forall_app in F as [F1 F2]. apply Forall_app. split; [done|]. by inversion F2.
Qed.

(** The slot right after one of its transfers is done. *)
Definition loaded (v ok : bool) (slot : KvSlot) : KvSlot :=
  let slot := slot <| failed := failed slot || negb ok |> in
  if v then slot <| vLoadsPending := vLoadsPending slot - 1 |>
  else slot <| kLoadsPending := kLoadsPending slot - 1 |>.

Lemma loaded_pre g l1 l l2 n i slot v ok :
  loads g = l1 ++ l :: l2 -> l = mkLoad i (epoch slot) v -> slot_pre g n i slot ->
  slot_pre (without_load g l1 l2) n i (loaded v ok slot) /\
  (if v then vLoadsPending slot else kLoadsPending slot) <> 0 /\ readInflight slot = false.
Proof.
  intros E El P.
  assert (forall v', Z.of_nat (length (slot_loads i (epoch slot) v' g)) =
    Z.of_nat (length (slot_loads i (epoch slot) v' (without_load g l1 l2))) +
    (if bool_decide (v = v') then 1 else 0)) as Hlen.
  { intros v'. destruct (load_filter g l1 l l2 i (epoch slot) v' E) as [-> ->].
    rewrite !length_app, El. case_bool_decide as Ev.
    - subst v'. rewrite decide_True by done. simpl. lia.
    - rewrite decide_False by (intros [=]; done). simpl. lia. }
  pose proof (sp_k _ _ _ _ P) as [Hk Uk]. pose proof (sp_v _ _ _ _ P) as [Hv Uv].
  pose proof (Hlen true) as Ht. pose proof (Hlen false) as Hf.
  assert ((if v then vLoadsPending slot else kLoadsPending slot) <> 0) as Hn0.
  { destruct v; simpl in *; lia. }
  assert (readInflight slot = false) as Hri.
  { apply not_true_iff_false. intros Hr. apply (sp_reading _ _ _ _ P) in Hr as ([H1 H2] & _).
    destruct v; lia. }
  split; [|done].
  assert (ready slot = true -> ready (loaded v ok slot) = true) as Hready.
  { unfold ready. destruct v; simpl; destruct (failed slot); simpl; intros H; try done;
      rewrite H; apply orb_true_r. }
  destruct P. constructor; destruct v; try done; try (simpl in *; unfold is_u32 in *; lia);
    try (intros Hr; change (readInflight slot = true) in Hr; congruence);
    (intros w Hw Hd; destruct (sp_del0 w Hw Hd); auto).
Qed.

Lemma track_loaded v ok slot w id : track (loaded v ok slot) w id = track slot w id.
Proof. by destruct v. Qed.

Lemma modify_eq i f s : modify_slot i f s = ([], put i (f (slot_at i s)) s).
Proof. done. Qed.

(** From the state with the slot replaced, back to the slot before. *)
Lemma put_step_from i s g o x y tag :
  frame i s g -> in_range i s -> occupied (slot_at i s) = true ->
  (forall w id, track y w id = track (slot_at i s) w id) ->
  (clean_slot (slot_at i s) -> clean_slot y) ->
  slot_step g (nextKvSlotEpoch_ s) i y o x ->
  world_step s g o (retag tag (put i x (put i y s))) none.
Proof.
  intros F Hi Ho T Cl S0. rewrite put_put. apply put_step; try done. by apply (step_from _ _ _ _ y).
Qed.

Lemma load_done s g l1 l l2 ok :
  core s g -> loads g = l1 ++ l :: l2 ->
  exists o s', completeAttentionKvDma c accepts (ld_slot l) (ld_epoch l) (ld_value l) ok s = (o, s') /\
    world_step s (without_load g l1 l2) o s' none.
Proof.
  intros C E. pose proof (without_load_frame s g l1 l l2 C E) as F.
  destruct l as [i e v]. cbn [ld_slot ld_epoch ld_value] in *. unfold completeAttentionKvDma.
  assert (0 <= i) as Hi0.
  { pose proof (fr_loads _ _ _ C) as H. rewrite E in H. apply Forall_app in H as [_ H].
    inversion H. simpl in *. lia. }
  destruct (slot_count s <=? i) eqn:Ec.
  { exists [], s. split; [done|]. apply skip_step, (frame_close i); [done|].
    intros Hi. by rewrite in_range_count in Ec. }
  assert (in_range i s) as Hi by (unfold in_range, slot_count in *; lia).
  destruct (occupied (slot_at i s)) eqn:Ho; cbn [negb orb].
  2:{ exists [], s. split; [done|]. apply skip_step, (frame_close i); [done|]. intros _.
      unfold slot_ok. rewrite Ho. apply (fr_free _ _ _ C); [done|lia|done]. }
  pose proof (core_slot i s g C Hi Ho) as I. pose proof (si_pre _ _ _ _ I) as P.
  destruct (epoch (slot_at i s) =? e) eqn:Ee; cbn [negb].
  2:{ exists [], s. split; [done|]. apply skip_step, (frame_close i); [done|]. intros _.
      unfold slot_ok. rewrite Ho. apply (slot_inv_ghost g); [done|by apply extends_refl|]. split; [done|]. intros v'.
      destruct (load_filter g l1 _ l2 i (epoch (slot_at i s)) v' E) as [-> ->].
      rewrite decide_False; [done|]. intros [=]. lia. }
  apply Z.eqb_eq in Ee. subst e.
  destruct (loaded_pre g l1 _ l2 _ i (slot_at i s) v ok E eq_refl P) as (P1 & Hn0 & Hri).
  rewrite (proj2 (Z.eqb_neq _ _) Hn0). fold (loaded v ok (slot_at i s)).
  unfold andThen. rewrite modify_eq. set (x1 := loaded v ok (slot_at i s)) in *.
  assert (forall w id, track x1 w id = track (slot_at i s) w id) as T by apply track_loaded.
  assert (clean_slot (slot_at i s) -> clean_slot x1) as Cl by (unfold x1; by destruct v).
  pose proof (put_ranged i x1 s Hi) as Hi1.
  destruct ((kLoadsPending x1 =? 0) && (vLoadsPending x1 =? 0)) eqn:Ez.
  - apply andb_true_iff in Ez as [Ek Ev]. destruct (failed x1) eqn:Ef.
    + destruct (deliver_step (put i x1 s) (without_load g l1 l2) i Hi1) as (o & x & -> & S0);
        [by rewrite put_at|]. rewrite put_at in S0 by done. eexists _, _. split; [done|].
      apply (put_step_from i s _ o x x1 (nextKvLocalTag_ s)) in S0; done.
    + destruct (pump_step (put i x1 s) (without_load g l1 l2) i Hi1) as (o & x & tag & -> & S0).
      * by rewrite put_at.
      * rewrite put_at by done. unfold blocked. rewrite Ef, Ek, Ev.
        assert (readInflight x1 = false) as -> by (unfold x1; by destruct v). done.
      * rewrite put_at in S0 by done. eexists _, _. split; [done|]. by apply put_step_from.
  - eexists _, _. split; [reflexivity|]. rewrite app_nil_l.
    assert (slot_step (without_load g l1 l2) (nextKvSlotEpoch_ s) i x1 [] x1) as S0.
    { apply step_same; [|done|done]. constructor; [done| |].
      - intros w w' Hw Hw' Hd. destruct I as [_ Ia _].
        assert (waiting x1 w' = waiting (slot_at i s) w') as -> by (unfold x1; by destruct v).
        apply (Ia w); [done|done|]. unfold x1 in Hd. by destruct v.
      - intros _ [Hk Hv]. rewrite Hk, Hv in Ez. done. }
    apply (put_step_from i s _ [] x1 x1 (nextKvLocalTag_ s)) in S0; [|done..].
    by rewrite put_put in S0.
Qed.

Lemma length_peek e a n : 0 <= n -> Z.of_nat (length (peek e a n)) = n.
Proof. intros Hn. unfold peek. rewrite length_map, length_seqZ. lia. Qed.

Lemma peek_app e a n m :
  0 <= n -> 0 <= m -> peek e a (n + m) = peek e a n ++ peek e (u64 (a + n)) m.
Proof.
  intros Hn Hm. unfold peek. rewrite seqZ_app, map_app by done. f_equal. rewrite seqZ_map_add.
  apply map_ext. intros j. rewrite u64_add_l. do 2 f_equal. lia.
Qed.

Lemma read_filter g r1 r r2 i e :
  reads g = r1 ++ r :: r2 ->
  slot_reads i e g = filter (fun r => rd_slot r = i /\ rd_epoch r = e) r1 ++
    (if decide (rd_slot r = i /\ rd_epoch r = e) then [r] else []) ++
    filter (fun r => rd_slot r = i /\ rd_epoch r = e) r2 /\
  slot_reads i e (without_read g r1 r2) =
    filter (fun r => rd_slot r = i /\ rd_epoch r = e) r1 ++
    filter (fun r => rd_slot r = i /\ rd_epoch r = e) r2.
Proof.
  intros E. unfold slot_reads, without_read. simpl. rewrite E, !filter_app, filter_cons.
  split; [|done]. by case_decide.
Qed.

Lemma without_read_frame s g r1 r r2 :
  core s g -> reads g = r1 ++ r :: r2 -> frame (rd_slot r) s (without_read g r1 r2).
Proof.
  intros C E. apply (frame_ghost _ s g); [by apply core_frame|by apply extends_refl| | |apply C].
  - intros j Hne e. split; [|done]. destruct (read_filter g r1 r r2 j e E) as [-> ->].
    rewrite decide_False; [done|]. intros [? _]. done.
  - pose proof (fr_reads _ _ _ C) as F. rewrite E in F. simpl.
    apply Forall_app in F as [F1 F2]. apply Forall_app. split; [done|]. by inversion F2.
Qed.

(** A read in progress for the slot's current staging is the one the slot waits for. *)
Lemma the_read g n i slot r1 r r2 :
  slot_pre g n i slot -> reads g = r1 ++ r :: r2 -> rd_slot r = i -> rd_epoch r = epoch slot ->
  readInflight slot = true /\ idle_loads slot /\ failed slot = false /\ readOffset slot < bytes slot /\
  rd_addr r = scratchAddr c i (readingV slot) ⊞ readOffset slot /\ rd_length r = chunk_of slot /\
  slot_reads i (epoch slot) (without_read g r1 r2) = [].
Proof.
  intros P E Hs He. destruct (read_filter g r1 r r2 i (epoch slot) E) as [E1 ->].
  rewrite decide_True in E1 by done.
  destruct (readInflight slot) eqn:Hr; [|rewrite (sp_quiet _ _ _ _ P) in E1 by done; by destruct (filter _ r1)].
  destruct (sp_reading _ _ _ _ P Hr) as (Hid & Hf & Ho & tag & E2). rewrite E2 in E1.
  destruct (filter _ r1) as [|y l]; [|destruct l; discriminate]. simpl in E1.
  destruct (filter _ r2); [|discriminate]. injection E1 as <-. done.
Qed.

(** The slot after a successful and after a failed read. *)
Definition grown (data : list Z) (slot : KvSlot) : KvSlot :=
  let slot := slot <| readInflight := false |>
                   <| readOffset := readOffset slot ⊞ Z.of_nat (length data) |> in
  if readingV slot then slot <| vData := vData slot ++ data |>
  else slot <| kData := kData slot ++ data |>.
Definition broken (slot : KvSlot) : KvSlot := slot <| readInflight := false |> <| failed := true |>.

Lemma chunk_bounds slot :
  dims_ok c -> 0 <= readOffset slot < bytes slot -> bytes slot < 2 ^ 32 ->
  0 < chunk_of slot /\ readOffset slot + chunk_of slot <= bytes slot.
Proof.
  intros (_ & _ & _ & _ & Hm) Ho Hb. unfold chunk_of.
  rewrite u64_small by (unfold is_u64; lia). lia.
Qed.

Lemma grown_pre g n i slot r1 r r2 :
  dims_ok c -> slot_pre g n i slot -> reads g = r1 ++ r :: r2 -> rd_slot r = i ->
  rd_epoch r = epoch slot ->
  slot_pre (without_read g r1 r2) n i (grown (peek (rd_epoch r) (rd_addr r) (rd_length r)) slot) /\
  blocked (grown (peek (rd_epoch r) (rd_addr r) (rd_length r)) slot) = false.
Proof.
  intros D P E Hs He. destruct (the_read g n i slot r1 r r2 P E Hs He) as (Hr & Hid & Hf & Ho & -> & -> & Eq).
  pose proof (sp_off _ _ _ _ P) as [Hoff Hb]. pose proof (chunk_bounds slot D ltac:(lia) Hb) as [Hc1 Hc2].
  pose proof (short_unready _ _ _ _ P Hf Ho) as Hu. rewrite He.
  set (data := peek _ _ _).
  assert (Z.of_nat (length data) = chunk_of slot) as Hl by (apply length_peek; lia).
  assert (readOffset slot ⊞ Z.of_nat (length data) = readOffset slot + chunk_of slot) as Hoff'.
  { rewrite Hl. apply u64_small. unfold is_u64. lia. }
  assert (forall w, 0 <= w < 4 -> Z.testbit (deliveredMask slot) w = true -> False) as Hd.
  { intros w Hw Hd. apply (sp_del _ _ _ _ P) in Hd as [_ Hd]; congruence. }
  pose proof (sp_klen _ _ _ _ P) as Hk. pose proof (sp_vlen _ _ _ _ P) as Hv.
  pose proof (sp_kdata _ _ _ _ P) as Kd. pose proof (sp_vdata _ _ _ _ P) as Vd.
  split.
  - destruct P. unfold grown. cbv zeta. cbn [readingV set_field].
    change (readingV (slot <| readInflight := false |>
      <| readOffset := readOffset slot ⊞ Z.of_nat (length data) |>)) with (readingV slot).
    destruct (readingV slot) eqn:Ev; constructor; try done;
      try (intros w Hw Ht; exfalso; by apply (Hd w));
      try (simpl; rewrite ?Hoff', ?length_app; lia).
    + change (vData slot ++ data = peek (epoch slot) (scratchAddr c i true) (Z.of_nat (length (vData slot ++ data)))).
      rewrite length_app, Nat2Z.inj_add, peek_app, <- Vd, Hl, Hv by lia. done.
    + change (kData slot ++ data = peek (epoch slot) (scratchAddr c i false) (Z.of_nat (length (kData slot ++ data)))).
      rewrite length_app, Nat2Z.inj_add, peek_app, <- Kd, Hl, Hk by lia. done.
  - destruct Hid as [H1 H2]. unfold blocked, grown. cbv zeta. destruct (readingV _); simpl; rewrite Hf, H1, H2; done.
Qed.

Lemma broken_pre g n i slot r1 r r2 :
  slot_pre g n i slot -> reads g = r1 ++ r :: r2 -> rd_slot r = i -> rd_epoch r = epoch slot ->
  slot_pre (without_read g r1 r2) n i (broken slot).
Proof.
  intros P E Hs He. destruct (the_read g n i slot r1 r r2 P E Hs He) as (_ & _ & _ & _ & _ & _ & Eq).
  destruct P. constructor; try done. intros w Hw Hd. split; [|done]. by apply (sp_del0 w).
Qed.

Lemma track_grown data slot w id : track (grown data slot) w id = track slot w id.
Proof.
  unfold grown. cbv zeta. destruct (readingV (slot <| readInflight := false |>
    <| readOffset := readOffset slot ⊞ Z.of_nat (length data) |>)); done.
Qed.

Lemma clean_grown data slot : clean_slot slot -> clean_slot (grown data slot).
Proof.
  unfold grown. cbv zeta. destruct (readingV (slot <| readInflight := false |>
    <| readOffset := readOffset slot ⊞ Z.of_nat (length data) |>)); done.
Qed.

Definition read_result (ok : bool) (r : read) : list Z :=
  if ok then peek (rd_epoch r) (rd_addr r) (rd_length r) else [].

Lemma read_done s g r1 r r2 ok :
  dims_ok c -> core s g -> reads g = r1 ++ r :: r2 ->
  exists o s', completeLocalRead c accepts (rd_slot r) (rd_epoch r) (rd_tag r) ok (rd_tag r)
                 (read_result ok r) s = (o, s') /\
    world_step s (without_read g r1 r2) o s' none.
Proof.
  intros D C E. pose proof (without_read_frame s g r1 r r2 C E) as F.
  set (i := rd_slot r) in *. unfold completeLocalRead.
  assert (0 <= i) as Hi0.
  { pose proof (fr_reads _ _ _ C) as H. rewrite E in H. apply Forall_app in H as [_ H].
    inversion H. simpl in *. lia. }
  destruct (slot_count s <=? i) eqn:Ec.
  { exists [], s. split; [done|]. apply skip_step, (frame_close i); [done|].
    intros Hi. by rewrite in_range_count in Ec. }
  assert (in_range i s) as Hi by (unfold in_range, slot_count in *; lia).
  destruct (occupied (slot_at i s)) eqn:Ho; cbn [negb orb].
  2:{ exists [], s. split; [done|]. apply skip_step, (frame_close i); [done|]. intros _.
      unfold slot_ok. rewrite Ho. apply (fr_free _ _ _ C); [done|lia|done]. }
  pose proof (core_slot i s g C Hi Ho) as I. pose proof (si_pre _ _ _ _ I) as P.
  destruct (epoch (slot_at i s) =? rd_epoch r) eqn:Ee; cbn [negb].
  2:{ exists [], s. split; [done|]. apply skip_step, (frame_close i); [done|]. intros _.
      unfold slot_ok. rewrite Ho. apply (slot_inv_ghost g); [done|by apply extends_refl|]. split; [|done].
      destruct (read_filter g r1 _ r2 i (epoch (slot_at i s)) E) as [-> ->].
      rewrite decide_False; [done|]. intros [_ ?]. lia. }
  apply Z.eqb_eq in Ee. rewrite Z.eqb_refl, orb_false_r.
  destruct ok; cbn [negb orb read_result].
  - destruct (the_read g _ i _ r1 r r2 P E eq_refl (eq_sym Ee)) as (_ & _ & _ & Ho' & _ & El & _).
    pose proof (sp_off _ _ _ _ P) as [Hoff Hb].
    pose proof (chunk_bounds (slot_at i s) D ltac:(lia) Hb) as [Hc _].
    rewrite bool_decide_false.
    2:{ intros Hn. apply (f_equal (fun l => Z.of_nat (length l))) in Hn.
        rewrite length_peek in Hn by lia. simpl in Hn. lia. }
    destruct (grown_pre g _ i _ r1 r r2 D P E eq_refl (eq_sym Ee)) as [P1 B1].
    set (x1 := grown _ (slot_at i s)) in *. unfold andThen. rewrite modify_eq.
    change (put i _ s) with (put i x1 s). pose proof (put_ranged i x1 s Hi) as Hi1.
    destruct (pump_step (put i x1 s) (without_read g r1 r2) i Hi1) as (o & x & tag & -> & S0).
    + by rewrite put_at.
    + rewrite put_at by done. by rewrite B1.
    + rewrite put_at in S0 by done. eexists _, _. split; [done|].
      apply put_step_from; try done; [intros w id; apply track_grown|apply clean_grown].
  - pose proof (broken_pre g _ i _ r1 r r2 P E eq_refl (eq_sym Ee)) as P1.
    unfold andThen. rewrite modify_eq. fold (broken (slot_at i s)).
    set (x1 := broken (slot_at i s)) in *. pose proof (put_ranged i x1 s Hi) as Hi1.
    destruct (deliver_step (put i x1 s) (without_read g r1 r2) i Hi1) as (o & x & -> & S0);
      [by rewrite put_at|]. rewrite put_at in S0 by done. eexists _, _. split; [done|].
    apply (put_step_from i s _ o x x1 (nextKvLocalTag_ s)) in S0; done.
Qed.

(** *** Requests *)

Lemma find_index_spec p slots : forall n,
  0 <= n ->
  (exists k, find_index p n slots = n + Z.of_nat k /\ (k < length slots)%nat /\ p (slots !!! k) = true) \/
  (find_index p n slots = -1 /\ Forall (fun x => p x = false) slots).
Proof.
  induction slots as [|x l IH]; intros n Hn; cbn [find_index]; [by right|].
  destruct (p x) eqn:E.
  - left. exists 0%nat. split; [lia|]. split; [simpl; lia|done].
  - destruct (IH (n + 1) ltac:(lia)) as [(k & E1 & Hk & Hp)|[E1 Hf]].
    + left. exists (S k). split; [lia|]. split; [simpl; lia|done].
    + right. split; [done|by constructor].
Qed.

Lemma find_slot p s :
  (exists i, find_index p 0 (kvSlots_ s) = i /\ in_range i s /\ p (slot_at i s) = true) \/
  (find_index p 0 (kvSlots_ s) = -1 /\ forall i, in_range i s -> p (slot_at i s) = false).
Proof.
  destruct (find_index_spec p (kvSlots_ s) 0 ltac:(lia)) as [(k & -> & Hk & Hp)|[-> Hf]].
  - left. exists (Z.of_nat k). split; [lia|]. unfold in_range, slot_at. by rewrite Nat2Z.id; split; [lia|].
  - right. split; [done|]. intros i [Hi Hl]. by apply (proj1 (Forall_lookup_total _ _) Hf).
Qed.

Definition once (w id w' id' : Z) : Z := Z.b2z ((w =? w') && (id =? id')).

Lemma send_failure w m s :
  0 <= w < 4 -> send w (failure_msg m) s = ([Send w (failure_msg m)], s).
Proof.
  intros Hw. unfold send, emit, Sched.sendRsp, Sched.kWorkers.
  rewrite (proj2 (Z.ltb_ge _ _)), (proj2 (Z.leb_gt _ _)) by lia. done.
Qed.

Lemma answers_send w m w' id : answers w' id [Send w m] = once w (Msg.reqSeq m) w' id.
Proof.
  unfold answers, once, sends_of. cbn [omap list_omap]. rewrite filter_cons. simpl fst. simpl snd.
  destruct (w =? w') eqn:E1, (Msg.reqSeq m =? id) eqn:E2;
    (rewrite decide_True by lia; done) || (rewrite decide_False by lia; done).
Qed.

(** Answers do not matter to the core. *)
Lemma core_told s g o : core s g -> reads_of o = [] -> loads_of o = [] -> core s (absorb o g).
Proof.
  intros C Hr Hl. destruct C. unfold core.
  assert (reads (absorb o g) = reads g /\ loads (absorb o g) = loads g) as [Er El].
  { unfold absorb. simpl. by rewrite Hr, Hl, !app_nil_r. }
  constructor; rewrite ?Er, ?El; try done. intros i Hi Hne Ho. apply (slot_inv_ghost g); [auto|apply extends_absorb|].
  unfold same_staging, slot_reads, slot_loads. by rewrite Er, El.
Qed.

Lemma failure_step w m s g :
  core s g -> 0 <= w < 4 -> (w, m) ∈ asked g ->
  exists o s', send w (failure_msg m) s = (o, s') /\ world_step s g o s' (once w (Msg.reqSeq m)) /\
    nextKvSlotEpoch_ s' = nextKvSlotEpoch_ s.
Proof.
  intros C Hw Hm. rewrite send_failure by done. eexists _, _. split; [done|]. split; [|done].
  constructor; [by apply core_told| |done| |done].
  - intros w' id Hw'. rewrite answers_send. change (Msg.reqSeq (failure_msg m)) with (Msg.reqSeq m). lia.
  - constructor; [|constructor]. exists 0, no_slot, m. split_and!; try done. by left.
Qed.

Lemma put_step_made i s g o x y made :
  frame i s g -> in_range i s ->
  (forall w id, 0 <= w < 4 -> track y w id = track (slot_at i s) w id + made w id) ->
  (clean_slot (slot_at i s) -> clean_slot y) ->
  slot_step g (nextKvSlotEpoch_ s) i y o x -> (full s -> full (put i x s)) ->
  world_step s g o (put i x s) made.
Proof.
  intros F Hi T Hcl [I B Cl G L] Hfull. pose proof (si_pre _ _ _ _ I) as P. constructor.
  - apply frame_put; [apply frame_absorb; [done|apply Hi|done]|done|].
    unfold slot_ok. by rewrite (sp_occ _ _ _ _ P).
  - intros w id Hw. rewrite tracked_put by done. specialize (B w id Hw). specialize (T w id Hw). lia.
  - intros Hc. apply (clean_put i x s); [done| |done]. auto.
  - apply (Forall_impl _ _ _ G). intros a Ha. apply (good_mono g); [apply extends_absorb|by exists i, x].
  - done.
Qed.

(** Joining a slot. *)
Definition joined (m : Msg.t) (w : Z) (slot : KvSlot) : KvSlot :=
  slot <| speculative := false |>
       <| subscribers := (subscribers slot).[w :=
            mkSubscriber true (Msg.reqSeq m) (Msg.generation m) (Msg.kDstAddr m) (Msg.vDstAddr m)] |>
       <| requestedMask := Z.lor (requestedMask slot) (bit w) |>.

Lemma joined_sub m w slot v :
  length (subscribers slot) = 4%nat -> 0 <= w < 4 -> 0 <= v < 4 ->
  (subscribers (joined m w slot)).[v] =
    if decide (v = w) then mkSubscriber true (Msg.reqSeq m) (Msg.generation m) (Msg.kDstAddr m) (Msg.vDstAddr m)
    else (subscribers slot).[v].
Proof.
  intros Hl Hw Hv.
  change (subscribers (joined m w slot)) with ((subscribers slot).[w := mkSubscriber true (Msg.reqSeq m)
    (Msg.generation m) (Msg.kDstAddr m) (Msg.vDstAddr m)]).
  case_decide as E; [subst v; apply list_lookup_total_insert_eq; lia|].
  apply list_lookup_total_insert_ne. lia.
Qed.

Lemma joined_pre g n i m w slot :
  slot_pre g n i slot -> 0 <= w < 4 -> (w, m) ∈ asked g -> same_tile m slot = true ->
  compatible slot m = true -> present ((subscribers slot).[w]) = false ->
  slot_pre g n i (joined m w slot).
Proof.
  intros P Hw Hm Ht Hc Hp. pose proof (sp_subs _ _ _ _ P) as Hl.
  pose proof (joined_sub m w slot) as J. destruct P. constructor; try done.
  - change (length ((subscribers slot).[w := mkSubscriber true (Msg.reqSeq m)
      (Msg.generation m) (Msg.kDstAddr m) (Msg.vDstAddr m)]) = 4%nat). by rewrite length_insert.
  - intros v Hv. rewrite J by done.
    change (requestedMask (joined m w slot)) with (Z.lor (requestedMask slot) (bit w)).
    rewrite lor_bit by lia. case_decide as E; [subst v; by rewrite Z.eqb_refl, orb_true_r|].
    rewrite (proj2 (Z.eqb_neq v w)), orb_false_r by done. by apply sp_req0.
  - intros v Hv Hd. rewrite J by done. destruct (sp_del0 v Hv Hd) as [H1 H2]. split; [|done].
    by case_decide.
  - intros v Hv. unfold asked_for. rewrite J by done. case_decide as E.
    + subst v. intros _. exists m. split_and!; done.
    + intros Hv'. destruct (sp_sub0 v Hv Hv') as (m' & ? & ?). by exists m'.
Qed.

Lemma joined_track g n i m w slot w' id :
  slot_pre g n i slot -> 0 <= w < 4 -> 0 <= w' < 4 -> present ((subscribers slot).[w]) = false ->
  track (joined m w slot) w' id = track slot w' id + once w (Msg.reqSeq m) w' id.
Proof.
  intros P Hw Hw' Hp. unfold track, waiting, once.
  change (occupied (joined m w slot)) with (occupied slot). rewrite (sp_occ _ _ _ _ P).
  change (deliveredMask (joined m w slot)) with (deliveredMask slot).
  rewrite joined_sub by (done || apply P). case_decide as E.
  - subst w'. rewrite Hp. cbn [present requestId]. rewrite Z.eqb_refl. cbn [andb].
    destruct (Z.testbit (deliveredMask slot) w) eqn:Ed; [|simpl; lia].
    apply (sp_del _ _ _ _ P) in Ed as [Ed _]; [congruence|done].
  - rewrite (proj2 (Z.eqb_neq w w')) by done. simpl. lia.
Qed.

(** *** Starting a slot *)

Definition fresh (m : Msg.t) (e : Z) : KvSlot :=
  mkSlot true false false false false e (Msg.generation m)
    (Msg.jobTag m) (Msg.queryGroup m) (Msg.kvTileIndex m) (Msg.physicalKvTileIndex m)
    (Msg.numKvTiles m) (Msg.kvLength m) (Msg.kvTileRows m) (Msg.tileRows m) (Msg.rowsPerBand m)
    (Msg.headDim m) (Msg.nodeStrideBytes m) (Msg.kAddr m) (Msg.vAddr m) (Msg.bytes m)
    0 0 0 0 0 0 0 (replicate 4 no_subscriber) [] [].
Definition bump (s : t) : t := s <| nextKvSlotEpoch_ := nextKvSlotEpoch_ s ⊞ 1 |>.

Lemma start_eq i m s : startAttentionKvSlot i m s = ([], put i (fresh m (nextKvSlotEpoch_ s)) (bump s)).
Proof. done. Qed.

Lemma slot_inv_next g n n' i x : slot_inv g n i x -> n <= n' -> slot_inv g n' i x.
Proof. intros [P ? ?] Hn. constructor; [by apply (slot_pre_next g n)|done|done]. Qed.

Lemma bump_next s : 0 <= nextKvSlotEpoch_ s -> nextKvSlotEpoch_ s + 1 < 2 ^ 64 ->
  nextKvSlotEpoch_ (bump s) = nextKvSlotEpoch_ s + 1.
Proof. intros H0 H. unfold bump. simpl. apply u64_small. unfold is_u64. lia. Qed.

Lemma bump_frame i s g : frame i s g -> nextKvSlotEpoch_ s + 1 < 2 ^ 64 -> frame i (bump s) g.
Proof.
  intros F Hn. pose proof (fr_next _ _ _ F) as H1. pose proof (bump_next s ltac:(lia) Hn) as E.
  destruct F. constructor; rewrite ?E; try done; try lia.
  - intros j Hj Hne Ho. apply (slot_inv_next g (nextKvSlotEpoch_ s)); [|lia]. by apply fr_slots0.
  - apply (Forall_impl _ _ _ fr_reads0). lia.
  - apply (Forall_impl _ _ _ fr_loads0). lia.
Qed.

(** A message that starts a slot. *)
Record start_ok (m : Msg.t) : Prop := {
  st_index : 0 <= Msg.kvTileIndex m < Msg.numKvTiles m;
  st_tiles : Msg.numKvTiles m < 2 ^ 32;
  st_rows : is_u32 (Msg.tileRows m) /\ is_u32 (Msg.kvTileRows m);
  st_bytes : 0 <= Msg.bytes m < 2 ^ 32
}.

Lemma fresh_none g s i :
  core s g -> slot_reads i (nextKvSlotEpoch_ s) g = [] /\
  forall v, slot_loads i (nextKvSlotEpoch_ s) v g = [].
Proof.
  intros C. split; [|intros v]; unfold slot_reads, slot_loads; apply filter_none.
  - apply (Forall_impl _ _ _ (fr_reads _ _ _ C)). intros r [_ H] [_ E]. lia.
  - apply (Forall_impl _ _ _ (fr_loads _ _ _ C)). intros l [_ H] ->. simpl in H. lia.
Qed.

Definition dma_effects (i : Z) (v : bool) (slot : KvSlot) : list effect :=
  map (dma_effect i (epoch slot) v) (slot_dmas c i v slot).

(** All transfers of a slot. *)
Definition plan_effects (i : Z) (slot : KvSlot) : list effect :=
  dma_effects i false slot ++ dma_effects i true slot.

(** [g] with transfers noted as issued. *)
Definition noting (o : list effect) (g : ghost) : ghost :=
  mkGhost (asked g) (told g) (reads g) (loads g) (issued g ++ o).

Lemma slot_dmas_ext i v a b : same_plan a b -> slot_dmas c i v a = slot_dmas c i v b.
Proof.
  intros (E1 & E2 & E3 & E4 & E5 & E6 & E7 & E8). unfold slot_dmas. rewrite E1, E2, E3, E4, E5.
  generalize (Z.to_nat (tileRows b)) 0. intros fuel. induction fuel as [|fuel IH]; intros r; [done|].
  cbn [dma_rows]. rewrite E5, E6, E7, E8. destruct (_ <? _); [|done]. cbv zeta. f_equal. by apply IH.
Qed.

Lemma plan_ext i a b : same_plan a b -> epoch a = epoch b -> plan_effects i a = plan_effects i b.
Proof.
  intros Hp He. unfold plan_effects, dma_effects. by rewrite He, !(slot_dmas_ext i _ a b Hp).
Qed.

Lemma plan_issued i slot g : issued_for (noting (plan_effects i slot) g) i slot.
Proof.
  exists slot. split; [done|]. intros v d Hd. unfold noting, plan_effects, dma_effects. cbn [issued].
  apply elem_of_app. right. apply elem_of_app.
  destruct v; [right|left]; by apply (list_elem_of_fmap_2 (dma_effect i (epoch slot) _)).
Qed.

Lemma fresh_pre g s i m :
  core s g -> start_ok m -> nextKvSlotEpoch_ s + 1 < 2 ^ 64 ->
  slot_pre (noting (plan_effects i (fresh m (nextKvSlotEpoch_ s))) g) (nextKvSlotEpoch_ (bump s)) i
    (fresh m (nextKvSlotEpoch_ s)).
Proof.
  intros C [M1 M2 [M3 M3'] M4] Hn. pose proof (plan_issued i (fresh m (nextKvSlotEpoch_ s)) g) as Hpl.
  set (g' := noting _ g) in *. pose proof (fresh_none g s i C) as [Hr Hl].
  change (slot_reads i (nextKvSlotEpoch_ s) g' = []) in Hr.
  change (forall v, slot_loads i (nextKvSlotEpoch_ s) v g' = []) in Hl.
  pose proof (fr_next _ _ _ C). rewrite bump_next by lia.
  assert (forall w, 0 <= w < 4 -> present ((replicate 4 no_subscriber).[w]) = false) as Hp.
  { intros w Hw. by rewrite lookup_total_replicate_2 by lia. }
  constructor; try exact Hpl; cbn [fresh occupied subscribers requestedMask deliveredMask kLoadsPending vLoadsPending
    kvTileIndex numKvTiles kvTileRows tileRows readOffset bytes kData vData readingV readInflight epoch];
    rewrite ?Hr, ?Hl; try done; try (unfold is_u32; simpl; lia).
  - intros w Hw. rewrite Z.bits_0. symmetry. by apply Hp.
  - intros w Hw. by rewrite Z.bits_0.
  - intros w Hw H'. by rewrite Hp in H'.
Qed.

Lemma length_dma_rows slot tb sb fr fuel r : (length (dma_rows slot tb sb fr fuel r) <= fuel)%nat.
Proof.
  revert r. induction fuel as [|fuel IH]; intros r; cbn [dma_rows]; [simpl; lia|].
  destruct (r <? tileRows slot); [|simpl; lia]. cbn [length].
  match goal with |- context [dma_rows _ _ _ _ _ ?r'] => specialize (IH r') end. lia.
Qed.

Definition with_loads (i : Z) (v : bool) (slot : KvSlot) : KvSlot :=
  let count := Z.of_nat (length (slot_dmas c i v slot)) in
  if v then slot <| vLoadsPending := count |> else slot <| kLoadsPending := count |>.

Lemma issue_eq i (v : bool) s y :
  in_range i s -> is_u32 (tileRows y) -> (if v then vLoadsPending y else kLoadsPending y) = 0 ->
  issueAttentionKvDma c i v (put i y s) = (dma_effects i v y, put i (with_loads i v y) s) /\
  is_u32 (Z.of_nat (length (slot_dmas c i v y))).
Proof.
  intros Hi Ht H0. unfold issueAttentionKvDma. rewrite put_at by done. unfold andThen, emit.
  rewrite modify_eq, app_nil_r, put_at, put_put by done. fold (dma_effects i v y).
  assert (is_u32 (Z.of_nat (length (slot_dmas c i v y)))) as Hu.
  { unfold is_u32, slot_dmas in *.
    match goal with |- context [dma_rows ?a ?b ?d ?e ?f ?h] => pose proof (length_dma_rows a b d e f h) end.
    lia. }
  split; [|done]. f_equal. f_equal. unfold with_loads. cbv zeta.
  destruct v; rewrite H0, Z.add_0_l, u32_small by done; done.
Qed.

Lemma slot_dmas_loads i v v' slot : slot_dmas c i v (with_loads i v' slot) = slot_dmas c i v slot.
Proof. apply slot_dmas_ext. by destruct v'. Qed.

Lemma loads_of_dmas i v slot :
  loads_of (dma_effects i v slot) = replicate (length (slot_dmas c i v slot)) (mkLoad i (epoch slot) v) /\
  reads_of (dma_effects i v slot) = [] /\ sends_of (dma_effects i v slot) = [].
Proof.
  unfold dma_effects. induction (slot_dmas c i v slot) as [|[[a b] d] l (I1 & I2 & I3)]; [done|].
  unfold loads_of, reads_of, sends_of in *. cbn [map omap list_omap length replicate dma_effect].
  by rewrite I1, I2, I3.
Qed.

Lemma filter_replicate {A} (P : A -> Prop) `{!forall x, Decision (P x)} n x :
  filter P (replicate n x) = if decide (P x) then replicate n x else [].
Proof. induction n as [|n IH]; [by case_decide|]. simpl. rewrite filter_cons, IH. by case_decide. Qed.

(** Both operands of a slot that has just been started. *)
Lemma load_step i s g y :
  in_range i s -> slot_pre (noting (plan_effects i y) g) (nextKvSlotEpoch_ s) i y -> idle_loads y -> readInflight y = false ->
  (forall w, 0 <= w < 4 -> Z.testbit (deliveredMask y) w = false) ->
  (ready y = true -> forall w, 0 <= w < 4 -> waiting y w = false) ->
  exists o x, (issueAttentionKvDma c i false ⨟ issueAttentionKvDma c i true) (put i y s)
      = (o, put i x s) /\ slot_step g (nextKvSlotEpoch_ s) i y o x.
Proof.
  intros Hi P [Hk Hv] Hri Hd Hw. pose proof (sp_dims _ _ _ _ P) as (_ & _ & _ & Ht).
  unfold andThen. destruct (issue_eq i false s y Hi Ht Hk) as [-> Uk].
  destruct (issue_eq i true s (with_loads i false y) Hi Ht Hv) as [-> Uv].
  rewrite slot_dmas_loads in Uv. eexists _, _. split; [reflexivity|].
  destruct (loads_of_dmas i false y) as (L1 & L2 & L3).
  destruct (loads_of_dmas i true (with_loads i false y)) as (M1 & M2 & M3).
  rewrite slot_dmas_loads in M1. change (epoch (with_loads i false y)) with (epoch y) in M1.
  set (o := dma_effects i false y ++ dma_effects i true (with_loads i false y)).
  assert (reads_of o = [] /\ sends_of o = [] /\ loads_of o =
    replicate (length (slot_dmas c i false y)) (mkLoad i (epoch y) false) ++
    replicate (length (slot_dmas c i true y)) (mkLoad i (epoch y) true)) as (R & Sd & L).
  { unfold o, reads_of, sends_of, loads_of in *. rewrite !omap_app, L1, L2, L3, M1, M2, M3. done. }
  assert (forall v, slot_loads i (epoch y) v (absorb o g) =
    slot_loads i (epoch y) v g ++ replicate (length (slot_dmas c i v y)) (mkLoad i (epoch y) v)) as Hf.
  { intros v. unfold slot_loads, absorb. cbn [loads]. rewrite L, !filter_app, !filter_replicate.
    f_equal. destruct v.
    - rewrite decide_False, decide_True by (done || congruence). done.
    - rewrite decide_True, decide_False, app_nil_r by (done || congruence). done. }
  pose proof (sp_k _ _ _ _ P) as [Ek _]. pose proof (sp_v _ _ _ _ P) as [Ev _].
  rewrite Hk in Ek. rewrite Hv in Ev.
  change (0 = Z.of_nat (length (slot_loads i (epoch y) false g))) in Ek.
  change (0 = Z.of_nat (length (slot_loads i (epoch y) true g))) in Ev.
  constructor.
  - constructor; [| |].
    + destruct P. constructor; try done.
      * change (Z.of_nat (length (slot_dmas c i false y)) =
          Z.of_nat (length (slot_loads i (epoch y) false (absorb o g))) /\
          is_u32 (Z.of_nat (length (slot_dmas c i false y)))).
        rewrite Hf, length_app, length_replicate. split; [lia|done].
      * change (Z.of_nat (length (slot_dmas c i true (with_loads i false y))) =
          Z.of_nat (length (slot_loads i (epoch y) true (absorb o g))) /\
          is_u32 (Z.of_nat (length (slot_dmas c i true (with_loads i false y))))).
        rewrite slot_dmas_loads, Hf, length_app, length_replicate. split; [lia|done].
      * intros Hr. change (readInflight y = true) in Hr. congruence.
      * intros _. unfold slot_reads, absorb. cbn [reads]. rewrite R, app_nil_r. by apply sp_quiet0.
      * apply (issued_mono (noting (plan_effects i y) g)); [done|]. unfold noting, absorb, o, plan_effects.
        cbn [issued]. unfold dma_effects. by rewrite slot_dmas_loads.
    + intros w v Hw' Hv' Ht'. by rewrite Hd in Ht'.
    + intros Hr _ w Hw'. by apply Hw.
  - intros w id _. unfold answers. rewrite Sd. simpl. done.
  - done.
  - rewrite Sd. constructor.
  - unfold local_to. rewrite R, L. split; [constructor|]. pose proof (sp_epoch _ _ _ _ P).
    apply Forall_app. split; apply Forall_replicate; simpl; lia.
Qed.

Lemma full_free i s x : in_range i s -> occupied (slot_at i s) = false -> full s -> full (put i x (bump s)).
Proof.
  intros Hi Ho F Hp. destruct (pendingKvRequests_ s) eqn:E; [by rewrite E in Hp || done|].
  assert (pendingKvRequests_ s <> []) as Hne by (by rewrite E). apply F in Hne. rewrite Hne in Ho; done.
Qed.

Lemma bump_step s g o s' made : world_step (bump s) g o s' made -> (full s -> full s') -> world_step s g o s' made.
Proof. intros [? B ? ? ?] F. by constructor. Qed.

Lemma fresh_track m e w id : 0 <= w < 4 -> track (fresh m e) w id = 0.
Proof.
  intros Hw. unfold track, waiting, fresh. cbn [occupied subscribers].
  by rewrite lookup_total_replicate_2 by lia.
Qed.

Lemma free_track s g i w id :
  core s g -> in_range i s -> occupied (slot_at i s) = false -> track (slot_at i s) w id = 0.
Proof. intros C Hi Ho. unfold track. by rewrite Ho. Qed.

Lemma fresh_matches m e : same_tile m (fresh m e) = true /\ compatible (fresh m e) m = true.
Proof. unfold same_tile, compatible, fresh. simpl. by rewrite !Z.eqb_refl. Qed.

(** A request takes a free slot. *)
Lemma new_slot_step i s g m w :
  core s g -> in_range i s -> occupied (slot_at i s) = false -> start_ok m -> Msg.bytes m <> 0 ->
  0 <= w < 4 -> (w, m) ∈ asked g -> nextKvSlotEpoch_ s + 1 < 2 ^ 64 ->
  exists o s', (startAttentionKvSlot i m ⨟ addAttentionKvSubscriber i m w ⨟
      issueAttentionKvDma c i false ⨟ issueAttentionKvDma c i true) s = (o, s') /\
    world_step s g o s' (once w (Msg.reqSeq m)) /\ nextKvSlotEpoch_ s' = nextKvSlotEpoch_ s + 1 /\
    pendingKvRequests_ s' = pendingKvRequests_ s /\ kvSlots_ s' = (kvSlots_ s).[i := slot_at i s'] /\
    occupied (slot_at i s') = true.
Proof.
  intros C Hi Ho M Hb Hw Hm Hn. pose proof (fresh_pre g s i m C M Hn) as P0.
  set (e := nextKvSlotEpoch_ s) in *. destruct (fresh_matches m e) as [Ht Hc].
  assert (present ((subscribers (fresh m e)).[w]) = false) as Hp
    by (unfold fresh; cbn [subscribers]; by rewrite lookup_total_replicate_2 by lia).
  pose proof (joined_pre _ _ i m w _ P0 Hw Hm Ht Hc Hp) as P1. set (y := joined m w (fresh m e)) in *.
  rewrite <- (plan_ext i y (fresh m e)) in P1 by done.
  assert (in_range i (bump s)) as Hi' by done.
  destruct (load_step i (bump s) g y Hi' P1) as (o & x & E & S0).
  { done. } { done. } { intros v Hv. apply Z.bits_0. }
  { unfold ready. change (bytes y) with (Msg.bytes m). change (kData y) with (@nil Z).
    change (failed y) with false. cbn [orb length]. intros [Hr%Z.eqb_eq _]%andb_true_iff. lia. }
  exists o, (put i x (bump s)). split.
  { unfold andThen at 1. rewrite start_eq. unfold addAttentionKvSubscriber. unfold andThen at 1.
    rewrite modify_eq, put_at, put_put by done. fold (joined m w (fresh m e)). fold y.
    match goal with |- context [put i ?z (bump s)] => change z with y end.
    rewrite E. done. }
  pose proof (fr_next _ _ _ C) as H1. rewrite (put_at i x (bump s) Hi').
  split_and!; [|by apply (bump_next s); [lia|]|done|done|
    exact (sp_occ _ _ _ _ (si_pre _ _ _ _ (ss_inv _ _ _ _ _ _ S0)))].
  apply bump_step; [|by apply full_free].
  apply (put_step_made i _ g o x y); [|done| | |exact S0|].
  - apply bump_frame; [by apply core_frame|done].
  - intros w' id Hw'. change (slot_at i (bump s)) with (slot_at i s).
    rewrite (free_track s g i w' id C Hi Ho). unfold y. rewrite (joined_track _ _ i m w _ w' id P0) by done.
    by rewrite fresh_track by done.
  - intros _ _. split; [done|]. intros v _ Hv. change (Z.testbit 0 v = true) in Hv. by rewrite Z.bits_0 in Hv.
  - intros F. apply full_free; try done.
Qed.

Lemma valid_start w m :
  request_ok w m -> invalid_request c m w = false ->
  start_ok m /\ Msg.bytes m <> 0 /\ 0 <= w < 4.
Proof.
  intros [R1 R2 [R3 R3'] [R4 R4']]. unfold invalid_request. rewrite !orb_false_iff.
  intros [[[[[[[[_ _] _] _] Hb] _] _] Hi] _]. unfold is_u32 in *.
  assert (0 <= Msg.bytes m < 2 ^ 32) by (rewrite R2; apply u32_range).
  split_and!; [|lia|lia|lia]. constructor; unfold is_u32; lia.
Qed.

(** Enqueueing a request while every slot is taken. *)
Lemma queue_step s g w m :
  core s g -> request_ok w m -> (w, m) ∈ asked g ->
  Z.of_nat (length (pendingKvRequests_ s)) < queueDepth_ c ->
  (forall i, in_range i s -> occupied (slot_at i s) = true) ->
  world_step s g [] (s <| pendingKvRequests_ := pendingKvRequests_ s ++
    [mkPending w (Msg.reqSeq m) (attentionKvRequestFromMessage m)] |>) (once w (Msg.reqSeq m)).
Proof.
  intros C R Hm Hq Hocc. constructor; [| |done|by apply Forall_nil|intros _ _ i Hi; by apply Hocc].
  - rewrite absorb_nil. destruct C. constructor; try done; simpl.
    + rewrite length_app. simpl. lia.
    + apply Forall_app. split; [done|]. repeat constructor. by exists m.
  - intros w' id Hw'. unfold tracked, queued. cbn [pendingKvRequests_ kvSlots_ set_field]. simpl.
    rewrite filter_app, filter_cons, filter_nil, length_app. simpl. unfold answers, once. simpl.
    destruct (w =? w') eqn:E1, (Msg.reqSeq m =? id) eqn:E2;
      (rewrite decide_True by lia; simpl; lia) || (rewrite decide_False by lia; simpl; lia).
Qed.

Lemma request_step s g m w :
  dims_ok c -> core s g -> request_ok w m -> (w, m) ∈ asked g -> nextKvSlotEpoch_ s + 1 < 2 ^ 64 ->
  exists o s', handleAttentionKvRequest c m w s = (o, s') /\
    world_step s g o s' (once w (Msg.reqSeq m)) /\
    nextKvSlotEpoch_ s <= nextKvSlotEpoch_ s' <= nextKvSlotEpoch_ s + 1 /\
    (forall i, in_range i s -> findFreeAttentionKvSlot s < 0 -> occupied (slot_at i s') = true) /\
    (0 <= findAttentionKvSlot m s \/ 0 <= findFreeAttentionKvSlot s ->
       pendingKvRequests_ s' = pendingKvRequests_ s).
Proof.
  intros D C R Hm Hn. pose proof (rq_worker _ _ R) as Hw. unfold handleAttentionKvRequest.
  assert (findFreeAttentionKvSlot s < 0 -> forall i, in_range i s -> occupied (slot_at i s) = true) as Hfree.
  { intros Hneg i Hi. unfold findFreeAttentionKvSlot in Hneg.
    destruct (find_slot (fun slot => negb (occupied slot)) s) as [(j & E & [? _] & _)|[_ H]]; [lia|].
    by apply negb_false_iff, H. }
  destruct (failure_step w m s g C Hw Hm) as (ofl & sf & Ef & Wf & Nf).
  assert (sf = s) as -> by (rewrite send_failure in Ef by done; congruence).
  destruct (invalid_request c m w) eqn:Ei.
  { exists ofl, s. rewrite Ef. split_and!; try done; try lia. intros i Hi Hf. by apply Hfree. }
  destruct (valid_start w m R Ei) as (M & Hb & _).
  destruct (find_slot (same_tile m) s) as [(i & E & Hi & Ht)|[E Hnone]];
    fold (findAttentionKvSlot m s) in E; rewrite E.
  - rewrite (proj2 (Z.leb_le 0 i)) by apply Hi.
    destruct (negb (compatible (slot_at i s) m) || present ((subscribers (slot_at i s)).[w])) eqn:Ec.
    { exists ofl, s. rewrite Ef. split_and!; try done; try lia. intros j Hj Hf. by apply Hfree. }
    apply orb_false_iff in Ec as [Ec%negb_false_iff Hp].
    assert (occupied (slot_at i s) = true) as Ho
      by (unfold same_tile in Ht; rewrite !andb_true_iff in Ht; tauto).
    pose proof (core_slot i s g C Hi Ho) as I. pose proof (si_pre _ _ _ _ I) as P.
    pose proof (joined_pre g _ i m w _ P Hw Hm Ht Ec Hp) as P1. set (y := joined m w (slot_at i s)) in *.
    unfold addAttentionKvSubscriber, andThen. rewrite modify_eq.
    match goal with |- context [put i ?z s] => change z with y end.
    pose proof (put_ranged i y s Hi) as Hi1.
    destruct (deliver_step (put i y s) g i Hi1) as (o & x & Ed & S0); [by rewrite put_at|].
    rewrite Ed, put_put. rewrite put_at in S0 by done. eexists _, _. split; [done|].
    pose proof (sp_occ _ _ _ _ (si_pre _ _ _ _ (ss_inv _ _ _ _ _ _ S0))) as Hx. split_and!; try done.
    + apply (put_step_made i s g o x y); [by apply core_frame|done| |done|done|by apply full_put].
      intros w' id Hw'. by apply (joined_track g _ i m w _ w' id P).
    + simpl. lia.
    + intros j Hj Hf. destruct (decide (j = i)) as [->|Hne]; [by rewrite put_at|].
      rewrite put_ne by done. by apply Hfree.
  - change (0 <=? -1) with false. cbv iota.
    destruct (find_slot (fun slot => negb (occupied slot)) s) as [(i & E' & Hi & Ho)|[E' Hocc]];
      fold (findFreeAttentionKvSlot s) in E'; rewrite E'.
    + rewrite (proj2 (Z.ltb_ge i 0)) by apply Hi. apply negb_true_iff in Ho.
      destruct (new_slot_step i s g m w C Hi Ho M Hb Hw Hm Hn) as (o & s' & -> & W & N & Pq & _).
      exists o, s'. split_and!; try done; try lia. intros j Hj Hf. destruct Hi. lia.
    + change (-1 <? 0) with true. cbv iota.
      destruct (queueDepth_ c <=? Z.of_nat (length (pendingKvRequests_ s))) eqn:Eq.
      { exists ofl, s. rewrite Ef. split_and!; try done; try lia. intros j Hj _. by apply negb_false_iff, Hocc. }
      eexists _, _. split; [done|]. split_and!; try (simpl; lia).
      * apply queue_step; try done; [lia|]. intros j Hj. by apply negb_false_iff, Hocc.
      * intros j Hj _. by apply negb_false_iff, Hocc.
Qed.

(** *** The queue *)

(** A queued request is replayed as the message that was queued. *)
Lemma replay w m s :
  request_ok w m ->
  let p := mkPending w (Msg.reqSeq m) (attentionKvRequestFromMessage m) in
  handleAttentionKvRequest c (pending_msg p) w s = handleAttentionKvRequest c m w s /\
  findAttentionKvSlot (pending_msg p) s = findAttentionKvSlot m s.
Proof.
  intros [_ Hb _ _]. split; [|reflexivity]. destruct m. simpl in Hb. subst. reflexivity.
Qed.

Definition pop (rest : list PendingKvRequest) (s : t) : t := s <| pendingKvRequests_ := rest |>.

Lemma pop_core s g p rest : core s g -> pendingKvRequests_ s = p :: rest -> core (pop rest s) g.
Proof.
  intros [] E. rewrite E in fr_queue0, fr_pending0. inversion fr_pending0; subst.
  constructor; try done. simpl in *. lia.
Qed.

Lemma pop_tracked s p rest w id :
  pendingKvRequests_ s = p :: rest ->
  tracked s w id = tracked (pop rest s) w id + once (pend_workerSlot p) (pend_requestId p) w id.
Proof.
  intros E. unfold tracked, queued, pop, once. cbn [pendingKvRequests_ kvSlots_ set_field]. simpl.
  rewrite E, filter_cons.
  destruct (pend_workerSlot p =? w) eqn:E1, (pend_requestId p =? id) eqn:E2;
    (rewrite decide_True by lia; simpl length; simpl Z.b2z; lia) ||
    (rewrite decide_False by lia; simpl Z.b2z; lia).
Qed.

Lemma process_step fuel : dims_ok c -> forall s g,
  core s g -> (length (pendingKvRequests_ s) <= fuel)%nat ->
  nextKvSlotEpoch_ s + Z.of_nat fuel + 1 < 2 ^ 64 ->
  exists o s', process_pending c fuel s = (o, s') /\ world_step s g o s' none /\ full s' /\
    nextKvSlotEpoch_ s <= nextKvSlotEpoch_ s' <= nextKvSlotEpoch_ s + Z.of_nat fuel.
Proof.
  intros D. induction fuel as [|fuel IH]; intros s g C Hf Hn; cbn [process_pending].
  - exists [], s. split; [done|]. split; [by apply skip_step|]. split; [|lia].
    intros Hp. destruct (pendingKvRequests_ s); [done|simpl in Hf; lia].
  - destruct (pendingKvRequests_ s) as [|p rest] eqn:Ep.
    { exists [], s. split; [done|]. split; [by apply skip_step|]. split; [|lia]. intros Hp. by rewrite Ep in Hp. }
    pose proof (fr_pending _ _ _ C) as Hq. rewrite Ep in Hq. inversion Hq as [|? ? (m & Hm & R & E) _]; subst.
    set (w := pend_workerSlot p) in *. pose proof (f_equal pend_requestId E) as Er. rewrite E. cbn [pend_workerSlot]. clear E.
    destruct (replay w m (pop rest s) R) as [E1 E2]. destruct (replay w m s R) as [_ E3].
    rewrite E3. destruct ((findAttentionKvSlot m s <? 0) && (findFreeAttentionKvSlot s <? 0)) eqn:Estop.
    { exists [], s. split; [done|]. split; [by apply skip_step|]. split; [|lia]. intros _ i Hi.
      apply andb_true_iff in Estop as [_ Ef]. unfold findFreeAttentionKvSlot in Ef.
      destruct (find_slot (fun slot => negb (occupied slot)) s) as [(j & Ej & [? _] & _)|[_ H]]; [lia|].
      by apply negb_false_iff, H. }
    pose proof (pop_core s g p rest C Ep) as C1. fold (pop rest s). unfold andThen. rewrite E1.
    destruct (request_step (pop rest s) g m w D C1 R Hm) as (o & s1 & -> & W & N & _ & Hpend);
      [change (nextKvSlotEpoch_ (pop rest s)) with (nextKvSlotEpoch_ s); lia|].
    change (nextKvSlotEpoch_ (pop rest s)) with (nextKvSlotEpoch_ s) in N.
    assert (pendingKvRequests_ s1 = rest) as Hr.
    { apply Hpend. change (findAttentionKvSlot m (pop rest s)) with (findAttentionKvSlot m s).
      change (findFreeAttentionKvSlot (pop rest s)) with (findFreeAttentionKvSlot s).
      apply andb_false_iff in Estop as [?|?]; [left|right]; lia. }
    destruct (IH s1 (absorb o g) (ws_core _ _ _ _ _ W)) as (o' & s' & -> & W' & F' & N');
      [rewrite Hr; simpl in Hf; lia|lia|].
    eexists _, _. split; [done|]. split; [|split; [done|lia]].
    pose proof (chain _ _ _ _ _ _ _ _ W W') as [H1 H2 H3 H4 H5]. constructor; try done.
    intros v id Hv. rewrite (H2 v id Hv). rewrite (pop_tracked s p rest v id Ep). unfold none.
    rewrite Er. fold w. cbn [pend_requestId]. lia.
Qed.

(** *** Lookahead *)

Lemma lookahead_step released s g n i0 g0 :
  slot_pre g0 n i0 released -> core s g -> nextKvSlotEpoch_ s + 1 < 2 ^ 64 ->
  exists o s', maybeStartAttentionKvLookahead c released s = (o, s') /\ world_step s g o s' none /\
    nextKvSlotEpoch_ s <= nextKvSlotEpoch_ s' <= nextKvSlotEpoch_ s + 1.
Proof.
  intros P0 C Hn. unfold maybeStartAttentionKvLookahead.
  assert (exists o s', skip s = (o, s') /\ world_step s g o s' none /\
    nextKvSlotEpoch_ s <= nextKvSlotEpoch_ s' <= nextKvSlotEpoch_ s + 1) as Hskip.
  { exists [], s. split; [done|]. split; [by apply skip_step|lia]. }
  destruct (_ || _) eqn:Eg; [exact Hskip|].
  apply orb_false_iff in Eg as [_ Ep%negb_false_iff%bool_decide_eq_true].
  destruct (find_slot (fun slot => negb (occupied slot)) s) as [(i & E' & Hi & Ho)|[E' _]];
    fold (findFreeAttentionKvSlot s) in E'; rewrite E'; [|exact Hskip].
  rewrite (proj2 (Z.ltb_ge i 0)) by apply Hi. apply negb_true_iff in Ho. cbv zeta.
  set (ord := farthestOrdinal released (kvSlots_ s) ⊞₃₂ 1).
  destruct (numKvTiles released <=? ord) eqn:Eord; [exact Hskip|].
  set (tile := _ mod numKvTiles released). set (first := u64 (tile * kvTileRows released)).
  destruct (kvLength released <=? first) eqn:El; [exact Hskip|].
  set (rows := Z.min (kvTileRows released) (kvLength released - first)).
  set (m := lookahead_msg released ord tile rows).
  pose proof (sp_dims _ _ _ _ P0) as (_ & Ht & Hr & _).
  assert (start_ok m) as M.
  { pose proof (u32_range (farthestOrdinal released (kvSlots_ s) + 1)) as Hord. fold ord in Hord.
    unfold is_u32 in *. constructor; unfold m, lookahead_msg; simpl; unfold is_u32; try lia.
    apply u32_range. }
  pose proof (fresh_pre g s i m C M Hn) as P1.
  set (y := (fresh m (nextKvSlotEpoch_ s)) <| speculative := true |>).
  assert (slot_pre (noting (plan_effects i y) g) (nextKvSlotEpoch_ (bump s)) i y) as P2.
  { rewrite (plan_ext i y (fresh m (nextKvSlotEpoch_ s))) by done. by destruct P1. }
  assert (in_range i (bump s)) as Hi' by done.
  assert (forall w, 0 <= w < 4 -> waiting y w = false) as Hnw.
  { intros w Hw. unfold waiting. change (subscribers y) with (replicate 4 no_subscriber).
    by rewrite lookup_total_replicate_2 by lia. }
  destruct (load_step i (bump s) g y Hi' P2) as (o & x & E & S0);
    [done|done|intros w _; apply Z.bits_0|by intros _|].
  exists o, (put i x (bump s)). split.
  { unfold andThen at 1. rewrite start_eq. unfold andThen at 1. rewrite modify_eq, put_at, put_put by done.
    fold y. rewrite E. done. }
  pose proof (fr_next _ _ _ C). split; [|change (nextKvSlotEpoch_ (put i x (bump s))) with
    (nextKvSlotEpoch_ (bump s)); rewrite bump_next by lia; lia].
  assert (full s -> full (put i x (bump s))) as Hfull by (intros _ Hp; by rewrite Ep in Hp || destruct (Hp Ep)).
  apply bump_step; [|done]. apply (put_step_made i _ g o x y); [|done| | |exact S0|done].
  - apply bump_frame; [by apply core_frame|done].
  - intros w id Hw. change (slot_at i (bump s)) with (slot_at i s).
    rewrite (free_track s g i w id C Hi Ho). unfold track. by rewrite Hnw, andb_false_r by done.
  - intros _ _. split; [done|]. intros v _ Hv. change (Z.testbit 0 v = true) in Hv. by rewrite Z.bits_0 in Hv.
Qed.


(** *** Release *)

Definition lost (i : Z) (s : t) (w id : Z) : Z :=
  if occupied (slot_at i s) && all_done c (slot_at i s) then - track (slot_at i s) w id else 0.

Lemma track_nonneg slot w id : 0 <= track slot w id.
Proof. unfold track. destruct (_ && _); simpl; lia. Qed.

Lemma lost_nonpos i s w id : lost i s w id <= 0.
Proof. unfold lost. pose proof (track_nonneg (slot_at i s) w id). destruct (_ && _); lia. Qed.

Lemma release_step i allow s g :
  dims_ok c -> core s g -> in_range i s -> nextKvSlotEpoch_ s + queueDepth_ c + 2 < 2 ^ 64 ->
  exists o s', maybeReleaseAttentionKvSlot c i allow s = (o, s') /\ world_step s g o s' (lost i s) /\
    nextKvSlotEpoch_ s <= nextKvSlotEpoch_ s' <= nextKvSlotEpoch_ s + queueDepth_ c + 1.
Proof.
  intros D C Hi Hn. pose proof D as (_ & [HQ _] & _). unfold maybeReleaseAttentionKvSlot, lost.
  rewrite in_range_count by done. cbn [orb]. destruct (occupied (slot_at i s)) eqn:Ho; cbn [negb].
  2:{ exists [], s. split; [done|]. split; [by apply skip_step|lia]. }
  destruct (all_done c (slot_at i s)) eqn:Ed; cbn [negb andb].
  2:{ exists [], s. split; [done|]. split; [by apply skip_step|lia]. }
  pose proof (core_slot i s g C Hi Ho) as I. set (released := slot_at i s) in *.
  assert (core (put i no_slot s) g) as C1 by (by apply frame_put; [apply core_frame|..]).
  unfold andThen at 1. rewrite modify_eq. set (s1 := put i no_slot s) in *.
  pose proof (fr_queue _ _ _ C) as Hq. unfold processPendingAttentionKvRequests.
  destruct (process_step (length (pendingKvRequests_ s1)) D s1 g C1) as (o & s2 & E2 & W2 & F2 & N2);
    [lia|change (nextKvSlotEpoch_ s1) with (nextKvSlotEpoch_ s);
     change (pendingKvRequests_ s1) with (pendingKvRequests_ s); lia|].
  change (nextKvSlotEpoch_ s1) with (nextKvSlotEpoch_ s) in N2.
  change (pendingKvRequests_ s1) with (pendingKvRequests_ s) in N2.
  assert (exists o' s3, (if allow then maybeStartAttentionKvLookahead c released else skip) s2 = (o', s3) /\
    world_step s2 (absorb o g) o' s3 none /\
    nextKvSlotEpoch_ s2 <= nextKvSlotEpoch_ s3 <= nextKvSlotEpoch_ s2 + 1) as (o' & s3 & E3 & W3 & N3).
  { destruct allow.
    - apply (lookahead_step released s2 (absorb o g) _ i g (si_pre _ _ _ _ I) (ws_core _ _ _ _ _ W2)). lia.
    - exists [], s2. split; [done|]. split; [apply skip_step, W2|lia]. }
  unfold andThen. cbv beta. rewrite E2, E3. eexists _, _. split; [done|]. split; [|lia].
  pose proof (chain _ _ _ _ _ _ _ _ W2 W3) as [H1 H2 H3 H4 H5]. constructor; try done.
  - intros w id Hw. rewrite app_nil_l. rewrite (H2 w id Hw). unfold s1. rewrite tracked_put by done.
    fold released. change (track no_slot w id) with 0. unfold none. lia.
  - intros Hc. apply H3. apply clean_put; [done| |done]. intros _. split; [done|].
    intros w _ Hw. change (Z.testbit 0 w = true) in Hw. by rewrite Z.bits_0 in Hw.
  - intros _. by apply (ws_full _ _ _ _ _ W3).
Qed.

(** *** Acknowledgement and cancellation *)

(** Marking a worker done in a slot. *)
Definition marks (slot x : KvSlot) : Prop :=
  exists k d, x = slot <| completedMask := k |> <| cancelledMask := d |>.

Lemma marks_step i s g x :
  core s g -> in_range i s -> occupied (slot_at i s) = true -> marks (slot_at i s) x ->
  (clean_slot (slot_at i s) -> clean_slot x) -> world_step s g [] (put i x s) none.
Proof.
  intros C Hi Ho (k & d & ->) Cl. apply (put_step_made i s g [] _ (slot_at i s)); try done.
  - by apply core_frame.
  - intros w id _. unfold none. lia.
  - destruct (core_slot i s g C Hi Ho) as [P A R]. constructor; [|done|done|constructor|by apply sends_local].
    rewrite absorb_nil. constructor; [|done|done]. by destruct P.
  - by apply full_put.
Qed.

Lemma done_delivered slot g n i :
  dims_ok c -> slot_inv g n i slot -> lossless = true -> clean_slot slot -> all_done c slot = true ->
  forall w, 0 <= w < 4 -> waiting slot w = false.
Proof.
  intros D [P A _] Hll Cl Hd w Hw. destruct (Cl Hll) as [Hc Hcd]. unfold all_done in Hd.
  apply andb_true_iff in Hd as [_ Hd%Z.eqb_eq]. pose proof D as (_ & _ & _ & He & _).
  apply (land_expected c _ 0) in Hd; [|done|lia]. rewrite Hc, Z.lor_0_r in Hd.
  apply (A 0 w); [lia|done|]. apply Hcd; [lia|done].
Qed.

(** A worker acknowledges only what was delivered to it. *)
Definition ack_ok (m : Msg.t) (w : Z) (s : t) : Prop :=
  0 <= w < 4 /\ forall i, in_range i s -> acks m w (slot_at i s) = true ->
    Z.testbit (deliveredMask (slot_at i s)) w = true.

Lemma ack_step m w s g :
  dims_ok c -> core s g -> clean s -> ack_ok m w s -> nextKvSlotEpoch_ s + queueDepth_ c + 2 < 2 ^ 64 ->
  exists o s' made, handleAttentionKvAck c m w s = (o, s') /\ world_step s g o s' made /\
    (forall v id, made v id <= 0) /\
    (lossless = true -> forall v id, 0 <= v < 4 -> made v id = 0).
Proof.
  intros D C Cl [Hw Hack] Hn. unfold handleAttentionKvAck.
  assert (exists o s' made, skip s = (o, s') /\ world_step s g o s' made /\
    (forall v id, made v id <= 0) /\ (lossless = true -> forall v id, 0 <= v < 4 -> made v id = 0)) as Hskip.
  { exists [], s, none. split; [done|]. split; [by apply skip_step|]. done. }
  destruct (_ || _); [exact Hskip|].
  destruct (find_slot (acks m w) s) as [(i & E & Hi & Ha)|[E _]]; rewrite E; [|exact Hskip].
  rewrite (proj2 (Z.ltb_ge i 0)) by apply Hi.
  assert (occupied (slot_at i s) = true) as Ho by (unfold acks in Ha; rewrite !andb_true_iff in Ha; tauto).
  unfold andThen. rewrite modify_eq.
  set (x := (slot_at i s) <| completedMask := Z.lor (completedMask (slot_at i s)) (bit w) |>).
  assert (clean_slot x) as Clx.
  { intros Hll. destruct (Cl i Hi Hll) as [H1 H2]. split; [done|]. intros v Hv Ht.
    change (Z.testbit (Z.lor (completedMask (slot_at i s)) (bit w)) v = true) in Ht.
    rewrite lor_bit in Ht by lia. apply orb_true_iff in Ht as [Ht|Ht%Z.eqb_eq]; [by apply H2|].
    subst v. by apply Hack. }
  pose proof (marks_step i s g x C Hi Ho) as W1. specialize (W1 ltac:(eexists _, _; reflexivity) (fun _ => Clx)).
  pose proof (ws_core _ _ _ _ _ W1) as C1. rewrite absorb_nil in C1.
  destruct (release_step i true (put i x s) g D C1 (put_ranged i x s Hi) Hn) as (o & s' & -> & W2 & _).
  eexists _, _, _. split; [done|]. rewrite <- (absorb_nil g) in W2. split; [by eapply chain|].
  unfold none. split.
  - intros v id. pose proof (lost_nonpos i (put i x s) v id). lia.
  - intros Hll v id Hv. unfold lost. rewrite put_at by done.
    destruct (occupied x && all_done c x) eqn:Ed; [|done].
    apply andb_true_iff in Ed as [Eo Ed].
    pose proof (core_slot i _ g C1 (put_ranged i x s Hi)) as I. rewrite put_at in I by done.
    unfold track. rewrite (done_delivered x g _ i D (I Eo) Hll Clx Ed v Hv), andb_false_r. done.
Qed.

Lemma in_range_core i s g : core s g -> 0 <= i < attentionKvDistributionSlots_ c -> in_range i s.
Proof. intros C Hi. unfold in_range. rewrite (fr_len _ _ _ C). lia. Qed.

Lemma cancel_slot_step m w i s g :
  dims_ok c -> lossless = false -> core s g -> in_range i s ->
  nextKvSlotEpoch_ s + queueDepth_ c + 2 < 2 ^ 64 ->
  exists o s' made, cancel_slot c m w i s = (o, s') /\ world_step s g o s' made /\
    (forall v id, made v id <= 0) /\
    nextKvSlotEpoch_ s <= nextKvSlotEpoch_ s' <= nextKvSlotEpoch_ s + queueDepth_ c + 1.
Proof.
  intros D Hll C Hi Hn. pose proof D as (_ & [HQ _] & _). unfold cancel_slot.
  destruct (occupied (slot_at i s)) eqn:Ho; cbn [negb orb].
  2:{ exists [], s, none. split; [done|]. split; [by apply skip_step|]. unfold none. split; [done|lia]. }
  destruct (generation (slot_at i s) =? Msg.generation m); cbn [negb].
  2:{ exists [], s, none. split; [done|]. split; [by apply skip_step|]. unfold none. split; [done|lia]. }
  unfold andThen. rewrite modify_eq.
  match goal with |- context [put i ?z s] => set (x := z) end.
  assert (marks (slot_at i s) x) as Mk by (unfold x; cbv beta; destruct (_ && _); eexists _, _; reflexivity).
  assert (clean_slot x) as Clx by (intros Ht; congruence).
  pose proof (marks_step i s g x C Hi Ho Mk (fun _ => Clx)) as W1.
  pose proof (ws_core _ _ _ _ _ W1) as C1. rewrite absorb_nil in C1.
  destruct (release_step i false (put i x s) g D C1 (put_ranged i x s Hi) Hn) as (o & s' & -> & W2 & N2).
  eexists _, _, _. split; [done|]. rewrite <- (absorb_nil g) in W2. split; [by eapply chain|].
  split; [|exact N2]. intros v id. pose proof (lost_nonpos i (put i x s) v id). unfold none. lia.
Qed.

Lemma cancel_slots_step m w l :
  dims_ok c -> lossless = false -> forall s g, core s g ->
  Forall (fun i => Z.of_nat i < attentionKvDistributionSlots_ c) l ->
  nextKvSlotEpoch_ s + Z.of_nat (length l) * (queueDepth_ c + 1) + queueDepth_ c + 2 < 2 ^ 64 ->
  exists o s' made, foldr (fun i k => cancel_slot c m w (Z.of_nat i) ⨟ k) skip l s = (o, s') /\
    world_step s g o s' made /\ forall v id, made v id <= 0.
Proof.
  intros D Hll. pose proof D as (_ & [HQ _] & _). induction l as [|i l IH]; intros s g C Hf Hn.
  { exists [], s, none. split; [done|]. by split; [apply skip_step|]. }
  inversion Hf as [|? ? H1 H2]; subst. cbn [foldr length] in *. unfold andThen at 1.
  destruct (cancel_slot_step m w (Z.of_nat i) s g D Hll C) as (o & s1 & m1 & -> & W1 & M1 & N1);
    [by apply (in_range_core _ s g); [|lia]|lia|].
  destruct (IH s1 (absorb o g) (ws_core _ _ _ _ _ W1) H2) as (o' & s2 & m2 & -> & W2 & M2); [lia|].
  eexists _, _, _. split; [done|]. split; [by eapply chain|]. intros v id. specialize (M1 v id).
  specialize (M2 v id). lia.
Qed.

Definition epoch_room (s : t) : Prop :=
  nextKvSlotEpoch_ s + (attentionKvDistributionSlots_ c + 1) * (queueDepth_ c + 2) < 2 ^ 64.

Lemma queued_filter (P : PendingKvRequest -> Prop) `{!forall p, Decision (P p)} w id ps :
  queued w id (filter P ps) <= queued w id ps.
Proof.
  unfold queued. induction ps as [|p ps IH]; [done|]. rewrite filter_cons.
  destruct (decide (P p)); rewrite !filter_cons; repeat case_decide; simpl length; lia.
Qed.

Lemma cancel_step m w s g :
  dims_ok c -> lossless = false -> core s g -> epoch_room s ->
  exists o s' made, handleAttentionKvCancel c m w s = (o, s') /\ world_step s g o s' made /\
    forall v id, made v id <= 0.
Proof.
  intros D Hll C Hn. unfold handleAttentionKvCancel. pose proof D as ([HS _] & [HQ _] & _).
  destruct (_ || _); [exists [], s, none; split; [done|]; by split; [apply skip_step|]|].
  unfold andThen at 1.
  destruct (cancel_slots_step m w (seq 0 (length (kvSlots_ s))) D Hll s g C) as (o & s1 & m1 & -> & W1 & M1).
  { apply Forall_forall. intros i Hi%elem_of_seq. rewrite (fr_len _ _ _ C) in Hi. lia. }
  { rewrite length_seq, (fr_len _ _ _ C). unfold epoch_room in Hn. lia. }
  set (keep := filter _ (pendingKvRequests_ s1)). pose proof (ws_core _ _ _ _ _ W1) as C1.
  exists o, (pop keep s1), (fun v id => m1 v id + (queued v id keep - queued v id (pendingKvRequests_ s1))).
  split; [by rewrite app_nil_r|]. split.
  - rewrite <- (app_nil_r o). apply (chain s g o s1 [] (pop keep s1)); [done|]. constructor.
    + rewrite absorb_nil. destruct C1. constructor; try done; simpl.
      * pose proof (length_filter (fun p => of_worker m w p = false) (pendingKvRequests_ s1)).
        unfold keep. lia.
      * apply Forall_forall. intros p [_ Hp]%list_elem_of_filter. by apply (proj1 (Forall_forall _ _) fr_pending0).
    + intros v id _. unfold tracked, pop, answers. simpl. lia.
    + done.
    + constructor.
    + intros F Hp. apply F. intros E. apply Hp. unfold pop, keep. simpl. by rewrite E.
  - intros v id. specialize (M1 v id).
    pose proof (queued_filter (fun p => of_worker m w p = false) v id (pendingKvRequests_ s1)). fold keep in H. lia.
Qed.

(** ** Histories *)

Definition ask (w : Z) (m : Msg.t) (g : ghost) : ghost :=
  mkGhost (asked g ++ [(w, m)]) (told g) (reads g) (loads g) (issued g).

(** Everything that can happen, in any order: requests, transfers and reads
    that end well or badly, ticks, acknowledgements of deliveries and, unless
    [lossless], cancellations. *)
Inductive history : t -> ghost -> Prop :=
| history_init : history (init c) (mkGhost [] [] [] [] [])
| history_request s g m w o s' :
    history s g -> request_ok w m -> epoch_room s -> handleAttentionKvRequest c m w s = (o, s') ->
    history s' (absorb o (ask w m g))
| history_load s g l1 l l2 ok o s' :
    history s g -> loads g = l1 ++ l :: l2 ->
    completeAttentionKvDma c accepts (ld_slot l) (ld_epoch l) (ld_value l) ok s = (o, s') ->
    history s' (absorb o (without_load g l1 l2))
| history_read s g r1 r r2 ok o s' :
    history s g -> reads g = r1 ++ r :: r2 ->
    completeLocalRead c accepts (rd_slot r) (rd_epoch r) (rd_tag r) ok (rd_tag r) (read_result ok r) s
      = (o, s') ->
    history s' (absorb o (without_read g r1 r2))
| history_tick s g o s' : history s g -> tick c accepts s = (o, s') -> history s' (absorb o g)
| history_ack s g m w o s' :
    history s g -> ack_ok m w s -> epoch_room s -> handleAttentionKvAck c m w s = (o, s') ->
    history s' (absorb o g)
| history_cancel s g m w o s' :
    history s g -> lossless = false -> epoch_room s -> handleAttentionKvCancel c m w s = (o, s') ->
    history s' (absorb o g).

(** Messages of a log about one request. *)
Definition count (w id : Z) (log : list (Z * Msg.t)) : Z :=
  Z.of_nat (length (filter (fun a => fst a = w /\ Msg.reqSeq (snd a) = id) log)).

Lemma count_app w id a b : count w id (a ++ b) = count w id a + count w id b.
Proof. unfold count. rewrite filter_app, length_app. lia. Qed.

Record sound (s : t) (g : ghost) : Prop := {
  sd_core : core s g;
  sd_clean : clean s;
  sd_full : full s;
  sd_good : Forall (good g) (told g);
  sd_once : forall w id, 0 <= w < 4 -> count w id (told g) + tracked s w id <= count w id (asked g);
  sd_all : lossless = true -> forall w id, 0 <= w < 4 ->
             count w id (told g) + tracked s w id = count w id (asked g)
}.

Lemma sound_step s g g' o s' made :
  sound s g -> world_step s g' o s' made -> extends g g' -> told g' = told g ->
  (forall w id, 0 <= w < 4 -> made w id + count w id (asked g) <= count w id (asked g')) ->
  (lossless = true -> forall w id, 0 <= w < 4 -> made w id + count w id (asked g) = count w id (asked g')) ->
  sound s' (absorb o g').
Proof.
  intros [C Cl F G O A] [C' B' Cl' G' F'] Hsub Ht H1 H2. constructor; [done|auto|auto| | |].
  - change (told (absorb o g')) with (told g' ++ sends_of o). rewrite Ht. apply Forall_app. split.
    + apply (Forall_impl _ _ _ G). intros a Ha. apply (good_mono g'); [apply extends_absorb|].
      by apply (good_mono g).
    + exact G'.
  - intros w id Hw. unfold absorb. simpl. rewrite Ht, count_app. specialize (B' w id Hw).
    specialize (H1 w id Hw). specialize (O w id Hw). unfold answers in B'. fold (count w id (sends_of o)) in B'. lia.
  - intros Hll w id Hw. unfold absorb. simpl. rewrite Ht, count_app. specialize (B' w id Hw).
    specialize (H2 Hll w id Hw). specialize (A Hll w id Hw). unfold answers in B'.
    fold (count w id (sends_of o)) in B'. lia.
Qed.

Lemma init_at i : dims_ok c -> in_range i (init c) -> slot_at i (init c) = no_slot.
Proof.
  intros D [_ Hi]. unfold slot_at, init in *. simpl in *. rewrite length_replicate in Hi.
  by rewrite lookup_total_replicate_2.
Qed.

Lemma init_sound : dims_ok c -> sound (init c) (mkGhost [] [] [] [] []).
Proof.
  intros D. pose proof D as (_ & [HQ _] & _).
  assert (forall w id, staged w id (kvSlots_ (init c)) = 0) as Hst.
  { intros w id. unfold init. simpl. induction (Z.to_nat _) as [|n IH]; [done|].
    cbn [replicate]. change (track no_slot w id + staged w id (replicate n no_slot) = 0). rewrite IH. done. }
  constructor.
  - constructor; try done.
    + unfold init. simpl. by rewrite length_replicate.
    + intros i Hi _ _. by apply init_at.
    + intros i Hi _ Ho. by rewrite init_at in Ho.
  - intros i Hi _. rewrite init_at by done. split; [done|]. intros w _ Hw.
    change (Z.testbit 0 w = true) in Hw. by rewrite Z.bits_0 in Hw.
  - intros Hp. done.
  - constructor.
  - intros w id _. unfold tracked. rewrite Hst. simpl. done.
  - intros _ w id _. unfold tracked. rewrite Hst. done.
Qed.

Lemma ask_extends w m g : extends g (ask w m g).
Proof. split; [|done]. unfold ask. simpl. intros x Hx. apply elem_of_app. by left. Qed.

Lemma ask_core w m s g : core s g -> core s (ask w m g).
Proof.
  intros C. apply (frame_ghost (-1) s g); try done; [|apply C|apply C]. apply ask_extends.
Qed.

Lemma history_sound s g : dims_ok c -> history s g -> sound s g.
Proof.
  intros D. pose proof D as ([HS _] & [HQ _] & _).
  assert (forall s, epoch_room s -> nextKvSlotEpoch_ s + queueDepth_ c + 2 < 2 ^ 64) as Hroom.
  { intros s0. unfold epoch_room. nia. }
  induction 1 as [|s g m w o s' _ IH R Hn E|s g l1 l l2 ok o s' _ IH El E|s g r1 r r2 ok o s' _ IH Er E
    |s g o s' _ IH E|s g m w o s' _ IH Ha Hn E|s g m w o s' _ IH Hl Hn E]; [by apply init_sound|..].
  - pose proof (ask_core w m s g (sd_core _ _ IH)) as C.
    destruct (request_step s (ask w m g) m w D C R) as (o1 & s1 & E1 & W & _);
      [unfold ask; simpl; apply elem_of_app; right; by left|specialize (Hroom s Hn); lia|]. rewrite E1 in E. injection E as <- <-.
    apply (sound_step s g _ _ _ _ IH W); [apply ask_extends|done| |].
    + intros v id Hv. unfold ask. simpl. rewrite count_app. unfold count at 3. rewrite <- answers_send.
      unfold answers. simpl. lia.
    + intros _ v id Hv. unfold ask. simpl. rewrite count_app. unfold count at 3. rewrite <- answers_send.
      unfold answers. simpl. lia.
  - destruct (load_done s g l1 l l2 ok (sd_core _ _ IH) El) as (o1 & s1 & E1 & W).
    rewrite E1 in E. injection E as <- <-. apply (sound_step s g _ _ _ _ IH W); [by apply extends_refl|done..].
  - destruct (read_done s g r1 r r2 ok D (sd_core _ _ IH) Er) as (o1 & s1 & E1 & W).
    rewrite E1 in E. injection E as <- <-. apply (sound_step s g _ _ _ _ IH W); [by apply extends_refl|done..].
  - destruct (tick_world s g (sd_core _ _ IH)) as (o1 & s1 & E1 & W).
    rewrite E1 in E. injection E as <- <-. apply (sound_step s g _ _ _ _ IH W); [by apply extends_refl|done..].
  - destruct (ack_step m w s g D (sd_core _ _ IH) (sd_clean _ _ IH) Ha (Hroom s Hn))
      as (o1 & s1 & made & E1 & W & M1 & M2). rewrite E1 in E. injection E as <- <-.
    apply (sound_step s g _ _ _ _ IH W); [by apply extends_refl|done| |].
    + intros v id _. specialize (M1 v id). lia.
    + intros Hll v id Hv. rewrite M2 by done. lia.
  - destruct (cancel_step m w s g D Hl (sd_core _ _ IH) Hn) as (o1 & s1 & made & E1 & W & M1).
    rewrite E1 in E. injection E as <- <-. apply (sound_step s g _ _ _ _ IH W); [by apply extends_refl|done| |congruence].
    intros v id _. specialize (M1 v id). lia.
Qed.

(** ** What the histories guarantee *)

(** C19. No K/V request is lost or answered twice: in every history without
    cancellations, the requests of a worker with a given id are exactly the
    answers it got plus those still queued or staged; with cancellations the
    answers and the outstanding requests together are never more than were
    made, so a request id used once is answered at most once. *)
Theorem kv_requests_conserved s g w id :
  dims_ok c -> history s g -> 0 <= w < 4 ->
  count w id (told g) + tracked s w id <= count w id (asked g) /\
  (lossless = true -> count w id (told g) + tracked s w id = count w id (asked g)).
Proof. intros D H Hw. destruct (history_sound s g D H) as [_ _ _ _ O A]. auto. Qed.

Lemma plan_of_request m slot e :
  same_tile m slot = true -> compatible slot m = true -> same_plan (fresh m e) slot.
Proof.
  unfold same_tile, compatible. rewrite !andb_true_iff, !Z.eqb_eq. intros [[[[_ _] _] _] H0] H.
  destruct H as [[[[[[[[[_ H1] _] _] H2] H3] H4] H5] H6] H7]. unfold same_plan, fresh. simpl.
  split_and!; done.
Qed.


Lemma issue_reads s i addr n tag e :
  reads_of (fst (localReadAsync (fun _ => true) addr n tag i e s)) = [mkRead addr n tag i e].
Proof. done. Qed.

Lemma waiting_pump s g i w :
  core s g -> in_range i s -> 0 <= w < 4 -> occupied (slot_at i s) = true ->
  waiting (slot_at i s) w = true -> blocked (slot_at i s) = false ->
  reads_of (fst (pumpAttentionKvManagerRead c (fun _ => true) i s)) <> [].
Proof.
  intros C Hi Hw Ho Hwt B. destruct (core_slot i s g C Hi Ho) as [P _ R].
  destruct (unblocked _ B) as (Hf & Hri & Hid). set (slot := slot_at i s) in *.
  assert (ready slot = false) as Hnr by (apply not_true_iff_false; intros Hr; by rewrite (R Hr Hid w Hw) in Hwt).
  pose proof (sp_klen _ _ _ _ P) as Hk. pose proof (sp_vlen _ _ _ _ P) as Hv.
  unfold ready in Hnr. rewrite Hf in Hnr. cbn [orb] in Hnr.
  unfold pumpAttentionKvManagerRead. cbn [pump]. rewrite in_range_count by done. fold slot.
  rewrite Ho. cbn [negb orb]. fold (blocked slot). rewrite B.
  destruct (readOffset slot =? bytes slot) eqn:Eo; [|by rewrite issue_reads].
  apply Z.eqb_eq in Eo. destruct (readingV slot) eqn:Ev; cbn [negb].
  { apply andb_false_iff in Hnr as [?|?]; lia. }
  unfold andThen at 1, modify_slot. fold slot. fold (turn slot).
  change (s <| kvSlots_ := (kvSlots_ s).[i := turn slot] |>) with (put i (turn slot) s).
  rewrite in_range_count by (by apply put_range). rewrite put_at by done.
  change (occupied (turn slot)) with (occupied slot). rewrite Ho. cbn [negb orb].
  fold (blocked (turn slot)). change (blocked (turn slot)) with (blocked slot). rewrite B.
  change (readOffset (turn slot)) with 0. change (bytes (turn slot)) with (bytes slot).
  destruct (0 =? bytes slot) eqn:E0; [apply andb_false_iff in Hnr as [?|?]; lia|].
  match goal with |- context [localReadAsync ?f ?a ?n ?tg ?j ?e ?st] =>
    pose proof (issue_reads st j a n tg e) as Hl; destruct (localReadAsync f a n tg j e st) end.
  simpl in *. by rewrite Hl.
Qed.

(** C28. The distribution never stalls: whenever a subscriber of a slot waits, a
    DMA transfer or a local read for that staging is still in progress, or the
    next pump of the slot issues a read as soon as the memory accepts one; and
    requests are queued only while every slot is occupied. *)
Theorem kv_no_stall s g i w :
  dims_ok c -> history s g -> in_range i s -> 0 <= w < 4 ->
  occupied (slot_at i s) = true -> waiting (slot_at i s) w = true ->
  ((exists v, slot_loads i (epoch (slot_at i s)) v g <> []) \/
   slot_reads i (epoch (slot_at i s)) g <> [] \/
   reads_of (fst (pumpAttentionKvManagerRead c (fun _ => true) i s)) <> []) /\
  (pendingKvRequests_ s <> [] -> forall j, in_range j s -> occupied (slot_at j s) = true).
Proof.
  intros D H Hi Hw Ho Hwt. destruct (history_sound s g D H) as [C _ F _ _ _]. split; [|exact F].
  destruct (core_slot i s g C Hi Ho) as [P _ R]. set (slot := slot_at i s) in *.
  destruct (decide (idle_loads slot)) as [Hid|Hid].
  - destruct (readInflight slot) eqn:Hr.
    { right. left. destruct (sp_reading _ _ _ _ P Hr) as (_ & _ & _ & tag & ->). done. }
    right. right. apply (waiting_pump s g i w C Hi Hw Ho Hwt). unfold blocked. fold slot. rewrite Hr.
    destruct Hid as [Hk Hv]. rewrite Hk, Hv. destruct (failed slot) eqn:Hf; [|done].
    exfalso. assert (waiting slot w = false) as Hn; [|congruence].
    apply R; [unfold ready; by rewrite Hf|done|done].
  - left. pose proof (sp_k _ _ _ _ P) as [Ek _]. pose proof (sp_v _ _ _ _ P) as [Ev _].
    destruct (decide (kLoadsPending slot = 0)) as [Hk|Hk].
    + exists true. intros E. rewrite E in Ev. apply Hid. done.
    + exists false. intros E. rewrite E in Ek. done.
Qed.

End World.

(** ** A concrete history *)

Definition demo_kv : Config := mkConfig 0 4 0 0x100000 true false 1 64 0x2000 1 64.
Definition demo_mem (e a : Z) : Z := (7 * e + a) mod 256.

(** Row [tile] of a one-row tiling of a four-row tensor with one float per row. *)
Definition demo_request (id tile : Z) : Msg.t :=
  (Msg.make ATTENTION_KV_REQUEST) <| Msg.reqSeq := id |> <| Msg.bytes := 4 |> <| Msg.generation := 5 |>
    <| Msg.kvTileIndex := tile |> <| Msg.physicalKvTileIndex := tile |> <| Msg.numKvTiles := 4 |>
    <| Msg.kvLength := 4 |> <| Msg.kvTileRows := 1 |> <| Msg.tileRows := 1 |> <| Msg.rowsPerBand := 2 |>
    <| Msg.headDim := 1 |> <| Msg.nodeStrideBytes := 0x1000 |> <| Msg.kAddr := 0x80000 |>
    <| Msg.vAddr := 0x90000 |> <| Msg.kDstAddr := 0x300 |> <| Msg.vDstAddr := 0x340 |>.

Lemma demo_request_ok id tile : 0 <= tile < 4 -> request_ok 0 (demo_request id tile).
Proof. intros H. constructor; simpl; unfold is_u32; lia || done. Qed.

Lemma demo_dims : dims_ok demo_kv.
Proof. unfold dims_ok. simpl. lia. Qed.

(** One event after another. *)
Inductive event := Ask (id tile : Z) | LoadDone | ReadDone.
Definition event_step (e : event) (w : t * ghost) : t * ghost :=
  let '(s, g) := w in
  match e with
  | Ask id tile =>
      let '(o, s') := handleAttentionKvRequest demo_kv (demo_request id tile) 0 s in
      (s', absorb o (ask 0 (demo_request id tile) g))
  | LoadDone =>
      match loads g with
      | l :: l2 =>
          let '(o, s') := completeAttentionKvDma demo_kv (fun _ => true) (ld_slot l) (ld_epoch l)
                            (ld_value l) true s in
          (s', absorb o (without_load g [] l2))
      | [] => w
      end
  | ReadDone =>
      match reads g with
      | r :: r2 =>
          let '(o, s') := completeLocalRead demo_kv (fun _ => true) (rd_slot r) (rd_epoch r) (rd_tag r)
                            true (rd_tag r) (read_result demo_mem true r) s in
          (s', absorb o (without_read g [] r2))
      | [] => w
      end
  end.
Definition play (es : list event) : t * ghost :=
  foldl (fun w e => event_step e w) (init demo_kv, mkGhost [] [] [] [] []) es.

Definition room (w : t * ghost) : bool :=
  nextKvSlotEpoch_ (fst w) + (attentionKvDistributionSlots_ demo_kv + 1) * (queueDepth_ demo_kv + 2) <? 2 ^ 64.

Fixpoint playable (es : list event) (w : t * ghost) : bool :=
  match es with
  | [] => true
  | e :: es =>
      (match e with Ask _ tile => (0 <=? tile) && (tile <? 4) && room w | _ => true end) &&
      playable es (event_step e w)
  end.

Lemma event_history e s g :
  history demo_kv (fun _ => true) demo_mem true s g -> playable [e] (s, g) = true ->
  history demo_kv (fun _ => true) demo_mem true (fst (event_step e (s, g))) (snd (event_step e (s, g))).
Proof.
  intros H P. destruct e as [id tile| |]; simpl in P |- *.
  - destruct (handleAttentionKvRequest _ _ _ _) as [o s'] eqn:E. simpl.
    rewrite !andb_true_iff in P. destruct P as [[Ht Hr] _].
    eapply history_request; [done|apply demo_request_ok; lia| |exact E].
    unfold room in Hr. unfold epoch_room. simpl in Hr |- *. lia.
  - destruct (loads g) as [|l l2] eqn:El; [done|].
    destruct (completeAttentionKvDma _ _ _ _ _ _ _) as [o s'] eqn:E. simpl.
    by apply (history_load _ _ _ _ s g [] l l2 true o s').
  - destruct (reads g) as [|r r2] eqn:Er; [done|].
    destruct (completeLocalRead _ _ _ _ _ _ _ _ _) as [o s'] eqn:E. simpl.
    by apply (history_read _ _ _ _ s g [] r r2 true o s').
Qed.

Lemma play_history es :
  playable es (init demo_kv, mkGhost [] [] [] [] []) = true ->
  history demo_kv (fun _ => true) demo_mem true (fst (play es)) (snd (play es)).
Proof.
  unfold play. set (w := (init demo_kv, mkGhost [] [] [] [] [])).
  assert (history demo_kv (fun _ => true) demo_mem true (fst w) (snd w)) as H by apply history_init.
  clearbody w. revert w H. induction es as [|e es IH]; intros [s g] H P; [done|]. cbn [foldl].
  cbn [playable] in P. apply andb_true_iff in P as [P1 P2].
  apply IH; [|done]. apply event_history; [done|]. cbn [playable]. by rewrite P1.
Qed.

(** A request that is served, and a second one that then waits for the slot. *)
Definition demo_run : list event := [Ask 1 2; LoadDone; LoadDone; ReadDone; ReadDone; Ask 2 3].

Lemma kv_requests_conserved_witness :
  let s := fst (play demo_run) in let g := snd (play demo_run) in
  count 0 1 (told g) = 1 /\ tracked s 0 2 = 1 /\
  count 0 1 (told g) + tracked s 0 1 = count 0 1 (asked g).
Proof.
  cbv zeta. split; [by vm_compute|]. split; [by vm_compute|].
  apply (kv_requests_conserved demo_kv (fun _ => true) demo_mem true); [exact demo_dims| |lia|done].
  apply play_history. by vm_compute.
Defined.


(** While the tiles of the first request are still being read. *)
Lemma kv_no_stall_witness :
  let w := play [Ask 1 2; LoadDone] in
  exists v, slot_loads 0 1 v (snd w) <> [] \/ slot_reads 0 1 (snd w) <> [] \/
    reads_of (fst (pumpAttentionKvManagerRead demo_kv (fun _ => true) 0 (fst w))) <> [].
Proof.
  cbv zeta. set (w := play [Ask 1 2; LoadDone]).
  assert (in_range 0 (fst w)) as Hi by (split; [lia|vm_compute; lia]).
  destruct (kv_no_stall demo_kv (fun _ => true) demo_mem true (fst w) (snd w) 0 0 demo_dims) as [H _].
  - apply play_history. by vm_compute.
  - exact Hi.
  - lia.
  - by vm_compute.
  - by vm_compute.
  - assert (epoch (slot_at 0 (fst w)) = 1) as E by (by vm_compute). rewrite E in H.
    destruct H as [[v H]|H]; [exists v; left; exact H|exists true; right; exact H].
Defined.
End KvSystem.
