(* ===== verification/KvWorker.v ===== *)
(** * Group control: distribution of K/V tiles, worker side

    Models the worker half of the attention K/V distribution of
    golem/groupctrl/groupctrl.cc: a request is registered under a fresh id and
    sent to the manager; the delivery that answers it is written to the local
    memory chunk by chunk, first K and then V; finally the request is
    acknowledged and its callback runs.  Callbacks are effects, recorded in the
    order they run.

    The theorems show that every registered request ends exactly once, in a
    callback paired with an acknowledgement or in a cancellation, that success
    is reported only after every byte of both tiles was written to its place,
    and that the K-ready notification runs exactly once and in between.  The
    last theorem composes both halves into the history in which a cancellation
    leaves a slot of the manager occupied for good. *)

From S2P Require Import Prelude GroupMsg GroupSched KvManager KvSystem.

Module KvWorker.

Record Config := mkConfig {
  groupId_ : Z;
  workerSlot_ : Z;
  queueDepth_ : Z;
  attentionKvDistributionEnable_ : bool;
  attentionKvDistributionTileBytes_ : Z;
  localMaxRequestBytes : Z
}.

(** A registered request; whether it has a K-ready callback. *)
Record WorkerKvCallback := mkCallback {
  cb_generation : Z;
  hasKReady : bool;
  kReadySent : bool
}.
#[global] Instance eta_callback : Eta WorkerKvCallback := fun x =>
  mkCallback (cb_generation x) (hasKReady x) (kReadySent x).

Record WorkerKvDelivery := mkDelivery {
  dl_generation : Z;
  dl_kDstAddr : Z;
  dl_vDstAddr : Z;
  offset : Z;
  writingV : bool;
  inflight : bool;
  dl_kData : list Z;
  dl_vData : list Z
}.
#[global] Instance eta_delivery : Eta WorkerKvDelivery := fun d =>
  mkDelivery (dl_generation d) (dl_kDstAddr d) (dl_vDstAddr d) (offset d) (writingV d) (inflight d)
    (dl_kData d) (dl_vData d).

Record t := mk {
  workerKvCallbacks_ : gmap Z WorkerKvCallback;
  workerKvDeliveries_ : gmap Z WorkerKvDelivery;
  nextKvRequestId_ : Z;
  nextKvLocalTag_ : Z
}.
#[global] Instance eta_t : Eta t := fun s =>
  mk (workerKvCallbacks_ s) (workerKvDeliveries_ s) (nextKvRequestId_ s) (nextKvLocalTag_ s).

Definition init : t := mk ∅ ∅ 1 1.

Inductive effect :=
| Send (m : Msg.t)
| LocalWrite (addr : Z) (data : list Z) (tag requestId : Z)
| KReady (requestId : Z) (ok : bool)
| Done (requestId : Z) (ok : bool).

Definition cmd : Type := t -> list effect * t.
Definition skip : cmd := fun s => ([], s).

(** [emplace] keeps an entry that is already there. *)
Definition emplace {A} (k : Z) (v : A) (m : gmap Z A) : gmap Z A :=
  match m !! k with Some _ => m | None => <[k := v]> m end.

Definition header (c : Config) (ty : GroupCtrlMsgType) : Msg.t :=
  (Msg.make ty) <| Msg.groupId := u8 (groupId_ c) |> <| Msg.workerSlot := u8 (workerSlot_ c) |>.

(** *** Requests *)

Definition invalid_pair (c : Config) (r : KvRequest.t) (hasCallback : bool) (s : t) : bool :=
  negb (attentionKvDistributionEnable_ c) || negb hasCallback || (KvRequest.generation r =? 0) ||
  (KvRequest.tileRows r =? 0) || (KvRequest.rowsPerBand r =? 0) || (KvRequest.headDim r =? 0) ||
  (KvRequest.kvTileRows r <? KvRequest.tileRows r) || (workerSlot_ c <? 0) || (4 <=? workerSlot_ c) ||
  (queueDepth_ c <=? Z.of_nat (size (workerKvCallbacks_ s))).

Definition request_msg (c : Config) (id : Z) (bytes : Z) (r : KvRequest.t) : Msg.t :=
  fillAttentionKvMessage
    ((header c ATTENTION_KV_REQUEST) <| Msg.reqSeq := id |> <| Msg.bytes := u32 bytes |>) r.

(** Whether the request was accepted, and its effects. *)
Definition requestAttentionKvPair (c : Config) (r : KvRequest.t) (hasCallback kReady : bool) (s : t)
    : bool * (list effect * t) :=
  if invalid_pair c r hasCallback s then (false, skip s)
  else
    let bytes := u64 (KvRequest.tileRows r * KvRequest.headDim r * 4) in
    if (bytes =? 0) || (attentionKvDistributionTileBytes_ c <? bytes) || (2 ^ 32 - 1 <? bytes)
    then (false, skip s)
    else
      let id := nextKvRequestId_ s in
      (true, ([Send (request_msg c id bytes r)],
              s <| nextKvRequestId_ := id ⊞ 1 |>
                <| workerKvCallbacks_ :=
                     emplace id (mkCallback (KvRequest.generation r) kReady false)
                       (workerKvCallbacks_ s) |>)).

(** *** Completion *)

Definition ack_msg (c : Config) (id generation : Z) : Msg.t :=
  (header c ATTENTION_KV_ACK) <| Msg.reqSeq := id |> <| Msg.generation := generation |>.

Definition completeWorkerAttentionKvDelivery (c : Config) (id : Z) (ok : bool) : cmd := fun s =>
  match workerKvCallbacks_ s !! id with
  | None => ([], s <| workerKvDeliveries_ := delete id (workerKvDeliveries_ s) |>)
  | Some cb =>
      (Send (ack_msg c id (cb_generation cb))
         :: (if negb (kReadySent cb) && hasKReady cb then [KReady id false] else [])
         ++ [Done id ok],
       s <| workerKvCallbacks_ := delete id (workerKvCallbacks_ s) |>
         <| workerKvDeliveries_ := delete id (workerKvDeliveries_ s) |>)
  end.

Section Memory.
Variable c : Config.
Variable accepts : Z -> bool.

(** The write of the next chunk of [source]. *)
Definition write_chunk (id : Z) (d : WorkerKvDelivery) : cmd := fun s =>
  let source := if writingV d then dl_vData d else dl_kData d in
  let chunk := Z.min (Z.of_nat (length source) - offset d) (localMaxRequestBytes c) in
  let data := take (Z.to_nat chunk) (drop (Z.to_nat (offset d)) source) in
  let destination := (if writingV d then dl_vDstAddr d else dl_kDstAddr d) ⊞ offset d in
  let tag := nextKvLocalTag_ s in
  let s := s <| nextKvLocalTag_ := tag ⊞ 1 |> in
  if accepts tag then
    ([LocalWrite destination data tag id],
     s <| workerKvDeliveries_ := <[id := d <| inflight := true |>]> (workerKvDeliveries_ s) |>)
  else ([], s).

(** The recursive call happens at most once, when K is written. *)
Fixpoint pump (fuel : nat) (id : Z) : cmd := fun s =>
  match fuel with
  | O => skip s
  | S fuel =>
      match workerKvDeliveries_ s !! id with
      | None => skip s
      | Some d =>
          if inflight d then skip s
          else if offset d =? Z.of_nat (length (if writingV d then dl_vData d else dl_kData d)) then
            if negb (writingV d) then
              match workerKvCallbacks_ s !! id with
              | None => completeWorkerAttentionKvDelivery c id false s
              | Some cb =>
                  let o := if negb (kReadySent cb) && hasKReady cb then [KReady id true] else [] in
                  let '(o', s') := pump fuel id
                    (s <| workerKvCallbacks_ :=
                            <[id := cb <| kReadySent := true |>]> (workerKvCallbacks_ s) |>
                       <| workerKvDeliveries_ :=
                            <[id := d <| writingV := true |> <| offset := 0 |>]>
                              (workerKvDeliveries_ s) |>) in
                  (o ++ o', s')
              end
            else completeWorkerAttentionKvDelivery c id true s
          else write_chunk id d s
      end
  end.
Definition pumpWorkerAttentionKvDelivery (id : Z) : cmd := pump 2 id.

(** The callback of the write issued for request [id] with [tag]. *)
Definition completeLocalWrite (id tag chunk : Z) (ok : bool) (callbackTag : Z) : cmd := fun s =>
  match workerKvDeliveries_ s !! id with
  | None => skip s
  | Some d =>
      let d := d <| inflight := false |> in
      if negb ok || negb (callbackTag =? tag) then
        completeWorkerAttentionKvDelivery c id false
          (s <| workerKvDeliveries_ := <[id := d]> (workerKvDeliveries_ s) |>)
      else
        pumpWorkerAttentionKvDelivery id
          (s <| workerKvDeliveries_ :=
             <[id := d <| offset := offset d + chunk |>]> (workerKvDeliveries_ s) |>)
  end.

Definition bad_delivery (m : Msg.t) (s : t) : bool :=
  negb (attentionKvDistributionEnable_ c) ||
  match workerKvCallbacks_ s !! Msg.reqSeq m with
  | None => true
  | Some cb => negb (cb_generation cb =? Msg.generation m)
  end || (Msg.status m =? 0) || bool_decide (Msg.kData m = []) ||
  negb (Z.of_nat (length (Msg.kData m)) =? Z.of_nat (length (Msg.vData m))).

Definition handleAttentionKvDelivery (m : Msg.t) : cmd := fun s =>
  let id := Msg.reqSeq m in
  if bad_delivery m s then
    match workerKvCallbacks_ s !! id with
    | None => skip s
    | Some _ => completeWorkerAttentionKvDelivery c id false s
    end
  else
    pumpWorkerAttentionKvDelivery id
      (s <| workerKvDeliveries_ :=
         emplace id (mkDelivery (Msg.generation m) (Msg.kDstAddr m) (Msg.vDstAddr m) 0 false false
                       (Msg.kData m) (Msg.vData m)) (workerKvDeliveries_ s) |>).

(** The worker half of [tick], in the order [ids] in which the map lists them. *)
Fixpoint tick (ids : list Z) : cmd := fun s =>
  match ids with
  | [] => skip s
  | id :: ids =>
      let '(o, s) := pumpWorkerAttentionKvDelivery id s in
      let '(o', s) := tick ids s in (o ++ o', s)
  end.

End Memory.

(** *** Cancellation *)

Definition cancel_msg (c : Config) (generation : Z) : Msg.t :=
  (header c ATTENTION_KV_CANCEL) <| Msg.generation := generation |>.

Definition cancelled_ids (generation : Z) (s : t) : gset Z :=
  dom (filter (fun '(_, cb) => cb_generation cb = generation) (workerKvCallbacks_ s)).

(** How many requests were cancelled, and the effects. *)
Definition cancelAttentionKvGeneration (c : Config) (generation : Z) (s : t)
    : Z * (list effect * t) :=
  if negb (attentionKvDistributionEnable_ c) || (generation =? 0) then (0, skip s)
  else
    let keep := filter (fun '(_, cb) => cb_generation cb <> generation) (workerKvCallbacks_ s) in
    (u32 (Z.of_nat (size (cancelled_ids generation s))),
     ([Send (cancel_msg c generation)],
      s <| workerKvCallbacks_ := keep |>
        <| workerKvDeliveries_ :=
             filter (fun '(id, _) => id ∉ cancelled_ids generation s) (workerKvDeliveries_ s) |>)).

End KvWorker.

(** ** The worker with its memory

    What happens to a request is recorded in one trace, in the order it
    happens; a write is recorded byte by byte when the memory has carried it
    out. *)

Section WorkerFacts.
Import KvWorker.

Inductive obs :=
| Registered (id : Z) (kReady : bool)
| Wrote (id addr byte : Z)
| KReadyRan (id : Z) (ok : bool)
| Acked (id : Z)
| CallbackRan (id : Z) (ok : bool)
| Cancelled (id : Z).

Definition obs_id (o : obs) : Z :=
  match o with
  | Registered id _ | Wrote id _ _ | KReadyRan id _ | Acked id | CallbackRan id _ | Cancelled id => id
  end.

Record write := mkWrite { w_addr : Z; w_data : list Z; w_tag : Z; w_id : Z }.

Record wghost := mkWGhost { trace : list obs; writes : list write; got : list Msg.t }.

Definition obs_of (e : effect) : option obs :=
  match e with
  | Send m => if decide (Msg.type m = ATTENTION_KV_ACK) then Some (Acked (Msg.reqSeq m)) else None
  | KReady id ok => Some (KReadyRan id ok)
  | Done id ok => Some (CallbackRan id ok)
  | LocalWrite _ _ _ _ => None
  end.
Definition write_of (e : effect) : option write :=
  match e with LocalWrite a data tag id => Some (mkWrite a data tag id) | _ => None end.

Definition witness_effects (o : list effect) (g : wghost) : wghost :=
  mkWGhost (trace g ++ omap obs_of o) (writes g ++ omap write_of o) (got g).

(** The bytes of [data] as they land from address [dst] on. *)
Definition stored (id dst : Z) (data : list Z) : list obs :=
  imap (fun j b => Wrote id (dst ⊞ Z.of_nat j) b) data.

Definition wrote (w : write) (ok : bool) (g : wghost) : wghost :=
  mkWGhost (trace g ++ if ok then stored (w_id w) (w_addr w) (w_data w) else []) (writes g) (got g).

Section History.
Variable c : Config.
Variable accepts : Z -> bool.

Inductive worker_history : t -> wghost -> Prop :=
| wh_init : worker_history init (mkWGhost [] [] [])
| wh_request s g r hasCallback kReady ok o s' :
    worker_history s g ->
    nextKvRequestId_ s + 1 < 2 ^ 64 ->
    requestAttentionKvPair c r hasCallback kReady s = (ok, (o, s')) ->
    worker_history s' (witness_effects o
      (mkWGhost (trace g ++ if ok then [Registered (nextKvRequestId_ s) kReady] else [])
         (writes g) (got g)))
| wh_delivery s g m o s' :
    worker_history s g ->
    handleAttentionKvDelivery c accepts m s = (o, s') ->
    worker_history s' (witness_effects o (mkWGhost (trace g) (writes g) (got g ++ [m])))
| wh_write s g l1 w l2 ok o s' :
    worker_history s g ->
    writes g = l1 ++ w :: l2 ->
    completeLocalWrite c accepts (w_id w) (w_tag w) (Z.of_nat (length (w_data w))) ok (w_tag w) s =
      (o, s') ->
    worker_history s' (witness_effects o (wrote w ok (mkWGhost (trace g) (l1 ++ l2) (got g))))
| wh_tick s g ids o s' :
    worker_history s g ->
    tick c accepts ids s = (o, s') ->
    worker_history s' (witness_effects o g)
| wh_cancel s g generation n o s' :
    worker_history s g ->
    cancelAttentionKvGeneration c generation s = (n, (o, s')) ->
    worker_history s' (witness_effects o
      (mkWGhost (trace g ++ if negb (attentionKvDistributionEnable_ c) || (generation =? 0) then []
                   else map Cancelled (elements (cancelled_ids generation s)))
         (writes g) (got g))).

(** ** What can happen to a request *)

Definition of_id (id : Z) (tr : list obs) : list obs := filter (fun o => obs_id o = id) tr.
Definition writes_of (id : Z) (ws : list write) : list write := filter (fun w => w_id w = id) ws.

(** Neither acknowledged nor called back. *)
Definition pending_obs (o : obs) : Prop :=
  match o with Acked _ | CallbackRan _ _ | Registered _ _ | Cancelled _ => False | _ => True end.
Definition is_store (o : obs) : Prop := match o with Wrote _ _ _ => True | _ => False end.

Definition k_ready (id : Z) (kReady ok : bool) : list obs := if kReady then [KReadyRan id ok] else [].

(** The whole of a delivery: K, the notification, V. *)
Definition delivery_of (id : Z) (kReady : bool) (kDst vDst : Z) (k v : list Z) : list obs :=
  stored id kDst k ++ k_ready id kReady true ++ stored id vDst v.

(** What a delivery in progress has done so far. *)
Definition progress (id : Z) (kReady : bool) (d : WorkerKvDelivery) : list obs :=
  if writingV d
  then delivery_of id kReady (dl_kDstAddr d) (dl_vDstAddr d) (dl_kData d)
         (take (Z.to_nat (offset d)) (dl_vData d))
  else stored id (dl_kDstAddr d) (take (Z.to_nat (offset d)) (dl_kData d)).

Inductive finished (id : Z) (ms : list Msg.t) (ws : list write) : list obs -> Prop :=
| fin_success kReady m :
    m ∈ ms -> Msg.reqSeq m = id -> Msg.status m <> 0 ->
    ws = [] ->
    finished id ms ws
      (Registered id kReady
         :: delivery_of id kReady (Msg.kDstAddr m) (Msg.vDstAddr m) (Msg.kData m) (Msg.vData m)
         ++ [Acked id; CallbackRan id true])
| fin_failure kReady before sent late :
    (sent = true -> exists ks vs, before = ks ++ k_ready id kReady true ++ vs /\
       Forall is_store ks /\ Forall is_store vs) ->
    (sent = false -> Forall is_store before) ->
    Forall is_store late ->
    finished id ms ws
      (Registered id kReady
         :: before ++ Acked id :: k_ready id (negb sent && kReady) false
         ++ CallbackRan id false :: late)
| fin_cancelled kReady before late :
    Forall pending_obs before -> Forall is_store late ->
    finished id ms ws (Registered id kReady :: before ++ Cancelled id :: late).

(** ** The story of a request *)

(** A request in progress and the delivery that answers it. *)
Definition live_story (id : Z) (cb : WorkerKvCallback) (od : option WorkerKvDelivery)
    (tr : list obs) (ws : list write) (ms : list Msg.t) : Prop :=
  match od with
  | None => tr = [Registered id (hasKReady cb)] /\ kReadySent cb = false /\ ws = []
  | Some d =>
      tr = Registered id (hasKReady cb) :: progress id (hasKReady cb) d /\
      kReadySent cb = writingV d /\
      (exists m, m ∈ ms /\ Msg.reqSeq m = id /\ Msg.status m <> 0 /\
         dl_kDstAddr d = Msg.kDstAddr m /\ dl_vDstAddr d = Msg.vDstAddr m /\
         dl_kData d = Msg.kData m /\ dl_vData d = Msg.vData m) /\
      (let source := if writingV d then dl_vData d else dl_kData d in
       let dst := if writingV d then dl_vDstAddr d else dl_kDstAddr d in
       0 <= offset d <= Z.of_nat (length source) /\
       if inflight d then
         exists n tag, ws = [mkWrite (dst ⊞ offset d) (take n (drop (Z.to_nat (offset d)) source)) tag id]
       else ws = [])
  end.

Definition story (s : t) (g : wghost) (id : Z) : Prop :=
  let tr := of_id id (trace g) in
  let ws := writes_of id (writes g) in
  match workerKvCallbacks_ s !! id with
  | Some cb => 1 <= id < nextKvRequestId_ s /\
      live_story id cb (workerKvDeliveries_ s !! id) tr ws (got g)
  | None => workerKvDeliveries_ s !! id = None /\
      if bool_decide (1 <= id < nextKvRequestId_ s) then finished id (got g) ws tr
      else tr = [] /\ ws = []
  end.

(** [s'] and [g'] differ from [s] and [g] only in what concerns [id]. *)
Definition only (id : Z) (s : t) (g : wghost) (s' : t) (g' : wghost) : Prop :=
  nextKvRequestId_ s' = nextKvRequestId_ s /\ got g' = got g /\
  forall id', id' <> id ->
    workerKvCallbacks_ s' !! id' = workerKvCallbacks_ s !! id' /\
    workerKvDeliveries_ s' !! id' = workerKvDeliveries_ s !! id' /\
    of_id id' (trace g') = of_id id' (trace g) /\
    writes_of id' (writes g') = writes_of id' (writes g).

Lemma only_refl id s g : only id s g s g.
Proof. by repeat split. Qed.
Lemma only_trans id s1 g1 s2 g2 s3 g3 :
  only id s1 g1 s2 g2 -> only id s2 g2 s3 g3 -> only id s1 g1 s3 g3.
Proof.
  intros (Hn & Hg & H) (Hn' & Hg' & H'). split_and!; [congruence|congruence|].
  intros id' Hne. destruct (H id' Hne) as (<- & <- & <- & <-). exact (H' id' Hne).
Qed.

Lemma only_story id s g s' g' id' :
  only id s g s' g' -> id' <> id -> story s g id' -> story s' g' id'.
Proof.
  intros (Hn & Hg & H) Hne. destruct (H id' Hne) as (Hc & Hd & Ht & Hw).
  unfold story. by rewrite Hc, Hd, Ht, Hw, Hn, Hg.
Qed.

Lemma of_id_app id tr tr' : of_id id (tr ++ tr') = of_id id tr ++ of_id id tr'.
Proof. apply filter_app. Qed.
Lemma writes_of_app id ws ws' : writes_of id (ws ++ ws') = writes_of id ws ++ writes_of id ws'.
Proof. apply filter_app. Qed.

Lemma of_id_own id tr : Forall (fun o => obs_id o = id) tr -> of_id id tr = tr.
Proof. induction 1 as [|o tr Ho _ IH]; [done|]. unfold of_id in *. by rewrite filter_cons_True, IH. Qed.
Lemma of_id_other id id' tr : id' <> id -> Forall (fun o => obs_id o = id) tr -> of_id id' tr = [].
Proof.
  intros Hne. induction 1 as [|o tr Ho _ IH]; [done|]. unfold of_id in *.
  rewrite filter_cons_False; [exact IH|]. by rewrite Ho.
Qed.

Lemma stored_own id dst data : Forall (fun o => obs_id o = id) (stored id dst data).
Proof. apply Forall_lookup_2. intros i o. unfold stored. rewrite list_lookup_imap. destruct (data !! i); [|discriminate]. by intros [= <-]. Qed.
Lemma stored_store id dst data : Forall is_store (stored id dst data).
Proof. apply Forall_lookup_2. intros i o. unfold stored. rewrite list_lookup_imap. destruct (data !! i); [|discriminate]. by intros [= <-]. Qed.
Lemma stored_app id dst l1 l2 :
  stored id dst (l1 ++ l2) = stored id dst l1 ++ stored id (dst ⊞ Z.of_nat (length l1)) l2.
Proof.
  unfold stored. rewrite imap_app. f_equal. apply imap_ext. intros i b _. simpl.
  f_equal. rewrite u64_add_l. f_equal. lia.
Qed.
Lemma stored_u64 id dst l : stored id (u64 dst) l = stored id dst l.
Proof. apply imap_ext. intros i b _. simpl. f_equal. apply u64_add_l. Qed.

(** Effects that concern only [id]. *)
Definition effect_id (e : effect) : Z :=
  match e with Send m => Msg.reqSeq m | LocalWrite _ _ _ id | KReady id _ | Done id _ => id end.

Lemma effects_obs id o :
  Forall (fun e => effect_id e = id) o -> Forall (fun x => obs_id x = id) (omap obs_of o).
Proof.
  induction 1 as [|e o He _ IH]; [done|]. destruct e; cbn in He; simpl; try (case_decide);
    try (constructor; [exact He|exact IH]); exact IH.
Qed.
Lemma effects_writes id id' o :
  Forall (fun e => effect_id e = id) o -> id' <> id -> writes_of id' (omap write_of o) = [].
Proof.
  induction 1 as [|e o He _ IH]; intros Hne; [done|]. destruct e; cbn in He; simpl; try by apply IH.
  unfold writes_of in *. rewrite filter_cons_False; [by apply IH|]. simpl. congruence.
Qed.

Lemma only_effects id s g o s' :
  Forall (fun e => effect_id e = id) o ->
  only id s g s' g -> only id s g s' (witness_effects o g).
Proof.
  intros Ho (Hn & Hg & H). split_and!; [done|done|]. intros id' Hne.
  destruct (H id' Hne) as (Hc & Hd & _). split_and!; [done|done|..]; simpl.
  - rewrite of_id_app, (of_id_other id id' (omap _ _)), app_nil_r; [done|done|by apply effects_obs].
  - rewrite writes_of_app, (effects_writes id id'), app_nil_r; done.
Qed.

Definition acts (id : Z) (f : cmd) : Prop :=
  forall s g, only id s g (snd (f s)) (witness_effects (fst (f s)) g).

Lemma witness_nil g : witness_effects [] g = g.
Proof. destruct g. unfold witness_effects. simpl. by rewrite !app_nil_r. Qed.
Lemma witness_app o o' g : witness_effects (o ++ o') g = witness_effects o' (witness_effects o g).
Proof. unfold witness_effects. simpl. by rewrite !omap_app, !app_assoc. Qed.

(** An update of the entries of [id]. *)
Lemma only_update id s g s' :
  nextKvRequestId_ s' = nextKvRequestId_ s ->
  (forall id', id' <> id ->
     workerKvCallbacks_ s' !! id' = workerKvCallbacks_ s !! id' /\
     workerKvDeliveries_ s' !! id' = workerKvDeliveries_ s !! id') ->
  only id s g s' g.
Proof. intros Hn H. split_and!; [done|done|]. intros id' Hne. by destruct (H id' Hne). Qed.

Ltac own_update :=
  apply only_update; [done|]; intros ? ?; simpl;
  split; rewrite ?lookup_insert_ne, ?lookup_delete_ne by done; done.

Lemma complete_acts id ok : acts id (completeWorkerAttentionKvDelivery c id ok).
Proof.
  intros s g. unfold completeWorkerAttentionKvDelivery.
  destruct (workerKvCallbacks_ s !! id) as [cb|]; simpl fst; simpl snd.
  - apply only_effects; [|own_update]. constructor; [done|].
    destruct (negb (kReadySent cb) && hasKReady cb); by repeat constructor.
  - rewrite witness_nil. own_update.
Qed.

Lemma write_chunk_acts id d : acts id (write_chunk c accepts id d).
Proof.
  intros s g. unfold write_chunk. cbv zeta.
  destruct (accepts (nextKvLocalTag_ s)); simpl fst; simpl snd.
  - apply only_effects; [by repeat constructor|own_update].
  - rewrite witness_nil. own_update.
Qed.

(** The state from which V is written. *)
Definition turned (id : Z) (cb : WorkerKvCallback) (d : WorkerKvDelivery) (s : t) : t :=
  mk (<[id := cb <| kReadySent := true |>]> (workerKvCallbacks_ s))
     (<[id := d <| writingV := true |> <| offset := 0 |>]> (workerKvDeliveries_ s))
     (nextKvRequestId_ s) (nextKvLocalTag_ s).

Lemma pump_S fuel id s :
  pump c accepts (S fuel) id s =
  match workerKvDeliveries_ s !! id with
  | None => ([], s)
  | Some d =>
      if inflight d then ([], s)
      else if offset d =? Z.of_nat (length (if writingV d then dl_vData d else dl_kData d)) then
        if writingV d then completeWorkerAttentionKvDelivery c id true s
        else match workerKvCallbacks_ s !! id with
             | None => completeWorkerAttentionKvDelivery c id false s
             | Some cb =>
                 let r := pump c accepts fuel id (turned id cb d s) in
                 ((if negb (kReadySent cb) && hasKReady cb then [KReady id true] else []) ++ fst r, snd r)
             end
      else write_chunk c accepts id d s
  end.
Proof.
  simpl. destruct (workerKvDeliveries_ s !! id) as [[? ? ? ? [] [] ? ?]|]; try done.
  simpl. case_match; [|done]. destruct (workerKvCallbacks_ s !! id) as [cb|]; [|done].
  unfold turned. simpl. by destruct (pump c accepts fuel id _).
Qed.

Lemma pump_acts fuel id : acts id (pump c accepts fuel id).
Proof.
  induction fuel as [|fuel IH]; intros s g; [simpl; rewrite witness_nil; apply only_refl|].
  rewrite pump_S. destruct (workerKvDeliveries_ s !! id) as [d|];
    [|simpl; rewrite witness_nil; apply only_refl].
  destruct (inflight d); [simpl; rewrite witness_nil; apply only_refl|].
  destruct (_ =? _); [|apply write_chunk_acts]. destruct (writingV d); [apply complete_acts|].
  destruct (workerKvCallbacks_ s !! id) as [cb|]; [|apply complete_acts].
  cbv zeta. simpl fst. simpl snd. rewrite witness_app.
  eapply only_trans; [|apply IH]. apply only_effects; [|own_update].
  destruct (negb (kReadySent cb) && hasKReady cb); by repeat constructor.
Qed.

(** ** Each operation continues the story of its request *)

Lemma complete_false_story s g id :
  story s g id ->
  let r := completeWorkerAttentionKvDelivery c id false s in
  story (snd r) (witness_effects (fst r) g) id.
Proof.
  unfold story, completeWorkerAttentionKvDelivery. cbv zeta.
  destruct (workerKvCallbacks_ s !! id) as [cb|] eqn:Ec; simpl fst; simpl snd; simpl.
  2: { rewrite Ec, !app_nil_r, lookup_delete_eq. by intros [_ ?]. }
  intros (Hid & Hl). rewrite !lookup_delete_eq. split; [done|].
  rewrite bool_decide_true by done. rewrite of_id_app.
  set (sent := kReadySent cb). set (kr := hasKReady cb) in *.
  rewrite (of_id_own id (Acked id :: _)).
  2: { constructor; [done|]. destruct (negb sent && kr); by repeat constructor. }
  assert (exists before, of_id id (trace g) = Registered id kr :: before /\
    (sent = true -> exists ks vs, before = ks ++ k_ready id kr true ++ vs /\
       Forall is_store ks /\ Forall is_store vs) /\ (sent = false -> Forall is_store before))
    as (before & -> & Ht & Hf).
  { unfold live_story in Hl. destruct (workerKvDeliveries_ s !! id) as [d|].
    - destruct Hl as (-> & Hs & _). fold sent in Hs. fold kr. eexists. split; [done|].
      unfold progress. rewrite <- Hs. destruct sent; split; intros E; try discriminate E.
      + eexists _, _. split; [done|]. split; apply stored_store.
      + apply stored_store.
    - destruct Hl as (-> & Hs & _). exists []. split; [done|]. unfold sent. rewrite Hs.
      split; [discriminate|by constructor]. }
  pose proof (fin_failure id (got g) (writes_of id (writes g ++ omap write_of
    ((if negb sent && kr then [KReady id false] else []) ++ [Done id false]))) kr before sent [] Ht Hf
    ltac:(constructor)) as F.
  destruct (negb sent && kr); exact F.
Qed.

Lemma complete_true_story s g id d :
  workerKvDeliveries_ s !! id = Some d -> inflight d = false -> writingV d = true ->
  offset d = Z.of_nat (length (dl_vData d)) ->
  story s g id ->
  let r := completeWorkerAttentionKvDelivery c id true s in
  story (snd r) (witness_effects (fst r) g) id.
Proof.
  intros Hd Hi Hv Ho. unfold story, completeWorkerAttentionKvDelivery. cbv zeta.
  destruct (workerKvCallbacks_ s !! id) as [cb|] eqn:Ec; simpl fst; simpl snd; simpl.
  2: { rewrite Hd. by intros [? _]. }
  rewrite Hd. intros (Hid & Ht & Hs & (m & Hm & Hmid & Hst & Hk & Hvd & Hkd & Hvdd) & _ & Hw).
  rewrite Hi in Hw. rewrite !lookup_delete_eq. split; [done|].
  rewrite bool_decide_true by done. rewrite Hs, Hv. simpl. rewrite of_id_app, Ht.
  rewrite (of_id_own id [_; _]) by (by repeat constructor).
  unfold progress. rewrite Hv, Ho, Nat2Z.id, firstn_all, Hk, Hvd, Hkd, Hvdd, app_nil_r.
  change (Registered id (hasKReady cb) :: ?l ++ ?l') with (Registered id (hasKReady cb) :: (l ++ l')).
  by apply fin_success.
Qed.

Lemma turned_story s g id cb d :
  workerKvDeliveries_ s !! id = Some d -> workerKvCallbacks_ s !! id = Some cb ->
  inflight d = false -> writingV d = false -> offset d = Z.of_nat (length (dl_kData d)) ->
  story s g id ->
  story (turned id cb d s)
    (witness_effects (if negb (kReadySent cb) && hasKReady cb then [KReady id true] else []) g) id.
Proof.
  intros Hd Hc Hi Hv Ho. unfold story, turned. simpl. rewrite Hc, Hd, !lookup_insert_eq.
  intros (Hid & Ht & Hs & Hm & _ & Hw). rewrite Hi in Hw. rewrite Hs, Hv. simpl.
  split; [done|]. rewrite of_id_app, Ht. split_and!; [|done|done|lia|lia|].
  - unfold progress. rewrite Hv. simpl. rewrite Ho, Nat2Z.id, firstn_all. unfold delivery_of, k_ready.
    rewrite (of_id_own id); [|by destruct (hasKReady cb); repeat constructor].
    destruct (hasKReady cb); simpl; by rewrite ?app_nil_r.
  - rewrite Hi, writes_of_app, Hw. by destruct (hasKReady cb).
Qed.

Lemma write_chunk_story s g id d :
  workerKvDeliveries_ s !! id = Some d -> inflight d = false -> story s g id ->
  let r := write_chunk c accepts id d s in
  story (snd r) (witness_effects (fst r) g) id.
Proof.
  intros Hd Hi. unfold story, write_chunk. cbv zeta.
  destruct (accepts (nextKvLocalTag_ s)); simpl fst; simpl snd; simpl.
  2: { by rewrite !app_nil_r. }
  rewrite Hd, !lookup_insert_eq, app_nil_r. destruct (workerKvCallbacks_ s !! id) as [cb|]; [|by intros [? _]].
  intros (Hid & Ht & Hs & Hm & Ho & Hw). rewrite Hi in Hw. rewrite writes_of_app, Hw. simpl.
  split; [done|]. split_and!; [done|done|done|lia|lia|].
  eexists _, (nextKvLocalTag_ s). unfold writes_of. by rewrite filter_cons_True.
Qed.

Lemma pump_story fuel s g id :
  story s g id ->
  let r := pump c accepts fuel id s in story (snd r) (witness_effects (fst r) g) id.
Proof.
  revert s g. induction fuel as [|fuel IH]; intros s g Hs; cbv zeta.
  { simpl. by rewrite witness_nil. }
  rewrite pump_S. destruct (workerKvDeliveries_ s !! id) as [d|] eqn:Ed; [|simpl; by rewrite witness_nil].
  destruct (inflight d) eqn:Ei; [simpl; by rewrite witness_nil|].
  destruct (_ =? _) eqn:Eo; [apply Z.eqb_eq in Eo|by apply write_chunk_story].
  destruct (writingV d) eqn:Ev; [by eapply complete_true_story|].
  destruct (workerKvCallbacks_ s !! id) as [cb|] eqn:Ec; [|by apply complete_false_story].
  cbv zeta. simpl fst. simpl snd. rewrite witness_app. apply IH. by apply turned_story.
Qed.

(** ** The memory's answers *)

Definition landed (id : Z) (d : WorkerKvDelivery) (n : Z) (s : t) : t :=
  s <| workerKvDeliveries_ :=
    <[id := d <| inflight := false |> <| offset := offset d + n |>]> (workerKvDeliveries_ s) |>.

Lemma take_grow (a n : nat) (l : list Z) :
  take (a + length (take n (drop a l))) l = take a l ++ take n (drop a l).
Proof.
  rewrite <- take_take_drop. f_equal. rewrite <- (take_drop n (drop a l)) at 2. apply take_app_length.
Qed.

Lemma stored_grow id dst o n l :
  0 <= o <= Z.of_nat (length l) ->
  stored id dst (take (Z.to_nat (o + Z.of_nat (length (take n (drop (Z.to_nat o) l))))) l) =
  stored id dst (take (Z.to_nat o) l) ++ stored id (dst ⊞ o) (take n (drop (Z.to_nat o) l)).
Proof.
  intros Ho. rewrite Z2Nat.inj_add, Nat2Z.id, take_grow, stored_app, length_take by lia.
  rewrite Nat.min_l, Z2Nat.id by lia. done.
Qed.

Lemma landed_story s g id d w ws' :
  workerKvDeliveries_ s !! id = Some d -> w_id w = id ->
  writes_of id (writes g) = [w] -> writes_of id ws' = [] -> inflight d = true ->
  story s g id ->
  story (landed id d (Z.of_nat (length (w_data w))) s)
    (wrote w true (mkWGhost (trace g) ws' (got g))) id.
Proof.
  intros Hd Hw Hws Hws' Hi. unfold story, landed. simpl. rewrite Hd, lookup_insert_eq, Hws, Hws'.
  destruct (workerKvCallbacks_ s !! id) as [cb|]; [|by intros [? _]].
  intros (Hid & Ht & Hs & Hm & Ho & Hn). split; [done|]. rewrite Hi in Hn.
  destruct Hn as (n & tag & [= ->]). simpl. rewrite of_id_app, Ht, (of_id_own id) by apply stored_own.
  split_and!; [|done|done|lia| |done].
  - simpl. f_equal. unfold progress. simpl.
    destruct (writingV d); unfold delivery_of; rewrite stored_grow by done; by rewrite <- ?app_assoc.
  - rewrite length_take, length_drop. lia.
Qed.

(** A write that failed, before the request is closed. *)
Lemma failed_story s g id d w ws' :
  workerKvDeliveries_ s !! id = Some d -> writes_of id (writes g) = [w] -> writes_of id ws' = [] ->
  story s g id ->
  story (s <| workerKvDeliveries_ := <[id := d <| inflight := false |>]> (workerKvDeliveries_ s) |>)
    (wrote w false (mkWGhost (trace g) ws' (got g))) id.
Proof.
  intros Hd Hws Hws'. unfold story. simpl. rewrite Hd, lookup_insert_eq, Hws, Hws', app_nil_r.
  destruct (workerKvCallbacks_ s !! id) as [cb|]; [|by intros [? _]].
  intros (Hid & Ht & Hs & Hm & Ho & Hn). done.
Qed.

(** A write whose request is already closed. *)
Lemma late_story s g id w ws' ok :
  workerKvDeliveries_ s !! id = None -> w_id w = id ->
  w ∈ writes_of id (writes g) -> story s g id ->
  story s (wrote w ok (mkWGhost (trace g) ws' (got g))) id.
Proof.
  intros Hd Hw Hin. unfold story. simpl. rewrite Hd.
  destruct (workerKvCallbacks_ s !! id) as [cb|].
  { intros (_ & _ & _ & Hws). rewrite Hws in Hin. by apply elem_of_nil in Hin. }
  intros [_ H]. split; [done|]. case_bool_decide.
  2: { destruct H as [_ Hws]. rewrite Hws in Hin. by apply elem_of_nil in Hin. }
  rewrite of_id_app. set (x := if ok then _ else _).
  assert (Forall is_store (of_id id x) /\ of_id id x = x) as [Hx _].
  { unfold x. destruct ok; [|done]. rewrite (of_id_own id) by (rewrite Hw; apply stored_own).
    split; [apply stored_store|done]. }
  destruct H as [? ? ? ? ? Hws|kr before sent late Ht Hf Hl|kr before late Hp Hl].
  - rewrite Hws in Hin. by apply elem_of_nil in Hin.
  - simpl. rewrite <- !app_assoc. simpl. rewrite <- app_assoc. simpl.
    apply (fin_failure _ _ _ kr before sent); [done|done|]. by apply Forall_app.
  - simpl. rewrite <- !app_assoc. simpl. apply fin_cancelled; [done|]. by apply Forall_app.
Qed.

(** ** Every history keeps every story *)

Definition stories (s : t) (g : wghost) : Prop := 1 <= nextKvRequestId_ s /\ forall id, story s g id.

(** An operation on [id] that continues its story leaves the others alone. *)
Lemma acts_stories id f s g :
  acts id f -> stories s g ->
  (story s g id -> story (snd (f s)) (witness_effects (fst (f s)) g) id) ->
  stories (snd (f s)) (witness_effects (fst (f s)) g).
Proof.
  intros Ha [Hn H] Hf. specialize (Ha s g). split; [by destruct Ha as [-> _]|].
  intros id'. destruct (decide (id' = id)) as [->|Hne]; [by apply Hf|]. by eapply only_story.
Qed.

Lemma pump_stories id s g :
  stories s g ->
  let r := pumpWorkerAttentionKvDelivery c accepts id s in
  stories (snd r) (witness_effects (fst r) g).
Proof. intros H. apply (acts_stories id); [apply pump_acts|done|apply pump_story]. Qed.

Lemma complete_stories id s g :
  stories s g ->
  let r := completeWorkerAttentionKvDelivery c id false s in
  stories (snd r) (witness_effects (fst r) g).
Proof. intros H. apply (acts_stories id); [apply complete_acts|done|apply complete_false_story]. Qed.

Lemma tick_stories ids s g :
  stories s g ->
  let r := tick c accepts ids s in stories (snd r) (witness_effects (fst r) g).
Proof.
  revert s g. induction ids as [|id ids IH]; intros s g H; simpl; [by rewrite witness_nil|].
  pose proof (pump_stories id s g H) as H1. cbv zeta in H1.
  destruct (pumpWorkerAttentionKvDelivery c accepts id s) as [o s1]. simpl in H1.
  specialize (IH s1 _ H1). cbv zeta in IH. destruct (tick c accepts ids s1) as [o' s2]. simpl in *.
  by rewrite witness_app.
Qed.

(** More messages received. *)
Lemma got_story s tr ws ms m id :
  story s (mkWGhost tr ws ms) id -> story s (mkWGhost tr ws (ms ++ [m])) id.
Proof.
  unfold story, live_story. simpl. destruct (workerKvCallbacks_ s !! id) as [cb|].
  - intros [Hid H]. split; [done|]. destruct (workerKvDeliveries_ s !! id) as [d|]; [|done].
    destruct H as (Ht & Hs & (m' & Hm & H') & H). split; [done|]. split; [done|]. split; [|exact H].
    exists m'. split; [apply elem_of_app; by left|done].
  - intros [Hd H]. split; [done|]. case_bool_decide; [|done]. destruct H; econstructor; try done.
    apply elem_of_app. by left.
Qed.

Lemma bad_delivery_false m s :
  bad_delivery c m s = false ->
  is_Some (workerKvCallbacks_ s !! Msg.reqSeq m) /\ Msg.status m <> 0.
Proof.
  unfold bad_delivery. rewrite !orb_false_iff, !Z.eqb_neq. intros ((((_ & H) & Hst) & _) & _).
  split; [|done]. by destruct (workerKvCallbacks_ s !! Msg.reqSeq m).
Qed.

Lemma delivery_stories m s g :
  stories s g ->
  let r := handleAttentionKvDelivery c accepts m s in
  stories (snd r) (witness_effects (fst r) (mkWGhost (trace g) (writes g) (got g ++ [m]))).
Proof.
  intros [Hn H]. destruct g as [tr ws ms].
  assert (stories s (mkWGhost tr ws (ms ++ [m]))) as [_ H'] by (split; [done|]; intros id; by apply got_story).
  cbv zeta. unfold handleAttentionKvDelivery. destruct (bad_delivery c m s) eqn:Eb.
  { destruct (workerKvCallbacks_ s !! Msg.reqSeq m); [by apply complete_stories|].
    simpl. by rewrite witness_nil. }
  apply pump_stories. apply bad_delivery_false in Eb as [[cb Hcb] Hst]. split; [done|]. intros id.
  specialize (H' id). unfold story, emplace in *. simpl in *.
  destruct (workerKvDeliveries_ s !! Msg.reqSeq m) as [d|] eqn:Ed; [exact H'|].
  destruct (decide (id = Msg.reqSeq m)) as [->|Hne]; [|by rewrite lookup_insert_ne].
  rewrite lookup_insert_eq, Hcb in *. rewrite Ed in H'. destruct H' as (Hid & -> & Hs & ->).
  split; [done|]. split; [done|]. split; [done|]. split; [|split; [|done]].
  2: { change (0 <= 0 <= Z.of_nat (length (Msg.kData m))). lia. }
  exists m. split_and!; try done. apply elem_of_app. right. by left.
Qed.

Lemma request_stories r hasCallback kReady s g :
  stories s g -> nextKvRequestId_ s + 1 < 2 ^ 64 ->
  let q := requestAttentionKvPair c r hasCallback kReady s in
  stories (snd (snd q)) (witness_effects (fst (snd q))
    (mkWGhost (trace g ++ if fst q then [Registered (nextKvRequestId_ s) kReady] else [])
       (writes g) (got g))).
Proof.
  intros [Hn H] Hb. cbv zeta. unfold requestAttentionKvPair.
  assert (stories s (witness_effects [] (mkWGhost (trace g ++ []) (writes g) (got g)))) as Hskip.
  { rewrite witness_nil, app_nil_r. by destruct g. }
  destruct (invalid_pair c r hasCallback s); [exact Hskip|]. cbv zeta.
  destruct (_ || _); [exact Hskip|]. simpl fst. simpl snd.
  set (id := nextKvRequestId_ s). assert (id ⊞ 1 = id + 1) as Hid by (unfold id; mach_lia).
  pose proof (H id) as Hown. unfold story in Hown.
  destruct (workerKvCallbacks_ s !! id) as [cb|] eqn:Ecb; [unfold id in Hown; lia|].
  destruct Hown as [Hd Hnone]. rewrite bool_decide_false in Hnone by (unfold id; lia).
  destruct Hnone as [Ht Hw]. split; [simpl; rewrite Hid; lia|]. intros id'.
  unfold story, emplace. simpl. rewrite Ecb, Hid, !app_nil_r, of_id_app.
  destruct (decide (id' = id)) as [->|Hne].
  - rewrite lookup_insert_eq, Hd, Ht, Hw. simpl.
    split; [lia|]. split; [|done]. apply of_id_own. by repeat constructor.
  - rewrite lookup_insert_ne by done. rewrite (of_id_other id id' [_]), app_nil_r by (done || by repeat constructor).
    pose proof (H id') as Hs. unfold story in Hs. fold id in Hs.
    destruct (workerKvCallbacks_ s !! id') as [cb|]; [split; [lia|apply Hs]|].
    split; [apply Hs|]. destruct Hs as [_ Hs].
    rewrite (bool_decide_ext (1 <= id' < id + 1) (1 <= id' < id)) by lia. exact Hs.
Qed.

Lemma only_wrote s l1 w l2 ok tr ms s' :
  only (w_id w) s (mkWGhost tr (l1 ++ w :: l2) ms) s' (mkWGhost tr (l1 ++ w :: l2) ms) ->
  only (w_id w) s (mkWGhost tr (l1 ++ w :: l2) ms) s' (wrote w ok (mkWGhost tr (l1 ++ l2) ms)).
Proof.
  intros (Hn & Hg & H). split_and!; [done|done|]. intros id' Hne.
  destruct (H id' Hne) as (Hc & Hd & _). split_and!; [done|done|..]; simpl.
  - rewrite of_id_app. destruct ok; [|by rewrite app_nil_r].
    rewrite (of_id_other (w_id w) id' (stored _ _ _)), app_nil_r; [done|done|apply stored_own].
  - rewrite !writes_of_app. unfold writes_of. by rewrite (filter_cons_False _ w).
Qed.

Lemma stories_only id s g s' g' :
  stories s g -> only id s g s' g' -> story s' g' id -> stories s' g'.
Proof.
  intros [Hn H] Ho Hs. split; [by destruct Ho as [-> _]|]. intros id'.
  destruct (decide (id' = id)) as [->|Hne]; [done|]. by eapply only_story.
Qed.

Lemma singleton_split {A} (l1 l2 : list A) (x y : A) :
  l1 ++ x :: l2 = [y] -> x = y /\ l1 = [] /\ l2 = [].
Proof. destruct l1 as [|a [|b l1]]; intros [= ]; subst; done. Qed.

Lemma write_stories s g l1 w l2 ok :
  stories s g -> writes g = l1 ++ w :: l2 ->
  let r := completeLocalWrite c accepts (w_id w) (w_tag w) (Z.of_nat (length (w_data w))) ok (w_tag w) s in
  stories (snd r) (witness_effects (fst r) (wrote w ok (mkWGhost (trace g) (l1 ++ l2) (got g)))).
Proof.
  destruct g as [tr ws ms]. simpl. intros H ->. cbv zeta. pose proof (proj2 H (w_id w)) as Hs.
  assert (w ∈ writes_of (w_id w) (l1 ++ w :: l2)) as Hin.
  { apply list_elem_of_filter. split; [done|]. apply elem_of_app. right. by left. }
  unfold completeLocalWrite. destruct (workerKvDeliveries_ s !! w_id w) as [d|] eqn:Ed.
  2: { simpl. rewrite witness_nil. eapply stories_only; [exact H|apply only_wrote, only_refl|].
       eapply (late_story s (mkWGhost tr (l1 ++ w :: l2) ms)); done. }
  assert (inflight d = true /\ writes_of (w_id w) (l1 ++ w :: l2) = [w] /\
          writes_of (w_id w) (l1 ++ l2) = []) as (Hi & Hw & Hw').
  { unfold story in Hs. rewrite Ed in Hs. destruct (workerKvCallbacks_ s !! w_id w); [|by destruct Hs].
    destruct Hs as (_ & _ & _ & _ & _ & Hws). simpl in Hws.
    destruct (inflight d); [|rewrite Hws in Hin; by apply elem_of_nil in Hin].
    destruct Hws as (n & tag & Hws). rewrite writes_of_app in Hws |- *.
    unfold writes_of in *. rewrite filter_cons_True in Hws |- * by done.
    apply singleton_split in Hws as (_ & E1 & E2). by rewrite filter_app, E1, E2. }
  cbv zeta. rewrite Z.eqb_refl, orb_false_r. destruct ok; simpl.
  - apply pump_stories. eapply stories_only; [exact H|apply only_wrote; own_update|].
    by eapply (landed_story s (mkWGhost tr (l1 ++ w :: l2) ms)).
  - apply complete_stories. eapply stories_only; [exact H|apply only_wrote; own_update|].
    by eapply (failed_story s (mkWGhost tr (l1 ++ w :: l2) ms)).
Qed.

Lemma of_id_cancelled id (X : gset Z) :
  of_id id (map Cancelled (elements X)) = if bool_decide (id ∈ X) then [Cancelled id] else [].
Proof.
  assert (forall l, NoDup l -> of_id id (map Cancelled l) = if bool_decide (id ∈ l) then [Cancelled id] else [])
    as H.
  { induction 1 as [|x l Hx _ IH]; [done|]. unfold of_id in *. simpl.
    destruct (decide (x = id)) as [->|Hne].
    - rewrite filter_cons_True, IH by done. rewrite bool_decide_false by done.
      by rewrite bool_decide_true by (by left).
    - rewrite filter_cons_False by done. rewrite IH.
      rewrite (bool_decide_ext (id ∈ x :: l) (id ∈ l)); [done|]. rewrite elem_of_cons.
      split; [by intros [->|]|by right]. }
  rewrite (H (elements X)) by apply NoDup_elements.
  by rewrite (bool_decide_ext (id ∈ elements X) (id ∈ X)) by apply elem_of_elements.
Qed.

Lemma cancelled_ids_spec generation s id :
  id ∈ cancelled_ids generation s <->
  exists cb, workerKvCallbacks_ s !! id = Some cb /\ cb_generation cb = generation.
Proof.
  unfold cancelled_ids. rewrite elem_of_dom. split.
  - intros [cb [Hcb Hg]%map_lookup_filter_Some]. by exists cb.
  - intros (cb & Hcb & Hg). exists cb. by apply map_lookup_filter_Some.
Qed.

Lemma live_pending id cb od tr ws ms :
  live_story id cb od tr ws ms ->
  exists before, tr = Registered id (hasKReady cb) :: before /\ Forall pending_obs before.
Proof.
  assert (forall a data, Forall pending_obs (stored id a data)) as Hs.
  { intros a data. eapply Forall_impl; [apply (stored_store id a data)|]. by intros []. }
  destruct od as [d|]; simpl.
  - intros (-> & _). eexists. split; [done|]. unfold progress, delivery_of, k_ready.
    destruct (writingV d); [|apply Hs]. rewrite !Forall_app. split_and!; try apply Hs.
    destruct (hasKReady cb); by repeat constructor.
  - intros (-> & _). exists []. split; [done|constructor].
Qed.

Lemma cancel_stories generation s g :
  stories s g ->
  let q := cancelAttentionKvGeneration c generation s in
  stories (snd (snd q)) (witness_effects (fst (snd q))
    (mkWGhost (trace g ++ if negb (attentionKvDistributionEnable_ c) || (generation =? 0) then []
                 else map Cancelled (elements (cancelled_ids generation s))) (writes g) (got g))).
Proof.
  intros [Hn H]. cbv zeta. unfold cancelAttentionKvGeneration.
  destruct (_ || _); simpl fst; simpl snd.
  { rewrite witness_nil, app_nil_r. by destruct g. }
  split; [done|]. intros id. specialize (H id). unfold story in *. simpl.
  rewrite !app_nil_r, of_id_app, of_id_cancelled.
  destruct (decide (id ∈ cancelled_ids generation s)) as [Hc|Hc];
    [rewrite (bool_decide_true (id ∈ _)) by done|rewrite (bool_decide_false (id ∈ _)) by done].
  - pose proof Hc as (cb & Hcb & Hg)%cancelled_ids_spec. rewrite Hcb in H. destruct H as [Hid H].
    rewrite (map_lookup_filter_None_2 (M := gmap Z)).
    2: { right. intros x E. rewrite Hcb in E. injection E as <-. simpl. by intros ?. }
    rewrite (map_lookup_filter_None_2 (M := gmap Z)) by (right; intros x _; simpl; auto).
    split; [done|]. rewrite bool_decide_true by done.
    apply live_pending in H as (before & -> & Hb). simpl. apply (fin_cancelled _ _ _ _ _ []); [done|constructor].
  - rewrite app_nil_r.
    assert (forall (m : gmap Z WorkerKvDelivery),
      filter (fun '(i, _) => i ∉ cancelled_ids generation s) m !! id = m !! id) as ->.
    { intros m. destruct (m !! id) as [d|] eqn:E.
      - apply map_lookup_filter_Some. done.
      - apply map_lookup_filter_None. by left. }
    destruct (workerKvCallbacks_ s !! id) as [cb|] eqn:Ecb.
    + rewrite (map_lookup_filter_Some_2 _ _ id cb); [exact H|done|].
      simpl. intros Hg. apply Hc, cancelled_ids_spec. by exists cb.
    + rewrite (map_lookup_filter_None_2 (M := gmap Z)) by (by left). exact H.
Qed.

Lemma history_stories s g : worker_history s g -> stories s g.
Proof.
  induction 1 as [|s g r hc kr ok o s' _ IH Hb E|s g m o s' _ IH E|s g l1 w l2 ok o s' _ IH Hw E
    |s g ids o s' _ IH E|s g gen n o s' _ IH E].
  - split; [done|]. intros id. unfold story. simpl. rewrite !lookup_empty. split; [done|].
    by rewrite bool_decide_false by lia.
  - pose proof (request_stories r hc kr s g IH Hb) as R. by rewrite E in R.
  - pose proof (delivery_stories m s g IH) as R. by rewrite E in R.
  - pose proof (write_stories s g l1 w l2 ok IH Hw) as R. by rewrite E in R.
  - pose proof (tick_stories ids s g IH) as R. by rewrite E in R.
  - pose proof (cancel_stories gen s g IH) as R. by rewrite E in R.
Qed.

(** C14. The story of a request.  In every history of the worker, whatever is
    delivered, in whatever order the memory answers and whoever cancels, a
    registered request is either still registered, with neither an
    acknowledgement nor a callback so far, or it ended exactly once: it was
    cancelled, and nothing runs afterwards; it failed, with one
    acknowledgement followed by its callback and exactly one K-ready
    notification if it has one; or it succeeded, and its trace is then exactly
    every byte of K at its address and in order, the K-ready notification,
    every byte of V, the acknowledgement and the callback. *)
Theorem worker_request_story (s : t) (g : wghost) (id : Z) :
  worker_history s g -> 1 <= id < nextKvRequestId_ s ->
  (is_Some (workerKvCallbacks_ s !! id) /\
   exists kReady before, of_id id (trace g) = Registered id kReady :: before /\ Forall pending_obs before) \/
  (workerKvCallbacks_ s !! id = None /\ workerKvDeliveries_ s !! id = None /\
   finished id (got g) (writes_of id (writes g)) (of_id id (trace g))).
Proof.
  intros [_ H]%history_stories Hid. specialize (H id). unfold story in H.
  destruct (workerKvCallbacks_ s !! id) as [cb|].
  - left. split; [by exists cb|]. destruct H as [_ (before & Ht & Hb)%live_pending]. by eexists _, _.
  - right. rewrite bool_decide_true in H by done. by destruct H.
Qed.

End History.

(** ** A delivery terminates *)

Section Termination.
Variable c : Config.
Hypothesis Hmax : 0 < localMaxRequestBytes c.

Let accepts (_ : Z) := true.

(** The memory carries out [n] writes, each the one just issued. *)
Fixpoint serve (n : nat) (r : list effect * t) : list effect * t :=
  match n with
  | O => r
  | S n =>
      match last (omap write_of (fst r)) with
      | None => r
      | Some w =>
          let r' := completeLocalWrite c accepts (w_id w) (w_tag w) (Z.of_nat (length (w_data w)))
                      true (w_tag w) (snd r) in
          serve n r'
      end
  end.

Definition remaining (d : WorkerKvDelivery) : Z :=
  if writingV d then Z.of_nat (length (dl_vData d)) - offset d
  else Z.of_nat (length (dl_kData d)) - offset d + Z.of_nat (length (dl_vData d)).

Definition in_bounds (d : WorkerKvDelivery) : Prop :=
  0 <= offset d <= Z.of_nat (length (if writingV d then dl_vData d else dl_kData d)).

(** What one call of the pump leads to: the request is over, or a write of at
    least one byte is on its way. *)
Inductive outcome (id : Z) (n : Z) : list effect * t -> Prop :=
| over pre s :
    omap write_of pre = [] -> workerKvCallbacks_ s !! id = None -> workerKvDeliveries_ s !! id = None ->
    outcome id n (pre ++ [Done id true], s)
| under_way pre a data tag s d cb :
    omap write_of pre = [] ->
    workerKvDeliveries_ s !! id = Some d -> workerKvCallbacks_ s !! id = Some cb ->
    remaining d = n -> in_bounds d -> data <> [] ->
    Z.of_nat (length data) <= Z.of_nat (length (if writingV d then dl_vData d else dl_kData d)) - offset d ->
    outcome id n (pre ++ [LocalWrite a data tag id], s).

Lemma write_outcome id d s cb pre :
  omap write_of pre = [] ->
  workerKvDeliveries_ s !! id = Some d -> workerKvCallbacks_ s !! id = Some cb -> in_bounds d ->
  offset d <> Z.of_nat (length (if writingV d then dl_vData d else dl_kData d)) ->
  let r := write_chunk c accepts id d s in outcome id (remaining d) (pre ++ fst r, snd r).
Proof.
  intros Hpre Hd Hc Hb Ho. unfold in_bounds in Hb. cbv zeta. unfold write_chunk. simpl fst. simpl snd.
  apply (under_way id _ _ _ _ _ _ (d <| inflight := true |>) cb); try done.
  - simpl. apply lookup_insert_eq.
  - intros E%(f_equal length). rewrite length_take, length_drop in E. simpl in E. lia.
  - rewrite length_take, length_drop. simpl. lia.
Qed.

Lemma complete_outcome id s cb pre n :
  omap write_of pre = [] -> workerKvCallbacks_ s !! id = Some cb ->
  let r := completeWorkerAttentionKvDelivery c id true s in outcome id n (pre ++ fst r, snd r).
Proof.
  intros Hpre Hc. cbv zeta. unfold completeWorkerAttentionKvDelivery. rewrite Hc. simpl.
  rewrite app_comm_cons, app_assoc. apply over; simpl; rewrite ?lookup_delete_eq; try done.
  rewrite omap_app, Hpre. simpl. by destruct (negb (kReadySent cb) && hasKReady cb).
Qed.

Lemma pump_outcome id d s cb :
  workerKvDeliveries_ s !! id = Some d -> workerKvCallbacks_ s !! id = Some cb ->
  in_bounds d -> inflight d = false ->
  outcome id (remaining d) (pumpWorkerAttentionKvDelivery c accepts id s).
Proof.
  intros Hd Hc Hb Hi. unfold pumpWorkerAttentionKvDelivery. rewrite pump_S, Hd, Hi.
  pose proof (write_outcome id d s cb [] eq_refl Hd Hc Hb) as Hw. cbv zeta in Hw.
  destruct (_ =? _) eqn:Eo; [apply Z.eqb_eq in Eo|apply Z.eqb_neq in Eo].
  2: { specialize (Hw Eo). by destruct (write_chunk c accepts id d s). }
  destruct (writingV d) eqn:Ev.
  { pose proof (complete_outcome id s cb [] (remaining d) eq_refl Hc) as H. cbv zeta in H.
    by destruct (completeWorkerAttentionKvDelivery c id true s). }
  rewrite Hc. cbv zeta. set (pre := if _ && _ then _ else _).
  assert (omap write_of pre = []) as Hpre by (unfold pre; by destruct (_ && _)).
  set (d' := d <| writingV := true |> <| offset := 0 |>).
  assert (remaining d = remaining d') as Hr.
  { unfold remaining, d'. simpl. rewrite Ev. lia. }
  assert (in_bounds d') as Hb' by (unfold in_bounds, d'; simpl; lia).
  assert (workerKvDeliveries_ (turned id cb d s) !! id = Some d') as Hd' by apply lookup_insert_eq.
  assert (workerKvCallbacks_ (turned id cb d s) !! id = Some (cb <| kReadySent := true |>)) as Hc'
    by apply lookup_insert_eq.
  rewrite pump_S, Hd', Hr. simpl (inflight d'). rewrite Hi. simpl (writingV d').
  destruct (offset d' =? _) eqn:Eo'; [by apply (complete_outcome id _ _ pre _ Hpre Hc')|].
  apply Z.eqb_neq in Eo'. by apply (write_outcome id d' _ _ pre Hpre Hd' Hc' Hb').
Qed.

Lemma landed_outcome id n a data tag s d cb :
  workerKvDeliveries_ s !! id = Some d -> workerKvCallbacks_ s !! id = Some cb ->
  remaining d = n -> in_bounds d -> data <> [] ->
  Z.of_nat (length data) <= Z.of_nat (length (if writingV d then dl_vData d else dl_kData d)) - offset d ->
  let w := mkWrite a data tag id in
  outcome id (n - Z.of_nat (length data))
    (completeLocalWrite c accepts (w_id w) (w_tag w) (Z.of_nat (length (w_data w))) true (w_tag w) s) /\
  0 <= n - Z.of_nat (length data) < n.
Proof.
  intros Hd Hc Hr Hb Hne Hl. cbv zeta. simpl. unfold in_bounds in Hb.
  assert (0 < Z.of_nat (length data)) by (destruct data; [done|simpl; lia]). split.
  2: { unfold remaining in Hr. destruct (writingV d); lia. }
  unfold completeLocalWrite. rewrite Hd, Z.eqb_refl. simpl negb. simpl orb. cbv iota.
  set (d' := (d <| inflight := false |>) <| offset := offset d + Z.of_nat (length data) |>).
  assert (n - Z.of_nat (length data) = remaining d') as ->.
  { unfold remaining in *. unfold d'. simpl. destruct (writingV d); lia. }
  apply (pump_outcome id d' _ cb); simpl; [apply lookup_insert_eq|done| |done].
  unfold in_bounds, d'. simpl. lia.
Qed.

Lemma serve_outcome id n r :
  0 <= n -> outcome id n r ->
  exists k pre s, Z.of_nat k <= n /\ serve k r = (pre ++ [Done id true], s) /\
    workerKvCallbacks_ s !! id = None /\ workerKvDeliveries_ s !! id = None.
Proof.
  intros Hn. revert r. pattern n. apply (Zlt_0_ind _); [clear n Hn; intros n IH Hn r|exact Hn].
  intros [pre s Hpre Hc Hd|pre a data tag s d cb Hpre Hd Hc Hr Hb Hne Hl].
  { exists O, pre, s. split_and!; [lia|done..]. }
  pose proof (landed_outcome id n a data tag s d cb Hd Hc Hr Hb Hne Hl) as [Ho Hlt]. cbv zeta in Ho.
  destruct (IH _ Hlt _ Ho) as (k & pre' & s' & Hk & Hs & Hc' & Hd').
  exists (S k), pre', s'. split; [lia|]. split; [|done].
  simpl. rewrite omap_app, Hpre. simpl. exact Hs.
Qed.

(** A delivery terminates.  For a request that has no delivery yet and the
    message that answers it, a memory that accepts and carries out every write
    brings the request to its successful callback, after at most as many
    writes as the two tiles have bytes; request and delivery are then
    forgotten.  In particular the two levels of recursion of the pump are all
    it needs. *)
Theorem worker_delivery_terminates (m : Msg.t) (s : t) :
  bad_delivery c m s = false ->
  workerKvDeliveries_ s !! Msg.reqSeq m = None ->
  exists k pre s', Z.of_nat k <= Z.of_nat (length (Msg.kData m)) + Z.of_nat (length (Msg.vData m)) /\
    serve k (handleAttentionKvDelivery c accepts m s) = (pre ++ [Done (Msg.reqSeq m) true], s') /\
    workerKvCallbacks_ s' !! Msg.reqSeq m = None /\ workerKvDeliveries_ s' !! Msg.reqSeq m = None.
Proof.
  intros Hb Hd. apply serve_outcome; [lia|]. unfold handleAttentionKvDelivery. rewrite Hb.
  apply bad_delivery_false in Hb as [[cb Hcb] _]. unfold emplace. rewrite Hd.
  set (d := mkDelivery _ _ _ _ _ _ _ _).
  assert (Z.of_nat (length (Msg.kData m)) + Z.of_nat (length (Msg.vData m)) = remaining d) as ->.
  { unfold remaining. simpl. lia. }
  apply (pump_outcome _ d _ cb); simpl; [apply lookup_insert_eq|done| |done].
  unfold in_bounds. simpl. lia.
Qed.

End Termination.

(** ** A run *)

Definition demo_worker : Config := mkConfig 0 1 4 true 1024 3.
Definition demo_pair : KvRequest.t :=
  KvRequest.mk 5 0 0 2 2 4 4 1 1 1 1 4 0x100000 0x200000 0x300 0x400.

Definition demo_delivery (id : Z) : Msg.t :=
  (Msg.make ATTENTION_KV_DELIVERY) <| Msg.reqSeq := id |> <| Msg.generation := 5 |>
    <| Msg.status := 1 |> <| Msg.kDstAddr := 0x300 |> <| Msg.vDstAddr := 0x400 |>
    <| Msg.kData := [1; 2; 3; 4] |> <| Msg.vData := [5; 6; 7; 8] |>.

Definition yes (_ : Z) := true.
Definition demo_s1 : t := snd (snd (requestAttentionKvPair demo_worker demo_pair true true init)).

Lemma worker_delivery_terminates_witness :
  bad_delivery demo_worker (demo_delivery 1) demo_s1 = false /\
  exists k pre s', Z.of_nat k <= 8 /\
    serve demo_worker k (handleAttentionKvDelivery demo_worker yes (demo_delivery 1) demo_s1) =
      (pre ++ [Done 1 true], s') /\
    workerKvCallbacks_ s' !! 1 = None /\ workerKvDeliveries_ s' !! 1 = None.
Proof.
  split; [by vm_compute|].
  apply (worker_delivery_terminates demo_worker ltac:(done) (demo_delivery 1) demo_s1); by vm_compute.
Defined.

(** The memory carries out the oldest write. *)
Definition next_write (w : t * wghost) : t * wghost :=
  match writes (snd w) with
  | [] => w
  | x :: l =>
      let r := completeLocalWrite demo_worker yes (w_id x) (w_tag x) (Z.of_nat (length (w_data x))) true
                 (w_tag x) (fst w) in
      (snd r, witness_effects (fst r) (wrote x true (mkWGhost (trace (snd w)) l (got (snd w)))))
  end.

Lemma next_write_history w :
  worker_history demo_worker yes (fst w) (snd w) ->
  worker_history demo_worker yes (fst (next_write w)) (snd (next_write w)).
Proof.
  intros H. unfold next_write. destruct (writes (snd w)) as [|x l] eqn:E; [done|].
  eapply (wh_write demo_worker yes _ _ [] x l true); [exact H|exact E|apply surjective_pairing].
Qed.

Definition demo_start : t * wghost :=
  let r := requestAttentionKvPair demo_worker demo_pair true true init in
  let d := handleAttentionKvDelivery demo_worker yes (demo_delivery 1) (snd (snd r)) in
  (snd d, witness_effects (fst d) (mkWGhost [Registered 1 true] [] [demo_delivery 1])).

Lemma demo_start_history : worker_history demo_worker yes (fst demo_start) (snd demo_start).
Proof.
  assert (worker_history demo_worker yes demo_s1 (mkWGhost [Registered 1 true] [] [])) as H.
  { pose proof (wh_request demo_worker yes init (mkWGhost [] [] []) demo_pair true true true
      (fst (snd (requestAttentionKvPair demo_worker demo_pair true true init))) demo_s1) as H.
    apply H; [constructor|done|]. unfold demo_s1.
    by destruct (requestAttentionKvPair demo_worker demo_pair true true init) as [[] [? ?]] eqn:E;
      vm_compute in E. }
  pose proof (wh_delivery demo_worker yes demo_s1 _ (demo_delivery 1) _ _ H (surjective_pairing _)) as H2.
  exact H2.
Qed.

Lemma demo_served n :
  let w := Nat.iter n next_write demo_start in worker_history demo_worker yes (fst w) (snd w).
Proof.
  induction n as [|n IH]; [exact demo_start_history|]. cbv zeta. rewrite Nat.iter_succ.
  by apply next_write_history.
Qed.

Definition demo_end : t * wghost := Nat.iter 4 next_write demo_start.

Lemma worker_request_story_witness :
  worker_history demo_worker yes (fst demo_end) (snd demo_end) /\
  finished 1 (got (snd demo_end)) (writes_of 1 (writes (snd demo_end))) (of_id 1 (trace (snd demo_end))) /\
  last (trace (snd demo_end)) = Some (CallbackRan 1 true).
Proof.
  assert (worker_history demo_worker yes (fst demo_end) (snd demo_end)) as H
    by exact (demo_served 4).
  split; [exact H|]. split; [|by vm_compute].
  destruct (worker_request_story demo_worker yes _ _ 1 H) as [[[cb Hcb] _]|(_ & _ & Hf)].
  - split; [done|by vm_compute].
  - assert (workerKvCallbacks_ (fst demo_end) !! 1 = None) as E by (by vm_compute).
    rewrite E in Hcb. discriminate Hcb.
  - exact Hf.
Defined.

(** ** Both halves: a cancellation that leaves a slot occupied *)

Definition sent_to (w : Z) (o : list Kv.effect) : list Msg.t :=
  omap (fun e => match e with Kv.Send w' m => if w' =? w then Some m else None | _ => None end) o.
Definition sent (o : list effect) : list Msg.t :=
  omap (fun e => match e with Send m => Some m | _ => None end) o.

Definition strand_worker : Config := mkConfig 0 0 4 true 64 64.
Definition strand_pair (generation tile : Z) : KvRequest.t :=
  KvRequest.mk generation 0 0 tile tile 4 4 1 1 2 1 0x1000 0x80000 0x90000 0x300 0x340.

(** The worker asks for two tiles of generation 5, cancels the generation and
    asks for a tile of generation 6. *)
Definition strand_requests : list Msg.t * t :=
  let r1 := snd (requestAttentionKvPair strand_worker (strand_pair 5 2) true true init) in
  let r2 := snd (requestAttentionKvPair strand_worker (strand_pair 5 3) true true (snd r1)) in
  let r3 := snd (cancelAttentionKvGeneration strand_worker 5 (snd r2)) in
  let r4 := snd (requestAttentionKvPair strand_worker (strand_pair 6 0) true true (snd r3)) in
  (sent (fst r1 ++ fst r2 ++ fst r3 ++ fst r4), snd r4).

(** The manager, with one slot, receives the messages in order. *)
Definition manager_step (m : Msg.t) : Kv.cmd :=
  match Msg.type m with
  | ATTENTION_KV_REQUEST => Kv.handleAttentionKvRequest demo_kv m 0
  | ATTENTION_KV_ACK => Kv.handleAttentionKvAck demo_kv m 0
  | ATTENTION_KV_CANCEL => Kv.handleAttentionKvCancel demo_kv m 0
  | _ => Kv.skip
  end.
Definition manager_run (ms : list Msg.t) (s : Kv.t) : list Kv.effect * Kv.t :=
  foldl (fun '(o, s) m => let '(o', s') := manager_step m s in (o ++ o', s')) ([], s) ms.

(** The memory carries out the transfers and the read of K and V of slot 0. *)
Definition manager_serve (s : Kv.t) : list Kv.effect * Kv.t :=
  let e := Kv.epoch (Kv.slot_at 0 s) in
  let load v s := Kv.completeAttentionKvDma demo_kv (fun _ => true) 0 e v true s in
  let r1 := load false s in
  let r2 := load true (snd r1) in
  let k := Kv.completeLocalRead demo_kv (fun _ => true) 0 e 1 true 1 [1; 2; 3; 4] (snd r2) in
  let v := Kv.completeLocalRead demo_kv (fun _ => true) 0 e 2 true 2 [5; 6; 7; 8] (snd k) in
  (fst r1 ++ fst r2 ++ fst k ++ fst v, snd v).

Definition strand_end : list Kv.effect * Kv.t :=
  manager_serve (snd (manager_run (fst strand_requests) (Kv.init demo_kv))).

End WorkerFacts.
