(* ===== verification/LocalMem.v ===== *)
(** * Local accesses to a core's global memory

    Models the asynchronous local read and write path of
    golem/globalmemory/globalmemory.cc: bounded queue, one FIFO per direction
    feeding a fixed number of ports, service latency through events on a self
    link, generation fencing and cancellation.  A callback is named by the
    closure it stands for; the operation that would run it returns it with its
    arguments.

    The theorems are about every interleaving of submissions, events and
    cancellations: the state is well formed and the ports are never
    oversubscribed nor left idle while work waits; every accepted access is
    answered exactly once, after finitely many events; an answered read returns
    the bytes stored when it is served, and a write changes exactly its range.
    No access ever reaches the fatal exit of the interval statistics. *)

From S2P Require Import Prelude Telemetry Cluster GroupMsg.

Module LocalMem.

Inductive LocalMemoryClient := CDma | CRoCC | CSFU | CWCP | CControl.

Record Config := mkConfig {
  localAccessBaseLatencyCycles_ : Z;
  localAccessBytesPerCycle_ : Z;
  localAccessReadPorts_ : Z;
  localAccessWritePorts_ : Z;
  localAccessQueueDepth_ : Z;
  localAccessMaxRequestBytes_ : Z;
  attentionClusterEnable_ : bool
}.

(** The constructor's test: every parameter is positive. *)
Definition parameters_ok (c : Config) : bool :=
  negb ((localAccessBaseLatencyCycles_ c =? 0) || (localAccessBytesPerCycle_ c =? 0) ||
        (localAccessReadPorts_ c =? 0) || (localAccessWritePorts_ c =? 0) ||
        (localAccessQueueDepth_ c =? 0) || (localAccessMaxRequestBytes_ c =? 0)).

Inductive Kind := Read | Write.
#[global] Instance kind_eq_dec : EqDecision Kind.
Proof. solve_decision. Defined.

(** The closures passed as callbacks: one of a client component, that of a DMA
    landing, that of a DMA transfer from this memory. *)
Inductive Callback :=
| Client (n : Z)
| DmaLanding (chunkBytes : Z)
| DmaSource (transfer chunkBytes : Z).

Record PendingLocalAccess := mkAccess {
  kind : Kind;
  requestId : Z;
  addr : Z;
  length : Z;
  client : LocalMemoryClient;
  tag : Z;
  submitCycle : Z;
  ownerGeneration : Z;
  issued : bool;
  cancelled : bool;
  writeData : list Z;
  callback : Callback
}.
#[global] Instance eta_access : Eta PendingLocalAccess := fun r =>
  mkAccess (kind r) (requestId r) (addr r) (length r) (client r) (tag r) (submitCycle r)
    (ownerGeneration r) (issued r) (cancelled r) (writeData r) (callback r).

Record t := mk {
  storage : Storage.t;
  localReadsInFlight_ : Z;
  localWritesInFlight_ : Z;
  nextLocalAccessRequestId_ : Z;
  localAccessQueueHighWater_ : Z;
  localReadRequests_ : Z;
  localWriteRequests_ : Z;
  localReadBytes_ : Z;
  localWriteBytes_ : Z;
  localQueueRejected_ : Z;
  localReadQueueCycles_ : Z;
  localWriteQueueCycles_ : Z;
  attentionGenerationFence_ : Fence.t;
  attentionClusterLocalReadIntervals_ : BusyIntervalUnion.t;
  attentionClusterLocalWriteIntervals_ : BusyIntervalUnion.t;
  localReadQueue_ : list Z;
  localWriteQueue_ : list Z;
  localAccessPending_ : gmap Z PendingLocalAccess
}.
#[global] Instance eta_t : Eta t := fun s =>
  mk (storage s) (localReadsInFlight_ s) (localWritesInFlight_ s) (nextLocalAccessRequestId_ s)
    (localAccessQueueHighWater_ s) (localReadRequests_ s) (localWriteRequests_ s)
    (localReadBytes_ s) (localWriteBytes_ s) (localQueueRejected_ s) (localReadQueueCycles_ s)
    (localWriteQueueCycles_ s) (attentionGenerationFence_ s) (attentionClusterLocalReadIntervals_ s)
    (attentionClusterLocalWriteIntervals_ s) (localReadQueue_ s) (localWriteQueue_ s)
    (localAccessPending_ s).

Definition init (m : Storage.t) : t :=
  mk m 0 0 1 0 0 0 0 0 0 0 0 Fence.init BusyIntervalUnion.init BusyIntervalUnion.init [] [] ∅.

(** An event sent to the self link, or the fatal exit. *)
Inductive effect :=
| Event (delay : Z) (requestId : Z)
| Fatal.

Definition base (s : t) : Z := Storage.baseAddr (storage s).
Definition size (s : t) : Z := Storage.size (storage s).

(** *** Synchronous accesses; [None] is a failed assertion *)

Definition in_window (a n : Z) (s : t) : bool := (base s <=? a) && (a ⊞ n <=? base s ⊞ size s).

(** The bytes from [offset] on replaced by [data]. *)
Definition store (offset : Z) (data : list Z) (m : Storage.t) : Storage.t :=
  m <| Storage.bytes := list_inserts (Z.to_nat offset) data (Storage.bytes m) |>.
Definition fetch (offset n : Z) (m : Storage.t) : list Z :=
  take (Z.to_nat n) (drop (Z.to_nat offset) (Storage.bytes m)).

Definition wr_to_globalmem (a n : Z) (data : list Z) (s : t) : option t :=
  if in_window a n s && (Z.of_nat (List.length data) =? n)
  then Some (s <| storage := store (a ⊟ base s) data (storage s) |>) else None.

Definition rd_from_globalmem (a n : Z) (s : t) : option (list Z) :=
  if in_window a n s then Some (fetch (a ⊟ base s) n (storage s)) else None.

(** *** The asynchronous path *)

Definition localAccessValid (c : Config) (a n : Z) (s : t) : bool :=
  if (n =? 0) || (localAccessMaxRequestBytes_ c <? n) || (a <? base s) then false
  else
    let offset := a ⊟ base s in
    (offset <=? size s) && (n <=? size s ⊟ offset).

Definition ceilDivLocalAccess (value divisor : Z) : Z := u64 (value + divisor - 1) / divisor.

Definition localAccessDelayCycles (c : Config) (n : Z) : Z :=
  localAccessBaseLatencyCycles_ c ⊞ ceilDivLocalAccess n (localAccessBytesPerCycle_ c).

Section Clock.
Variable c : Config.

(** [convertToCoreTime] of the simulator's time converter. *)
Variable coreTime : Z -> Z.

Definition record_interval (k : Kind) (start end_ : Z) (s : t) : bool * t :=
  match k with
  | Read =>
      let '(ok, iv) := BusyIntervalUnion.add start end_ (attentionClusterLocalReadIntervals_ s) in
      (ok, s <| attentionClusterLocalReadIntervals_ := iv |>)
  | Write =>
      let '(ok, iv) := BusyIntervalUnion.add start end_ (attentionClusterLocalWriteIntervals_ s) in
      (ok, s <| attentionClusterLocalWriteIntervals_ := iv |>)
  end.

Definition issueLocalAccess (now id : Z) (s : t) : list effect * t :=
  match localAccessPending_ s !! id with
  | None => ([], s)
  | Some request =>
      let s := s <| localAccessPending_ :=
                 <[id := request <| issued := true |>]> (localAccessPending_ s) |> in
      let queueCycles := now ⊟ submitCycle request in
      let s := match kind request with
               | Read => s <| localReadQueueCycles_ := localReadQueueCycles_ s ⊞ queueCycles |>
               | Write => s <| localWriteQueueCycles_ := localWriteQueueCycles_ s ⊞ queueCycles |>
               end in
      let serviceCycles := localAccessDelayCycles c (length request) in
      if attentionClusterEnable_ c then
        let '(ok, s) := record_interval (kind request) now (now ⊞ coreTime serviceCycles) s in
        (if ok then [Event serviceCycles id] else [Fatal], s)
      else ([Event serviceCycles id], s)
  end.

(** The two loops of [tryIssueLocalAccesses]; each round takes an id off its
    queue, so the length of the queue bounds their number. *)
Fixpoint issue_reads (fuel : nat) (now : Z) (s : t) : list effect * t :=
  match fuel with
  | O => ([], s)
  | S fuel =>
      match localReadQueue_ s with
      | id :: queue =>
          if localReadsInFlight_ s <? localAccessReadPorts_ c then
            let '(o, s) := issueLocalAccess now id
              (s <| localReadQueue_ := queue |>
                 <| localReadsInFlight_ := localReadsInFlight_ s ⊞₃₂ 1 |>) in
            let '(o', s) := issue_reads fuel now s in (o ++ o', s)
          else ([], s)
      | [] => ([], s)
      end
  end.

Fixpoint issue_writes (fuel : nat) (now : Z) (s : t) : list effect * t :=
  match fuel with
  | O => ([], s)
  | S fuel =>
      match localWriteQueue_ s with
      | id :: queue =>
          if localWritesInFlight_ s <? localAccessWritePorts_ c then
            let '(o, s) := issueLocalAccess now id
              (s <| localWriteQueue_ := queue |>
                 <| localWritesInFlight_ := localWritesInFlight_ s ⊞₃₂ 1 |>) in
            let '(o', s) := issue_writes fuel now s in (o ++ o', s)
          else ([], s)
      | [] => ([], s)
      end
  end.

Definition tryIssueLocalAccesses (now : Z) (s : t) : list effect * t :=
  let '(o, s) := issue_reads (List.length (localReadQueue_ s)) now s in
  let '(o', s) := issue_writes (List.length (localWriteQueue_ s)) now s in
  (o ++ o', s).

Definition pending_size (s : t) : Z := Z.of_nat (base.size (localAccessPending_ s)).

Definition emplace (id : Z) (r : PendingLocalAccess) (m : gmap Z PendingLocalAccess) :=
  match m !! id with Some _ => m | None => <[id := r]> m end.

Definition owner (s : t) : Z :=
  if attentionClusterEnable_ c then Fence.active (attentionGenerationFence_ s) else 0.

Definition reject (s : t) : bool * (list effect * t) :=
  (false, ([], s <| localQueueRejected_ := localQueueRejected_ s ⊞ 1 |>)).

(** The common end of both submissions. *)
Definition enter_access (now : Z) (s : t) : bool * (list effect * t) :=
  let depth := pending_size s in
  let s := if localAccessQueueHighWater_ s <? depth
           then s <| localAccessQueueHighWater_ := depth |> else s in
  (true, tryIssueLocalAccesses now s).

Definition localReadAsync (now a n : Z) (who : LocalMemoryClient) (tg : Z) (cb : option Callback)
    (s : t) : bool * (list effect * t) :=
  match cb with
  | None => reject s
  | Some cb =>
      if negb (localAccessValid c a n s) || (localAccessQueueDepth_ c <=? pending_size s) then reject s
      else
        let id := nextLocalAccessRequestId_ s in
        let request := mkAccess Read id a n who tg now (owner s) false false [] cb in
        enter_access now
          (s <| nextLocalAccessRequestId_ := id ⊞ 1 |>
             <| localAccessPending_ := emplace id request (localAccessPending_ s) |>
             <| localReadQueue_ := localReadQueue_ s ++ [id] |>
             <| localReadRequests_ := localReadRequests_ s ⊞ 1 |>)
  end.

Definition localWriteAsync (now a : Z) (data : list Z) (who : LocalMemoryClient) (tg : Z)
    (cb : option Callback) (s : t) : bool * (list effect * t) :=
  match cb with
  | None => reject s
  | Some cb =>
      let n := Z.of_nat (List.length data) in
      if negb (localAccessValid c a n s) || (localAccessQueueDepth_ c <=? pending_size s) then reject s
      else
        let id := nextLocalAccessRequestId_ s in
        let request := mkAccess Write id a n who tg now (owner s) false false data cb in
        enter_access now
          (s <| nextLocalAccessRequestId_ := id ⊞ 1 |>
             <| localAccessPending_ := emplace id request (localAccessPending_ s) |>
             <| localWriteQueue_ := localWriteQueue_ s ++ [id] |>
             <| localWriteRequests_ := localWriteRequests_ s ⊞ 1 |>)
  end.

(** What a callback is run with. *)
Record answer := mkAnswer { a_callback : Callback; a_ok : bool; a_tag : Z; a_data : list Z }.

Definition generation_valid (request : PendingLocalAccess) (s : t) : bool :=
  (ownerGeneration request =? 0) || Fence.matches (ownerGeneration request) (attentionGenerationFence_ s).

(** An access event with a non-zero id; the answer's callback runs last. *)
Definition handleLocalAccessEvent (now id : Z) (s : t) : option answer * (list effect * t) :=
  match localAccessPending_ s !! id with
  | None => (None, ([], s))
  | Some request =>
      let s := s <| localAccessPending_ := delete id (localAccessPending_ s) |> in
      let refused := cancelled request || negb (generation_valid request s) in
      let offset := addr request ⊟ base s in
      match kind request with
      | Read =>
          let s := if 0 <? localReadsInFlight_ s
                   then s <| localReadsInFlight_ := localReadsInFlight_ s - 1 |> else s in
          if refused then
            (Some (mkAnswer (callback request) false (tag request) []), tryIssueLocalAccesses now s)
          else
            let data := fetch offset (length request) (storage s) in
            (Some (mkAnswer (callback request) true (tag request) data),
             tryIssueLocalAccesses now (s <| localReadBytes_ := localReadBytes_ s ⊞ length request |>))
      | Write =>
          let s := if 0 <? localWritesInFlight_ s
                   then s <| localWritesInFlight_ := localWritesInFlight_ s - 1 |> else s in
          if refused then
            (Some (mkAnswer (callback request) false (tag request) []), tryIssueLocalAccesses now s)
          else
            (Some (mkAnswer (callback request) true (tag request) []),
             tryIssueLocalAccesses now
               (s <| storage := store offset (writeData request) (storage s) |>
                  <| localWriteBytes_ := localWriteBytes_ s ⊞ length request |>))
      end
  end.

(** *** Generations: the part of [cancelAttentionGeneration] that concerns local
    accesses marks those of the generation; their events answer them. *)

Definition to_cancel (generation : Z) (r : PendingLocalAccess) : bool :=
  (ownerGeneration r =? generation) && negb (cancelled r).

Definition cancel_accesses (generation : Z) (s : t) : Z * t :=
  (Z.of_nat (base.size (filter (fun '(_, r) => to_cancel generation r = true) (localAccessPending_ s))),
   s <| localAccessPending_ :=
     (fun r => if to_cancel generation r then r <| cancelled := true |> else r)
       <$> localAccessPending_ s |>).

Definition local_drained (generation : Z) (s : t) : bool :=
  bool_decide (map_Forall (fun _ r => ownerGeneration r <> generation) (localAccessPending_ s)).

End Clock.

End LocalMem.

(** ** The memory with its clock and its clients *)

Section LocalFacts.
Import LocalMem.

Definition events (o : list effect) : list Z :=
  omap (fun e => match e with Event _ id => Some id | Fatal => None end) o.
Definition calm (o : list effect) : Prop := Fatal ∉ o.

(** [agenda]: events sent and not yet handled; [log]: everything ever sent. *)
Record lghost := mkGhostL {
  clock : Z; agenda : list Z; accepted : list Z; answered : list Z; log : list effect
}.

Section History.
Variable c : Config.
Variable coreTime : Z -> Z.
Hypothesis Hconfig : parameters_ok c = true.
Hypothesis Hports : is_u32 (localAccessReadPorts_ c) /\ is_u32 (localAccessWritePorts_ c).
Hypothesis Hlatency : is_u32 (localAccessBaseLatencyCycles_ c) /\ is_u32 (localAccessBytesPerCycle_ c) /\
  is_u32 (localAccessMaxRequestBytes_ c) /\ is_u32 (localAccessQueueDepth_ c).

(** The simulator's conversion to core time units keeps positive durations positive. *)
Hypothesis Hcore : forall n, 0 < n -> 0 < coreTime n.

(** The last moment at which an access may start. *)
Variable horizon : Z.
Hypothesis Hhorizon : forall n, 0 < n < 2 ^ 33 -> horizon + coreTime n < 2 ^ 64.

Definition at_time (g : lghost) (now : Z) : Prop := 0 <= clock g <= now /\ now <= horizon.

Inductive local_history : t -> lghost -> Prop :=
| lh_init m : local_history (init m) (mkGhostL 0 [] [] [] [])
| lh_read s g now a n who tg cb ok o s' :
    local_history s g -> at_time g now -> nextLocalAccessRequestId_ s + 1 < 2 ^ 64 ->
    is_u64 a -> 0 <= n -> localReadAsync c coreTime now a n who tg cb s = (ok, (o, s')) ->
    local_history s' (mkGhostL now (agenda g ++ events o)
      (accepted g ++ if ok then [nextLocalAccessRequestId_ s] else []) (answered g) (log g ++ o))
| lh_write s g now a data who tg cb ok o s' :
    local_history s g -> at_time g now -> nextLocalAccessRequestId_ s + 1 < 2 ^ 64 ->
    is_u64 a -> localWriteAsync c coreTime now a data who tg cb s = (ok, (o, s')) ->
    local_history s' (mkGhostL now (agenda g ++ events o)
      (accepted g ++ if ok then [nextLocalAccessRequestId_ s] else []) (answered g) (log g ++ o))
| lh_event s g now l1 id l2 a o s' :
    local_history s g -> at_time g now -> agenda g = l1 ++ id :: l2 ->
    handleLocalAccessEvent c coreTime now id s = (a, (o, s')) ->
    local_history s' (mkGhostL now (l1 ++ l2 ++ events o) (accepted g)
      (answered g ++ match a with Some _ => [id] | None => [] end) (log g ++ o))
| lh_cancel s g generation :
    local_history s g -> local_history (snd (cancel_accesses generation s)) g
| lh_fence s g f : local_history s g -> local_history (s <| attentionGenerationFence_ := f |>) g
| lh_store s g m :
    local_history s g -> Storage.baseAddr m = base s -> Storage.size m = size s ->
    local_history (s <| storage := m |>) g.

(** ** Well-formedness *)

Definition kind_of (s : t) (id : Z) : option Kind := kind <$> localAccessPending_ s !! id.
Definition flying (k : Kind) (s : t) (ag : list Z) : Z :=
  Z.of_nat (List.length (filter (fun id => kind_of s id = Some k) ag)).

Definition request_ok (s : t) (id : Z) (r : PendingLocalAccess) : Prop :=
  requestId r = id /\ localAccessValid c (addr r) (length r) s = true /\ 0 <= length r /\
  is_u64 (addr r) /\ (kind r = Write -> length r = Z.of_nat (List.length (writeData r))).

Definition unserved (s : t) (ag : list Z) : list Z := localReadQueue_ s ++ localWriteQueue_ s ++ ag.

Record core (s : t) (ag : list Z) : Prop := {
  co_nodup : NoDup (unserved s ag);
  co_dom : forall id, id ∈ unserved s ag <-> is_Some (localAccessPending_ s !! id);
  co_next : 1 <= nextLocalAccessRequestId_ s;
  co_ids : forall id, is_Some (localAccessPending_ s !! id) -> 1 <= id < nextLocalAccessRequestId_ s;
  co_rq : Forall (fun id => kind_of s id = Some Read) (localReadQueue_ s);
  co_wq : Forall (fun id => kind_of s id = Some Write) (localWriteQueue_ s);
  co_reads : localReadsInFlight_ s = flying Read s ag;
  co_writes : localWritesInFlight_ s = flying Write s ag;
  co_read_ports : flying Read s ag <= localAccessReadPorts_ c;
  co_write_ports : flying Write s ag <= localAccessWritePorts_ c;
  co_requests : map_Forall (request_ok s) (localAccessPending_ s)
}.

(** No port idles while its queue holds work. *)
Definition reads_busy (s : t) : Prop :=
  localReadQueue_ s = [] \/ localReadsInFlight_ s = localAccessReadPorts_ c.
Definition writes_busy (s : t) : Prop :=
  localWriteQueue_ s = [] \/ localWritesInFlight_ s = localAccessWritePorts_ c.

(** Every interval recorded so far started by [now]. *)
Definition started_by (now : Z) (iv : BusyIntervalUnion.t) : Prop :=
  BusyIntervalUnion.hasInterval_ iv = true -> BusyIntervalUnion.lastStart_ iv <= now.
Definition timely (now : Z) (s : t) : Prop :=
  started_by now (attentionClusterLocalReadIntervals_ s) /\
  started_by now (attentionClusterLocalWriteIntervals_ s).

(** The parts an issue leaves alone. *)
Definition kept (s s' : t) : Prop :=
  storage s' = storage s /\ nextLocalAccessRequestId_ s' = nextLocalAccessRequestId_ s /\
  attentionGenerationFence_ s' = attentionGenerationFence_ s.

Lemma delay_bounds n :
  0 <= n <= localAccessMaxRequestBytes_ c -> 0 < localAccessDelayCycles c n < 2 ^ 33.
Proof.
  intros Hn. unfold parameters_ok in Hconfig. destruct Hlatency as (Hb & Hp & Hm & _). unfold is_u32 in *.
  rewrite negb_true_iff, !orb_false_iff, !Z.eqb_neq in Hconfig.
  unfold localAccessDelayCycles, ceilDivLocalAccess. set (p := localAccessBytesPerCycle_ c) in *.
  assert (0 <= (n + p - 1) / p <= n) as Hq.
  { split; [apply Z.div_pos; lia|]. apply Z.lt_succ_r, Z.div_lt_upper_bound; nia. }
  unwrap_goal. lia.
Qed.

Lemma add_ok start end_ iv :
  start < end_ -> started_by start iv ->
  exists iv', BusyIntervalUnion.add start end_ iv = (true, iv') /\ started_by start iv'.
Proof.
  intros He Hs. unfold BusyIntervalUnion.add. unfold started_by in Hs.
  destruct ((end_ <=? start) || _) eqn:E.
  - rewrite orb_true_iff, Z.leb_le, andb_true_iff, Z.ltb_lt in E. destruct E as [E|[E1 E2]]; [lia|].
    specialize (Hs E1). lia.
  - eexists. split; [done|]. intros _. simpl. lia.
Qed.

Lemma request_length s id r : request_ok s id r -> 0 <= length r <= localAccessMaxRequestBytes_ c.
Proof.
  intros (_ & Hv & Hl & _). unfold localAccessValid in Hv.
  destruct (_ || _) eqn:E; [discriminate Hv|].
  rewrite !orb_false_iff, Z.ltb_ge in E. lia.
Qed.

(** An issue sends one event and marks the request; the rest stays. *)
Record issues (id : Z) (s s' : t) : Prop := {
  is_kept : kept s s';
  is_rq : localReadQueue_ s' = localReadQueue_ s;
  is_wq : localWriteQueue_ s' = localWriteQueue_ s;
  is_rin : localReadsInFlight_ s' = localReadsInFlight_ s;
  is_win : localWritesInFlight_ s' = localWritesInFlight_ s;
  is_pending : exists r, localAccessPending_ s !! id = Some r /\
    localAccessPending_ s' = <[id := r <| issued := true |>]> (localAccessPending_ s)
}.

Lemma issue_one now id r s :
  localAccessPending_ s !! id = Some r -> 0 <= length r <= localAccessMaxRequestBytes_ c ->
  0 <= now <= horizon -> timely now s ->
  exists d s', issueLocalAccess c coreTime now id s = ([Event d id], s') /\ timely now s' /\ issues id s s'.
Proof.
  intros Hr Hl Hnow [Htr Htw]. unfold issueLocalAccess. rewrite Hr. cbv zeta.
  pose proof (delay_bounds _ Hl) as Hd. set (d := localAccessDelayCycles c (length r)) in *.
  assert (now < now ⊞ coreTime d) as Hend.
  { pose proof (Hcore d ltac:(lia)). pose proof (Hhorizon d Hd). rewrite u64_small; unfold is_u64; lia. }
  destruct (add_ok _ _ _ Hend Htr) as (ivr & Er & Hr').
  destruct (add_ok _ _ _ Hend Htw) as (ivw & Ew & Hw').
  destruct (attentionClusterEnable_ c).
  - destruct (kind r); unfold record_interval; simpl; rewrite ?Er, ?Ew;
      (eexists d, _; split; [done|]; split; [by split|]);
      (split; [done|done|done|done|done|by exists r]).
  - destruct (kind r); (eexists d, _; split; [done|]; split; [by split|]);
      (split; [done|done|done|done|done|by exists r]).
Qed.

Lemma issues_lookup id s s' x : issues id s s' ->
  localAccessPending_ s' !! x =
    if decide (x = id) then (fun r => r <| issued := true |>) <$> localAccessPending_ s !! x
    else localAccessPending_ s !! x.
Proof.
  intros [_ _ _ _ _ (r & Hr & ->)]. case_decide as E.
  - subst x. by rewrite lookup_insert_eq, Hr.
  - by rewrite lookup_insert_ne.
Qed.
Lemma issues_kind id s s' x : issues id s s' -> kind_of s' x = kind_of s x.
Proof.
  intros H. unfold kind_of. rewrite (issues_lookup id s s' x H). case_decide; [|done].
  by destruct (localAccessPending_ s !! x).
Qed.
Lemma issues_some id s s' x :
  issues id s s' -> is_Some (localAccessPending_ s' !! x) <-> is_Some (localAccessPending_ s !! x).
Proof.
  intros H. rewrite (issues_lookup id s s' x H). case_decide; [|done]. by rewrite fmap_is_Some.
Qed.

Lemma flying_ext k s s' ag : (forall id, kind_of s' id = kind_of s id) -> flying k s' ag = flying k s ag.
Proof.
  intros H. unfold flying. do 2 f_equal. apply list_filter_iff. intros id. by rewrite H.
Qed.
Lemma flying_app k s ag ag' : flying k s (ag ++ ag') = flying k s ag + flying k s ag'.
Proof. unfold flying. rewrite filter_app, length_app. lia. Qed.
Lemma flying_one k s id : flying k s [id] = if decide (kind_of s id = Some k) then 1 else 0.
Proof.
  unfold flying. case_decide; [by rewrite filter_cons_True|by rewrite filter_cons_False].
Qed.
Lemma flying_perm k s ag ag' : ag ≡ₚ ag' -> flying k s ag = flying k s ag'.
Proof. intros H. unfold flying. by rewrite H. Qed.
Lemma flying_nonneg k s ag : 0 <= flying k s ag.
Proof. unfold flying. lia. Qed.

Lemma valid_ext s s' a n : storage s' = storage s -> localAccessValid c a n s' = localAccessValid c a n s.
Proof. intros E. unfold localAccessValid, base, size. by rewrite E. Qed.

Lemma issues_requests id s s' :
  issues id s s' -> map_Forall (request_ok s) (localAccessPending_ s) ->
  map_Forall (request_ok s') (localAccessPending_ s').
Proof.
  intros H Hf x r Hr. rewrite (issues_lookup id s s' x H) in Hr.
  assert (forall r, request_ok s x r -> request_ok s' x r) as Hk.
  { intros r0 (H1 & H2 & H3). split; [done|]. split; [|done].
    rewrite (valid_ext s s'); [done|]. apply H. }
  case_decide.
  - destruct (localAccessPending_ s !! x) as [r0|] eqn:E; [|discriminate Hr]. injection Hr as <-.
    apply Hk, (Hf x r0 E).
  - by apply Hk, Hf.
Qed.

(** One round of either loop: [s0] is [s] with [id] taken off its queue. *)
Definition is_kind (k k' : Kind) : Z := if decide (k = k') then 1 else 0.

Record taken (k : Kind) (id : Z) (s s0 : t) : Prop := {
  tk_kept : kept s s0;
  tk_pending : localAccessPending_ s0 = localAccessPending_ s;
  tk_perm : id :: localReadQueue_ s0 ++ localWriteQueue_ s0 ≡ₚ localReadQueue_ s ++ localWriteQueue_ s;
  tk_kind : kind_of s id = Some k;
  tk_rq : localReadQueue_ s0 ⊆ localReadQueue_ s;
  tk_wq : localWriteQueue_ s0 ⊆ localWriteQueue_ s;
  tk_rin : localReadsInFlight_ s0 = localReadsInFlight_ s + is_kind Read k;
  tk_win : localWritesInFlight_ s0 = localWritesInFlight_ s + is_kind Write k;
  tk_reads : localReadsInFlight_ s0 <= localAccessReadPorts_ c;
  tk_writes : localWritesInFlight_ s0 <= localAccessWritePorts_ c
}.

Lemma round now k id s s0 ag :
  core s ag -> taken k id s s0 -> 0 <= now <= horizon -> timely now s0 ->
  exists d s', issueLocalAccess c coreTime now id s0 = ([Event d id], s') /\ timely now s' /\
    issues id s0 s' /\ core s' (ag ++ [id]).
Proof.
  intros [] [] Hnow Ht.
  assert (exists r, localAccessPending_ s !! id = Some r) as [r Hr].
  { unfold kind_of in tk_kind0. destruct (localAccessPending_ s !! id) as [r|]; [by exists r|discriminate]. }
  destruct (issue_one now id r s0) as (d & s' & Ei & Ht' & Hi); [by rewrite tk_pending0|..|done|done|].
  { by eapply request_length, co_requests0. }
  exists d, s'. split; [exact Ei|]. split; [done|]. split; [done|]. pose proof Hi as [Hk Hrq Hwq Hrin Hwin Hp].
  assert (forall x, kind_of s' x = kind_of s x) as Hkind.
  { intros x. rewrite (issues_kind id s0 s' x Hi). unfold kind_of. by rewrite tk_pending0. }
  assert (forall x, is_Some (localAccessPending_ s' !! x) <-> is_Some (localAccessPending_ s !! x)) as Hsome.
  { intros x. rewrite (issues_some id s0 s' x Hi). by rewrite tk_pending0. }
  assert (nextLocalAccessRequestId_ s' = nextLocalAccessRequestId_ s) as Hnext.
  { destruct Hk as (_ & -> & _). apply tk_kept0. }
  assert (unserved s' (ag ++ [id]) ≡ₚ unserved s ag) as Hperm.
  { unfold unserved. rewrite Hrq, Hwq, !app_assoc, <- tk_perm0. symmetry. apply Permutation_cons_append. }
  assert (forall k', flying k' s' (ag ++ [id]) = flying k' s ag + is_kind k' k) as Hfly.
  { intros k'. rewrite (flying_ext k' s s'), flying_app, flying_one by done. rewrite tk_kind0.
    unfold is_kind. f_equal. do 2 case_decide; congruence. }
  constructor; rewrite ?Hrq, ?Hwq, ?Hrin, ?Hwin, ?Hfly, ?Hnext.
  - by rewrite Hperm.
  - intros x. by rewrite Hperm, Hsome.
  - done.
  - intros x Hx%Hsome. by apply co_ids0.
  - rewrite Forall_forall in co_rq0 |- *. intros x Hx. rewrite Hkind. by apply co_rq0, tk_rq0.
  - rewrite Forall_forall in co_wq0 |- *. intros x Hx. rewrite Hkind. by apply co_wq0, tk_wq0.
  - lia.
  - lia.
  - lia.
  - lia.
  - eapply issues_requests; [exact Hi|]. rewrite tk_pending0. intros x y Hxy.
    destruct (co_requests0 x y Hxy) as (? & Hv & ?). split; [done|]. split; [|done].
    rewrite (valid_ext s s0); [done|apply tk_kept0].
Qed.

Lemma kept_refl s : kept s s.
Proof. by repeat split. Qed.
Lemma kept_trans s1 s2 s3 : kept s1 s2 -> kept s2 s3 -> kept s1 s3.
Proof. intros (? & ? & ?) (? & ? & ?). unfold kept. split_and!; congruence. Qed.

Lemma events_app o o' : events (o ++ o') = events o ++ events o'.
Proof. apply omap_app. Qed.

(** What a loop achieves. *)
Record drains (s s' : t) (ag : list Z) (o : list effect) (now : Z) : Prop := {
  dr_kept : kept s s';
  dr_core : core s' (ag ++ events o);
  dr_perm : unserved s' (ag ++ events o) ≡ₚ unserved s ag;
  dr_calm : calm o;
  dr_timely : timely now s'
}.

Lemma drains_refl s ag now : core s ag -> timely now s -> drains s s ag [] now.
Proof. intros C T. constructor; simpl; rewrite ?app_nil_r; try done. apply not_elem_of_nil. Qed.

Lemma drains_trans s1 s2 s3 ag o o' now :
  drains s1 s2 ag o now -> drains s2 s3 (ag ++ events o) o' now -> drains s1 s3 ag (o ++ o') now.
Proof.
  intros [K1 C1 P1 N1 T1] [K2 C2 P2 N2 T2]. rewrite <- app_assoc, <- events_app in C2, P2.
  constructor; [by eapply kept_trans|done|by rewrite P2|by apply not_elem_of_app|done].
Qed.

Lemma round_drains now k id s s0 ag :
  core s ag -> taken k id s s0 -> 0 <= now <= horizon -> timely now s0 ->
  exists d s', issueLocalAccess c coreTime now id s0 = ([Event d id], s') /\
    issues id s0 s' /\ drains s s' ag [Event d id] now.
Proof.
  intros C T Hnow Ht. destruct (round now k id s s0 ag C T Hnow Ht) as (d & s' & Ei & Ht' & Hi & C').
  exists d, s'. split; [done|]. split; [done|]. destruct T. constructor; [|done| | |done].
  - eapply kept_trans; [exact tk_kept0|apply Hi].
  - unfold unserved. simpl. rewrite (is_rq _ _ _ Hi), (is_wq _ _ _ Hi), !app_assoc, <- tk_perm0.
    symmetry. apply Permutation_cons_append.
  - intros [E|E%elem_of_nil]%elem_of_cons; [discriminate E|done].
Qed.

Lemma core_small s ag : core s ag ->
  0 <= localReadsInFlight_ s < 2 ^ 32 /\ 0 <= localWritesInFlight_ s < 2 ^ 32.
Proof.
  intros []. pose proof (flying_nonneg Read s ag). pose proof (flying_nonneg Write s ag).
  destruct Hports. unfold is_u32 in *. lia.
Qed.

Lemma issue_reads_drains now : 0 <= now <= horizon -> forall fuel s ag,
  core s ag -> timely now s -> fuel = List.length (localReadQueue_ s) ->
  let r := issue_reads c coreTime fuel now s in
  drains s (snd r) ag (fst r) now /\ reads_busy (snd r) /\
  localWriteQueue_ (snd r) = localWriteQueue_ s /\ localWritesInFlight_ (snd r) = localWritesInFlight_ s.
Proof.
  intros Hnow. induction fuel as [|fuel IH]; intros s ag C T Hf; cbv zeta; cbn [issue_reads].
  { split; [by apply drains_refl|]. split; [|done]. left. by apply nil_length_inv. }
  destruct (localReadQueue_ s) as [|id q] eqn:Eq; [discriminate Hf|]. injection Hf as Hf.
  destruct (_ <? _) eqn:Ep.
  2: { split; [by apply drains_refl|]. split; [|done]. right. apply Z.ltb_ge in Ep. destruct C. simpl. lia. }
  apply Z.ltb_lt in Ep. pose proof (core_small s ag C).
  set (s0 := s <| localReadQueue_ := q |> <| localReadsInFlight_ := localReadsInFlight_ s ⊞₃₂ 1 |>).
  assert (taken Read id s s0) as K.
  { pose proof (co_rq _ _ C) as Hrq. rewrite Eq in Hrq. pose proof (co_write_ports _ _ C).
    pose proof (co_writes _ _ C).
    constructor; simpl; rewrite ?Eq; try done; try (unfold is_kind; simpl).
    - by inversion Hrq.
    - intros x Hx. by right.
    - destruct Hports. mach_lia.
    - lia.
    - destruct Hports. mach_lia.
    - lia. }
  destruct (round_drains now Read id s s0 ag C K Hnow T) as (d & s' & Ei & Hi & D).
  rewrite Ei. specialize (IH s' _ (dr_core _ _ _ _ _ D) (dr_timely _ _ _ _ _ D)).
  cbv zeta in IH. destruct IH as (D' & B & Hwq & Hwin); [by rewrite (is_rq _ _ _ Hi)|].
  destruct (issue_reads c coreTime fuel now s') as [o2 s2]. simpl fst in *. simpl snd in *.
  split; [by eapply (drains_trans s s' s2 ag [Event d id])|]. split; [done|].
  rewrite Hwq, Hwin, (is_wq _ _ _ Hi), (is_win _ _ _ Hi). done.
Qed.

Lemma issue_writes_drains now : 0 <= now <= horizon -> forall fuel s ag,
  core s ag -> timely now s -> fuel = List.length (localWriteQueue_ s) ->
  let r := issue_writes c coreTime fuel now s in
  drains s (snd r) ag (fst r) now /\ writes_busy (snd r) /\
  localReadQueue_ (snd r) = localReadQueue_ s /\ localReadsInFlight_ (snd r) = localReadsInFlight_ s.
Proof.
  intros Hnow. induction fuel as [|fuel IH]; intros s ag C T Hf; cbv zeta; cbn [issue_writes].
  { split; [by apply drains_refl|]. split; [|done]. left. by apply nil_length_inv. }
  destruct (localWriteQueue_ s) as [|id q] eqn:Eq; [discriminate Hf|]. injection Hf as Hf.
  destruct (_ <? _) eqn:Ep.
  2: { split; [by apply drains_refl|]. split; [|done]. right. apply Z.ltb_ge in Ep. destruct C. simpl. lia. }
  apply Z.ltb_lt in Ep. pose proof (core_small s ag C).
  set (s0 := s <| localWriteQueue_ := q |> <| localWritesInFlight_ := localWritesInFlight_ s ⊞₃₂ 1 |>).
  assert (taken Write id s s0) as K.
  { pose proof (co_wq _ _ C) as Hwq. rewrite Eq in Hwq. pose proof (co_read_ports _ _ C).
    pose proof (co_reads _ _ C).
    constructor; simpl; rewrite ?Eq; try done; try (unfold is_kind; simpl).
    - apply Permutation_middle.
    - by inversion Hwq.
    - intros x Hx. by right.
    - lia.
    - destruct Hports. mach_lia.
    - lia.
    - destruct Hports. mach_lia. }
  destruct (round_drains now Write id s s0 ag C K Hnow T) as (d & s' & Ei & Hi & D).
  rewrite Ei. specialize (IH s' _ (dr_core _ _ _ _ _ D) (dr_timely _ _ _ _ _ D)).
  cbv zeta in IH. destruct IH as (D' & B & Hrq & Hrin); [by rewrite (is_wq _ _ _ Hi)|].
  destruct (issue_writes c coreTime fuel now s') as [o2 s2]. simpl fst in *. simpl snd in *.
  split; [by eapply (drains_trans s s' s2 ag [Event d id])|]. split; [done|].
  rewrite Hrq, Hrin, (is_rq _ _ _ Hi), (is_rin _ _ _ Hi). done.
Qed.

Lemma tryIssue_drains now s ag :
  0 <= now <= horizon -> core s ag -> timely now s ->
  let r := tryIssueLocalAccesses c coreTime now s in
  drains s (snd r) ag (fst r) now /\ reads_busy (snd r) /\ writes_busy (snd r).
Proof.
  intros Hnow C T. cbv zeta. unfold tryIssueLocalAccesses.
  pose proof (issue_reads_drains now Hnow _ s ag C T eq_refl) as (D1 & B1 & Hwq & _).
  destruct (issue_reads _ _ _ _ _) as [o1 s1]. simpl fst in *. simpl snd in *.
  pose proof (issue_writes_drains now Hnow _ s1 _ (dr_core _ _ _ _ _ D1) (dr_timely _ _ _ _ _ D1) eq_refl)
    as (D2 & B2 & Hrq & Hrin).
  destruct (issue_writes _ _ _ _ _) as [o2 s2]. simpl fst in *. simpl snd in *.
  split; [by eapply drains_trans|]. split; [|done]. unfold reads_busy in *. by rewrite Hrq, Hrin.
Qed.

Lemma flying_same k s s' ag :
  (forall id, id ∈ ag -> kind_of s' id = kind_of s id) -> flying k s' ag = flying k s ag.
Proof.
  intros H. unfold flying. do 2 f_equal. induction ag as [|x ag IH]; [done|].
  rewrite !filter_cons, H by (by left). rewrite IH; [done|]. intros id Hid. apply H. by right.
Qed.

(** A new request [r] joins its queue. *)
Record joins (id : Z) (r : PendingLocalAccess) (s s1 : t) : Prop := {
  jo_id : id = nextLocalAccessRequestId_ s;
  jo_next : nextLocalAccessRequestId_ s1 = id + 1;
  jo_pending : localAccessPending_ s1 = <[id := r]> (localAccessPending_ s);
  jo_perm : localReadQueue_ s1 ++ localWriteQueue_ s1 ≡ₚ id :: localReadQueue_ s ++ localWriteQueue_ s;
  jo_rq : Forall (fun x => x ∈ localReadQueue_ s \/ x = id /\ kind r = Read) (localReadQueue_ s1);
  jo_wq : Forall (fun x => x ∈ localWriteQueue_ s \/ x = id /\ kind r = Write) (localWriteQueue_ s1);
  jo_rin : localReadsInFlight_ s1 = localReadsInFlight_ s;
  jo_win : localWritesInFlight_ s1 = localWritesInFlight_ s;
  jo_storage : storage s1 = storage s;
  jo_ok : request_ok s id r
}.

Lemma joins_core id r s s1 ag : core s ag -> joins id r s s1 -> core s1 ag.
Proof.
  intros [] [].
  assert (localAccessPending_ s !! id = None) as Hfresh.
  { destruct (localAccessPending_ s !! id) as [r'|] eqn:E; [|done].
    specialize (co_ids0 id ltac:(by exists r')). lia. }
  assert (id ∉ unserved s ag) as Hnew.
  { intros H%co_dom0. rewrite Hfresh in H. by destruct H. }
  assert (unserved s1 ag ≡ₚ id :: unserved s ag) as Hperm.
  { unfold unserved. by rewrite app_assoc, jo_perm0, (app_assoc (localReadQueue_ s)). }
  assert (forall x, x <> id -> kind_of s1 x = kind_of s x) as Hkind.
  { intros x Hx. unfold kind_of. by rewrite jo_pending0, lookup_insert_ne. }
  assert (kind_of s1 id = Some (kind r)) as Hown by (unfold kind_of; by rewrite jo_pending0, lookup_insert_eq).
  assert (forall k, flying k s1 ag = flying k s ag) as Hfly.
  { intros k. apply flying_same. intros x Hx. apply Hkind. intros ->. apply Hnew.
    unfold unserved. rewrite !elem_of_app. auto. }
  assert (forall x, x ∈ unserved s ag -> x <> id) as Hne by (intros x Hx ->; done).
  constructor; rewrite ?Hfly, ?jo_rin0, ?jo_win0; try done.
  - rewrite Hperm. by constructor.
  - intros x. rewrite Hperm, elem_of_cons, co_dom0, jo_pending0. destruct (decide (x = id)) as [->|Hx].
    + rewrite lookup_insert_eq. split; [by eexists|by left].
    + rewrite lookup_insert_ne by done. split; [by intros [?|?]|by right].
  - lia.
  - intros x. rewrite jo_pending0, jo_next0. destruct (decide (x = id)) as [->|Hx]; [lia|].
    rewrite lookup_insert_ne by done. intros Hs%co_ids0. lia.
  - rewrite Forall_forall in jo_rq0, co_rq0 |- *. intros x Hx. destruct (jo_rq0 x Hx) as [Hq|[-> Hk]].
    + rewrite Hkind; [by apply co_rq0|]. apply Hne. unfold unserved. rewrite elem_of_app. by left.
    + by rewrite Hown, Hk.
  - rewrite Forall_forall in jo_wq0, co_wq0 |- *. intros x Hx. destruct (jo_wq0 x Hx) as [Hq|[-> Hk]].
    + rewrite Hkind; [by apply co_wq0|]. apply Hne. unfold unserved. rewrite !elem_of_app. auto.
    + by rewrite Hown, Hk.
  - rewrite jo_pending0. apply map_Forall_insert_2; [|intros x y Hxy; specialize (co_requests0 x y Hxy)];
      unfold request_ok in *; by rewrite (valid_ext s s1).
Qed.

(** A served request leaves. *)
Lemma leaves_core id s s1 l1 l2 r :
  core s (l1 ++ id :: l2) -> localAccessPending_ s !! id = Some r ->
  localAccessPending_ s1 = delete id (localAccessPending_ s) ->
  nextLocalAccessRequestId_ s1 = nextLocalAccessRequestId_ s ->
  localReadQueue_ s1 = localReadQueue_ s -> localWriteQueue_ s1 = localWriteQueue_ s ->
  localReadsInFlight_ s1 = localReadsInFlight_ s - is_kind Read (kind r) ->
  localWritesInFlight_ s1 = localWritesInFlight_ s - is_kind Write (kind r) ->
  base s1 = base s -> size s1 = size s ->
  core s1 (l1 ++ l2).
Proof.
  intros [] Hr Hp Hn Hrq Hwq Hrin Hwin Hb Hz.
  assert (unserved s (l1 ++ id :: l2) ≡ₚ id :: unserved s1 (l1 ++ l2)) as Hperm.
  { unfold unserved. rewrite Hrq, Hwq, !app_assoc. symmetry. apply Permutation_middle. }
  rewrite Hperm in co_nodup0. apply NoDup_cons in co_nodup0 as [Hnot Hnd].
  assert (forall x, x ∈ unserved s1 (l1 ++ l2) -> kind_of s1 x = kind_of s x) as Hkind.
  { intros x Hx. unfold kind_of. rewrite Hp, lookup_delete_ne; [done|]. by intros ->. }
  assert (forall k, flying k s1 (l1 ++ l2) = flying k s (l1 ++ id :: l2) - is_kind k (kind r)) as Hfly.
  { intros k. rewrite (flying_same k s s1).
    2: { intros x Hx. apply Hkind. unfold unserved. rewrite !(elem_of_app (localReadQueue_ s1)), elem_of_app. auto. }
    rewrite (flying_perm k s (l1 ++ id :: l2) (id :: l1 ++ l2)) by (symmetry; apply Permutation_middle).
    change (id :: l1 ++ l2) with ([id] ++ l1 ++ l2). rewrite (flying_app k s [id]), flying_one.
    unfold kind_of, is_kind. rewrite Hr. simpl. do 2 case_decide; try lia; congruence. }
  constructor; rewrite ?Hfly, ?Hrin, ?Hwin, ?Hn; try done; try (unfold is_kind; case_decide; lia).
  - intros x. rewrite Hp. destruct (decide (x = id)) as [->|Hx].
    + rewrite lookup_delete_eq. split; [by intros H%Hnot|by intros [? ?]].
    + rewrite lookup_delete_ne, <- co_dom0, Hperm, elem_of_cons by done. split; [by right|by intros [?|?]].
  - intros x. rewrite Hp. intros [r' [_ Hr']%lookup_delete_Some]. by apply co_ids0; exists r'.
  - rewrite Hrq. rewrite Forall_forall in co_rq0 |- *. intros x Hx. rewrite Hkind; [by apply co_rq0|].
    unfold unserved. rewrite Hrq, elem_of_app. by left.
  - rewrite Hwq. rewrite Forall_forall in co_wq0 |- *. intros x Hx. rewrite Hkind; [by apply co_wq0|].
    unfold unserved. rewrite Hwq, !elem_of_app. auto.
  - rewrite Hp. intros x y [_ Hxy]%lookup_delete_Some. specialize (co_requests0 x y Hxy).
    unfold request_ok, localAccessValid in *. by rewrite Hb, Hz.
Qed.

Lemma pending_count s ag : core s ag -> pending_size s = Z.of_nat (List.length (unserved s ag)).
Proof.
  intros C. unfold pending_size. f_equal.
  assert (dom (localAccessPending_ s) = list_to_set (unserved s ag) :> gset Z) as E.
  { apply set_eq. intros x. rewrite elem_of_dom, elem_of_list_to_set. symmetry. apply (co_dom _ _ C). }
  rewrite <- size_dom, E. apply size_list_to_set, C.
Qed.

Record wf (s : t) (g : lghost) : Prop := {
  wf_core : core s (agenda g);
  wf_reads : reads_busy s;
  wf_writes : writes_busy s;
  wf_timely : timely (clock g) s;
  wf_accepted : accepted g ≡ₚ answered g ++ unserved s (agenda g);
  wf_new : Forall (fun id => 1 <= id < nextLocalAccessRequestId_ s) (accepted g) /\ NoDup (accepted g);
  wf_depth : pending_size s <= localAccessQueueDepth_ c;
  wf_calm : calm (log g)
}.

Lemma timely_mono now now' s : now <= now' -> timely now s -> timely now' s.
Proof. intros Hle [Hr Hw]. split; intros E; [specialize (Hr E)|specialize (Hw E)]; lia. Qed.

Lemma wf_now s g now : wf s g -> at_time g now -> timely now s.
Proof. intros W [H _]. apply (timely_mono (clock g)); [lia|apply W]. Qed.

Lemma calm_app o o' : calm o -> calm o' -> calm (o ++ o').
Proof. intros H H'. unfold calm. by rewrite not_elem_of_app. Qed.

(** The common end of both submissions. *)
Lemma join_wf s g now id r s1 :
  wf s g -> at_time g now -> joins id r s s1 -> timely now s1 ->
  pending_size s < localAccessQueueDepth_ c ->
  let q := enter_access c coreTime now s1 in
  wf (snd (snd q)) (mkGhostL now (agenda g ++ events (fst (snd q)))
    (accepted g ++ if fst q then [id] else []) (answered g) (log g ++ fst (snd q))).
Proof.
  intros [C _ _ _ Ha [Hn Hd] Hz Hc] [Hcl Hnow] J T Hlt. cbv zeta. unfold enter_access. cbv zeta.
  set (s2 := if _ <? _ then _ else _).
  assert (joins id r s s2) as J2 by (unfold s2; destruct (_ <? _); [destruct J; by constructor|done]).
  assert (timely now s2) as T2 by (unfold s2; destruct (_ <? _); done).
  clearbody s2. clear J T s1. pose proof (joins_core _ _ _ _ _ C J2) as C2.
  pose proof (tryIssue_drains now s2 (agenda g) ltac:(lia) C2 T2) as ([K C3 P N T3] & Br & Bw).
  destruct (tryIssueLocalAccesses c coreTime now s2) as [o s3]. simpl fst in *. simpl snd in *.
  assert (unserved s2 (agenda g) ≡ₚ id :: unserved s (agenda g)) as Hperm.
  { unfold unserved. by rewrite app_assoc, (jo_perm _ _ _ _ J2), (app_assoc (localReadQueue_ s)). }
  assert (nextLocalAccessRequestId_ s3 = id + 1) as Hnext.
  { destruct K as (_ & -> & _). apply (jo_next _ _ _ _ J2). }
  pose proof (jo_id _ _ _ _ J2) as Hid.
  constructor; simpl; try done.
  - rewrite P, Hperm, Ha. rewrite <- Permutation_cons_append. apply Permutation_middle.
  - rewrite Hnext. split.
    + apply Forall_app. split; [eapply Forall_impl; [exact Hn|]; simpl; lia|].
      constructor; [|done]. pose proof (co_next _ _ C). lia.
    + apply NoDup_app. split; [done|]. split; [|apply NoDup_singleton].
      intros x Hx ->%list_elem_of_singleton. rewrite Forall_forall in Hn. apply Hn in Hx. lia.
  - rewrite (pending_count _ _ C3), P, Hperm. rewrite (pending_count _ _ C) in Hlt. simpl. lia.
  - by apply calm_app.
Qed.

(** Changes that local accesses do not depend on. *)
Lemma core_ext s s' ag :
  core s ag ->
  localAccessPending_ s' = localAccessPending_ s ->
  nextLocalAccessRequestId_ s' = nextLocalAccessRequestId_ s ->
  localReadQueue_ s' = localReadQueue_ s -> localWriteQueue_ s' = localWriteQueue_ s ->
  localReadsInFlight_ s' = localReadsInFlight_ s -> localWritesInFlight_ s' = localWritesInFlight_ s ->
  base s' = base s -> size s' = size s -> core s' ag.
Proof.
  intros C Hp Hn Hrq Hwq Hrin Hwin Hb Hz.
  assert (unserved s' ag = unserved s ag) as Hu by (unfold unserved; by rewrite Hrq, Hwq).
  assert (forall x, kind_of s' x = kind_of s x) as Hk by (intros x; unfold kind_of; by rewrite Hp).
  destruct C. constructor; rewrite ?Hu, ?Hp, ?Hn, ?Hrq, ?Hwq, ?Hrin, ?Hwin, ?(flying_ext _ s s') by done;
    try done.
  - eapply Forall_impl; [exact co_rq0|]. intros x. simpl. by rewrite Hk.
  - eapply Forall_impl; [exact co_wq0|]. intros x. simpl. by rewrite Hk.
  - intros x y Hxy. specialize (co_requests0 x y Hxy). unfold request_ok, localAccessValid in *.
    by rewrite Hb, Hz.
Qed.

Lemma reject_wf s g now id :
  wf s g -> at_time g now ->
  let q := reject s in
  wf (snd (snd q)) (mkGhostL now (agenda g ++ events (fst (snd q)))
    (accepted g ++ if fst q then [id] else []) (answered g) (log g ++ fst (snd q))).
Proof.
  intros [C Hr Hw T Ha Hn Hz Hc] [Hcl Hnow]. cbv zeta. simpl. rewrite !app_nil_r.
  constructor; try done; simpl.
  - by eapply core_ext.
  - apply (timely_mono (clock g)); [lia|done].
Qed.

Lemma read_wf s g now a n who tg cb :
  wf s g -> at_time g now -> nextLocalAccessRequestId_ s + 1 < 2 ^ 64 -> is_u64 a -> 0 <= n ->
  let q := localReadAsync c coreTime now a n who tg cb s in
  wf (snd (snd q)) (mkGhostL now (agenda g ++ events (fst (snd q)))
    (accepted g ++ if fst q then [nextLocalAccessRequestId_ s] else []) (answered g)
    (log g ++ fst (snd q))).
Proof.
  intros W A Hb Hu Hn. unfold localReadAsync. destruct cb as [cb|]; [|by apply reject_wf].
  destruct (_ || _) eqn:E; [by apply reject_wf|].
  rewrite orb_false_iff, negb_false_iff, Z.leb_gt in E. destruct E as [Hv Hlt].
  pose proof (co_next _ _ (wf_core _ _ W)). set (id := nextLocalAccessRequestId_ s) in *.
  eapply (join_wf s g now id); [done|done| | |done]; [|by apply (wf_now s g)].
  constructor; simpl; try done.
  - fold id. mach_lia.
  - unfold emplace. destruct (localAccessPending_ s !! id) as [r|] eqn:Er; [|done].
    pose proof (co_ids _ _ (wf_core _ _ W) id ltac:(by exists r)). unfold id in *. lia.
  - rewrite <- app_assoc. symmetry. apply Permutation_middle.
  - apply Forall_forall. intros x [Hx|Hx%list_elem_of_singleton]%elem_of_app; auto.
  - apply Forall_forall. auto.
  - split; [done|]. split; [done|]. split; [done|]. split; [done|discriminate].
Qed.

Lemma write_wf s g now a data who tg cb :
  wf s g -> at_time g now -> nextLocalAccessRequestId_ s + 1 < 2 ^ 64 -> is_u64 a ->
  let q := localWriteAsync c coreTime now a data who tg cb s in
  wf (snd (snd q)) (mkGhostL now (agenda g ++ events (fst (snd q)))
    (accepted g ++ if fst q then [nextLocalAccessRequestId_ s] else []) (answered g)
    (log g ++ fst (snd q))).
Proof.
  intros W A Hb Hu. unfold localWriteAsync. destruct cb as [cb|]; [|by apply reject_wf]. cbv zeta.
  destruct (_ || _) eqn:E; [by apply reject_wf|].
  rewrite orb_false_iff, negb_false_iff, Z.leb_gt in E. destruct E as [Hv Hlt].
  pose proof (co_next _ _ (wf_core _ _ W)). set (id := nextLocalAccessRequestId_ s) in *.
  eapply (join_wf s g now id); [done|done| | |done]; [|by apply (wf_now s g)].
  constructor; simpl; try done.
  - fold id. mach_lia.
  - unfold emplace. destruct (localAccessPending_ s !! id) as [r|] eqn:Er; [|done].
    pose proof (co_ids _ _ (wf_core _ _ W) id ltac:(by exists r)). unfold id in *. lia.
  - rewrite app_assoc. symmetry. apply Permutation_cons_append.
  - apply Forall_forall. auto.
  - apply Forall_forall. intros x [Hx|Hx%list_elem_of_singleton]%elem_of_app; auto.
  - split; [done|]. split; [done|]. split; [simpl; lia|]. by split.
Qed.

(** The state in which a served request has left, before the ports are refilled. *)
Definition refused (r : PendingLocalAccess) (s : t) : bool := cancelled r || negb (generation_valid r s).

Definition served_data (r : PendingLocalAccess) (s : t) : list Z :=
  if refused r s then [] else
  match kind r with Read => fetch (addr r ⊟ base s) (length r) (storage s) | Write => [] end.

Definition served_storage (r : PendingLocalAccess) (s : t) : Storage.t :=
  if refused r s then storage s else
  match kind r with Read => storage s | Write => store (addr r ⊟ base s) (writeData r) (storage s) end.

Lemma store_size offset data m : Storage.size (store offset data m) = Storage.size m.
Proof. unfold Storage.size, store. simpl. by rewrite length_inserts. Qed.
Lemma served_size r s : Storage.size (served_storage r s) = size s /\ Storage.baseAddr (served_storage r s) = base s.
Proof.
  unfold served_storage. destruct (refused r s), (kind r); try done. split; [apply store_size|done].
Qed.

Lemma handle_eq now id s l1 l2 :
  core s (l1 ++ id :: l2) ->
  exists r s1, localAccessPending_ s !! id = Some r /\
    handleLocalAccessEvent c coreTime now id s =
      (Some (mkAnswer (callback r) (negb (refused r s)) (tag r) (served_data r s)),
       tryIssueLocalAccesses c coreTime now s1) /\
    core s1 (l1 ++ l2) /\ storage s1 = served_storage r s /\
    nextLocalAccessRequestId_ s1 = nextLocalAccessRequestId_ s /\
    unserved s (l1 ++ id :: l2) ≡ₚ id :: unserved s1 (l1 ++ l2) /\
    (forall now, timely now s -> timely now s1).
Proof.
  intros C. assert (is_Some (localAccessPending_ s !! id)) as [r Hr].
  { apply (co_dom _ _ C). unfold unserved. rewrite !elem_of_app, elem_of_cons. auto. }
  assert (flying (kind r) s [id] = 1) as Hone.
  { rewrite flying_one. unfold kind_of. rewrite Hr. simpl. by rewrite decide_True. }
  pose proof (flying_perm (kind r) s (l1 ++ id :: l2) ([id] ++ l1 ++ l2)) as Hfly.
  rewrite (flying_app _ _ [id]), Hone in Hfly. specialize (Hfly ltac:(symmetry; apply (Permutation_middle l1 l2 id))).
  pose proof (flying_nonneg (kind r) s (l1 ++ l2)). pose proof (co_reads _ _ C). pose proof (co_writes _ _ C).
  exists r. unfold handleLocalAccessEvent. rewrite Hr. cbv zeta.
  change (generation_valid r _) with (generation_valid r s). fold (refused r s).
  change (base (s <| localAccessPending_ := _ |>)) with (base s).
  assert (forall s1, localReadQueue_ s1 = localReadQueue_ s -> localWriteQueue_ s1 = localWriteQueue_ s ->
    unserved s (l1 ++ id :: l2) ≡ₚ id :: unserved s1 (l1 ++ l2)) as Hperm.
  { intros s1 E1 E2. unfold unserved. rewrite E1, E2, !app_assoc. symmetry. apply Permutation_middle. }
  pose proof (store_size (addr r ⊟ base s) (writeData r) (storage s)) as Hsize.
  unfold served_data, served_storage. destruct (kind r) eqn:Ek; simpl localReadsInFlight_; simpl localWritesInFlight_;
    rewrite (proj2 (Z.ltb_lt 0 _)) by lia; destruct (refused r s); eexists; (split; [done|]); (split; [done|]);
    (split; [by eapply (leaves_core id s _ l1 l2 r); rewrite ?Ek; unfold is_kind; simpl; try done; lia|]);
    (split; [done|]); (split; [done|]); (split; [by apply Hperm|by intros]).
Qed.

Lemma event_wf s g now l1 id l2 :
  wf s g -> at_time g now -> agenda g = l1 ++ id :: l2 ->
  let q := handleLocalAccessEvent c coreTime now id s in
  wf (snd (snd q)) (mkGhostL now (l1 ++ l2 ++ events (fst (snd q))) (accepted g)
    (answered g ++ match fst q with Some _ => [id] | None => [] end) (log g ++ fst (snd q))).
Proof.
  intros W A E. pose proof (wf_now _ _ _ W A) as T. destruct W as [C _ _ _ Ha Hn Hz Hc], A as [Hcl Hnow].
  rewrite E in C. cbv zeta.
  destruct (handle_eq now id s l1 l2 C) as (r & s1 & Hr & -> & C1 & _ & Hnext & P & T1). simpl fst. simpl snd.
  pose proof (tryIssue_drains now s1 (l1 ++ l2) ltac:(lia) C1 (T1 _ T)) as ([K C2 P2 N T2] & Br & Bw).
  destruct (tryIssueLocalAccesses c coreTime now s1) as [o s2]. simpl fst in *. simpl snd in *.
  rewrite <- app_assoc in C2, P2. assert (nextLocalAccessRequestId_ s2 = nextLocalAccessRequestId_ s) as Hn2.
  { destruct K as (_ & -> & _). done. }
  rewrite E in Ha. constructor; simpl; try done.
  - rewrite P2, Ha, P, <- app_assoc. done.
  - by rewrite Hn2.
  - rewrite (pending_count _ _ C) in Hz. rewrite (pending_count _ _ C2), P2. rewrite P in Hz. simpl in Hz. lia.
  - by apply calm_app.
Qed.

Lemma cancel_core generation s ag : core s ag -> core (snd (cancel_accesses generation s)) ag.
Proof.
  intros []. unfold cancel_accesses. set (f := fun r => if to_cancel generation r then _ else r).
  set (s' := snd _).
  assert (localAccessPending_ s' = f <$> localAccessPending_ s) as Hp by done.
  assert (forall x, kind_of s' x = kind_of s x) as Hk.
  { intros x. unfold kind_of. rewrite Hp, lookup_fmap. destruct (localAccessPending_ s !! x) as [r|]; [|done].
    simpl. unfold f. by destruct (to_cancel generation r). }
  assert (forall x, is_Some (localAccessPending_ s' !! x) <-> is_Some (localAccessPending_ s !! x)) as Hs.
  { intros x. by rewrite Hp, lookup_fmap, fmap_is_Some. }
  constructor; rewrite ?(flying_ext _ s s') by done; try done.
  - intros x. by rewrite Hs.
  - intros x Hx%Hs. by apply co_ids0.
  - eapply Forall_impl; [exact co_rq0|]. intros x. simpl. by rewrite Hk.
  - eapply Forall_impl; [exact co_wq0|]. intros x. simpl. by rewrite Hk.
  - rewrite Hp. intros x r Hr. rewrite lookup_fmap in Hr.
    destruct (localAccessPending_ s !! x) as [r0|] eqn:E; [|discriminate Hr]. injection Hr as <-.
    specialize (co_requests0 x r0 E). unfold f. by destruct (to_cancel generation r0).
Qed.

Lemma history_wf s g : local_history s g -> wf s g.
Proof.
  induction 1 as [m|s g now a n who tg cb ok o s' _ IH A Hb Hu Hn E|s g now a data who tg cb ok o s' _ IH A Hb Hu E
    |s g now l1 id l2 a o s' _ IH A El E|s g gen _ IH|s g f _ IH|s g m _ IH Hb Hz].
  - constructor; simpl; try done; try (by left).
    + constructor; simpl; try done; try lia.
      * by apply NoDup_nil.
      * intros x. rewrite lookup_empty. split; [by intros ?%elem_of_nil|by intros [? ?]].
      * intros x. rewrite lookup_empty. by intros [? ?].
      * destruct Hports. unfold is_u32 in *. unfold flying. simpl. lia.
      * destruct Hports. unfold is_u32 in *. unfold flying. simpl. lia.
    + split; [done|apply NoDup_nil_2].
    + destruct Hlatency as (_ & _ & _ & Hq). unfold is_u32 in Hq. unfold pending_size. simpl.
      rewrite map_size_empty. lia.
    + apply not_elem_of_nil.
  - pose proof (read_wf s g now a n who tg cb IH A Hb Hu Hn) as R. by rewrite E in R.
  - pose proof (write_wf s g now a data who tg cb IH A Hb Hu) as R. by rewrite E in R.
  - pose proof (event_wf s g now l1 id l2 IH A El) as R. by rewrite E in R.
  - destruct IH as [C Br Bw T Ha Hn Hz Hc]. constructor; try done; [by apply cancel_core|].
    pose proof (cancel_core gen s _ C) as C'. rewrite (pending_count _ _ C').
    rewrite (pending_count _ _ C) in Hz. exact Hz.
  - destruct IH as [C Br Bw T Ha Hn Hz Hc]. constructor; try done. by eapply core_ext.
  - destruct IH as [C Br Bw T Ha Hn Hz' Hc]. constructor; try done. by eapply core_ext.
Qed.

(** C21. Local accesses are conserved and the ports well used.  In every
    interleaving of submissions, events and cancellations: each accepted access
    is answered exactly once or waits in exactly one place (a queue, or a port
    with its event on the way); the accesses in service never exceed the ports
    and are counted exactly; a queue holds work only while all its ports are
    busy; no more accesses are outstanding than the queue depth allows; and the
    interval statistics never reach their fatal exit. *)
Theorem local_accesses_conserved (s : t) (g : lghost) :
  local_history s g ->
  NoDup (accepted g) /\
  accepted g ≡ₚ answered g ++ localReadQueue_ s ++ localWriteQueue_ s ++ agenda g /\
  localReadsInFlight_ s = flying Read s (agenda g) /\ localReadsInFlight_ s <= localAccessReadPorts_ c /\
  localWritesInFlight_ s = flying Write s (agenda g) /\ localWritesInFlight_ s <= localAccessWritePorts_ c /\
  (localReadQueue_ s <> [] -> localReadsInFlight_ s = localAccessReadPorts_ c) /\
  (localWriteQueue_ s <> [] -> localWritesInFlight_ s = localAccessWritePorts_ c) /\
  pending_size s <= localAccessQueueDepth_ c /\
  Fatal ∉ log g.
Proof.
  intros [[] Br Bw _ Ha [_ Hn] Hz Hc]%history_wf. unfold reads_busy, writes_busy in *.
  split_and!; try done; try congruence; intros H; [by destruct Br|by destruct Bw].
Qed.

(** ** Every access is answered *)

(** The simulator handles the first [n] events, at time [now]. *)
Fixpoint serve_events (n : nat) (now : Z) (w : t * list Z) : t * list Z :=
  match n, snd w with
  | S n, id :: l =>
      let '(_, (o, s)) := handleLocalAccessEvent c coreTime now id (fst w) in
      serve_events n now (s, l ++ events o)
  | _, _ => w
  end.

Lemma idle_queues s ag : core s ag -> reads_busy s -> writes_busy s -> ag = [] -> unserved s ag = [].
Proof.
  intros C Br Bw ->. unfold parameters_ok in Hconfig. destruct C, Hports. unfold is_u32 in *.
  rewrite negb_true_iff, !orb_false_iff, !Z.eqb_neq in Hconfig.
  assert (flying Read s [] = 0 /\ flying Write s [] = 0) as [Hr Hw] by done.
  unfold unserved. destruct Br as [->|Br]; [|lia]. destruct Bw as [->|Bw]; [done|lia].
Qed.

Lemma serve_events_all now : 0 <= now <= horizon -> forall n s ag,
  core s ag -> reads_busy s -> writes_busy s -> timely now s -> n = List.length (unserved s ag) ->
  exists s', serve_events n now (s, ag) = (s', []) /\ localAccessPending_ s' = ∅ /\ core s' [].
Proof.
  intros Hnow. induction n as [|n IH]; intros s ag C Br Bw T Hn.
  - symmetry in Hn. apply nil_length_inv in Hn. pose proof Hn as Hu. unfold unserved in Hu.
    apply app_nil in Hu as [_ [_ ->]%app_nil]. exists s. split; [done|]. split; [|done].
    apply map_empty. intros id. apply eq_None_not_Some. rewrite <- (co_dom _ _ C), Hn. apply not_elem_of_nil.
  - destruct ag as [|id ag]; [by rewrite (idle_queues s [] C) in Hn|]. cbn [serve_events snd fst].
    destruct (handle_eq now id s [] ag C) as (r & s1 & _ & -> & C1 & _ & _ & P & T1). simpl in C1, P.
    pose proof (tryIssue_drains now s1 ag Hnow C1 (T1 _ T)) as ([_ C2 P2 _ T2] & Br2 & Bw2).
    destruct (tryIssueLocalAccesses c coreTime now s1) as [o s2]. simpl fst in *. simpl snd in *.
    apply IH; try done. rewrite P2. rewrite P in Hn. by injection Hn.
Qed.

(** C27. Every local access is eventually answered.  From any reachable state,
    handling as many events as there are outstanding accesses leaves none
    outstanding and no event to handle, whatever was cancelled meanwhile. *)
Theorem local_accesses_answered (s : t) (g : lghost) (now : Z) :
  local_history s g -> at_time g now ->
  let n := List.length (localReadQueue_ s ++ localWriteQueue_ s ++ agenda g) in
  exists s', serve_events n now (s, agenda g) = (s', []) /\ localAccessPending_ s' = ∅ /\
    localReadQueue_ s' = [] /\ localWriteQueue_ s' = [] /\
    localReadsInFlight_ s' = 0 /\ localWritesInFlight_ s' = 0.
Proof.
  intros W%history_wf A. pose proof (wf_now _ _ _ W A) as T. destruct W as [C Br Bw _ _ _ _ _].
  cbv zeta. destruct A as [H1 H2].
  destruct (serve_events_all now ltac:(lia) _ s (agenda g) C Br Bw T eq_refl) as (s' & E & Hp & C').
  exists s'. split; [exact E|]. split; [done|]. assert (unserved s' [] = []) as Hu.
  { apply elem_of_nil_inv. intros x Hx%(co_dom _ _ C'). rewrite Hp in Hx. by destruct Hx. }
  unfold unserved in Hu. apply app_nil in Hu as [-> [-> _]%app_nil]. by destruct C'.
Qed.

(** ** What an access does *)

Lemma valid_range a n s :
  localAccessValid c a n s = true -> is_u64 a -> 0 <= n -> 0 <= base s -> base s + size s < 2 ^ 64 ->
  a ⊟ base s = a - base s /\ 0 <= a - base s /\ a - base s + n <= size s.
Proof.
  unfold localAccessValid. intros Hv Ha Hn Hb Hz. destruct (_ || _) eqn:E; [discriminate Hv|].
  rewrite !orb_false_iff, !Z.ltb_ge in E. destruct E as [_ E]. unfold is_u64 in Ha.
  assert (a ⊟ base s = a - base s) as Ho by (apply u64_small; unfold is_u64; lia).
  rewrite Ho in Hv. rewrite andb_true_iff, !Z.leb_le in Hv. destruct Hv as [H1 H2].
  rewrite u64_small in H2 by (unfold is_u64; lia). lia.
Qed.

Lemma fetch_store o data m :
  0 <= o -> o + Z.of_nat (List.length data) <= Storage.size m ->
  fetch o (Z.of_nat (List.length data)) (store o data m) = data.
Proof.
  intros Ho Hl. unfold fetch, store, Storage.size in *. simpl. rewrite Nat2Z.id. apply list_eq. intros i.
  destruct (decide (i < List.length data)%nat) as [Hi|Hi].
  - rewrite lookup_take_lt, lookup_drop by done. rewrite list_lookup_inserts by lia. f_equal. lia.
  - rewrite lookup_take_ge by lia. symmetry. apply lookup_ge_None_2. lia.
Qed.

(** A served access is the synchronous access.  When the event of an
    outstanding access is handled, its callback is run with its tag; unless it
    was cancelled or its generation is no longer active, a read answers with
    exactly what [rd_from_globalmem] returns at that moment, and a write leaves
    the storage that [wr_to_globalmem] leaves, from which the same range reads
    back the written bytes.  A refused access changes nothing. *)
Theorem served_access_exact (s : t) (g : lghost) (now : Z) (l1 l2 : list Z) (id : Z) :
  local_history s g -> at_time g now -> agenda g = l1 ++ id :: l2 ->
  0 <= base s -> base s + size s < 2 ^ 64 ->
  exists r ans o s', localAccessPending_ s !! id = Some r /\
    handleLocalAccessEvent c coreTime now id s = (Some ans, (o, s')) /\
    a_callback ans = callback r /\ a_tag ans = tag r /\ a_ok ans = negb (refused r s) /\
    if refused r s then storage s' = storage s /\ a_data ans = []
    else match kind r with
         | Read => rd_from_globalmem (addr r) (length r) s = Some (a_data ans) /\
             Z.of_nat (List.length (a_data ans)) = length r /\ storage s' = storage s
         | Write => exists s2, wr_to_globalmem (addr r) (length r) (writeData r) s = Some s2 /\
             storage s' = storage s2 /\ rd_from_globalmem (addr r) (length r) s' = Some (writeData r)
         end.
Proof.
  intros W%history_wf A E Hb Hz. pose proof (wf_now _ _ _ W A) as T. destruct W as [C _ _ _ _ _ _ _], A as [H1 H2].
  rewrite E in C. destruct (handle_eq now id s l1 l2 C) as (r & s1 & Hr & -> & C1 & Hs1 & _ & _ & T1).
  pose proof (tryIssue_drains now s1 (l1 ++ l2) ltac:(lia) C1 (T1 _ T)) as ([(Hst & _) _ _ _ _] & _).
  destruct (tryIssueLocalAccesses c coreTime now s1) as [o s']. simpl fst in *. simpl snd in *.
  eexists r, _, o, s'. split; [done|]. split; [done|]. simpl. split_and!; [done|done|done|].
  rewrite Hs1 in Hst. pose proof (served_size r s) as [Hsz Hba]. unfold served_storage in *. unfold served_data.
  destruct (refused r s); [done|]. destruct (co_requests _ _ C id r Hr) as (_ & Hv & Hl & Ha & Hwr).
  destruct (valid_range _ _ _ Hv Ha Hl Hb Hz) as (Ho & Ho1 & Ho2). unfold is_u64 in Ha.
  assert (forall s0, base s0 = base s -> size s0 = size s -> in_window (addr r) (length r) s0 = true) as Hin.
  { intros s0 E1 E2. unfold in_window. rewrite E1, E2. apply andb_true_iff. rewrite !Z.leb_le.
    split; [lia|]. rewrite !u64_small; unfold is_u64; lia. }
  unfold rd_from_globalmem, wr_to_globalmem. destruct (kind r) eqn:Ek.
  - rewrite Hin by done. split; [done|]. split; [|done]. rewrite Ho. unfold fetch, size, Storage.size in *.
    rewrite length_take, length_drop. lia.
  - rewrite (Hin s) by done. rewrite (Hwr eq_refl), Z.eqb_refl. simpl. eexists. split; [done|]. split; [done|].
    rewrite <- (Hwr eq_refl), (Hin s') by (unfold base, size; by rewrite Hst). f_equal.
    assert (base s' = base s) as -> by (unfold base; by rewrite Hst). rewrite Hst, Ho, (Hwr eq_refl).
    apply fetch_store; [lia|]. rewrite <- (Hwr eq_refl). exact Ho2.
Qed.

End History.

(** ** A run *)

Definition demo_local : Config := mkConfig 1 4 1 1 4 64 true.
Definition demo_window : Storage.t := Storage.mk 0x1000 (replicate 32 0).
Definition same_time (n : Z) : Z := n.

(** A write and two reads; one of the reads waits for the port. *)
Definition demo_l1 := localWriteAsync demo_local same_time 0 0x1004 [1; 2; 3] CSFU 7 (Some (Client 1)) (init demo_window).
Definition demo_l2 := localReadAsync demo_local same_time 1 0x1000 8 CRoCC 8 (Some (Client 2)) (snd (snd demo_l1)).
Definition demo_l3 := localReadAsync demo_local same_time 1 0x1010 4 CWCP 9 (Some (Client 3)) (snd (snd demo_l2)).
Definition demo_local_state : t := snd (snd demo_l3).
Definition demo_local_ghost : lghost :=
  mkGhostL 1 [1; 2] [1; 2; 3] [] (fst (snd demo_l1) ++ fst (snd demo_l2) ++ fst (snd demo_l3)).

Lemma unpack {A B} (q : bool * (A * B)) : fst q = true -> q = (true, (fst (snd q), snd (snd q))).
Proof. destruct q as [? [? ?]]. simpl. by intros ->. Qed.

Lemma demo_local_history : local_history demo_local same_time 100 demo_local_state demo_local_ghost.
Proof.
  assert (local_history demo_local same_time 100 (snd (snd demo_l1))
    (mkGhostL 0 ([] ++ events (fst (snd demo_l1))) [1] [] ([] ++ fst (snd demo_l1)))) as H1.
  { eapply (lh_write demo_local same_time 100 (init demo_window) (mkGhostL 0 [] [] [] []) 0 0x1004 [1; 2; 3] CSFU 7
      (Some (Client 1)) true);
      [apply lh_init|by split|done|done|exact (unpack demo_l1 ltac:(by vm_compute))]. }
  assert (local_history demo_local same_time 100 (snd (snd demo_l2))
    (mkGhostL 1 ([1] ++ events (fst (snd demo_l2))) [1; 2] [] (fst (snd demo_l1) ++ fst (snd demo_l2)))) as H2.
  { eapply (lh_read demo_local same_time 100 _ _ 1 0x1000 8 CRoCC 8 (Some (Client 2)) true _ _ H1);
      [by split|by vm_compute|done|done|exact (unpack demo_l2 ltac:(by vm_compute))]. }
  pose proof (lh_read demo_local same_time 100 _ _ 1 0x1010 4 CWCP 9 (Some (Client 3)) true
    (fst (snd demo_l3)) demo_local_state H2) as H3.
  specialize (H3 ltac:(by split) ltac:(by vm_compute) ltac:(done) ltac:(done) (unpack demo_l3 ltac:(by vm_compute))).
  cbn [agenda accepted answered log app] in H3.
  assert (events (fst (snd demo_l2)) = [2]) as E2 by (by vm_compute).
  assert (events (fst (snd demo_l3)) = []) as E3 by (by vm_compute).
  rewrite E2, E3, <- app_assoc in H3. exact H3.
Qed.

Lemma demo_widths :
  (is_u32 (localAccessReadPorts_ demo_local) /\ is_u32 (localAccessWritePorts_ demo_local)) /\
  (is_u32 (localAccessBaseLatencyCycles_ demo_local) /\ is_u32 (localAccessBytesPerCycle_ demo_local) /\
   is_u32 (localAccessMaxRequestBytes_ demo_local) /\ is_u32 (localAccessQueueDepth_ demo_local)).
Proof. done. Qed.
Lemma demo_positive n : 0 < n -> 0 < same_time n.
Proof. done. Qed.
Lemma demo_horizon n : 0 < n < 2 ^ 33 -> 100 + same_time n < 2 ^ 64.
Proof. unfold same_time. lia. Qed.

Lemma local_accesses_conserved_witness :
  localReadQueue_ demo_local_state = [3] /\
  localReadsInFlight_ demo_local_state = localAccessReadPorts_ demo_local /\ Fatal ∉ log demo_local_ghost.
Proof.
  split; [by vm_compute|].
  destruct (local_accesses_conserved demo_local same_time eq_refl (proj1 demo_widths) (proj2 demo_widths)
    demo_positive 100 demo_horizon _ _ demo_local_history) as (_ & _ & _ & _ & _ & _ & Hq & _ & _ & Hc).
  split; [|exact Hc]. apply Hq. by vm_compute.
Defined.

Lemma local_accesses_answered_witness :
  exists s', serve_events demo_local same_time 3 5 (demo_local_state, [1; 2]) = (s', []) /\
    localAccessPending_ s' = ∅.
Proof.
  destruct (local_accesses_answered demo_local same_time eq_refl (proj1 demo_widths) (proj2 demo_widths)
    demo_positive 100 demo_horizon _ _ 5 demo_local_history ltac:(by split)) as (s' & E & Hp & _).
  exists s'. split; [exact E|exact Hp].
Defined.

Lemma served_access_exact_witness :
  exists r ans o s', localAccessPending_ demo_local_state !! 1 = Some r /\ kind r = Write /\
    handleLocalAccessEvent demo_local same_time 5 1 demo_local_state = (Some ans, (o, s')) /\
    a_callback ans = callback r.
Proof.
  destruct (served_access_exact demo_local same_time eq_refl (proj1 demo_widths) (proj2 demo_widths)
    demo_positive 100 demo_horizon _ _ 5 [] [2] 1 demo_local_history ltac:(by split) eq_refl
    ltac:(by vm_compute) ltac:(by vm_compute)) as (r & ans & o & s' & Hr & Hh & Hcb & _).
  exists r, ans, o, s'. split; [exact Hr|]. split; [|split; [exact Hh|exact Hcb]].
  assert (kind <$> localAccessPending_ demo_local_state !! 1 = Some Write) as Hk by (by vm_compute).
  rewrite Hr in Hk. by injection Hk.
Defined.
End LocalFacts.
