(* ===== verification/Dma.v ===== *)
(** * DMA engine of a core's global memory

    Models the DMA path of golem/globalmemory/globalmemory.cc: transfers between
    the hosts' memory and the local window are cut into bursts; reads are sent
    within a window of outstanding requests, retried on timeout and landed in
    the local memory chunk by chunk through [LocalMem]; writes await one
    completion per burst.  A transfer of several bursts shares a context that
    counts them; its callback runs with the last one.

    Maps are walked in an order the source leaves open: [order] lists the keys
    of the map of pending operations.  [link] tells whether the network accepts
    the [n]-th attempt to send.  A fatal exit or failed assertion is [None].
    Round-trip statistics are not part of the state. *)

From S2P Require Import Prelude Telemetry Cluster GroupMsg LocalMem.
From stdpp Require Import strings pretty.
#[local] Open Scope Z_scope.
#[local] Open Scope mach_scope.

(** ** Where a request is sent *)

Module Routing.

Record t := mk { memNodeSize : Z; memoryRouters : list Z; IDMap : gmap string Z }.

Definition getDmaTargetNode (r : t) (phys_addr : Z) : Z := u8 (phys_addr / memNodeSize r).

Definition getDmaTargetRouter (r : t) (phys_addr : Z) : option Z :=
  memoryRouters r !! Z.to_nat (getDmaTargetNode r phys_addr).

Definition getMemNicEndpointId (r : t) (phys_addr : Z) : Z :=
  let dirctrl_name := ("dirctrl_" +:+ pretty (getDmaTargetNode r phys_addr))%string in
  match IDMap r !! dirctrl_name with
  | Some e => e
  | None => match IDMap r !! (dirctrl_name +:+ ".highlink")%string with
            | Some e => e
            | None => -1
            end
  end.

(** The destination of a DMA request: the directory controller of the node, or
    the router of the fallback table. *)
Definition destination (r : t) (phys_addr : Z) : option Z :=
  let memnic_ep := getMemNicEndpointId r phys_addr in
  if negb (memnic_ep =? -1) then Some memnic_ep else getDmaTargetRouter r phys_addr.

End Routing.

(** ** Messages *)

Module Net.

Inductive Type_ := READ | WRITE | DMA_WRITE | DMA_READ_COMPLETE | DMA_WRITE_COMPLETE | DMA_CONSUMER_PROGRESS.
#[global] Instance type_eq_dec : EqDecision Type_.
Proof. solve_decision. Defined.

Inductive DmaRequestKind := Unknown | AttentionQuery | AttentionKv | AttentionKvPrefetch | AttentionOutput.
Inductive DmaOperand := OpUnknown | OpAttentionK | OpAttentionV.

Record DmaConsumerMetadata := mkConsumer {
  valid : Z;
  jobId : Z;
  worker : Z;
  consumerQueryTile : Z;
  consumerKvTileIndex : Z;
  targetQueryTile : Z;
  targetKvTileIndex : Z;
  operand : DmaOperand
}.
Definition no_consumer : DmaConsumerMetadata := mkConsumer 0 0 0 0 0 0 0 OpUnknown.

(** [NetworkDataEvent]. *)
Record event := mkEvent {
  type : Type_;
  addr : Z;
  length : Z;
  data : list Z;
  returnAddr : Z;
  returnEndpoint : Z;
  completionFlagAddr : Z;
  completionValue : Z;
  requestId : Z;
  dmaRequestKind : DmaRequestKind;
  dmaConsumer : DmaConsumerMetadata;
  ownerGenerationToken : Z
}.

(** A request handed to the network; [readKey] is its entry in
    [dma_read_req_to_key]. *)
Record Request := mkRequest { src : Z; dest : Z; vn : Z; size_in_bits : Z; payload : event; readKey : option Z }.

End Net.

Module Dma.
Import Net.

(** The closures passed as DMA callbacks: none, one of a client, and the
    continuation of a transfer out of this memory. *)
Inductive DmaCallback := NoCallback | Client (n : Z) | NextChunk (transfer chunkBytes : Z).

Record Config := mkConfig {
  core_id : Z;
  network_id : Z;
  dma_burst_bytes : Z;
  dma_read_retry_ticks : Z;
  dma_read_max_retries : Z;
  dma_read_max_inflight : Z;
  request_vn : Z;
  response_vn : Z;
  write_vn : Z;
  routing : Routing.t;
  local : LocalMem.Config
}.

(** The constructor's corrections. *)
Definition corrected (c : Config) : Config :=
  mkConfig (core_id c) (network_id c)
    (if dma_burst_bytes c =? 0 then 64 else dma_burst_bytes c)
    (if dma_read_retry_ticks c =? 0 then 1 else dma_read_retry_ticks c)
    (dma_read_max_retries c)
    (if dma_read_max_inflight c =? 0 then 1 else dma_read_max_inflight c)
    (request_vn c) (response_vn c) (write_vn c) (routing c) (local c).

Record DmaContext := mkContext {
  host_base : Z;
  gm_base : Z;
  total_len : Z;
  burst_size : Z;
  remaining : Z;
  ok : bool;
  cx_cb : DmaCallback;
  cx_completion_enabled : bool;
  cx_completion_flag_addr : Z;
  cx_completion_value : Z;
  cx_completion_token : Z
}.
#[global] Instance eta_context : Eta DmaContext := fun x =>
  mkContext (host_base x) (gm_base x) (total_len x) (burst_size x) (remaining x) (ok x) (cx_cb x)
    (cx_completion_enabled x) (cx_completion_flag_addr x) (cx_completion_value x) (cx_completion_token x).

Inductive OpKind := READ_TO_GM | WRITE_TO_HOST.
#[global] Instance opkind_eq_dec : EqDecision OpKind.
Proof. solve_decision. Defined.

(** [ctx] names an entry of the store of contexts, which bursts share. *)
Record PendingDmaOp := mkOp {
  kind : OpKind;
  request_id : Z;
  host_addr : Z;
  gm_dst_addr : Z;
  op_length : Z;
  op_requestKind : DmaRequestKind;
  op_consumer : DmaConsumerMetadata;
  cb : DmaCallback;
  ctx : option Z;
  completion_enabled : bool;
  completion_flag_addr : Z;
  completion_value : Z;
  completion_token : Z;
  retry_ticks_left : Z;
  retry_attempts : Z;
  request_issued : bool;
  request_sent : bool;
  first_send_seen : bool;
  first_send_tick : Z;
  last_send_tick : Z;
  ownerGeneration : Z;
  op_token : Z
}.
#[global] Instance eta_op : Eta PendingDmaOp := fun o =>
  mkOp (kind o) (request_id o) (host_addr o) (gm_dst_addr o) (op_length o) (op_requestKind o)
    (op_consumer o) (cb o) (ctx o) (completion_enabled o) (completion_flag_addr o) (completion_value o)
    (completion_token o) (retry_ticks_left o) (retry_attempts o) (request_issued o) (request_sent o)
    (first_send_seen o) (first_send_tick o) (last_send_tick o) (ownerGeneration o) (op_token o).

Record PendingDmaLanding := mkLanding {
  op : PendingDmaOp;
  ld_data : list Z;
  ld_offset : Z;
  chunkInFlight : bool
}.
#[global] Instance eta_landing : Eta PendingDmaLanding := fun l =>
  mkLanding (op l) (ld_data l) (ld_offset l) (chunkInFlight l).

(** [TransferState] of [dma_write_from_globalmem_to_host]. *)
Record Transfer := mkTransfer {
  gmSrc : Z;
  hostDst : Z;
  tr_length : Z;
  tr_offset : Z;
  tr_callback : DmaCallback;
  tr_kind : DmaRequestKind
}.
#[global] Instance eta_transfer : Eta Transfer := fun x =>
  mkTransfer (gmSrc x) (hostDst x) (tr_length x) (tr_offset x) (tr_callback x) (tr_kind x).

(** A read of another core's memory answered by a WRITE message, and a read on
    behalf of the request scheduler. *)
Record PendingReadReply := mkReply { rp_flag_addr : Z; rp_value : Z }.
Record PendingReadRequest := mkReadRequest {
  rr_gm_dst_addr : Z;
  rr_flag_addr : Z;
  rr_value : Z;
  rr_total_len : Z;
  rr_received_len : Z
}.
#[global] Instance eta_read_request : Eta PendingReadRequest := fun r =>
  mkReadRequest (rr_gm_dst_addr r) (rr_flag_addr r) (rr_value r) (rr_total_len r) (rr_received_len r).

Record t := mk {
  lm : LocalMem.t;
  dma_pending : gmap Z PendingDmaOp;
  contexts : gmap Z DmaContext;
  pendingDmaLandings_ : gmap Z PendingDmaLanding;
  transfers : gmap Z Transfer;
  dma_completion_tokens : gmap Z bool;
  read_pending : gmap Z PendingReadReply;
  request_pending : gmap Z PendingReadRequest;
  send_retry_queue : list Request;
  cancelRegistry : CancelRegistry.registry;
  next_dma_completion_token : Z;
  next_dma_request_id : Z;
  nextLocalDmaTag_ : Z;
  dmaLandingBackpressureRetries_ : Z;
  dmaLandingRetryScheduled_ : bool;
  dma_retry_event_scheduled : bool;
  dma_retry_tick_counter : Z;
  next_object : Z;
  send_attempts : Z
}.
#[global] Instance eta_t : Eta t := fun s =>
  mk (lm s) (dma_pending s) (contexts s) (pendingDmaLandings_ s) (transfers s) (dma_completion_tokens s)
    (read_pending s) (request_pending s) (send_retry_queue s) (cancelRegistry s) (next_dma_completion_token s) (next_dma_request_id s)
    (nextLocalDmaTag_ s) (dmaLandingBackpressureRetries_ s) (dmaLandingRetryScheduled_ s)
    (dma_retry_event_scheduled s) (dma_retry_tick_counter s) (next_object s) (send_attempts s).

Definition init (m : LocalMem.t) : t :=
  mk m ∅ ∅ ∅ ∅ ∅ ∅ ∅ [] ∅ 1 1 1 0 false false 0 1 0.

Inductive effect :=
| NetSend (r : Request)
| Run (client : Z) (ok : bool)
| AnswerClient (client : Z) (ok : bool) (tag : Z) (data : list Z)
| LocalEvent (e : LocalMem.effect)
| ReadComplete (requestId : Z)
| RetryTick.

(** *** Commands *)

Definition cmd : Type := t -> option (list effect * t).
Definition skip : cmd := fun s => Some ([], s).
Definition fatal : cmd := fun _ => None.
Definition emit (o : list effect) : cmd := fun s => Some (o, s).
Definition modify (f : t -> t) : cmd := fun s => Some ([], f s).
Definition andThen (f g : cmd) : cmd := fun s =>
  match f s with
  | None => None
  | Some (o, s1) => match g s1 with None => None | Some (o', s2) => Some (o ++ o', s2) end
  end.
Declare Scope dma_scope.
Delimit Scope dma_scope with dma.
Notation "f ⨟ g" := (andThen f g) (at level 60, right associativity) : dma_scope.
#[local] Open Scope dma_scope.

(** A loop over the keys of a map as they were when it started. *)
Fixpoint each (ks : list Z) (f : Z -> cmd) : cmd :=
  match ks with [] => skip | k :: ks => f k ⨟ each ks f end.

(** *** The storage *)

Definition storage (s : t) : Storage.t := LocalMem.storage (lm s).
Definition set_storage (m : Storage.t) (s : t) : t := s <| lm := (lm s) <| LocalMem.storage := m |> |>.

Definition write_u64_to_storage (a v : Z) : cmd := fun s =>
  match Storage.write_u64 a v (storage s) with
  | Some m => Some ([], set_storage m s)
  | None => None
  end.

Definition wr_to_globalmem (a n : Z) (data : list Z) : cmd := fun s =>
  match LocalMem.wr_to_globalmem a n data (lm s) with
  | Some m => Some ([], s <| lm := m |>)
  | None => None
  end.

Abbreviation DMA_FLAG_REGION_SIZE := 64.
Abbreviation READ0_SEQ_OFFSET := 64.
Abbreviation READ0_FLAG_OFFSET := 56.
Abbreviation READ1_SEQ_OFFSET := 48.
Abbreviation READ1_FLAG_OFFSET := 40.
Abbreviation WRITE_SEQ_OFFSET := 32.
Abbreviation WRITE_FLAG_OFFSET := 24.
Abbreviation READ_SLOT_SELECT_OFFSET := 16.

Definition window_end (s : t) : Z := LocalMem.base (lm s) + LocalMem.size (lm s).

(** The addresses of the sequence and flag words of a direction. *)
Definition get_dma_flag_addrs (is_write : bool) (read_slot : Z) (s : t) : option (Z * Z) :=
  let at_ off := u64 (window_end s - off) in
  if LocalMem.size (lm s) <? DMA_FLAG_REGION_SIZE then None
  else if is_write then Some (at_ WRITE_SEQ_OFFSET, at_ WRITE_FLAG_OFFSET)
  else if read_slot =? 0 then Some (at_ READ0_SEQ_OFFSET, at_ READ0_FLAG_OFFSET)
  else if read_slot =? 1 then Some (at_ READ1_SEQ_OFFSET, at_ READ1_FLAG_OFFSET)
  else None.

(** The flag address and the sequence number a transfer completes with. *)
Definition write_completion (s : t) : option (Z * Z) :=
  match get_dma_flag_addrs true 0 s with
  | None => None
  | Some (seq_addr, flag_addr) =>
      match Storage.read_u64 seq_addr (storage s) with
      | None => None | Some v => Some (flag_addr, v)
      end
  end.

Definition read_completion (s : t) : option (Z * Z) :=
  match Storage.read_u64 (u64 (window_end s - READ_SLOT_SELECT_OFFSET)) (storage s) with
  | None => None
  | Some raw =>
      match get_dma_flag_addrs false (u8 (Z.land raw 1)) s with
      | None => None
      | Some (seq_addr, flag_addr) =>
          match Storage.read_u64 seq_addr (storage s) with
          | None => None | Some v => Some (flag_addr, v)
          end
      end
  end.

Section Engine.
Variable c : Config.

(** The simulator's conversion to core time, the network's answers and the
    order in which a map is walked. *)
Variable coreTime : Z -> Z.
Variable link : Z -> bool.
Variable order : gmap Z PendingDmaOp -> list Z.
Variable landing_order : gmap Z PendingDmaLanding -> list Z.

(** *** Sending *)

Definition mark_dma_read_sent (req : Request) (s : t) : t :=
  match readKey req with
  | None => s
  | Some pending_key =>
      match dma_pending s !! pending_key with
      | None => s
      | Some op =>
          match kind op with
          | WRITE_TO_HOST => s
          | READ_TO_GM =>
              let op := if negb (first_send_seen op)
                        then op <| first_send_tick := dma_retry_tick_counter s |>
                                <| first_send_seen := true |> else op in
              s <| dma_pending :=
                 <[pending_key :=
                     op <| request_sent := true |>
                        <| last_send_tick := dma_retry_tick_counter s |>
                        <| retry_ticks_left := dma_read_retry_ticks c |>]> (dma_pending s) |>
          end
      end
  end.

(** The network is asked; its answer is that of this attempt. *)
Definition link_send (s : t) : bool * t :=
  (link (send_attempts s), s <| send_attempts := send_attempts s + 1 |>).

Fixpoint flush_loop (fuel : nat) (s : t) : list effect * t :=
  match fuel with
  | O => ([], s)
  | S fuel =>
      match send_retry_queue s with
      | [] => ([], s)
      | req :: queue =>
          let '(sent, s) := link_send s in
          if negb sent then ([], s)
          else
            let s := (mark_dma_read_sent req s) <| send_retry_queue := queue |> in
            let '(o, s) := flush_loop fuel s in (NetSend req :: o, s)
      end
  end.
Definition flush_send_retry_queue (s : t) : list effect * t :=
  flush_loop (List.length (send_retry_queue s)) s.

(** Whether the request went out at once. *)
Definition try_send (req : Request) (s : t) : bool * (list effect * t) :=
  let '(o, s) := flush_send_retry_queue s in
  match send_retry_queue s with
  | [] =>
      let '(sent, s) := link_send s in
      if sent then (true, (o ++ [NetSend req], mark_dma_read_sent req s))
      else (false, (o, s <| send_retry_queue := [req] |>))
  | queue => (false, (o, s <| send_retry_queue := queue ++ [req] |>))
  end.
Definition try_send_or_queue (req : Request) : cmd := fun s => Some (snd (try_send req s)).

Definition schedule_dma_retry_event : cmd := fun s =>
  if negb (dma_retry_event_scheduled s)
  then Some ([RetryTick], s <| dma_retry_event_scheduled := true |>) else skip s.

(** *** Reads *)

Definition read_request (op : PendingDmaOp) : option Request :=
  match Routing.destination (routing c) (host_addr op) with
  | None => None
  | Some dst =>
      Some (mkRequest (network_id c) dst (request_vn c) ((8 + 8 + 8) * 8)
        (mkEvent READ (host_addr op) (op_length op) [] (gm_dst_addr op) (network_id c) 0 0 (request_id op)
           (op_requestKind op) (op_consumer op) (op_token op))
        (Some (request_id op)))
  end.

Definition issue_dma_read_chunk (op : PendingDmaOp) : cmd := fun s =>
  match read_request op with None => None | Some req => try_send_or_queue req s end.

Definition is_issued_read (op : PendingDmaOp) : bool :=
  bool_decide (kind op = READ_TO_GM) && request_issued op.
Definition count_issued_dma_reads (s : t) : Z :=
  Z.of_nat (size (filter (fun '(_, op) => is_issued_read op = true) (dma_pending s))).

Definition set_op (key : Z) (op : PendingDmaOp) (s : t) : t :=
  s <| dma_pending := <[key := op]> (dma_pending s) |>.

(** A read enters the window. *)
Definition entered (op : PendingDmaOp) : PendingDmaOp :=
  op <| request_issued := true |> <| request_sent := false |> <| first_send_seen := false |>
     <| first_send_tick := 0 |> <| last_send_tick := 0 |> <| retry_ticks_left := dma_read_retry_ticks c |>.

Fixpoint window_loop (keys : list Z) (in_flight : Z) : cmd := fun s =>
  match keys with
  | [] => skip s
  | key :: keys =>
      match dma_pending s !! key with
      | None => window_loop keys in_flight s
      | Some op =>
          if negb (bool_decide (kind op = READ_TO_GM)) || request_issued op
          then window_loop keys in_flight s
          else
            (modify (set_op key (entered op)) ⨟ issue_dma_read_chunk (entered op) ⨟
             (if dma_read_max_inflight c <=? in_flight + 1 then skip
              else window_loop keys (in_flight + 1))) s
      end
  end.

Definition issue_pending_dma_read_window : cmd := fun s =>
  let in_flight := count_issued_dma_reads s in
  if dma_read_max_inflight c <=? in_flight then skip s
  else window_loop (order (dma_pending s)) in_flight s.

(** *** Callbacks *)

Definition finish_transfer (transfer : Z) (ok : bool) : cmd := fun s =>
  match transfers s !! transfer with
  | None => skip s
  | Some tr =>
      Some (match tr_callback tr with Client n => [Run n ok] | _ => [] end,
            s <| transfers := delete transfer (transfers s) |>)
  end.

(** Reads the next chunk of a transfer out of this memory. *)
Definition pump_transfer (now transfer : Z) : cmd := fun s =>
  match transfers s !! transfer with
  | None => skip s
  | Some tr =>
      let chunkBytes := Z.min (tr_length tr - tr_offset tr)
                          (LocalMem.localAccessMaxRequestBytes_ (local c)) in
      let localTag := nextLocalDmaTag_ s in
      let s := s <| nextLocalDmaTag_ := localTag ⊞ 1 |> in
      let '(accepted, (o, m)) :=
        LocalMem.localReadAsync (local c) coreTime now (gmSrc tr ⊞ tr_offset tr) chunkBytes
          LocalMem.CDma localTag (Some (LocalMem.DmaSource transfer chunkBytes)) (lm s) in
      (emit (map LocalEvent o) ⨟ modify (fun s => s <| lm := m |>) ⨟
       (if accepted then skip else finish_transfer transfer false)) s
  end.

Definition run_callback (now : Z) (k : DmaCallback) (ok : bool) : cmd := fun s =>
  match k with
  | NoCallback => skip s
  | Client n => emit [Run n ok] s
  | NextChunk transfer chunkBytes =>
      match transfers s !! transfer with
      | None => skip s
      | Some tr =>
          if negb ok then finish_transfer transfer false s
          else
            let tr := tr <| tr_offset := tr_offset tr + chunkBytes |> in
            let s := s <| transfers := <[transfer := tr]> (transfers s) |> in
            if tr_offset tr =? tr_length tr then finish_transfer transfer true s
            else pump_transfer now transfer s
      end
  end.

Definition set_token (token : Z) (s : t) : t :=
  if negb (token =? 0) then s <| dma_completion_tokens := <[token := true]> (dma_completion_tokens s) |>
  else s.

(** The end of a burst whose transfer has a context: [okay] joins the context's
    verdict; [with_token] is false where the source forgets the token. *)
Definition finish_context (now : Z) (key : Z) (okay with_token : bool) : cmd := fun s =>
  match contexts s !! key with
  | None => skip s
  | Some x =>
      let x := x <| ok := ok x && okay |> in
      let x := if 0 <? remaining x then x <| remaining := remaining x - 1 |> else x in
      let s := s <| contexts := <[key := x]> (contexts s) |> in
      if negb (remaining x =? 0) then skip s
      else
        ((if cx_completion_enabled x
          then write_u64_to_storage (cx_completion_flag_addr x) (cx_completion_value x) else skip) ⨟
         (if with_token then modify (set_token (cx_completion_token x)) else skip) ⨟
         run_callback now (cx_cb x) (ok x)) s
  end.

Definition finish_single (now : Z) (op : PendingDmaOp) (okay with_token : bool) : cmd :=
  (if completion_enabled op
   then write_u64_to_storage (completion_flag_addr op) (completion_value op) else skip) ⨟
  (if with_token then modify (set_token (completion_token op)) else skip) ⨟
  run_callback now (cb op) okay.

Definition finish_op (now : Z) (op : PendingDmaOp) (okay with_token : bool) : cmd :=
  match ctx op with
  | Some key => finish_context now key okay with_token
  | None => finish_single now op okay with_token
  end.

Definition finishDmaReadLanding (now : Z) (op : PendingDmaOp) (okay : bool) : cmd :=
  finish_op now op okay true.

(** *** Landing *)

Definition scheduleDmaLandingRetry : cmd := fun s =>
  if dmaLandingRetryScheduled_ s then skip s
  else Some ([LocalEvent (LocalMem.Event 1 0)], s <| dmaLandingRetryScheduled_ := true |>).

Definition issueNextDmaLandingChunk (now landingTag : Z) : cmd := fun s =>
  match pendingDmaLandings_ s !! landingTag with
  | None => skip s
  | Some landing =>
      if chunkInFlight landing then skip s
      else if Z.of_nat (List.length (ld_data landing)) <=? ld_offset landing then
        (modify (fun s => s <| pendingDmaLandings_ := delete landingTag (pendingDmaLandings_ s) |>) ⨟
         finishDmaReadLanding now (op landing) true) s
      else
        let chunkBytes := Z.min (LocalMem.localAccessMaxRequestBytes_ (local c))
                            (Z.of_nat (List.length (ld_data landing)) - ld_offset landing) in
        let chunk := take (Z.to_nat chunkBytes) (drop (Z.to_nat (ld_offset landing)) (ld_data landing)) in
        let chunkAddr := gm_dst_addr (op landing) ⊞ ld_offset landing in
        let '(accepted, (o, m)) :=
          LocalMem.localWriteAsync (local c) coreTime now chunkAddr chunk LocalMem.CDma landingTag
            (Some (LocalMem.DmaLanding chunkBytes)) (lm s) in
        (emit (map LocalEvent o) ⨟ modify (fun s => s <| lm := m |>) ⨟
         (if accepted
          then modify (fun s => s <| pendingDmaLandings_ :=
                 <[landingTag := landing <| chunkInFlight := true |>]> (pendingDmaLandings_ s) |>)
          else modify (fun s => s <| dmaLandingBackpressureRetries_ :=
                 dmaLandingBackpressureRetries_ s ⊞ 1 |>) ⨟ scheduleDmaLandingRetry)) s
  end.

(** The callback of a landing's write. *)
Definition landing_written (now chunkBytes : Z) (okay : bool) (landingTag : Z) : cmd := fun s =>
  match pendingDmaLandings_ s !! landingTag with
  | None => skip s
  | Some landing =>
      let landing := landing <| chunkInFlight := false |> in
      if negb okay then
        (modify (fun s => s <| pendingDmaLandings_ := delete landingTag (pendingDmaLandings_ s) |>) ⨟
         finishDmaReadLanding now (op landing) false) s
      else
        (modify (fun s => s <| pendingDmaLandings_ :=
           <[landingTag := landing <| ld_offset := ld_offset landing + chunkBytes |>]>
             (pendingDmaLandings_ s) |>) ⨟
         issueNextDmaLandingChunk now landingTag) s
  end.

Definition completeDmaReadToLocalMemory (now : Z) (op : PendingDmaOp) (data : list Z) : cmd := fun s =>
  if negb (ownerGeneration op =? 0) &&
     negb (Fence.matches (ownerGeneration op) (LocalMem.attentionGenerationFence_ (lm s)))
  then skip s
  else
    let landingTag := nextLocalDmaTag_ s in
    (modify (fun s => s <| nextLocalDmaTag_ := landingTag ⊞ 1 |> <| pendingDmaLandings_ :=
       match pendingDmaLandings_ s !! landingTag with
       | Some _ => pendingDmaLandings_ s
       | None => <[landingTag := mkLanding op data 0 false]> (pendingDmaLandings_ s)
       end |>) ⨟
     issueNextDmaLandingChunk now landingTag) s.

Definition stalled (s : t) (landingTag : Z) : bool :=
  match pendingDmaLandings_ s !! landingTag with
  | Some landing => negb (chunkInFlight landing)
  | None => false
  end.
Definition retryDmaLandingChunks (now : Z) : cmd := fun s =>
  each (filter (fun tg => stalled s tg = true) (landing_order (pendingDmaLandings_ s)))
    (issueNextDmaLandingChunk now) s.

(** *** Timeouts *)

(** One read of the loop of [process_dma_read_retries]; [true] tells that it is
    to be erased. *)
Definition retry_one (now key : Z) (s : t) : option (bool * (list effect * t)) :=
  match dma_pending s !! key with
  | None => Some (false, ([], s))
  | Some op =>
      if negb (bool_decide (kind op = READ_TO_GM)) || negb (request_issued op) || negb (request_sent op)
      then Some (false, ([], s))
      else if 0 <? retry_ticks_left op then
        Some (false, ([], set_op key (op <| retry_ticks_left := retry_ticks_left op - 1 |>) s))
      else if retry_attempts op <? dma_read_max_retries c then
        let op := op <| retry_attempts := retry_attempts op + 1 |> <| request_sent := false |> in
        match issue_dma_read_chunk op (set_op key op s) with
        | None => None
        | Some r => Some (false, r)
        end
      else
        match finish_op now op false false s with
        | None => None
        | Some r => Some (true, r)
        end
  end.

Fixpoint retry_loop (now : Z) (keys : list Z) (s : t) : option (list Z * (list effect * t)) :=
  match keys with
  | [] => Some ([], ([], s))
  | key :: keys =>
      match retry_one now key s with
      | None => None
      | Some (erase, (o, s)) =>
          match retry_loop now keys s with
          | None => None
          | Some (ks, (o', s)) => Some ((if erase then [key] else []) ++ ks, (o ++ o', s))
          end
      end
  end.

Definition erase_ops (ks : list Z) (s : t) : t :=
  s <| dma_pending := foldr delete (dma_pending s) ks |>.

Definition process_dma_read_retries (now : Z) : cmd := fun s =>
  if bool_decide (dma_pending s = ∅) then skip s
  else
    match retry_loop now (order (dma_pending s)) s with
    | None => None
    | Some (ks, r) => (emit (fst r) ⨟ issue_pending_dma_read_window) (erase_ops ks (snd r))
    end.

Definition schedule_if_pending : cmd := fun s =>
  if bool_decide (dma_pending s = ∅) then skip s else schedule_dma_retry_event s.

Definition handleSelfEvent (now : Z) : cmd :=
  modify (fun s => s <| dma_retry_tick_counter := dma_retry_tick_counter s ⊞ 1 |>) ⨟
  process_dma_read_retries now ⨟
  modify (fun s => s <| dma_retry_event_scheduled := false |>) ⨟
  schedule_if_pending.

(** *** Starting transfers *)

(** [(offset, xfer)] of the bursts. *)
Fixpoint bursts (fuel : nat) (offset remaining : Z) : list (Z * Z) :=
  match fuel with
  | O => []
  | S fuel =>
      if 0 <? remaining then
        let xfer := if remaining <? dma_burst_bytes c then remaining else dma_burst_bytes c in
        (offset, xfer) :: bursts fuel (offset + xfer) (remaining - xfer)
      else []
  end.
(** A burst has at least one byte, so [length] rounds are enough. *)
Definition all_bursts (length : Z) : list (Z * Z) := bursts (Z.to_nat length) 0 length.

Definition burst_count (length : Z) : Z := u64 (length + dma_burst_bytes c - 1) / dma_burst_bytes c.

Definition generation_owner (s : t) : Z := LocalMem.owner (local c) (lm s).
Definition generation_token (s : t) : Z :=
  if generation_owner s =? 0 then 0
  else CancelRegistry.token (u64 (core_id c)) (generation_owner s).

(** The shared context of a transfer of more than one burst. *)
Definition new_context (host gm length flag_addr seq_value token : Z) (k : DmaCallback) (s : t)
    : option Z * t :=
  if dma_burst_bytes c <? length then
    let key := next_object s in
    (Some key,
     s <| next_object := key + 1 |>
       <| contexts := <[key := mkContext host gm length (dma_burst_bytes c) (burst_count length) true k
                          true flag_addr seq_value token]> (contexts s) |>)
  else (None, s).

Definition read_op (src_pa gm_dst flag_addr seq_value token : Z) (k : DmaCallback)
    (rk : DmaRequestKind) (consumer : DmaConsumerMetadata) (x : option Z) (burst : Z * Z) (s : t)
    : PendingDmaOp :=
  mkOp READ_TO_GM (next_dma_request_id s) (src_pa ⊞ fst burst) (gm_dst ⊞ fst burst) (snd burst) rk consumer
    (match x with Some _ => NoCallback | None => k end) x
    (match x with Some _ => false | None => true end) flag_addr seq_value token
    (dma_read_retry_ticks c) 0 false false false 0 0 (generation_owner s) (generation_token s).

Definition enqueue_read (src_pa gm_dst flag_addr seq_value token : Z) (k : DmaCallback)
    (rk : DmaRequestKind) (consumer : DmaConsumerMetadata) (x : option Z) (s : t) (burst : Z * Z) : t :=
  let op := read_op src_pa gm_dst flag_addr seq_value token k rk consumer x burst s in
  set_op (request_id op) op (s <| next_dma_request_id := next_dma_request_id s ⊞ 1 |>).

Definition dma_read_from_host_to_globalmem_impl (src_pa length gm_dst : Z) (k : DmaCallback)
    (token : Z) (rk : DmaRequestKind) (consumer : DmaConsumerMetadata) : cmd := fun s =>
  if (gm_dst <? LocalMem.base (lm s)) || (u64 (window_end s) <? gm_dst ⊞ length) then None
  else
    match read_completion s with
    | None => None
    | Some (flag_addr, seq_value) =>
        let '(x, s) := new_context src_pa gm_dst length flag_addr seq_value token k s in
        (modify (fun s => foldl (enqueue_read src_pa gm_dst flag_addr seq_value token k rk consumer x) s
                            (all_bursts length)) ⨟
         issue_pending_dma_read_window ⨟ schedule_dma_retry_event) s
    end.

Definition dma_read_from_host_to_globalmem (src_pa length gm_dst : Z) (k : DmaCallback)
    (rk : DmaRequestKind) (consumer : DmaConsumerMetadata) : cmd :=
  dma_read_from_host_to_globalmem_impl src_pa length gm_dst k 0 rk consumer.

(** *** Writes *)

Definition write_op (dst_pa flag_addr seq_value token : Z) (k : DmaCallback) (rk : DmaRequestKind)
    (x : option Z) (burst : Z * Z) (s : t) : PendingDmaOp :=
  mkOp WRITE_TO_HOST 0 (dst_pa ⊞ fst burst) 0 (snd burst) rk no_consumer
    (match x with Some _ => NoCallback | None => k end) x
    (match x with Some _ => false | None => true end) flag_addr seq_value token
    0 0 false false false 0 0 (generation_owner s) (generation_token s).

Definition send_write (dst_pa flag_addr seq_value token : Z) (data : list Z) (k : DmaCallback)
    (rk : DmaRequestKind) (x : option Z) (burst : Z * Z) : cmd := fun s =>
  let op := write_op dst_pa flag_addr seq_value token k rk x burst s in
  let chunk := take (Z.to_nat (snd burst)) (drop (Z.to_nat (fst burst)) data) in
  match Routing.destination (routing c) (host_addr op) with
  | None => None
  | Some dst =>
      (modify (set_op (host_addr op) op) ⨟
       try_send_or_queue
         (mkRequest (network_id c) dst (write_vn c) (u64 ((8 + 8 + snd burst) * 8))
            (mkEvent DMA_WRITE (host_addr op) (snd burst) chunk 0 (-1) 0 0 (request_id op) rk no_consumer
               (op_token op)) None)) s
  end.

Fixpoint each_burst (bs : list (Z * Z)) (f : Z * Z -> cmd) : cmd :=
  match bs with [] => skip | b :: bs => f b ⨟ each_burst bs f end.

Definition dma_write_to_host_impl (dst_pa length : Z) (data : list Z) (k : DmaCallback) (token : Z)
    (rk : DmaRequestKind) : cmd := fun s =>
  if negb (Z.of_nat (List.length data) =? length) then None
  else
    match write_completion s with
    | None => None
    | Some (flag_addr, seq_value) =>
        let '(x, s) := new_context dst_pa 0 length flag_addr seq_value token k s in
        each_burst (all_bursts length) (send_write dst_pa flag_addr seq_value token data k rk x) s
    end.

Definition dma_write_to_host (dst_pa length : Z) (data : list Z) (k : DmaCallback)
    (rk : DmaRequestKind) : cmd :=
  dma_write_to_host_impl dst_pa length data k 0 rk.

Definition out_of_window (a n : Z) (s : t) : bool :=
  (a <? LocalMem.base (lm s)) || (LocalMem.size (lm s) <? a ⊟ LocalMem.base (lm s)) ||
  (LocalMem.size (lm s) ⊟ (a ⊟ LocalMem.base (lm s)) <? n).

Definition dma_write_from_globalmem_to_host (now gm_src dst_pa length : Z) (k : DmaCallback)
    (rk : DmaRequestKind) : cmd := fun s =>
  match k with
  | NoCallback => skip s
  | _ =>
      if (length =? 0) || out_of_window gm_src length s then run_callback now k false s
      else
        let transfer := next_object s in
        (modify (fun s => s <| next_object := transfer + 1 |> <| transfers :=
           <[transfer := mkTransfer gm_src dst_pa length 0 k rk]> (transfers s) |>) ⨟
         pump_transfer now transfer) s
  end.

(** The callback of the local read of a chunk to be written out. *)
Definition source_read (now transfer chunkBytes : Z) (okay : bool) (data : list Z) : cmd := fun s =>
  match transfers s !! transfer with
  | None => skip s
  | Some tr =>
      if negb okay || negb (Z.of_nat (List.length data) =? chunkBytes)
      then finish_transfer transfer false s
      else dma_write_to_host (hostDst tr ⊞ tr_offset tr) chunkBytes data (NextChunk transfer chunkBytes)
             (tr_kind tr) s
  end.

(** *** Completion tokens *)

Definition allocate_dma_completion_token (s : t) : Z * t :=
  let token := next_dma_completion_token s in
  (token, s <| next_dma_completion_token := token ⊞ 1 |>
            <| dma_completion_tokens := <[token := false]> (dma_completion_tokens s) |>).

Definition complete_empty (length token : Z) : cmd :=
  if length =? 0 then modify (fun s => s <| dma_completion_tokens :=
    <[token := true]> (dma_completion_tokens s) |>) else skip.

(** The token returned and the command. *)
Definition dma_write_to_host_async (dst_pa length : Z) (data : list Z) (s : t)
    : Z * option (list effect * t) :=
  let '(token, s) := allocate_dma_completion_token s in
  (token, (dma_write_to_host_impl dst_pa length data NoCallback token Unknown ⨟
           complete_empty length token) s).

Definition dma_read_from_host_to_globalmem_async (src_pa length gm_dst : Z) (rk : DmaRequestKind) (s : t)
    : Z * option (list effect * t) :=
  let '(token, s) := allocate_dma_completion_token s in
  (token, (dma_read_from_host_to_globalmem_impl src_pa length gm_dst NoCallback token rk no_consumer ⨟
           complete_empty length token) s).

Definition dma_completion_done (token : Z) (s : t) : bool :=
  (token =? 0) || match dma_completion_tokens s !! token with Some b => b | None => false end.

Definition dma_completion_retire (token : Z) : cmd :=
  if token =? 0 then skip
  else modify (fun s => s <| dma_completion_tokens := delete token (dma_completion_tokens s) |>).

(** *** Events of the local memory *)

Definition handleLocalAccessEvent (now id : Z) : cmd := fun s =>
  if id =? 0 then
    (modify (fun s => s <| dmaLandingRetryScheduled_ := false |>) ⨟ retryDmaLandingChunks now) s
  else
    let '(a, (o, m)) := LocalMem.handleLocalAccessEvent (local c) coreTime now id (lm s) in
    (emit (map LocalEvent o) ⨟ modify (fun s => s <| lm := m |>) ⨟
     match a with
     | None => skip
     | Some a =>
         match LocalMem.a_callback a with
         | LocalMem.Client n => emit [AnswerClient n (LocalMem.a_ok a) (LocalMem.a_tag a) (LocalMem.a_data a)]
         | LocalMem.DmaLanding chunkBytes => landing_written now chunkBytes (LocalMem.a_ok a) (LocalMem.a_tag a)
         | LocalMem.DmaSource transfer chunkBytes =>
             source_read now transfer chunkBytes (LocalMem.a_ok a) (LocalMem.a_data a)
         end
     end) s.

(** *** Messages from the network *)

Definition check_range (a n : Z) : cmd := fun s =>
  if (LocalMem.base (lm s) <=? a) && (a ⊞ n <=? u64 (window_end s)) then skip s else None.

(** A part of a read made for the request scheduler. *)
Definition receive_part (ev : event) (pending : PendingReadRequest) : cmd := fun s =>
  let id := requestId ev in
  let writeAddr := if 0 <? rr_total_len pending then addr ev else rr_gm_dst_addr pending in
  let pending := pending <| rr_received_len := rr_received_len pending ⊞ length ev |> in
  (wr_to_globalmem writeAddr (length ev) (data ev) ⨟
   (if (rr_total_len pending =? 0) || (rr_total_len pending <=? rr_received_len pending) then
      write_u64_to_storage (rr_flag_addr pending) (rr_value pending) ⨟
      modify (fun s => s <| request_pending := delete id (request_pending s) |>) ⨟
      emit [ReadComplete id]
    else modify (fun s => s <| request_pending := <[id := pending]> (request_pending s) |>))) s.

Definition receive_write (ev : event) : cmd := fun s =>
  match request_pending s !! requestId ev with
  | Some pending => receive_part ev pending s
  | None =>
      (check_range (addr ev) (length ev) ⨟
       wr_to_globalmem (addr ev) (length ev) (data ev) ⨟
       match read_pending s !! addr ev with
       | Some reply =>
           write_u64_to_storage (rp_flag_addr reply) (rp_value reply) ⨟
           modify (fun s => s <| read_pending := delete (addr ev) (read_pending s) |>)
       | None =>
           if negb (completionFlagAddr ev =? 0)
           then write_u64_to_storage (completionFlagAddr ev) (completionValue ev) else skip
       end) s
  end.

Definition receive_read (from : Z) (ev : event) : cmd := fun s =>
  (check_range (addr ev) (length ev) ⨟ fun s =>
   match LocalMem.rd_from_globalmem (addr ev) (length ev) (lm s) with
   | None => None
   | Some bytes =>
       try_send_or_queue
         (mkRequest (network_id c) (if 0 <=? returnEndpoint ev then returnEndpoint ev else from)
            (response_vn c) (u64 ((8 + 8 + Z.of_nat (List.length bytes)) * 8))
            (mkEvent WRITE (returnAddr ev) (length ev) bytes (returnAddr ev) (returnEndpoint ev)
               (completionFlagAddr ev) (completionValue ev) (requestId ev) Unknown no_consumer
               (ownerGenerationToken ev)) None) s
   end) s.

Definition receive_dma_write (ev : event) : cmd :=
  check_range (addr ev) (length ev) ⨟ fun s =>
  let '(is_cancelled, r) := CancelRegistry.cancelledToken (ownerGenerationToken ev) (cancelRegistry s) in
  let s := s <| cancelRegistry := r |> in
  if is_cancelled then skip s else wr_to_globalmem (addr ev) (length ev) (data ev) s.

Definition receive_read_complete (now : Z) (ev : event) : cmd := fun s =>
  (match dma_pending s !! requestId ev with
   | Some op =>
       modify (fun s => s <| dma_pending := delete (requestId ev) (dma_pending s) |>) ⨟
       (if bool_decide (kind op = READ_TO_GM) then completeDmaReadToLocalMemory now op (data ev) else skip)
   | None =>
       match request_pending s !! requestId ev with
       | Some pending => receive_part ev pending
       | None =>
           if negb (completionFlagAddr ev =? 0) then
             check_range (addr ev) (length ev) ⨟
             wr_to_globalmem (addr ev) (length ev) (data ev) ⨟
             write_u64_to_storage (completionFlagAddr ev) (completionValue ev)
           else skip
       end
   end ⨟ issue_pending_dma_read_window) s.

Definition receive_write_complete (now : Z) (ev : event) : cmd := fun s =>
  let s := s <| cancelRegistry :=
             snd (CancelRegistry.discardToken (ownerGenerationToken ev) (cancelRegistry s)) |> in
  match dma_pending s !! addr ev with
  | Some op =>
      (modify (fun s => s <| dma_pending := delete (addr ev) (dma_pending s) |>) ⨟
       (if bool_decide (kind op = WRITE_TO_HOST) then finish_op now op true true else skip)) s
  | None => skip s
  end.

Definition receive (now from : Z) (ev : event) : cmd :=
  match type ev with
  | WRITE => receive_write ev
  | READ => receive_read from ev
  | DMA_WRITE => receive_dma_write ev
  | DMA_READ_COMPLETE => receive_read_complete now ev
  | DMA_WRITE_COMPLETE => receive_write_complete now ev
  | DMA_CONSUMER_PROGRESS => skip
  end.

Fixpoint receive_all (now : Z) (evs : list (Z * event)) : cmd :=
  match evs with [] => skip | (from, ev) :: evs => receive now from ev ⨟ receive_all now evs end.

(** The messages that have arrived on a virtual network. *)
Definition handle_receives (now : Z) (evs : list (Z * event)) : cmd :=
  (fun s => Some (flush_send_retry_queue s)) ⨟
  receive_all now evs ⨟ issue_pending_dma_read_window ⨟ schedule_if_pending.

Definition handle_send_available (s : t) : list effect * t := flush_send_retry_queue s.

(** *** The request scheduler's interface *)

Definition ctrlRegisterPendingReadRequest (id gm_dst flag_addr value totalLength : Z) : cmd :=
  if id =? 0 then skip
  else modify (fun s => s <| request_pending :=
         <[id := mkReadRequest gm_dst flag_addr value totalLength 0]> (request_pending s) |>).
Definition ctrlIsReadRequestPending (id : Z) (s : t) : bool :=
  bool_decide (is_Some (request_pending s !! id)).

(** *** Generations *)

Definition fence (s : t) : Fence.t := LocalMem.attentionGenerationFence_ (lm s).
Definition set_fence (f : Fence.t) (s : t) : t :=
  s <| lm := (lm s) <| LocalMem.attentionGenerationFence_ := f |> |>.

Definition beginAttentionGeneration (generation : Z) (s : t) : bool * t :=
  if LocalMem.attentionClusterEnable_ (local c) then
    let '(b, f) := Fence.begin generation (fence s) in (b, set_fence f s)
  else (false, s).

Definition attentionGenerationDrained (generation : Z) (s : t) : bool :=
  bool_decide (map_Forall (fun _ o => ownerGeneration o <> generation) (dma_pending s)) &&
  LocalMem.local_drained generation (lm s) &&
  bool_decide (map_Forall (fun _ l => ownerGeneration (op l) <> generation) (pendingDmaLandings_ s)).

Definition retireAttentionGeneration (generation : Z) (s : t) : bool * t :=
  if attentionGenerationDrained generation s then
    let '(b, f) := Fence.retire generation (fence s) in (b, set_fence f s)
  else (false, s).

Definition of_generation (generation : Z) (o : PendingDmaOp) : bool := ownerGeneration o =? generation.

(** Queued writes of the generation are dropped, each giving up its token. *)
Fixpoint drop_writes (token : Z) (q : list Request) (r : CancelRegistry.registry)
    : list Request * CancelRegistry.registry :=
  match q with
  | [] => ([], r)
  | req :: q =>
      if bool_decide (type (payload req) = DMA_WRITE) && (ownerGenerationToken (payload req) =? token)
      then drop_writes token q (snd (CancelRegistry.discardToken token r))
      else let '(q, r) := drop_writes token q r in (req :: q, r)
  end.

(** How many operations were cancelled, and the command. *)
Definition cancelAttentionGeneration (generation : Z) (s : t) : Z * option (list effect * t) :=
  let s := set_fence (snd (Fence.cancel generation (fence s))) s in
  let mine := filter (fun '(_, o) => of_generation generation o = true) (dma_pending s) in
  let pendingRemoteWrites :=
    Z.of_nat (size (filter (fun '(_, o) => kind o = WRITE_TO_HOST) mine)) in
  let r := CancelRegistry.cancel (u64 (core_id c)) generation pendingRemoteWrites (cancelRegistry s) in
  let '(q, r) := drop_writes (CancelRegistry.token (u64 (core_id c)) generation) (send_retry_queue s) r in
  let landings := filter (fun '(_, l) => of_generation generation (op l) = true) (pendingDmaLandings_ s) in
  let '(n, m) := LocalMem.cancel_accesses generation (lm s) in
  (u32 (Z.of_nat (size mine) + Z.of_nat (size landings) + n),
   issue_pending_dma_read_window
     (s <| cancelRegistry := r |> <| send_retry_queue := q |>
        <| dma_pending := filter (fun '(_, o) => of_generation generation o = false) (dma_pending s) |>
        <| pendingDmaLandings_ :=
             filter (fun '(_, l) => of_generation generation (op l) = false) (pendingDmaLandings_ s) |>
        <| lm := m |>)).

End Engine.

End Dma.
