(* ===== verification/DmaCompletion.v ===== *)
(** * Completion of DMA transfers

    Proofs about the DMA engine of [Dma]: the bursts of a transfer cover it
    exactly, and its completion callback runs once, with the last burst.  The
    argument counts the bursts of each callback among the pending and landing
    operations; sending, retrying and local-memory traffic are shown not to touch
    what is counted. *)

From S2P Require Import Prelude Telemetry Cluster GroupMsg LocalMem Dma.
From stdpp Require Import strings pretty.
#[local] Open Scope Z_scope.
#[local] Open Scope mach_scope.

(** ** Bursts *)

Section DmaFacts.
Import Net Dma.
Local Open Scope dma_scope.

Section Engine.
Variable c : Config.
Variable coreTime : Z -> Z.
Variable link : Z -> bool.
Variable order : gmap Z PendingDmaOp -> list Z.
Variable landing_order : gmap Z PendingDmaLanding -> list Z.
Hypothesis Hburst : 0 < dma_burst_bytes c < 2 ^ 32.

Lemma bursts_exact fuel : forall offset rest,
  0 <= rest <= Z.of_nat fuel ->
  let bs := bursts c fuel offset rest in
  concat (map (fun '(o, n) => seqZ o n) bs) = seqZ offset rest /\
  Forall (fun '(o, n) => offset <= o /\ 0 < n <= dma_burst_bytes c /\ o + n <= offset + rest) bs /\
  Z.of_nat (List.length bs) = (rest + dma_burst_bytes c - 1) / dma_burst_bytes c.
Proof.
  induction fuel as [|fuel IH]; intros offset rest Hr; cbv zeta.
  { assert (rest = 0) as -> by lia. simpl. split; [done|]. split; [done|].
    symmetry. apply Z.div_small. lia. }
  cbn [bursts]. destruct (0 <? rest) eqn:E0.
  2: { assert (rest = 0) as -> by lia. simpl. split; [done|]. split; [done|].
       symmetry. apply Z.div_small. lia. }
  cbv zeta. set (xfer := if rest <? dma_burst_bytes c then rest else dma_burst_bytes c).
  assert (0 < xfer <= dma_burst_bytes c /\ xfer <= rest /\ (xfer < dma_burst_bytes c -> xfer = rest))
    as (Hx & Hxr & Hxl) by (unfold xfer; destruct (rest <? dma_burst_bytes c) eqn:E; lia).
  clearbody xfer. destruct (IH (offset + xfer) (rest - xfer) ltac:(lia)) as (Hc & Hf & Hn).
  cbn [map concat List.length]. split_and!.
  - rewrite Hc. replace rest with (xfer + (rest - xfer)) at 2 by lia. by rewrite seqZ_app by lia.
  - constructor; [lia|]. eapply Forall_impl; [exact Hf|]. intros [o n]. lia.
  - rewrite Nat2Z.inj_succ, Hn. destruct (decide (xfer = dma_burst_bytes c)) as [->|Hne].
    + replace (rest + dma_burst_bytes c - 1) with
        (rest - dma_burst_bytes c + dma_burst_bytes c - 1 + 1 * dma_burst_bytes c) by lia.
      rewrite Z.div_add by lia. lia.
    + rewrite (Hxl ltac:(lia)), Z.sub_diag. rewrite (Z.div_small (0 + _ - 1)) by lia.
      apply Z.div_unique with (r := rest - 1); lia.
Qed.

(** The bursts of a transfer cover it exactly: laid end to end their byte
    ranges are the range of the transfer, in order and without overlap, each
    burst is non-empty and within the configured size, and their number is the
    count with which the shared context starts. *)
Theorem bursts_partition (n : Z) :
  0 <= n -> n + dma_burst_bytes c <= 2 ^ 64 ->
  concat (map (fun '(o, x) => seqZ o x) (all_bursts c n)) = seqZ 0 n /\
  Forall (fun '(o, x) => 0 <= o /\ 0 < x <= dma_burst_bytes c /\ o + x <= n) (all_bursts c n) /\
  Z.of_nat (List.length (all_bursts c n)) = burst_count c n.
Proof.
  intros Hn Hw. destruct (bursts_exact (Z.to_nat n) 0 n ltac:(lia)) as (H1 & H2 & H3).
  split; [exact H1|]. split; [exact H2|]. unfold all_bursts, burst_count. rewrite H3.
  rewrite u64_small; [done|]. unfold is_u64. lia.
Qed.

(** ** Sending changes nothing that matters to completion *)

(** What completion depends on in an operation: its context, its callback and
    the generation that owns it. *)
Definition tag := (option Z * DmaCallback * Z)%type.
Definition tag_of (o : PendingDmaOp) : tag := (ctx o, cb o, ownerGeneration o).
Definition tags (s : t) : gmap Z tag := tag_of <$> dma_pending s.
Definition landing_tags (s : t) : gmap Z tag := (tag_of ∘ op) <$> pendingDmaLandings_ s.

Definition is_run (e : effect) : option Z := match e with Run n _ => Some n | _ => None end.
Definition runs (o : list effect) : list Z := omap is_run o.

Record quiet (s : t) (o : list effect) (s' : t) : Prop := {
  qu_tags : tags s' = tags s;
  qu_landings : landing_tags s' = landing_tags s;
  qu_contexts : contexts s' = contexts s;
  qu_transfers : transfers s' = transfers s;
  qu_fence : fence s' = fence s;
  qu_object : next_object s' = next_object s;
  qu_tag : nextLocalDmaTag_ s' = nextLocalDmaTag_ s;
  qu_runs : runs o = []
}.

Lemma quiet_refl s : quiet s [] s.
Proof. by constructor. Qed.
Lemma quiet_trans s1 o1 s2 o2 s3 : quiet s1 o1 s2 -> quiet s2 o2 s3 -> quiet s1 (o1 ++ o2) s3.
Proof.
  intros [] []. constructor; try congruence. unfold runs in *. by rewrite omap_app, qu_runs0, qu_runs1.
Qed.

Lemma set_op_tags key o o' s :
  dma_pending s !! key = Some o -> tag_of o' = tag_of o -> tags (set_op key o' s) = tags s.
Proof.
  intros Ho Ht. unfold tags, set_op. simpl. rewrite fmap_insert, Ht. apply insert_id.
  by rewrite lookup_fmap, Ho.
Qed.

Lemma mark_quiet req s : quiet s [] (mark_dma_read_sent c req s).
Proof.
  unfold mark_dma_read_sent. destruct (readKey req) as [key|]; [|apply quiet_refl].
  destruct (dma_pending s !! key) as [o|] eqn:E; [|apply quiet_refl].
  destruct (kind o); [|apply quiet_refl]. constructor; try done.
  apply (set_op_tags key o); [done|]. by destruct (first_send_seen o).
Qed.

Lemma flush_quiet fuel : forall s, let r := flush_loop c link fuel s in quiet s (fst r) (snd r).
Proof.
  induction fuel as [|fuel IH]; intros s; cbn [flush_loop]; [apply quiet_refl|].
  destruct (send_retry_queue s) as [|req q]; [apply quiet_refl|]. unfold link_send.
  destruct (link (send_attempts s)); simpl negb; cbv iota; [|by constructor].
  set (s1 := s <| send_attempts := _ |>).
  pose proof (mark_quiet req s1) as Q. set (s2 := (mark_dma_read_sent c req s1) <| send_retry_queue := q |>).
  specialize (IH s2). cbv zeta in IH. destruct (flush_loop c link fuel s2) as [o s3]. simpl in *.
  apply (quiet_trans s [NetSend req] s2 o s3); [|exact IH]. destruct Q. by constructor.
Qed.

Lemma try_send_quiet req s o s' : try_send_or_queue c link req s = Some (o, s') -> quiet s o s'.
Proof.
  unfold try_send_or_queue, try_send, flush_send_retry_queue. intros E.
  pose proof (flush_quiet (List.length (send_retry_queue s)) s) as Q. cbv zeta in Q.
  destruct (flush_loop c link _ s) as [o1 s1]. simpl in Q.
  assert (forall s2, quiet s1 [NetSend req] s2 -> quiet s (o1 ++ [NetSend req]) s2) as Hsend
    by (intros s2; by apply quiet_trans).
  destruct (send_retry_queue s1) as [|r q] eqn:Eq.
  - unfold link_send in E. destruct (link (send_attempts s1)); simpl in E; injection E as <- <-.
    + apply Hsend. pose proof (mark_quiet req (s1 <| send_attempts := send_attempts s1 + 1 |>)) as [].
      by constructor.
    + destruct Q. by constructor.
  - simpl in E. injection E as <- <-. destruct Q. by constructor.
Qed.

(** *** The generation fence is not touched by accesses *)

Lemma issue_fence cl now id m :
  LocalMem.attentionGenerationFence_ (snd (LocalMem.issueLocalAccess cl coreTime now id m)) =
  LocalMem.attentionGenerationFence_ m.
Proof.
  unfold LocalMem.issueLocalAccess. destruct (LocalMem.localAccessPending_ m !! id) as [r|]; [|done].
  cbv zeta. destruct (LocalMem.attentionClusterEnable_ cl); [|by destruct (LocalMem.kind r)].
  unfold LocalMem.record_interval. destruct (LocalMem.kind r); simpl;
    by destruct (BusyIntervalUnion.add _ _ _).
Qed.

Lemma reads_fence cl fuel now : forall m,
  LocalMem.attentionGenerationFence_ (snd (LocalMem.issue_reads cl coreTime fuel now m)) =
  LocalMem.attentionGenerationFence_ m.
Proof.
  induction fuel as [|fuel IH]; intros m; cbn [LocalMem.issue_reads]; [done|].
  destruct (LocalMem.localReadQueue_ m) as [|id q]; [done|]. case_match; [|done].
  match goal with |- context [LocalMem.issueLocalAccess cl coreTime now id ?m1] =>
    pose proof (issue_fence cl now id m1) as E; set (m0 := m1) in * end.
  destruct (LocalMem.issueLocalAccess cl coreTime now id m0) as [o m1]. specialize (IH m1).
  destruct (LocalMem.issue_reads cl coreTime fuel now m1) as [o' m2]. simpl in *. by rewrite IH, E.
Qed.

Lemma writes_fence cl fuel now : forall m,
  LocalMem.attentionGenerationFence_ (snd (LocalMem.issue_writes cl coreTime fuel now m)) =
  LocalMem.attentionGenerationFence_ m.
Proof.
  induction fuel as [|fuel IH]; intros m; cbn [LocalMem.issue_writes]; [done|].
  destruct (LocalMem.localWriteQueue_ m) as [|id q]; [done|]. case_match; [|done].
  match goal with |- context [LocalMem.issueLocalAccess cl coreTime now id ?m1] =>
    pose proof (issue_fence cl now id m1) as E; set (m0 := m1) in * end.
  destruct (LocalMem.issueLocalAccess cl coreTime now id m0) as [o m1]. specialize (IH m1).
  destruct (LocalMem.issue_writes cl coreTime fuel now m1) as [o' m2]. simpl in *. by rewrite IH, E.
Qed.

Lemma try_issue_fence cl now m :
  LocalMem.attentionGenerationFence_ (snd (LocalMem.tryIssueLocalAccesses cl coreTime now m)) =
  LocalMem.attentionGenerationFence_ m.
Proof.
  unfold LocalMem.tryIssueLocalAccesses.
  pose proof (reads_fence cl (List.length (LocalMem.localReadQueue_ m)) now m) as E1.
  destruct (LocalMem.issue_reads _ _ _ _ _) as [o m1]. simpl in E1.
  pose proof (writes_fence cl (List.length (LocalMem.localWriteQueue_ m1)) now m1) as E2.
  destruct (LocalMem.issue_writes _ _ _ _ _) as [o' m2]. simpl in *. congruence.
Qed.

Lemma enter_fence cl now m :
  LocalMem.attentionGenerationFence_ (snd (snd (LocalMem.enter_access cl coreTime now m))) =
  LocalMem.attentionGenerationFence_ m.
Proof. unfold LocalMem.enter_access. simpl. rewrite try_issue_fence. by case_match. Qed.

Lemma local_write_fence cl now a d who tg k m :
  LocalMem.attentionGenerationFence_ (snd (snd (LocalMem.localWriteAsync cl coreTime now a d who tg k m))) =
  LocalMem.attentionGenerationFence_ m.
Proof.
  unfold LocalMem.localWriteAsync. destruct k; [|done]. cbv zeta. destruct (_ || _); [done|].
  by rewrite enter_fence.
Qed.

Lemma local_event_fence cl now id m :
  LocalMem.attentionGenerationFence_ (snd (snd (LocalMem.handleLocalAccessEvent cl coreTime now id m))) =
  LocalMem.attentionGenerationFence_ m.
Proof.
  unfold LocalMem.handleLocalAccessEvent. destruct (LocalMem.localAccessPending_ m !! id) as [r|]; [|done].
  cbv zeta. destruct (LocalMem.kind r); (case_match; cbn [fst snd]; rewrite try_issue_fence; by case_match).
Qed.

(** *** Quiet commands *)

Definition quietly (f : cmd) : Prop := forall s o s', f s = Some (o, s') -> quiet s o s'.

Lemma quietly_skip : quietly skip.
Proof. intros s o s' [= <- <-]. apply quiet_refl. Qed.
Lemma quietly_then f g : quietly f -> quietly g -> quietly (f ⨟ g).
Proof.
  intros Hf Hg s o s'. unfold andThen. destruct (f s) as [[o1 s1]|] eqn:E1; [|discriminate].
  destruct (g s1) as [[o2 s2]|] eqn:E2; [|discriminate]. intros [= <- <-].
  eapply quiet_trans; [by apply Hf|by apply Hg].
Qed.
Lemma quietly_modify f : (forall s, quiet s [] (f s)) -> quietly (modify f).
Proof. intros H s o s' [= <- <-]. apply H. Qed.
Lemma quietly_issue op : quietly (issue_dma_read_chunk c link op).
Proof.
  intros s o s'. unfold issue_dma_read_chunk. destruct (read_request c op); [|discriminate].
  apply try_send_quiet.
Qed.

Lemma quietly_window keys : forall n, quietly (window_loop c link keys n).
Proof.
  induction keys as [|key keys IH]; intros n; cbn [window_loop]; [apply quietly_skip|].
  intros s o s'. destruct (dma_pending s !! key) as [op|] eqn:Eop; [|apply IH].
  destruct (_ || _); [apply IH|].
  intros E. unfold andThen at 1 in E. cbn [modify] in E.
  assert (quiet s [] (set_op key (entered c op) s)) as Q.
  { constructor; try done. by apply (set_op_tags key op). }
  destruct ((issue_dma_read_chunk c link (entered c op) ⨟ _) _) as [[o2 s2]|] eqn:E2; [|discriminate E].
  injection E as <- <-. apply (quiet_trans _ [] _ o2 _ Q). revert E2. apply quietly_then; [apply quietly_issue|].
  destruct (_ <=? _); [apply quietly_skip|apply IH].
Qed.

Lemma quietly_issue_window : quietly (issue_pending_dma_read_window c link order).
Proof.
  intros s o s'. unfold issue_pending_dma_read_window. destruct (_ <=? _); [apply quietly_skip|].
  apply quietly_window.
Qed.

Lemma quietly_schedule : quietly schedule_dma_retry_event.
Proof.
  intros s o s'. unfold schedule_dma_retry_event. destruct (negb _); [|apply quietly_skip].
  intros [= <- <-]. by constructor.
Qed.
Lemma quietly_schedule_pending : quietly schedule_if_pending.
Proof.
  intros s o s'. unfold schedule_if_pending. destruct (bool_decide _); [apply quietly_skip|].
  apply quietly_schedule.
Qed.

Lemma quietly_write_u64 a v : quietly (write_u64_to_storage a v).
Proof.
  intros s o s'. unfold write_u64_to_storage. destruct (Storage.write_u64 a v (storage s)); [|discriminate].
  intros [= <- <-]. by constructor.
Qed.
Lemma quietly_wr a n d : quietly (wr_to_globalmem a n d).
Proof.
  intros s o s'. unfold wr_to_globalmem, LocalMem.wr_to_globalmem. destruct (_ && _); [|discriminate].
  intros [= <- <-]. by constructor.
Qed.
Lemma quietly_check a n : quietly (check_range a n).
Proof.
  intros s o s'. unfold check_range. destruct (_ && _); [|discriminate]. apply quietly_skip.
Qed.
Lemma runs_local o : runs (map LocalEvent o) = [].
Proof. induction o; done. Qed.

(** ** Counting the bursts of a transfer *)

#[local] Instance callback_eq_dec : EqDecision DmaCallback.
Proof. solve_decision. Defined.

Definition in_context (k : Z) (x : tag) : Prop := fst (fst x) = Some k.
Definition single (n : Z) (x : tag) : Prop := fst (fst x) = None /\ snd (fst x) = Client n.
#[local] Instance in_context_dec k x : Decision (in_context k x).
Proof. unfold in_context. apply _. Defined.
#[local] Instance single_dec n x : Decision (single n x).
Proof. unfold single. apply _. Defined.
Definition cnt (p : tag -> Prop) `{!forall x, Decision (p x)} (l : list tag) : Z :=
  Z.of_nat (List.length (filter p l)).
Definition times (n : Z) (l : list Z) : Z := Z.of_nat (List.length (filter (fun x => x = n) l)).
Definition client_of (k : DmaCallback) : list Z := match k with Client n => [n] | _ => [] end.

Lemma cnt_cons p `{!forall x, Decision (p x)} x l : cnt p (x :: l) = (if decide (p x) then 1 else 0) + cnt p l.
Proof. unfold cnt. rewrite filter_cons. case_decide; simpl; lia. Qed.
Lemma cnt_perm p `{!forall x, Decision (p x)} l l' : l ≡ₚ l' -> cnt p l = cnt p l'.
Proof. intros P. unfold cnt. by rewrite P. Qed.
Lemma cnt_app p `{!forall x, Decision (p x)} l l' : cnt p (l ++ l') = cnt p l + cnt p l'.
Proof. unfold cnt. rewrite filter_app, length_app. lia. Qed.
Lemma cnt_nonneg p `{!forall x, Decision (p x)} l : 0 <= cnt p l.
Proof. unfold cnt. lia. Qed.
Lemma times_app n l l' : times n (l ++ l') = times n l + times n l'.
Proof. unfold times. rewrite filter_app, length_app. lia. Qed.
Lemma times_client n k : times n (client_of k) = if decide (k = Client n) then 1 else 0.
Proof.
  destruct k as [|m|tr ch]; [by rewrite decide_False| |by rewrite decide_False].
  change (client_of (Client m)) with [m]. unfold times. rewrite filter_cons.
  do 2 case_decide; try done; congruence.
Qed.

(** A callback whose transfer has a context, and one whose transfer is a single
    burst; [ran] lists the callbacks that ran. *)
Definition shared_state (l : list tag) (xs : gmap Z DmaContext) (ran : list Z) (n : Z) : Prop :=
  exists k x, xs !! k = Some x /\ cx_cb x = Client n /\
    (forall k' x', xs !! k' = Some x' -> cx_cb x' = Client n -> k' = k) /\
    cnt (single n) l = 0 /\ times n ran = if remaining x =? 0 then 1 else 0.
Definition no_context (xs : gmap Z DmaContext) (n : Z) : Prop :=
  forall k x, xs !! k = Some x -> cx_cb x <> Client n.
Definition single_state (l : list tag) (xs : gmap Z DmaContext) (ran : list Z) (n : Z) : Prop :=
  no_context xs n /\ cnt (single n) l + times n ran = 1.

Record counted (l : list tag) (xs : gmap Z DmaContext) (active object : Z) (started ran : list Z) : Prop := {
  ct_remaining : forall k x, xs !! k = Some x -> remaining x = cnt (in_context k) l;
  ct_context : Forall (fun x => forall k, in_context k x -> is_Some (xs !! k)) l;
  ct_object : forall k, is_Some (xs !! k) -> k < object;
  ct_generation : Forall (fun x => snd x = 0 \/ snd x = active) l;
  ct_idle : forall n, n ∉ started -> no_context xs n /\ cnt (single n) l = 0 /\ times n ran = 0;
  ct_started : forall n, n ∈ started -> shared_state l xs ran n \/ single_state l xs ran n
}.

Lemma counted_perm l l' xs a ob st ran : l ≡ₚ l' -> counted l xs a ob st ran -> counted l' xs a ob st ran.
Proof.
  intros P []. constructor; try done.
  - intros k x Hx. rewrite <- (cnt_perm (in_context k) _ _ P). by apply ct_remaining0.
  - by rewrite <- P.
  - by rewrite <- P.
  - intros n Hn. rewrite <- (cnt_perm (single n) _ _ P). by apply ct_idle0.
  - intros n Hn. unfold shared_state, single_state. setoid_rewrite <- (cnt_perm (single n) _ _ P).
    by apply ct_started0.
Qed.

Lemma counted_single x l xs a ob st ran :
  fst (fst x) = None -> counted (x :: l) xs a ob st ran ->
  counted l xs a ob st (ran ++ client_of (snd (fst x))).
Proof.
  intros Hx [].
  assert (forall n, cnt (single n) (x :: l) = (if decide (snd (fst x) = Client n) then 1 else 0) + cnt (single n) l)
    as Hs.
  { intros n. rewrite cnt_cons. f_equal. destruct (decide (single n x)) as [[_ E]|E].
    - by rewrite decide_True.
    - rewrite decide_False; [done|]. intros E'. by apply E. }
  assert (forall k, cnt (in_context k) (x :: l) = cnt (in_context k) l) as Hk.
  { intros k. rewrite cnt_cons, decide_False; [lia|]. unfold in_context. by rewrite Hx. }
  constructor; try (by inversion ct_context0) || (by inversion ct_generation0) || done.
  - intros k y Hy. rewrite <- Hk. by apply ct_remaining0.
  - intros n Hn. destruct (ct_idle0 n Hn) as (H1 & H2 & H3). rewrite Hs in H2. rewrite times_app, times_client.
    pose proof (cnt_nonneg (single n) l). case_decide; [lia|]. split; [done|]. lia.
  - intros n Hn. destruct (ct_started0 n Hn) as [(k & y & H1 & H2 & H3 & H4 & H5)|[H1 H2]].
    + left. exists k, y. rewrite Hs in H4. rewrite times_app, times_client.
      pose proof (cnt_nonneg (single n) l). case_decide; [lia|]. split_and!; try done; lia.
    + right. split; [done|]. rewrite Hs in H2. rewrite times_app, times_client. case_decide; lia.
Qed.

Lemma counted_shared x l xs a ob st ran k y y' :
  fst (fst x) = Some k -> xs !! k = Some y -> cx_cb y' = cx_cb y -> remaining y' = remaining y - 1 ->
  counted (x :: l) xs a ob st ran ->
  counted l (<[k := y']> xs) a ob st (ran ++ if remaining y' =? 0 then client_of (cx_cb y) else []).
Proof.
  intros Hx Hy Hcb Hr [].
  assert (forall n, cnt (single n) (x :: l) = cnt (single n) l) as Hs.
  { intros n. rewrite cnt_cons, decide_False; [lia|]. unfold single. rewrite Hx. by intros []. }
  assert (forall k', cnt (in_context k') (x :: l) = (if decide (k' = k) then 1 else 0) + cnt (in_context k') l) as Hk.
  { intros k'. rewrite cnt_cons. f_equal. destruct (decide (in_context k' x)) as [E|E]; unfold in_context in E;
      rewrite Hx in E; [rewrite decide_True|rewrite decide_False]; congruence. }
  assert (forall k' z, <[k := y']> xs !! k' = Some z ->
    exists z0, xs !! k' = Some z0 /\ cx_cb z = cx_cb z0 /\ remaining z = remaining z0 - if decide (k' = k) then 1 else 0) as Hl.
  { intros k' z [[-> <-]|[Hne Hz]]%lookup_insert_Some; [exists y; by rewrite decide_True|].
    exists z. rewrite decide_False by done. split_and!; [done|done|lia]. }
  assert (0 <= remaining y') as Hpos.
  { rewrite Hr, (ct_remaining0 k y Hy), Hk, decide_True by done. pose proof (cnt_nonneg (in_context k) l). lia. }
  assert (forall n, times n (ran ++ if remaining y' =? 0 then client_of (cx_cb y) else []) =
    times n ran + if decide (cx_cb y = Client n) then if remaining y' =? 0 then 1 else 0 else 0) as Ht.
  { intros n. rewrite times_app. f_equal. destruct (remaining y' =? 0); [by rewrite times_client|].
    by case_decide. }
  assert (forall n, no_context xs n -> no_context (<[k := y']> xs) n) as Hnone.
  { intros n Hn k' z Hz. destruct (Hl k' z Hz) as (z0 & Hz0 & -> & _). by apply (Hn k'). }
  constructor.
  - intros k' z Hz. destruct (Hl k' z Hz) as (z0 & Hz0 & _ & ->). rewrite (ct_remaining0 k' z0 Hz0), Hk. lia.
  - inversion ct_context0 as [|? ? _ Hf]. eapply Forall_impl; [exact Hf|]. intros w Hw k' Hin. simpl in Hw.
    destruct (decide (k' = k)) as [->|Hne]; [rewrite lookup_insert_eq; by eexists|].
    rewrite lookup_insert_ne by done. by apply Hw.
  - intros k' [z Hz]. destruct (Hl k' z Hz) as (z0 & Hz0 & _). apply ct_object0. by exists z0.
  - by inversion ct_generation0.
  - intros n Hn. destruct (ct_idle0 n Hn) as (H1 & H2 & H3). rewrite Hs in H2. split_and!; [by apply Hnone|done|].
    rewrite Ht, H3, decide_False; [done|by apply (H1 k)].
  - intros n Hn. destruct (ct_started0 n Hn) as [(k0 & z & H1 & H2 & H3 & H4 & H5)|[H1 H2]].
    + left. rewrite Hs in H4.
      assert (forall k' w, <[k := y']> xs !! k' = Some w -> cx_cb w = Client n -> k' = k0) as Huniq.
      { intros k' w Hw Hw'. destruct (Hl k' w Hw) as (z0 & Hz0 & Ec & _). apply (H3 k' z0 Hz0). congruence. }
      destruct (decide (k0 = k)) as [->|Hne].
      * rewrite Hy in H1. injection H1 as <-. exists k, y'. rewrite lookup_insert_eq.
        split_and!; try done; [congruence|]. rewrite Ht, H5, decide_True by done.
        destruct (remaining y =? 0) eqn:Ez; [lia|]. lia.
      * exists k0, z. rewrite lookup_insert_ne by done. split_and!; try done.
        rewrite Ht, H5, decide_False; [lia|]. intros E. apply Hne. symmetry. by apply (H3 k y).
    + right. split; [by apply Hnone|]. rewrite Hs in H2. rewrite Ht, decide_False; [lia|]. by apply (H1 k).
Qed.

(** ** Completion counts down *)

Record framed (s s' : t) : Prop := {
  fr_tags : tags s' = tags s;
  fr_landings : landing_tags s' = landing_tags s;
  fr_transfers : transfers s' = transfers s;
  fr_fence : fence s' = fence s;
  fr_object : next_object s' = next_object s;
  fr_tag : nextLocalDmaTag_ s' = nextLocalDmaTag_ s
}.

Lemma quiet_framed s o s' : quiet s o s' -> framed s s'.
Proof. intros []. by constructor. Qed.
Lemma framed_trans s1 s2 s3 : framed s1 s2 -> framed s2 s3 -> framed s1 s3.
Proof. intros [] []. constructor; congruence. Qed.

Lemma run_callback_spec now k b s o s' :
  transfers s = ∅ -> run_callback c coreTime now k b s = Some (o, s') -> s' = s /\ runs o = client_of k.
Proof.
  intros Ht. destruct k as [|n|tr ch]; cbn [run_callback].
  - by intros [= <- <-].
  - by intros [= <- <-].
  - rewrite Ht, lookup_empty. by intros [= <- <-].
Qed.

Lemma quietly_flag (b : bool) a v : quietly (if b then write_u64_to_storage a v else skip).
Proof. destruct b; [apply quietly_write_u64|apply quietly_skip]. Qed.
Lemma quietly_token (b : bool) token : quietly (if b then modify (set_token token) else skip).
Proof.
  destruct b; [|apply quietly_skip]. apply quietly_modify. intros s. unfold set_token.
  destruct (negb (token =? 0)); [by constructor|apply quiet_refl].
Qed.

(** The end of a completion: flag, token and callback. *)
Lemma ending_spec now (b : bool) a v (wt : bool) token k okay s o s' :
  transfers s = ∅ ->
  ((if b then write_u64_to_storage a v else skip) ⨟ (if wt then modify (set_token token) else skip) ⨟
   run_callback c coreTime now k okay) s = Some (o, s') ->
  framed s s' /\ contexts s' = contexts s /\ runs o = client_of k.
Proof.
  intros Ht E. unfold andThen at 1 in E.
  destruct ((if b then write_u64_to_storage a v else skip) s) as [[o1 s1]|] eqn:E1; [|discriminate E].
  unfold andThen in E.
  destruct ((if wt then modify (set_token token) else skip) s1) as [[o2 s2]|] eqn:E2; [|discriminate E].
  destruct (run_callback c coreTime now k okay s2) as [[o3 s3]|] eqn:E3; [|discriminate E].
  injection E as <- <-. apply quietly_flag in E1. apply quietly_token in E2.
  pose proof (quiet_trans _ _ _ _ _ E1 E2) as Q.
  apply run_callback_spec in E3 as [-> Hr]; [|by rewrite (qu_transfers _ _ _ Q)].
  split; [by eapply quiet_framed|]. split; [apply Q|]. unfold runs in *. rewrite !omap_app, Hr.
  pose proof (qu_runs _ _ _ E1) as R1. pose proof (qu_runs _ _ _ E2) as R2. unfold runs in R1, R2.
  by rewrite R1, R2.
Qed.

Lemma finish_counted now o okay wt s out s' l a ob st ran :
  transfers s = ∅ -> counted (tag_of o :: l) (contexts s) a ob st ran ->
  finish_op c coreTime now o okay wt s = Some (out, s') ->
  framed s s' /\ counted l (contexts s') a ob st (ran ++ runs out).
Proof.
  intros Ht C. unfold finish_op. destruct (ctx o) as [k|] eqn:Ek.
  2: { intros E. unfold finish_single in E. apply ending_spec in E as (F & -> & ->); [|done].
       split; [done|]. by apply (counted_single (tag_of o)). }
  unfold finish_context. assert (in_context k (tag_of o)) as Hin by done.
  destruct (proj1 (proj1 (Forall_cons _ _ _) (ct_context _ _ _ _ _ _ C)) k Hin) as [x Hx].
  rewrite Hx. cbv zeta. pose proof (ct_remaining _ _ _ _ _ _ C k x Hx) as Hr.
  rewrite cnt_cons, decide_True in Hr by done. pose proof (cnt_nonneg (in_context k) l).
  change (remaining (x <| ok := _ |>)) with (remaining x). rewrite (proj2 (Z.ltb_lt 0 (remaining x))) by lia.
  set (y := (x <| ok := _ |>) <| remaining := _ |>). intros E.
  pose proof (counted_shared (tag_of o) l (contexts s) a ob st ran k x y Ek Hx eq_refl eq_refl C) as C'.
  set (s1 := s <| contexts := <[k := y]> (contexts s) |>) in *.
  assert (framed s s1) as F1 by by constructor.
  destruct (remaining y =? 0) eqn:Ez; simpl negb in E; cbv iota in E.
  - change (cx_completion_enabled x) with (cx_completion_enabled y) in E.
    apply ending_spec in E as (F & Hcx & ->); [|done]. split; [by eapply framed_trans|]. by rewrite Hcx.
  - injection E as <- <-. split; [done|exact C'].
Qed.

(** ** The invariant *)

Definition items (s : t) : list tag := map snd (map_to_list (tags s)) ++ map snd (map_to_list (landing_tags s)).

Record sound (s : t) (started ran : list Z) : Prop := {
  so_counted : counted (items s) (contexts s) (Fence.active (fence s)) (next_object s) started ran;
  so_landing : forall k, is_Some (landing_tags s !! k) -> k < nextLocalDmaTag_ s;
  so_tag : 0 <= nextLocalDmaTag_ s;
  so_transfers : transfers s = ∅
}.

Lemma quiet_sound s o s' st ran : quiet s o s' -> sound s st ran -> sound s' st (ran ++ runs o).
Proof.
  intros [] []. rewrite qu_runs0, app_nil_r. constructor; unfold items in *;
    rewrite ?qu_tags0, ?qu_landings0, ?qu_contexts0, ?qu_fence0, ?qu_object0, ?qu_tag0, ?qu_transfers0; done.
Qed.

Lemma items_delete_pending key o s :
  dma_pending s !! key = Some o ->
  items s ≡ₚ tag_of o :: items (s <| dma_pending := delete key (dma_pending s) |>).
Proof.
  intros Ho. unfold items, landing_tags. simpl.
  assert (tags s !! key = Some (tag_of o)) as Ht by (unfold tags; by rewrite lookup_fmap, Ho).
  unfold tags at 2. simpl. rewrite fmap_delete. rewrite <- (map_to_list_delete (tags s) key _ Ht). done.
Qed.
Lemma items_delete_landing key ld s :
  pendingDmaLandings_ s !! key = Some ld ->
  items s ≡ₚ tag_of (op ld) :: items (s <| pendingDmaLandings_ := delete key (pendingDmaLandings_ s) |>).
Proof.
  intros Ho. unfold items, landing_tags, tags. simpl.
  assert (((tag_of ∘ op) <$> pendingDmaLandings_ s) !! key = Some (tag_of (op ld))) as Ht
    by (by rewrite lookup_fmap, Ho).
  rewrite fmap_delete. rewrite <- (map_to_list_delete _ key _ Ht). simpl. apply Permutation_sym, Permutation_middle.
Qed.
Lemma items_insert_landing key ld s :
  pendingDmaLandings_ s !! key = None ->
  items (s <| pendingDmaLandings_ := <[key := ld]> (pendingDmaLandings_ s) |>) ≡ₚ tag_of (op ld) :: items s.
Proof.
  intros Ho. unfold items, landing_tags, tags. simpl. rewrite fmap_insert, map_to_list_insert.
  - simpl. apply Permutation_sym, Permutation_middle.
  - by rewrite lookup_fmap, Ho.
Qed.
Lemma items_insert_pending key o s :
  dma_pending s !! key = None -> items (set_op key o s) ≡ₚ tag_of o :: items s.
Proof.
  intros Ho. unfold items, landing_tags, tags, set_op. simpl. rewrite fmap_insert, map_to_list_insert; [done|].
  by rewrite lookup_fmap, Ho.
Qed.

(** The invariant while the bursts [l] are held in neither map. *)
Record sound_with (l : list tag) (s : t) (started ran : list Z) : Prop := {
  sw_counted : counted (l ++ items s) (contexts s) (Fence.active (fence s)) (next_object s) started ran;
  sw_landing : forall k, is_Some (landing_tags s !! k) -> k < nextLocalDmaTag_ s;
  sw_tag : 0 <= nextLocalDmaTag_ s;
  sw_transfers : transfers s = ∅
}.

Lemma sound_with_nil s st ran : sound_with [] s st ran <-> sound s st ran.
Proof. split; intros []; by constructor. Qed.

Lemma finish_sound now o okay wt s l st ran out s' :
  sound_with (tag_of o :: l) s st ran -> finish_op c coreTime now o okay wt s = Some (out, s') ->
  sound_with l s' st (ran ++ runs out) /\ framed s s'.
Proof.
  intros [] E. destruct (finish_counted now o okay wt s out s' _ _ _ _ _ sw_transfers0 sw_counted0 E) as [F C].
  split; [|done]. destruct F. constructor; unfold items in *;
    rewrite ?fr_tags0, ?fr_landings0, ?fr_fence0, ?fr_object0, ?fr_tag0, ?fr_transfers0; done.
Qed.

Lemma quiet_sound_with l s o s' st ran :
  quiet s o s' -> sound_with l s st ran -> sound_with l s' st (ran ++ runs o).
Proof.
  intros [] []. rewrite qu_runs0, app_nil_r. constructor; unfold items in *;
    rewrite ?qu_tags0, ?qu_landings0, ?qu_contexts0, ?qu_fence0, ?qu_object0, ?qu_tag0, ?qu_transfers0; done.
Qed.

Definition keeps (f : cmd) : Prop := forall s o s' st ran,
  sound s st ran -> f s = Some (o, s') -> sound s' st (ran ++ runs o).

Lemma keeps_quietly f : quietly f -> keeps f.
Proof. intros Q s o s' st ran H E. eapply quiet_sound; [by apply Q|done]. Qed.
Lemma runs_app o o' : runs (o ++ o') = runs o ++ runs o'.
Proof. apply omap_app. Qed.
Lemma keeps_then f g : keeps f -> keeps g -> keeps (f ⨟ g).
Proof.
  intros Hf Hg s o s' st ran H. unfold andThen. destruct (f s) as [[o1 s1]|] eqn:E1; [|discriminate].
  destruct (g s1) as [[o2 s2]|] eqn:E2; [|discriminate]. intros [= <- <-].
  rewrite runs_app, app_assoc. eapply Hg; [|done]. by eapply Hf.
Qed.

(** *** Landings *)

Lemma take_landing s st ran key ld :
  sound s st ran -> pendingDmaLandings_ s !! key = Some ld ->
  sound_with [tag_of (op ld)] (s <| pendingDmaLandings_ := delete key (pendingDmaLandings_ s) |>) st ran.
Proof.
  intros [] Hl. constructor; try done.
  - eapply counted_perm; [|exact so_counted0]. by apply items_delete_landing.
  - intros k. unfold landing_tags. simpl. rewrite fmap_delete. intros [x [_ Hx]%lookup_delete_Some].
    apply so_landing0. by exists x.
Qed.

(** An update of a landing that keeps its operation. *)
Lemma update_landing s st ran key ld ld' :
  sound s st ran -> pendingDmaLandings_ s !! key = Some ld -> op ld' = op ld ->
  sound (s <| pendingDmaLandings_ := <[key := ld']> (pendingDmaLandings_ s) |>) st ran.
Proof.
  intros [] Hl Ho.
  assert (landing_tags (s <| pendingDmaLandings_ := <[key := ld']> (pendingDmaLandings_ s) |>) = landing_tags s)
    as E.
  { unfold landing_tags. simpl. rewrite fmap_insert. apply insert_id. rewrite lookup_fmap, Hl. simpl.
    by rewrite Ho. }
  constructor; unfold items; try rewrite E; done.
Qed.

Lemma keeps_landing_chunk now tg : keeps (issueNextDmaLandingChunk c coreTime now tg).
Proof.
  intros s o s' st ran H. unfold issueNextDmaLandingChunk.
  destruct (pendingDmaLandings_ s !! tg) as [ld|] eqn:El; [|intros [= <- <-]; simpl; by rewrite app_nil_r].
  destruct (chunkInFlight ld); [intros [= <- <-]; simpl; by rewrite app_nil_r|].
  destruct (_ <=? _).
  { unfold andThen, modify. destruct (finishDmaReadLanding _ _ _ _ _ _) as [[o1 s1]|] eqn:E; [|discriminate].
    intros [= <- <-]. apply sound_with_nil.
    eapply (finish_sound now (op ld) true true _ [] st ran o1); [by apply take_landing|exact E]. }
  pose proof (local_write_fence (local c) now (gm_dst_addr (op ld) ⊞ ld_offset ld)
    (take (Z.to_nat (Z.min (LocalMem.localAccessMaxRequestBytes_ (local c))
       (Z.of_nat (List.length (ld_data ld)) - ld_offset ld))) (drop (Z.to_nat (ld_offset ld)) (ld_data ld)))
    LocalMem.CDma tg (Some (LocalMem.DmaLanding (Z.min (LocalMem.localAccessMaxRequestBytes_ (local c))
       (Z.of_nat (List.length (ld_data ld)) - ld_offset ld)))) (lm s)) as Hf.
  cbv zeta. destruct (LocalMem.localWriteAsync _ _ _ _ _ _ _ _ _) as [ac [lo m]]. simpl in Hf.
  assert (quiet s (map LocalEvent lo) (s <| lm := m |>)) as Q.
  { constructor; try done. apply runs_local. }
  pose proof (quiet_sound _ _ _ _ _ Q H) as H1. unfold andThen at 1 2, emit, modify at 1.
  destruct ac.
  - intros [= <- <-]. rewrite app_nil_r.
    set (ld' := ld <| chunkInFlight := true |>).
    exact (update_landing (s <| lm := m |>) st _ tg ld ld' H1 El eq_refl).
  - unfold andThen, modify, scheduleDmaLandingRetry. simpl. destruct (dmaLandingRetryScheduled_ s);
      intros [= <- <-]; rewrite ?app_nil_r, ?runs_app, ?app_assoc.
    + by destruct H1.
    + simpl. rewrite app_nil_r. by destruct H1.
Qed.

Lemma keeps_landing_written now n b tg : keeps (landing_written c coreTime now n b tg).
Proof.
  intros s o s' st ran H. unfold landing_written.
  destruct (pendingDmaLandings_ s !! tg) as [ld|] eqn:El; [|intros [= <- <-]; simpl; by rewrite app_nil_r].
  cbv zeta. destruct (negb b); unfold andThen, modify.
  - destruct (finishDmaReadLanding _ _ _ _ _ _) as [[o1 s1]|] eqn:E; [|discriminate].
    intros [= <- <-]. apply sound_with_nil.
    eapply (finish_sound now (op ld) false true _ [] st ran o1); [by apply take_landing|exact E].
  - destruct (issueNextDmaLandingChunk _ _ _ _ _) as [[o1 s1]|] eqn:E; [|discriminate].
    intros [= <- <-]. eapply keeps_landing_chunk; [|exact E].
    by apply (update_landing s st ran tg ld ((ld <| chunkInFlight := false |>) <| ld_offset := ld_offset ld + n |>)).
Qed.

Lemma take_pending s st ran key o :
  sound s st ran -> dma_pending s !! key = Some o ->
  sound_with [tag_of o] (s <| dma_pending := delete key (dma_pending s) |>) st ran.
Proof.
  intros [] Ho. constructor; try done. eapply counted_perm; [|exact so_counted0]. by apply items_delete_pending.
Qed.

Lemma complete_read_sound now o d s st ran out s' :
  sound_with [tag_of o] s st ran -> nextLocalDmaTag_ s + 1 < 2 ^ 64 ->
  completeDmaReadToLocalMemory c coreTime now o d s = Some (out, s') -> sound s' st (ran ++ runs out).
Proof.
  intros [] Hb. unfold completeDmaReadToLocalMemory.
  assert (negb (ownerGeneration o =? 0) && negb (Fence.matches (ownerGeneration o) (fence s)) = false) as Hg.
  { pose proof (ct_generation _ _ _ _ _ _ sw_counted0) as G. apply Forall_cons in G as [G _]. simpl in G.
    unfold Fence.matches. unfold Fence.active in G. destruct (ownerGeneration o =? 0) eqn:E0; [done|]. simpl.
    apply Z.eqb_neq in E0. destruct G as [G|G]; [done|]. by rewrite G, Z.eqb_refl. }
  change (LocalMem.attentionGenerationFence_ (lm s)) with (fence s). rewrite Hg. cbv zeta.
  assert (pendingDmaLandings_ s !! nextLocalDmaTag_ s = None) as Hfree.
  { destruct (pendingDmaLandings_ s !! nextLocalDmaTag_ s) as [ld|] eqn:E; [|done].
    specialize (sw_landing0 (nextLocalDmaTag_ s)). unfold landing_tags in sw_landing0.
    rewrite lookup_fmap, E in sw_landing0. specialize (sw_landing0 ltac:(by eexists)). lia. }
  unfold andThen, modify. cbv beta. rewrite Hfree.
  assert (nextLocalDmaTag_ s ⊞ 1 = nextLocalDmaTag_ s + 1) as Hn by mach_lia.
  set (tg := nextLocalDmaTag_ s) in *. set (ld := mkLanding o d 0 false).
  set (s1 := (s <| nextLocalDmaTag_ := tg ⊞ 1 |>) <| pendingDmaLandings_ := _ |>).
  destruct (issueNextDmaLandingChunk c coreTime now tg s1) as [[o1 s2]|] eqn:E; [|discriminate].
  intros [= <- <-]. eapply keeps_landing_chunk; [|exact E]. constructor.
  - eapply counted_perm; [|exact sw_counted0]. symmetry. exact (items_insert_landing tg ld s Hfree).
  - intros k Hk. unfold landing_tags in Hk. simpl in Hk. rewrite lookup_fmap, fmap_is_Some in Hk.
    change (nextLocalDmaTag_ s1) with (tg ⊞ 1). rewrite Hn.
    destruct (decide (k = tg)) as [->|Hne]; [lia|]. rewrite lookup_insert_ne in Hk by done.
    assert (k < tg); [|lia]. apply sw_landing0. unfold landing_tags. by rewrite lookup_fmap, fmap_is_Some.
  - change (nextLocalDmaTag_ s1) with (tg ⊞ 1). lia.
  - done.
Qed.

(** *** Timeouts *)

Lemma erase_lookup ks s key :
  dma_pending (erase_ops ks s) !! key = if decide (key ∈ ks) then None else dma_pending s !! key.
Proof.
  unfold erase_ops. simpl. case_decide as H.
  - by apply lookup_foldr_delete.
  - by apply lookup_foldr_delete_not_elem_of.
Qed.
Lemma erase_perm ks ks' s : ks ≡ₚ ks' -> erase_ops ks s = erase_ops ks' s.
Proof.
  intros P. unfold erase_ops. f_equal. apply map_eq. intros key.
  pose proof (erase_lookup ks s key) as E. pose proof (erase_lookup ks' s key) as E'.
  unfold erase_ops in E, E'. simpl in E, E'. rewrite E, E'. do 2 case_decide; try done; by rewrite P in *.
Qed.
Lemma tags_erase ks s s' : tags s' = tags s -> tags (erase_ops ks s') = tags (erase_ops ks s).
Proof.
  intros E. apply map_eq. intros key. unfold tags in *. rewrite !lookup_fmap, !erase_lookup.
  case_decide; [done|]. by rewrite <- !lookup_fmap, E.
Qed.
Lemma quiet_erase ks s o s' : quiet s o s' -> quiet (erase_ops ks s) o (erase_ops ks s').
Proof. intros []. constructor; try done. by apply tags_erase. Qed.

Lemma retry_one_sound now key s ks e o s' st ran :
  sound (erase_ops ks s) st ran -> key ∉ ks ->
  retry_one c coreTime link now key s = Some (e, (o, s')) ->
  sound (erase_ops ((if e then [key] else []) ++ ks) s') st (ran ++ runs o).
Proof.
  intros H Hk. unfold retry_one. destruct (dma_pending s !! key) as [x|] eqn:Ex.
  2: { intros [= <- <- <-]. simpl. by rewrite app_nil_r. }
  destruct (_ || _); [intros [= <- <- <-]; simpl; by rewrite app_nil_r|].
  destruct (0 <? _).
  { intros [= <- <- <-]. eapply quiet_sound; [apply quiet_erase|exact H].
    constructor; try done. by apply (set_op_tags key x). }
  destruct (_ <? _).
  { cbv zeta. set (y := (x <| retry_attempts := _ |>) <| request_sent := false |>).
    destruct (issue_dma_read_chunk c link y (set_op key y s)) as [[o1 s1]|] eqn:E; [|discriminate].
    intros [= <- <- <-]. eapply quiet_sound; [apply quiet_erase|exact H].
    apply quietly_issue in E. apply (quiet_trans _ [] _ o1 _) with (2 := E).
    constructor; try done. by apply (set_op_tags key x). }
  destruct (finish_op _ _ _ _ _ _ _) as [[o1 s1]|] eqn:E; [|discriminate].
  intros [= <- <- <-]. destruct H as [C HL HT HX]. simpl app.
  assert (items (erase_ops ks s) ≡ₚ tag_of x :: items (erase_ops (key :: ks) s)) as P.
  { apply (items_delete_pending key). rewrite erase_lookup, decide_False by done. done. }
  apply (counted_perm _ _ _ _ _ _ _ P) in C.
  destruct (finish_counted now x false false s o1 s1 _ _ _ _ _ HX C E) as [[] C'].
  constructor; unfold items in *; rewrite ?(tags_erase (key :: ks) s s1) by done.
  - change (landing_tags (erase_ops (key :: ks) s1)) with (landing_tags s1).
    change (fence (erase_ops (key :: ks) s1)) with (fence s1).
    change (next_object (erase_ops (key :: ks) s1)) with (next_object s1).
    rewrite fr_landings0, fr_fence0, fr_object0. exact C'.
  - change (landing_tags (erase_ops (key :: ks) s1)) with (landing_tags s1).
    change (nextLocalDmaTag_ (erase_ops (key :: ks) s1)) with (nextLocalDmaTag_ s1).
    rewrite fr_landings0, fr_tag0. exact HL.
  - change (nextLocalDmaTag_ (erase_ops (key :: ks) s1)) with (nextLocalDmaTag_ s1). by rewrite fr_tag0.
  - change (transfers (erase_ops (key :: ks) s1)) with (transfers s1). by rewrite fr_transfers0.
Qed.

Lemma retry_loop_sound now keys : forall s ks ks' o s' st ran,
  sound (erase_ops ks s) st ran -> NoDup keys -> (forall k, k ∈ keys -> k ∉ ks) ->
  retry_loop c coreTime link now keys s = Some (ks', (o, s')) ->
  sound (erase_ops (ks' ++ ks) s') st (ran ++ runs o).
Proof.
  induction keys as [|key keys IH]; intros s ks ks' o s' st ran H Hnd Hdis; cbn [retry_loop].
  { intros [= <- <- <-]. simpl. by rewrite app_nil_r. }
  apply NoDup_cons in Hnd as [Hkey Hnd].
  destruct (retry_one c coreTime link now key s) as [[e [o1 s1]]|] eqn:E1; [|discriminate].
  destruct (retry_loop c coreTime link now keys s1) as [[ks2 [o2 s2]]|] eqn:E2; [|discriminate].
  intros [= <- <- <-]. rewrite runs_app, app_assoc.
  pose proof (retry_one_sound now key s ks e o1 s1 st ran H (Hdis key ltac:(by left)) E1) as H1.
  eapply IH in E2; [|exact H1|done|].
  - rewrite (erase_perm _ (ks2 ++ (if e then [key] else []) ++ ks)); [exact E2|].
    rewrite !app_assoc. by rewrite (Permutation_app_comm ks2).
  - intros k Hk Hin. apply elem_of_app in Hin as [Hin|Hin]; [|by apply (Hdis k); [right|]].
    destruct e; [|by apply elem_of_nil in Hin]. apply list_elem_of_singleton in Hin as ->. done.
Qed.

(** *** Starting a transfer *)

Lemma cnt_replicate (p : tag -> Prop) `{!forall x, Decision (p x)} n x :
  cnt p (replicate n x) = if decide (p x) then Z.of_nat n else 0.
Proof.
  induction n as [|n IH]; [by case_decide|]. cbn [replicate]. rewrite cnt_cons, IH. case_decide; lia.
Qed.

Lemma elem_client n k : n ∈ client_of k <-> k = Client n.
Proof.
  destruct k as [|m|tr ch]; simpl; [..|]; rewrite ?list_elem_of_singleton, ?elem_of_nil; split; congruence || done.
Qed.

Definition fresh_for (k : DmaCallback) (st : list Z) : Prop := forall n, k = Client n -> n ∉ st.

Lemma counted_start_single l xs a ob st ran k g :
  counted l xs a ob st ran -> fresh_for k st -> (g = 0 \/ g = a) ->
  counted ((None, k, g) :: l) xs a ob (st ++ client_of k) ran.
Proof.
  intros [] Hk Hg.
  assert (forall n, cnt (single n) ((None, k, g) :: l) = (if decide (k = Client n) then 1 else 0) + cnt (single n) l)
    as Hs.
  { intros n. rewrite cnt_cons. f_equal. destruct (decide (single n (None, k, g))) as [[_ E]|E].
    - by rewrite decide_True.
    - rewrite decide_False; [done|]. intros E'. by apply E. }
  assert (forall k', cnt (in_context k') ((None, k, g) :: l) = cnt (in_context k') l) as Hi.
  { intros k'. rewrite cnt_cons, decide_False; [lia|]. done. }
  assert (forall n, n ∈ st ++ client_of k <-> n ∈ st \/ k = Client n) as Hin.
  { intros n. by rewrite elem_of_app, elem_client. }
  constructor.
  - intros k' x Hx. rewrite Hi. by apply ct_remaining0.
  - constructor; [done|done].
  - done.
  - constructor; done.
  - intros n Hn. rewrite Hin in Hn. destruct (ct_idle0 n) as (H1 & H2 & H3); [tauto|].
    split_and!; [done| |done]. rewrite Hs, decide_False; [lia|tauto].
  - intros n [Hn| ->]%Hin.
    + destruct (decide (k = Client n)) as [->|Hne]; [by destruct (Hk n eq_refl)|].
      unfold shared_state, single_state. rewrite Hs, decide_False, Z.add_0_l by done. by apply ct_started0.
    + right. destruct (ct_idle0 n (Hk n eq_refl)) as (H1 & H2 & H3). split; [done|].
      rewrite Hs, decide_True by done. lia.
Qed.

Lemma counted_start_shared l xs a ob st ran x g N :
  counted l xs a ob st ran -> fresh_for (cx_cb x) st -> (g = 0 \/ g = a) ->
  remaining x = Z.of_nat N -> (0 < N)%nat ->
  counted (replicate N (Some ob, NoCallback, g) ++ l) (<[ob := x]> xs) a (ob + 1) (st ++ client_of (cx_cb x)) ran.
Proof.
  intros [] Hk Hg Hr HN. set (y := (Some ob, NoCallback, g) : tag).
  assert (xs !! ob = None) as Hfree.
  { destruct (xs !! ob) as [z|] eqn:E; [|done]. specialize (ct_object0 ob ltac:(by exists z)). lia. }
  assert (forall n, cnt (single n) (replicate N y ++ l) = cnt (single n) l) as Hs.
  { intros n. rewrite cnt_app, cnt_replicate, decide_False; [lia|]. by intros []. }
  assert (forall k', cnt (in_context k') (replicate N y ++ l) =
    (if decide (k' = ob) then Z.of_nat N else 0) + cnt (in_context k') l) as Hi.
  { intros k'. rewrite cnt_app, cnt_replicate. f_equal.
    destruct (decide (in_context k' y)) as [E|E]; unfold in_context in E; simpl in E;
      [rewrite decide_True|rewrite decide_False]; congruence. }
  assert (cnt (in_context ob) l = 0) as Hzero.
  { unfold cnt. destruct (filter (in_context ob) l) as [|w l'] eqn:E; [done|]. exfalso.
    assert (w ∈ filter (in_context ob) l) as Hw by (rewrite E; by left).
    apply list_elem_of_filter in Hw as [Hw Hl]. rewrite Forall_forall in ct_context0.
    destruct (ct_context0 w Hl ob Hw) as [z Hz]. congruence. }
  assert (forall n, n ∈ st ++ client_of (cx_cb x) <-> n ∈ st \/ cx_cb x = Client n) as Hin.
  { intros n. by rewrite elem_of_app, elem_client. }
  constructor.
  - intros k' z [[<- <-]|[Hne Hz]]%lookup_insert_Some; rewrite Hi.
    + rewrite decide_True by done. lia.
    + rewrite decide_False by done. by apply ct_remaining0.
  - apply Forall_app. split.
    + apply Forall_replicate. intros k' [= <-]. rewrite lookup_insert_eq. by eexists.
    + eapply Forall_impl; [exact ct_context0|]. intros w Hw k' Hin'. destruct (Hw k' Hin') as [z Hz].
      rewrite lookup_insert_ne by congruence. by exists z.
  - intros k' [z [[-> _]|[_ Hz]]%lookup_insert_Some]; [lia|]. specialize (ct_object0 k' ltac:(by exists z)). lia.
  - apply Forall_app. split; [by apply Forall_replicate|done].
  - intros n Hn. rewrite Hin in Hn. destruct (ct_idle0 n) as (H1 & H2 & H3); [tauto|]. rewrite Hs.
    split_and!; [|done|done]. intros k' z [[<- <-]|[_ Hz]]%lookup_insert_Some; [tauto|by apply (H1 k')].
  - intros n [Hn|Hn]%Hin.
    + assert (cx_cb x <> Client n) as Hne by (intros E; by destruct (Hk n E)).
      destruct (ct_started0 n Hn) as [(k0 & z & H1 & H2 & H3 & H4 & H5)|[H1 H2]].
      * left. exists k0, z. rewrite Hs, lookup_insert_ne by congruence. split_and!; try done.
        intros k' w [[<- <-]|[_ Hw]]%lookup_insert_Some Hw'; [done|by apply (H3 k' w)].
      * right. split; [|by rewrite Hs]. intros k' z [[<- <-]|[_ Hz]]%lookup_insert_Some; [done|by apply (H1 k')].
    + left. destruct (ct_idle0 n (Hk n Hn)) as (H1 & H2 & H3). exists ob, x. rewrite lookup_insert_eq, Hs, H3.
      split_and!; try done.
      * intros k' z [[<- _]|[_ Hz]]%lookup_insert_Some Hz'; [done|by destruct (H1 k' z Hz)].
      * destruct (remaining x =? 0) eqn:E; [lia|done].
Qed.

Definition burst_tag (x : option Z) (k : DmaCallback) (g : Z) : tag :=
  (x, match x with Some _ => NoCallback | None => k end, g).

Lemma owner_active s : generation_owner c s = 0 \/ generation_owner c s = Fence.active (fence s).
Proof. unfold generation_owner, LocalMem.owner. destruct (LocalMem.attentionClusterEnable_ (local c)); auto. Qed.

Lemma burst_one n : 0 < n <= dma_burst_bytes c -> List.length (all_bursts c n) = 1%nat.
Proof.
  intros Hn. destruct (bursts_exact (Z.to_nat n) 0 n ltac:(lia)) as (_ & _ & H). unfold all_bursts.
  assert ((n + dma_burst_bytes c - 1) / dma_burst_bytes c = 1) as E; [|lia].
  symmetry. apply (Z.div_unique_pos _ _ _ (n - 1)); lia.
Qed.

Lemma burst_count_length n : 0 < n -> n + dma_burst_bytes c <= 2 ^ 64 ->
  burst_count c n = Z.of_nat (List.length (all_bursts c n)) /\ (0 < List.length (all_bursts c n))%nat.
Proof.
  intros Hn Hw. destruct (bursts_exact (Z.to_nat n) 0 n ltac:(lia)) as (_ & _ & H).
  fold (all_bursts c n) in H. unfold burst_count. rewrite u64_small by (unfold is_u64; lia).
  split; [by rewrite H|]. assert (1 <= (n + dma_burst_bytes c - 1) / dma_burst_bytes c); [|lia].
  apply Z.div_le_lower_bound; lia.
Qed.

Lemma start_sound host gm n flag v token k s st ran x s1 :
  sound s st ran -> fresh_for k st -> 0 < n -> n + dma_burst_bytes c <= 2 ^ 64 ->
  new_context c host gm n flag v token k s = (x, s1) ->
  sound_with (replicate (List.length (all_bursts c n)) (burst_tag x k (generation_owner c s))) s1
    (st ++ client_of k) ran /\
  dma_pending s1 = dma_pending s /\ next_dma_request_id s1 = next_dma_request_id s /\ lm s1 = lm s.
Proof.
  intros [C HL HT HX] Hk Hn Hw. unfold new_context. destruct (_ <? _) eqn:E; intros [= <- <-].
  - split; [|done]. constructor; try done. destruct (burst_count_length n Hn Hw) as [Hc Hpos].
    pose proof (counted_start_shared _ _ _ _ _ _
      (mkContext host gm n (dma_burst_bytes c) (burst_count c n) true k true flag v token)
      (generation_owner c s) _ C Hk (owner_active s) Hc Hpos) as C'. exact C'.
  - split; [|done]. constructor; try done. rewrite burst_one by lia. simpl.
    exact (counted_start_single _ _ _ _ _ _ k _ C Hk (owner_active s)).
Qed.

Lemma place_sound l s st ran key o :
  sound_with (tag_of o :: l) s st ran -> dma_pending s !! key = None -> sound_with l (set_op key o s) st ran.
Proof.
  intros [] Hf. constructor; try done. eapply counted_perm; [|exact sw_counted0].
  rewrite (items_insert_pending key o s Hf). apply Permutation_middle.
Qed.

Lemma enqueue_sound src dst flag v token k rk consumer x g bs : forall s st ran,
  sound_with (replicate (List.length bs) (burst_tag x k g)) s st ran ->
  g = generation_owner c s ->
  (forall i, next_dma_request_id s <= i < next_dma_request_id s + Z.of_nat (List.length bs) ->
     dma_pending s !! i = None) ->
  0 <= next_dma_request_id s -> next_dma_request_id s + Z.of_nat (List.length bs) < 2 ^ 64 ->
  sound (foldl (enqueue_read c src dst flag v token k rk consumer x) s bs) st ran.
Proof.
  induction bs as [|b bs IH]; intros s st ran H Hg Hf Hn Hb; [by apply sound_with_nil|]. cbn [foldl].
  set (s1 := enqueue_read c src dst flag v token k rk consumer x s b).
  assert (Z.of_nat (List.length (b :: bs)) = 1 + Z.of_nat (List.length bs)) as Hlen by (simpl List.length; lia).
  rewrite Hlen in Hf, Hb.
  assert (next_dma_request_id s1 = next_dma_request_id s + 1) as Hn1 by
    (change (next_dma_request_id s ⊞ 1 = next_dma_request_id s + 1); apply u64_small; unfold is_u64; lia).
  assert (dma_pending s1 = <[next_dma_request_id s :=
    read_op c src dst flag v token k rk consumer x b s]> (dma_pending s)) as Hp by done.
  apply IH; rewrite ?Hn1; try lia; try done.
  - unfold s1, enqueue_read. cbv zeta. apply place_sound; [|exact (Hf (next_dma_request_id s) ltac:(lia))].
    replace (tag_of _) with (burst_tag x k g) by (rewrite Hg; by destruct x). destruct H. by constructor.
  - intros i Hi. rewrite Hp, lookup_insert_ne by lia. apply Hf. lia.
Qed.

Lemma read_start_sound src n dst k token rk consumer s st ran o s' :
  sound s st ran -> fresh_for k st -> 0 < n -> n + dma_burst_bytes c <= 2 ^ 64 ->
  0 <= next_dma_request_id s -> next_dma_request_id s + Z.of_nat (List.length (all_bursts c n)) < 2 ^ 64 ->
  (forall i, next_dma_request_id s <= i < next_dma_request_id s + Z.of_nat (List.length (all_bursts c n)) ->
     dma_pending s !! i = None) ->
  dma_read_from_host_to_globalmem_impl c link order src n dst k token rk consumer s = Some (o, s') ->
  sound s' (st ++ client_of k) (ran ++ runs o).
Proof.
  intros H Hk Hn Hw Hid Hid' Hf. unfold dma_read_from_host_to_globalmem_impl. destruct (_ || _); [discriminate|].
  destruct (read_completion s) as [[flag v]|]; [|discriminate].
  destruct (new_context c src dst n flag v token k s) as [x s1] eqn:E.
  destruct (start_sound _ _ _ _ _ _ _ _ _ _ _ _ H Hk Hn Hw E) as (H1 & Hp & Hi & Hl).
  unfold andThen at 1. cbn [modify]. intros Hrun.
  destruct ((issue_pending_dma_read_window c link order ⨟ schedule_dma_retry_event) _) as [[o2 s2]|] eqn:E2;
    [|discriminate Hrun]. injection Hrun as <- <-.
  eapply (keeps_quietly _ (quietly_then _ _ quietly_issue_window quietly_schedule)); [|exact E2].
  eapply enqueue_sound; [exact H1|unfold generation_owner; by rewrite Hl|by rewrite Hi, Hp|by rewrite Hi|by rewrite Hi].
Qed.

(** The keys of the bursts of a write. *)
Definition write_keys (dst n : Z) : list Z := map (fun b => dst ⊞ fst b) (all_bursts c n).

Lemma send_writes_sound dst flag v token data k rk x g bs : forall s st ran o s',
  sound_with (replicate (List.length bs) (burst_tag x k g)) s st ran ->
  g = generation_owner c s -> NoDup (map (fun b => dst ⊞ fst b) bs) ->
  (forall key, key ∈ map (fun b => dst ⊞ fst b) bs -> dma_pending s !! key = None) ->
  each_burst bs (send_write c link dst flag v token data k rk x) s = Some (o, s') ->
  sound s' st (ran ++ runs o).
Proof.
  induction bs as [|b bs IH]; intros s st ran o s' H Hg Hnd Hf; cbn [each_burst].
  { intros [= <- <-]. simpl. rewrite app_nil_r. by apply sound_with_nil. }
  cbn [map] in Hnd, Hf. apply NoDup_cons in Hnd as [Hnot Hnd]. unfold andThen at 1.
  destruct (send_write _ _ _ _ _ _ _ _ _ _ _ _) as [[o1 s1]|] eqn:E1; [|discriminate].
  destruct (each_burst bs _ s1) as [[o2 s2]|] eqn:E2; [|discriminate]. intros [= <- <-].
  rewrite runs_app, app_assoc. unfold send_write in E1. cbv zeta in E1.
  set (w := write_op c dst flag v token k rk x b s) in *.
  destruct (Routing.destination _ _) as [e|]; [|discriminate E1]. unfold andThen, modify in E1.
  destruct (try_send_or_queue _ _ _ _) as [[o3 s3]|] eqn:E3; [|discriminate E1]. injection E1 as <- <-.
  apply try_send_quiet in E3. simpl app in *.
  assert (sound_with (replicate (List.length bs) (burst_tag x k g)) s3 st (ran ++ runs o3)) as H3.
  { eapply quiet_sound_with; [exact E3|]. apply place_sound.
    - replace (tag_of w) with (burst_tag x k g) by (rewrite Hg; by destruct x). exact H.
    - apply Hf. by left. }
  eapply IH; [exact H3| |done| |exact E2].
  - rewrite Hg. unfold generation_owner, LocalMem.owner. pose proof (qu_fence _ _ _ E3) as F.
    unfold fence in F. simpl in F. by rewrite F.
  - intros key Hkey. assert (tags s3 !! key = tags s !! key) as Ht.
    { rewrite (qu_tags _ _ _ E3). unfold tags, set_op. simpl. rewrite fmap_insert, lookup_insert_ne; [done|].
      intros <-. by apply Hnot. }
    assert (dma_pending s !! key = None) as Hs by (apply Hf; by right).
    unfold tags in Ht. rewrite !lookup_fmap, Hs in Ht. by destruct (dma_pending s3 !! key).
Qed.

Lemma write_start_sound dst n data k token rk s st ran o s' :
  sound s st ran -> fresh_for k st -> 0 < n -> n + dma_burst_bytes c <= 2 ^ 64 ->
  NoDup (write_keys dst n) -> (forall key, key ∈ write_keys dst n -> dma_pending s !! key = None) ->
  dma_write_to_host_impl c link dst n data k token rk s = Some (o, s') ->
  sound s' (st ++ client_of k) (ran ++ runs o).
Proof.
  intros H Hk Hn Hw Hnd Hf. unfold dma_write_to_host_impl. destruct (negb _); [discriminate|].
  destruct (write_completion s) as [[flag v]|]; [|discriminate].
  destruct (new_context c dst 0 n flag v token k s) as [x s1] eqn:E.
  destruct (start_sound _ _ _ _ _ _ _ _ _ _ _ _ H Hk Hn Hw E) as (H1 & Hp & Hi & Hl).
  intros Hrun. eapply send_writes_sound; [exact H1|unfold generation_owner; by rewrite Hl|done| |exact Hrun].
  by rewrite Hp.
Qed.

(** *** The other commands *)

Hypothesis Horder : forall m, NoDup (order m).

Lemma keeps_retries now : keeps (process_dma_read_retries c coreTime link order now).
Proof.
  intros s o s' st ran H. unfold process_dma_read_retries. destruct (bool_decide _); [by apply (keeps_quietly _ quietly_skip)|].
  destruct (retry_loop _ _ _ _ _ s) as [[ks [o1 s1]]|] eqn:E; [|discriminate]. cbn [fst snd].
  assert (erase_ops [] s = s) as Hnil by (by destruct s).
  pose proof (retry_loop_sound now _ s [] ks o1 s1 st ran ltac:(by rewrite Hnil) (Horder _)
    ltac:(intros k _; apply not_elem_of_nil) E) as H1. rewrite app_nil_r in H1.
  unfold andThen, emit. destruct (issue_pending_dma_read_window _ _ _ _) as [[o2 s2]|] eqn:E2; [|discriminate].
  intros [= <- <-]. rewrite runs_app, app_assoc. by eapply (keeps_quietly _ quietly_issue_window).
Qed.

Lemma keeps_modify_quiet f : (forall s, quiet s [] (f s)) -> keeps (modify f).
Proof. intros H. by apply keeps_quietly, quietly_modify. Qed.

Lemma keeps_self_event now : keeps (handleSelfEvent c coreTime link order now).
Proof.
  unfold handleSelfEvent. apply keeps_then; [apply keeps_modify_quiet; by constructor|].
  apply keeps_then; [apply keeps_retries|]. apply keeps_then; [apply keeps_modify_quiet; by constructor|].
  apply keeps_quietly, quietly_schedule_pending.
Qed.

Lemma keeps_each ks f : (forall k, keeps (f k)) -> keeps (each ks f).
Proof.
  intros Hf. induction ks as [|k ks IH]; cbn [each]; [apply keeps_quietly, quietly_skip|by apply keeps_then].
Qed.

Lemma keeps_local_event now id :
  keeps (handleLocalAccessEvent c coreTime link landing_order now id).
Proof.
  intros s o s' st ran H. unfold handleLocalAccessEvent. destruct (id =? 0).
  { revert s o s' st ran H. apply (keeps_then (modify _)); [apply keeps_modify_quiet; by constructor|].
    intros s o s' st ran H. unfold retryDmaLandingChunks. apply keeps_each; [intros k; apply keeps_landing_chunk|done]. }
  pose proof (local_event_fence (local c) now id (lm s)) as F.
  destruct (LocalMem.handleLocalAccessEvent _ _ _ _ _) as [a [lo m]]. simpl in F.
  unfold andThen at 1 2, emit at 1, modify. simpl app.
  assert (sound (s <| lm := m |>) st (ran ++ runs (map LocalEvent lo))) as H1.
  { eapply quiet_sound; [|exact H]. constructor; try done. apply runs_local. }
  match goal with |- match match ?f ?s1 with _ => _ end with _ => _ end = _ -> _ =>
    destruct (f s1) as [[o2 s2]|] eqn:E2 end; [|discriminate].
  intros [= <- <-]. rewrite runs_app, app_assoc. revert E2. destruct a as [a|]; [|by apply (keeps_quietly _ quietly_skip)].
  destruct (LocalMem.a_callback a) as [n|n|tr n].
  - intros [= <- <-]. simpl. by rewrite app_nil_r.
  - by apply keeps_landing_written.
  - unfold source_read. assert (transfers (s <| lm := m |>) !! tr = None) as -> by
      (by rewrite (so_transfers _ _ _ H1), lookup_empty).
    intros [= <- <-]. rewrite app_nil_r. exact H1.
Qed.

Lemma quietly_part ev p : quietly (receive_part ev p).
Proof.
  unfold receive_part. cbv zeta. intros s. revert s. apply quietly_then; [apply quietly_wr|].
  destruct (_ || _).
  - apply quietly_then; [apply quietly_write_u64|]. apply quietly_then; [apply quietly_modify; by constructor|].
    intros s o s' [= <- <-]. by constructor.
  - apply quietly_modify. by constructor.
Qed.

(** The network answers a pending operation in kind. *)
Definition answers_in_kind (ev : event) (s : t) : Prop :=
  (type ev = DMA_READ_COMPLETE -> forall o, dma_pending s !! requestId ev = Some o -> kind o = READ_TO_GM) /\
  (type ev = DMA_WRITE_COMPLETE -> forall o, dma_pending s !! addr ev = Some o -> kind o = WRITE_TO_HOST).

Lemma receive_quiet from ev :
  quietly (receive_write ev) /\ quietly (receive_read c link from ev) /\ quietly (receive_dma_write ev).
Proof.
  split_and!.
  - intros s. unfold receive_write. destruct (request_pending s !! requestId ev); [apply quietly_part|].
    intros o s'. apply quietly_then; [apply quietly_check|]. apply quietly_then; [apply quietly_wr|].
    destruct (read_pending s !! addr ev).
    + apply quietly_then; [apply quietly_write_u64|apply quietly_modify; by constructor].
    + destruct (negb _); [apply quietly_write_u64|apply quietly_skip].
  - intros s. unfold receive_read. intros o s'. apply quietly_then; [apply quietly_check|].
    intros s1 o1 s2. destruct (LocalMem.rd_from_globalmem _ _ _); [|discriminate]. apply try_send_quiet.
  - apply quietly_then; [apply quietly_check|]. intros s o s'.
    destruct (CancelRegistry.cancelledToken _ _) as [b r].
    assert (quiet s [] (s <| cancelRegistry := r |>)) as Q by by constructor.
    destruct b; [by intros [= <- <-]|]. intros E. apply quietly_wr in E. by apply (quiet_trans _ [] _ o _ Q).
Qed.

Lemma receive_sound now from ev s o s' st ran :
  sound s st ran -> nextLocalDmaTag_ s + 1 < 2 ^ 64 -> answers_in_kind ev s ->
  receive c coreTime link order now from ev s = Some (o, s') -> sound s' st (ran ++ runs o).
Proof.
  intros H Hb [Kr Kw]. pose proof (receive_quiet from ev) as (Qw & Qr & Qd). unfold receive.
  destruct (type ev) eqn:Ety.
  - by apply (keeps_quietly _ Qr).
  - by apply (keeps_quietly _ Qw).
  - by apply (keeps_quietly _ Qd).
  - unfold receive_read_complete, andThen at 1. destruct (dma_pending s !! requestId ev) as [x|] eqn:Ex.
    + unfold andThen, modify. rewrite bool_decide_true by (by apply Kr).
      destruct (completeDmaReadToLocalMemory _ _ _ _ _ _) as [[o1 s1]|] eqn:E1; [|discriminate]. simpl app.
      destruct (issue_pending_dma_read_window _ _ _ _) as [[o2 s2]|] eqn:E2; [|discriminate].
      intros [= <- <-]. rewrite runs_app, app_assoc. eapply (keeps_quietly _ quietly_issue_window); [|exact E2].
      eapply complete_read_sound; [by apply take_pending| |exact E1]. done.
    + match goal with |- match ?f s with _ => _ end = _ -> _ => assert (quietly f) as Q end.
      { destruct (request_pending s !! requestId ev); [apply quietly_part|].
        destruct (negb _); [|apply quietly_skip]. apply quietly_then; [apply quietly_check|].
        apply quietly_then; [apply quietly_wr|apply quietly_write_u64]. }
      revert H. apply (keeps_then _ _ (keeps_quietly _ Q) (keeps_quietly _ quietly_issue_window)).
  - unfold receive_write_complete. cbv zeta.
    set (s0 := s <| cancelRegistry := _ |>). assert (sound s0 st ran) as H0 by (by destruct H).
    change (dma_pending s0) with (dma_pending s). destruct (dma_pending s !! addr ev) as [x|] eqn:Ex.
    + unfold andThen, modify. rewrite bool_decide_true by (by apply Kw).
      destruct (finish_op _ _ _ _ _ _ _) as [[o1 s1]|] eqn:E1; [|discriminate].
      intros [= <- <-]. apply sound_with_nil. eapply finish_sound; [|exact E1]. by apply take_pending.
    + by apply (keeps_quietly _ quietly_skip).
  - by apply (keeps_quietly _ quietly_skip).
Qed.

(** *** Generations *)

Lemma items_forall (p : PendingDmaOp -> Prop) (q : tag -> Prop) s :
  (forall o, p o -> q (tag_of o)) ->
  map_Forall (fun _ o => p o) (dma_pending s) -> map_Forall (fun _ l => p (op l)) (pendingDmaLandings_ s) ->
  Forall q (items s).
Proof.
  intros Hpq H1 H2. apply Forall_app. unfold tags, landing_tags.
  split; apply Forall_forall; intros x ([k y] & -> & Hy%elem_of_map_to_list)%list_elem_of_fmap; simpl in *;
    apply lookup_fmap_Some in Hy as (z & <- & Hz); apply Hpq; [by apply (H1 k)|by apply (H2 k)].
Qed.

Lemma set_fence_sound f s st ran :
  sound s st ran -> Forall (fun x => snd x = 0 \/ snd x = Fence.active f) (items s) ->
  sound (set_fence f s) st ran.
Proof. intros [[] HL HT HX] G. by constructor. Qed.

Lemma begin_sound g s st ran : sound s st ran -> sound (snd (beginAttentionGeneration c g s)) st ran.
Proof.
  intros H. unfold beginAttentionGeneration, Fence.begin. destruct (LocalMem.attentionClusterEnable_ (local c)); [|done].
  destruct (_ || _) eqn:E; cbn [snd]; apply set_fence_sound; try done; [apply H|].
  apply orb_false_iff in E as [_ E]. rewrite negb_false_iff, Z.eqb_eq in E.
  eapply Forall_impl; [exact (ct_generation _ _ _ _ _ _ (so_counted _ _ _ H))|].
  intros x [Hx|Hx]; [by left|]. left. unfold Fence.active in Hx. congruence.
Qed.

Lemma retire_sound g s st ran : sound s st ran -> sound (snd (retireAttentionGeneration g s)) st ran.
Proof.
  intros H. unfold retireAttentionGeneration, Fence.retire. destruct (attentionGenerationDrained g s) eqn:Ed; [|done].
  destruct (negb _) eqn:E; cbn [snd]; apply set_fence_sound; try done; [apply H|].
  unfold attentionGenerationDrained in Ed. rewrite !andb_true_iff, !bool_decide_eq_true in Ed.
  destruct Ed as [[D1 _] D2].
  assert (Forall (fun x : tag => snd x <> g) (items s)) as D by (by apply (items_forall (fun o => ownerGeneration o <> g))).
  rewrite negb_false_iff in E. unfold Fence.matches in E. rewrite andb_true_iff, !Z.eqb_eq in E. destruct E as [_ E].
  rewrite Forall_forall in D |- *. intros x Hx. pose proof (ct_generation _ _ _ _ _ _ (so_counted _ _ _ H)) as G.
  rewrite Forall_forall in G. destruct (G x Hx) as [Hg|Hg]; [by left|]. destruct (D x Hx). unfold Fence.active in Hg.
  congruence.
Qed.

(** ** Every history *)

Inductive dma_history : t -> list Z -> list effect -> Prop :=
| dh_init m : dma_history (init m) [] []
| dh_read s st log src n dst k token rk consumer o s' :
    dma_history s st log -> fresh_for k st -> 0 < n -> n + dma_burst_bytes c <= 2 ^ 64 ->
    0 <= next_dma_request_id s -> next_dma_request_id s + Z.of_nat (List.length (all_bursts c n)) < 2 ^ 64 ->
    (forall i, next_dma_request_id s <= i < next_dma_request_id s + Z.of_nat (List.length (all_bursts c n)) ->
       dma_pending s !! i = None) ->
    dma_read_from_host_to_globalmem_impl c link order src n dst k token rk consumer s = Some (o, s') ->
    dma_history s' (st ++ client_of k) (log ++ o)
| dh_write s st log dst n data k token rk o s' :
    dma_history s st log -> fresh_for k st -> 0 < n -> n + dma_burst_bytes c <= 2 ^ 64 ->
    NoDup (write_keys dst n) -> (forall key, key ∈ write_keys dst n -> dma_pending s !! key = None) ->
    dma_write_to_host_impl c link dst n data k token rk s = Some (o, s') ->
    dma_history s' (st ++ client_of k) (log ++ o)
| dh_tick s st log now o s' :
    dma_history s st log -> handleSelfEvent c coreTime link order now s = Some (o, s') ->
    dma_history s' st (log ++ o)
| dh_local s st log now id o s' :
    dma_history s st log -> handleLocalAccessEvent c coreTime link landing_order now id s = Some (o, s') ->
    dma_history s' st (log ++ o)
| dh_receive s st log now from ev o s' :
    dma_history s st log -> nextLocalDmaTag_ s + 1 < 2 ^ 64 -> answers_in_kind ev s ->
    receive c coreTime link order now from ev s = Some (o, s') ->
    dma_history s' st (log ++ o)
| dh_flush s st log : dma_history s st log ->
    dma_history (snd (flush_send_retry_queue c link s)) st (log ++ fst (flush_send_retry_queue c link s))
| dh_window s st log o s' :
    dma_history s st log -> (issue_pending_dma_read_window c link order ⨟ schedule_if_pending) s = Some (o, s') ->
    dma_history s' st (log ++ o)
| dh_begin s st log g : dma_history s st log -> dma_history (snd (beginAttentionGeneration c g s)) st log
| dh_retire s st log g : dma_history s st log -> dma_history (snd (retireAttentionGeneration g s)) st log.

Lemma history_sound_dma s st log : dma_history s st log -> sound s st (runs log).
Proof.
  induction 1 as [m|s st log src n dst k token rk consumer o s' _ IH Hk Hn Hw Hi Hi' Hf E
    |s st log dst n data k token rk o s' _ IH Hk Hn Hw Hnd Hf E|s st log now o s' _ IH E|s st log now id o s' _ IH E
    |s st log now from ev o s' _ IH Hb K E|s st log _ IH|s st log o s' _ IH E|s st log g _ IH|s st log g _ IH];
    rewrite ?runs_app.
  - constructor; try done.
    + constructor; try done; [by intros k []|].
      intros n Hn. by apply elem_of_nil in Hn.
    + by intros k [].
  - by eapply read_start_sound.
  - by eapply write_start_sound.
  - by eapply keeps_self_event.
  - by eapply keeps_local_event.
  - by eapply receive_sound.
  - eapply quiet_sound; [|exact IH]. apply flush_quiet.
  - revert E. apply (keeps_quietly _ (quietly_then _ _ quietly_issue_window quietly_schedule_pending)). done.
  - by apply begin_sound.
  - by apply retire_sound.
Qed.

(** The bursts of callback [n] that are pending or landing. *)
Definition belongs (s : t) (n : Z) (x : tag) : bool :=
  match fst (fst x) with
  | Some k => match contexts s !! k with Some y => bool_decide (cx_cb y = Client n) | None => false end
  | None => bool_decide (snd (fst x) = Client n)
  end.
Definition outstanding (s : t) (n : Z) : Z := cnt (fun x => belongs s n x = true) (items s).

Lemma cnt_ext p q `{!forall x, Decision (p x)} `{!forall x, Decision (q x)} l :
  (forall x, x ∈ l -> p x <-> q x) -> cnt p l = cnt q l.
Proof.
  intros Hl. induction l as [|x l IH]; [done|]. rewrite !cnt_cons, IH by (intros; apply Hl; by right).
  f_equal. destruct (Hl x) as [H1 H2]; [by left|]. destruct (decide (p x)), (decide (q x)); tauto.
Qed.

Lemma outstanding_spec s st ran n :
  sound s st ran -> n ∈ st -> times n ran = if outstanding s n =? 0 then 1 else 0.
Proof.
  intros [C _ _ _] Hn. unfold outstanding.
  destruct (ct_started _ _ _ _ _ _ C n Hn) as [(k & x & Hx & Hcb & Hu & Hs & Ht)|[Hno Hs]].
  - rewrite Ht, (ct_remaining _ _ _ _ _ _ C k x Hx).
    assert (forall y, y ∈ items s -> ~ single n y) as Hs'.
    { intros y Hy Hy'. unfold cnt in Hs. destruct (filter (single n) (items s)) eqn:E; [|simpl in Hs; lia].
      apply (list_elem_of_In) in Hy. assert (y ∈ filter (single n) (items s)) as G by
        (apply list_elem_of_filter; split; [done|by apply list_elem_of_In]). rewrite E in G. by apply elem_of_nil in G. }
    erewrite cnt_ext; [done|]. intros y Hy. unfold in_context, belongs. specialize (Hs' y Hy). unfold single in Hs'.
    destruct (fst (fst y)) as [k'|] eqn:Ek.
    + split; [intros [= ->]; rewrite Hx; by apply bool_decide_eq_true|].
      destruct (contexts s !! k') as [x'|] eqn:Ex'; [|done]. intros Hb%bool_decide_eq_true. f_equal. by eapply Hu.
    + split; [done|]. intros Hb%bool_decide_eq_true. by destruct Hs'.
  - erewrite (cnt_ext (fun x => belongs s n x = true) (single n)).
    + pose proof (cnt_nonneg (single n) (items s)). destruct (Z.eqb_spec (cnt (single n) (items s)) 0); [lia|].
      unfold times in *. lia.
    + intros y Hy. unfold belongs, single. destruct (fst (fst y)) as [k'|].
      * split; [|by intros []]. destruct (contexts s !! k') as [x'|] eqn:Ex'; [|done].
        intros Hb%bool_decide_eq_true. by destruct (Hno k' x' Ex').
      * rewrite bool_decide_eq_true. tauto.
Qed.


End Engine.

(** *** A run *)

Definition demo_dma : Config :=
  corrected (mkConfig 0 5 4 1 1 2 0 1 2 (Routing.mk 0x100000 [9] ∅) (LocalMem.mkConfig 1 4 1 1 4 64 true)).
Definition walk {A} (m : gmap Z A) : list Z := map fst (map_to_list m).
Definition demo_memory : LocalMem.t := LocalMem.init (Storage.mk 0x1000 (replicate 128 0)).

Definition output (q : option (list effect * t)) : list effect := from_option fst [] q.
Definition result (q : option (list effect * t)) : t := from_option snd (init demo_memory) q.
Definition ran_ok (q : option (list effect * t)) : bool := match q with Some _ => true | None => false end.
Lemma ran_some q : ran_ok q = true -> q = Some (output q, result q).
Proof. by destruct q as [[o s]|]. Qed.

(** A read of eight bytes in two bursts, both answered and landed; the second one waits
    for the write port. *)
Definition answer_of (id a : Z) (bytes : list Z) : event :=
  mkEvent DMA_READ_COMPLETE a 4 bytes 0 5 0 0 id Unknown no_consumer 0.
Definition always (n : Z) : bool := true.
Abbreviation demo_d1 := (dma_read_from_host_to_globalmem_impl demo_dma always walk 0x100 8 0x1000 (Client 7) 0
  Unknown no_consumer (init demo_memory)).
Abbreviation demo_d2 := (receive demo_dma id always walk 10 9 (answer_of 2 0x104 [5; 6; 7; 8]) (result demo_d1)).
Abbreviation demo_d3 := (receive demo_dma id always walk 11 9 (answer_of 1 0x100 [1; 2; 3; 4]) (result demo_d2)).
Abbreviation demo_d4 := (handleLocalAccessEvent demo_dma id always walk 12 1 (result demo_d3)).
Abbreviation demo_d5 := (handleLocalAccessEvent demo_dma id always walk 14 2 (result demo_d4)).

Lemma walk_nodup {A} (m : gmap Z A) : NoDup (walk m).
Proof. apply NoDup_fst_map_to_list. Qed.

Lemma answers_read ev s :
  type ev = DMA_READ_COMPLETE -> kind <$> dma_pending s !! requestId ev = Some READ_TO_GM -> answers_in_kind ev s.
Proof. intros E H. split; [|congruence]. intros _ o Ho. rewrite Ho in H. by injection H. Qed.

Definition demo_dma_log : list effect :=
  (((([] ++ output demo_d1) ++ output demo_d2) ++ output demo_d3) ++ output demo_d4) ++ output demo_d5.
Lemma demo_dma_steps :
  (ran_ok demo_d1 = true /\ ran_ok demo_d2 = true /\ ran_ok demo_d3 = true) /\
  (ran_ok demo_d4 = true /\ ran_ok demo_d5 = true).
Proof. split_and!; by vm_compute. Qed.
Lemma demo_dma_tags :
  (nextLocalDmaTag_ (result demo_d1) = 1 /\ nextLocalDmaTag_ (result demo_d2) = 2) /\
  kind <$> dma_pending (result demo_d1) !! 2 = Some READ_TO_GM /\
  kind <$> dma_pending (result demo_d2) !! 1 = Some READ_TO_GM.
Proof. split_and!; by vm_compute. Qed.

Abbreviation demo_hist := (dma_history demo_dma id always walk walk).
Lemma run_receive now ev s st log :
  demo_hist s st log -> nextLocalDmaTag_ s + 1 < 2 ^ 64 -> answers_in_kind ev s ->
  let q := receive demo_dma id always walk now 9 ev s in
  ran_ok q = true -> demo_hist (result q) st (log ++ output q).
Proof. intros H Ht Hk q E%ran_some. by eapply dh_receive. Qed.
Lemma run_local now i s st log :
  demo_hist s st log -> let q := handleLocalAccessEvent demo_dma id always walk now i s in
  ran_ok q = true -> demo_hist (result q) st (log ++ output q).
Proof. intros H q E%ran_some. by eapply dh_local. Qed.

Lemma demo_dma_start : demo_hist (result demo_d1) [7] ([] ++ output demo_d1).
Proof.
  destruct demo_dma_steps as [(R1%ran_some & _) _].
  refine (dh_read _ _ _ _ _ (init demo_memory) [] [] 0x100 8 0x1000 (Client 7) 0 Unknown no_consumer _ _ _ _ _ _ _ _ _ R1).
  - exact (dh_init _ _ _ _ _ demo_memory).
  - intros n _. apply not_elem_of_nil.
  - done.
  - done.
  - done.
  - done.
  - intros i _. apply lookup_empty.
Qed.

Lemma demo_dma_history : demo_hist (result demo_d5) [7] demo_dma_log.
Proof.
  destruct demo_dma_steps as [(_ & R2 & R3) [R4 R5]], demo_dma_tags as [[T1 T2] [K1 K2]].
  refine (run_local 14 2 (result demo_d4) _ _ (run_local 12 1 (result demo_d3) _ _ _ R4) R5).
  refine (run_receive 11 (answer_of 1 0x100 [1; 2; 3; 4]) (result demo_d2) _ _
    (run_receive 10 (answer_of 2 0x104 [5; 6; 7; 8]) (result demo_d1) _ _ demo_dma_start _ _ R2) _ _ R3).
  - by rewrite T1.
  - by apply answers_read.
  - by rewrite T2.
  - by apply answers_read.
Qed.


Lemma bursts_partition_witness :
  concat (map (fun '(o, x) => seqZ o x) (all_bursts demo_dma 10)) = seqZ 0 10 /\
  all_bursts demo_dma 10 = [(0, 4); (4, 4); (8, 2)].
Proof.
  split; [|by vm_compute]. exact (proj1 (bursts_partition demo_dma ltac:(by split) 10 ltac:(done) ltac:(done))).
Defined.

End DmaFacts.
