(* ===== verification/DmaRetry.v ===== *)
(** * Timeouts of DMA reads

    Proofs about the retry clock of [Dma]: reads that nobody answers are sent
    again and in the end completed by force, so that none stays pending; the
    forced completion leaves the completion token unset. *)

From S2P Require Import Prelude Telemetry Cluster GroupMsg LocalMem Dma DmaCompletion.
From stdpp Require Import strings pretty.
#[local] Open Scope Z_scope.
#[local] Open Scope mach_scope.

Section DmaRetry.
Import Net Dma.
Local Open Scope dma_scope.

Section Engine.
Variable c : Config.
Variable coreTime : Z -> Z.
Variable link : Z -> bool.
Variable order : gmap Z PendingDmaOp -> list Z.
Hypothesis Horder : forall m, NoDup (order m).

(** ** Reads that nobody answers *)

Section Unanswered.
Hypothesis Hlink : forall n, link n = true.
Hypothesis Hwalk : forall m k, is_Some (m !! k) -> k ∈ order m.
Hypothesis Hwindow : 0 < dma_read_max_inflight c.
Hypothesis Hticks : 0 <= dma_read_retry_ticks c.
Hypothesis Hretries : 0 <= dma_read_max_retries c.

Definition is_read (o : PendingDmaOp) : bool := bool_decide (kind o = READ_TO_GM).
(** A read that the retry loop looks at. *)
Definition busy (o : PendingDmaOp) : bool := is_read o && request_issued o.

(** The ticks a read can still take. *)
Definition patience (o : PendingDmaOp) : Z :=
  if is_read o then
    (dma_read_max_retries c - retry_attempts o) * (dma_read_retry_ticks c + 1) +
    (if request_issued o then retry_ticks_left o + 1 else dma_read_retry_ticks c + 2)
  else 0.

Definition client_only (k : DmaCallback) : Prop := match k with NextChunk _ _ => False | _ => True end.
Definition writable (s : t) (enabled : bool) (a : Z) : Prop :=
  enabled = true -> Storage.out_of_range a (storage s) = false.

(** The completion of the operation is well defined. *)
Definition can_finish (s : t) (o : PendingDmaOp) : Prop :=
  (writable s (completion_enabled o) (completion_flag_addr o) /\ client_only (cb o)) /\
  forall k x, ctx o = Some k -> contexts s !! k = Some x ->
    writable s (cx_completion_enabled x) (cx_completion_flag_addr x) /\ client_only (cx_cb x).

Record good_read (s : t) (key : Z) (o : PendingDmaOp) : Prop := {
  gr_key : request_id o = key;
  gr_route : is_Some (Routing.destination (routing c) (host_addr o));
  gr_attempts : 0 <= retry_attempts o <= dma_read_max_retries c;
  gr_ticks : 0 <= retry_ticks_left o <= dma_read_retry_ticks c;
  gr_sent : request_issued o = true -> request_sent o = true;
  gr_finish : can_finish s o
}.

(** Nothing is queued to send and every read can be carried out. *)
Record good (s : t) : Prop := {
  go_queue : send_retry_queue s = [];
  go_reads : forall key o, dma_pending s !! key = Some o -> is_read o = true -> good_read s key o
}.
(** If reads are pending one of them is in the window. *)
Definition live (s : t) : Prop :=
  forall key o, dma_pending s !! key = Some o -> is_read o = true ->
  exists key' o', dma_pending s !! key' = Some o' /\ busy o' = true.

(** What the retry loop leaves alone. *)
Record steady (s s' : t) : Prop := {
  sd_base : Storage.baseAddr (storage s') = Storage.baseAddr (storage s);
  sd_size : Storage.size (storage s') = Storage.size (storage s);
  sd_queue : send_retry_queue s' = send_retry_queue s;
  sd_contexts : forall k x', contexts s' !! k = Some x' -> exists x, contexts s !! k = Some x /\
    cx_completion_enabled x' = cx_completion_enabled x /\
    cx_completion_flag_addr x' = cx_completion_flag_addr x /\ cx_cb x' = cx_cb x
}.

Lemma steady_refl s : steady s s.
Proof. constructor; try done. intros k x Hx. by exists x. Qed.
Lemma steady_trans s s1 s2 : steady s s1 -> steady s1 s2 -> steady s s2.
Proof.
  intros [] []. constructor; try congruence. intros k x2 H2. destruct (sd_contexts1 k x2 H2) as (x1 & H1 & ? & ? & ?).
  destruct (sd_contexts0 k x1 H1) as (x & Hx & ? & ? & ?). exists x. split_and!; congruence.
Qed.

Lemma steady_writable s s' b a : steady s s' -> writable s b a -> writable s' b a.
Proof. intros [] H E. specialize (H E). unfold Storage.out_of_range in *. by rewrite sd_base0, sd_size0. Qed.

Definition job (o : PendingDmaOp) :=
  (kind o, request_id o, host_addr o, (completion_enabled o, completion_flag_addr o, cb o, ctx o)).

Lemma steady_finish s s' o o' : steady s s' -> job o' = job o -> can_finish s o -> can_finish s' o'.
Proof.
  intros St [= _ _ _ He Hf Hc Hx] [[H1 H2] H3]. split.
  - rewrite He, Hf, Hc. split; [by apply (steady_writable s)|done].
  - intros k x' Hk Hx'. destruct (sd_contexts _ _ St k x' Hx') as (x & Hl & -> & -> & ->).
    destruct (H3 k x) as [? ?]; [congruence|done|]. split; [by apply (steady_writable s)|done].
Qed.

Lemma write_flag a v s :
  Storage.out_of_range a (storage s) = false ->
  exists s', write_u64_to_storage a v s = Some ([], s') /\ dma_pending s' = dma_pending s /\ contexts s' = contexts s /\
    steady s s'.
Proof.
  intros H. unfold write_u64_to_storage, Storage.write_u64. rewrite H. eexists. split; [done|].
  split; [done|]. split; [done|]. constructor; try done.
  - unfold Storage.size. f_equal. apply length_inserts.
  - intros k x Hx. by exists x.
Qed.

(** The forced completion: flag, then callback. *)
Lemma forced_runs now s (b : bool) a v k okay :
  (b = true -> Storage.out_of_range a (storage s) = false) -> client_only k ->
  exists o s', ((if b then write_u64_to_storage a v else skip) ⨟ skip ⨟ run_callback c coreTime now k okay) s = Some (o, s') /\
    dma_pending s' = dma_pending s /\ steady s s'.
Proof.
  intros Hb Hk.
  assert (exists s1, (if b then write_u64_to_storage a v else skip) s = Some ([], s1) /\ dma_pending s1 = dma_pending s /\
    steady s s1) as (s1 & E1 & Hp & St).
  { destruct b; [|exists s; by split_and!; [| |apply steady_refl]].
    destruct (write_flag a v s (Hb eq_refl)) as (s1 & ? & ? & _ & ?). by exists s1. }
  unfold andThen. rewrite E1. destruct k as [|n|]; [| |done]; simpl; eexists _, s1; by split_and!.
Qed.

Lemma finish_runs now s o :
  can_finish s o ->
  exists out s', finish_op c coreTime now o false false s = Some (out, s') /\ dma_pending s' = dma_pending s /\ steady s s'.
Proof.
  intros [[H1 H2] H3]. unfold finish_op, finish_single, finish_context. destruct (ctx o) as [k|]; [|by apply forced_runs].
  destruct (contexts s !! k) as [x|] eqn:Ex; [|eexists _, s; by split_and!; [| |apply steady_refl]].
  destruct (H3 k x eq_refl Ex) as [Hw Hc]. cbv zeta.
  set (y := if 0 <? _ then _ else _).
  assert (cx_completion_enabled y = cx_completion_enabled x /\ cx_completion_flag_addr y = cx_completion_flag_addr x /\
    cx_cb y = cx_cb x) as (Hy1 & Hy2 & Hy3) by (unfold y; by destruct (0 <? _)).
  clearbody y. set (s1 := s <| contexts := _ |>).
  assert (steady s s1) as St.
  { constructor; try done. intros k' x' Hx'. change (contexts s1) with (<[k := y]> (contexts s)) in Hx'.
    apply lookup_insert_Some in Hx' as [[-> <-]|[_ Hx']]; [exists x|exists x']; by split_and!. }
  destruct (negb (remaining y =? 0)); [eexists _, s1; by split_and!|].
  destruct (forced_runs now s1 (cx_completion_enabled y) (cx_completion_flag_addr y) (cx_completion_value y) (cx_cb y) (ok y))
    as (out & s2 & E & Hp & St2); [rewrite Hy1, Hy2; exact Hw|by rewrite Hy3|].
  exists out, s2. split; [exact E|]. split; [by rewrite Hp|]. by eapply steady_trans.
Qed.

(** An operation of the loop, later: the same job with the same or less patience. *)
Definition later (s s' : t) : Prop :=
  forall k o', dma_pending s' !! k = Some o' ->
  exists o, dma_pending s !! k = Some o /\ job o' = job o /\ patience o' <= patience o.

Lemma later_refl s : later s s.
Proof. intros k o Ho. by exists o. Qed.
Lemma later_trans s s1 s2 : later s s1 -> later s1 s2 -> later s s2.
Proof.
  intros H1 H2 k o2 Ho2. destruct (H2 k o2 Ho2) as (o1 & Ho1 & Hj & Hp).
  destruct (H1 k o1 Ho1) as (o & Ho & Hj' & Hp'). exists o. split; [done|]. split; [congruence|lia].
Qed.
Lemma later_insert s s' key o o' :
  dma_pending s !! key = Some o -> dma_pending s' = <[key := o']> (dma_pending s) ->
  job o' = job o -> patience o' <= patience o -> later s s'.
Proof.
  intros Ho E Hj Hp k o1. rewrite E. intros [[<- <-]|[_ Ho1]]%lookup_insert_Some; [by exists o|by exists o1].
Qed.

Lemma job_read o o' : job o' = job o -> is_read o' = is_read o.
Proof. intros [= E _ _ _ _ _ _]. unfold is_read. by rewrite E. Qed.

Lemma steady_good s s' key o o' :
  steady s s' -> good s -> dma_pending s !! key = Some o -> dma_pending s' = <[key := o']> (dma_pending s) ->
  job o' = job o ->
  (is_read o' = true -> 0 <= retry_attempts o' <= dma_read_max_retries c /\ 0 <= retry_ticks_left o' <= dma_read_retry_ticks c /\
     (request_issued o' = true -> request_sent o' = true)) ->
  good s'.
Proof.
  intros St [Hq Hr] Ho E Hj Ht. constructor; [by rewrite (sd_queue _ _ St)|].
  intros k o1. rewrite E. intros [[<- <-]|[_ Ho1]]%lookup_insert_Some Hread.
  - destruct (Ht Hread) as (H1 & H2 & H3). rewrite (job_read _ _ Hj) in Hread. destruct (Hr key o Ho Hread).
    constructor; try done.
    + injection Hj. congruence.
    + injection Hj as _ _ -> _ _ _ _. done.
    + by apply (steady_finish s s' o).
  - destruct (Hr k o1 Ho1 Hread). constructor; try done. by apply (steady_finish s s' o1).
Qed.

(** A send goes out at once. *)
Lemma issue_runs s key o :
  send_retry_queue s = [] -> dma_pending s !! key = Some o -> request_id o = key -> is_read o = true ->
  is_Some (Routing.destination (routing c) (host_addr o)) ->
  exists out s' o', issue_dma_read_chunk c link o s = Some (out, s') /\ steady s s' /\
    dma_pending s' = <[key := o']> (dma_pending s) /\ job o' = job o /\
    (retry_attempts o', retry_ticks_left o', request_issued o', request_sent o') =
    (retry_attempts o, dma_read_retry_ticks c, request_issued o, true).
Proof.
  intros Hq Ho Hid Hr [dst Hd]. apply bool_decide_eq_true in Hr.
  unfold issue_dma_read_chunk, read_request, try_send_or_queue, try_send, flush_send_retry_queue, link_send.
  rewrite Hd, Hq. cbn [List.length flush_loop]. rewrite Hq, Hlink. cbn [snd].
  unfold mark_dma_read_sent. cbn [readKey]. rewrite Hid.
  change (dma_pending (s <| send_attempts := send_attempts s + 1 |>)) with (dma_pending s). rewrite Ho, Hr.
  cbv zeta. eexists _, _, _. split; [done|]. split; [|split; [done|]].
  - constructor; try done. intros k x Hx. by exists x.
  - by destruct (negb (first_send_seen o)).
Qed.

(** One step of the retry loop. *)
Definition retried (s : t) (key : Z) (erase : bool) (s' : t) : Prop :=
  (forall k, k <> key -> dma_pending s' !! k = dma_pending s !! k) /\
  (forall o o', dma_pending s !! key = Some o -> busy o = true -> dma_pending s' !! key = Some o' ->
     erase = true \/ patience o' < patience o).


Lemma good_same s s' : steady s s' -> dma_pending s' = dma_pending s -> good s -> good s'.
Proof.
  intros St E [Hq Hr]. constructor; [by rewrite (sd_queue _ _ St)|]. intros k o. rewrite E. intros Ho Hread.
  destruct (Hr k o Ho Hread). constructor; try done. by apply (steady_finish s s' o).
Qed.
Lemma later_same s s' : dma_pending s' = dma_pending s -> later s s'.
Proof. intros E k o Ho. rewrite E in Ho. by exists o. Qed.

Lemma patience_read o :
  is_read o = true -> patience o =
    (dma_read_max_retries c - retry_attempts o) * (dma_read_retry_ticks c + 1) +
    (if request_issued o then retry_ticks_left o + 1 else dma_read_retry_ticks c + 2).
Proof. intros H. unfold patience. by rewrite H. Qed.

(** A step that rewrites the operation it looks at. *)
Lemma retried_insert s s' key o o' :
  dma_pending s !! key = Some o -> dma_pending s' = <[key := o']> (dma_pending s) -> patience o' < patience o ->
  retried s key false s'.
Proof.
  intros Ho E Hp. split; [intros k Hk; by rewrite E, lookup_insert_ne|].
  intros o1 o2 Ho1 _. rewrite E, lookup_insert_eq. intros [= <-]. right. congruence.
Qed.

Definition stepped (s : t) (key : Z) (erase : bool) (s' : t) : Prop :=
  steady s s' /\ good s' /\ later s s' /\ retried s key erase s'.

Lemma stepped_insert s s' key o o' :
  steady s s' -> good s -> dma_pending s !! key = Some o -> dma_pending s' = <[key := o']> (dma_pending s) ->
  job o' = job o -> patience o' < patience o -> 0 <= retry_attempts o' <= dma_read_max_retries c ->
  0 <= retry_ticks_left o' <= dma_read_retry_ticks c -> request_sent o' = true -> stepped s key false s'.
Proof.
  intros St G Ho E Hj Hp Ha Ht Hs. split; [done|]. split; [by apply (steady_good s s' key o o')|].
  split; [apply (later_insert s s' key o o'); try done; lia|by apply (retried_insert s s' key o o')].
Qed.
Lemma stepped_idle s key :
  good s -> (forall o, dma_pending s !! key = Some o -> busy o = false) -> stepped s key false s.
Proof.
  intros G Hb. split; [apply steady_refl|]. split; [done|]. split; [apply later_refl|].
  split; [done|]. intros o o' Ho Hbusy. by rewrite (Hb o Ho) in Hbusy.
Qed.
Lemma steady_set_op s key o : steady s (set_op key o s).
Proof. constructor; try done. intros k x Hx. by exists x. Qed.

Lemma retry_again s key o :
  good s -> dma_pending s !! key = Some o -> is_read o = true -> good_read s key o -> request_issued o = true ->
  retry_ticks_left o = 0 -> retry_attempts o < dma_read_max_retries c ->
  let o1 := o <| retry_attempts := retry_attempts o + 1 |> <| request_sent := false |> in
  exists out s', issue_dma_read_chunk c link o1 (set_op key o1 s) = Some (out, s') /\ stepped s key false s'.
Proof.
  intros G Ho Hr [Hk Hd Ha Ht Hs Hf] Hi Et Ea o1.
  destruct (issue_runs (set_op key o1 s) key o1 (go_queue _ G) (lookup_insert_eq _ _ _) Hk Hr Hd)
    as (out & s' & o' & -> & St & Hp & Hj & [= Ha' Ht' Hi' Hs']).
  exists out, s'. split; [done|]. apply (stepped_insert s s' key o o'); try done.
  - eapply steady_trans; [apply (steady_set_op s key o1)|exact St].
  - rewrite Hp. apply insert_insert_eq.
  - rewrite !patience_read, Ha', Ht', Hi' by (try rewrite (job_read _ _ Hj); done). unfold o1. cbn. rewrite Hi. lia.
  - rewrite Ha'. unfold o1. cbn. lia.
  - rewrite Ht'. lia.
Qed.

Lemma retry_one_runs now s key :
  good s -> exists er out s', retry_one c coreTime link now key s = Some (er, (out, s')) /\ stepped s key er s'.
Proof.
  intros G. unfold retry_one.
  destruct (dma_pending s !! key) as [o|] eqn:Ho.
  2: { eexists _, _, _. split; [done|]. apply stepped_idle; [done|]. by rewrite Ho. }
  destruct (is_read o) eqn:Hr; pose proof Hr as Hr'; unfold is_read in Hr'; rewrite Hr'; cbn [negb orb].
  2: { eexists _, _, _. split; [done|]. apply stepped_idle; [done|]. rewrite Ho. intros ? [= <-]. unfold busy. by rewrite Hr. }
  pose proof (go_reads _ G key o Ho Hr) as GR.
  destruct (request_issued o) eqn:Hi; cbn [negb orb].
  2: { eexists _, _, _. split; [done|]. apply stepped_idle; [done|]. rewrite Ho. intros ? [= <-]. unfold busy.
       by rewrite Hi, andb_false_r. }
  rewrite (gr_sent _ _ _ GR Hi). cbn [negb]. destruct (0 <? retry_ticks_left o) eqn:Et.
  { eexists _, _, _. split; [done|]. destruct GR.
    eapply (stepped_insert s _ key o); [apply steady_set_op|done|done|done|done| |done|cbn; lia|by apply gr_sent0].
    rewrite !patience_read, Hi by done. cbn. rewrite Hi. lia. }
  destruct (retry_attempts o <? dma_read_max_retries c) eqn:Ea.
  - destruct (retry_again s key o G Ho Hr GR Hi) as (out & s' & -> & St); [destruct GR; lia|lia|]. by eexists _, _, _.
  - destruct (finish_runs now s o (gr_finish _ _ _ GR)) as (out & s' & -> & Hp & St). eexists _, _, _. split; [done|].
    split; [done|]. split; [by apply (good_same s)|]. split; [by apply later_same|].
    split; [intros k _; by rewrite Hp|]. intros. by left.
Qed.

(** The loop: the operations it gives up are listed, the other reads have moved on. *)
Definition moved (ks : list Z) (s s' : t) (k : Z) : Prop :=
  forall o o', dma_pending s !! k = Some o -> busy o = true -> dma_pending s' !! k = Some o' ->
  k ∈ ks \/ patience o' < patience o.

Lemma retry_loop_runs now keys : forall s,
  NoDup keys -> good s -> exists ks out s', retry_loop c coreTime link now keys s = Some (ks, (out, s')) /\
    steady s s' /\ good s' /\ later s s' /\ (forall k, k ∉ keys -> dma_pending s' !! k = dma_pending s !! k) /\
    (forall k, k ∈ keys -> moved ks s s' k).
Proof.
  induction keys as [|key keys IH]; intros s Hnd G; cbn [retry_loop].
  { eexists _, _, _. split; [done|]. split; [apply steady_refl|]. split; [done|]. split; [apply later_refl|].
    split; [done|]. intros k Hk. by apply elem_of_nil in Hk. }
  apply NoDup_cons in Hnd as [Hnin Hnd].
  destruct (retry_one_runs now s key G) as (er & out & s1 & -> & St1 & G1 & L1 & R1 & R1').
  destruct (IH s1 Hnd G1) as (ks & out' & s' & -> & St & G' & L & Hsame & Hmoved).
  eexists _, _, s'. split; [done|]. split; [by eapply steady_trans|]. split; [done|]. split; [by eapply later_trans|].
  split.
  - intros k Hk. apply not_elem_of_cons in Hk as [Hk Hk']. by rewrite Hsame, R1.
  - intros k Hk o o' Ho Hb Ho'. apply elem_of_cons in Hk as [->|Hk].
    + rewrite Hsame in Ho' by done. destruct (R1' o o' Ho Hb Ho') as [->|]; [left; by left|by right].
    + assert (k <> key) as Hne by congruence. rewrite <- (R1 k Hne) in Ho.
      destruct (Hmoved k Hk o o' Ho Hb Ho') as [|]; [left; apply elem_of_app; by right|by right].
Qed.

(** The window: reads enter it with less patience; if a read is among the keys one is in it
    afterwards. *)
Definition some_busy (s : t) : Prop := exists k o, dma_pending s !! k = Some o /\ busy o = true.

Lemma window_enter s key o :
  good s -> dma_pending s !! key = Some o -> is_read o = true -> request_issued o = false ->
  exists out s', issue_dma_read_chunk c link (entered c o) (set_op key (entered c o) s) = Some (out, s') /\
    steady s s' /\ good s' /\ later s s' /\ (forall k, is_Some (dma_pending s !! k) -> is_Some (dma_pending s' !! k)) /\
    some_busy s'.
Proof.
  intros G Ho Hr Hi. destruct (go_reads _ G key o Ho Hr) as [Hk Hd Ha Ht Hs Hf].
  destruct (issue_runs (set_op key (entered c o) s) key (entered c o) (go_queue _ G) (lookup_insert_eq _ _ _) Hk Hr Hd)
    as (out & s' & o' & -> & St & Hp & Hj & [= Ha' Ht' Hi' Hs']).
  assert (dma_pending s' = <[key := o']> (dma_pending s)) as Hp' by (rewrite Hp; apply insert_insert_eq).
  assert (is_read o' = true) as Hr' by (by rewrite (job_read _ _ Hj)).
  exists out, s'. split; [done|].
  destruct (stepped_insert s s' key o o') as (H1 & H2 & H3 & _); try done.
  - eapply steady_trans; [apply (steady_set_op s key (entered c o))|exact St].
  - rewrite !patience_read, Ha', Ht', Hi', Hi by done. cbn. lia.
  - rewrite Ha'. done.
  - rewrite Ht'. lia.
  - split_and!; try done.
    + intros k Hsome. rewrite Hp'. destruct (decide (k = key)) as [->|]; [rewrite lookup_insert_eq; by eexists|].
      by rewrite lookup_insert_ne.
    + exists key, o'. split; [by rewrite Hp', lookup_insert_eq|]. unfold busy. by rewrite Hr', Hi'.
Qed.

Lemma window_loop_runs keys : forall n s,
  good s -> exists out s', window_loop c link keys n s = Some (out, s') /\ steady s s' /\ good s' /\ later s s' /\
    (some_busy s -> some_busy s') /\
    (forall k o, k ∈ keys -> dma_pending s !! k = Some o -> is_read o = true -> some_busy s').
Proof.
  induction keys as [|key keys IH]; intros n s G; cbn [window_loop].
  { eexists _, _. split; [done|]. split; [apply steady_refl|]. split; [done|]. split; [apply later_refl|].
    split; [done|]. intros k o Hk. by apply elem_of_nil in Hk. }
  destruct (dma_pending s !! key) as [o|] eqn:Ho.
  2: { destruct (IH n s G) as (out & s' & E & H1 & H2 & H3 & H4 & H5). exists out, s'. split_and!; try done.
       intros k o [->|Hk]%elem_of_cons; [congruence|by apply H5]. }
  destruct (is_read o) eqn:Hr; pose proof Hr as Hr'; unfold is_read in Hr'; rewrite Hr'; cbn [negb orb].
  2: { destruct (IH n s G) as (out & s' & E & H1 & H2 & H3 & H4 & H5). exists out, s'. split_and!; try done.
       intros k o' [->|Hk]%elem_of_cons; [congruence|by apply H5]. }
  destruct (request_issued o) eqn:Hi.
  { destruct (IH n s G) as (out & s' & E & H1 & H2 & H3 & H4 & H5). exists out, s'. split_and!; try done.
    intros _ _ _ _ _. apply H4. exists key, o. split; [done|]. unfold busy. by rewrite Hr, Hi. }
  destruct (window_enter s key o G Ho Hr Hi) as (out & s1 & E & St & G1 & L1 & _ & B1).
  unfold andThen, modify. rewrite E. destruct (_ <=? n + 1).
  - eexists _, s1. split; [done|]. split_and!; done.
  - destruct (IH (n + 1) s1 G1) as (out' & s' & -> & H1 & H2 & H3 & H4 & _). eexists _, s'. split; [done|].
    split; [by eapply steady_trans|]. split; [done|]. split; [by eapply later_trans|]. split; [by intros; apply H4|].
    intros. by apply H4.
Qed.

Lemma window_runs s :
  good s -> exists out s', issue_pending_dma_read_window c link order s = Some (out, s') /\
    steady s s' /\ good s' /\ later s s' /\ live s'.
Proof.
  intros G. unfold issue_pending_dma_read_window. destruct (_ <=? _) eqn:E.
  - exists [], s. split; [done|]. split; [apply steady_refl|]. split; [done|]. split; [apply later_refl|].
    intros k o _ _. unfold count_issued_dma_reads in E.
    destruct (map_choose (filter (fun '(_, op) => is_issued_read op = true) (dma_pending s))) as (k' & o' & H).
    { intros H. rewrite H in E. change (Z.of_nat (size ∅)) with 0 in E. lia. }
    apply map_lookup_filter_Some in H as [H1 H2]. by exists k', o'.
  - destruct (window_loop_runs (order (dma_pending s)) (count_issued_dma_reads s) s G)
      as (out & s' & Ew & H1 & H2 & H3 & H4 & H5).
    exists out, s'. split_and!; try done. intros k o' Ho' Hr. destruct (H3 k o' Ho') as (o & Ho & Hj & _).
    apply (H5 k o); [apply Hwalk; by exists o|done|by rewrite <- (job_read _ _ Hj)].
Qed.

(** *** The total *)

Definition patience_left (m : gmap Z PendingDmaOp) : Z := map_fold (fun _ o z => patience o + z) 0 m.

Lemma patience_delete m k o : m !! k = Some o -> patience_left m = patience o + patience_left (delete k m).
Proof. intros H. unfold patience_left. apply (map_fold_delete_L (fun _ o z => patience o + z)); [intros; lia|done]. Qed.

Lemma patience_le m : forall m',
  (forall k o', m' !! k = Some o' -> exists o, m !! k = Some o /\ patience o' <= patience o) ->
  map_Forall (fun _ o => 0 <= patience o) m -> patience_left m' <= patience_left m.
Proof.
  induction m as [|i x m Hi IH] using map_ind; intros m' Hle Hpos.
  { assert (m' = ∅) as ->; [|done]. apply map_empty. intros k. destruct (m' !! k) as [o'|] eqn:E; [|done].
    destruct (Hle k o' E) as (o & Ho & _). by rewrite lookup_empty in Ho. }
  apply map_Forall_insert in Hpos as [Hx Hpos]; [|done].
  rewrite (patience_delete (<[i := x]> m) i x) by apply lookup_insert_eq. rewrite delete_insert_id by done.
  assert (forall k o', delete i m' !! k = Some o' -> exists o, m !! k = Some o /\ patience o' <= patience o) as Hle'.
  { intros k o' [Hne Ho']%lookup_delete_Some. destruct (Hle k o' Ho') as (o & Ho & Hp).
    rewrite lookup_insert_ne in Ho by done. by exists o. }
  specialize (IH _ Hle' Hpos). destruct (m' !! i) as [x'|] eqn:E.
  - rewrite (patience_delete m' i x') by done. destruct (Hle i x' E) as (o & Ho & Hp).
    rewrite lookup_insert_eq in Ho. injection Ho as <-. lia.
  - rewrite delete_id in IH by done. lia.
Qed.

Lemma patience_bounds s key o :
  good s -> dma_pending s !! key = Some o ->
  0 <= patience o <= (dma_read_max_retries c + 1) * (dma_read_retry_ticks c + 1) + 1 /\ (is_read o = true -> 1 <= patience o).
Proof.
  intros G Ho. destruct (is_read o) eqn:Hr.
  - destruct (go_reads _ G key o Ho Hr). rewrite patience_read by done. destruct (request_issued o); nia.
  - unfold patience. rewrite Hr. split; [nia|done].
Qed.

Lemma patience_size s :
  good s -> patience_left (dma_pending s) <=
    Z.of_nat (size (dma_pending s)) * ((dma_read_max_retries c + 1) * (dma_read_retry_ticks c + 1) + 1).
Proof.
  intros G. assert (map_Forall (fun _ o => patience o <= (dma_read_max_retries c + 1) * (dma_read_retry_ticks c + 1) + 1)
    (dma_pending s)) as H by (intros k o Ho; by apply (patience_bounds s k o)).
  clear G. induction (dma_pending s) as [|i x m Hi IH] using map_ind; [done|].
  apply map_Forall_insert in H as [Hx H]; [|done]. specialize (IH H).
  rewrite (patience_delete (<[i := x]> m) i x) by apply lookup_insert_eq. rewrite delete_insert_id, map_size_insert_None by done.
  lia.
Qed.

Lemma erased_lookup ks s k o : dma_pending (erase_ops ks s) !! k = Some o -> (k ∉ ks) /\ dma_pending s !! k = Some o.
Proof.
  unfold erase_ops. cbn. induction ks as [|x ks IH]; cbn; [by intros H; split; [apply not_elem_of_nil|]|].
  intros [Hne H]%lookup_delete_Some. destruct (IH H) as [H1 H2]. split; [|done]. by apply not_elem_of_cons.
Qed.

Definition all_moved (s s' : t) : Prop :=
  forall k o o', dma_pending s !! k = Some o -> busy o = true -> dma_pending s' !! k = Some o' -> patience o' < patience o.

Lemma process_runs now s :
  good s -> exists out s', process_dma_read_retries c coreTime link order now s = Some (out, s') /\
    good s' /\ live s' /\ later s s' /\ all_moved s s'.
Proof.
  intros G. unfold process_dma_read_retries. destruct (bool_decide _) eqn:E.
  { apply bool_decide_eq_true in E. exists [], s. split; [done|]. split; [done|].
    split; [|split; [apply later_refl|]]; intros k o; rewrite E, lookup_empty; discriminate. }
  destruct (retry_loop_runs now (order (dma_pending s)) s (Horder _) G) as (ks & out & s1 & -> & St & G1 & L1 & _ & M1).
  cbn [fst snd]. set (s2 := erase_ops ks s1).
  assert (good s2) as G2.
  { destruct G1 as [Hq Hr]. constructor; [done|]. intros k o [_ Ho]%erased_lookup Hread.
    destruct (Hr k o Ho Hread). by constructor. }
  destruct (window_runs s2 G2) as (out' & s' & Ew & St' & G' & L' & V'). unfold andThen, emit. rewrite Ew.
  eexists _, s'. split; [done|]. split; [done|]. split; [done|].
  assert (forall k o', dma_pending s' !! k = Some o' -> exists o1, (k ∉ ks) /\ dma_pending s1 !! k = Some o1 /\
    job o' = job o1 /\ patience o' <= patience o1) as Hback.
  { intros k o' Ho'. destruct (L' k o' Ho') as (o1 & [H1 H2]%erased_lookup & H3). by exists o1. }
  split.
  - intros k o' (o1 & _ & Ho1 & Hj & Hp)%Hback. destruct (L1 k o1 Ho1) as (o & Ho & Hj' & Hp').
    exists o. split; [done|]. split; [congruence|lia].
  - intros k o o' Ho Hb (o1 & Hk & Ho1 & _ & Hp)%Hback.
    destruct (M1 k (Hwalk _ _ ltac:(by exists o)) o o1 Ho Hb Ho1) as [|]; [done|lia].
Qed.

Lemma patience_none m : map_Forall (fun _ o => is_read o = false) m -> patience_left m = 0.
Proof.
  induction m as [|i x m Hi IH] using map_ind; [done|]. intros [Hx H]%map_Forall_insert; [|done].
  rewrite (patience_delete (<[i := x]> m) i x) by apply lookup_insert_eq. rewrite delete_insert_id, IH by done.
  unfold patience. by rewrite Hx.
Qed.

Lemma patience_shrinks s s' :
  good s -> live s -> later s s' -> all_moved s s' ->
  patience_left (dma_pending s') <= Z.max 0 (patience_left (dma_pending s) - 1).
Proof.
  intros G V L M.
  assert (map_Forall (fun _ o => 0 <= patience o) (dma_pending s)) as Hpos
    by (intros k o Ho; by apply (patience_bounds s k o)).
  assert (forall k o', dma_pending s' !! k = Some o' -> exists o, dma_pending s !! k = Some o /\ patience o' <= patience o)
    as Hle by (intros k o' (o & ? & _ & ?)%L; by exists o).
  destruct (decide (map_Forall (fun _ o => is_read o = false) (dma_pending s))) as [Hw|Hw].
  { pose proof (patience_le _ _ Hle Hpos). rewrite (patience_none _ Hw) in *. lia. }
  apply map_not_Forall in Hw as (k0 & o0 & Ho0 & Hr0%not_false_iff_true); [|apply _].
  destruct (V k0 o0 Ho0 Hr0) as (k & o & Ho & Hb). pose proof Hb as [Hr _]%andb_true_iff.
  destruct (patience_bounds s k o G Ho) as [_ Hge]. specialize (Hge Hr).
  rewrite (patience_delete (dma_pending s) k o) by done.
  assert (patience_left (delete k (dma_pending s')) <= patience_left (delete k (dma_pending s))) as Hrest.
  { apply patience_le; [|by apply map_Forall_delete]. intros k' o' [Hne Ho']%lookup_delete_Some.
    destruct (Hle k' o' Ho') as (o1 & Ho1 & Hp). exists o1. by rewrite lookup_delete_ne. }
  destruct (dma_pending s' !! k) as [o'|] eqn:E.
  - rewrite (patience_delete (dma_pending s') k o') by done. specialize (M k o o' Ho Hb E). lia.
  - rewrite delete_id in Hrest by done. lia.
Qed.

Lemma tick_runs now s :
  good s -> live s -> exists out s', handleSelfEvent c coreTime link order now s = Some (out, s') /\ good s' /\ live s' /\
    patience_left (dma_pending s') <= Z.max 0 (patience_left (dma_pending s) - 1).
Proof.
  intros G V. unfold handleSelfEvent. set (s0 := s <| dma_retry_tick_counter := dma_retry_tick_counter s ⊞ 1 |>).
  assert (good s0) as G0 by (apply (good_same s); [constructor; try done; intros k x Hx; by exists x|done|done]).
  destruct (process_runs now s0 G0) as (out & s1 & E1 & G1 & V1 & L1 & M1).
  set (s2 := s1 <| dma_retry_event_scheduled := false |>).
  assert (good s2) as G2 by (apply (good_same s1); [constructor; try done; intros k x Hx; by exists x|done|done]).
  assert (exists out' s', schedule_if_pending s2 = Some (out', s') /\ dma_pending s' = dma_pending s2 /\ steady s2 s')
    as (out' & s' & E2 & Hp & St).
  { unfold schedule_if_pending, schedule_dma_retry_event. destruct (bool_decide _); [|cbn [negb dma_retry_event_scheduled]];
      eexists _, _; (split; [done|]); (split; [done|]); constructor; try done; intros k x Hx; by exists x. }
  unfold andThen, modify. fold s0. rewrite E1. fold s2. rewrite E2. eexists _, s'. split; [done|].
  split; [by apply (good_same s2)|]. split; [intros k o; rewrite Hp; apply V1|]. rewrite Hp.
  exact (patience_shrinks s s1 G V L1 M1).
Qed.

(** The retry clock, at the given times. *)
Fixpoint ticks (nows : list Z) : cmd :=
  match nows with [] => skip | now :: nows => handleSelfEvent c coreTime link order now ⨟ ticks nows end.

Lemma ticks_run nows : forall s,
  good s -> live s -> patience_left (dma_pending s) <= Z.of_nat (List.length nows) ->
  exists out s', ticks nows s = Some (out, s') /\ map_Forall (fun _ o => kind o = WRITE_TO_HOST) (dma_pending s').
Proof.
  induction nows as [|now nows IH]; intros s G V Hn; cbn [ticks].
  - exists [], s. split; [done|]. intros k o Ho. destruct (kind o) eqn:Ek; [|done]. exfalso.
    assert (is_read o = true) as Hr by (unfold is_read; by rewrite Ek).
    destruct (patience_bounds s k o G Ho) as [_ Hge]. specialize (Hge Hr).
    rewrite (patience_delete (dma_pending s) k o Ho) in Hn.
    assert (patience_left ∅ <= patience_left (delete k (dma_pending s))) as H0.
    { apply patience_le; [intros k' o'; by rewrite lookup_empty|].
      apply map_Forall_delete. intros k' o' Ho'. by apply (patience_bounds s k' o'). }
    change (patience_left ∅) with 0 in H0. cbn in Hn. lia.
  - destruct (tick_runs now s G V) as (out & s1 & E & G1 & V1 & Hp). unfold andThen. rewrite E.
    assert (Z.of_nat (List.length (now :: nows)) = Z.of_nat (List.length nows) + 1) as Hl by (cbn; lia).
    destruct (IH s1 G1 V1 ltac:(lia)) as (out' & s' & -> & Hw). by eexists _, s'.
Qed.

(** C22. No DMA read waits for ever, even if no answer arrives: when the network
    accepts what is sent, every pending read can be routed and its completion flag
    lies in the window, then the retry clock alone - each tick of which is shown to return -
    gets rid of all pending reads within [(max_retries + 1) * (retry_ticks + 1) + 1] ticks per
    operation: each read is sent, sent again [max_retries] times and then completed by force, making
    room in the window for the ones that wait. *)
Theorem unanswered_reads_drain s nows :
  good s -> live s ->
  Z.of_nat (size (dma_pending s)) * ((dma_read_max_retries c + 1) * (dma_read_retry_ticks c + 1) + 1) <=
    Z.of_nat (List.length nows) ->
  exists out s', ticks nows s = Some (out, s') /\ map_Forall (fun _ o => kind o = WRITE_TO_HOST) (dma_pending s').
Proof. intros G V Hn. apply ticks_run; [done|done|]. pose proof (patience_size s G). lia. Qed.
End Unanswered.

End Engine.

(** A read in two bursts, never answered. *)
Definition demo_unanswered : t :=
  result (dma_read_from_host_to_globalmem_impl demo_dma always walk 0x100 8 0x1000 (Client 7) 0 Unknown no_consumer
    (init demo_memory)).
Definition demo_read (id : Z) : PendingDmaOp :=
  mkOp READ_TO_GM id (0xFC + 4 * id) (0xFFC + 4 * id) 4 Unknown no_consumer NoCallback (Some 1) false 0x1048 0 0 1 0
    true true true 0 0 0 0.

Definition demo_shape (s : t) : Prop :=
  (dma_pending s = <[1 := demo_read 1]> {[2 := demo_read 2]} /\
   contexts s = {[1 := mkContext 0x100 0x1000 8 4 2 true (Client 7) true 0x1048 0 0]}) /\
  send_retry_queue s = [] /\ Storage.out_of_range 0x1048 (storage s) = false.

Lemma demo_reads : demo_shape demo_unanswered.
Proof. unfold demo_shape. split_and!; by vm_compute. Qed.

Lemma demo_good s : demo_shape s -> good demo_dma s /\ live s.
Proof.
  intros [[Hp Hx] [Hq Hs]].
  assert (forall key o, dma_pending s !! key = Some o -> o = demo_read key /\ (key = 1 \/ key = 2)) as Hd.
  { intros key o. rewrite Hp. intros [[<- <-]|[_ [<- <-]%lookup_singleton_Some]]%lookup_insert_Some; auto. }
  split; [constructor; [exact Hq|]|].
  - intros key o [-> Hk]%Hd _. constructor; try done.
    + destruct Hk as [-> | ->]; by eexists.
    + split; [done|]. intros k x [= <-]. rewrite Hx, lookup_singleton_eq. intros [= <-]. by split; [intros _|].
  - intros key o Ho _. exists 1, (demo_read 1). split; [|done]. rewrite Hp. apply lookup_insert_eq.
Qed.

Lemma unanswered_reads_drain_witness :
  exists out s', ticks demo_dma id always walk [1; 2; 3; 4; 5; 6; 7; 8; 9; 10] demo_unanswered = Some (out, s') /\
    map_Forall (fun _ o => kind o = WRITE_TO_HOST) (dma_pending s').
Proof.
  destruct (demo_good _ demo_reads) as [G V].
  apply (unanswered_reads_drain demo_dma id always walk walk_nodup).
  - done.
  - intros m k [o Ho]. apply list_elem_of_fmap. exists (k, o). split; [done|]. by apply elem_of_map_to_list.
  - done.
  - done.
  - done.
  - exact G.
  - exact V.
  - destruct demo_reads as [[-> _] _]. by vm_compute.
Defined.

(** *** What a forced completion leaves out *)

Definition demo_async := dma_read_from_host_to_globalmem_async demo_dma always walk 0x100 4 0x1000 Unknown (init demo_memory).
Definition demo_given_up : t := result (ticks demo_dma id always walk [1; 2; 3; 4; 5] (result (snd demo_async))).

Lemma finish_transfer_tokens k okay s o s' :
  finish_transfer k okay s = Some (o, s') -> dma_completion_tokens s' = dma_completion_tokens s.
Proof. unfold finish_transfer. destruct (transfers s !! k); by intros [= <- <-]. Qed.
Lemma run_callback_tokens c coreTime now k okay s o s' :
  run_callback c coreTime now k okay s = Some (o, s') -> dma_completion_tokens s' = dma_completion_tokens s.
Proof.
  destruct k as [|n|k bytes]; [by intros [= <- <-]|by intros [= <- <-]|]. cbn [run_callback].
  destruct (transfers s !! k) as [tr|]; [|by intros [= <- <-]].
  destruct (negb okay); [apply finish_transfer_tokens|]. cbv zeta.
  destruct (_ =? _); [intros E; by rewrite (finish_transfer_tokens _ _ _ _ _ E)|].
  unfold pump_transfer. destruct (transfers _ !! k); [|by intros [= <- <-]]. cbv zeta.
  destruct (LocalMem.localReadAsync _ _ _ _ _ _ _ _ _) as [ac [out m]]. unfold andThen, emit, modify.
  destruct ac; [by intros [= <- <-]|]. destruct (finish_transfer k false _) as [[o1 s1]|] eqn:E; [|discriminate].
  intros [= <- <-]. by rewrite (finish_transfer_tokens _ _ _ _ _ E).
Qed.

Lemma forced_tokens c coreTime now (f : cmd) k okay s o s' :
  (forall o s', f s = Some (o, s') -> dma_completion_tokens s' = dma_completion_tokens s) ->
  (f ⨟ skip ⨟ run_callback c coreTime now k okay) s = Some (o, s') -> dma_completion_tokens s' = dma_completion_tokens s.
Proof.
  intros Hf. unfold andThen. destruct (f s) as [[o1 s1]|]; [|discriminate]. cbn [skip].
  destruct (run_callback _ _ _ _ _ _) as [[o2 s2]|] eqn:E; [|discriminate]. intros [= <- <-].
  rewrite (run_callback_tokens _ _ _ _ _ _ _ _ E). by eapply Hf.
Qed.
Lemma flag_tokens (b : bool) a v s o s' :
  (if b then write_u64_to_storage a v else skip) s = Some (o, s') -> dma_completion_tokens s' = dma_completion_tokens s.
Proof.
  destruct b; [|by intros [= <- <-]]. unfold write_u64_to_storage. destruct (Storage.write_u64 _ _ _); [|done].
  by intros [= <- <-].
Qed.

Lemma given_up_tokens c coreTime link now key s o s' :
  retry_one c coreTime link now key s = Some (true, (o, s')) -> dma_completion_tokens s' = dma_completion_tokens s.
Proof.
  unfold retry_one. destruct (dma_pending s !! key) as [x|]; [|done]. destruct (_ || _); [done|].
  destruct (0 <? _); [done|]. destruct (_ <? _); [by destruct (issue_dma_read_chunk _ _ _ _)|].
  destruct (finish_op _ _ _ _ _ _ _) as [r|] eqn:E; [|done]. intros [= ->]. revert E. unfold finish_op.
  destruct (ctx x) as [k|].
  - unfold finish_context. destruct (contexts s !! k) as [y|]; [|by intros [= <- <-]]. cbv zeta.
    destruct (negb _); [by intros [= <- <-]|]. intros E.
    refine (eq_trans (forced_tokens _ _ _ _ _ _ _ _ _ _ E) _); [|done]. intros o1 s1. apply flag_tokens.
  - apply forced_tokens. intros o1 s1. apply flag_tokens.
Qed.

(** C38. A read given up after its last retry never completes its token: whatever the state, the step of the
    retry loop that forces a read to complete leaves all completion tokens as they were. In the run
    of one unanswered asynchronous read nothing is pending, landing or queued any more,
    but [dma_completion_done] still says no, so a client polling its token waits for ever. *)
Theorem forced_completion_forgets_token :
  (forall c coreTime link now key s o s', retry_one c coreTime link now key s = Some (true, (o, s')) ->
     dma_completion_tokens s' = dma_completion_tokens s) /\
  (dma_pending demo_given_up = ∅ /\ pendingDmaLandings_ demo_given_up = ∅ /\ send_retry_queue demo_given_up = []) /\
  fst demo_async = 1 /\ dma_completion_done (fst demo_async) demo_given_up = false.
Proof. split; [exact given_up_tokens|]. split_and!; by vm_compute. Qed.

End DmaRetry.
