(* ===== verification/RemoteAccess.v ===== *)
(** * Access to the windows of other cores

    Models the remote reads and writes of golem/globalmemory/globalmemory.cc:
    endpoints announce themselves by name, an address is resolved to the core
    whose window holds it, and a read or write of that window travels as a
    message ([rd_to_network], [wr_to_network]); addresses of the identity window
    go to the DMA engine instead.  The theorem composes both ends: a remote read
    brings the other core's bytes to the return address and raises the flag. *)

From S2P Require Import Prelude Telemetry Cluster GroupMsg LocalMem Dma.
From stdpp Require Import strings.
#[local] Open Scope Z_scope.
#[local] Open Scope mach_scope.

(** ** Endpoints *)

Module Endpoints.

Record Config := mkConfig {
  core_id : Z;
  globalBase : Z;
  windowSize : Z;
  linkEndpoint : Z
}.

(** [IDMap] is kept in the order of its keys, as [std::map] does. *)
Record t := mk {
  network_id : Z;
  coreEndpointMap : gmap Z Z;
  IDMap : list (string * Z)
}.
#[global] Instance eta_t : Eta t := fun s => mk (network_id s) (coreEndpointMap s) (IDMap s).

Definition init : t := mk (-1) ∅ [].

Definition digit (a : Ascii.ascii) : option Z :=
  let n := Z.of_N (Ascii.N_of_ascii a) in
  if (48 <=? n) && (n <=? 57) then Some (n - 48) else None.

(** The value of the leading digits and how many there are. *)
Fixpoint digits (acc : Z) (name : string) : Z * Z :=
  match name with
  | EmptyString => (acc, 0)
  | String a rest =>
      match digit a with
      | None => (acc, 0)
      | Some d => let '(v, n) := digits (10 * acc + d) rest in (v, n + 1)
      end
  end.

(** The first occurrence of a word, and what follows it. *)
Definition after (word name : string) : option string :=
  match String.index 0 word name with
  | None => None
  | Some i =>
      let from := (i + String.length word)%nat in
      Some (String.substring from (String.length name - from) name)
  end.

(** [None] is the exception of [std::stoi] on a number that is no [int]. *)
Definition extractCoreId (name : string) : option Z :=
  match after "global_memory" name with
  | None => Some (-1)
  | Some _ =>
      match after "core" name with
      | None => Some (-1)
      | Some rest =>
          let '(v, n) := digits 0 rest in
          if n =? 0 then Some (-1) else if v <? 2 ^ 31 then Some v else None
      end
  end.

Fixpoint assign (name : string) (id : Z) (l : list (string * Z)) : list (string * Z) :=
  match l with
  | [] => [(name, id)]
  | (name', id') :: l' =>
      match String.compare name name' with
      | Eq => (name, id) :: l'
      | Lt => (name, id) :: l
      | Gt => (name', id') :: assign name id l'
      end
  end.

Definition registerEndpoint (name : string) (endpointId : Z) (s : t) : option t :=
  match extractCoreId name with
  | None => None
  | Some discoveredCore =>
      let s := s <| IDMap := assign name endpointId (IDMap s) |> in
      Some (if 0 <=? discoveredCore
            then s <| coreEndpointMap := <[discoveredCore := endpointId]> (coreEndpointMap s) |> else s)
  end.

(** The own endpoint, asked of the link once. *)
Definition ensure_network_id (c : Config) (s : t) : t :=
  if network_id s =? -1
  then s <| network_id := linkEndpoint c |>
         <| coreEndpointMap := <[core_id c := linkEndpoint c]> (coreEndpointMap s) |>
  else s.

Definition setup (c : Config) (s : t) : t :=
  let s := if network_id s =? -1 then s <| network_id := linkEndpoint c |> else s in
  s <| coreEndpointMap := <[core_id c := network_id s]> (coreEndpointMap s) |>.

(** Conversion of a 64-bit count to [int]. *)
Definition to_int (z : Z) : Z := let w := u32 z in if w <? 2 ^ 31 then w else w - 2 ^ 32.

(** The first name that belongs to the core; [None] is an exception on the way. *)
Fixpoint find_core (core : Z) (l : list (string * Z)) : option (option Z) :=
  match l with
  | [] => Some None
  | (name, id) :: l =>
      match extractCoreId name with
      | None => None
      | Some i => if i =? core then Some (Some id) else find_core core l
      end
  end.

Definition resolveEndpointForAddress (c : Config) (addr : Z) (s : t) : option (Z * t) :=
  let s := ensure_network_id c s in
  if addr <? globalBase c then None
  else
    let coreIndex := to_int ((addr ⊟ globalBase c) / windowSize c) in
    let known := match coreEndpointMap s !! coreIndex with Some e => e | None => -1 end in
    if negb (known =? -1) then Some (known, s)
    else
      match find_core coreIndex (IDMap s) with
      | None => None
      | Some (Some id) => Some (id, s <| coreEndpointMap := <[coreIndex := id]> (coreEndpointMap s) |>)
      | Some None =>
          if coreIndex =? core_id c
          then Some (network_id s,
                     s <| coreEndpointMap := <[coreIndex := network_id s]> (coreEndpointMap s) |>)
          else None
      end.

End Endpoints.

(** ** Reads and writes of an address *)

Module Remote.
Import Net Dma.
Local Open Scope dma_scope.

(** [identityWindowBase]: from here on addresses are those of the hosts. *)
Record Config := mkConfig {
  engine : Dma.Config;
  ends : Endpoints.Config;
  identityWindowBase : Z
}.

Record t := mk { dma : Dma.t; endpoints : Endpoints.t }.
#[global] Instance eta_t : Eta t := fun s => mk (dma s) (endpoints s).

(** A command of the DMA engine. *)
Definition lift (f : cmd) (s : t) : option (list effect * t) :=
  match f (dma s) with Some (o, d) => Some (o, s <| dma := d |>) | None => None end.

Section Remote.
Variable c : Config.
Variable link : Z -> bool.
Variable order : gmap Z PendingDmaOp -> list Z.

Definition wr_to_network (wr_addr length : Z) (wr_data : list Z) (s : t) : option (list effect * t) :=
  if identityWindowBase c <=? wr_addr then
    lift (dma_write_to_host (engine c) link wr_addr length wr_data NoCallback Unknown) s
  else
    match Endpoints.resolveEndpointForAddress (ends c) wr_addr (endpoints s) with
    | None => None
    | Some (dest_endpoint, e) =>
        let s := s <| endpoints := e |> in
        if dest_endpoint =? Endpoints.network_id e
        then lift (wr_to_globalmem wr_addr length wr_data) s
        else
          lift (try_send_or_queue (engine c) link
            (mkRequest (Endpoints.network_id e) dest_endpoint (request_vn (engine c))
               (u64 ((8 + 8 + Z.of_nat (List.length wr_data)) * 8))
               (mkEvent WRITE wr_addr length wr_data wr_addr (-1) 0 0 0 Unknown no_consumer 0) None)) s
    end.

(** The flag and its value, remembered for the reply. *)
Definition expect_reply (length returnAddr : Z) : cmd := fun d =>
  if (LocalMem.base (lm d) <=? returnAddr) && (returnAddr ⊞ length <=? u64 (window_end d)) then
    match get_dma_flag_addrs false 0 d with
    | None => None
    | Some (seq_addr, flag_addr) =>
        match Storage.read_u64 seq_addr (storage d) with
        | None => None
        | Some v => Some ([], d <| read_pending := <[returnAddr := mkReply flag_addr v]> (read_pending d) |>)
        end
    end
  else skip d.

Definition rd_to_network (rd_addr length returnAddr : Z) (s : t) : option (list effect * t) :=
  let s := s <| endpoints := Endpoints.ensure_network_id (ends c) (endpoints s) |> in
  if identityWindowBase c <=? rd_addr then
    lift (dma_read_from_host_to_globalmem (engine c) link order rd_addr length returnAddr NoCallback
            Unknown no_consumer) s
  else
    match Endpoints.resolveEndpointForAddress (ends c) rd_addr (endpoints s) with
    | None => None
    | Some (dest_endpoint, e) =>
        let s := s <| endpoints := e |> in
        if dest_endpoint =? Endpoints.network_id e then Some ([], s)
        else
          lift (expect_reply length returnAddr ⨟
            try_send_or_queue (engine c) link
              (mkRequest (Endpoints.network_id e) dest_endpoint (request_vn (engine c)) (u64 ((8 + 8) * 8))
                 (mkEvent READ rd_addr length [] returnAddr (-1) 0 0 0 Unknown no_consumer 0) None)) s
    end.

(** The consumer's progress, told once to each memory node of the two operands. *)
Definition progress_request (destination hostAddr : Z) (consumer : DmaConsumerMetadata) (sizeofConsumer : Z)
    : Request :=
  mkRequest (network_id (engine c)) destination (request_vn (engine c)) (u64 ((sizeofConsumer + 8) * 8))
    (mkEvent DMA_CONSUMER_PROGRESS hostAddr 0 [] 0 (network_id (engine c)) 0 0 0 AttentionKvPrefetch consumer 0)
    None.

Fixpoint tell_progress (consumer : DmaConsumerMetadata) (sizeofConsumer : Z) (hosts destinations : list Z) : cmd :=
  match hosts with
  | [] => skip
  | hostAddr :: hosts =>
      match Routing.destination (routing (engine c)) hostAddr with
      | None => fatal
      | Some destination =>
          if bool_decide (destination ∈ destinations)
          then tell_progress consumer sizeofConsumer hosts destinations
          else
            try_send_or_queue (engine c) link (progress_request destination hostAddr consumer sizeofConsumer) ⨟
            tell_progress consumer sizeofConsumer hosts (destinations ++ [destination])
      end
  end.

Definition dma_update_consumer_progress (firstHostAddr secondHostAddr : Z) (consumer : DmaConsumerMetadata)
    (sizeofConsumer : Z) : cmd :=
  if valid consumer =? 0 then skip
  else tell_progress consumer sizeofConsumer [firstHostAddr; secondHostAddr] [].

End Remote.
End Remote.

Section RemoteFacts.
Import Net Dma.
Local Open Scope dma_scope.

(** ** Resolution *)

Lemma to_int_small z : 0 <= z < 2 ^ 31 -> Endpoints.to_int z = z.
Proof.
  intros H. unfold Endpoints.to_int. cbv zeta. rewrite u32_small by (unfold is_u32; lia).
  destruct (Z.ltb_spec z (2 ^ 31)); lia.
Qed.

(** An address in the window of a known core resolves to its endpoint. *)
Lemma resolve_known (c : Endpoints.Config) s b e a :
  Endpoints.network_id s <> -1 -> Endpoints.coreEndpointMap s !! b = Some e -> e <> -1 ->
  0 <= b < 2 ^ 31 -> 0 <= Endpoints.globalBase c -> 0 < Endpoints.windowSize c ->
  Endpoints.globalBase c + b * Endpoints.windowSize c <= a < Endpoints.globalBase c + (b + 1) * Endpoints.windowSize c ->
  a < 2 ^ 64 -> Endpoints.resolveEndpointForAddress c a s = Some (e, s).
Proof.
  intros Hs He Hne Hb Hg Hw Ha Hlt. unfold Endpoints.resolveEndpointForAddress, Endpoints.ensure_network_id.
  rewrite (proj2 (Z.eqb_neq _ _) Hs). cbv zeta. rewrite (proj2 (Z.ltb_ge _ _)) by nia.
  rewrite u64_small by (unfold is_u64; nia).
  assert ((a - Endpoints.globalBase c) / Endpoints.windowSize c = b) as -> by (symmetry; apply Z.div_unique with
    (r := a - Endpoints.globalBase c - b * Endpoints.windowSize c); nia).
  rewrite to_int_small, He by done. by rewrite (proj2 (Z.eqb_neq _ _) Hne).
Qed.

(** ** Storage *)

Lemma fetch_beside o n o' data m :
  0 <= o -> 0 <= n -> o + n <= o' -> LocalMem.fetch o n (LocalMem.store o' data m) = LocalMem.fetch o n m.
Proof.
  intros Ho Hn Hd. unfold LocalMem.fetch.
  change (Storage.bytes (LocalMem.store o' data m)) with (list_inserts (Z.to_nat o') data (Storage.bytes m)).
  apply list_eq. intros i.
  destruct (decide (i < Z.to_nat n)%nat) as [Hi|Hi]; [|by rewrite !lookup_take_ge by lia].
  rewrite !lookup_take_lt, !lookup_drop by done. by rewrite list_lookup_inserts_lt by lia.
Qed.

(** A window inside the address space. *)
Definition mapped (m : Storage.t) : Prop := 0 <= Storage.baseAddr m /\ Storage.baseAddr m + Storage.size m < 2 ^ 64.

Lemma write_read_u64 a v m :
  mapped m -> Storage.baseAddr m <= a -> a + 8 <= Storage.baseAddr m + Storage.size m -> is_u64 v ->
  exists m', Storage.write_u64 a v m = Some m' /\ Storage.read_u64 a m' = Some v /\
    Storage.baseAddr m' = Storage.baseAddr m /\ Storage.size m' = Storage.size m /\
    forall o n, 0 <= o -> 0 <= n -> o + n <= a - Storage.baseAddr m -> LocalMem.fetch o n m' = LocalMem.fetch o n m.
Proof.
  intros [Hb Hz] Ha Hs Hv. unfold Storage.write_u64.
  assert (Storage.out_of_range a m = false) as Hr.
  { unfold Storage.out_of_range. rewrite !u64_small by (unfold is_u64; lia).
    apply orb_false_iff. split; [by apply Z.ltb_ge|by apply Z.ltb_ge]. }
  rewrite Hr, u64_small by (unfold is_u64; lia). cbv zeta. pose proof (length_encode 8 v) as Hl.
  set (m' := LocalMem.store (a - Storage.baseAddr m) (Storage.encode_le 8 v) m).
  assert (Storage.size m' = Storage.size m) as Hsize by (unfold Storage.size; f_equal; apply length_inserts).
  assert (Storage.baseAddr m' = Storage.baseAddr m) as Hbase by done.
  assert (Storage.out_of_range a m' = false) as Hr' by (unfold Storage.out_of_range in *; by rewrite Hsize, Hbase).
  exists m'. split; [done|]. split; [|split; [done|split; [exact Hsize|]]].
  - unfold Storage.read_u64. rewrite Hr', Hbase, u64_small by (unfold is_u64; lia). cbv zeta.
    pose proof (LocalMem.fetch_store (a - Storage.baseAddr m) (Storage.encode_le 8 v) m) as F.
    rewrite Hl in F. specialize (F ltac:(lia) ltac:(lia)). unfold LocalMem.fetch in F. fold m' in F.
    change (Z.to_nat (Z.of_nat 8)) with 8%nat in F. rewrite F. f_equal. apply decode_encode. unfold is_u64 in Hv. lia.
  - intros o n Ho Hn Hd. by apply fetch_beside.
Qed.

(** A word read from a storage of bytes is a 64-bit value. *)
Lemma read_u64_range a m v : Forall is_u8 (Storage.bytes m) -> Storage.read_u64 a m = Some v -> is_u64 v.
Proof.
  intros Hm. unfold Storage.read_u64. destruct (Storage.out_of_range a m); [discriminate|]. cbv zeta. intros [= <-].
  set (l := take 8 _). assert (Forall is_u8 l) as Hl by (by apply Forall_take, Forall_drop).
  pose proof (decode_range l Hl) as Hd. assert (List.length l <= 8)%nat as Hlen by (unfold l; rewrite length_take; lia).
  assert (2 ^ (8 * Z.of_nat (List.length l)) <= 2 ^ 64) by (apply Z.pow_le_mono_r; lia). unfold is_u64. lia.
Qed.

Section Roundtrip.
Variables cA cB : Remote.Config.
Variable coreTime : Z -> Z.
Variable link : Z -> bool.
Variable order : gmap Z PendingDmaOp -> list Z.
Hypothesis Hlink : forall n, link n = true.

(** What is sent when nothing is queued. *)
Lemma send_now c req d :
  send_retry_queue d = [] -> readKey req = None ->
  try_send_or_queue c link req d = Some ([NetSend req], d <| send_attempts := send_attempts d + 1 |>).
Proof.
  intros Hq Hk. unfold try_send_or_queue, try_send, flush_send_retry_queue, link_send. rewrite Hq.
  cbn [List.length flush_loop]. rewrite Hq, Hlink. cbn [snd app]. unfold mark_dma_read_sent. by rewrite Hk.
Qed.

(** The range is in the window. *)
Definition inside (a n : Z) (m : Storage.t) : Prop :=
  mapped m /\ 0 <= n /\ Storage.baseAddr m <= a /\ a + n <= Storage.baseAddr m + Storage.size m.

Lemma inside_window a n m : inside a n (LocalMem.storage m) -> LocalMem.in_window a n m = true.
Proof.
  intros ([Hb Hz] & Hn & H1 & H2). unfold LocalMem.in_window, LocalMem.base, LocalMem.size.
  rewrite !u64_small by (unfold is_u64; lia). apply andb_true_iff. split; by apply Z.leb_le.
Qed.
Lemma inside_check a n d : inside a n (storage d) -> check_range a n d = Some ([], d).
Proof.
  intros I. pose proof (inside_window _ _ _ I) as H. unfold check_range, window_end.
  unfold LocalMem.in_window in H. by rewrite H.
Qed.

(** The serving side. *)
Lemma serve_read c now from ev d :
  type ev = READ -> inside (addr ev) (length ev) (storage d) -> send_retry_queue d = [] ->
  exists bytes reply d', LocalMem.rd_from_globalmem (addr ev) (length ev) (lm d) = Some bytes /\
    Z.of_nat (List.length bytes) = length ev /\
    receive c coreTime link order now from ev d = Some ([NetSend reply], d') /\ lm d' = lm d /\
    src reply = network_id c /\ dest reply = (if 0 <=? returnEndpoint ev then returnEndpoint ev else from) /\
    payload reply = mkEvent WRITE (returnAddr ev) (length ev) bytes (returnAddr ev) (returnEndpoint ev)
      (completionFlagAddr ev) (completionValue ev) (requestId ev) Unknown no_consumer (ownerGenerationToken ev).
Proof.
  intros Ht I Hq. unfold receive, receive_read, andThen. rewrite Ht, (inside_check _ _ _ I).
  unfold LocalMem.rd_from_globalmem. rewrite (inside_window _ _ _ I). rewrite send_now by done.
  eexists _, _, _. split; [done|]. split; [|split; [done|by split_and!]].
  destruct I as ([Hb Hz] & Hn & H1 & H2). unfold LocalMem.fetch, LocalMem.base, Storage.size, storage in *.
  rewrite length_take, length_drop, u64_small by (unfold is_u64; lia). lia.
Qed.

(** The words of read slot 0 at the end of the window. *)
Definition seq_word (d : Dma.t) : Z := window_end d - READ0_SEQ_OFFSET.
Definition flag_word (d : Dma.t) : Z := window_end d - READ0_FLAG_OFFSET.

(** Room for the data and, behind it, for the flags. *)
Definition buffer (a n : Z) (d : Dma.t) : Prop :=
  mapped (storage d) /\ 0 <= n /\ LocalMem.base (lm d) <= a /\ a + n <= window_end d - DMA_FLAG_REGION_SIZE.

Lemma buffer_inside a n d : buffer a n d -> inside a n (storage d).
Proof.
  unfold buffer, inside, window_end, LocalMem.base, LocalMem.size, storage.
  intros (M & Hn & Ha & Hr). split_and!; try done. lia.
Qed.

Lemma expect_reply_eq n ret d :
  buffer ret n d -> exists v, Storage.read_u64 (seq_word d) (storage d) = Some v /\
    Remote.expect_reply n ret d =
      Some ([], d <| read_pending := <[ret := mkReply (flag_word d) v]> (read_pending d) |>).
Proof.
  intros B. pose proof (inside_window _ _ _ (buffer_inside _ _ _ B)) as H.
  destruct B as ([Hb Hz] & Hn & Ha & Hr). unfold LocalMem.in_window in H.
  unfold Remote.expect_reply, window_end in *. rewrite H.
  unfold get_dma_flag_addrs, seq_word, flag_word, window_end, LocalMem.base, LocalMem.size, storage in *.
  rewrite (proj2 (Z.ltb_ge _ _)) by lia. rewrite Z.eqb_refl. rewrite !u64_small by (unfold is_u64; lia).
  unfold Storage.read_u64, Storage.out_of_range.
  rewrite (proj2 (orb_false_iff _ _)); [by eexists|]. rewrite !u64_small by (unfold is_u64; lia).
  split; apply Z.ltb_ge; lia.
Qed.

(** The asking side. *)
Lemma ask_read rd n ret eB sA :
  rd < Remote.identityWindowBase cA -> Endpoints.network_id (Remote.endpoints sA) <> -1 ->
  Endpoints.resolveEndpointForAddress (Remote.ends cA) rd (Remote.endpoints sA) = Some (eB, Remote.endpoints sA) ->
  eB <> Endpoints.network_id (Remote.endpoints sA) ->
  buffer ret n (Remote.dma sA) -> send_retry_queue (Remote.dma sA) = [] ->
  exists v req sA', Storage.read_u64 (seq_word (Remote.dma sA)) (storage (Remote.dma sA)) = Some v /\
    Remote.rd_to_network cA link order rd n ret sA = Some ([NetSend req], sA') /\
    src req = Endpoints.network_id (Remote.endpoints sA) /\ dest req = eB /\
    payload req = mkEvent READ rd n [] ret (-1) 0 0 0 Unknown no_consumer 0 /\
    lm (Remote.dma sA') = lm (Remote.dma sA) /\ request_pending (Remote.dma sA') = request_pending (Remote.dma sA) /\
    read_pending (Remote.dma sA') !! ret = Some (mkReply (flag_word (Remote.dma sA)) v).
Proof.
  intros Hi Hid Hr Hne B Hq. destruct (expect_reply_eq n ret _ B) as (v & Hv & E). exists v.
  unfold Remote.rd_to_network, Endpoints.ensure_network_id. rewrite (proj2 (Z.eqb_neq _ _) Hid).
  rewrite (proj2 (Z.leb_gt _ _) Hi). cbv zeta.
  change (Remote.endpoints (sA <| Remote.endpoints := Remote.endpoints sA |>)) with (Remote.endpoints sA).
  rewrite Hr, (proj2 (Z.eqb_neq _ _) Hne).
  unfold Remote.lift, andThen.
  change (Remote.expect_reply n ret (Remote.dma _)) with (Remote.expect_reply n ret (Remote.dma sA)).
  rewrite E, send_now by done.
  eexists _, _. split; [done|]. split; [done|]. split_and!; try done. apply lookup_insert_eq.
Qed.

(** The reply. *)
Lemma take_reply c now from ret n bytes v d :
  buffer ret n d -> Z.of_nat (List.length bytes) = n -> is_u64 v ->
  request_pending d !! 0 = None -> read_pending d !! ret = Some (mkReply (flag_word d) v) ->
  exists d', receive c coreTime link order now from
      (mkEvent WRITE ret n bytes ret (-1) 0 0 0 Unknown no_consumer 0) d = Some ([], d') /\
    LocalMem.rd_from_globalmem ret n (lm d') = Some bytes /\
    Storage.read_u64 (flag_word d) (storage d') = Some v /\ read_pending d' !! ret = None.
Proof.
  intros B Hl Hv Hreq Hp. pose proof (buffer_inside _ _ _ B) as I.
  unfold receive, receive_write, andThen. cbn [type requestId addr length data]. rewrite Hreq, (inside_check _ _ _ I), Hp.
  unfold wr_to_globalmem, LocalMem.wr_to_globalmem. rewrite (inside_window _ _ _ I), Hl, Z.eqb_refl. cbn [andb rp_flag_addr rp_value].
  destruct B as ([Hb Hz] & Hn & Ha & Hr).
  set (m := LocalMem.store (ret ⊟ LocalMem.base (lm d)) bytes (LocalMem.storage (lm d))).
  assert (Storage.size m = Storage.size (storage d)) as Hsize by (unfold Storage.size; f_equal; apply length_inserts).
  assert (Storage.baseAddr m = Storage.baseAddr (storage d)) as Hbase by done.
  unfold window_end, LocalMem.base, LocalMem.size, flag_word in *.
  fold (storage d) in *.
  destruct (write_read_u64 (Storage.baseAddr (storage d) + Storage.size (storage d) - 56) v m)
    as (m' & Hw & Hrd & Hb' & Hs' & Hf); [split; rewrite ?Hbase, ?Hsize; done|rewrite Hbase; lia|rewrite Hbase, Hsize; lia|done|].
  unfold write_u64_to_storage.
  change (storage (d <| lm := (lm d) <| LocalMem.storage := m |> |>)) with m.
  change (Storage.write_u64 _ v m) with
    (Storage.write_u64 (Storage.baseAddr (storage d) + Storage.size (storage d) - 56) v m). rewrite Hw. cbn [modify].
  set (d' := (set_storage m' _) <| read_pending := _ |>). exists d'. split; [done|]. split; [|split; [exact Hrd|apply lookup_delete_eq]].
  assert (inside ret n m') as I' by (unfold inside, mapped; rewrite Hb', Hs', Hbase, Hsize; exact I).
  unfold LocalMem.rd_from_globalmem. rewrite (inside_window ret n (lm d') I'). f_equal.
  change (LocalMem.storage (lm d')) with m'. change (LocalMem.base (lm d')) with (Storage.baseAddr m').
  rewrite Hb', Hbase, u64_small by (unfold is_u64; lia). rewrite Hf by lia. unfold m.
  change (LocalMem.base (lm d)) with (Storage.baseAddr (storage d)). rewrite u64_small by (unfold is_u64; lia).
  rewrite <- Hl. apply LocalMem.fetch_store; [lia|]. change (LocalMem.storage (lm d)) with (storage d). lia.
Qed.

(** C26. A remote read returns the other core's bytes.  If the address lies in the window of core
    [b], whose endpoint is known, and the return buffer in the reader's own window below the flag words, then
    the request goes to core [b]'s endpoint, core [b] answers to the reader without changing its own
    memory, and on receipt of the answer the buffer holds exactly the bytes of the other window, the flag of
    read slot 0 holds the sequence word that was set when the read was made, and the read is no longer
    pending. *)
Theorem remote_read_roundtrip rd n ret b sA sB nowA nowB :
  rd < Remote.identityWindowBase cA ->
  Endpoints.network_id (Remote.endpoints sA) = network_id (Remote.engine cA) ->
  Endpoints.coreEndpointMap (Remote.endpoints sA) !! b = Some (network_id (Remote.engine cB)) ->
  NoDup [-1; network_id (Remote.engine cA); network_id (Remote.engine cB)] ->
  0 <= b < 2 ^ 31 -> 0 <= Endpoints.globalBase (Remote.ends cA) -> 0 < n ->
  LocalMem.base (lm sB) = Endpoints.globalBase (Remote.ends cA) + b * Endpoints.windowSize (Remote.ends cA) ->
  LocalMem.size (lm sB) = Endpoints.windowSize (Remote.ends cA) -> inside rd n (storage sB) ->
  buffer ret n (Remote.dma sA) -> Forall is_u8 (Storage.bytes (storage (Remote.dma sA))) ->
  send_retry_queue (Remote.dma sA) = [] -> send_retry_queue sB = [] -> request_pending (Remote.dma sA) !! 0 = None ->
  exists v bytes req reply sA1 sB' dA,
    Storage.read_u64 (seq_word (Remote.dma sA)) (storage (Remote.dma sA)) = Some v /\
    LocalMem.rd_from_globalmem rd n (lm sB) = Some bytes /\
    Remote.rd_to_network cA link order rd n ret sA = Some ([NetSend req], sA1) /\
    dest req = network_id (Remote.engine cB) /\
    receive (Remote.engine cB) coreTime link order nowB (src req) (payload req) sB = Some ([NetSend reply], sB') /\
    dest reply = network_id (Remote.engine cA) /\ lm sB' = lm sB /\
    receive (Remote.engine cA) coreTime link order nowA (src reply) (payload reply) (Remote.dma sA1) = Some ([], dA) /\
    LocalMem.rd_from_globalmem ret n (lm dA) = Some bytes /\
    Storage.read_u64 (flag_word (Remote.dma sA)) (storage dA) = Some v /\ read_pending dA !! ret = None.
Proof.
  intros Hi Hid Hmap Hnd Hb Hg Hn Hbase Hsize I B Hu8 HqA HqB Hreq.
  apply NoDup_cons in Hnd as [Hm1 Hnd]. apply not_elem_of_cons in Hm1 as [HneA Hm1].
  apply not_elem_of_cons in Hm1 as [HneB _]. apply NoDup_cons in Hnd as [HAB%not_elem_of_cons _].
  destruct HAB as [HAB _].
  assert (Endpoints.resolveEndpointForAddress (Remote.ends cA) rd (Remote.endpoints sA) =
    Some (network_id (Remote.engine cB), Remote.endpoints sA)) as Hres.
  { destruct I as ([M1 M2] & _ & I1 & I2). unfold LocalMem.base, LocalMem.size, storage in *.
    apply (resolve_known _ _ b); try done; [by rewrite Hid| | |]; lia. }
  destruct (ask_read rd n ret _ sA Hi ltac:(by rewrite Hid) Hres ltac:(by rewrite Hid) B HqA)
    as (v & req & sA1 & Hv & E1 & Hsrc & Hdst & Hpay & Hlm & Hrp & Hread).
  destruct (serve_read (Remote.engine cB) nowB (src req) (mkEvent READ rd n [] ret (-1) 0 0 0 Unknown no_consumer 0) sB
    eq_refl I HqB) as (bytes & reply & sB' & Hbytes & Hlen & E2 & HlmB & HsrcB & HdstB & HpayB).
  destruct (take_reply (Remote.engine cA) nowA (src reply) ret n bytes v (Remote.dma sA1))
    as (dA & E3 & H1 & H2 & H3).
  - unfold buffer, window_end, storage in *. by rewrite Hlm.
  - exact Hlen.
  - by eapply read_u64_range.
  - by rewrite Hrp.
  - unfold flag_word, window_end in *. by rewrite Hlm.
  - exists v, bytes, req, reply, sA1, sB', dA. rewrite Hpay, HpayB. split_and!; try done.
    + rewrite HdstB. cbn. by rewrite Hsrc.
    + unfold flag_word, window_end in *. by rewrite <- Hlm.
Qed.

End Roundtrip.
(** *** A run: core 0 reads eight bytes of core 1 *)

Definition demo_remote (core : Z) : Remote.Config :=
  Remote.mkConfig (mkConfig core (core + 20) 4 1 1 2 0 1 2 (Routing.mk 0x100000 [9] ∅) (LocalMem.mkConfig 1 4 1 1 4 64 true))
    (Endpoints.mkConfig core 0x1000 128 (core + 20)) 0x4000000.
Definition demo_bytes : list Z := seqZ 0 128.
Definition demo_reader : Remote.t :=
  Remote.mk (init (LocalMem.init (Storage.mk 0x1000 demo_bytes)))
    (default Endpoints.init
       (Endpoints.registerEndpoint "system.core1.global_memory" 21 (Endpoints.setup (Remote.ends (demo_remote 0)) Endpoints.init))).
Definition demo_server : Dma.t := init (LocalMem.init (Storage.mk 0x1080 demo_bytes)).

Lemma demo_bytes_u8 : Forall is_u8 demo_bytes.
Proof. apply Forall_seqZ. unfold is_u8. lia. Qed.

Lemma remote_read_roundtrip_witness :
  exists req reply sA1 sB' dA,
    Remote.rd_to_network (demo_remote 0) (fun _ => true) (fun _ => []) 0x1090 8 0x1010 demo_reader = Some ([NetSend req], sA1) /\
    dest req = 21 /\
    receive (Remote.engine (demo_remote 1)) id (fun _ => true) (fun _ => []) 5 (src req) (payload req) demo_server =
      Some ([NetSend reply], sB') /\ dest reply = 20 /\
    receive (Remote.engine (demo_remote 0)) id (fun _ => true) (fun _ => []) 9 (src reply) (payload reply) (Remote.dma sA1) =
      Some ([], dA) /\
    LocalMem.rd_from_globalmem 0x1010 8 (lm dA) = Some [16; 17; 18; 19; 20; 21; 22; 23].
Proof.
  destruct (remote_read_roundtrip (demo_remote 0) (demo_remote 1) id (fun _ => true) (fun _ => []) ltac:(done)
    0x1090 8 0x1010 1 demo_reader demo_server 9 5) as (v & bytes & req & reply & sA1 & sB' & dA & _ & Hb & H1 & H2 & H3 & H4 & _ & H5 & H6 & _).
  - done.
  - by vm_compute.
  - by vm_compute.
  - apply (bool_decide_unpack _). by vm_compute.
  - done.
  - done.
  - done.
  - by vm_compute.
  - by vm_compute.
  - by vm_compute.
  - by vm_compute.
  - exact demo_bytes_u8.
  - done.
  - done.
  - by vm_compute.
  - exists req, reply, sA1, sB', dA. split_and!; try done. rewrite H6, <- Hb. by vm_compute.
Defined.

End RemoteFacts.
