(* ===== verification/Effects.v ===== *)
(** * Computations with effects

    The handlers of the request scheduler and of the memory nodes are written as
    computations on a state, with a log of what is sent on the way and [None] for
    a fatal exit.  Here are the combinators and the rules of their weakest
    preconditions. *)

From S2P Require Import Prelude.

Definition M (T O A : Type) : Type := T -> option (A * (list O * T)).

Section Computations.
Context {T O : Type}.

Definition ret {A} (a : A) : M T O A := fun s => Some (a, ([], s)).
Definition fatal {A} : M T O A := fun _ => None.
Definition bind {A B} (m : M T O A) (f : A -> M T O B) : M T O B := fun s =>
  match m s with
  | None => None
  | Some (a, (o, s1)) =>
      match f a s1 with None => None | Some (b, (o', s2)) => Some (b, (o ++ o', s2)) end
  end.
Definition update (f : T -> T) : M T O unit := fun s => Some (tt, ([], f s)).
Definition send (m : O) : M T O unit := fun s => Some (tt, ([m], s)).
End Computations.

Declare Scope sched_scope.
Delimit Scope sched_scope with sched.
Notation "'let!' x := m 'in' k" := (bind m (fun x => k)) (at level 10, x name, m at level 100, k at level 200) : sched_scope.
Notation "m ;; k" := (bind m (fun _ => k)) (at level 100, right associativity) : sched_scope.

(** [wp F m Q log s]: run from [s] after the messages [log], [m] ends in [Q]; a
    fatal exit needs [F]. *)
Section Weakest.
Context {T O : Type}.
Variable F : Prop.
Definition wp {A} (m : M T O A) (Q : A -> list O -> T -> Prop) (log : list O) (s : T) : Prop :=
  match m s with None => F | Some (a, (o, s')) => Q a (log ++ o) s' end.

Lemma wp_ret {A} (a : A) (Q : A -> list O -> T -> Prop) log s : Q a log s -> wp (ret a) Q log s.
Proof. unfold wp, ret. by rewrite app_nil_r. Qed.
Lemma wp_update f (Q : unit -> list O -> T -> Prop) log s : Q tt log (f s) -> wp (update f) Q log s.
Proof. unfold wp, update. by rewrite app_nil_r. Qed.
Lemma wp_send m (Q : unit -> list O -> T -> Prop) log s : Q tt (log ++ [m]) s -> wp (send m) Q log s.
Proof. done. Qed.
Lemma wp_bind {A B} (m : M T O A) (f : A -> M T O B) Q log s :
  wp m (fun a log s => wp (f a) Q log s) log s -> wp (bind m f) Q log s.
Proof.
  unfold wp, bind. destruct (m s) as [[a [o s1]]|]; [|done]. destruct (f a s1) as [[b [o' s2]]|]; [|done].
  by rewrite app_assoc.
Qed.
Lemma wp_mono {A} (m : M T O A) (P Q : A -> list O -> T -> Prop) log s :
  wp m P log s -> (forall a log' s', P a log' s' -> Q a log' s') -> wp m Q log s.
Proof. unfold wp. intros H HQ. destruct (m s) as [[a [o s']]|]; [by apply HQ|done]. Qed.
End Weakest.

(** A computation that looks at the state first: [wp_state] exposes its body,
    [wp_fold] goes on with the computation the body has come to. *)
Definition wp_of {T O A} F (Q : A -> list O -> T -> Prop) log s (m : M T O A) : Prop := wp F m Q log s.
Ltac wp_state := lazymatch goal with |- wp ?F _ ?Q ?log ?s =>
  let post := fresh "post" in pose (post := wp_of F Q log s); unfold wp end.
Ltac wp_fold := lazymatch goal with post := wp_of ?F ?Q ?log ?s |- match ?m ?s with _ => _ end =>
  change (wp F m Q log s); clear post end.
