(* ===== verification/Sfu.v ===== *)
(** * The row engine of the special function unit

    Models the row engine of golem/sfu/sfu.{h,cc}: attention tiles and row bands,
    whose rows pass the stages MAX, EXP/SUM and NORMALIZE in a few contexts that
    share arithmetic pipelines; the score and weight FIFOs with their ports; the
    online state of rows that spans tiles.  The arithmetic is that of [Softmax].

    A function of the code that looks up its worker again does so here.  Callbacks
    of the client and of the memory are effects, and what they call is a separate
    step.  The memory accepts an access by its tag, which is new for every try
    ([accepts]).  Using a worker after it is gone, and [std::map::at] without
    entry, are [fatal].  Memory and self link are bound before the first call.
    Statistics, high-water marks and log output are left out. *)

From S2P Require Import Prelude Telemetry Float32 Cluster ScoreFifo Effects Softmax.
#[local] Open Scope Z_scope.
#[local] Open Scope mach_scope.

(** ** Pipelines *)

Module Pipeline.
Record t := mk {
  latency : Z;
  initiationInterval : Z;
  queueDepth : Z;
  nextIssueCycle : Z;
  completionCycles : list Z
}.
#[export] Instance eta_t : Eta t := fun s =>
  mk (latency s) (initiationInterval s) (queueDepth s) (nextIssueCycle s) (completionCycles s).

Definition configure (l ii depth : Z) : t := mk (Z.max 1 l) (Z.max 1 ii) (Z.max 1 depth) 0 [].

Fixpoint retired (now : Z) (l : list Z) : list Z :=
  match l with [] => [] | x :: l' => if x <=? now then retired now l' else l end.
Definition retire (now : Z) (s : t) : t := s <| completionCycles := retired now (completionCycles s) |>.
Definition occupancy (s : t) : Z := Z.of_nat (length (completionCycles s)).

Definition reserve (now : Z) (s : t) : option Z * t :=
  let s := retire now s in
  if queueDepth s <=? occupancy s then (None, s)
  else
    let issue := Z.max now (nextIssueCycle s) in
    let completion := issue ⊞ latency s in
    (Some completion,
     s <| nextIssueCycle := issue ⊞ initiationInterval s |> <| completionCycles := completionCycles s ++ [completion] |>).

Definition retryDelay (now : Z) (s : t) : Z * t :=
  let s := retire now s in
  (if occupancy s <? queueDepth s then 1 else Z.max 1 (default 0 (head (completionCycles s)) ⊟ now ⊞ 1), s).
End Pipeline.

Module Sfu.

(** ** Data *)

Record Config := mkConfig {
  coreId_ : Z;
  rowEngineAcceleratorClockHz_ : Z;
  rowEngineTimebaseTicksPerSecond_ : Z;
  rowEngineVectorLanes_ : Z;
  rowEngineExpLanes_ : Z;
  rowEngineContexts_ : Z;
  rowEngineScratchpadBytes_ : Z;
  tileStreamEnable_ : bool;
  tileStreamBytesPerCycle_ : Z;
  tileStreamBaseLatencyCycles_ : Z;
  rowDispatchIntervalCycles_ : Z;
  attentionClusterEnable_ : bool;
  attentionScoreFifoBytesPerCycle_ : Z;
  attentionScoreFifoLatencyCycles_ : Z;
  attentionScoreFifoQueueDepth_ : Z;
  baseAddr : Z;
  memSize : Z
}.

Inductive Stage := Max | ExpSum | Normalize.
Inductive Kind :=
| ResourceDone | ScaleDone | MaxCompareDone | MaxReductionDone | SumReductionDone
| OnlineMaxDone | OnlineExpDone | OnlineMulDone | OnlineAddDone | ReciprocalDone
| HardwareRetry | LocalReadRetry | LocalWriteRetry
| TileStreamReadRetry | TileStreamReadDone | TileStreamWriteRetry | TileStreamWriteDone
| RowDispatch | AttentionStart | DirectReadDone | DirectWriteDone | ScoreFifoWriteDone | PFifoReadDone.
Inductive Pipe :=
| PScale | PMaxCompare | PMaxReduction | PExp | PSumReduction | POnlineMax | POnlineExp | POnlineMul | POnlineAdd
| PReciprocal | PNormalize.
#[export] Instance Stage_eq_dec : EqDecision Stage.
Proof. solve_decision. Defined.
#[export] Instance Kind_eq_dec : EqDecision Kind.
Proof. solve_decision. Defined.
#[export] Instance Pipe_eq_dec : EqDecision Pipe.
Proof. solve_decision. Defined.

(** Generation, tag and first row. *)
Abbreviation Key := (Z * Z * Z)%type.
Record Event := mkEvent {
  e_key : Key;
  e_context : Z;
  e_stage : Stage;
  e_kind : Kind;
  e_localTag : Z
}.

(** Fields of [ControlTransportMessage] that the row engine uses. *)
Record Dispatch := mkDispatch {
  d_jobId : Z;
  d_tag : Z;
  ownerCore : Z;
  workerSlot : Z;
  workerCore : Z;
  d_row : Z;
  expectedWorkers : Z;
  expectedRows : Z;
  expectedCols : Z;
  value : double;
  inputAddr : Z;
  outputAddr : Z;
  nodeStrideBytes : Z;
  dataNodeMask : Z;
  rowsPerBand : Z
}.
#[export] Instance eta_dispatch : Eta Dispatch := fun d =>
  mkDispatch (d_jobId d) (d_tag d) (ownerCore d) (workerSlot d) (workerCore d) (d_row d) (expectedWorkers d) (expectedRows d)
    (expectedCols d) (value d) (inputAddr d) (outputAddr d) (nodeStrideBytes d) (dataNodeMask d) (rowsPerBand d).

Record Context := mkContext {
  x_row : Z;
  x_scratchAddr : Z;
  busy : bool;
  stage : Stage;
  chunkBegin : Z;
  pendingLocalTag : Z;
  rowMax : float;
  rowSum : double;
  invSum : float;
  oldOutputScale : float;
  tileWeightScale : float;
  pendingAlpha : double;
  pendingBeta : double;
  pendingMNew : double;
  pendingOldTerm : double;
  pendingTileTerm : double;
  pendingLNew : double;
  pendingHardwareCompletionKind : Kind;
  laneValues : list float;
  residentValues : list float
}.
#[export] Instance eta_context : Eta Context := fun x =>
  mkContext (x_row x) (x_scratchAddr x) (busy x) (stage x) (chunkBegin x) (pendingLocalTag x) (rowMax x) (rowSum x) (invSum x)
    (oldOutputScale x) (tileWeightScale x) (pendingAlpha x) (pendingBeta x) (pendingMNew x) (pendingOldTerm x) (pendingTileTerm x)
    (pendingLNew x) (pendingHardwareCompletionKind x) (laneValues x) (residentValues x).
Definition no_context : Context :=
  mkContext 0 0 false Max 0 0 float_zero double_zero float_zero float_zero float_one double_one double_one (S754_infinity true)
    double_zero double_zero double_zero ResourceDone [] [].

Record AttentionTileResult := mkResult { res_rows : Z; oldOutputScales : list float }.

Record Worker := mkWorker {
  dispatch : Dispatch;
  scratchAddr : Z;
  nextRow : Z;
  rowsCompleted : Z;
  localTileMode : bool;
  attentionJobId : Z;
  attentionKvTileIndex : Z;
  attentionNumKvTiles : Z;
  attentionKeyBegin : Z;
  directScoreMode : bool;
  w_generation : Z;
  scoreSlot : Z;
  scoreTag : AttentionClusterTag;
  directPMode : bool;
  pSlot : Z;
  pTag : AttentionClusterTag;
  tileStreamActive : bool;
  pendingTileStreamTag : Z;
  tileStreamReadyCycle : Z;
  tileScoreValues : list float;
  tilePValues : list float;
  attentionResult : AttentionTileResult;
  contexts : list Context
}.
#[export] Instance eta_worker : Eta Worker := fun w =>
  mkWorker (dispatch w) (scratchAddr w) (nextRow w) (rowsCompleted w) (localTileMode w) (attentionJobId w) (attentionKvTileIndex w)
    (attentionNumKvTiles w) (attentionKeyBegin w) (directScoreMode w) (w_generation w) (scoreSlot w) (scoreTag w) (directPMode w)
    (pSlot w) (pTag w) (tileStreamActive w) (pendingTileStreamTag w) (tileStreamReadyCycle w) (tileScoreValues w) (tilePValues w)
    (attentionResult w) (contexts w).

(** [AttentionOnlineRowContext]. *)
Record OnlineRow := mkOnlineRow { o_valid : bool; o_jobId : Z; o_globalRow : Z; o_state : Online double }.

Record PendingWrite := mkPendingWrite { pw_generation : Z; pw_slot : Z; pw_tag : AttentionClusterTag; pw_offset : Z; pw_values : list float; pw_transferTag : Z }.
Record PendingRead := mkPendingRead { pr_generation : Z; pr_slot : Z; pr_tag : AttentionClusterTag; pr_offset : Z; pr_count : Z; pr_transferTag : Z }.

Record t := mk {
  tensorWorkerOps_ : gmap Key Worker;
  attentionOnlineContexts_ : gmap (Z * Z) OnlineRow;
  attentionScoreFifo_ : list ScoreFifo.Slot;
  attentionScoreFifoNextReadCycle_ : Z;
  attentionScoreFifoNextWriteCycle_ : Z;
  nextAttentionScoreWriteId_ : Z;
  pendingAttentionScoreWrites_ : gmap Z PendingWrite;
  attentionPFifo_ : list ScoreFifo.Slot;
  attentionPFifoNextReadCycle_ : Z;
  attentionPFifoNextWriteCycle_ : Z;
  nextAttentionPReadId_ : Z;
  pendingAttentionPReads_ : gmap Z PendingRead;
  attentionClusterSfuActivity_ : BusyActivityTracker.t;
  pipelines : Pipe -> Pipeline.t;
  nextTensorLocalTag_ : Z
}.
#[export] Instance eta_t : Eta t := fun s =>
  mk (tensorWorkerOps_ s) (attentionOnlineContexts_ s) (attentionScoreFifo_ s) (attentionScoreFifoNextReadCycle_ s)
    (attentionScoreFifoNextWriteCycle_ s) (nextAttentionScoreWriteId_ s) (pendingAttentionScoreWrites_ s) (attentionPFifo_ s)
    (attentionPFifoNextReadCycle_ s) (attentionPFifoNextWriteCycle_ s) (nextAttentionPReadId_ s) (pendingAttentionPReads_ s)
    (attentionClusterSfuActivity_ s) (pipelines s) (nextTensorLocalTag_ s).

Record AttentionTileRequest := mkRequest {
  rq_tag : Z;
  rq_jobId : Z;
  localScoreAddr : Z;
  globalRowBegin : Z;
  keyBegin : Z;
  rq_rows : Z;
  rq_cols : Z;
  headDim : Z;
  rq_kvTileIndex : Z;
  numKvTiles : Z;
  rq_causal : bool;
  rq_directScoreMode : bool;
  rq_generation : Z;
  rq_scoreSlot : Z;
  rq_scoreTag : AttentionClusterTag;
  rq_directPMode : bool;
  rq_pSlot : Z;
  rq_pTag : AttentionClusterTag
}.
Inductive AttentionClusterAdmission := Ready | Retry | Invalid.
#[export] Instance Admission_eq_dec : EqDecision AttentionClusterAdmission.
Proof. solve_decision. Defined.

(** An access names the worker and, for a row, the context it is for. *)
Inductive effect :=
| Self (delay : Z) (e : Event)
| LocalRead (addr bytes tag : Z) (key : Key) (context : option Z)
| LocalWrite (addr : Z) (data : list Z) (tag : Z) (key : Key) (context : option Z)
| DmaRead (hostAddr bytes localAddr : Z) (key : Key) (context : Z)
| DmaWrite (localAddr hostAddr bytes : Z) (key : Key) (context : Z)
| Returned (accepted : bool)
| TileDone (key : Key) (ok : bool) (result : AttentionTileResult)
| ScoreWritten (ok : bool) (transferTag : Z)
| PRead (ok : bool) (transferTag : Z) (values : list float)
| Completion (owner : Z) (d : Dispatch).

#[local] Open Scope sched_scope.

Section Engine.
Variable c : Config.
Variable exp32 exp64 : float -> float.
Variable accepts : Z -> bool.
#[local] Instance numbers : Arith float double := machine exp32 exp64.

Abbreviation M := (Effects.M t effect).

Definition ceilDiv (v d : Z) : Z := (v ⊞ d ⊟ 1) / d.
Definition ceilMulDiv (v m d : Z) : Z := u64 ((v * m + d - 1) / d).
Definition rowEngineCurrentCycle (now : Z) : Z := ceilMulDiv now (rowEngineAcceleratorClockHz_ c) (rowEngineTimebaseTicksPerSecond_ c).
Definition bytes (n : Z) : Z := u64 (n * 4).
Definition len {A} (l : list A) : Z := Z.of_nat (length l).
Definition slice {A} (begin n : Z) (l : list A) : list A := take (Z.to_nat n) (drop (Z.to_nat begin) l).
(** [std::copy] of [values] to [begin]. *)
Definition splice {A} (begin : Z) (values l : list A) : list A := list_inserts (Z.to_nat begin) values l.

(** ** Workers and contexts *)

Definition with_worker (key : Key) (f : Worker -> M unit) : M unit := fun s =>
  match tensorWorkerOps_ s !! key with None => ret tt s | Some w => f w s end.
Definition with_context (key : Key) (i : Z) (f : Worker -> Context -> M unit) : M unit :=
  with_worker key (fun w => match contexts w !! Z.to_nat i with None => ret tt | Some x => f w x end).
Definition put_worker (key : Key) (w : Worker) : M unit :=
  update (fun s => s <| tensorWorkerOps_ := <[key := w]> (tensorWorkerOps_ s) |>).
Definition put_context (key : Key) (w : Worker) (i : Z) (x : Context) : M unit :=
  put_worker key (w <| contexts := <[Z.to_nat i := x]> (contexts w) |>).
Definition new_tag : M Z := fun s =>
  (update (fun s => s <| nextTensorLocalTag_ := nextTensorLocalTag_ s ⊞ 1 |>) ;; ret (nextTensorLocalTag_ s)) s.
Definition event (key : Key) (i : Z) (x : Context) (kind : Kind) : Event := mkEvent key i (stage x) kind (pendingLocalTag x).
Definition row_index (w : Worker) (x : Context) : Z := x_row x ⊟₃₂ d_row (dispatch w).

(** The online rows of a job from [begin] on. *)
Definition of_rows (job begin rows : Z) (o : OnlineRow) : bool :=
  (o_jobId o =? job) && (begin <=? o_globalRow o) && (o_globalRow o - begin <? rows).
Definition erase_rows (job begin rows : Z) (s : t) : t :=
  s <| attentionOnlineContexts_ := filter (fun e => of_rows job begin rows (snd e) = false) (attentionOnlineContexts_ s) |>.

Definition leave_activity (now : Z) : M unit := fun s =>
  let '(ok, a) := BusyActivityTracker.leave now (attentionClusterSfuActivity_ s) in
  if ok then update (fun s => s <| attentionClusterSfuActivity_ := a |>) s else None.
Definition enter_activity (now : Z) : M unit := fun s =>
  let '(ok, a) := BusyActivityTracker.enter now (attentionClusterSfuActivity_ s) in
  if ok then update (fun s => s <| attentionClusterSfuActivity_ := a |>) s else None.

Definition final_tile (w : Worker) : bool := attentionKvTileIndex w ⊞₃₂ 1 =? attentionNumKvTiles w.

Definition finishTensorWorker (now : Z) (key : Key) (ok : bool) : M unit :=
  with_worker key (fun w =>
    (if attentionClusterEnable_ c && localTileMode w then leave_activity now else ret tt) ;;
    update (fun s => s <| tensorWorkerOps_ := delete key (tensorWorkerOps_ s) |>) ;;
    if localTileMode w then
      (if final_tile w then update (erase_rows (attentionJobId w) (d_row (dispatch w)) (expectedRows (dispatch w))) else ret tt) ;;
      send (TileDone key ok (attentionResult w))
    else let d := dispatch w in send (Completion (ownerCore d) (d <| value := if ok then double_one else double_zero |>))).

(** ** Pipelines *)

Definition tensorHardwarePipeline (st : Stage) (kind : Kind) : option Pipe :=
  match kind with
  | ScaleDone => Some PScale
  | MaxCompareDone => Some PMaxCompare
  | MaxReductionDone => Some PMaxReduction
  | SumReductionDone => Some PSumReduction
  | OnlineMaxDone => Some POnlineMax
  | OnlineExpDone => Some POnlineExp
  | OnlineMulDone => Some POnlineMul
  | OnlineAddDone => Some POnlineAdd
  | ReciprocalDone => Some PReciprocal
  | ResourceDone => match st with ExpSum => Some PExp | Normalize => Some PNormalize | Max => None end
  | _ => None
  end.

Definition set_pipeline (p : Pipe) (q : Pipeline.t) (s : t) : t :=
  s <| pipelines := fun p' => if decide (p' = p) then q else pipelines s p' |>.

(** The cycle at which an operation of the pipeline completes, or the delay after
    which to try again. *)
Definition reserve_pipeline (now : Z) (p : Pipe) : M (Z + Z) := fun s =>
  match Pipeline.reserve now (pipelines s p) with
  | (Some completion, q) => (update (set_pipeline p q) ;; ret (inl completion)) s
  | (None, q) => let '(delay, q) := Pipeline.retryDelay now q in (update (set_pipeline p q) ;; ret (inr delay)) s
  end.

Definition scheduleTensorHardwareOperation (now : Z) (key : Key) (i : Z) (kind : Kind) : M unit :=
  with_context key i (fun w x =>
    match tensorHardwarePipeline (stage x) kind, busy x with
    | Some p, true =>
        let cyc := rowEngineCurrentCycle now in
        put_context key w i (x <| pendingHardwareCompletionKind := kind |>) ;;
        let! r := reserve_pipeline cyc p in
        match r with
        | inr delay => send (Self delay (event key i x HardwareRetry))
        | inl completion => send (Self (Z.max 1 (completion ⊟ cyc)) (event key i x kind))
        end
    | _, _ => finishTensorWorker now key false
    end).

Definition scheduleTensorRowStage (now : Z) (key : Key) (i : Z) (st : Stage) : M unit := fun s =>
  match tensorWorkerOps_ s !! key with
  | None => finishTensorWorker now key false s
  | Some w =>
      match contexts w !! Z.to_nat i with
      | None => finishTensorWorker now key false s
      | Some x =>
          (if negb (busy x) || negb (bool_decide (stage x = st)) || (len (laneValues x) =? 0)
           then finishTensorWorker now key false
           else scheduleTensorHardwareOperation now key i (match st with Max => ScaleDone | _ => ResourceDone end)) s
      end
  end.

(** ** Ports of the FIFOs *)

(** Delay of a transfer and the port's next free cycle. *)
Definition port_delay (now n next : Z) : Z * Z :=
  let start := Z.max now next in
  let transfer := ceilDiv n (attentionScoreFifoBytesPerCycle_ c) in
  (Z.max 1 (start ⊟ now ⊞ attentionScoreFifoLatencyCycles_ c ⊞ transfer), start ⊞ transfer).
Definition scheduleScoreFifoPort (now n : Z) (wr : bool) : M Z := fun s =>
  let cyc := rowEngineCurrentCycle now in
  if wr then
    let '(d, next) := port_delay cyc n (attentionScoreFifoNextWriteCycle_ s) in
    (update (fun s => s <| attentionScoreFifoNextWriteCycle_ := next |>) ;; ret d) s
  else
    let '(d, next) := port_delay cyc n (attentionScoreFifoNextReadCycle_ s) in
    (update (fun s => s <| attentionScoreFifoNextReadCycle_ := next |>) ;; ret d) s.
Definition schedulePFifoPort (now n : Z) (wr : bool) : M Z := fun s =>
  let cyc := rowEngineCurrentCycle now in
  if wr then
    let '(d, next) := port_delay cyc n (attentionPFifoNextWriteCycle_ s) in
    (update (fun s => s <| attentionPFifoNextWriteCycle_ := next |>) ;; ret d) s
  else
    let '(d, next) := port_delay cyc n (attentionPFifoNextReadCycle_ s) in
    (update (fun s => s <| attentionPFifoNextReadCycle_ := next |>) ;; ret d) s.

(** ** Rows *)

Definition scheduleTensorLocalRetry (key : Key) (i : Z) (kind : Kind) : M unit :=
  with_context key i (fun _ x => send (Self 1 (event key i x kind))).

Definition lanes (st : Stage) : Z := match st with ExpSum => rowEngineExpLanes_ c | _ => rowEngineVectorLanes_ c end.
Definition chunk_elems (w : Worker) (x : Context) : Z := Z.min (lanes (stage x)) (expectedCols (dispatch w) ⊟₃₂ chunkBegin x).
Definition resident (w : Worker) (x : Context) : bool :=
  localTileMode w && (negb (directScoreMode w) || (len (residentValues x) =? expectedCols (dispatch w))).

Definition issueTensorLocalRead (now : Z) (key : Key) (i : Z) : M unit :=
  with_context key i (fun w x =>
    let n := chunk_elems w x in
    let! tg := new_tag in
    let x := x <| pendingLocalTag := tg |> in
    let st := stage x in
    put_context key w i x ;;
    if resident w x && (negb (bool_decide (st = Max)) || tileStreamActive w || directScoreMode w) then
      if negb (len (residentValues x) =? expectedCols (dispatch w)) then finishTensorWorker now key false
      else
        put_context key w i (x <| laneValues := slice (chunkBegin x) n (residentValues x) |>) ;;
        scheduleTensorRowStage now key i st
    else if directScoreMode w then
      let whole := bool_decide (st = Max) && (chunkBegin x =? 0) && (len (residentValues x) =? 0) in
      let begin := u64 (row_index w x * expectedCols (dispatch w) + (if whole then 0 else chunkBegin x)) in
      let count := if whole then expectedCols (dispatch w) else n in
      fun s =>
        (if negb (ScoreFifo.canRead (scoreSlot w) (scoreTag w) begin count (attentionScoreFifo_ s)) then finishTensorWorker now key false
         else
           let! d := scheduleScoreFifoPort now (bytes count) false in
           send (Self d (event key i x DirectReadDone))) s
    else if accepts tg then send (LocalRead (x_scratchAddr x ⊞ bytes (chunkBegin x)) (bytes n) tg key (Some i))
    else scheduleTensorLocalRetry key i LocalReadRetry).

Definition beginTensorRowStage (now : Z) (key : Key) (i : Z) (st : Stage) : M unit :=
  with_context key i (fun w x =>
    let cols := expectedCols (dispatch w) in
    let x := x <| stage := st |> <| chunkBegin := 0 |> <| laneValues := [] |> in
    match st with
    | Max =>
        let x := x <| rowMax := S754_infinity true |> in
        if localTileMode w then
          if tileStreamActive w then
            let begin := u64 (row_index w x * cols) in
            if len (tileScoreValues w) <? begin ⊞ cols then put_context key w i x ;; finishTensorWorker now key false
            else
              put_context key w i (x <| residentValues := slice begin cols (tileScoreValues w) |>) ;;
              issueTensorLocalRead now key i
          else
            put_context key w i (x <| residentValues := if directScoreMode w then [] else replicate (Z.to_nat cols) float_zero |>) ;;
            issueTensorLocalRead now key i
        else put_context key w i x ;; issueTensorLocalRead now key i
    | ExpSum =>
        put_context key w i (x <| rowSum := double_zero |> <| invSum := float_zero |>) ;;
        issueTensorLocalRead now key i
    | Normalize =>
        if negb (localTileMode w) && (SFeqb (rowSum x) double_zero || SFeqb (invSum x) float_zero)
        then put_context key w i x ;; finishTensorWorker now key false
        else
          put_context key w i (x <| invSum := if localTileMode w then tileWeightScale x else invSum x |>) ;;
          issueTensorLocalRead now key i
    end).

(** The online state of a row that starts its first tile. *)
Definition fresh_row (job row : Z) : OnlineRow := mkOnlineRow true job row fresh_online.
Definition start_row (job row : Z) : M unit :=
  update (fun s => s <| attentionOnlineContexts_ := <[(job, row) := fresh_row job row]> (attentionOnlineContexts_ s) |>).
Definition valid_row (job row : Z) (s : t) : bool :=
  match attentionOnlineContexts_ s !! (job, row) with Some o => o_valid o | None => false end.

(** Bits set in a mask of nodes, and the [n]-th of them. *)
Definition node_bits (mask : Z) : list Z := filter (fun b => Z.testbit mask b = true) (seqZ 0 32).
Definition tensorWorkerHostAddress (d : Dispatch) (row : Z) (out : bool) : Z :=
  let band := row / rowsPerBand d in
  let nodeCount := len (node_bits (dataNodeMask d)) in
  let selectedNode := default 0 (node_bits (dataNodeMask d) !! Z.to_nat (band mod nodeCount)) in
  let rowBytes := u64 (expectedCols d * 4) in
  (if out then outputAddr d else inputAddr d) ⊞ u64 (selectedNode * nodeStrideBytes d) ⊞
    u64 (u64 (band / nodeCount * rowsPerBand d + row mod rowsPerBand d) * rowBytes).

Definition band_end (w : Worker) : Z := d_row (dispatch w) ⊞₃₂ expectedRows (dispatch w).

Definition issueTensorInputDma (now : Z) (key : Key) (i : Z) : M unit :=
  with_context key i (fun w x =>
    if busy x || (band_end w <=? nextRow w) then ret tt
    else
      let row := nextRow w in
      let rowBytes := bytes (expectedCols (dispatch w)) in
      let w := w <| nextRow := row ⊞₃₂ 1 |> in
      let x := x <| busy := true |> <| x_row := row |> <| laneValues := [] |> in
      put_context key w i x ;;
      if localTileMode w then
        fun s =>
          (if negb (attentionKvTileIndex w =? 0) && negb (valid_row (attentionJobId w) row s) then finishTensorWorker now key false
           else
             (if attentionKvTileIndex w =? 0 then start_row (attentionJobId w) row else ret tt) ;;
             put_context key w i (x <| x_scratchAddr := scratchAddr w ⊞ u64 ((row ⊟₃₂ d_row (dispatch w)) * rowBytes) |>) ;;
             beginTensorRowStage now key i Max) s
      else send (DmaRead (tensorWorkerHostAddress (dispatch w) row false) rowBytes (x_scratchAddr x) key i)).

(** ** Tile streams *)

Definition scheduleAttentionTileStreamEvent (now : Z) (key : Key) (kind : Kind) (localTag readyCycle : Z) : M unit :=
  with_worker key (fun w =>
    let cyc := rowEngineCurrentCycle now in
    send (Self (Z.max 1 (if cyc <? readyCycle then readyCycle ⊟ cyc else 1)) (mkEvent key 0 Max kind localTag))).

(** Cycle at which a stream of [n] bytes is through. *)
Definition stream_ready (now n : Z) : Z :=
  rowEngineCurrentCycle now ⊞ tileStreamBaseLatencyCycles_ c ⊞ ceilDiv n (tileStreamBytesPerCycle_ c).

Definition issueAttentionTileStreamRead (now : Z) (key : Key) : M unit :=
  with_worker key (fun w =>
    let tileBytes := bytes (len (tileScoreValues w)) in
    if negb (tileStreamActive w) then ret tt
    else if tileBytes =? 0 then finishTensorWorker now key false
    else
      let! tg := new_tag in
      put_worker key (w <| pendingTileStreamTag := tg |> <| tileStreamReadyCycle := stream_ready now tileBytes |>) ;;
      if accepts tg then send (LocalRead (scratchAddr w) tileBytes tg key None)
      else scheduleAttentionTileStreamEvent now key TileStreamReadRetry tg (rowEngineCurrentCycle now ⊞ 1)).

Definition issueAttentionTileStreamWrite (now : Z) (key : Key) : M unit :=
  with_worker key (fun w =>
    let tileBytes := bytes (len (tilePValues w)) in
    if negb (tileStreamActive w) then ret tt
    else if tileBytes =? 0 then finishTensorWorker now key false
    else
      let! tg := new_tag in
      put_worker key (w <| pendingTileStreamTag := tg |> <| tileStreamReadyCycle := stream_ready now tileBytes |>) ;;
      if accepts tg then send (LocalWrite (scratchAddr w) (bytes_of_floats (tilePValues w)) tg key None)
      else scheduleAttentionTileStreamEvent now key TileStreamWriteRetry tg (rowEngineCurrentCycle now ⊞ 1)).

(** Answers of the memory to the two. *)
Definition tileStreamReadAnswer (now : Z) (key : Key) (tileBytes : Z) (ok : bool) (tg : Z) (raw : list Z) : M unit :=
  with_worker key (fun w =>
    if negb ok || negb (tg =? pendingTileStreamTag w) || negb (len raw =? tileBytes) || negb (bytes (len (tileScoreValues w)) =? tileBytes)
    then finishTensorWorker now key false
    else
      put_worker key (w <| tileScoreValues := floats_of_bytes raw |>) ;;
      scheduleAttentionTileStreamEvent now key TileStreamReadDone tg (tileStreamReadyCycle w)).
Definition tileStreamWriteAnswer (now : Z) (key : Key) (ok : bool) (tg : Z) : M unit :=
  with_worker key (fun w =>
    if negb ok || negb (tg =? pendingTileStreamTag w) then finishTensorWorker now key false
    else scheduleAttentionTileStreamEvent now key TileStreamWriteDone tg (tileStreamReadyCycle w)).

Fixpoint send_all (l : list effect) : M unit :=
  match l with [] => ret tt | e :: l => send e ;; send_all l end.

Definition scheduleAttentionRowDispatch (now : Z) (key : Key) : M unit := fun s =>
  match tensorWorkerOps_ s !! key with
  | None => finishTensorWorker now key false s
  | Some w =>
      (if negb (tileStreamActive w) || (len (contexts w) =? 0) then finishTensorWorker now key false
       else
         issueTensorInputDma now key 0 ;;
         with_worker key (fun _ =>
           send_all (map (fun index => Self (u64 (index * rowDispatchIntervalCycles_ c))
                                         (mkEvent key index Max RowDispatch (pendingTileStreamTag w)))
                         (seqZ 1 (len (contexts w) - 1))))) s
  end.

(** ** The end of a row *)

Definition completeTensorRow (now : Z) (key : Key) (i : Z) : M unit :=
  with_context key i (fun w x =>
    if localTileMode w then
      let index := row_index w x in
      let res := attentionResult w in
      if len (oldOutputScales res) <=? index then finishTensorWorker now key false
      else
        let w := w <| attentionResult := mkResult (res_rows res) (<[Z.to_nat index := oldOutputScale x]> (oldOutputScales res)) |>
                   <| rowsCompleted := rowsCompleted w ⊞₃₂ 1 |> in
        put_context key w i (x <| busy := false |> <| laneValues := [] |> <| residentValues := [] |>) ;;
        if rowsCompleted w =? expectedRows (dispatch w) then
          if tileStreamActive w then issueAttentionTileStreamWrite now key else finishTensorWorker now key true
        else issueTensorInputDma now key i
    else send (DmaWrite (x_scratchAddr x) (tensorWorkerHostAddress (dispatch w) (x_row x) true) (bytes (expectedCols (dispatch w))) key i)).

Definition advanceTensorRowChunk (now : Z) (key : Key) (i : Z) : M unit :=
  with_context key i (fun w x =>
    let x := x <| chunkBegin := u32 (chunkBegin x + len (laneValues x)) |> <| laneValues := [] |> in
    put_context key w i x ;;
    if chunkBegin x <? expectedCols (dispatch w) then issueTensorLocalRead now key i
    else
      match stage x with
      | Max => beginTensorRowStage now key i ExpSum
      | ExpSum => scheduleTensorHardwareOperation now key i (if localTileMode w then OnlineMaxDone else ReciprocalDone)
      | Normalize => completeTensorRow now key i
      end).

(** Commands of the FIFOs, with their result. *)
Definition on_fifo {A} (get : t -> list ScoreFifo.Slot) (put : list ScoreFifo.Slot -> t -> t)
    (f : list ScoreFifo.Slot -> A * list ScoreFifo.Slot) : M A := fun s =>
  let '(a, q) := f (get s) in (update (put q) ;; ret a) s.
Definition on_scores {A} : (list ScoreFifo.Slot -> A * list ScoreFifo.Slot) -> M A :=
  on_fifo attentionScoreFifo_ (fun q s => s <| attentionScoreFifo_ := q |>).
Definition on_weights {A} : (list ScoreFifo.Slot -> A * list ScoreFifo.Slot) -> M A :=
  on_fifo attentionPFifo_ (fun q s => s <| attentionPFifo_ := q |>).

Definition issueTensorLocalWrite (now : Z) (key : Key) (i : Z) : M unit :=
  with_context key i (fun w x =>
    let cols := expectedCols (dispatch w) in
    let normalize := bool_decide (stage x = Normalize) in
    let begin := u64 (row_index w x * cols + chunkBegin x) in
    if tileStreamActive w && normalize then
      if len (tilePValues w) <? begin ⊞ len (laneValues x) then finishTensorWorker now key false
      else
        put_worker key (w <| tilePValues := splice begin (laneValues x) (tilePValues w) |>) ;;
        advanceTensorRowChunk now key i
    else
      let! tg := new_tag in
      let x := x <| pendingLocalTag := tg |> in
      put_context key w i x ;;
      if directScoreMode w && negb normalize then fun s =>
        (if negb (ScoreFifo.canRead (scoreSlot w) (scoreTag w) begin (len (laneValues x)) (attentionScoreFifo_ s)) then finishTensorWorker now key false
         else
           let! d := scheduleScoreFifoPort now (bytes (len (laneValues x))) true in
           send (Self d (event key i x DirectWriteDone))) s
      else if directPMode w && normalize then
        if negb (len (residentValues x) =? cols) then finishTensorWorker now key false
        else
          put_context key w i (x <| residentValues := splice (chunkBegin x) (laneValues x) (residentValues x) |>) ;;
          if chunkBegin x ⊞ len (laneValues x) <? cols then advanceTensorRowChunk now key i
          else
            let! ok := on_weights (ScoreFifo.reserveWrite (pSlot w) (pTag w) (u64 (row_index w x * cols)) cols) in
            if negb ok then finishTensorWorker now key false
            else
              let! d := schedulePFifoPort now (bytes cols) true in
              send (Self d (event key i x DirectWriteDone))
      else if accepts tg then
        send (LocalWrite (x_scratchAddr x ⊞ bytes (chunkBegin x)) (bytes_of_floats (laneValues x)) tg key (Some i))
      else scheduleTensorLocalRetry key i LocalWriteRetry).

(** ** Answers of the memory for a row *)

Definition tensorLocalReadAnswer (now : Z) (key : Key) (i chunkBytes : Z) (ok : bool) (tg : Z) (raw : list Z) : M unit :=
  with_context key i (fun w x =>
    if negb ok || negb (tg =? pendingLocalTag x) || negb (len raw =? chunkBytes) then finishTensorWorker now key false
    else
      put_context key w i (x <| laneValues := floats_of_bytes raw |>) ;;
      scheduleTensorRowStage now key i (stage x)).
Definition tensorLocalWriteAnswer (now : Z) (key : Key) (i : Z) (ok : bool) (tg : Z) : M unit :=
  with_context key i (fun _ x =>
    if negb ok || negb (tg =? pendingLocalTag x) then finishTensorWorker now key false
    else advanceTensorRowChunk now key i).
Definition tensorInputDmaAnswer (now : Z) (key : Key) (i : Z) (ok : bool) : M unit :=
  with_context key i (fun _ _ =>
    if negb ok then finishTensorWorker now key false else beginTensorRowStage now key i Max).
Definition tensorOutputDmaAnswer (now : Z) (key : Key) (i : Z) (ok : bool) : M unit :=
  with_context key i (fun w x =>
    if negb ok then finishTensorWorker now key false
    else
      let w := w <| rowsCompleted := rowsCompleted w ⊞₃₂ 1 |> in
      put_context key w i (x <| busy := false |> <| laneValues := [] |>) ;;
      if rowsCompleted w =? expectedRows (dispatch w) then finishTensorWorker now key true
      else issueTensorInputDma now key i).

(** ** FIFOs *)

Definition reserveAttentionScoreSlot (slot : Z) (tg : AttentionClusterTag) (n : Z) : M unit :=
  if attentionClusterEnable_ c then let! ok := on_scores (ScoreFifo.reserve slot tg n) in send (Returned ok)
  else send (Returned false).

Definition writeAttentionScoreBeatAsync (now slot : Z) (tg : AttentionClusterTag) (offset : Z) (values : list float) (transferTag : Z) : M unit := fun s =>
  (if negb (attentionClusterEnable_ c) || (len values =? 0) ||
      (attentionScoreFifoQueueDepth_ c <=? Z.of_nat (base.size (pendingAttentionScoreWrites_ s))) ||
      ScoreFifo.ready slot tg (attentionScoreFifo_ s)
   then send (Returned false)
   else
     let! ok := on_scores (ScoreFifo.reserveWrite slot tg offset (len values)) in
     if negb ok then send (Returned false)
     else
       let id := nextAttentionScoreWriteId_ s in
       update (fun s => s <| nextAttentionScoreWriteId_ := id ⊞ 1 |>
         <| pendingAttentionScoreWrites_ := <[id := mkPendingWrite (generation tg) slot tg offset values transferTag]> (pendingAttentionScoreWrites_ s) |>) ;;
       let! d := scheduleScoreFifoPort now (bytes (len values)) true in
       send (Self d (mkEvent (generation tg, 0, 0) 0 Max ScoreFifoWriteDone id)) ;;
       send (Returned true)) s.

Definition completeAttentionScoreWrite (id : Z) : M unit := fun s =>
  match pendingAttentionScoreWrites_ s !! id with
  | None => ret tt s
  | Some p =>
      (update (fun s => s <| pendingAttentionScoreWrites_ := delete id (pendingAttentionScoreWrites_ s) |>) ;;
       let! ok := on_scores (ScoreFifo.commitWrite (pw_slot p) (pw_tag p) (pw_offset p) (pw_values p)) in
       send (ScoreWritten ok (pw_transferTag p))) s
  end.

Definition releaseAttentionScoreSlot (slot : Z) (tg : AttentionClusterTag) : M unit := fun s =>
  (if existsb (fun p => (pw_slot p.2 =? slot) && tag_eqb (pw_tag p.2) tg) (map_to_list (pendingAttentionScoreWrites_ s))
   then send (Returned false)
   else let! ok := on_scores (ScoreFifo.release slot tg) in send (Returned ok)) s.

Definition attentionPSlotAdmission (slot : Z) (tg : AttentionClusterTag) (n : Z) (s : t) : AttentionClusterAdmission :=
  if negb (attentionClusterEnable_ c) || (Z.of_nat ScoreFifo.kSlots <=? slot) || (generation tg =? 0) || (n =? 0) ||
     (ScoreFifo.kElementsPerSlot <? n)
  then Invalid
  else if negb (ScoreFifo.occupied_slot slot (attentionPFifo_ s)) then Ready
  else if ScoreFifo.reserved slot tg (attentionPFifo_ s) then Invalid else Retry.

Definition reserveAttentionPSlot (slot : Z) (tg : AttentionClusterTag) (n : Z) : M unit := fun s =>
  (match attentionPSlotAdmission slot tg n s with
   | Ready => let! ok := on_weights (ScoreFifo.reserve slot tg n) in send (Returned ok)
   | _ => send (Returned false)
   end) s.

Definition readAttentionPRowAsync (now slot : Z) (tg : AttentionClusterTag) (offset count transferTag : Z) : M unit := fun s =>
  (if negb (attentionClusterEnable_ c) || (count =? 0) ||
      (attentionScoreFifoQueueDepth_ c <=? Z.of_nat (base.size (pendingAttentionPReads_ s))) ||
      negb (ScoreFifo.canRead slot tg offset count (attentionPFifo_ s))
   then send (Returned false)
   else
     let id := nextAttentionPReadId_ s in
     update (fun s => s <| nextAttentionPReadId_ := id ⊞ 1 |>
       <| pendingAttentionPReads_ := <[id := mkPendingRead (generation tg) slot tg offset count transferTag]> (pendingAttentionPReads_ s) |>) ;;
     let! d := schedulePFifoPort now (bytes count) false in
     send (Self d (mkEvent (generation tg, 0, 0) 0 Normalize PFifoReadDone id)) ;;
     send (Returned true)) s.

Definition completeAttentionPRead (id : Z) : M unit := fun s =>
  match pendingAttentionPReads_ s !! id with
  | None => ret tt s
  | Some p =>
      (update (fun s => s <| pendingAttentionPReads_ := delete id (pendingAttentionPReads_ s) |>) ;;
       match ScoreFifo.read (pr_slot p) (pr_tag p) (pr_offset p) (pr_count p) (attentionPFifo_ s) with
       | Some values => send (PRead true (pr_transferTag p) values)
       | None => send (PRead false (pr_transferTag p) [])
       end) s
  end.

Definition releaseAttentionPSlot (slot : Z) (tg : AttentionClusterTag) : M unit := fun s =>
  (if existsb (fun p => (pr_slot p.2 =? slot) && tag_eqb (pr_tag p.2) tg) (map_to_list (pendingAttentionPReads_ s))
   then send (Returned false)
   else let! ok := on_weights (ScoreFifo.release slot tg) in send (Returned ok)) s.

(** Removes the rows of a cancelled worker. *)
Definition cancelled_rows (w : Worker) (o : OnlineRow) : bool :=
  (o_jobId o =? attentionJobId w) && (d_row (dispatch w) <=? o_globalRow o) && (o_globalRow o <? band_end w).
Definition cancel_worker (now : Z) (key : Key) (w : Worker) : M unit :=
  update (fun s => s <| attentionOnlineContexts_ := filter (fun e => cancelled_rows w (snd e) = false) (attentionOnlineContexts_ s) |>) ;;
  (if attentionClusterEnable_ c && localTileMode w then leave_activity now else ret tt) ;;
  update (fun s => s <| tensorWorkerOps_ := delete key (tensorWorkerOps_ s) |>).
Fixpoint cancel_workers (now gen : Z) (l : list (Key * Worker)) : M unit :=
  match l with
  | [] => ret tt
  | (key, w) :: l => (if w_generation w =? gen then cancel_worker now key w else ret tt) ;; cancel_workers now gen l
  end.
Definition cancelAttentionClusterGeneration (now gen : Z) : M unit := fun s =>
  (update (fun s => s <| pendingAttentionScoreWrites_ := filter (fun e => pw_generation (snd e) <> gen) (pendingAttentionScoreWrites_ s) |>) ;;
   on_scores (ScoreFifo.cancelGeneration gen) ;;
   update (fun s => s <| pendingAttentionPReads_ := filter (fun e => pr_generation (snd e) <> gen) (pendingAttentionPReads_ s) |>) ;;
   on_weights (ScoreFifo.cancelGeneration gen) ;;
   cancel_workers now gen (map_to_list (tensorWorkerOps_ s))) s.

(** ** Tiles and bands *)

Definition request_key (r : AttentionTileRequest) : Key := (rq_generation r, rq_tag r, globalRowBegin r).
Definition context_count (rows : Z) : Z := Z.min rows (rowEngineContexts_ c).
Definition mem_end : Z := baseAddr c ⊞ memSize c.
Definition activeContexts (s : t) : Z :=
  foldr (fun (e : Key * Worker) n => len (contexts e.2) + n) 0 (map_to_list (tensorWorkerOps_ s)).

Definition request_invalid (r : AttentionTileRequest) : bool :=
  (rq_jobId r =? 0) || (rq_rows r =? 0) || (64 <? rq_rows r) || (rq_cols r =? 0) || (headDim r =? 0) || (numKvTiles r =? 0) ||
  (numKvTiles r <=? rq_kvTileIndex r) ||
  (negb (rq_directScoreMode r) && (localScoreAddr r <? baseAddr c)) ||
  (rq_directScoreMode r &&
    ((rq_generation r =? 0) || (Z.of_nat ScoreFifo.kSlots <=? rq_scoreSlot r) || negb (generation (rq_scoreTag r) =? rq_generation r))) ||
  (rq_directPMode r &&
    (negb (rq_directScoreMode r) || (Z.of_nat ScoreFifo.kSlots <=? rq_pSlot r) || negb (generation (rq_pTag r) =? rq_generation r))).
Definition tile_beyond (r : AttentionTileRequest) : bool :=
  let tileBytes := u64 (bytes (rq_cols r) * rq_rows r) in
  let tileEnd := localScoreAddr r ⊞ tileBytes in
  (tileEnd <? localScoreAddr r) || (mem_end <? tileEnd) || (rowEngineScratchpadBytes_ c <? tileBytes).
Definition first_rows (r : AttentionTileRequest) : list Z :=
  map (fun index => globalRowBegin r ⊞₃₂ index) (seqZ 0 (context_count (rq_rows r))).

Definition attentionTileAdmission (r : AttentionTileRequest) (s : t) : AttentionClusterAdmission :=
  if request_invalid r then Invalid
  else if negb (rq_directScoreMode r) && tile_beyond r then Invalid
  else if rq_directScoreMode r && negb (ScoreFifo.reserved (rq_scoreSlot r) (rq_scoreTag r) (attentionScoreFifo_ s)) then Invalid
  else if rq_directScoreMode r && negb (ScoreFifo.ready (rq_scoreSlot r) (rq_scoreTag r) (attentionScoreFifo_ s)) then Retry
  else if rq_directPMode r && negb (ScoreFifo.reserved (rq_pSlot r) (rq_pTag r) (attentionPFifo_ s)) then Invalid
  else if bool_decide (is_Some (tensorWorkerOps_ s !! request_key r)) then Invalid
  else if negb (rq_kvTileIndex r =? 0) && negb (forallb (fun row => valid_row (rq_jobId r) row s) (first_rows r)) then Invalid
  else if rowEngineContexts_ c <? activeContexts s + context_count (rq_rows r) then Retry else Ready.

(** One over the root of the head dimension, negative for a causal mask. *)
Definition tile_value (r : AttentionTileRequest) : double :=
  let scale := SFdiv prec64 emax64 double_one (SFsqrt prec64 emax64 (double_of_Z (headDim r))) in
  if rq_causal r then SFopp scale else scale.
Definition tile_worker (r : AttentionTileRequest) : Worker :=
  let stream := tileStreamEnable_ c && negb (rq_directScoreMode r) && negb (rq_directPMode r) in
  let n := if stream then Z.to_nat (rq_rows r * rq_cols r) else 0%nat in
  mkWorker
    (mkDispatch 0 (rq_tag r) (coreId_ c) 0 (coreId_ c) (globalRowBegin r) 0 (rq_rows r) (rq_cols r) (tile_value r) 0 0 0 0 (rq_rows r))
    (localScoreAddr r) (globalRowBegin r) 0 true (rq_jobId r) (rq_kvTileIndex r) (numKvTiles r) (keyBegin r) (rq_directScoreMode r)
    (rq_generation r) (rq_scoreSlot r) (rq_scoreTag r) (rq_directPMode r) (rq_pSlot r) (rq_pTag r) stream 0 0
    (replicate n float_zero) (replicate n float_zero) (mkResult (rq_rows r) (replicate 64 float_zero))
    (replicate (Z.to_nat (context_count (rq_rows r))) no_context).

Fixpoint start_rows (job : Z) (rows : list Z) : M unit :=
  match rows with [] => ret tt | row :: rows => start_row job row ;; start_rows job rows end.

Definition issueAttentionTile (now : Z) (r : AttentionTileRequest) : M unit := fun s =>
  (match attentionTileAdmission r s with
   | Ready =>
       (if rq_kvTileIndex r =? 0 then start_rows (rq_jobId r) (first_rows r) else ret tt) ;;
       put_worker (request_key r) (tile_worker r) ;;
       (if attentionClusterEnable_ c then enter_activity now else ret tt) ;;
       send (Self 1 (mkEvent (request_key r) 0 Max AttentionStart 0)) ;;
       send (Returned true)
   | _ => send (Returned false)
   end) s.

Definition rejectTensorRowDispatch (d : Dispatch) : M unit := send (Completion (ownerCore d) (d <| value := double_zero |>)).

Definition band_worker (d : Dispatch) : Worker :=
  let base := baseAddr c ⊞ 8192 in
  mkWorker d base (d_row d) 0 false 0 0 0 0 false 0 0 no_tag false 0 no_tag false 0 0 [] [] (mkResult 0 (replicate 64 float_zero))
    (map (fun index => no_context <| x_scratchAddr := base ⊞ u64 (index * bytes (expectedCols d)) |>) (seqZ 0 (context_count (expectedRows d)))).

Fixpoint issue_all (now : Z) (key : Key) (l : list Z) : M unit :=
  match l with [] => ret tt | i :: l => issueTensorInputDma now key i ;; issue_all now key l end.

Definition handleTensorRowDispatch (now : Z) (d : Dispatch) : M unit := fun s =>
  let n := context_count (expectedRows d) in
  let base := baseAddr c ⊞ 8192 in
  let key := (0, d_tag d, d_row d) in
  (if negb (workerCore d =? coreId_ c) || (expectedRows d =? 0) || (expectedCols d =? 0) || (rowsPerBand d =? 0) ||
      (dataNodeMask d =? 0) || (nodeStrideBytes d =? 0)
   then rejectTensorRowDispatch d
   else if negb (bool_decide (tensorWorkerOps_ s = ∅)) then rejectTensorRowDispatch d
   else if (rowEngineScratchpadBytes_ c <? u64 (bytes (expectedCols d) * n)) ||
           (mem_end <? base ⊞ u64 (bytes (expectedCols d) * n))
   then rejectTensorRowDispatch d
   else put_worker key (band_worker d) ;; issue_all now key (seqZ 0 n)) s.

(** ** Events *)

(** The loop over the contexts of a worker that has to exist at every turn. *)
Fixpoint start_contexts (now : Z) (key : Key) (fuel : nat) (i : Z) : M unit := fun s =>
  match tensorWorkerOps_ s !! key, fuel with
  | Some w, S fuel =>
      (if i <? len (contexts w) then issueTensorInputDma now key i ;; start_contexts now key fuel (i + 1) else ret tt) s
  | _, _ => None
  end.

Definition onlineRow (w : Worker) (x : Context) (s : t) : option OnlineRow :=
  attentionOnlineContexts_ s !! (attentionJobId w, x_row x).

(** Events for the tile as a whole. *)
Definition handle_tile_event (now : Z) (e : Event) (w : Worker) : M unit :=
  match e_kind e with
  | AttentionStart =>
      if tileStreamActive w then issueAttentionTileStreamRead now (e_key e)
      else start_contexts now (e_key e) (S (length (contexts w))) 0
  | kind =>
      if negb (tileStreamActive w) || negb (e_localTag e =? pendingTileStreamTag w) then ret tt
      else
        match kind with
        | RowDispatch => issueTensorInputDma now (e_key e) (e_context e)
        | TileStreamReadRetry => issueAttentionTileStreamRead now (e_key e)
        | TileStreamWriteRetry => issueAttentionTileStreamWrite now (e_key e)
        | TileStreamReadDone => scheduleAttentionRowDispatch now (e_key e)
        | _ => finishTensorWorker now (e_key e) true
        end
  end.

(** Transfers between a context and the FIFOs. *)
Definition handle_direct_read (now : Z) (key : Key) (i : Z) (w : Worker) (x : Context) : M unit := fun s =>
  let cols := expectedCols (dispatch w) in
  let n := chunk_elems w x in
  (if bool_decide (stage x = Max) && (chunkBegin x =? 0) && (len (residentValues x) =? 0) then
     match ScoreFifo.read (scoreSlot w) (scoreTag w) (u64 (row_index w x * cols)) cols (attentionScoreFifo_ s) with
     | None => finishTensorWorker now key false
     | Some values =>
         put_context key w i (x <| residentValues := values |> <| laneValues := slice 0 n values |>) ;;
         scheduleTensorRowStage now key i (stage x)
     end
   else
     match ScoreFifo.read (scoreSlot w) (scoreTag w) (u64 (row_index w x * cols + chunkBegin x)) n (attentionScoreFifo_ s) with
     | None => finishTensorWorker now key false
     | Some values => put_context key w i (x <| laneValues := values |>) ;; scheduleTensorRowStage now key i (stage x)
     end) s.
Definition handle_direct_write (now : Z) (key : Key) (i : Z) (w : Worker) (x : Context) : M unit :=
  let cols := expectedCols (dispatch w) in
  let! ok := (if bool_decide (stage x = Normalize) && directPMode w
     then on_weights (ScoreFifo.commitWrite (pSlot w) (pTag w) (u64 (row_index w x * cols)) (residentValues x))
     else on_scores (ScoreFifo.overwrite (scoreSlot w) (scoreTag w) (u64 (row_index w x * cols + chunkBegin x)) (laneValues x))) in
  if ok then advanceTensorRowChunk now key i else finishTensorWorker now key false.

(** Arithmetic: what a completed operation leaves in the context. *)
Definition causal_of (w : Worker) : bool := SFltb (value (dispatch w)) double_zero.
Definition scale32 (w : Worker) : float := to_f (SFabs (value (dispatch w))).
Definition scaled (w : Worker) (x : Context) : Context :=
  if SFeqb (value (dispatch w)) double_zero then x
  else x <| laneValues := mask_lanes (causal_of w) (scale32 w) (attentionKeyBegin w) (x_row x) (chunkBegin x) (laneValues x) |>.
Definition keep_lanes (w : Worker) (x : Context) : Context :=
  if localTileMode w then x <| residentValues := splice (chunkBegin x) (laneValues x) (residentValues x) |> else x.
Definition max_reduced (w : Worker) (x : Context) : Context :=
  keep_lanes w (x <| rowMax := f_max (rowMax x) (max_element (laneValues x)) |>).
Definition sum_reduced (w : Worker) (x : Context) : Context :=
  keep_lanes w (x <| rowSum := sum_lanes (laneValues x) (rowSum x) |>).
Definition reciprocal (w : Worker) (x : Context) : Context :=
  if localTileMode w then
    let normalization := d_div double_one (pendingLNew x) in
    x <| oldOutputScale := to_f (d_mul (pendingAlpha x) normalization) |>
      <| tileWeightScale := to_f (d_mul (pendingBeta x) normalization) |>
  else x <| invSum := to_f (d_div double_one (rowSum x)) |>.

(** The operation that follows, or the next step of the row. *)
Definition handle_row_event (now : Z) (key : Key) (i : Z) (w : Worker) (x : Context) (kind : Kind) : M unit := fun s =>
  (match kind with
   | LocalReadRetry => issueTensorLocalRead now key i
   | LocalWriteRetry => issueTensorLocalWrite now key i
   | HardwareRetry => scheduleTensorHardwareOperation now key i (pendingHardwareCompletionKind x)
   | DirectReadDone => handle_direct_read now key i w x
   | DirectWriteDone => handle_direct_write now key i w x
   | ScaleDone => put_context key w i (scaled w x) ;; scheduleTensorHardwareOperation now key i MaxCompareDone
   | MaxCompareDone => scheduleTensorHardwareOperation now key i MaxReductionDone
   | MaxReductionDone =>
       put_context key w i (max_reduced w x) ;;
       if negb (SFeqb (value (dispatch w)) double_zero) && negb (localTileMode w) then issueTensorLocalWrite now key i
       else advanceTensorRowChunk now key i
   | SumReductionDone =>
       put_context key w i (sum_reduced w x) ;;
       if localTileMode w then advanceTensorRowChunk now key i else issueTensorLocalWrite now key i
   | OnlineMaxDone =>
       match onlineRow w x s with
       | Some o =>
           if negb (o_valid o) || negb (o_jobId o =? attentionJobId w) || negb (o_globalRow o =? x_row x) then finishTensorWorker now key false
           else
             put_context key w i (x <| pendingMNew := d_max (on_m (o_state o)) (to_d (rowMax x)) |>) ;;
             scheduleTensorHardwareOperation now key i OnlineExpDone
       | None => finishTensorWorker now key false
       end
   | OnlineExpDone =>
       match onlineRow w x s with
       | Some o =>
           put_context key w i (x <| pendingAlpha := alpha_of (o_state o) (pendingMNew x) |>
                                  <| pendingBeta := beta_of (rowMax x) (pendingMNew x) |>) ;;
           scheduleTensorHardwareOperation now key i OnlineMulDone
       | None => fatal
       end
   | OnlineMulDone =>
       match onlineRow w x s with
       | Some o =>
           put_context key w i (x <| pendingOldTerm := d_mul (on_l (o_state o)) (pendingAlpha x) |>
                                  <| pendingTileTerm := d_mul (rowSum x) (pendingBeta x) |>) ;;
           scheduleTensorHardwareOperation now key i OnlineAddDone
       | None => fatal
       end
   | OnlineAddDone =>
       match onlineRow w x s with
       | Some o =>
           let x := x <| pendingLNew := d_add (pendingOldTerm x) (pendingTileTerm x) |> in
           put_context key w i x ;;
           if negb (sum_ok (pendingLNew x)) then finishTensorWorker now key false
           else
             update (fun s => s <| attentionOnlineContexts_ := <[(attentionJobId w, x_row x) :=
               mkOnlineRow (o_valid o) (o_jobId o) (o_globalRow o) (mkOnline (pendingMNew x) (pendingLNew x))]> (attentionOnlineContexts_ s) |>) ;;
             if final_tile w then scheduleTensorHardwareOperation now key i ReciprocalDone
             else
               put_context key w i (x <| oldOutputScale := to_f (pendingAlpha x) |> <| tileWeightScale := to_f (pendingBeta x) |>) ;;
               beginTensorRowStage now key i Normalize
       | None => fatal
       end
   | ReciprocalDone => put_context key w i (reciprocal w x) ;; beginTensorRowStage now key i Normalize
   | _ =>
       if len (laneValues x) =? 0 then finishTensorWorker now key false
       else
         match stage x with
         | ExpSum =>
             put_context key w i (x <| laneValues := exp_lanes (rowMax x) (laneValues x) |>) ;;
             scheduleTensorHardwareOperation now key i SumReductionDone
         | _ =>
             put_context key w i (x <| laneValues := scale_lanes (invSum x) (laneValues x) |>) ;;
             issueTensorLocalWrite now key i
         end
   end) s.

Definition tile_kind (kind : Kind) : bool :=
  match kind with
  | AttentionStart | RowDispatch | TileStreamReadRetry | TileStreamReadDone | TileStreamWriteRetry | TileStreamWriteDone => true
  | _ => false
  end.
Definition key_generation (key : Key) : Z := key.1.1.

Definition handleTensorRowEngineEvent (now : Z) (e : Event) : M unit :=
  match e_kind e with
  | ScoreFifoWriteDone => completeAttentionScoreWrite (e_localTag e)
  | PFifoReadDone => completeAttentionPRead (e_localTag e)
  | kind =>
      with_context (e_key e) (e_context e) (fun w x =>
        if negb (w_generation w =? key_generation (e_key e)) then ret tt
        else if tile_kind kind then handle_tile_event now e w
        else if negb (busy x) || negb (bool_decide (stage x = e_stage e)) || negb (pendingLocalTag x =? e_localTag e) then ret tt
        else handle_row_event now (e_key e) (e_context e) w x kind)
  end.
End Engine.
End Sfu.
