(* ===== verification/SfuRows.v ===== *)
(** * Rows of a streamed tile

    The row engine of [Sfu] on a tile that is streamed through the engine: what a
    context holds while its row is under way, and that every event takes it to the
    next point of [Softmax.row_update].  Nothing else can happen to a row: no check
    of the code fails but the one on the sum. *)

From S2P Require Import Prelude Telemetry Float32 Cluster ScoreFifo Effects Softmax Sfu.
#[local] Open Scope Z_scope.
#[local] Open Scope mach_scope.
Import Sfu.

(** ** Lists *)

Lemma inserts_prefix {A} b n (l k : list A) : length l = length k -> (b <= length l)%nat ->
  list_inserts b (take n (drop b l)) (take b l ++ drop b k) = take (b + n) l ++ drop (b + n) k.
Proof.
  intros E Hb. set (v := take n (drop b l)).
  assert (length (take b l) = b) as Lb by (rewrite length_take; lia).
  rewrite <- Lb at 1. rewrite <- (Nat.add_0_r (length (take b l))), list_inserts_app_r.
  rewrite <- (take_drop (length v) (drop b k)), list_inserts_0_r.
  - unfold v. rewrite (assoc_L (++)), take_take_drop, drop_drop. f_equal. rewrite length_take, length_drop.
    destruct (decide (b + n <= length k)%nat); [f_equal; lia|]. rewrite !drop_ge; [done|lia|lia].
  - rewrite length_take, length_drop. unfold v. rewrite length_take, length_drop. lia.
Qed.

Lemma drop_inserts_add {A} a b (v : list A) : forall l, drop a (list_inserts (a + b) v l) = list_inserts b v (drop a l).
Proof.
  induction a as [|a IH]; intros l; [by rewrite !drop_0|]. destruct l as [|y l]; [by rewrite drop_nil, !list_inserts_nil|].
  rewrite Nat.add_succ_l, list_inserts_cons. apply IH.
Qed.
Lemma take_inserts {A} n (v : list A) l : forall b, (b + length v <= n)%nat -> take n (list_inserts b v l) = list_inserts b v (take n l).
Proof. induction v as [|y v IH]; intros b H; cbn in *; [done|]. rewrite take_insert_lt by lia. by rewrite IH by lia. Qed.
(** Inserting in one part of a list does not change another. *)
Lemma part_inserts_other {A} n j b (v : list A) l : (b + length v <= j \/ j + n <= b)%nat ->
  take n (drop j (list_inserts b v l)) = take n (drop j l).
Proof.
  intros H. apply list_eq. intros k. destruct (decide (k < n)%nat); [|by rewrite !lookup_take_ge by lia].
  rewrite !lookup_take_lt, !lookup_drop by done. destruct H; [apply list_lookup_inserts_ge|apply list_lookup_inserts_lt]; lia.
Qed.
(** Filling the next chunk of a part. *)
Lemma part_fill {A} n j b m (l whole : list A) : length whole = n -> (j + n <= length l)%nat -> (b <= n)%nat ->
  take b (drop j l) = take b whole ->
  take (b + m) (take n (drop j (list_inserts (j + b) (take m (drop b whole)) l))) = take (b + m) whole.
Proof.
  intros Hw Hl Hb E. rewrite drop_inserts_add, take_inserts by (rewrite length_take, length_drop; lia).
  assert (length (take n (drop j l)) = n) as L by (rewrite length_take, length_drop; lia).
  rewrite <- (take_drop b (take n (drop j l))) at 1. rewrite take_take, Nat.min_l, E by lia. rewrite inserts_prefix by lia.
  destruct (decide (b + m <= n)%nat); [apply take_app_length'; rewrite length_take; lia|].
  rewrite (drop_ge (take n _)), app_nil_r, take_take, Nat.min_id by lia. done.
Qed.

Lemma take_min {A} (a n : nat) (l : list A) : (length l <= n)%nat -> take (Nat.min a n) l = take a l.
Proof. intros H. destruct (decide (a <= n)%nat); [by rewrite Nat.min_l|]. rewrite Nat.min_r, !take_ge by lia. done. Qed.

Section Rows.
Variable c : Config.
Variable exp32 exp64 : float -> float.
Variable accepts : Z -> bool.
#[local] Hint Extern 0 (Arith _ _) => exact (numbers exp32 exp64) : typeclass_instances.

(** ** The reference of a row *)

Definition vectorLanes : nat := Z.to_nat (rowEngineVectorLanes_ c).
Definition expLanes : nat := Z.to_nat (rowEngineExpLanes_ c).
Definition cols (w : Worker) : nat := Z.to_nat (expectedCols (dispatch w)).

Definition scores (w : Worker) (row : Z) (raw : list float) : list float :=
  if SFeqb (value (dispatch w)) double_zero then raw
  else mask_lanes (causal_of w) (scale32 exp32 exp64 w) (attentionKeyBegin w) row 0 raw.
Definition row_result (w : Worker) (row : Z) (o : Online double) (raw : list float) : option (RowResult float double) :=
  row_update vectorLanes (final_tile w) o (scores w row raw).

(** The numbers it computes on the way. *)
Section Numbers.
Variables (w : Worker) (row : Z) (o : Online double) (raw : list float).
Definition top : float := row_max vectorLanes (scores w row raw).
Definition exps : list float := exp_lanes top (scores w row raw).
Definition newMax : double := d_max (on_m o) (to_d top).
Definition alpha : double := alpha_of o newMax.
Definition beta : double := beta_of top newMax.
Definition oldTerm : double := d_mul (on_l o) alpha.
Definition tileTerm : double := d_mul (sum_lanes exps double_zero) beta.
Definition newSum : double := d_add oldTerm tileTerm.
Definition oldScale : float := scale_of (final_tile w) alpha newSum.
Definition weightScale : float := scale_of (final_tile w) beta newSum.
Definition weights : list float := scale_lanes weightScale exps.

Lemma row_result_eq : row_result w row o raw =
  if sum_ok newSum then Some (mkRow (mkOnline newMax newSum) oldScale weights) else None.
Proof. done. Qed.
Lemma length_scores : length (scores w row raw) = length raw.
Proof. unfold scores. destruct (SFeqb _ _); [done|apply length_mask_lanes]. Qed.
Lemma length_exps : length exps = length raw.
Proof. unfold exps, exp_lanes. by rewrite length_map, length_scores. Qed.
Lemma length_weights : length weights = length raw.
Proof. unfold weights, scale_lanes. by rewrite length_map, length_exps. Qed.
End Numbers.

(** ** A context on its way

    It waits for the operation [pendingHardwareCompletionKind]. *)

Definition at_chunk (lanes : nat) (n b : nat) : Prop := (exists q, b = lanes * q)%nat /\ (b < n)%nat.

Definition row_at (w : Worker) (o : Online double) (raw : list float) (x : Context) : Prop :=
  let row := x_row x in
  let s := scores w row raw in
  let e := exps w row raw in
  let n := length raw in
  let b := Z.to_nat (chunkBegin x) in
  let maxing b := stage x = Max /\ at_chunk vectorLanes n b /\ residentValues x = take b s ++ drop b raw /\
    rowMax x = row_max vectorLanes (take b s) in
  let summing b := stage x = ExpSum /\ at_chunk expLanes n b /\ residentValues x = take b e ++ drop b s /\
    rowMax x = top w row raw /\ rowSum x = sum_lanes (take b e) double_zero in
  let summed := stage x = ExpSum /\ residentValues x = e /\ rowMax x = top w row raw /\ rowSum x = sum_lanes e double_zero in
  0 <= chunkBegin x /\
  match pendingHardwareCompletionKind x with
  | ScaleDone => maxing b /\ laneValues x = take vectorLanes (drop b raw)
  | MaxCompareDone | MaxReductionDone => maxing b /\ laneValues x = take vectorLanes (drop b s)
  | ResourceDone =>
      summing b /\ laneValues x = take expLanes (drop b s) \/
      stage x = Normalize /\ at_chunk vectorLanes n b /\ laneValues x = take vectorLanes (drop b e) /\ residentValues x = e /\
        sum_ok (newSum w row o raw) = true /\ oldOutputScale x = oldScale w row o raw /\ invSum x = weightScale w row o raw
  | SumReductionDone => summing b /\ laneValues x = take expLanes (drop b e)
  | OnlineMaxDone => summed
  | OnlineExpDone => summed /\ pendingMNew x = newMax w row o raw
  | OnlineMulDone => summed /\ pendingMNew x = newMax w row o raw /\ pendingAlpha x = alpha w row o raw /\ pendingBeta x = beta w row o raw
  | OnlineAddDone =>
      summed /\ pendingMNew x = newMax w row o raw /\ pendingAlpha x = alpha w row o raw /\ pendingBeta x = beta w row o raw /\
        pendingOldTerm x = oldTerm w row o raw /\ pendingTileTerm x = tileTerm w row o raw
  | ReciprocalDone =>
      summed /\ pendingAlpha x = alpha w row o raw /\ pendingBeta x = beta w row o raw /\ pendingLNew x = newSum w row o raw /\
        sum_ok (newSum w row o raw) = true /\ final_tile w = true
  | _ => False
  end.

(** The online update is done. *)
Definition updated (x : Context) : bool :=
  match pendingHardwareCompletionKind x, stage x with
  | ReciprocalDone, _ => true
  | ResourceDone, Normalize => true
  | _, _ => false
  end.

(** The event it waits for. *)
Definition awaits (key : Key) (i : Z) (x : Context) (e : Event) : Prop :=
  exists kind, e = mkEvent key i (stage x) kind (pendingLocalTag x) /\ (kind = pendingHardwareCompletionKind x \/ kind = HardwareRetry).

(** ** States while a context is handled *)

Definition put (w : Worker) (i : Z) (x : Context) : Worker := w <| contexts := <[Z.to_nat i := x]> (contexts w) |>.

Record cur (s0 : t) (key : Key) (w : Worker) (i : Z) (x : Context) (on : gmap (Z * Z) OnlineRow) (n : Z) (s : t) : Prop := {
  cur_ops : tensorWorkerOps_ s = <[key := put w i x]> (tensorWorkerOps_ s0);
  cur_len : (Z.to_nat i < length (contexts w))%nat;
  cur_online : attentionOnlineContexts_ s = on;
  cur_tag : nextTensorLocalTag_ s = n;
  cur_activity : attentionClusterSfuActivity_ s = attentionClusterSfuActivity_ s0
}.

Lemma cur_init s key w i x : tensorWorkerOps_ s !! key = Some w -> contexts w !! Z.to_nat i = Some x ->
  cur s key w i x (attentionOnlineContexts_ s) (nextTensorLocalTag_ s) s.
Proof.
  intros Hw Hx. constructor; try done.
  - unfold put. rewrite (list_insert_id _ _ _ Hx), insert_id; [done|]. by destruct w.
  - by apply lookup_lt_is_Some_1.
Qed.

Abbreviation M := (Effects.M t effect).
Abbreviation wp := (Effects.wp False).
Implicit Types Q : unit -> list effect -> t -> Prop.

Lemma wp_cast Q (m m' : M unit) log s : m s = m' s -> wp m' Q log s -> wp m Q log s.
Proof. unfold Effects.wp. by intros ->. Qed.
Lemma context_put_put w i x x' : put (put w i x) i x' = put w i x'.
Proof. unfold put. cbn. by rewrite list_insert_insert_eq. Qed.

Lemma wp_context Q s0 key w i x on n log s (f : Worker -> Context -> M unit) : cur s0 key w i x on n s ->
  wp (f (put w i x) x) Q log s -> wp (with_context key i f) Q log s.
Proof.
  intros C H. unfold with_context, with_worker. unfold Effects.wp in *. rewrite (cur_ops _ _ _ _ _ _ _ _ C), lookup_insert_eq.
  change (contexts (put w i x)) with (<[Z.to_nat i := x]> (contexts w)).
  by rewrite list_lookup_insert_eq by apply (cur_len _ _ _ _ _ _ _ _ C).
Qed.

Lemma wp_put Q s0 key w W w' i x x' on n log s : cur s0 key w i x on n s ->
  W = put w' i x' -> length (contexts w') = length (contexts w) ->
  (forall s', cur s0 key w' i x' on n s' -> Q tt log s') -> wp (put_worker key W) Q log s.
Proof.
  intros [Ho Hl Hon Hn Ha] -> L H. apply wp_update, H. constructor; cbn; try done; [|by rewrite L]. by rewrite Ho, insert_insert_eq.
Qed.
Lemma wp_put_context Q s0 key w i x x' on n log s : cur s0 key w i x on n s ->
  (forall s', cur s0 key w i x' on n s' -> Q tt log s') -> wp (put_context key (put w i x) i x') Q log s.
Proof. intros C H. eapply wp_put; [exact C|apply context_put_put|done|done]. Qed.

Lemma wp_new_tag (Q : Z -> list effect -> t -> Prop) s0 key w i x on n log s : cur s0 key w i x on n s -> n + 1 < 2 ^ 64 -> 0 <= n ->
  (forall s', cur s0 key w i x on (n + 1) s' -> Q n log s') -> wp new_tag Q log s.
Proof.
  intros [Ho Hl Hon Hn Ha] B B' H. unfold new_tag. unfold Effects.wp. cbn. rewrite app_nil_r, Hn. apply H. constructor; cbn; try done.
  rewrite u64_small by (unfold is_u64; lia). done.
Qed.

Lemma wp_online Q s0 key w i x on n log s k v : cur s0 key w i x on n s ->
  (forall s', cur s0 key w i x (<[k := v]> on) n s' -> Q tt log s') ->
  wp (update (fun s => s <| attentionOnlineContexts_ := <[k := v]> (attentionOnlineContexts_ s) |>)) Q log s.
Proof. intros [H1 H2 H3 H4 H5] H. apply wp_update, H. constructor; try done. cbn. by rewrite H3. Qed.

(** ** Hardware operations *)

Lemma wp_reserve (Q : Z + Z -> list effect -> t -> Prop) s0 key w i x on n log s cyc p : cur s0 key w i x on n s ->
  (forall r s', cur s0 key w i x on n s' -> Q r log s') -> wp (reserve_pipeline cyc p) Q log s.
Proof.
  intros [Ho Hl Hon Hn Ha] H. unfold reserve_pipeline, Effects.wp. destruct (Pipeline.reserve _ _) as [[d|] q]; [|destruct (Pipeline.retryDelay _ _) as [d q']];
    cbn; rewrite app_nil_r; apply H; by constructor.
Qed.

Lemma wp_operation Q s0 key w i x on n log s now kind p : cur s0 key w i x on n s ->
  tensorHardwarePipeline (stage x) kind = Some p -> busy x = true ->
  (forall d e s', let x' := x <| pendingHardwareCompletionKind := kind |> in
    cur s0 key w i x' on n s' -> awaits key i x' e -> Q tt (log ++ [Self d e]) s') ->
  wp (scheduleTensorHardwareOperation c now key i kind) Q log s.
Proof.
  intros C Hp Hb H. eapply wp_context; [exact C|]. rewrite Hp, Hb. cbn zeta. apply wp_bind. eapply wp_put_context; [exact C|]. intros s1 C1.
  apply wp_bind. eapply wp_reserve; [exact C1|]. intros [d|d] s2 C2; (apply wp_send, H; [done|]); unfold awaits; eexists; (split; [done|cbn; auto]).
Qed.

(** ** Streamed tiles *)

Record streamed (w : Worker) : Prop := {
  st_local : localTileMode w = true;
  st_stream : tileStreamActive w = true;
  st_direct : directScoreMode w = false;
  st_cols : 0 < expectedCols (dispatch w) < 2 ^ 32
}.
Hypothesis lanes_pos : (0 < vectorLanes)%nat /\ (0 < expLanes)%nat.

Definition lanes_of (st : Stage) : nat := match st with ExpSum => expLanes | _ => vectorLanes end.
Definition first_kind (st : Stage) : Kind := match st with Max => ScaleDone | _ => ResourceDone end.
(** A context whose next chunk has been read. *)
Definition loaded (x : Context) (n : Z) : Context :=
  x <| pendingLocalTag := n |>
    <| laneValues := take (lanes_of (stage x)) (drop (Z.to_nat (chunkBegin x)) (residentValues x)) |>
    <| pendingHardwareCompletionKind := first_kind (stage x) |>.

Lemma updated_loaded x n : updated (loaded x n) = match stage x with Normalize => true | _ => false end.
Proof. unfold updated, loaded. cbn. by destruct (stage x). Qed.
Lemma cols_pos w : streamed w -> (0 < cols w)%nat.
Proof using Type. clear lanes_pos. intros [_ _ _ H]. unfold cols. lia. Qed.
Lemma lanes_of_pos st : (0 < lanes_of st)%nat.
Proof. destruct lanes_pos. by destruct st. Qed.
Lemma lanes_to_nat st : Z.to_nat (lanes c st) = lanes_of st.
Proof. by destruct st. Qed.

Lemma loaded_lanes (w : Worker) x : streamed w -> 0 <= chunkBegin x < expectedCols (dispatch w) -> length (residentValues x) = cols w ->
  slice (chunkBegin x) (chunk_elems c w x) (residentValues x) =
    take (lanes_of (stage x)) (drop (Z.to_nat (chunkBegin x)) (residentValues x)).
Proof using Type. clear lanes_pos.
  intros [_ _ _ Hc] Hb Hl. unfold slice, chunk_elems. rewrite u32_small by (unfold is_u32; lia).
  rewrite <- lanes_to_nat, Z2Nat.inj_min. apply take_min. rewrite length_drop, Hl. unfold cols. lia.
Qed.

Lemma wp_stage Q s0 key w i x on n log s now : cur s0 key w i x on n s -> busy x = true -> laneValues x <> [] ->
  (forall d e s', let x' := x <| pendingHardwareCompletionKind := first_kind (stage x) |> in
    cur s0 key w i x' on n s' -> awaits key i x' e -> Q tt (log ++ [Self d e]) s') ->
  wp (scheduleTensorRowStage c now key i (stage x)) Q log s.
Proof.
  intros C Hb Hl H. unfold scheduleTensorRowStage. wp_state.
  rewrite (cur_ops _ _ _ _ _ _ _ _ C), lookup_insert_eq. change (contexts (put w i x)) with (<[Z.to_nat i := x]> (contexts w)).
  rewrite list_lookup_insert_eq by apply (cur_len _ _ _ _ _ _ _ _ C). rewrite bool_decide_true, Hb by done.
  assert ((len (laneValues x) =? 0) = false) as -> by (unfold len; destruct (laneValues x); [done|done]). cbn [negb orb]. wp_fold.
  destruct (stage x) eqn:E; (eapply wp_operation; [exact C|by rewrite E|done|exact H]).
Qed.

Lemma wp_lane_read Q s0 key w i x on n log s now : cur s0 key w i x on n s -> streamed w -> busy x = true ->
  0 <= chunkBegin x < expectedCols (dispatch w) -> length (residentValues x) = cols w -> 0 <= n -> n + 1 < 2 ^ 64 ->
  (forall d e s', cur s0 key w i (loaded x n) on (n + 1) s' -> awaits key i (loaded x n) e -> Q tt (log ++ [Self d e]) s') ->
  wp (issueTensorLocalRead c accepts now key i) Q log s.
Proof.
  intros C St Hb Hc Hl Hn Hn' H. eapply wp_context; [exact C|]. cbv zeta. apply wp_bind. eapply wp_new_tag; [exact C|done|done|]. intros s1 C1.
  apply wp_bind. eapply wp_put_context; [exact C1|]. intros s2 C2. destruct (St) as [S1 S2 S3 S4]. unfold resident.
  change (localTileMode (put w i x)) with (localTileMode w). change (tileStreamActive (put w i x)) with (tileStreamActive w).
  change (directScoreMode (put w i x)) with (directScoreMode w). change (dispatch (put w i x)) with (dispatch w).
  change (chunk_elems c (put w i x) x) with (chunk_elems c w x).
  rewrite S1, S2, S3, orb_true_r. cbn [andb orb negb].
  assert ((len (residentValues (x <| pendingLocalTag := n |>)) =? expectedCols (dispatch w)) = true) as -> by (apply Z.eqb_eq; change (residentValues (x <| pendingLocalTag := n |>)) with (residentValues x); unfold len; rewrite Hl; unfold cols; lia).
  cbn [negb]. apply wp_bind. eapply wp_put; [exact C2|apply context_put_put|done|]. intros s3 C3. cbn in C3. rewrite (loaded_lanes w x St Hc Hl) in C3.
  eapply (wp_stage _ _ _ _ _ _ _ _ _ _ _ C3); [done| |intros d e s'; apply H].
  cbn. intros E. apply (f_equal length) in E. rewrite length_take, length_drop, Hl in E. pose proof (lanes_of_pos (stage x)). unfold cols in E. cbn in E. lia.
Qed.

(** ** Stages *)

(** The part of a row that the weights of the tile hold already. *)
Definition row_begin (w : Worker) (x : Context) : nat := (Z.to_nat (x_row x - d_row (dispatch w)) * cols w)%nat.
Definition written (w : Worker) (o : Online double) (raw : list float) (x : Context) : Prop :=
  updated x = true -> stage x = Normalize ->
  take (Z.to_nat (chunkBegin x)) (drop (row_begin w x) (tilePValues w)) = take (Z.to_nat (chunkBegin x)) (weights w (x_row x) o raw).

(** A bound on the operations that the row still takes. *)
Definition exp_work (w : Worker) : nat := 2 * cols w + (cols w + 6).
Definition row_work (w : Worker) (x : Context) : nat :=
  let left := (cols w - Z.to_nat (chunkBegin x))%nat in
  match pendingHardwareCompletionKind x, stage x with
  | ScaleDone, _ => 3 * left + exp_work w
  | MaxCompareDone, _ => 3 * left - 1 + exp_work w
  | MaxReductionDone, _ => 3 * left - 2 + exp_work w
  | ResourceDone, ExpSum => 2 * left + (cols w + 6)
  | SumReductionDone, _ => 2 * left - 1 + (cols w + 6)
  | OnlineMaxDone, _ => cols w + 5
  | OnlineExpDone, _ => cols w + 4
  | OnlineMulDone, _ => cols w + 3
  | OnlineAddDone, _ => cols w + 2
  | ReciprocalDone, _ => cols w + 1
  | _, _ => left
  end.

Lemma work_loaded w x n : row_work w (loaded x n) =
  (let left := (cols w - Z.to_nat (chunkBegin x))%nat in
   match stage x with Max => 3 * left + exp_work w | ExpSum => 2 * left + (cols w + 6) | Normalize => left end)%nat.
Proof. unfold row_work, loaded. cbn. by destruct (stage x). Qed.

(** The next tag and that of a context: new, or still [tg]. *)
Definition tagged (tg : option Z) (n n' : Z) (x : Context) : Prop :=
  n' = n + 1 /\ pendingLocalTag x = n \/ n' = n /\ tg = Some (pendingLocalTag x).

(** The context goes on with its row with less than [m] operations to come, and
    [Q] holds then. *)
Definition moves Q s0 key w i row tg on n o raw u m log : Prop :=
  forall d e s' x' n', cur s0 key w i x' on n' s' -> tagged tg n n' x' -> busy x' = true -> x_row x' = row -> updated x' = u ->
    row_at w o raw x' -> written w o raw x' -> awaits key i x' e -> (row_work w x' < m)%nat -> Q tt (log ++ [Self d e]) s'.

Lemma at_chunk_0 lanes n : (0 < n)%nat -> at_chunk lanes n 0.
Proof using Type. clear lanes_pos. intros H. split; [exists 0%nat; lia|done]. Qed.

Section Stage.
Context {Q : unit -> list effect -> t -> Prop} {s0 : t} {key : Key} {w : Worker} {i : Z} {x : Context}.
Context {on : gmap (Z * Z) OnlineRow} {n : Z} {log : list effect} {s : t} {now : Z} {o : Online double} {raw : list float}.
Hypothesis C : cur s0 key w i x on n s.
Hypothesis St : streamed w.
Hypothesis Hb : busy x = true.
Hypothesis Hr : length raw = cols w.
Hypothesis Hn : 0 <= n.
Hypothesis Hn' : n + 1 < 2 ^ 64.
Abbreviation row := (x_row x).

(** The next chunk of the stage. *)
Lemma wp_load u m tg : 0 <= chunkBegin x < expectedCols (dispatch w) -> length (residentValues x) = cols w ->
  updated (loaded x n) = u -> row_at w o raw (loaded x n) -> written w o raw (loaded x n) -> (row_work w (loaded x n) < m)%nat ->
  moves Q s0 key w i row tg on n o raw u m log -> wp (issueTensorLocalRead c accepts now key i) Q log s.
Proof. intros Hc Hl Hu Hra Hw Hm H. eapply wp_lane_read; try done. intros d e s' C' Ha. eapply H; try done. by left. Qed.
End Stage.

(** The row of a context is one of the tile's. *)
Definition row_ok (w : Worker) (x : Context) : Prop :=
  d_row (dispatch w) <= x_row x < d_row (dispatch w) + expectedRows (dispatch w) /\ 0 <= d_row (dispatch w) /\
  0 <= expectedRows (dispatch w) <= 64 /\ d_row (dispatch w) + expectedRows (dispatch w) < 2 ^ 32.
Lemma row_begin_bound w x : row_ok w x -> (row_begin w x + cols w <= Z.to_nat (expectedRows (dispatch w)) * cols w)%nat.
Proof using Type. clear lanes_pos. unfold row_ok, row_begin. nia. Qed.

Lemma row_chunk_eq w x : streamed w -> row_ok w x -> 0 <= chunkBegin x < expectedCols (dispatch w) ->
  u64 (row_index w x * expectedCols (dispatch w) + chunkBegin x) = Z.of_nat (row_begin w x + Z.to_nat (chunkBegin x)).
Proof using Type. clear lanes_pos.
  intros [_ _ _ Hc] (H1 & H2 & H3 & H4) Hb. unfold row_begin, row_index, cols. rewrite u32_small by (unfold is_u32; lia).
  rewrite u64_small by (unfold is_u64; nia). nia.
Qed.
Lemma row_begin_eq w x : streamed w -> row_ok w x -> u64 (row_index w x * expectedCols (dispatch w)) = Z.of_nat (row_begin w x).
Proof using Type. clear lanes_pos.
  intros [_ _ _ Hc] (H1 & H2 & H3 & H4). unfold row_begin, row_index, cols. rewrite u32_small by (unfold is_u32; lia).
  rewrite u64_small by (unfold is_u64; nia). nia.
Qed.

Section Begin.
Context {Q : unit -> list effect -> t -> Prop} {s0 : t} {key : Key} {w : Worker} {i : Z} {x : Context}.
Context {on : gmap (Z * Z) OnlineRow} {n : Z} {log : list effect} {s : t} {now : Z} {o : Online double} {raw : list float}.
Hypothesis C : cur s0 key w i x on n s.
Hypothesis St : streamed w.
Hypothesis Hb : busy x = true.
Hypothesis Hr : length raw = cols w.
Hypothesis Hn : 0 <= n.
Hypothesis Hn' : n + 1 < 2 ^ 64.
Abbreviation row := (x_row x).

Lemma wp_begin_exp m tg : residentValues x = scores w row raw -> rowMax x = top w row raw ->
  (exp_work w < m)%nat -> moves Q s0 key w i row tg on n o raw false m log -> wp (beginTensorRowStage c accepts now key i ExpSum) Q log s.
Proof.
  intros E1 E2 Hm H. pose proof (cols_pos w St) as Hc. eapply wp_context; [exact C|]. cbv zeta. apply wp_bind. eapply wp_put_context; [exact C|].
  intros s1 C1. eapply (wp_load C1 St) with (u := false); try done; cbn.
  - destruct St. lia.
  - by rewrite E1, length_scores.
  - split; [done|]. left. split_and!; try done; cbn; [apply at_chunk_0; lia|by rewrite E1].
  - unfold exp_work in *. lia.
Qed.

Lemma wp_begin_normalize m tg : residentValues x = exps w row raw -> sum_ok (newSum w row o raw) = true ->
  oldOutputScale x = oldScale w row o raw -> tileWeightScale x = weightScale w row o raw ->
  (cols w < m)%nat -> moves Q s0 key w i row tg on n o raw true m log -> wp (beginTensorRowStage c accepts now key i Normalize) Q log s.
Proof.
  intros E1 E2 E3 E4 Hm H. pose proof (cols_pos w St) as Hc. eapply wp_context; [exact C|]. cbv zeta.
  change (localTileMode (put w i x)) with (localTileMode w). rewrite (st_local _ St). cbn [negb andb].
  apply wp_bind. eapply wp_put_context; [exact C|]. intros s1 C1. eapply (wp_load C1 St) with (u := true); try done; cbn.
  - destruct St. lia.
  - by rewrite E1, length_exps.
  - split; [done|]. right. split_and!; try done; cbn; [apply at_chunk_0; lia|by rewrite E1].
  - lia.
Qed.

Lemma wp_begin_max m tg : row_ok w x -> length (tileScoreValues w) = (Z.to_nat (expectedRows (dispatch w)) * cols w)%nat ->
  raw = take (cols w) (drop (row_begin w x) (tileScoreValues w)) ->
  (3 * cols w + exp_work w < m)%nat -> moves Q s0 key w i row tg on n o raw false m log -> wp (beginTensorRowStage c accepts now key i Max) Q log s.
Proof.
  intros Hrow Hl Er Hm H. pose proof (cols_pos w St) as Hc. pose proof (row_begin_bound w x Hrow) as Hrb. eapply wp_context; [exact C|]. cbv zeta.
  change (localTileMode (put w i x)) with (localTileMode w). change (tileStreamActive (put w i x)) with (tileStreamActive w).
  change (tileScoreValues (put w i x)) with (tileScoreValues w). change (dispatch (put w i x)) with (dispatch w).
  match goal with |- context [row_index (put w i x) ?y] => change (row_index (put w i x) y) with (row_index w x) end.
  rewrite (st_local _ St), (st_stream _ St), (row_begin_eq w x St Hrow).
  destruct St as [_ _ _ Hc'].
  assert ((len (tileScoreValues w) <? Z.of_nat (row_begin w x) ⊞ expectedCols (dispatch w)) = false) as ->.
  { apply Z.ltb_ge. unfold len. rewrite Hl. unfold cols in *. destruct Hrow as (_ & _ & ? & _). rewrite u64_small by (unfold is_u64; nia). lia. }
  apply wp_bind. eapply wp_put_context; [exact C|]. intros s1 C1. unfold slice in C1. rewrite Nat2Z.id in C1. fold (cols w) in C1. rewrite <- Er in C1.
  eapply (wp_load C1 St) with (u := false); try done; cbn.
  - lia.
  - split; [done|]. split_and!; try done; cbn. apply at_chunk_0. lia.
  - unfold exp_work in *. lia.
Qed.
End Begin.

(** ** The next chunk of a stage *)

Section Loaded.
Variables (w : Worker) (o : Online double) (raw : list float) (x : Context) (n : Z).
Abbreviation row := (x_row x).
Abbreviation b := (Z.to_nat (chunkBegin x)).
Hypothesis Hc : 0 <= chunkBegin x.

Lemma loaded_max : stage x = Max -> at_chunk vectorLanes (length raw) b -> residentValues x = take b (scores w row raw) ++ drop b raw ->
  rowMax x = row_max vectorLanes (take b (scores w row raw)) -> row_at w o raw (loaded x n).
Proof.
  intros Hs Ha Er Em. unfold row_at, loaded. cbn. rewrite Hs. cbn. split_and!; try done. rewrite Er.
  rewrite drop_app_length'; [done|]. destruct Ha. rewrite length_take, length_scores. lia.
Qed.
Lemma loaded_exp : stage x = ExpSum -> at_chunk expLanes (length raw) b -> residentValues x = take b (exps w row raw) ++ drop b (scores w row raw) ->
  rowMax x = top w row raw -> rowSum x = sum_lanes (take b (exps w row raw)) double_zero -> row_at w o raw (loaded x n).
Proof.
  intros Hs Ha Er Em Es. unfold row_at, loaded. cbn. rewrite Hs. cbn. split; [done|]. left. split_and!; try done. rewrite Er.
  rewrite drop_app_length'; [done|]. destruct Ha. rewrite length_take, length_exps. lia.
Qed.
Lemma loaded_normalize : stage x = Normalize -> at_chunk vectorLanes (length raw) b -> residentValues x = exps w row raw ->
  sum_ok (newSum w row o raw) = true -> oldOutputScale x = oldScale w row o raw -> invSum x = weightScale w row o raw ->
  row_at w o raw (loaded x n).
Proof. intros Hs Ha Er E1 E2 E3. unfold row_at, loaded. cbn. rewrite Hs. cbn. split; [done|]. right. split_and!; try done. by rewrite Er. Qed.
End Loaded.

(** ** The end of a chunk *)

Definition advanced (x : Context) : Context :=
  x <| chunkBegin := u32 (chunkBegin x + len (laneValues x)) |> <| laneValues := [] |>.

(** Where the next chunk begins. *)
Lemma advanced_begin w lanes x : streamed w -> 0 <= chunkBegin x -> at_chunk lanes (cols w) (Z.to_nat (chunkBegin x)) ->
  length (laneValues x) = Nat.min lanes (cols w - Z.to_nat (chunkBegin x)) ->
  chunkBegin (advanced x) = Z.of_nat (Nat.min (Z.to_nat (chunkBegin x) + lanes) (cols w)).
Proof using Type. clear lanes_pos.
  intros [_ _ _ Hc] Hb [_ Hlt] Hl. unfold advanced, cols in *. cbn. unfold len. rewrite Hl, u32_small by (unfold is_u32; lia). lia.
Qed.
Lemma at_chunk_next lanes n b : at_chunk lanes n b -> (b + lanes < n)%nat -> at_chunk lanes n (b + lanes).
Proof using Type. clear lanes_pos. intros [[q ->] _] H. split; [exists (S q); lia|done]. Qed.

Section Advance.
Context {Q : unit -> list effect -> t -> Prop} {s0 : t} {key : Key} {w : Worker} {i : Z} {x : Context}.
Context {on : gmap (Z * Z) OnlineRow} {n : Z} {log : list effect} {s : t} {now : Z} {o : Online double} {raw : list float}.
Hypothesis C : cur s0 key w i x on n s.
Hypothesis St : streamed w.
Hypothesis Hb : busy x = true.
Hypothesis Hr : length raw = cols w.
Hypothesis Hn : 0 <= n.
Hypothesis Hn' : n + 1 < 2 ^ 64.
Hypothesis Hc : 0 <= chunkBegin x.
Abbreviation row := (x_row x).
Abbreviation b := (Z.to_nat (chunkBegin x)).

(** [advanceTensorRowChunk] goes on with the next chunk or with the next stage. *)
Lemma wp_advance lanes : at_chunk lanes (cols w) b -> length (laneValues x) = Nat.min lanes (cols w - b) ->
  ((b + lanes < cols w)%nat -> forall s', cur s0 key w i (advanced x) on n s' -> wp (issueTensorLocalRead c accepts now key i) Q log s') ->
  ((cols w <= b + lanes)%nat -> forall s', cur s0 key w i (advanced x) on n s' ->
     wp (match stage x with
         | Max => beginTensorRowStage c accepts now key i ExpSum
         | ExpSum => scheduleTensorHardwareOperation c now key i OnlineMaxDone
         | Normalize => completeTensorRow c exp32 exp64 accepts now key i
         end) Q log s') ->
  wp (advanceTensorRowChunk c exp32 exp64 accepts now key i) Q log s.
Proof.
  intros Ha Hl H1 H2. eapply wp_context; [exact C|]. cbv zeta. apply wp_bind. eapply wp_put_context; [exact C|]. intros s1 C1.
  fold (advanced x) in *. change (dispatch (put w i x)) with (dispatch w). change (localTileMode (put w i x)) with (localTileMode w).
  rewrite (st_local _ St), (advanced_begin w lanes x St Hc Ha Hl). change (stage (advanced x)) with (stage x).
  destruct (Z.ltb_spec (Z.of_nat (Nat.min (b + lanes) (cols w))) (expectedCols (dispatch w))) as [Hlt|Hge].
  - apply H1; [unfold cols in *; lia|done].
  - apply H2; [|done]. destruct St. unfold cols in *. lia.
Qed.

(** MAX. *)
Lemma wp_advance_max m : stage x = Max -> at_chunk vectorLanes (cols w) b ->
  length (laneValues x) = Nat.min vectorLanes (cols w - b) ->
  residentValues x = take (b + vectorLanes) (scores w row raw) ++ drop (b + vectorLanes) raw ->
  rowMax x = row_max vectorLanes (take (b + vectorLanes) (scores w row raw)) ->
  (3 * (cols w - b) - 3 + exp_work w < m)%nat -> moves Q s0 key w i row (Some (pendingLocalTag x)) on n o raw false m log -> wp (advanceTensorRowChunk c exp32 exp64 accepts now key i) Q log s.
Proof.
  intros Hst Ha Hl Er Em Hm H. pose proof (length_scores w row raw) as Ls. apply (wp_advance vectorLanes Ha Hl).
  - intros Hlt s' C'. pose proof (advanced_begin w _ x St Hc Ha Hl) as Eb. rewrite Nat.min_l in Eb by lia.
    eapply (wp_load C' St) with (u := false); try done.
    + rewrite Eb. unfold cols in *. lia.
    + change (length (residentValues x) = cols w). rewrite Er, length_app, length_take, length_drop. lia.
    + rewrite updated_loaded. change (stage (advanced x)) with (stage x). by rewrite Hst.
    + apply loaded_max; rewrite ?Eb, ?Nat2Z.id; try done; [lia|]. rewrite Hr. by apply at_chunk_next.
    + intros Hu. rewrite updated_loaded in Hu. change (stage (advanced x)) with (stage x) in Hu. by rewrite Hst in Hu.
    + rewrite work_loaded, Eb, Nat2Z.id. change (stage (advanced x)) with (stage x). rewrite Hst. cbv zeta. destruct lanes_pos. lia.
  - intros Hge s' C'. rewrite Hst. eapply (wp_begin_exp C' St); try done; change (residentValues (advanced x)) with (residentValues x);
      change (rowMax (advanced x)) with (rowMax x); change (x_row (advanced x)) with row.
    + rewrite Er, take_ge, drop_ge, app_nil_r by lia. done.
    + rewrite Em, take_ge by lia. done.
    + destruct Ha. lia.
Qed.

(** EXP/SUM. *)
Lemma wp_advance_exp m : stage x = ExpSum -> at_chunk expLanes (cols w) b ->
  length (laneValues x) = Nat.min expLanes (cols w - b) ->
  residentValues x = take (b + expLanes) (exps w row raw) ++ drop (b + expLanes) (scores w row raw) ->
  rowMax x = top w row raw -> rowSum x = sum_lanes (take (b + expLanes) (exps w row raw)) double_zero ->
  (2 * (cols w - b) - 2 + (cols w + 6) < m)%nat -> moves Q s0 key w i row (Some (pendingLocalTag x)) on n o raw false m log -> wp (advanceTensorRowChunk c exp32 exp64 accepts now key i) Q log s.
Proof.
  intros Hst Ha Hl Er Em Es Hm H. pose proof (length_scores w row raw) as Ls. pose proof (length_exps w row raw) as Le. apply (wp_advance expLanes Ha Hl).
  - intros Hlt s' C'. pose proof (advanced_begin w _ x St Hc Ha Hl) as Eb. rewrite Nat.min_l in Eb by lia.
    eapply (wp_load C' St) with (u := false); try done.
    + rewrite Eb. unfold cols in *. lia.
    + change (length (residentValues x) = cols w). rewrite Er, length_app, length_take, length_drop. lia.
    + rewrite updated_loaded. change (stage (advanced x)) with (stage x). by rewrite Hst.
    + apply loaded_exp; rewrite ?Eb, ?Nat2Z.id; try done; [lia|]. rewrite Hr. by apply at_chunk_next.
    + intros Hu. rewrite updated_loaded in Hu. change (stage (advanced x)) with (stage x) in Hu. by rewrite Hst in Hu.
    + rewrite work_loaded, Eb, Nat2Z.id. change (stage (advanced x)) with (stage x). rewrite Hst. cbv zeta. destruct lanes_pos. lia.
  - intros Hge s' C'. rewrite Hst. rewrite take_ge, drop_ge, app_nil_r in Er by lia. rewrite take_ge in Es by lia.
    eapply (wp_operation _ _ _ _ _ _ _ _ _ _ _ _ POnlineMax C'); [done|done|]. intros d e s1 x' C1 Aw. eapply (H d e s1 x' n C1); try done; [by right| |].
    + split; [|done]. change (0 <= chunkBegin (advanced x)). rewrite (advanced_begin w _ x St Hc Ha Hl). lia.
    + change (cols w + 5 < m)%nat. destruct Ha. lia.
Qed.

(** NORMALIZE. *)
Lemma wp_advance_normalize m : stage x = Normalize -> at_chunk vectorLanes (cols w) b ->
  length (laneValues x) = Nat.min vectorLanes (cols w - b) ->
  residentValues x = exps w row raw -> sum_ok (newSum w row o raw) = true ->
  oldOutputScale x = oldScale w row o raw -> invSum x = weightScale w row o raw ->
  take (b + vectorLanes) (take (cols w) (drop (row_begin w x) (tilePValues w))) = take (b + vectorLanes) (weights w row o raw) ->
  (cols w - b - 1 < m)%nat -> moves Q s0 key w i row (Some (pendingLocalTag x)) on n o raw true m log ->
  (take (cols w) (drop (row_begin w x) (tilePValues w)) = weights w row o raw ->
     forall s', cur s0 key w i (advanced x) on n s' -> wp (completeTensorRow c exp32 exp64 accepts now key i) Q log s') ->
  wp (advanceTensorRowChunk c exp32 exp64 accepts now key i) Q log s.
Proof.
  intros Hst Ha Hl Er E1 E2 E3 Hp Hm H Hend. pose proof (length_weights w row o raw) as Lw. apply (wp_advance vectorLanes Ha Hl).
  - intros Hlt s' C'. pose proof (advanced_begin w _ x St Hc Ha Hl) as Eb. rewrite Nat.min_l in Eb by lia.
    eapply (wp_load C' St) with (u := true); try done.
    + rewrite Eb. unfold cols in *. lia.
    + change (length (residentValues x) = cols w). by rewrite Er, length_exps.
    + rewrite updated_loaded. change (stage (advanced x)) with (stage x). by rewrite Hst.
    + apply loaded_normalize; rewrite ?Eb, ?Nat2Z.id; try done; [lia|]. rewrite Hr. by apply at_chunk_next.
    + intros _ _. change (chunkBegin (loaded (advanced x) n)) with (chunkBegin (advanced x)). rewrite Eb, Nat2Z.id.
      change (x_row (loaded (advanced x) n)) with row. change (row_begin w (loaded (advanced x) n)) with (row_begin w x).
      rewrite <- Hp, take_take. by rewrite Nat.min_l by lia.
    + rewrite work_loaded, Eb, Nat2Z.id. change (stage (advanced x)) with (stage x). rewrite Hst. cbv zeta. destruct lanes_pos. lia.
  - intros Hge s' C'. rewrite Hst. apply Hend; [|done]. rewrite !(take_ge _ (b + vectorLanes)) in Hp; [done|lia|rewrite length_take; lia].
Qed.
End Advance.

(** ** Events of a row *)

Lemma chunk_length {A} lanes n b (l : list A) : length l = n -> length (take lanes (drop b l)) = Nat.min lanes (n - b).
Proof using Type. clear lanes_pos. intros <-. by rewrite length_take, length_drop. Qed.
Lemma chunk_nonempty {A} lanes b (l : list A) : (0 < lanes)%nat -> (b < length l)%nat -> take lanes (drop b l) <> [].
Proof using Type. clear lanes_pos. intros H1 H2 E. apply (f_equal length) in E. rewrite (chunk_length _ (length l)) in E by done. cbn in E. lia. Qed.
Lemma take_chunk {A} lanes b (l : list A) : take (b + lanes) l = take b l ++ take lanes (drop b l).
Proof. symmetry. apply take_take_drop. Qed.

Lemma scaled_eq w i x raw : 0 <= chunkBegin x -> laneValues x = take vectorLanes (drop (Z.to_nat (chunkBegin x)) raw) ->
  scaled exp32 exp64 (put w i x) x = x <| laneValues := take vectorLanes (drop (Z.to_nat (chunkBegin x)) (scores w (x_row x) raw)) |>.
Proof using Type. clear lanes_pos.
  intros Hc Hl. unfold scaled, scores. change (dispatch (put w i x)) with (dispatch w). destruct (SFeqb _ _).
  - rewrite <- Hl. by destruct x.
  - rewrite Hl. rewrite mask_lanes_drop, mask_lanes_take, Z.add_0_l, Z2Nat.id by done. done.
Qed.

Definition online_entry (job row : Z) (o : Online double) : OnlineRow := mkOnlineRow true job row o.

(** The online state of a row before or after its update. *)
Definition online_now (w : Worker) (row : Z) (o : Online double) (raw : list float) (u : bool) : Online double :=
  if u then mkOnline (newMax w row o raw) (newSum w row o raw) else o.
(** The worker with a part of the row's weights written, and what a step may write. *)
Definition weighted (w : Worker) (x : Context) (v : list float) : Worker :=
  w <| tilePValues := list_inserts (row_begin w x + Z.to_nat (chunkBegin x)) v (tilePValues w) |>.
Definition may_write (w : Worker) (x : Context) (v : list float) : Prop :=
  v = [] \/ (Z.to_nat (chunkBegin x) + length v <= cols w)%nat /\ updated x = true /\ stage x = Normalize.

Section Events.
Context {Q : unit -> list effect -> t -> Prop} {s0 : t} {key : Key} {w : Worker} {i : Z} {x : Context}.
Context {on : gmap (Z * Z) OnlineRow} {n : Z} {log : list effect} {s : t} {now : Z} {o : Online double} {raw : list float}.
Hypothesis C : cur s0 key w i x on n s.
Hypothesis St : streamed w.
Hypothesis Hb : busy x = true.
Hypothesis Hr : length raw = cols w.
Hypothesis Hn : 0 <= n.
Hypothesis Hn' : n + 1 < 2 ^ 64.
Hypothesis Hat : row_at w o raw x.
Hypothesis Hwr : written w o raw x.
Abbreviation row := (x_row x).
Abbreviation b := (Z.to_nat (chunkBegin x)).
Abbreviation handle := (handle_row_event c exp32 exp64 accepts now key i (put w i x) x).

Lemma wp_retry : moves Q s0 key w i row (Some (pendingLocalTag x)) on n o raw (updated x) (S (row_work w x)) log -> wp (handle HardwareRetry) Q log s.
Proof.
  intros H. cbn [handle_row_event]. set (k := pendingHardwareCompletionKind x).
  assert (exists p, tensorHardwarePipeline (stage x) k = Some p) as [p Hp].
  { destruct Hat as [_ Ha]. unfold k. destruct (pendingHardwareCompletionKind x); try done; cbn; eauto.
    destruct Ha as [[[-> _] _]|[-> _]]; eauto. }
  eapply wp_operation; [exact C|exact Hp|done|]. intros d e s' x' C' Aw. assert (x' = x) as -> by (unfold x', k; by destruct x).
  eapply (H d e s' x n); try done; [by right|lia].
Qed.

Lemma wp_scale : pendingHardwareCompletionKind x = ScaleDone -> moves Q s0 key w i row (Some (pendingLocalTag x)) on n o raw false (row_work w x) log -> wp (handle ScaleDone) Q log s.
Proof.
  intros Ek H. destruct Hat as [Hc Ha]. rewrite Ek in Ha. destruct Ha as [(Hs & Hch & Er & Em) El].
  cbn [handle_row_event]. apply wp_bind. eapply wp_put_context; [exact C|]. intros s1 C1. rewrite (scaled_eq w i x raw Hc El) in C1.
  eapply (wp_operation _ _ _ _ _ _ _ _ _ _ _ _ PMaxCompare C1); [done|done|]. intros d e s' x' C' Aw. eapply (H d e s' x' n); try done; [by right|].
  change (3 * (cols w - b) - 1 + exp_work w < row_work w x)%nat. unfold row_work. rewrite Ek. destruct Hch. lia.
Qed.
Lemma wp_compare : pendingHardwareCompletionKind x = MaxCompareDone -> moves Q s0 key w i row (Some (pendingLocalTag x)) on n o raw false (row_work w x) log -> wp (handle MaxCompareDone) Q log s.
Proof.
  intros Ek H. destruct Hat as [Hc Ha]. rewrite Ek in Ha. destruct Ha as [(Hs & Hch & Er & Em) El].
  eapply (wp_operation _ _ _ _ _ _ _ _ _ _ _ _ PMaxReduction C); [done|done|]. intros d e s' x' C' Aw. eapply (H d e s' x' n); try done; [by right|].
  change (3 * (cols w - b) - 2 + exp_work w < row_work w x)%nat. unfold row_work. rewrite Ek. destruct Hch. lia.
Qed.
Lemma wp_reduction : pendingHardwareCompletionKind x = MaxReductionDone -> moves Q s0 key w i row (Some (pendingLocalTag x)) on n o raw false (row_work w x) log ->
  wp (handle MaxReductionDone) Q log s.
Proof.
  intros Ek H. destruct Hat as [Hc Ha]. rewrite Ek in Ha. destruct Ha as [(Hs & Hch & Er & Em) El]. pose proof (length_scores w row raw) as Ls.
  cbn [handle_row_event]. apply wp_bind. eapply wp_put_context; [exact C|]. intros s1 C1. change (localTileMode (put w i x)) with (localTileMode w).
  unfold max_reduced, keep_lanes in C1. change (localTileMode (put w i x)) with (localTileMode w) in C1. rewrite (st_local _ St) in *.
  rewrite andb_false_r. destruct Hch as [[q Eq] Hlt]. eapply (wp_advance_max C1 St); try done.
  - rewrite <- Hr. by split; [exists q|].
  - change (length (laneValues x) = Nat.min vectorLanes (cols w - b)). rewrite El. apply chunk_length. by rewrite Ls.
  - change (splice (chunkBegin x) (laneValues x) (residentValues x) = take (b + vectorLanes) (scores w row raw) ++ drop (b + vectorLanes) raw).
    unfold splice. rewrite El, Er. apply inserts_prefix; lia.
  - change (f_max (rowMax x) (max_element (laneValues x)) = row_max vectorLanes (take (b + vectorLanes) (scores w row raw))).
    rewrite take_chunk, (row_max_chunk _ q); [by rewrite Em, El|by destruct lanes_pos|rewrite length_take; lia|rewrite length_take; lia|].
    apply chunk_nonempty; [by destruct lanes_pos|lia].
  - change (3 * (cols w - b) - 3 + exp_work w < row_work w x)%nat. unfold row_work. rewrite Ek. lia.
Qed.

Lemma wp_exp : pendingHardwareCompletionKind x = ResourceDone -> stage x = ExpSum -> moves Q s0 key w i row (Some (pendingLocalTag x)) on n o raw false (row_work w x) log ->
  wp (handle ResourceDone) Q log s.
Proof.
  intros Ek Hs H. destruct Hat as [Hc Ha]. rewrite Ek in Ha. destruct Ha as [[(_ & Hch & Er & Em & Es) El]|[Hs' _]]; [|by rewrite Hs in Hs'].
  pose proof (length_scores w row raw) as Ls. destruct (Hch) as [_ Hlt].
  assert ((len (laneValues x) =? 0) = false) as E0.
  { apply Z.eqb_neq. intros E. assert (laneValues x = []) as E' by (apply length_zero_iff_nil; unfold len in E; lia).
    rewrite El in E'. revert E'. apply chunk_nonempty; [by destruct lanes_pos|lia]. }
  eapply (wp_cast _ _ (put_context key (put w i x) i (x <| laneValues := exp_lanes (rowMax x) (laneValues x) |>) ;; scheduleTensorHardwareOperation c now key i SumReductionDone)%sched);
    [unfold handle_row_event; by rewrite E0, Hs|].
  apply wp_bind. eapply wp_put_context; [exact C|]. intros s1 C1.
  eapply (wp_operation _ _ _ _ _ _ _ _ _ _ _ _ PSumReduction C1); [done|done|]. intros d e s' x' C' Aw. eapply (H d e s' x' n); try done; [by right| |].
  2: { change (2 * (cols w - b) - 1 + (cols w + 6) < row_work w x)%nat. unfold row_work. rewrite Ek, Hs. lia. }
  split; [done|]. split; [done|]. change (exp_lanes (rowMax x) (laneValues x) = take expLanes (drop b (exps w row raw))).
  rewrite El, Em. unfold exps, exp_lanes. by rewrite skipn_map, firstn_map.
Qed.
Lemma wp_sum : pendingHardwareCompletionKind x = SumReductionDone -> moves Q s0 key w i row (Some (pendingLocalTag x)) on n o raw false (row_work w x) log ->
  wp (handle SumReductionDone) Q log s.
Proof.
  intros Ek H. destruct Hat as [Hc Ha]. rewrite Ek in Ha. destruct Ha as [(Hs & Hch & Er & Em & Es) El].
  pose proof (length_scores w row raw) as Ls. pose proof (length_exps w row raw) as Le.
  cbn [handle_row_event]. apply wp_bind. eapply wp_put_context; [exact C|]. intros s1 C1. change (localTileMode (put w i x)) with (localTileMode w).
  unfold sum_reduced, keep_lanes in C1. change (localTileMode (put w i x)) with (localTileMode w) in C1. rewrite (st_local _ St) in *.
  destruct (Hch) as [_ Hlt]. eapply (wp_advance_exp C1 St); try done.
  - by rewrite <- Hr.
  - change (length (laneValues x) = Nat.min expLanes (cols w - b)). rewrite El. apply chunk_length. by rewrite Le.
  - change (splice (chunkBegin x) (laneValues x) (residentValues x) = take (b + expLanes) (exps w row raw) ++ drop (b + expLanes) (scores w row raw)).
    unfold splice. rewrite El, Er. apply inserts_prefix; lia.
  - change (sum_lanes (laneValues x) (rowSum x) = sum_lanes (take (b + expLanes) (exps w row raw)) double_zero).
    by rewrite take_chunk, sum_lanes_app, El, Es.
  - change (2 * (cols w - b) - 2 + (cols w + 6) < row_work w x)%nat. unfold row_work. rewrite Ek. lia.
Qed.

(** *** The online update *)

Abbreviation job := (attentionJobId w).
Lemma onlineRow_cur e : on !! (job, row) = Some e -> onlineRow (put w i x) x s = Some e.
Proof. intros H. unfold onlineRow. by rewrite (cur_online _ _ _ _ _ _ _ _ C). Qed.

Section Online.
Hypothesis Ho : on !! (job, row) = Some (online_entry job row o).

Lemma wp_online_max : pendingHardwareCompletionKind x = OnlineMaxDone -> moves Q s0 key w i row (Some (pendingLocalTag x)) on n o raw false (row_work w x) log ->
  wp (handle OnlineMaxDone) Q log s.
Proof.
  intros Ek H. destruct Hat as [Hc Ha]. rewrite Ek in Ha. destruct Ha as (Hs & Er & Em & Es).
  eapply (wp_cast _ _ (put_context key (put w i x) i (x <| pendingMNew := d_max (on_m o) (to_d (rowMax x)) |>) ;; scheduleTensorHardwareOperation c now key i OnlineExpDone)%sched).
  { unfold handle_row_event. rewrite (onlineRow_cur _ Ho). unfold online_entry. cbn [o_valid o_jobId o_globalRow o_state].
    change (attentionJobId (put w i x)) with job. by rewrite !Z.eqb_refl. }
  apply wp_bind. eapply wp_put_context; [exact C|]. intros s1 C1.
  eapply (wp_operation _ _ _ _ _ _ _ _ _ _ _ _ POnlineExp C1); [done|done|]. intros d e s' x' C' Aw. eapply (H d e s' x' n); try done; [by right| |].
  2: { change (cols w + 4 < row_work w x)%nat. unfold row_work. rewrite Ek. lia. }
  split; [done|]. split; [done|]. change (d_max (on_m o) (to_d (rowMax x)) = newMax w row o raw). by rewrite Em.
Qed.

Lemma wp_online_exp : pendingHardwareCompletionKind x = OnlineExpDone -> moves Q s0 key w i row (Some (pendingLocalTag x)) on n o raw false (row_work w x) log ->
  wp (handle OnlineExpDone) Q log s.
Proof.
  intros Ek H. destruct Hat as [Hc Ha]. rewrite Ek in Ha. destruct Ha as ((Hs & Er & Em & Es) & Emn).
  eapply (wp_cast _ _ (put_context key (put w i x) i (x <| pendingAlpha := alpha_of o (pendingMNew x) |> <| pendingBeta := beta_of (rowMax x) (pendingMNew x) |>) ;;
    scheduleTensorHardwareOperation c now key i OnlineMulDone)%sched).
  { unfold handle_row_event. by rewrite (onlineRow_cur _ Ho). }
  apply wp_bind. eapply wp_put_context; [exact C|]. intros s1 C1.
  eapply (wp_operation _ _ _ _ _ _ _ _ _ _ _ _ POnlineMul C1); [done|done|]. intros d e s' x' C' Aw. eapply (H d e s' x' n); try done; [by right| |].
  2: { change (cols w + 3 < row_work w x)%nat. unfold row_work. rewrite Ek. lia. }
  split; [done|]. split; [done|]. split; [done|]. split.
  - change (alpha_of o (pendingMNew x) = alpha w row o raw). by rewrite Emn.
  - change (beta_of (rowMax x) (pendingMNew x) = beta w row o raw). by rewrite Emn, Em.
Qed.

Lemma wp_online_mul : pendingHardwareCompletionKind x = OnlineMulDone -> moves Q s0 key w i row (Some (pendingLocalTag x)) on n o raw false (row_work w x) log ->
  wp (handle OnlineMulDone) Q log s.
Proof.
  intros Ek H. destruct Hat as [Hc Ha]. rewrite Ek in Ha. destruct Ha as ((Hs & Er & Em & Es) & Emn & Ea & Eb).
  eapply (wp_cast _ _ (put_context key (put w i x) i (x <| pendingOldTerm := d_mul (on_l o) (pendingAlpha x) |> <| pendingTileTerm := d_mul (rowSum x) (pendingBeta x) |>) ;;
    scheduleTensorHardwareOperation c now key i OnlineAddDone)%sched).
  { unfold handle_row_event. by rewrite (onlineRow_cur _ Ho). }
  apply wp_bind. eapply wp_put_context; [exact C|]. intros s1 C1.
  eapply (wp_operation _ _ _ _ _ _ _ _ _ _ _ _ POnlineAdd C1); [done|done|]. intros d e s' x' C' Aw. eapply (H d e s' x' n); try done; [by right| |].
  2: { change (cols w + 2 < row_work w x)%nat. unfold row_work. rewrite Ek. lia. }
  split; [done|]. split; [done|]. split; [done|]. split; [done|]. split; [done|]. split.
  - change (d_mul (on_l o) (pendingAlpha x) = oldTerm w row o raw). by rewrite Ea.
  - change (d_mul (rowSum x) (pendingBeta x) = tileTerm w row o raw). by rewrite Es, Eb.
Qed.

(** The sum is checked here: the online state is replaced, or the tile fails. *)
Lemma wp_online_add : pendingHardwareCompletionKind x = OnlineAddDone ->
  (sum_ok (newSum w row o raw) = true ->
     moves Q s0 key w i row (Some (pendingLocalTag x)) (<[(job, row) := online_entry job row (mkOnline (newMax w row o raw) (newSum w row o raw))]> on) n o raw true (row_work w x) log) ->
  (sum_ok (newSum w row o raw) = false ->
     forall x' s', cur s0 key w i x' on n s' -> wp (finishTensorWorker c now key false) Q log s') ->
  wp (handle OnlineAddDone) Q log s.
Proof.
  intros Ek H Hfail. destruct Hat as [Hc Ha]. rewrite Ek in Ha. destruct Ha as ((Hs & Er & Em & Es) & Emn & Ea & Eb & Eo & Et).
  set (x1 := x <| pendingLNew := newSum w row o raw |>).
  assert (x <| pendingLNew := d_add (pendingOldTerm x) (pendingTileTerm x) |> = x1) as Ex by (rewrite Eo, Et; done).
  eapply (wp_cast _ _ (put_context key (put w i x) i x1 ;;
    if negb (sum_ok (pendingLNew x1)) then finishTensorWorker c now key false
    else
      update (fun s => s <| attentionOnlineContexts_ := <[(job, row) := online_entry job row (mkOnline (pendingMNew x) (pendingLNew x1))]> (attentionOnlineContexts_ s) |>) ;;
      if final_tile w then scheduleTensorHardwareOperation c now key i ReciprocalDone
      else
        put_context key (put w i x) i (x1 <| oldOutputScale := to_f (pendingAlpha x) |> <| tileWeightScale := to_f (pendingBeta x) |>) ;;
        beginTensorRowStage c accepts now key i Normalize)%sched).
  { unfold handle_row_event. rewrite (onlineRow_cur _ Ho). cbv zeta. by rewrite Ex. }
  apply wp_bind. eapply wp_put_context; [exact C|]. intros s1 C1. change (pendingLNew x1) with (newSum w row o raw).
  destruct (sum_ok (newSum w row o raw)) eqn:Eok; cbn [negb]; [|by eapply Hfail].
  apply wp_bind. eapply wp_online; [exact C1|]. intros s2 C2. rewrite Emn in C2.
  destruct (final_tile w) eqn:Ef.
  - eapply (wp_operation _ _ _ _ _ _ _ _ _ _ _ _ PReciprocal C2); [done|done|]. intros d e s' x' C' Aw. eapply (H eq_refl d e s' x' n); try done; [by right| |].
    + intros _ Hs'. change (stage x = Normalize) in Hs'. congruence.
    + change (cols w + 1 < row_work w x)%nat. unfold row_work. rewrite Ek. lia.
  - apply wp_bind. eapply wp_put; [exact C2|apply context_put_put|done|]. intros s3 C3. eapply (wp_begin_normalize C3 St) with (m := row_work w x); try done.
    + change (to_f (pendingAlpha x) = oldScale w row o raw). rewrite Ea. unfold oldScale, scale_of. by rewrite Ef.
    + change (to_f (pendingBeta x) = weightScale w row o raw). rewrite Eb. unfold weightScale, scale_of. by rewrite Ef.
    + unfold row_work. rewrite Ek. lia.
    + by apply H.
Qed.
End Online.

Lemma wp_reciprocal : pendingHardwareCompletionKind x = ReciprocalDone -> moves Q s0 key w i row (Some (pendingLocalTag x)) on n o raw true (row_work w x) log ->
  wp (handle ReciprocalDone) Q log s.
Proof.
  intros Ek H. destruct Hat as [Hc Ha]. rewrite Ek in Ha. destruct Ha as ((Hs & Er & Em & Es) & Ea & Eb & El & Eok & Ef).
  cbn [handle_row_event]. apply wp_bind. eapply wp_put_context; [exact C|]. intros s1 C1. unfold reciprocal in C1.
  change (localTileMode (put w i x)) with (localTileMode w) in C1. rewrite (st_local _ St) in C1. eapply (wp_begin_normalize C1 St) with (m := row_work w x); try done.
  - change (to_f (d_mul (pendingAlpha x) (d_div double_one (pendingLNew x))) = oldScale w row o raw). unfold oldScale, scale_of. by rewrite Ef, Ea, El.
  - change (to_f (d_mul (pendingBeta x) (d_div double_one (pendingLNew x))) = weightScale w row o raw). unfold weightScale, scale_of. by rewrite Ef, Eb, El.
  - unfold row_work. rewrite Ek. lia.
Qed.

(** *** Weights *)

Lemma wp_normalize : pendingHardwareCompletionKind x = ResourceDone -> stage x = Normalize -> row_ok w x ->
  length (tilePValues w) = (Z.to_nat (expectedRows (dispatch w)) * cols w)%nat ->
  (forall v, (b + length v <= cols w)%nat ->
     let w' := w <| tilePValues := list_inserts (row_begin w x + b) v (tilePValues w) |> in
     moves Q s0 key w' i row (Some (pendingLocalTag x)) on n o raw true (row_work w x) log /\
     (take (cols w) (drop (row_begin w x) (tilePValues w')) = weights w row o raw ->
        sum_ok (newSum w row o raw) = true ->
        forall x' s', cur s0 key w' i x' on n s' -> x_row x' = row -> oldOutputScale x' = oldScale w row o raw ->
          wp (completeTensorRow c exp32 exp64 accepts now key i) Q log s')) ->
  wp (handle ResourceDone) Q log s.
Proof.
  intros Ek Hs Hrow Hp H. assert (updated x = true) as Hu by (unfold updated; by rewrite Ek, Hs). specialize (Hwr Hu Hs).
  destruct Hat as [Hc Ha]. rewrite Ek in Ha. destruct Ha as [[[Hs' _] _]|(_ & Hch & El & Er & Eok & Eos & Eis)]; [by rewrite Hs in Hs'|].
  pose proof (length_exps w row raw) as Le. pose proof (length_weights w row o raw) as Lw. destruct (Hch) as [_ Hlt].
  set (v := take vectorLanes (drop b (weights w row o raw))).
  assert (scale_lanes (invSum x) (laneValues x) = v) as Ev.
  { unfold v. rewrite El, Eis. unfold weights, scale_lanes. by rewrite skipn_map, firstn_map. }
  assert (length v = Nat.min vectorLanes (cols w - b)) as Lv by (apply chunk_length; lia).
  pose proof (row_begin_bound w x Hrow) as Hrb.
  set (x1 := x <| laneValues := v |>).
  eapply (wp_cast _ _ (put_context key (put w i x) i x1 ;; issueTensorLocalWrite c exp32 exp64 accepts now key i)%sched).
  { unfold handle_row_event. rewrite Hs, Ev. assert ((len (laneValues x) =? 0) = false) as ->; [|done].
    apply Z.eqb_neq. unfold len. rewrite El, (chunk_length _ (cols w)) by lia. pose proof lanes_pos. lia. }
  apply wp_bind. eapply wp_put_context; [exact C|]. intros s1 C1.
  eapply wp_context; [exact C1|]. cbv zeta. change (tileStreamActive (put w i x1)) with (tileStreamActive w).
  change (stage x1) with (stage x). change (dispatch (put w i x1)) with (dispatch w). change (tilePValues (put w i x1)) with (tilePValues w).
  change (row_index (put w i x1) x1) with (row_index w x). change (chunkBegin x1) with (chunkBegin x). change (laneValues x1) with v.
  rewrite (st_stream _ St), bool_decide_true by done. cbn [andb].
  assert (0 <= chunkBegin x < expectedCols (dispatch w)) as Hcb by (unfold cols in *; lia).
  rewrite (row_chunk_eq w x St Hrow Hcb).
  assert ((len (tilePValues w) <? Z.of_nat (row_begin w x + b) ⊞ len v) = false) as ->.
  { apply Z.ltb_ge. unfold len. rewrite Hp, Lv. destruct St as [_ _ _ Hcc]. destruct Hrow as (R1 & R2 & R3 & R4).
    unfold row_begin, cols in *. rewrite u64_small by (unfold is_u64; nia). nia. }
  destruct (H v) as [Hm Hend]; [lia|]. set (w' := w <| tilePValues := list_inserts (row_begin w x + b) v (tilePValues w) |>) in *.
  apply wp_bind. eapply (wp_put _ _ _ _ _ w' _ _ x1); [exact C1|unfold splice; rewrite Nat2Z.id; done|done|]. intros s2 C2.
  eapply (wp_advance_normalize (w := w') C2); try done.
  - by destruct St.
  - change (at_chunk vectorLanes (cols w) b). by rewrite <- Hr.
  - change (take (b + vectorLanes) (take (cols w) (drop (row_begin w x) (tilePValues w'))) = take (b + vectorLanes) (weights w row o raw)).
    apply part_fill; try done; [lia|lia|lia].
  - change (cols w - b - 1 < row_work w x)%nat. unfold row_work. rewrite Ek, Hs. lia.
  - intros Ew s' C'. by eapply Hend.
Qed.

(** *** Any event *)

Lemma weighted_nil : weighted w x [] = w.
Proof. unfold weighted. cbn. by destruct w. Qed.

Lemma wp_event e : row_ok w x -> length (tilePValues w) = (Z.to_nat (expectedRows (dispatch w)) * cols w)%nat ->
  on !! (job, row) = Some (online_entry job row (online_now w row o raw (updated x))) -> awaits key i x e ->
  (forall v u on', may_write w x v -> on' !! (job, row) = Some (online_entry job row (online_now w row o raw u)) -> (forall k, k <> (job, row) -> on' !! k = on !! k) ->
     moves Q s0 key (weighted w x v) i row (Some (pendingLocalTag x)) on' n o raw u (if decide (e_kind e = HardwareRetry) then S (row_work w x) else row_work w x) log) ->
  (sum_ok (newSum w row o raw) = false -> forall x' s', cur s0 key w i x' on n s' -> wp (finishTensorWorker c now key false) Q log s') ->
  (forall v, may_write w x v -> take (cols w) (drop (row_begin w x) (tilePValues (weighted w x v))) = weights w row o raw ->
     sum_ok (newSum w row o raw) = true -> updated x = true -> e_kind e <> HardwareRetry ->
     forall x' s', cur s0 key (weighted w x v) i x' on n s' -> x_row x' = row -> oldOutputScale x' = oldScale w row o raw ->
       wp (completeTensorRow c exp32 exp64 accepts now key i) Q log s') ->
  wp (handle (e_kind e)) Q log s.
Proof.
  intros Hrow Hp Ho (kind & -> & Hk) H Hfail Hend. cbn [e_kind] in *.
  assert (forall u on', on' !! (job, row) = Some (online_entry job row (online_now w row o raw u)) -> (forall k, k <> (job, row) -> on' !! k = on !! k) ->
    moves Q s0 key w i row (Some (pendingLocalTag x)) on' n o raw u (if decide (kind = HardwareRetry) then S (row_work w x) else row_work w x) log) as H0.
  { intros u on' H1 H2. rewrite <- weighted_nil. apply H; try done. by left. }
  destruct Hk as [->| ->]; [|rewrite decide_True in H0 by done; apply wp_retry, H0; done].
  assert (pendingHardwareCompletionKind x <> HardwareRetry) as Hne by (destruct Hat as [_ Ha]; intros E; by rewrite E in Ha).
  rewrite decide_False in * by done.
  assert (updated x = false -> moves Q s0 key w i row (Some (pendingLocalTag x)) on n o raw false (row_work w x) log) as H1.
  { intros Hu. apply H0; [|done]. by rewrite Hu in Ho. }
  assert (updated x = false -> on !! (job, row) = Some (online_entry job row o)) as Ho'.
  { intros Hu. by rewrite Hu in Ho. }
  assert (updated x = match pendingHardwareCompletionKind x, stage x with ReciprocalDone, _ => true | ResourceDone, Normalize => true | _, _ => false end) as Eu by done.
  destruct (pendingHardwareCompletionKind x) eqn:Ek; try (by destruct Hat as [_ Ha]; rewrite Ek in Ha).
  - destruct (stage x) eqn:Hs; [|by apply wp_exp; auto|].
    + exfalso. destruct Hat as [_ Ha]. rewrite Ek, Hs in Ha. by destruct Ha as [[[? _] _]|[? _]].
    + apply wp_normalize; try done. intros v Hv. assert (may_write w x v) as Hmw by (right; auto). split.
      * apply H; [done| |done]. by rewrite Eu in Ho.
      * intros. by eapply Hend.
  - apply wp_scale; auto.
  - apply wp_compare; auto.
  - apply wp_reduction; auto.
  - apply wp_sum; auto.
  - apply wp_online_max; auto.
  - apply wp_online_exp; auto.
  - apply wp_online_mul; auto.
  - apply wp_online_add; auto. intros _. apply H0; [by rewrite lookup_insert_eq|]. intros k Hk. by rewrite lookup_insert_ne.
  - apply wp_reciprocal; [done|]. apply H0; [|done]. by rewrite Eu in Ho.
Qed.
End Events.
End Rows.
