(* ===== verification/SfuTiles.v ===== *)
(** * Streamed tiles

    The row engine of [Sfu] on tiles that are streamed through it, any number at
    once: events and answers of the memory arrive in any order.  The invariant
    [tile_inv] follows a tile from its start to its callback. *)

From S2P Require Import Prelude Telemetry Float32 Cluster ScoreFifo Effects Softmax Sfu SfuRows.
#[local] Open Scope Z_scope.
#[local] Open Scope mach_scope.
Import Sfu.

(** ** Sums *)

Definition list_sum {A} (f : A -> nat) (l : list A) : nat := foldr (fun x n => f x + n)%nat 0%nat l.
Lemma list_sum_app {A} (f : A -> nat) l l' : list_sum f (l ++ l') = (list_sum f l + list_sum f l')%nat.
Proof. unfold list_sum. induction l as [|x l IH]; cbn; [done|]. rewrite IH. lia. Qed.
Lemma list_sum_insert {A} (f : A -> nat) l i x x' : l !! i = Some x ->
  (list_sum f (<[i := x']> l) + f x = list_sum f l + f x')%nat.
Proof.
  revert i. unfold list_sum. induction l as [|y l IH]; intros [|i] H; try done.
  - injection H as ->. cbn. lia.
  - change (<[S i := x']> (y :: l)) with (y :: <[i := x']> l). cbn [foldr]. specialize (IH i H). lia.
Qed.

Section Tiles.
Variable c : Config.
Variable exp32 exp64 : float -> float.
Variable accepts : Z -> bool.
#[local] Hint Extern 0 (Arith _ _) => exact (numbers exp32 exp64) : typeclass_instances.
Abbreviation M := (Effects.M t effect).
Abbreviation wp := (Effects.wp False).
Implicit Types Q : unit -> list effect -> t -> Prop.

Hypothesis lanes_pos : (0 < vectorLanes c)%nat /\ (0 < expLanes c)%nat.

(** ** Activity *)

(** The tracker counts the tiles. *)
Definition activity_ok (now : Z) (a : BusyActivityTracker.t) (n : nat) : Prop :=
  attentionClusterEnable_ c = true ->
  BusyActivityTracker.active_ a = Z.of_nat n /\ BusyActivityTracker.lastEventCycle_ a <= now /\ Z.of_nat n < 2 ^ 64.

Lemma activity_leave now a n : attentionClusterEnable_ c = true -> activity_ok now a (S n) ->
  exists a', BusyActivityTracker.leave now a = (true, a') /\ activity_ok now a' n.
Proof.
  intros En H. destruct (H En) as (Ha & Hl & Hn). unfold BusyActivityTracker.leave.
  assert ((BusyActivityTracker.active_ a =? 0) = false) as -> by (apply Z.eqb_neq; lia).
  assert ((now <? BusyActivityTracker.lastEventCycle_ a) = false) as -> by (apply Z.ltb_ge; lia). rewrite andb_false_r. cbn [orb].
  eexists. split; [reflexivity|]. intros _. cbv zeta.
  assert (forall z, u64 (BusyActivityTracker.active_ a - 1) = z -> z = Z.of_nat n) as X by (intros z <-; rewrite u64_small by (unfold is_u64; lia); lia).
  case_match; cbn; rewrite (X _ eq_refl); lia.
Qed.
Lemma activity_enter now a n : attentionClusterEnable_ c = true -> activity_ok now a n -> Z.of_nat n + 1 < 2 ^ 64 ->
  exists a', BusyActivityTracker.enter now a = (true, a') /\ activity_ok now a' (S n).
Proof.
  intros En H Hn'. destruct (H En) as (Ha & Hl & Hn). unfold BusyActivityTracker.enter.
  assert ((now <? BusyActivityTracker.lastEventCycle_ a) = false) as -> by (apply Z.ltb_ge; lia). rewrite andb_false_r.
  eexists. split; [reflexivity|]. intros _. cbv zeta.
  assert (u64 (BusyActivityTracker.active_ a + 1) = Z.of_nat (S n)) as X by (rewrite u64_small by (unfold is_u64; lia); lia).
  repeat case_match; cbn; rewrite X; lia.
Qed.

Lemma wp_finish Q key w ok now log s : tensorWorkerOps_ s !! key = Some w -> localTileMode w = true ->
  activity_ok now (attentionClusterSfuActivity_ s) (base.size (tensorWorkerOps_ s)) ->
  (forall s', tensorWorkerOps_ s' = delete key (tensorWorkerOps_ s) ->
     attentionOnlineContexts_ s' =
       (if final_tile w then filter (fun e => of_rows (attentionJobId w) (d_row (dispatch w)) (expectedRows (dispatch w)) (snd e) = false)
                               (attentionOnlineContexts_ s)
        else attentionOnlineContexts_ s) ->
     nextTensorLocalTag_ s' = nextTensorLocalTag_ s ->
     activity_ok now (attentionClusterSfuActivity_ s') (base.size (tensorWorkerOps_ s')) ->
     Q tt (log ++ [TileDone key ok (attentionResult w)]) s') ->
  wp (finishTensorWorker c now key ok) Q log s.
Proof.
  intros Hw Hl Ha H. assert (base.size (tensorWorkerOps_ s) = S (base.size (delete key (tensorWorkerOps_ s)))) as Hsz.
  { rewrite map_size_delete, Hw. assert (base.size (tensorWorkerOps_ s) <> 0%nat); [|lia]. intros E. apply map_size_empty_inv in E. by rewrite E, lookup_empty in Hw. }
  rewrite Hsz in Ha. unfold finishTensorWorker, with_worker. unfold Effects.wp. rewrite Hw, Hl, andb_true_r.
  set (sn := base.size _) in *.
  destruct (attentionClusterEnable_ c) eqn:En.
  - destruct (activity_leave now _ _ En Ha) as (a' & Ea & Ha'). unfold bind, leave_activity. rewrite Ea. destruct (final_tile w); cbn; by apply H.
  - assert (activity_ok now (attentionClusterSfuActivity_ s) sn) as Ha' by (intros E; by rewrite En in E).
    unfold bind. destruct (final_tile w); cbn; by apply H.
Qed.

(** ** The rows of a tile *)

Definition row_no (w : Worker) (row : Z) : nat := Z.to_nat (row - d_row (dispatch w)).
Definition tile_rows (w : Worker) : nat := Z.to_nat (expectedRows (dispatch w)).
Definition in_tile (w : Worker) (row : Z) : Prop := d_row (dispatch w) <= row < d_row (dispatch w) + expectedRows (dispatch w).
(** The part of a row in the values of a tile. *)
Definition row_part (w : Worker) (row : Z) (l : list float) : list float := take (cols w) (drop (row_no w row * cols w) l).

(** What the reference makes of a row; [before] are the online states that the
    tile has found. *)
Definition outcome (w : Worker) (before : Z -> option (Online double)) (row : Z) : option (RowResult float double) :=
  match before row with Some o => row_result c exp32 exp64 w row o (row_part w row (tileScoreValues w)) | None => None end.

Record tile_ok (key : Key) (w : Worker) : Prop := {
  tk_streamed : streamed w;
  tk_rows : 0 < expectedRows (dispatch w) <= 64;
  tk_begin : 0 <= d_row (dispatch w);
  tk_end : d_row (dispatch w) + expectedRows (dispatch w) < 2 ^ 32;
  tk_contexts : (0 < length (contexts w) <= 64)%nat;
  tk_scores : length (tileScoreValues w) = (tile_rows w * cols w)%nat;
  tk_weights : length (tilePValues w) = (tile_rows w * cols w)%nat;
  tk_scales : length (oldOutputScales (attentionResult w)) = 64%nat;
  tk_generation : w_generation w = key_generation key
}.

Lemma tile_ok_same key w w' : tile_ok key w -> dispatch w' = dispatch w -> localTileMode w' = localTileMode w ->
  tileStreamActive w' = tileStreamActive w -> directScoreMode w' = directScoreMode w -> length (contexts w') = length (contexts w) ->
  length (tileScoreValues w') = length (tileScoreValues w) -> length (tilePValues w') = length (tilePValues w) ->
  length (oldOutputScales (attentionResult w')) = length (oldOutputScales (attentionResult w)) -> w_generation w' = w_generation w -> tile_ok key w'.
Proof.
  intros [[A1 A2 A3 A4] A5 A6 A7 A8 A9 A10 A11 A12] E1 E2 E3 E4 E5 E6 E7 E8 E9.
  constructor; [constructor|..]; unfold tile_rows, cols in *; rewrite ?E1, ?E2, ?E3, ?E4, ?E5, ?E6, ?E7, ?E8, ?E9; done.
Qed.

Abbreviation online_map := (gmap (Z * Z) OnlineRow).

(** A row that has no context yet. *)
Definition row_waits (w : Worker) (before : Z -> option (Online double)) (on : online_map) (row : Z) : Prop :=
  match before row with
  | Some o => if attentionKvTileIndex w =? 0 then o = fresh_online else on !! (attentionJobId w, row) = Some (online_entry (attentionJobId w) row o)
  | None => attentionKvTileIndex w <> 0 /\ forall e, on !! (attentionJobId w, row) = Some e -> o_valid e = false
  end.
(** A row in a context. *)
Definition row_runs (w : Worker) (before : Z -> option (Online double)) (on : online_map) (x : Context) : Prop :=
  in_tile w (x_row x) /\ x_row x < nextRow w /\
  exists o, before (x_row x) = Some o /\
    let raw := row_part w (x_row x) (tileScoreValues w) in
    row_at c exp32 exp64 w o raw x /\ written c exp32 exp64 w o raw x /\
    on !! (attentionJobId w, x_row x) =
      Some (online_entry (attentionJobId w) (x_row x) (online_now c exp32 exp64 w (x_row x) o raw (updated x))).
(** A row that is done. *)
Definition row_done (w : Worker) (before : Z -> option (Online double)) (on : online_map) (row : Z) : Prop :=
  exists res, outcome w before row = Some res /\
    oldOutputScales (attentionResult w) !! row_no w row = Some (r_oldScale res) /\
    row_part w row (tilePValues w) = r_weights res /\
    on !! (attentionJobId w, row) = Some (online_entry (attentionJobId w) row (r_online res)).

Definition busy_contexts (w : Worker) : list Context := filter (fun x => busy x = true) (contexts w).

Record rows_inv (w : Worker) (before : Z -> option (Online double)) (on : online_map) : Prop := {
  ri_next : d_row (dispatch w) <= nextRow w <= d_row (dispatch w) + expectedRows (dispatch w);
  ri_runs : forall i x, contexts w !! i = Some x -> busy x = true -> row_runs w before on x;
  ri_unique : forall i j x y, contexts w !! i = Some x -> contexts w !! j = Some y -> busy x = true -> busy y = true ->
    x_row x = x_row y -> i = j;
  ri_started : forall row, d_row (dispatch w) <= row < nextRow w ->
    row_done w before on row \/ exists i x, contexts w !! i = Some x /\ busy x = true /\ x_row x = row;
  ri_waits : forall row, nextRow w <= row < d_row (dispatch w) + expectedRows (dispatch w) -> row_waits w before on row;
  ri_count : 0 <= rowsCompleted w /\ rowsCompleted w + Z.of_nat (length (busy_contexts w)) = nextRow w - d_row (dispatch w)
}.

(** What stays as it is while the rows of a tile are under way. *)
Definition static (w : Worker) : Dispatch * Z * Z * Z * Z * list float :=
  (dispatch w, attentionJobId w, attentionKvTileIndex w, attentionNumKvTiles w, attentionKeyBegin w, tileScoreValues w).
Lemma static_eq (w w' : Worker) : static w = static w' ->
  dispatch w = dispatch w' /\ attentionJobId w = attentionJobId w' /\ attentionKvTileIndex w = attentionKvTileIndex w' /\
  tileScoreValues w = tileScoreValues w' /\ row_at c exp32 exp64 w = row_at c exp32 exp64 w' /\
  weights c exp32 exp64 w = weights c exp32 exp64 w' /\
  online_now c exp32 exp64 w = online_now c exp32 exp64 w' /\ outcome w = outcome w'.
Proof.
  unfold static. destruct w as [d1 a1 b1 c1 e1 f1 g1 h1 i1 j1 k1 l1 m1 n1 o1 p1 q1 r1 s1 t1 u1 v1 w1].
  destruct w' as [d2 a2 b2 c2 e2 f2 g2 h2 i2 j2 k2 l2 m2 n2 o2 p2 q2 r2 s2 t2 u2 v2 w2]. cbn. intros E. injection E as -> -> -> -> -> ->. by split_and!.
Qed.
Definition same_row (w w' : Worker) (on on' : online_map) (row : Z) : Prop :=
  on' !! (attentionJobId w, row) = on !! (attentionJobId w, row) /\
  row_part w row (tilePValues w') = row_part w row (tilePValues w) /\
  oldOutputScales (attentionResult w') !! row_no w row = oldOutputScales (attentionResult w) !! row_no w row.

Lemma row_begin_no w x : row_begin w x = (row_no w (x_row x) * cols w)%nat.
Proof. done. Qed.

Lemma row_at_normalize w o raw x : row_at c exp32 exp64 w o raw x -> updated x = true -> stage x = Normalize ->
  (Z.to_nat (chunkBegin x) < length raw)%nat.
Proof.
  intros [_ H] Hu Hs. unfold updated in Hu. rewrite Hs in *. destruct (pendingHardwareCompletionKind x); try done.
  - by destruct H as [[[? _] _]|(_ & [_ ?] & _)].
  - by destruct H as [[? _] _].
Qed.

(** Other rows do not notice. *)
Section Same.
Variables (w w' : Worker) (before : Z -> option (Online double)) (on on' : online_map).
Hypothesis E : static w = static w'.
Lemma row_done_same row : same_row w w' on on' row -> row_done w before on row -> row_done w' before on' row.
Proof.
  destruct (static_eq w w' E) as (Ed & Ej & Ek & Es & _ & _ & _ & Eo). unfold row_done, same_row, row_part, row_no, cols. rewrite <- Ed, <- Ej, <- Eo.
  intros (-> & -> & ->). done.
Qed.
Lemma row_waits_same row : on' !! (attentionJobId w, row) = on !! (attentionJobId w, row) -> row_waits w before on row -> row_waits w' before on' row.
Proof.
  destruct (static_eq w w' E) as (Ed & Ej & Ek & _). unfold row_waits. rewrite <- Ej, <- Ek. by intros ->.
Qed.
Lemma row_runs_same x : nextRow w <= nextRow w' ->
  same_row w w' on on' (x_row x) -> row_runs w before on x -> row_runs w' before on' x.
Proof.
  destruct (static_eq w w' E) as (Ed & Ej & Ek & Es & Er & Ew & En & Eo). intros Hn (S1 & S2 & S3) (R1 & R2 & o & R3 & R4 & R5 & R6).
  unfold row_runs. split_and!; [unfold in_tile in *; by rewrite <- Ed|lia|]. exists o. unfold row_part, row_no, cols in *. rewrite <- Ed, <- Es, <- Er, <- En, <- Ej.
  split_and!; [done|done| |by rewrite S1]. intros Hu Hs. specialize (R5 Hu Hs). rewrite <- Ew. rewrite <- R5.
  pose proof (row_at_normalize _ _ _ _ R4 Hu Hs) as Hc. rewrite length_take in Hc.
  unfold row_begin, cols in *. rewrite <- Ed. apply (f_equal (take (Z.to_nat (chunkBegin x)))) in S2. rewrite !take_take, !Nat.min_l in S2 by lia. done.
Qed.
End Same.

Lemma busy_insert (l : list Context) i x x' : l !! i = Some x ->
  (length (filter (fun x => busy x = true) (<[i := x']> l)) + Nat.b2n (busy x) = length (filter (fun x => busy x = true) l) + Nat.b2n (busy x'))%nat.
Proof.
  revert i. induction l as [|y l IH]; intros [|i] H; try done.
  - injection H as ->. cbn [insert list_insert]. rewrite !filter_cons. destruct (busy x), (busy x'); repeat case_decide; try done; cbn; lia.
  - change (<[S i := x']> (y :: l)) with (y :: <[i := x']> l). rewrite !filter_cons. specialize (IH i H). case_decide; cbn [length]; lia.
Qed.

(** *** One context changes

    It goes on with its row, ends it, or starts the next one. *)
Lemma rows_update w w' before on on' i x x' r : rows_inv w before on -> static w = static w' -> contexts w !! i = Some x ->
  contexts w' = <[i := x']> (contexts w) ->
  (forall row, in_tile w row -> row <> r -> same_row w w' on on' row) ->
  (busy x = true -> x_row x = r /\ nextRow w' = nextRow w) ->
  (busy x = false -> busy x' = true /\ r = nextRow w /\ nextRow w' = nextRow w + 1 /\ in_tile w r) ->
  (busy x' = true -> x_row x' = r /\ row_runs w' before on' x') ->
  (busy x' = false -> row_done w' before on' r) ->
  rowsCompleted w' = rowsCompleted w + (if busy x' then 0 else 1) ->
  rows_inv w' before on'.
Proof.
  intros [Hnx Hru Hun Hst Hwa [Hc0 Hct]] E Hx Hctx Hs Hb Hi Hrun Hdone Hrc.
  destruct (static_eq w w' E) as (Ed & Ej & Ek & Es & _). pose proof (lookup_lt_Some _ _ _ Hx) as Hlt.
  assert (nextRow w <= nextRow w' <= d_row (dispatch w) + expectedRows (dispatch w)) as Hnx'.
  { destruct (busy x) eqn:Bx; [destruct (Hb eq_refl) as [_ ->]; lia|]. destruct (Hi eq_refl) as (_ & -> & -> & Ht). unfold in_tile in Ht. lia. }
  assert (forall j y, contexts w' !! j = Some y -> busy y = true -> (j = i /\ y = x') \/ (j <> i /\ contexts w !! j = Some y /\ x_row y <> r)) as Hlook.
  { intros j y Hy By. rewrite Hctx in Hy. destruct (decide (j = i)) as [->|Hne]; [left; rewrite list_lookup_insert_eq in Hy by done; by injection Hy as ->|].
    rewrite list_lookup_insert_ne in Hy by done. right. split_and!; try done. intros Er. destruct (busy x) eqn:Bx.
    - destruct (Hb eq_refl) as [Ex _]. apply Hne. by eapply Hun; [exact Hy|exact Hx| | |congruence].
    - destruct (Hi eq_refl) as (_ & -> & _). destruct (Hru _ _ Hy By) as (_ & ? & _). lia. }
  constructor.
  - rewrite <- Ed. lia.
  - intros j y Hy By. destruct (Hlook j y Hy By) as [[-> ->]|(Hne & Hy' & Hr)]; [by apply Hrun|].
    pose proof (Hru _ _ Hy' By) as Hry. eapply row_runs_same; [exact E|lia|apply Hs; [by destruct Hry|done]|done].
  - intros j k y z Hy Hz By Bz Er. destruct (Hlook j y Hy By) as [[-> ->]|(Hj & Hy' & Hr)], (Hlook k z Hz Bz) as [[-> ->]|(Hk & Hz' & Hr')]; try done.
    + destruct (Hrun By) as [? _]. congruence.
    + destruct (Hrun Bz) as [? _]. congruence.
    + by eapply Hun.
  - intros row Hr. rewrite <- Ed in Hr. destruct (decide (row = r)) as [->|Hne].
    + destruct (busy x') eqn:Bx'; [right|left; by apply Hdone]. exists i, x'. rewrite Hctx, list_lookup_insert_eq by done. by destruct (Hrun eq_refl).
    + assert (row < nextRow w) as Hlt'. { destruct (busy x) eqn:Bx; [destruct (Hb eq_refl); lia|]. destruct (Hi eq_refl) as (_ & ? & ? & _). lia. }
      destruct (Hst row) as [Hd|(j & y & Hy & By & Ey)]; [lia|left; eapply row_done_same; [exact E|apply Hs; [unfold in_tile; lia|done]|done]|right].
      exists j, y. split; [|done]. rewrite Hctx. rewrite list_lookup_insert_ne; [done|]. intros <-. rewrite Hx in Hy. injection Hy as <-.
      destruct (Hb By) as [<- _]. done.
  - intros row Hr. rewrite <- Ed in Hr. assert (nextRow w <= row /\ row <> r) as [Hr1 Hr2].
    { split; [lia|]. destruct (busy x) eqn:Bx; [destruct (Hb eq_refl) as [<- _]; destruct (Hru _ _ Hx Bx) as (_ & ? & _); lia|]. destruct (Hi eq_refl) as (_ & ? & ? & _). lia. }
    eapply row_waits_same; [exact E|apply Hs; [unfold in_tile; lia|done]|apply Hwa; lia].
  - pose proof (busy_insert _ _ x x' Hx) as Hbi. unfold busy_contexts in *. rewrite Hctx, <- Ed, Hrc.
    destruct (busy x) eqn:Bx; [destruct (Hb eq_refl) as [_ ->]|destruct (Hi eq_refl) as (-> & _ & -> & _)]; destruct (busy x'); cbn in Hbi; lia.
Qed.

(** Nothing changes but fields that do not matter. *)
Lemma rows_same w w' before on on' : rows_inv w before on -> static w = static w' -> contexts w' = contexts w -> nextRow w' = nextRow w ->
  rowsCompleted w' = rowsCompleted w -> tilePValues w' = tilePValues w -> attentionResult w' = attentionResult w ->
  (forall row, in_tile w row -> on' !! (attentionJobId w, row) = on !! (attentionJobId w, row)) -> rows_inv w' before on'.
Proof.
  intros [Hnx Hru Hun Hst Hwa Hct] E Ec En Er Ep Ea Hon. destruct (static_eq w w' E) as (Ed & Ej & Ek & Es & _).
  assert (forall row, in_tile w row -> same_row w w' on on' row) as Hs by (intros row Hr; split_and!; [by apply Hon|by rewrite Ep|by rewrite Ea]).
  constructor; unfold busy_contexts; rewrite <- ?Ed, ?Ec, ?En, ?Er; try done.
  - intros i x Hx Hb. pose proof (Hru _ _ Hx Hb) as Hr. eapply row_runs_same; [exact E|lia|apply Hs; by destruct Hr|done].
  - intros row Hr. destruct (Hst row Hr) as [Hd|?]; [left|by right]. eapply row_done_same; [exact E|apply Hs; unfold in_tile; lia|done].
  - intros row Hr. eapply row_waits_same; [exact E|apply Hon; unfold in_tile; lia|by apply Hwa].
Qed.

(** ** Work left in a tile *)

(** More than any row takes. *)
Definition row_cost (w : Worker) : nat := 3 * cols w + exp_work w + 1.
Definition context_work (w : Worker) (x : Context) : nat := if busy x then row_work w x else 0.
Definition rows_left (w : Worker) : nat := Z.to_nat (d_row (dispatch w) + expectedRows (dispatch w) - nextRow w).
Definition end_work (w : Worker) : nat := if rowsCompleted w =? expectedRows (dispatch w) then 0 else 3.
Definition tile_work (w : Worker) : nat := list_sum (context_work w) (contexts w) + rows_left w * row_cost w + end_work w.

Lemma tile_work_update w w' i x x' : dispatch w' = dispatch w -> contexts w !! i = Some x -> contexts w' = <[i := x']> (contexts w) ->
  (tile_work w' + context_work w x + rows_left w * row_cost w + end_work w =
   tile_work w + context_work w x' + rows_left w' * row_cost w + end_work w')%nat.
Proof.
  intros Ed Hx Hc. unfold tile_work, row_cost, exp_work, cols. rewrite Hc, Ed. pose proof (list_sum_insert (context_work w) _ _ _ x' Hx) as H.
  assert (forall l, list_sum (context_work w') l = list_sum (context_work w) l) as ->.
  { intros l. unfold list_sum. induction l as [|y l IH]; cbn; [done|]. rewrite IH. unfold context_work, row_work, exp_work, cols. by rewrite Ed. }
  lia.
Qed.

(** ** The next row of a context *)

(** The states of rows of other tiles stay. *)
Definition frame (w : Worker) (on on' : online_map) : Prop :=
  forall job row, job <> attentionJobId w \/ ~ in_tile w row -> on' !! (job, row) = on !! (job, row).

Lemma put_id w i x : contexts w !! Z.to_nat i = Some x -> put w i x = w.
Proof. intros H. unfold put. rewrite list_insert_id by done. by destruct w. Qed.
Lemma cur_norm s0 key w i x on n s : cur s0 key w i x on n s ->
  cur s0 key (put w i x) i x on n s /\ contexts (put w i x) !! Z.to_nat i = Some x.
Proof.
  intros [H1 H2 H3 H4 H5]. split; [constructor; try done|].
  - by rewrite context_put_put.
  - change (contexts (put w i x)) with (<[Z.to_nat i := x]> (contexts w)). by rewrite length_insert.
  - change (contexts (put w i x)) with (<[Z.to_nat i := x]> (contexts w)). by apply list_lookup_insert_eq.
Qed.
Lemma cur_size s0 key w i x on n s w0 : cur s0 key w i x on n s -> tensorWorkerOps_ s0 !! key = Some w0 ->
  base.size (tensorWorkerOps_ s) = base.size (tensorWorkerOps_ s0).
Proof. intros [H _ _ _ _] Hw. by rewrite H, map_size_insert_Some. Qed.

(** Entries belong to the row they are filed under. *)
Definition filed (on : online_map) : Prop := forall job row e, on !! (job, row) = Some e -> o_jobId e = job /\ o_globalRow e = row.

Lemma filed_insert on job row o : filed on -> filed (<[(job, row) := online_entry job row o]> on).
Proof using Type. clear lanes_pos.
  intros H j r e. destruct (decide ((j, r) = (job, row))) as [E|Hne]; [injection E as -> ->; rewrite lookup_insert_eq|rewrite lookup_insert_ne by done; apply H].
  by intros [= <-].
Qed.
Definition without_tile (w : Worker) (on : online_map) : online_map :=
  if final_tile w then filter (fun e => of_rows (attentionJobId w) (d_row (dispatch w)) (expectedRows (dispatch w)) (snd e) = false) on else on.
Lemma filed_without w on : filed on -> filed (without_tile w on).
Proof using Type. clear lanes_pos. intros H. unfold without_tile. destruct (final_tile w); [|done]. intros j r e He. apply map_lookup_filter_Some in He as [He _]. by apply H. Qed.
Lemma frame_without w on : filed on -> frame w on (without_tile w on).
Proof using Type. clear lanes_pos.
  intros H job row Hj. unfold without_tile. destruct (final_tile w); [|done]. destruct (on !! (job, row)) as [e|] eqn:Ee.
  - apply map_lookup_filter_Some. split; [done|]. cbn. destruct (H _ _ _ Ee) as [E1 E2]. unfold of_rows. rewrite E1, E2. unfold in_tile in Hj.
    apply not_true_iff_false. intros X. apply andb_true_iff in X as [X X3]. apply andb_true_iff in X as [X1 X2].
    apply Z.eqb_eq in X1. apply Z.leb_le in X2. apply Z.ltb_lt in X3. destruct Hj as [Hj|Hj]; [done|lia].
  - apply map_lookup_filter_None. by left.
Qed.
Lemma tile_frame_trans w w' on on1 on2 : attentionJobId w' = attentionJobId w -> dispatch w' = dispatch w -> frame w on on1 -> frame w' on1 on2 -> frame w on on2.
Proof using Type. clear lanes_pos.
  intros Ej Ed H1 H2 job row Hj. rewrite H2; [by apply H1|]. rewrite Ej. unfold in_tile in *. by rewrite Ed.
Qed.
Lemma frame_refl w on : frame w on on.
Proof. done. Qed.
Lemma frame_insert w on row v : in_tile w row -> frame w on (<[(attentionJobId w, row) := v]> on).
Proof using Type. clear lanes_pos. intros Hr job row' Hj. rewrite lookup_insert_ne; [done|]. intros [= <- <-]. by destruct Hj. Qed.
(** The tile [w] has become [w']. *)
Record stepped (s0 : t) (key : Key) (w : Worker) (before : Z -> option (Online double)) (on : online_map) (w' : Worker) (s' : t) : Prop := {
  sp_ops : tensorWorkerOps_ s' = <[key := w']> (tensorWorkerOps_ s0);
  sp_ok : tile_ok key w';
  sp_rows : rows_inv w' before (attentionOnlineContexts_ s');
  sp_frame : frame w on (attentionOnlineContexts_ s');
  sp_filed : filed (attentionOnlineContexts_ s');
  sp_activity : attentionClusterSfuActivity_ s' = attentionClusterSfuActivity_ s0;
  sp_static : static w' = static w;
  sp_addr : scratchAddr w' = scratchAddr w
}.
(** Its context [i] waits for [e], in a row. *)
Record runs_on (s0 : t) (key : Key) (w : Worker) (i : Z) (before : Z -> option (Online double)) (on : online_map) (n : Z) (tg : option Z)
    (w' : Worker) (x' : Context) (e : Event) (s' : t) : Prop := {
  ro_stepped : stepped s0 key w before on w' s';
  ro_contexts : contexts w' = <[Z.to_nat i := x']> (contexts w);
  ro_busy : busy x' = true;
  ro_tagged : tagged tg n (nextTensorLocalTag_ s') x';
  ro_awaits : awaits key i x' e;
  ro_stream : pendingTileStreamTag w' = pendingTileStreamTag w;
  ro_count : rowsCompleted w' < expectedRows (dispatch w)
}.
(** The tile has failed at a row for which the reference has no result. *)
Record failed (s0 : t) (key : Key) (w : Worker) (before : Z -> option (Online double)) (on : online_map) (n : Z) (now : Z) (log : list effect) (s' : t) : Prop := {
  fl_ops : tensorWorkerOps_ s' = delete key (tensorWorkerOps_ s0);
  fl_row : exists row, in_tile w row /\ outcome w before row = None;
  fl_frame : frame w on (attentionOnlineContexts_ s');
  fl_filed : filed (attentionOnlineContexts_ s');
  fl_tag : nextTensorLocalTag_ s' = n;
  fl_activity : activity_ok now (attentionClusterSfuActivity_ s') (base.size (tensorWorkerOps_ s'));
  fl_log : exists res, log = [TileDone key false res]
}.


(** A token for a stream of the tile, and the worker that waits for it. *)
Definition stream_access (key : Key) (tok : effect) (access : effect) (retry : Kind) (n1 : Z) : Prop :=
  tok = access \/ exists d, tok = Self d (mkEvent key 0 Max retry n1).
Definition streaming (now : Z) (w2 : Worker) (n1 bytes : Z) : Worker :=
  w2 <| pendingTileStreamTag := n1 |> <| tileStreamReadyCycle := stream_ready c now bytes |>.

Section Handled.
Context {s0 : t} {key : Key} {w : Worker} {before : Z -> option (Online double)} {on : online_map} {n now : Z}.
Hypothesis Hw : tensorWorkerOps_ s0 !! key = Some w.
Hypothesis Hact : activity_ok now (attentionClusterSfuActivity_ s0) (base.size (tensorWorkerOps_ s0)).

Lemma wp_fail Q w1 i x1 on1 n1 log s row : cur s0 key w1 i x1 on1 n1 s -> static w1 = static w -> localTileMode w1 = true ->
  frame w on on1 -> filed on1 -> in_tile w row -> outcome w before row = None ->
  (forall s' l, failed s0 key w before on n1 now l s' -> Q tt (log ++ l) s') ->
  wp (finishTensorWorker c now key false) Q log s.
Proof.
  intros C Es Hl Hf Hfd Hr Ho H. destruct (static_eq w1 w Es) as (Ed & Ej & Ek & _). pose proof (cur_size _ _ _ _ _ _ _ _ w C Hw) as Hsz.
  eapply (wp_finish _ _ (put w1 i x1)).
  - by rewrite (cur_ops _ _ _ _ _ _ _ _ C), lookup_insert_eq.
  - done.
  - by rewrite (cur_activity _ _ _ _ _ _ _ _ C), Hsz.
  - change (if final_tile (put w1 i x1) then _ else _) with (without_tile w1 (attentionOnlineContexts_ s)). rewrite (cur_online _ _ _ _ _ _ _ _ C), (cur_tag _ _ _ _ _ _ _ _ C).
    intros s' H1 H2 H3 H4. apply H. constructor; try done.
    + by rewrite H1, (cur_ops _ _ _ _ _ _ _ _ C), delete_insert_eq.
    + by exists row.
    + rewrite H2. eapply tile_frame_trans; [| |exact Hf|by apply frame_without]; done.
    + rewrite H2. by apply filed_without.
    + by eexists.
Qed.

(** The tile when a context is handled: [w1] has come from [w]. *)
Record handling (i : Z) (w1 : Worker) (x : Context) (on1 : online_map) (n1 : Z) (s : t) : Prop := {
  hd_cur : cur s0 key w1 i x on1 n1 s;
  hd_context : contexts w1 = <[Z.to_nat i := x]> (contexts w);
  hd_lt : (Z.to_nat i < length (contexts w))%nat;
  hd_ok : tile_ok key w1;
  hd_rows : rows_inv w1 before on1;
  hd_static : static w1 = static w;
  hd_addr : scratchAddr w1 = scratchAddr w;
  hd_stream : pendingTileStreamTag w1 = pendingTileStreamTag w;
  hd_frame : frame w on on1;
  hd_filed : filed on1;
  hd_tag : 0 <= n1 /\ n1 + 1 < 2 ^ 64;
  hd_count : rowsCompleted w1 < expectedRows (dispatch w1)
}.

Lemma hd_lookup i w1 x on1 n1 s : handling i w1 x on1 n1 s -> contexts w1 !! Z.to_nat i = Some x.
Proof. intros H. rewrite (hd_context _ _ _ _ _ _ H). apply list_lookup_insert_eq, (hd_lt _ _ _ _ _ _ H). Qed.

(** The worker and the context that start row [nextRow]. *)
Definition next_worker (w1 : Worker) : Worker := w1 <| nextRow := nextRow w1 ⊞₃₂ 1 |>.
Definition next_context (w1 : Worker) (x : Context) : Context := x <| busy := true |> <| x_row := nextRow w1 |> <| laneValues := [] |>.

Lemma wp_start_row Q i w1 x on1 n1 s1 on2 x2 s2 log o : handling i w1 x on1 n1 s1 -> busy x = false ->
  nextRow w1 < d_row (dispatch w1) + expectedRows (dispatch w1) -> cur s0 key (next_worker w1) i x2 on2 n1 s2 ->
  busy x2 = true -> x_row x2 = nextRow w1 ->
  before (nextRow w1) = Some o -> on2 !! (attentionJobId w1, nextRow w1) = Some (online_entry (attentionJobId w1) (nextRow w1) o) ->
  (forall k, k <> (attentionJobId w1, nextRow w1) -> on2 !! k = on1 !! k) -> filed on2 ->
  (forall d e s' w' x', runs_on s0 key w i before on n1 None w' x' e s' -> (tile_work w' < tile_work w1)%nat -> Q tt (log ++ [Self d e]) s') ->
  wp (beginTensorRowStage c accepts now key i Max) Q log s2.
Proof.
  intros Hd Hb Hnr C2 Hb2 Hx2 Hbe Hon2 Hon2' Hfd H. pose proof (hd_lookup _ _ _ _ _ _ Hd) as Hl. destruct Hd as [C Hctx Hlt Hok Hri Hst Had Htg Hf Hfd1 [Hn Hn'] Hcnt].
  set (w2 := next_worker w1) in *. destruct (Hok) as [T1 T2 T3 T4 T5 T6 T7 T8 T9].
  destruct (ri_next _ _ _ Hri) as [Hnx _].
  assert (nextRow w2 = nextRow w1 + 1) as En by (unfold w2, next_worker; cbn; rewrite u32_small by (unfold is_u32; lia); done).
  assert (row_ok w2 x2) as Hrow by (unfold row_ok; change (dispatch w2) with (dispatch w1); lia).
  set (raw := row_part w2 (x_row x2) (tileScoreValues w2)).
  assert (length raw = cols w2) as Lr.
  { unfold raw, row_part. rewrite length_take, length_drop. change (tileScoreValues w2) with (tileScoreValues w1). rewrite T6.
    pose proof (row_begin_bound w2 x2 Hrow) as X. rewrite row_begin_no in X. change (cols w2) with (cols w1) in *. unfold tile_rows. change (dispatch w2) with (dispatch w1) in *. lia. }
  eapply (wp_begin_max c exp32 exp64 accepts lanes_pos (o := o) (raw := raw) C2) with (tg := None) (m := row_cost w2); try done; try (by destruct T1).
  - unfold row_cost. lia.
  - intros d e s' x' n' C' Ht Bx' Ex' Eu Ha Hwr Haw Hwk. set (w' := put w2 i x').
    assert (in_tile w1 (nextRow w1)) as Hin by (unfold in_tile; lia).
    assert (row_runs w' before on2 x') as Hruns.
    { split; [rewrite Ex', Hx2; done|]. split; [rewrite Ex', Hx2; change (nextRow w1 < nextRow w2); lia|]. exists o.
      change (row_part w' (x_row x') (tileScoreValues w')) with (row_part w2 (x_row x') (tileScoreValues w2)). rewrite Ex'. fold raw.
      split; [by rewrite Hx2|]. cbv zeta. split_and!; [done|done|]. rewrite Eu, Hx2. exact Hon2. }
    assert (rows_inv w' before on2) as Hri'.
    { eapply (rows_update w1 w' before on1 on2 (Z.to_nat i) x x' (nextRow w1)); try done.
      - intros row _ Hne. split; [|done]. apply Hon2'. intros [= ->]. done.
      - by intros Hbx; rewrite Hb in Hbx.
      - intros _. split; [congruence|done].
      - by intros Hbx; rewrite Bx' in Hbx.
      - rewrite Bx'. change (rowsCompleted w') with (rowsCompleted w1). lia. }
    apply (H d e s' w' x').
    + constructor; try done.
      * constructor; try (by destruct C').
        -- eapply tile_ok_same; [exact Hok|done..| | | | |]; try done. apply length_insert.
        -- by rewrite (cur_online _ _ _ _ _ _ _ _ C').
        -- rewrite (cur_online _ _ _ _ _ _ _ _ C'). destruct (static_eq w1 w Hst) as (Ed & Ej & _). intros job row Hj. rewrite Hon2'; [by apply Hf|].
           intros [= -> ->]. destruct Hj as [Hj|Hj]; [by rewrite Ej in Hj|]. apply Hj. unfold in_tile in *. by rewrite <- Ed.
        -- by rewrite (cur_online _ _ _ _ _ _ _ _ C').
      * change (contexts w') with (<[Z.to_nat i := x']> (contexts w1)). by rewrite Hctx, list_insert_insert_eq.
      * by rewrite (cur_tag _ _ _ _ _ _ _ _ C').
      * change (rowsCompleted w1 < expectedRows (dispatch w)). destruct (static_eq w1 w Hst) as (Ed & _). by rewrite <- Ed.
    + pose proof (tile_work_update w1 w' (Z.to_nat i) x x' eq_refl Hl eq_refl) as Hwu. unfold context_work in Hwu. rewrite Hb, Bx' in Hwu.
      change (end_work w') with (end_work w1) in Hwu. change (row_work w2 x') with (row_work w1 x') in Hwk. change (row_cost w2) with (row_cost w1) in Hwk.
      assert (rows_left w1 = S (rows_left w')) as Er by (unfold rows_left; change (dispatch w') with (dispatch w1); change (nextRow w') with (nextRow w2); lia). rewrite Er in Hwu. lia.
Qed.

Lemma band_end_eq w1 : tile_ok key w1 -> band_end w1 = d_row (dispatch w1) + expectedRows (dispatch w1).
Proof. intros [_ ? ? ? _ _ _ _ _]. unfold band_end. apply u32_small. unfold is_u32. lia. Qed.

(** [issueTensorInputDma] on an idle context with a row left. *)
Lemma wp_input Q i w1 x on1 n1 s log : handling i w1 x on1 n1 s -> busy x = false ->
  nextRow w1 < d_row (dispatch w1) + expectedRows (dispatch w1) ->
  (forall d e s' w' x', runs_on s0 key w i before on n1 None w' x' e s' -> (tile_work w' < tile_work w1)%nat -> Q tt (log ++ [Self d e]) s') ->
  (forall s' l, failed s0 key w before on n1 now l s' -> Q tt (log ++ l) s') ->
  wp (issueTensorInputDma c exp32 exp64 accepts now key i) Q log s.
Proof.
  intros Hd Hb Hnr H Hfail. pose proof (hd_lookup _ _ _ _ _ _ Hd) as Hl. pose proof (hd_cur _ _ _ _ _ _ Hd) as C.
  destruct (static_eq w1 w (hd_static _ _ _ _ _ _ Hd)) as (Ed & Ej & _ & _ & _ & _ & _ & Eo).
  eapply wp_context; [exact C|]. rewrite (put_id _ _ _ Hl), Hb, (band_end_eq w1 (hd_ok _ _ _ _ _ _ Hd)).
  assert ((d_row (dispatch w1) + expectedRows (dispatch w1) <=? nextRow w1) = false) as -> by (apply Z.leb_gt; lia). cbn [orb]. cbv zeta.
  fold (next_worker w1). fold (next_context w1 x). change (localTileMode (next_worker w1)) with (localTileMode w1).
  destruct (tk_streamed _ _ (hd_ok _ _ _ _ _ _ Hd)) as [Hloc _ _ _]. rewrite Hloc.
  apply wp_bind. eapply (wp_put _ _ _ _ _ (next_worker w1) _ _ (next_context w1 x)); [exact C|done|done|]. intros s1 C1.
  pose proof (ri_next _ _ _ (hd_rows _ _ _ _ _ _ Hd)) as Hnx.
  assert (row_waits w1 before on1 (nextRow w1)) as Hwa by (apply (ri_waits _ _ _ (hd_rows _ _ _ _ _ _ Hd)); lia).
  unfold row_waits in Hwa. change (attentionKvTileIndex (next_worker w1)) with (attentionKvTileIndex w1).
  change (attentionJobId (next_worker w1)) with (attentionJobId w1).
  destruct (before (nextRow w1)) as [o|] eqn:Hbe.
  - destruct (attentionKvTileIndex w1 =? 0) eqn:Ek.
    + subst o. apply (wp_cast _ _ (start_row exp32 exp64 (attentionJobId w1) (nextRow w1) ;;
        put_context key (next_worker w1) i (next_context w1 x <| x_scratchAddr := scratchAddr w1 ⊞ u64 ((nextRow w1 ⊟₃₂ d_row (dispatch w1)) * bytes (expectedCols (dispatch w1))) |>) ;;
        beginTensorRowStage c accepts now key i Max)%sched); [done|].
      apply wp_bind. eapply wp_online; [exact C1|]. intros s2 C2. apply wp_bind. eapply (wp_put _ _ _ _ _ (next_worker w1)); [exact C2|reflexivity|done|]. intros s3 C3.
      eapply (wp_start_row _ _ _ _ _ _ _ _ _ _ _ _ Hd Hb Hnr C3); try done.
      * apply lookup_insert_eq.
      * intros k Hk. by rewrite lookup_insert_ne.
      * apply filed_insert, (hd_filed _ _ _ _ _ _ Hd).
    + assert (valid_row (attentionJobId w1) (nextRow w1) s1 = true) as Hv.
      { unfold valid_row. by rewrite (cur_online _ _ _ _ _ _ _ _ C1), Hwa. }
      eapply (wp_cast _ _ (ret tt ;; put_context key (next_worker w1) i (next_context w1 x <| x_scratchAddr := scratchAddr w1 ⊞ u64 ((nextRow w1 ⊟₃₂ d_row (dispatch w1)) * bytes (expectedCols (dispatch w1))) |>) ;;
        beginTensorRowStage c accepts now key i Max)%sched); [cbv beta; by rewrite Hv|].
      apply wp_bind, wp_ret, wp_bind. eapply (wp_put _ _ _ _ _ (next_worker w1)); [exact C1|reflexivity|done|]. intros s3 C3.
      eapply (wp_start_row _ _ _ _ _ _ _ _ _ _ _ _ Hd Hb Hnr C3); try done. apply (hd_filed _ _ _ _ _ _ Hd).
  - destruct Hwa as [Hk Hv]. assert (valid_row (attentionJobId w1) (nextRow w1) s1 = false) as Hv'.
    { unfold valid_row. rewrite (cur_online _ _ _ _ _ _ _ _ C1). destruct (on1 !! _) eqn:E; [by apply Hv|done]. }
    eapply (wp_cast _ _ (finishTensorWorker c now key false)); [cbv beta; rewrite Hv'; apply Z.eqb_neq in Hk; by rewrite Hk|].
    eapply (wp_fail _ _ _ _ _ _ _ _ (nextRow w1) C1); try done; try (by destruct Hd).
    + unfold in_tile. rewrite <- Ed. lia.
    + unfold outcome. by rewrite Hbe.
Qed.

(** ** The end of a row *)

(** A stream of the tile's weights, or of its scores, is requested. *)
Lemma wp_stream Q (m : Worker -> M unit) w2 b access retry log s : tensorWorkerOps_ s !! key = Some w2 ->
  0 <= nextTensorLocalTag_ s -> nextTensorLocalTag_ s + 1 < 2 ^ 64 ->
  let n1 := nextTensorLocalTag_ s in
  m w2 = (let! tg := new_tag in
    put_worker key (streaming now w2 tg b) ;;
    if accepts tg then send (access tg) else scheduleAttentionTileStreamEvent c now key retry tg (rowEngineCurrentCycle c now ⊞ 1))%sched ->
  (forall tok s', tensorWorkerOps_ s' = <[key := streaming now w2 n1 b]> (tensorWorkerOps_ s) ->
     attentionOnlineContexts_ s' = attentionOnlineContexts_ s -> attentionClusterSfuActivity_ s' = attentionClusterSfuActivity_ s ->
     nextTensorLocalTag_ s' = n1 + 1 -> stream_access key tok (access n1) retry n1 -> Q tt (log ++ [tok]) s') ->
  wp (with_worker key m) Q log s.
Proof.
  intros Hw2 Hn Hn' n1 Em H. unfold with_worker. unfold Effects.wp. rewrite Hw2, Em. unfold bind at 1, new_tag at 1. cbn. fold n1.
  assert (n1 ⊞ 1 = n1 + 1) as En by (apply u64_small; unfold is_u64; lia).
  destruct (accepts n1).
  - cbn. apply H; try done. by left.
  - unfold scheduleAttentionTileStreamEvent, with_worker. unfold bind. cbn. rewrite lookup_insert_eq. cbn. apply H; try done. right. by eexists.
Qed.

Lemma bytes_pos w2 (l : list float) : tile_ok key w2 -> length l = (tile_rows w2 * cols w2)%nat -> (bytes (len l) =? 0) = false.
Proof.
  intros [[_ _ _ Hc] Hr _ _ _ _ _ _ _] Hl. apply Z.eqb_neq. unfold bytes, len. rewrite Hl. unfold tile_rows, cols. rewrite u64_small by (unfold is_u64; nia). nia.
Qed.

Lemma wp_stream_write Q w2 log s : tensorWorkerOps_ s !! key = Some w2 -> tile_ok key w2 ->
  0 <= nextTensorLocalTag_ s -> nextTensorLocalTag_ s + 1 < 2 ^ 64 ->
  let n1 := nextTensorLocalTag_ s in
  (forall tok s', tensorWorkerOps_ s' = <[key := streaming now w2 n1 (bytes (len (tilePValues w2)))]> (tensorWorkerOps_ s) ->
     attentionOnlineContexts_ s' = attentionOnlineContexts_ s -> attentionClusterSfuActivity_ s' = attentionClusterSfuActivity_ s ->
     nextTensorLocalTag_ s' = n1 + 1 ->
     stream_access key tok (LocalWrite (scratchAddr w2) (bytes_of_floats (tilePValues w2)) n1 key None) TileStreamWriteRetry n1 -> Q tt (log ++ [tok]) s') ->
  wp (issueAttentionTileStreamWrite c accepts now key) Q log s.
Proof.
  intros Hw2 Hok Hn Hn' n1 H. eapply (wp_stream _ _ w2 (bytes (len (tilePValues w2))) (fun n1 => LocalWrite (scratchAddr w2) (bytes_of_floats (tilePValues w2)) n1 key None)); try done.
  cbv zeta. destruct (Hok) as [[_ S2 _ _] _ _ _ _ _ T7 _ _]. by rewrite S2, (bytes_pos w2 _ Hok T7).
Qed.
Lemma wp_stream_read Q w2 log s : tensorWorkerOps_ s !! key = Some w2 -> tile_ok key w2 ->
  0 <= nextTensorLocalTag_ s -> nextTensorLocalTag_ s + 1 < 2 ^ 64 ->
  let n1 := nextTensorLocalTag_ s in
  (forall tok s', tensorWorkerOps_ s' = <[key := streaming now w2 n1 (bytes (len (tileScoreValues w2)))]> (tensorWorkerOps_ s) ->
     attentionOnlineContexts_ s' = attentionOnlineContexts_ s -> attentionClusterSfuActivity_ s' = attentionClusterSfuActivity_ s ->
     nextTensorLocalTag_ s' = n1 + 1 ->
     stream_access key tok (LocalRead (scratchAddr w2) (bytes (len (tileScoreValues w2))) n1 key None) TileStreamReadRetry n1 -> Q tt (log ++ [tok]) s') ->
  wp (issueAttentionTileStreamRead c accepts now key) Q log s.
Proof.
  intros Hw2 Hok Hn Hn' n1 H. eapply (wp_stream _ _ w2 (bytes (len (tileScoreValues w2))) (fun n1 => LocalRead (scratchAddr w2) (bytes (len (tileScoreValues w2))) n1 key None)); try done.
  cbv zeta. destruct (Hok) as [[_ S2 _ _] _ _ _ _ T6 _ _ _]. by rewrite S2, (bytes_pos w2 _ Hok T6).
Qed.

(** All rows are done, and the weights are on their way. *)
Record writes (n1 : Z) (w' : Worker) (tok : effect) (s' : t) : Prop := {
  wt_stepped : stepped s0 key w before on w' s';
  wt_count : rowsCompleted w' = expectedRows (dispatch w');
  wt_stream : pendingTileStreamTag w' = n1;
  wt_tag : nextTensorLocalTag_ s' = n1 + 1;
  wt_access : stream_access key tok (LocalWrite (scratchAddr w') (bytes_of_floats (tilePValues w')) n1 key None) TileStreamWriteRetry n1
}.
(** The context has no more row, others have. *)
Record rests (i : Z) (n1 : Z) (w' : Worker) (x' : Context) (s' : t) : Prop := {
  rs_stepped : stepped s0 key w before on w' s';
  rs_contexts : contexts w' = <[Z.to_nat i := x']> (contexts w);
  rs_busy : busy x' = false;
  rs_tag : nextTensorLocalTag_ s' = n1;
  rs_stream : pendingTileStreamTag w' = pendingTileStreamTag w;
  rs_next : nextRow w' = d_row (dispatch w') + expectedRows (dispatch w');
  rs_count : rowsCompleted w' < expectedRows (dispatch w')
}.

Lemma handling_stepped i w1 x on1 n1 s : handling i w1 x on1 n1 s -> stepped s0 key w before on w1 s.
Proof.
  intros Hd. pose proof (hd_lookup _ _ _ _ _ _ Hd) as Hl. destruct Hd as [[C1 C2 C3 C4 C5] ? ? ? ? ? ? ? ? ? ?]. rewrite (put_id _ _ _ Hl) in C1.
  constructor; try done; by rewrite C3.
Qed.

(** A context that has ended its row. *)
Lemma wp_continue Q i w1 x1 on1 n1 s log : handling i w1 x1 on1 n1 s -> busy x1 = false ->
  (forall d e s' w' x', runs_on s0 key w i before on n1 None w' x' e s' -> (tile_work w' < tile_work w1)%nat -> Q tt (log ++ [Self d e]) s') ->
  (forall s' l, failed s0 key w before on n1 now l s' -> Q tt (log ++ l) s') ->
  (rests i n1 w1 x1 s -> Q tt log s) ->
  wp (issueTensorInputDma c exp32 exp64 accepts now key i) Q log s.
Proof.
  intros Hd Hb H1 H2 H3. destruct (ri_next _ _ _ (hd_rows _ _ _ _ _ _ Hd)) as [_ Hnx].
  destruct (decide (nextRow w1 < d_row (dispatch w1) + expectedRows (dispatch w1))) as [Hlt|Hge].
  { eapply wp_input; try done. }
  pose proof (hd_lookup _ _ _ _ _ _ Hd) as Hl. eapply wp_context; [apply (hd_cur _ _ _ _ _ _ Hd)|].
  rewrite (put_id _ _ _ Hl), Hb, (band_end_eq w1 (hd_ok _ _ _ _ _ _ Hd)). cbn [orb].
  assert ((d_row (dispatch w1) + expectedRows (dispatch w1) <=? nextRow w1) = true) as -> by (apply Z.leb_le; lia).
  apply wp_ret, H3. pose proof (handling_stepped _ _ _ _ _ _ Hd) as Hs. destruct Hd as [[? ? ? ? ?] ? ? ? ? ? ? ? ? ? ?]. constructor; try done. lia.
Qed.

(** The worker after a row. *)
Definition ended_worker (w1 : Worker) (x1 : Context) : Worker :=
  let res := attentionResult w1 in
  w1 <| attentionResult := mkResult (res_rows res) (<[Z.to_nat (row_index w1 x1) := oldOutputScale x1]> (oldOutputScales res)) |>
     <| rowsCompleted := rowsCompleted w1 ⊞₃₂ 1 |>.
Definition ended_context (x1 : Context) : Context := x1 <| busy := false |> <| laneValues := [] |> <| residentValues := [] |>.

(** Writing to a row leaves the others. *)
Lemma weighted_other w1 x v row : in_tile w1 row -> in_tile w1 (x_row x) -> row <> x_row x -> may_write w1 x v ->
  row_part w1 row (tilePValues (weighted w1 x v)) = row_part w1 row (tilePValues w1).
Proof using Type.
  clear. intros H1 H2 Hne [->|(Hv & _)]; [done|]. unfold row_part. change (tilePValues (weighted w1 x v)) with (list_inserts (row_begin w1 x + Z.to_nat (chunkBegin x)) v (tilePValues w1)).
  apply part_inserts_other. rewrite row_begin_no. unfold in_tile, row_no in *.
  destruct (decide (row < x_row x)); [right|left].
  - assert (S (Z.to_nat (row - d_row (dispatch w1))) <= Z.to_nat (x_row x - d_row (dispatch w1)))%nat as Hle by lia.
    apply (Nat.mul_le_mono_r _ _ (cols w1)) in Hle. lia.
  - assert (S (Z.to_nat (x_row x - d_row (dispatch w1))) <= Z.to_nat (row - d_row (dispatch w1)))%nat as Hle by lia.
    apply (Nat.mul_le_mono_r _ _ (cols w1)) in Hle. lia.
Qed.

(** ** A row of the tile *)

Section Row.
Context {i : Z} {x : Context} {o : Online double}.
Hypothesis Hok : tile_ok key w.
Hypothesis Hri : rows_inv w before on.
Hypothesis Hfd : filed on.
Hypothesis Hn : 0 <= n.
Hypothesis Hn' : n + 1 < 2 ^ 64.
Hypothesis Hcount : rowsCompleted w < expectedRows (dispatch w).
Hypothesis Hx : contexts w !! Z.to_nat i = Some x.
Hypothesis Hb : busy x = true.
Hypothesis Ho : before (x_row x) = Some o.
Abbreviation row := (x_row x).
Abbreviation raw := (row_part w row (tileScoreValues w)).

Lemma row_in_tile : in_tile w row /\ row < nextRow w.
Proof. destruct (ri_runs _ _ _ Hri _ _ Hx Hb) as (H1 & H2 & _). done. Qed.
Lemma row_is_ok : row_ok w x.
Proof. destruct row_in_tile as [H _]. destruct Hok. unfold row_ok, in_tile in *. lia. Qed.
Lemma length_raw : length raw = cols w.
Proof.
  unfold row_part. rewrite length_take, length_drop, (tk_scores _ _ Hok). pose proof (row_begin_bound w x row_is_ok) as X. rewrite row_begin_no in X. unfold tile_rows. lia.
Qed.

Section Ended.
Context {v : list float} {x1 : Context} {s : t}.
Hypothesis C : cur s0 key (weighted w x v) i x1 on n s.
Hypothesis Hv : may_write w x v.
Hypothesis Hx1 : x_row x1 = row.
Hypothesis Hscale : oldOutputScale x1 = oldScale c exp32 exp64 w row o raw.
Hypothesis Hsum : sum_ok (newSum c exp32 exp64 w row o raw) = true.
Hypothesis Hweights : row_part w row (tilePValues (weighted w x v)) = weights c exp32 exp64 w row o raw.
Hypothesis Hon : on !! (attentionJobId w, row) = Some (online_entry (attentionJobId w) row (online_now c exp32 exp64 w row o raw true)).
Abbreviation w1 := (put (ended_worker (weighted w x v) x1) i (ended_context x1)).

Lemma ended_index : Z.to_nat (row_index (weighted w x v) x1) = row_no w row.
Proof.
  destruct row_in_tile as [[H1 H2] _]. destruct Hok as [_ T2 T3 T4 _ _ _ _ _]. unfold row_index, row_no. rewrite Hx1. change (dispatch (weighted w x v)) with (dispatch w).
  rewrite u32_small by (unfold is_u32; lia). done.
Qed.
Lemma ended_count : rowsCompleted w1 = rowsCompleted w + 1.
Proof.
  change (u32 (rowsCompleted w + 1) = rowsCompleted w + 1). destruct (ri_count _ _ _ Hri). destruct Hok. apply u32_small. unfold is_u32. lia.
Qed.

Lemma ended_rows : rows_inv w1 before on.
Proof.
  pose proof row_in_tile as [Hin Hlt]. assert (static w = static w1) as Es by done.
  eapply (rows_update w w1 before on on (Z.to_nat i) x (ended_context x1) row); try done.
  - intros row' Hin' Hne. split; [done|]. split.
    + by apply weighted_other.
    + change (<[Z.to_nat (row_index (weighted w x v) x1) := oldOutputScale x1]> (oldOutputScales (attentionResult w)) !! row_no w row' = oldOutputScales (attentionResult w) !! row_no w row').
      rewrite ended_index, list_lookup_insert_ne; [done|]. unfold in_tile, row_no in *. lia.
  - intros Hbx. by rewrite Hb in Hbx.
  - intros _. exists (mkRow (online_now c exp32 exp64 w row o raw true) (oldScale c exp32 exp64 w row o raw) (weights c exp32 exp64 w row o raw)). split_and!.
    + unfold outcome. rewrite Ho. etransitivity; [exact (row_result_eq c exp32 exp64 w row o raw)|]. by rewrite Hsum.
    + change (<[Z.to_nat (row_index (weighted w x v) x1) := oldOutputScale x1]> (oldOutputScales (attentionResult w)) !! row_no w row = Some (oldScale c exp32 exp64 w row o raw)).
      rewrite ended_index, Hscale. apply list_lookup_insert_eq. rewrite (tk_scales _ _ Hok). destruct Hok. unfold in_tile, row_no in *. lia.
    + exact Hweights.
    + exact Hon.
  - apply ended_count.
Qed.
Lemma ended_ok : tile_ok key w1.
Proof.
  eapply tile_ok_same; [exact Hok|done..| | | | |]; try done.
  - apply length_insert.
  - apply length_inserts.
  - apply length_insert.
Qed.
Lemma ended_work : (tile_work w1 + row_work w x + 3 = tile_work w + end_work w1)%nat.
Proof.
  pose proof (tile_work_update w w1 (Z.to_nat i) x (ended_context x1) eq_refl Hx eq_refl) as H.
  assert (context_work w x = row_work w x) as E by (unfold context_work; by rewrite Hb). rewrite E in H.
  change (context_work w (ended_context x1)) with 0%nat in H. change (rows_left w1) with (rows_left w) in H.
  assert (end_work w = 3%nat) as E' by (unfold end_work; assert ((rowsCompleted w =? expectedRows (dispatch w)) = false) as -> by (apply Z.eqb_neq; lia); done).
  rewrite E' in H. lia.
Qed.

Lemma wp_complete Q log :
  (forall d e s' w' x', runs_on s0 key w i before on n None w' x' e s' -> (tile_work w' + row_work w x <= tile_work w)%nat -> Q tt (log ++ [Self d e]) s') ->
  (forall s' l, failed s0 key w before on n now l s' -> Q tt (log ++ l) s') ->
  (forall s', rests i n w1 (ended_context x1) s' -> (tile_work w1 + row_work w x <= tile_work w)%nat -> Q tt log s') ->
  (forall tok s' w', writes n w' tok s' -> (tile_work w' + 3 + row_work w x <= tile_work w)%nat -> Q tt (log ++ [tok]) s') ->
  wp (completeTensorRow c exp32 exp64 accepts now key i) Q log s.
Proof.
  intros H1 H2 H3 H4. eapply wp_context; [exact C|]. cbv zeta. destruct (Hok) as [[Hloc Hstr _ _] T2 T3 T4 T5 T6 T7 T8 T9].
  change (localTileMode (put (weighted w x v) i x1)) with (localTileMode w). rewrite Hloc.
  change (row_index (put (weighted w x v) i x1) x1) with (row_index (weighted w x v) x1).
  assert ((len (oldOutputScales (attentionResult (put (weighted w x v) i x1))) <=? row_index (weighted w x v) x1) = false) as ->.
  { apply Z.leb_gt. unfold len. change (attentionResult _) with (attentionResult w). rewrite T8. pose proof ended_index as E.
    destruct row_in_tile as [[? ?] _]. unfold row_no in E. lia. }
  apply wp_bind. eapply (wp_put _ _ _ _ _ (ended_worker (weighted w x v) x1) _ _ (ended_context x1)); [exact C|unfold put, ended_worker; cbn; by rewrite list_insert_insert_eq|done|]. intros s1 C1.
  apply cur_norm in C1 as [C1 Hl1].
  match goal with |- context [rowsCompleted ?u =? expectedRows (dispatch ?u')] => change (rowsCompleted u =? expectedRows (dispatch u')) with (rowsCompleted w1 =? expectedRows (dispatch w)) end.
  match goal with |- context [tileStreamActive ?u] => change (tileStreamActive u) with (tileStreamActive w) end. rewrite Hstr.
  destruct (Z.eqb_spec (rowsCompleted w1) (expectedRows (dispatch w))) as [Hall|Hmore].
  - assert (tensorWorkerOps_ s1 !! key = Some w1) as Hw1 by (rewrite (cur_ops _ _ _ _ _ _ _ _ C1), context_put_put; apply lookup_insert_eq).
    eapply (wp_stream_write _ w1 log s1 Hw1 ended_ok); rewrite ?(cur_tag _ _ _ _ _ _ _ _ C1); try done.
    intros tok s' E1 E2 E3 E4 E5. apply (H4 _ _ (streaming now w1 n (bytes (len (tilePValues w1))))).
    + assert (static (streaming now w1 n (bytes (len (tilePValues w1)))) = static w) as Es by done.
      constructor; try done. constructor; try done.
      * by rewrite E1, (cur_ops _ _ _ _ _ _ _ _ C1), insert_insert_eq.
      * by eapply tile_ok_same; [exact ended_ok|..].
      * rewrite E2, (cur_online _ _ _ _ _ _ _ _ C1). by eapply rows_same; [exact ended_rows|..].
      * by rewrite E2, (cur_online _ _ _ _ _ _ _ _ C1).
      * by rewrite E2, (cur_online _ _ _ _ _ _ _ _ C1).
      * by rewrite E3, (cur_activity _ _ _ _ _ _ _ _ C1).
    + change (tile_work (streaming now w1 n (bytes (len (tilePValues w1))))) with (tile_work w1). pose proof ended_work as Hwk.
      assert (end_work w1 = 0%nat) as E0 by (unfold end_work; change (dispatch w1) with (dispatch w); rewrite Hall, Z.eqb_refl; done). lia.
  - eapply (wp_continue _ _ w1 (ended_context x1)); try done.
    + constructor; try done; [|apply ended_ok|apply ended_rows|]. { by apply lookup_lt_Some in Hx. } rewrite ended_count in *. change (dispatch w1) with (dispatch w). lia.
    + intros d e s' w' x' Hr Hwk. apply (H1 d e s' w' x' Hr). pose proof ended_work as Hwk'. assert (end_work w1 <= 3)%nat by (unfold end_work; case_match; lia). lia.
    + intros Hr. apply (H3 s1 Hr). pose proof ended_work as Hwk'. assert (end_work w1 <= 3)%nat by (unfold end_work; case_match; lia). lia.
Qed.
End Ended.

(** A context that goes on with its row. *)
Lemma row_goes_on v u on' m log Q : may_write w x v ->
  on' !! (attentionJobId w, row) = Some (online_entry (attentionJobId w) row (online_now c exp32 exp64 w row o raw u)) ->
  (forall k, k <> (attentionJobId w, row) -> on' !! k = on !! k) ->
  (forall d e s' w' x', runs_on s0 key w i before on n (Some (pendingLocalTag x)) w' x' e s' ->
     (tile_work w' + row_work w x < tile_work w + m)%nat -> Q tt (log ++ [Self d e]) s') ->
  moves c exp32 exp64 Q s0 key (weighted w x v) i row (Some (pendingLocalTag x)) on' n o raw u m log.
Proof.
  intros Hv Hon' Hother H d e s' x' n' C Ht Bx' Ex' Eu Ha Hwr Haw Hwk. pose proof row_in_tile as [Hin Hlt].
  set (w' := put (weighted w x v) i x'). pose proof (cur_online _ _ _ _ _ _ _ _ C) as Eon.
  assert (row_runs w' before on' x') as Hruns.
  { split; [by rewrite Ex'|]. split; [by rewrite Ex'|]. exists o. rewrite Ex', Eu. by split_and!. }
  assert (rows_inv w' before on') as Hri'.
  { eapply (rows_update w w' before on on' (Z.to_nat i) x x' row); try done.
    - intros row' Hin' Hne. split; [|split; [by apply weighted_other|done]]. apply Hother. by intros [= ->].
    - by intros Hbx; rewrite Hb in Hbx.
    - by intros Hbx; rewrite Bx' in Hbx.
    - rewrite Bx'. change (rowsCompleted w') with (rowsCompleted w). lia. }
  apply (H d e s' w' x').
  - constructor; try done; [|by rewrite (cur_tag _ _ _ _ _ _ _ _ C)]. constructor; try (by destruct C); rewrite ?Eon; try done.
    + by eapply tile_ok_same; [exact Hok|done..|apply length_insert|done|apply length_inserts|done|done].
    + intros job row' Hj. apply Hother. intros [= -> ->]. by destruct Hj.
    + intros job row' en He. destruct (decide ((job, row') = (attentionJobId w, row))) as [E|Hne]; [|rewrite Hother in He by done; by apply Hfd].
      injection E as -> ->. rewrite Hon' in He. by injection He as <-.
  - pose proof (tile_work_update w w' (Z.to_nat i) x x' eq_refl Hx eq_refl) as Hwu. unfold context_work in Hwu. rewrite Hb, Bx' in Hwu.
    change (end_work w') with (end_work w) in Hwu. change (rows_left w') with (rows_left w) in Hwu. change (row_work (weighted w x v) x') with (row_work w x') in Hwk. lia.
Qed.
End Row.

(** What an event can make of a tile. *)
Definition slack (e : Event) : nat := if decide (e_kind e = HardwareRetry) then 1 else 0.

Lemma wp_row Q i x e log : tile_ok key w -> rows_inv w before on -> filed on -> attentionOnlineContexts_ s0 = on -> nextTensorLocalTag_ s0 = n ->
  0 <= n -> n + 1 < 2 ^ 64 -> rowsCompleted w < expectedRows (dispatch w) -> contexts w !! Z.to_nat i = Some x -> busy x = true ->
  awaits key i x e ->
  (forall d e' s' w' x', runs_on s0 key w i before on n (Some (pendingLocalTag x)) w' x' e' s' -> (tile_work w' < tile_work w + slack e)%nat ->
     Q tt (log ++ [Self d e']) s') ->
  (forall s' l, failed s0 key w before on n now l s' -> Q tt (log ++ l) s') ->
  (forall s' w' x', rests i n w' x' s' -> (tile_work w' < tile_work w)%nat -> Q tt log s') ->
  (forall tok s' w', writes n w' tok s' -> (tile_work w' + 3 < tile_work w)%nat -> Q tt (log ++ [tok]) s') ->
  wp (handle_row_event c exp32 exp64 accepts now key i w x (e_kind e)) Q log s0.
Proof.
  intros Hok Hri Hfd Eon En Hn Hn' Hc Hx Hb Haw H1 H2 H3 H4.
  destruct (ri_runs _ _ _ Hri _ _ Hx Hb) as (Hin & Hlt & o & Ho & Ha & Hwr & Hon). pose proof (cur_init s0 key w i x Hw Hx) as C. rewrite Eon, En in C.
  rewrite <- (put_id w i x Hx) at 1. destruct (Hok) as [T1 _ _ _ _ _ T7 _ _].
  eapply (wp_event c exp32 exp64 accepts lanes_pos C T1 Hb (length_raw Hok Hri Hx Hb) Hn Hn' Ha Hwr e (row_is_ok Hok Hri Hx Hb) T7 Hon Haw).
  - intros v u on' Hv Hon' Hother. eapply row_goes_on; try done. intros d e' s' w' x' Hr Hwk. eapply H1; [exact Hr|].
    unfold slack. case_decide; lia.
  - intros Hs x' s' C'. eapply (wp_fail _ _ _ _ _ _ _ _ (x_row x) C'); try done; [by destruct T1|]. unfold outcome. rewrite Ho.
    rewrite row_result_eq. by rewrite Hs.
  - intros v Hv Hwt Hs Hu Hne x1 s1 C1 Ex1 Esc. rewrite Hu in Hon.
    assert (0 < row_work w x)%nat as Hwk.
    { pose proof (row_at_normalize _ _ _ _ Ha Hu) as Hb'. rewrite (length_raw Hok Hri Hx Hb) in Hb'. unfold updated in Hu. unfold row_work.
      destruct (pendingHardwareCompletionKind x), (stage x); try done; cbn; try lia. specialize (Hb' eq_refl). lia. }
    eapply (wp_complete Hok Hri Hfd Hn Hn' Hc Hx Hb Ho C1); try done.
    + intros d e' s' w' x' Hr Hk. eapply (H1 d e' s' w' x'); [|unfold slack; rewrite decide_False by done; lia].
      destruct Hr as [R1 R2 R3 [R4|[_ ?]] R5 R6 R7]; [|done]. constructor; try done. by left.
    + intros s' Hr Hk. eapply H3; [exact Hr|lia].
    + intros tok s' w' Hr Hk. eapply H4; [exact Hr|lia].
Qed.
End Handled.
End Tiles.
