(* ===== verification/SfuEvents.v ===== *)
(** * Events of streamed tiles

    What is on its way to the row engine of [Sfu] - its own events and the answers
    of the memory - and what a tile waits for at every point of its life
    ([phase]).  [wp_deliver]: whatever arrives for a tile, in any order, leaves it
    waiting for something, or ends it with the result of the reference. *)

From S2P Require Import Prelude Telemetry Float32 Cluster ScoreFifo Effects Softmax Sfu SfuRows SfuTiles.
#[local] Open Scope Z_scope.
#[local] Open Scope mach_scope.
Import Sfu.

(** ** Tokens: events and accesses on their way *)

Definition of_key (key : Key) (tok : effect) : bool :=
  match tok with
  | Self _ e => bool_decide (e_key e = key)
  | LocalRead _ _ _ k _ | LocalWrite _ _ _ k _ => bool_decide (k = key)
  | _ => false
  end.
Definition is_token (tok : effect) : bool :=
  match tok with Self _ _ | LocalRead _ _ _ _ _ | LocalWrite _ _ _ _ _ | DmaRead _ _ _ _ _ | DmaWrite _ _ _ _ _ => true | _ => false end.
Definition is_start (tok : effect) : bool :=
  match tok with Self _ e => bool_decide (e_kind e = AttentionStart) | _ => false end.
Definition is_access (tok : effect) : bool :=
  match tok with LocalRead _ _ _ _ _ | LocalWrite _ _ _ _ _ => true | _ => false end.
Definition is_read (tok : effect) : bool := match tok with LocalRead _ _ _ _ _ => true | _ => false end.
(** For the stream of a tile that waits for [tg]. *)
Definition is_stream (tg : Z) (tok : effect) : bool :=
  is_access tok ||
  match tok with Self _ e => tile_kind (e_kind e) && negb (bool_decide (e_kind e = AttentionStart)) && (e_localTag e =? tg) | _ => false end.
(** For the row of a context that waits for [tg]. *)
Definition is_row (i tg : Z) (tok : effect) : bool :=
  match tok with Self _ e => negb (tile_kind (e_kind e)) && (e_context e =? i) && (e_localTag e =? tg) | _ => false end.
Definition is_dispatch (tok : effect) : bool :=
  match tok with Self _ e => bool_decide (e_kind e = RowDispatch) | _ => false end.
Definition is_retry (tok : effect) : bool :=
  match tok with
  | Self _ e => match e_kind e with HardwareRetry | TileStreamReadRetry | TileStreamWriteRetry => true | _ => false end
  | _ => false
  end.

Definition toks (key : Key) (f : effect -> bool) (P : list effect) : list effect := filter (fun tok => of_key key tok && f tok = true) P.
Definition tokens (log : list effect) : list effect := filter (fun tok => is_token tok = true) log.

(** Tokens that the engine emits before tag [n] is given out. *)
Definition tok_ok (n : Z) (tok : effect) : Prop :=
  match tok with
  | Self _ e =>
      0 <= e_context e /\ 0 <= e_localTag e < n /\ (tile_kind (e_kind e) = true -> e_kind e = AttentionStart \/ 1 <= e_localTag e) /\
      e_kind e <> ScoreFifoWriteDone /\ e_kind e <> PFifoReadDone
  | LocalRead _ _ tg _ ctx | LocalWrite _ _ tg _ ctx => 0 <= tg < n /\ ctx = None
  | _ => False
  end.

Lemma toks_app key f P P' : toks key f (P ++ P') = toks key f P ++ toks key f P'.
Proof. apply filter_app. Qed.
Lemma toks_cons key f tok P : toks key f (tok :: P) = (if of_key key tok && f tok then [tok] else []) ++ toks key f P.
Proof. unfold toks. rewrite filter_cons. case_decide as E; [by rewrite E|]. by apply not_true_is_false in E as ->. Qed.
Lemma toks_nil key f P : toks key f P = [] <-> forall tok, tok ∈ P -> of_key key tok = true -> f tok = false.
Proof.
  unfold toks. split.
  - intros H tok Hin Hk. destruct (f tok) eqn:E; [|done]. exfalso. assert (tok ∈ ([] : list effect)) as X; [|by apply elem_of_nil in X].
    rewrite <- H. apply list_elem_of_filter. by rewrite Hk, E.
  - intros H. apply elem_of_nil_inv. intros tok Hin. apply list_elem_of_filter in Hin as [E Hin]. apply andb_true_iff in E as [E1 E2].
    by rewrite (H tok Hin E1) in E2.
Qed.

Lemma toks_other key f P1 tok P2 : of_key key tok && f tok = false -> toks key f (P1 ++ tok :: P2) = toks key f (P1 ++ P2).
Proof. intros E. by rewrite !toks_app, toks_cons, E. Qed.
Lemma toks_taken key f P1 tok P2 : of_key key tok && f tok = true -> toks key f (P1 ++ tok :: P2) = toks key f P1 ++ tok :: toks key f P2.
Proof. intros E. by rewrite toks_app, toks_cons, E. Qed.
(** The only token of its sort is taken. *)
Lemma toks_one key f P1 tok P2 a : of_key key tok && f tok = true -> toks key f (P1 ++ tok :: P2) = [a] -> tok = a /\ toks key f (P1 ++ P2) = [].
Proof.
  intros E. rewrite (toks_taken _ _ _ _ _ E), toks_app. destruct (toks key f P1) as [|b l]; cbn.
  - by intros [= -> ->].
  - intros [= _ H]. by destruct l.
Qed.
Lemma toks_weaken key (f g : effect -> bool) P : (forall tok, f tok = true -> g tok = true) -> toks key g P = [] -> toks key f P = [].
Proof. intros H E. apply toks_nil. intros tok Hin Hk. destruct (f tok) eqn:Ef; [|done]. apply H in Ef. by rewrite (proj1 (toks_nil _ _ _) E tok Hin Hk) in Ef. Qed.

(** Tags given out later are not in use. *)
Lemma toks_fresh_row key i n P : Forall (tok_ok n) P -> toks key (is_row i n) P = [].
Proof.
  intros H. apply toks_nil. intros tok Hin _. rewrite Forall_forall in H. specialize (H tok Hin). destruct tok; try done. cbn in *.
  apply andb_false_iff. right. apply Z.eqb_neq. lia.
Qed.
Lemma toks_fresh_stream key n P : Forall (tok_ok n) P -> toks key is_access P = [] -> toks key (is_stream n) P = [].
Proof.
  intros H Ha. apply toks_nil. intros tok Hin Hk. rewrite Forall_forall in H. specialize (H tok Hin). pose proof (proj1 (toks_nil _ _ _) Ha tok Hin Hk) as Ha'.
  unfold is_stream. rewrite Ha'. destruct tok; try done. cbn in *. apply andb_false_iff. right. apply Z.eqb_neq. lia.
Qed.
Lemma no_access key tg P : toks key (is_stream tg) P = [] -> toks key is_access P = [].
Proof. apply toks_weaken. intros tok E. unfold is_stream. by rewrite E. Qed.
Lemma no_access_dispatch key tg P : Forall (fun tok => is_dispatch tok = true) (toks key (is_stream tg) P) -> toks key is_access P = [].
Proof.
  intros H. apply toks_nil. intros tok Hin Hk. destruct (is_access tok) eqn:Ea; [|done]. rewrite Forall_forall in H.
  assert (tok ∈ toks key (is_stream tg) P) as Hin'.
  { unfold toks. apply list_elem_of_filter. split; [|done]. unfold is_stream. by rewrite Hk, Ea. }
  specialize (H tok Hin'). by destruct tok.
Qed.
Lemma tok_ok_mono n n' tok : n <= n' -> tok_ok n tok -> tok_ok n' tok.
Proof. destruct tok; cbn; try done; intuition lia. Qed.

Section System.
Variable c : Config.
Variable exp32 exp64 : float -> float.
Variable accepts : Z -> bool.
#[local] Hint Extern 0 (Arith _ _) => exact (numbers exp32 exp64) : typeclass_instances.

(** ** Answers *)

(** The handler of a token; [raw] is what a read returns. *)
Definition deliver (now : Z) (tok : effect) (raw : list Z) : Effects.M t effect unit :=
  match tok with
  | Self _ e => handleTensorRowEngineEvent c exp32 exp64 accepts now e
  | LocalRead _ n tg key None => tileStreamReadAnswer c now key n true tg raw
  | LocalWrite _ _ tg key None => tileStreamWriteAnswer c now key true tg
  | LocalRead _ n tg key (Some i) => tensorLocalReadAnswer c now key i n true tg raw
  | LocalWrite _ _ tg key (Some i) => tensorLocalWriteAnswer c exp32 exp64 accepts now key i true tg
  | DmaRead _ _ _ key i => tensorInputDmaAnswer c accepts now key i true
  | DmaWrite _ _ _ key i => tensorOutputDmaAnswer c exp32 exp64 accepts now key i true
  | _ => ret tt
  end.
Definition answers (tok : effect) (raw : list Z) : Prop :=
  match tok with LocalRead _ n _ _ _ => len raw = n | _ => True end.

(** ** Where a tile is *)

Inductive phase (key : Key) (w : Worker) (P : list effect) : Prop :=
| Starting : toks key is_start P = [Self 1 (mkEvent key 0 Max AttentionStart 0)] ->
    toks key (is_stream 0) P = [] -> pendingTileStreamTag w = 0 -> nextRow w = d_row (dispatch w) -> phase key w P
| Reading tok : toks key is_start P = [] -> toks key (is_stream (pendingTileStreamTag w)) P = [tok] -> nextRow w = d_row (dispatch w) ->
    1 <= pendingTileStreamTag w ->
    (tok = LocalRead (scratchAddr w) (bytes (len (tileScoreValues w))) (pendingTileStreamTag w) key None \/
     exists d k, tok = Self d (mkEvent key 0 Max k (pendingTileStreamTag w)) /\ (k = TileStreamReadRetry \/ k = TileStreamReadDone)) -> phase key w P
| Running : toks key is_start P = [] -> Forall (fun tok => is_dispatch tok = true) (toks key (is_stream (pendingTileStreamTag w)) P) ->
    1 <= pendingTileStreamTag w ->
    rowsCompleted w < expectedRows (dispatch w) -> (exists i x, contexts w !! i = Some x /\ busy x = true) ->
    (forall i x, contexts w !! i = Some x -> busy x = true ->
       exists d e, awaits key (Z.of_nat i) x e /\ toks key (is_row (Z.of_nat i) (pendingLocalTag x)) P = [Self d e]) -> phase key w P
| Writing tok : toks key is_start P = [] -> toks key (is_stream (pendingTileStreamTag w)) P = [tok] ->
    1 <= pendingTileStreamTag w -> rowsCompleted w = expectedRows (dispatch w) ->
    (tok = LocalWrite (scratchAddr w) (bytes_of_floats (tilePValues w)) (pendingTileStreamTag w) key None \/
     exists d k, tok = Self d (mkEvent key 0 Max k (pendingTileStreamTag w)) /\ (k = TileStreamWriteRetry \/ k = TileStreamWriteDone)) -> phase key w P.

Record tile_inv (key : Key) (w : Worker) (before : Z -> option (Online double)) (on : gmap (Z * Z) OnlineRow) (P : list effect) : Prop := {
  ti_ok : tile_ok key w;
  ti_rows : rows_inv c exp32 exp64 w before on;
  ti_phase : phase key w P
}.

(** ** Work *)

Definition weight (tok : effect) : nat :=
  match tok with
  | Self _ e =>
      match e_kind e with AttentionStart => 66 | TileStreamReadRetry => 65 | TileStreamReadDone => 64 | TileStreamWriteRetry => 2 | _ => 1 end
  | LocalRead _ _ _ _ _ => 65
  | LocalWrite _ _ _ _ _ => 2
  | _ => 1
  end.
(** ** A token is delivered *)

Hypothesis lanes_pos : (0 < vectorLanes c)%nat /\ (0 < expLanes c)%nat.

(** A token that the tile does not wait for. *)
Lemma phase_drop key w P1 tok P2 : phase key w (P1 ++ tok :: P2) ->
  (of_key key tok = true -> is_start tok = false /\ (is_stream (pendingTileStreamTag w) tok = true -> is_dispatch tok = true) /\
     forall i x, contexts w !! i = Some x -> busy x = true -> is_row (Z.of_nat i) (pendingLocalTag x) tok = false) ->
  phase key w (P1 ++ P2).
Proof.
  intros H Hd. destruct (of_key key tok) eqn:Ek.
  2: { assert (forall f, toks key f (P1 ++ tok :: P2) = toks key f (P1 ++ P2)) as Et by (intros f; apply toks_other; by rewrite Ek).
    destruct H; rewrite ?Et in *; [eapply Starting|eapply Reading|eapply Running|eapply Writing]; try done.
    intros i x Hx Hb. destruct (H4 i x Hx Hb) as (d & e & Ha & Hr). rewrite Et in Hr. eauto. }
  destruct (Hd eq_refl) as (D1 & D2 & D3). assert (toks key is_start (P1 ++ tok :: P2) = toks key is_start (P1 ++ P2)) as Es by (apply toks_other; by rewrite D1, andb_false_r).
  assert (forall a, is_dispatch a = false -> toks key (is_stream (pendingTileStreamTag w)) (P1 ++ tok :: P2) = [a] ->
    toks key (is_stream (pendingTileStreamTag w)) (P1 ++ P2) = [a]) as Ea.
  { intros a Hna Hl. destruct (is_stream (pendingTileStreamTag w) tok) eqn:Eq; [|by rewrite toks_other in Hl by (by rewrite Eq, andb_false_r)].
    apply toks_one in Hl as [-> _]; [|by rewrite Ek, Eq]. by rewrite (D2 eq_refl) in Hna. }
  destruct H as [H1 H2 H3 H4|a H1 H2 H3 H4 H5|H1 H2 H3 H4 H5 H6|a H1 H2 H3 H4 H5].
  - eapply Starting; try done; [by rewrite <- Es|]. destruct (is_stream 0 tok) eqn:Eq; [|by rewrite toks_other in H2 by (by rewrite Eq, andb_false_r)].
    rewrite toks_taken in H2 by (by rewrite Ek, Eq). by destruct (toks key (is_stream 0) P1).
  - eapply Reading; try done; [by rewrite <- Es|]. apply Ea; [|done]. by destruct H5 as [->|(d & k & -> & [->| ->])].
  - eapply Running; try done; [by rewrite <- Es| |].
    + rewrite toks_app in *. rewrite toks_cons in H2. rewrite !Forall_app in *. tauto.
    + intros i x Hx Hb. destruct (H6 i x Hx Hb) as (d & e & Ha & Hr). exists d, e. split; [done|]. rewrite <- Hr. symmetry. apply toks_other. by rewrite (D3 i x), andb_false_r.
  - eapply Writing; try done; [by rewrite <- Es|]. apply Ea; [|done]. by destruct H5 as [->|(d & k & -> & [->| ->])].
Qed.

(** What a tile's end says of its rows. *)
Definition verdict (w : Worker) (before : Z -> option (Online double)) (on : gmap (Z * Z) OnlineRow) (ok : bool) (res : AttentionTileResult) : Prop :=
  if ok then res = attentionResult w /\ forall row, in_tile w row -> row_done c exp32 exp64 w before on row
  else exists row, in_tile w row /\ outcome c exp32 exp64 w before row = None.

Inductive handled (key : Key) (w : Worker) (before : Z -> option (Online double)) (s : t) (R : list effect) (tok : effect) (now : Z)
    (log : list effect) (s' : t) : Prop :=
| Lives w' :
    tensorWorkerOps_ s' = <[key := w']> (tensorWorkerOps_ s) ->
    tile_inv key w' before (attentionOnlineContexts_ s') (R ++ log) ->
    dispatch w' = dispatch w -> attentionJobId w' = attentionJobId w -> (is_read tok = false -> tileScoreValues w' = tileScoreValues w) ->
    frame w (attentionOnlineContexts_ s) (attentionOnlineContexts_ s') -> filed (attentionOnlineContexts_ s') ->
    attentionClusterSfuActivity_ s' = attentionClusterSfuActivity_ s ->
    nextTensorLocalTag_ s <= nextTensorLocalTag_ s' ->
    Forall (fun o => tok_ok (nextTensorLocalTag_ s') o /\ of_key key o = true) log ->
    (list_sum weight log + tile_work w' + (if is_retry tok then 0 else 1) <= weight tok + tile_work w)%nat ->
    handled key w before s R tok now log s'
| Ends ok res :
    tensorWorkerOps_ s' = delete key (tensorWorkerOps_ s) ->
    log = [TileDone key ok res] -> verdict w before (attentionOnlineContexts_ s) ok res ->
    toks key (fun tok => is_start tok || is_access tok) R = [] ->
    frame w (attentionOnlineContexts_ s) (attentionOnlineContexts_ s') -> filed (attentionOnlineContexts_ s') ->
    activity_ok c now (attentionClusterSfuActivity_ s') (base.size (tensorWorkerOps_ s')) ->
    nextTensorLocalTag_ s' = nextTensorLocalTag_ s ->
    handled key w before s R tok now log s'.

Section Deliver.
Context {key : Key} {w : Worker} {before : Z -> option (Online double)} {s : t} {P1 : list effect} {tok : effect} {P2 : list effect} {now : Z}.
Abbreviation n := (nextTensorLocalTag_ s).
Abbreviation on := (attentionOnlineContexts_ s).
Abbreviation R := (P1 ++ P2).
Abbreviation post := (fun (_ : unit) log s' => handled key w before s R tok now log s').
Abbreviation wp := (Effects.wp False).
Hypothesis Hw : tensorWorkerOps_ s !! key = Some w.
Hypothesis Hinv : tile_inv key w before on (P1 ++ tok :: P2).
Hypothesis Hall : Forall (tok_ok n) (P1 ++ tok :: P2).
Hypothesis Hfd : filed on.
Hypothesis Hact : activity_ok c now (attentionClusterSfuActivity_ s) (base.size (tensorWorkerOps_ s)).
Hypothesis Hn : 1 <= n.
Hypothesis Hroom : n + 1 < 2 ^ 64.

Lemma rest_ok : Forall (tok_ok n) R /\ tok_ok n tok.
Proof. apply Forall_app in Hall as [H1 H2]. apply Forall_cons in H2 as [H2 H3]. split; [by apply Forall_app|done]. Qed.

Lemma ignored : (of_key key tok = true -> is_start tok = false /\ (is_stream (pendingTileStreamTag w) tok = true -> is_dispatch tok = true) /\
    forall i x, contexts w !! i = Some x -> busy x = true -> is_row (Z.of_nat i) (pendingLocalTag x) tok = false) ->
  handled key w before s R tok now [] s.
Proof.
  intros H. destruct Hinv as [H1 H2 H3]. apply (Lives _ _ _ _ _ _ _ _ _ w); try done.
  - by rewrite insert_id.
  - rewrite app_nil_r. constructor; try done. by eapply phase_drop.
  - cbn. assert (1 <= weight tok)%nat; [|case_match; lia]. destruct tok; cbn; repeat case_match; lia.
Qed.

Lemma lives w' log s' : stepped c exp32 exp64 s key w before on w' s' -> phase key w' (R ++ log) -> n <= nextTensorLocalTag_ s' ->
  Forall (fun o => tok_ok (nextTensorLocalTag_ s') o /\ of_key key o = true) log ->
  (list_sum weight log + tile_work w' + (if is_retry tok then 0 else 1) <= weight tok + tile_work w)%nat ->
  handled key w before s R tok now log s'.
Proof.
  intros [S1 S2 S3 S4 S5 S6 S7 S8] Hp Hn' Hl Hwk. unfold static in S7. injection S7 as ? ? ? ? ? ?. by apply (Lives _ _ _ _ _ _ _ _ _ w').
Qed.
Lemma ends_failed l s' : failed c exp32 exp64 s key w before on n now l s' -> toks key is_start R = [] -> toks key is_access R = [] ->
  handled key w before s R tok now l s'.
Proof.
  intros [F1 F2 F3 F4 F5 F6 [res ->]] H1 H2. apply (Ends _ _ _ _ _ _ _ _ _ false res); try done.
  apply toks_nil. intros o Hin Hk. apply orb_false_iff. split; [by eapply (proj1 (toks_nil _ _ _) H1)|by eapply (proj1 (toks_nil _ _ _) H2)].
Qed.

(** *** Streams *)

Lemma self_ok k d i st kd tg : 0 <= i -> 0 <= tg < k -> (tile_kind kd = true -> 1 <= tg) -> kd <> ScoreFifoWriteDone -> kd <> PFifoReadDone ->
  tok_ok k (Self d (mkEvent key i st kd tg)) /\ of_key key (Self d (mkEvent key i st kd tg)) = true.
Proof. intros H1 H2 H3 H4 H5. cbn. rewrite bool_decide_true by done. split; [|done]. split_and!; auto; lia. Qed.

(** The stream of the scores is requested, at the start or again. *)
Lemma wp_read_stream : toks key is_start R = [] -> toks key is_access R = [] -> nextRow w = d_row (dispatch w) ->
  (65 + (if is_retry tok then 0 else 1) <= weight tok)%nat -> wp (issueAttentionTileStreamRead c accepts now key) post [] s.
Proof.
  intros H1 H2 H3 Hwt. destruct Hinv as [Hok Hri _]. destruct rest_ok as [Hr _]. eapply (wp_stream_read c accepts lanes_pos _ w); try done; [lia|].
  intros a s' E1 E2 E3 E4 Ha. change (handled key w before s R tok now [a] s'). set (b := bytes _) in *. set (w' := streaming c now w n b).
  assert (of_key key a && is_stream n a = true) as Est.
  { destruct Ha as [->|[d ->]]; cbn; rewrite bool_decide_true by done; [done|]. by rewrite Z.eqb_refl. }
  assert (of_key key a && is_start a = false) as Ens by (destruct Ha as [->|[d ->]]; cbn; by rewrite andb_false_r).
  eapply (lives w').
  - constructor; try done; rewrite ?E2; try done; [by eapply tile_ok_same; [exact Hok|..]|by eapply (rows_same c exp32 exp64 lanes_pos w)].
  - eapply (Reading _ _ _ a); try done.
    + by rewrite toks_app, H1, toks_cons, Ens.
    + change (pendingTileStreamTag w') with n. by rewrite toks_app, toks_cons, Est, toks_fresh_stream by done.
    + destruct Ha as [->|[d ->]]; [by left|right]. eauto.
  - lia.
  - rewrite E4. apply Forall_singleton. destruct Ha as [->|[d ->]]; [cbn; rewrite bool_decide_true by done; repeat split; lia|]. apply self_ok; try done; lia.
  - change (tile_work w') with (tile_work w). assert (list_sum weight [a] = 65)%nat as -> by (by destruct Ha as [->|[d ->]]). lia.
Qed.
Lemma wp_write_stream : toks key is_start R = [] -> toks key is_access R = [] -> rowsCompleted w = expectedRows (dispatch w) ->
  (2 + (if is_retry tok then 0 else 1) <= weight tok)%nat -> wp (issueAttentionTileStreamWrite c accepts now key) post [] s.
Proof.
  intros H1 H2 H3 Hwt. destruct Hinv as [Hok Hri _]. destruct rest_ok as [Hr _]. eapply (wp_stream_write c accepts lanes_pos _ w); try done; [lia|].
  intros a s' E1 E2 E3 E4 Ha. change (handled key w before s R tok now [a] s'). set (b := bytes _) in *. set (w' := streaming c now w n b).
  assert (of_key key a && is_stream n a = true) as Est.
  { destruct Ha as [->|[d ->]]; cbn; rewrite bool_decide_true by done; [done|]. by rewrite Z.eqb_refl. }
  assert (of_key key a && is_start a = false) as Ens by (destruct Ha as [->|[d ->]]; cbn; by rewrite andb_false_r).
  eapply (lives w').
  - constructor; try done; rewrite ?E2; try done; [by eapply tile_ok_same; [exact Hok|..]|by eapply (rows_same c exp32 exp64 lanes_pos w)].
  - eapply (Writing _ _ _ a); try done.
    + by rewrite toks_app, H1, toks_cons, Ens.
    + change (pendingTileStreamTag w') with n. by rewrite toks_app, toks_cons, Est, toks_fresh_stream by done.
    + destruct Ha as [->|[d ->]]; [by left|right]. eauto.
  - lia.
  - rewrite E4. apply Forall_singleton. destruct Ha as [->|[d ->]]; [cbn; rewrite bool_decide_true by done; repeat split; lia|]. apply self_ok; try done; lia.
  - change (tile_work w') with (tile_work w). assert (list_sum weight [a] = 2)%nat as -> by (by destruct Ha as [->|[d ->]]). lia.
Qed.

(** *** Answers of the memory *)

Lemma idle_contexts i x : nextRow w = d_row (dispatch w) -> contexts w !! i = Some x -> busy x = false.
Proof.
  intros Hnr Hx. destruct Hinv as [_ Hri _]. destruct (busy x) eqn:Hb; [|done]. destruct (ri_runs _ _ _ _ _ _ Hri _ _ Hx Hb) as ([H1 _] & H2 & _). lia.
Qed.
Lemma access_phase : of_key key tok = true -> is_access tok = true ->
  toks key is_start R = [] /\ toks key is_access R = [] /\ toks key (is_stream (pendingTileStreamTag w)) R = [] /\ 1 <= pendingTileStreamTag w /\
  (tok = LocalRead (scratchAddr w) (bytes (len (tileScoreValues w))) (pendingTileStreamTag w) key None /\ nextRow w = d_row (dispatch w) \/
   tok = LocalWrite (scratchAddr w) (bytes_of_floats (tilePValues w)) (pendingTileStreamTag w) key None /\ rowsCompleted w = expectedRows (dispatch w)).
Proof using Hinv.
  clear Hall Hfd Hact Hn Hroom Hw.
  intros Hk Ha. assert (forall tg, of_key key tok && is_stream tg tok = true) as Hs by (intros tg; unfold is_stream; by rewrite Hk, Ha).
  assert (toks key is_start (P1 ++ tok :: P2) = [] -> toks key is_start R = []) as Hst.
  { intros E. rewrite toks_other in E; [done|]. destruct tok; cbn; by rewrite ?andb_false_r. }
  destruct Hinv as [_ _ Hp]. destruct Hp as [H1 H2 H3 H4|a H1 H2 H3 H4 H5|H1 H2 H3 H4 H5 H6|a H1 H2 H3 H4 H5].
  - rewrite (toks_taken _ _ _ _ _ (Hs 0)) in H2. by destruct (toks key (is_stream 0) P1).
  - apply toks_one in H2 as [<- H2]; [|done]. split_and!; auto; [by eapply no_access|]. destruct H5 as [->|(d & k & -> & _)]; [auto|done].
  - rewrite (toks_taken _ _ _ _ _ (Hs _)) in H2. apply Forall_app in H2 as [_ H2]. apply Forall_cons in H2 as [H2 _]. by destruct tok.
  - apply toks_one in H2 as [<- H2]; [|done]. split_and!; auto; [by eapply no_access|]. destruct H5 as [->|(d & k & -> & _)]; [auto|done].
Qed.

(** Rows that have not begun do not depend on the scores. *)
Lemma rows_reload l : nextRow w = d_row (dispatch w) -> rows_inv c exp32 exp64 (w <| tileScoreValues := l |>) before on.
Proof.
  intros Hnr. pose proof (fun i x => idle_contexts i x Hnr) as Hidle. destruct Hinv as [_ [R1 R2 R3 R4 R5 R6] _].
  constructor; try done.
  - intros i x Hx Hb. change (contexts w !! i = Some x) in Hx. by rewrite (Hidle i x Hx) in Hb.
  - intros row Hr. change (d_row (dispatch w) <= row < nextRow w) in Hr. lia.
Qed.

Lemma length_floats k : forall l : list Z, length l = (4 * k)%nat -> length (floats_of_bytes l) = k.
Proof.
  induction k as [|k IH]; intros l Hl; [by destruct l|]. destruct l as [|a [|b [|d [|e l]]]]; cbn in Hl; try lia. cbn. f_equal. apply IH. lia.
Qed.

Lemma wp_access raw : of_key key tok = true -> is_access tok = true -> answers tok raw -> wp (deliver now tok raw) post [] s.
Proof.
  intros Hk Ha Hans. destruct (access_phase Hk Ha) as (H1 & H2 & H3 & H4 & Hp). destruct (Hinv) as [Hok Hri _]. destruct rest_ok as [Hr Htok].
  destruct Hp as [[Et Hnr]|[Et Hrc]].
  - assert (len raw = bytes (len (tileScoreValues w))) as Hl by (by rewrite Et in Hans).
    rewrite Et at 1. cbn [deliver]. unfold tileStreamReadAnswer, with_worker. unfold Effects.wp. rewrite Hw, !Z.eqb_refl, Hl, Z.eqb_refl. cbn [negb orb].
    unfold bind. cbn. unfold scheduleAttentionTileStreamEvent, with_worker. cbn. rewrite lookup_insert_eq. cbn.
    set (w' := w <| tileScoreValues := floats_of_bytes raw |>). set (a := Self _ _).
    assert (length (floats_of_bytes raw) = length (tileScoreValues w)) as Lf.
    { apply length_floats. destruct Hok as [[_ _ _ Hc] Hrw _ _ _ T6 _ _ _]. unfold bytes, len in Hl. rewrite T6 in *. unfold tile_rows, cols in *.
      rewrite u64_small in Hl by (unfold is_u64; nia). nia. }
    apply (Lives _ _ _ _ _ _ _ _ _ w'); try done.
    + constructor; [by eapply tile_ok_same; [exact Hok|..]|by apply rows_reload|]. eapply (Reading _ _ _ a); try done.
      * rewrite toks_app, H1. cbn. by rewrite andb_false_r.
      * change (pendingTileStreamTag w') with (pendingTileStreamTag w). rewrite toks_app, H3. unfold a. rewrite toks_cons. cbn. by rewrite bool_decide_true, Z.eqb_refl.
      * right. by eexists _, _; split; [|right].
    + intros E. by rewrite Et in E.
    + apply Forall_singleton. apply self_ok; try done. change (0 <= pendingTileStreamTag w < n). rewrite Et in Htok. cbn in Htok. lia.
    + rewrite Et. change (64 + 0 + tile_work w + 1 <= 65 + tile_work w)%nat. lia.
  - rewrite Et at 1. cbn [deliver]. unfold tileStreamWriteAnswer, with_worker. unfold Effects.wp. rewrite Hw, !Z.eqb_refl. cbn [negb orb].
    unfold scheduleAttentionTileStreamEvent, with_worker. cbn. rewrite Hw. cbn. set (a := Self _ _).
    apply (Lives _ _ _ _ _ _ _ _ _ w); try done.
    + by rewrite insert_id.
    + constructor; try done. eapply (Writing _ _ _ a); try done.
      * rewrite toks_app, H1. cbn. by rewrite andb_false_r.
      * rewrite toks_app, H3. unfold a. rewrite toks_cons. cbn. by rewrite bool_decide_true, Z.eqb_refl.
      * right. by eexists _, _; split; [|right].
    + apply Forall_singleton. apply self_ok; try done. change (0 <= pendingTileStreamTag w < n). rewrite Et in Htok. cbn in Htok. lia.
    + rewrite Et. change (1 + 0 + tile_work w + 1 <= 2 + tile_work w)%nat. lia.
Qed.

(** The scores are what the memory answers. *)
Lemma read_scores raw log s' : of_key key tok = true -> is_read tok = true -> answers tok raw -> deliver now tok raw s = Some (tt, (log, s')) ->
  exists w', tensorWorkerOps_ s' !! key = Some w' /\ tileScoreValues w' = floats_of_bytes raw.
Proof.
  intros Hk Hrd Hans. destruct (access_phase Hk) as (_ & _ & _ & _ & Hp); [by destruct tok|]. destruct Hp as [[Et _]|[Et _]]; [|by rewrite Et in Hrd].
  assert (len raw = bytes (len (tileScoreValues w))) as Hl by (by rewrite Et in Hans).
  rewrite Et at 1. cbn [deliver]. unfold tileStreamReadAnswer, with_worker. rewrite Hw, !Z.eqb_refl, Hl, Z.eqb_refl. cbn [negb orb].
  unfold bind. cbn. unfold scheduleAttentionTileStreamEvent, with_worker. cbn. rewrite lookup_insert_eq. cbn.
  intros [= _ <-]. cbn. rewrite lookup_insert_eq. eexists. split; [done|]. done.
Qed.

(** *** Rows *)

Definition waited (j : nat) (y : Context) (P : list effect) : Prop :=
  exists d e, awaits key (Z.of_nat j) y e /\ toks key (is_row (Z.of_nat j) (pendingLocalTag y)) P = [Self d e].

(** A context has gone on, or has begun a row. *)
Lemma running_phase w' x' i tg d e' s' extra : runs_on c exp32 exp64 s key w i before on n tg w' x' e' s' -> 0 <= i ->
  (Z.to_nat i < length (contexts w))%nat ->
  toks key is_start R = [] -> Forall (fun o => is_dispatch o = true) (toks key (is_stream (pendingTileStreamTag w)) R) -> 1 <= pendingTileStreamTag w ->
  toks key (is_row i (pendingLocalTag x')) R = [] ->
  (forall j y, j <> Z.to_nat i -> contexts w !! j = Some y -> busy y = true -> waited j y R) ->
  Forall (fun o => is_dispatch o = true) extra ->
  phase key w' (R ++ Self d e' :: extra).
Proof.
  intros [[S1 S2 S3 S4 S5 S6 S7 S8] Rc Rb Rt Ra Rs Rn] Hi Hlt H1 H2 H3 H4 H5 H6.
  assert (contexts w' !! Z.to_nat i = Some x') as Hx' by (rewrite Rc; by apply list_lookup_insert_eq).
  destruct (ri_runs _ _ _ _ _ _ S3 _ _ Hx' Rb) as (_ & _ & o & _ & Ha & _).
  assert (forall f, (forall a, is_dispatch a = true -> f a = false) -> toks key f extra = []) as Hex.
  { intros f Hf. apply toks_nil. intros a Ha' _. rewrite Forall_forall in H6. by apply Hf, H6. }
  assert (exists k, e' = mkEvent key i (stage x') k (pendingLocalTag x') /\ tile_kind k = false) as (k & -> & Hk).
  { destruct Ra as (k & -> & Hk). exists k. split; [done|]. destruct Hk as [->| ->]; [|done]. destruct Ha as [_ Ha]. by destruct (pendingHardwareCompletionKind x'). }
  assert (forall g, toks key g (R ++ Self d (mkEvent key i (stage x') k (pendingLocalTag x')) :: extra) =
    toks key g R ++ (if g (Self d (mkEvent key i (stage x') k (pendingLocalTag x'))) then [Self d (mkEvent key i (stage x') k (pendingLocalTag x'))] else []) ++ toks key g extra) as Et.
  { intros g. rewrite toks_app, toks_cons. unfold of_key at 1. cbn [e_key]. by rewrite bool_decide_true. }
  eapply Running.
  - rewrite Et, H1. cbn. rewrite Hex by (intros [] E; try done; cbn in *; by apply bool_decide_eq_true in E as ->). destruct k; done.
  - rewrite Et, Rs. unfold is_stream at 2. cbn. rewrite Hk. cbn. apply Forall_app. split; [done|]. apply Forall_forall. intros a Hin.
    apply list_elem_of_filter in Hin as [_ Hin]. rewrite Forall_forall in H6. by apply H6.
  - by rewrite Rs.
  - destruct (static_eq c exp32 exp64 w' w S7) as (Ed & _). by rewrite Ed.
  - by exists (Z.to_nat i), x'.
  - intros j y Hy Hb. destruct (decide (j = Z.to_nat i)) as [->|Hne].
    + rewrite Hx' in Hy. injection Hy as <-. exists d, (mkEvent key i (stage x') k (pendingLocalTag x')). rewrite Z2Nat.id by done. split; [done|].
      rewrite Et, H4, Hex by (intros [] E; try done; cbn in *; by apply bool_decide_eq_true in E as ->). cbn. by rewrite Hk, !Z.eqb_refl.
    + rewrite Rc, list_lookup_insert_ne in Hy by done. destruct (H5 j y Hne Hy Hb) as (d0 & e0 & Ha0 & Hr0). exists d0, e0. split; [done|].
      rewrite Et, Hr0, Hex by (intros [] E; try done; cbn in *; by apply bool_decide_eq_true in E as ->). cbn.
      assert ((i =? Z.of_nat j) = false) as -> by (apply Z.eqb_neq; lia). by rewrite andb_false_r.
Qed.

(** *** Events *)

Lemma handle_event_eq e : e_kind e <> ScoreFifoWriteDone -> e_kind e <> PFifoReadDone ->
  handleTensorRowEngineEvent c exp32 exp64 accepts now e =
  with_context (e_key e) (e_context e) (fun w x =>
    if negb (w_generation w =? key_generation (e_key e)) then ret tt
    else if tile_kind (e_kind e) then handle_tile_event c exp32 exp64 accepts now e w
    else if negb (busy x) || negb (bool_decide (stage x = e_stage e)) || negb (pendingLocalTag x =? e_localTag e) then ret tt
    else handle_row_event c exp32 exp64 accepts now (e_key e) (e_context e) w x (e_kind e)).
Proof using Type. clear. intros H1 H2. unfold handleTensorRowEngineEvent. by destruct (e_kind e). Qed.

Lemma wp_at (m : Worker -> Context -> Effects.M t effect unit) i x : contexts w !! Z.to_nat i = Some x -> wp (m w x) post [] s -> wp (with_context key i m) post [] s.
Proof using Hw. intros Hx H. unfold with_context, with_worker. unfold Effects.wp. by rewrite Hw, Hx. Qed.
Lemma wp_nowhere (m : Worker -> Context -> Effects.M t effect unit) i : contexts w !! Z.to_nat i = None -> post tt [] s -> wp (with_context key i m) post [] s.
Proof using Hw. intros Hx H. unfold with_context, with_worker. unfold Effects.wp. by rewrite Hw, Hx. Qed.

Lemma context_0 : exists x, contexts w !! 0%nat = Some x.
Proof. destruct Hinv as [Hok _ _]. destruct (tk_contexts _ _ Hok) as [H _]. destruct (contexts w) as [|x l]; [cbn in H; lia|by exists x]. Qed.

Lemma start_phase : of_key key tok = true -> is_start tok = true ->
  tok = Self 1 (mkEvent key 0 Max AttentionStart 0) /\ toks key is_start R = [] /\ toks key is_access R = [] /\ nextRow w = d_row (dispatch w).
Proof.
  intros Hk Hs. destruct Hinv as [_ _ Hp]. destruct Hp as [H1 H2 H3 H4|a H1 _ _ _ _|H1 _ _ _ _ _|a H1 _ _ _ _].
  - apply toks_one in H1 as [-> H1]; [|by rewrite Hk, Hs]. split_and!; try done. apply (no_access _ 0). rewrite toks_other in H2; [done|]. cbn. by rewrite andb_false_r.
  - rewrite toks_taken in H1 by (by rewrite Hk, Hs). by destruct (toks key is_start P1).
  - rewrite toks_taken in H1 by (by rewrite Hk, Hs). by destruct (toks key is_start P1).
  - rewrite toks_taken in H1 by (by rewrite Hk, Hs). by destruct (toks key is_start P1).
Qed.

Inductive stream_case : Prop :=
| sc_read d k : tok = Self d (mkEvent key 0 Max k (pendingTileStreamTag w)) -> k = TileStreamReadRetry \/ k = TileStreamReadDone ->
    nextRow w = d_row (dispatch w) -> toks key (is_stream (pendingTileStreamTag w)) R = [] -> stream_case
| sc_dispatch : is_dispatch tok = true -> rowsCompleted w < expectedRows (dispatch w) ->
    Forall (fun o => is_dispatch o = true) (toks key (is_stream (pendingTileStreamTag w)) R) ->
    (forall j y, contexts w !! j = Some y -> busy y = true -> waited j y R) -> stream_case
| sc_write d k : tok = Self d (mkEvent key 0 Max k (pendingTileStreamTag w)) -> k = TileStreamWriteRetry \/ k = TileStreamWriteDone ->
    rowsCompleted w = expectedRows (dispatch w) -> toks key (is_stream (pendingTileStreamTag w)) R = [] -> stream_case.

Lemma stream_phase : of_key key tok = true -> is_start tok = false -> is_access tok = false -> is_stream (pendingTileStreamTag w) tok = true ->
  toks key is_start R = [] /\ 1 <= pendingTileStreamTag w /\ stream_case.
Proof.
  intros Hk Hns Hna Hs. assert (toks key is_start (P1 ++ tok :: P2) = toks key is_start R) as Est by (apply toks_other; by rewrite Hns, andb_false_r).
  assert (of_key key tok && is_stream (pendingTileStreamTag w) tok = true) as Hks by (by rewrite Hk, Hs).
  destruct Hinv as [_ _ Hp]. destruct Hp as [H1 H2 H3 H4|a H1 H2 H3 H4 H5|H1 H2 H3 H4 H5 H6|a H1 H2 H3 H4 H5].
  - rewrite <- H3 in H2. rewrite toks_taken in H2 by done. by destruct (toks key (is_stream _) P1).
  - apply toks_one in H2 as [<- H2]; [|done]. split_and!; [by rewrite <- Est|done|]. destruct H5 as [->|(d & k & -> & Hk')]; [done|]. by eapply sc_read.
  - rewrite toks_taken in H2 by done. apply Forall_app in H2 as [H2 H2']. apply Forall_cons in H2' as [Hd H2'].
    split_and!; [by rewrite <- Est|done|]. eapply sc_dispatch; [done|done|rewrite toks_app; by apply Forall_app|].
    intros j y Hy Hb. destruct (H6 j y Hy Hb) as (d & e & Ha & Hr). exists d, e. split; [done|]. rewrite toks_other in Hr; [done|].
    destruct tok; try done. cbn in *. apply bool_decide_eq_true in Hd as ->. by rewrite andb_false_r.
  - apply toks_one in H2 as [<- H2]; [|done]. split_and!; [by rewrite <- Est|done|]. destruct H5 as [->|(d & k & -> & Hk')]; [done|]. by eapply sc_write.
Qed.

Lemma handling_init i x : contexts w !! Z.to_nat i = Some x -> rowsCompleted w < expectedRows (dispatch w) ->
  handling c exp32 exp64 (s0 := s) (key := key) (w := w) (before := before) (on := on) i w x on n s.
Proof.
  intros Hx Hc. destruct Hinv as [Hok Hri _]. constructor; try done; [by apply cur_init|by rewrite list_insert_id|by apply lookup_lt_Some in Hx|lia].
Qed.

Lemma wp_send_all Q l : forall log s', Q tt (log ++ l) s' -> wp (send_all l) Q log s'.
Proof.
  induction l as [|a l IH]; intros log s' H; cbn [send_all]; [apply wp_ret; by rewrite app_nil_r in H|].
  apply wp_bind, wp_send, IH. by rewrite <- (assoc_L (++)).
Qed.

(** The awaited event of a context that has gone on. *)
Lemma runs_token w' x' i tg d e' s' : runs_on c exp32 exp64 s key w i before on n tg w' x' e' s' -> 0 <= i -> (Z.to_nat i < length (contexts w))%nat ->
  0 <= pendingLocalTag x' < nextTensorLocalTag_ s' ->
  weight (Self d e') = 1%nat /\ tok_ok (nextTensorLocalTag_ s') (Self d e') /\ of_key key (Self d e') = true.
Proof.
  intros [[S1 S2 S3 S4 S5 S6 S7 S8] Rc Rb Rt Ra Rs Rn] Hi Hlt Ht.
  assert (contexts w' !! Z.to_nat i = Some x') as Hx' by (rewrite Rc; by apply list_lookup_insert_eq).
  destruct (ri_runs _ _ _ _ _ _ S3 _ _ Hx' Rb) as (_ & _ & o & _ & [_ Ha] & _). destruct Ra as (k & -> & Hk).
  assert (tile_kind k = false /\ k <> ScoreFifoWriteDone /\ k <> PFifoReadDone) as (K1 & K2 & K3).
  { destruct Hk as [->| ->]; [|done]. by destruct (pendingHardwareCompletionKind x'). }
  split; [cbn; by destruct k|]. apply self_ok; try done. by rewrite K1.
Qed.

(** The scores are there: the first context begins, the others follow. *)
Lemma wp_scores_read : toks key is_start R = [] -> toks key (is_stream (pendingTileStreamTag w)) R = [] -> nextRow w = d_row (dispatch w) ->
  1 <= pendingTileStreamTag w -> pendingTileStreamTag w < n -> weight tok = 64%nat -> is_retry tok = false ->
  wp (scheduleAttentionRowDispatch c exp32 exp64 accepts now key) post [] s.
Proof.
  intros H1 H2 H3 H4 H4' Hwt Hnr. destruct context_0 as [x Hx]. destruct (Hinv) as [Hok Hri _]. destruct rest_ok as [Hr _].
  pose proof (tk_contexts _ _ Hok) as Hctx. pose proof (tk_rows _ _ Hok) as Hrows. pose proof (ri_count _ _ _ _ _ _ Hri) as [Hc0 Hc1].
  assert (rowsCompleted w < expectedRows (dispatch w)) as Hcnt by lia.
  assert (0 < length (contexts w))%nat as Hlt by lia.
  eapply (wp_cast _ _ (issueTensorInputDma c exp32 exp64 accepts now key 0 ;;
    with_worker key (fun _ => send_all (map (fun index => Self (u64 (index * rowDispatchIntervalCycles_ c)) (mkEvent key index Max RowDispatch (pendingTileStreamTag w)))
      (seqZ 1 (len (contexts w) - 1)))))%sched).
  { unfold scheduleAttentionRowDispatch. rewrite Hw. destruct (tk_streamed _ _ Hok) as [_ -> _ _].
    assert ((len (contexts w) =? 0) = false) as -> by (apply Z.eqb_neq; unfold len; lia). done. }
  apply wp_bind. eapply (wp_input c exp32 exp64 accepts lanes_pos Hw Hact _ 0 w x on n s []); [by apply handling_init|by eapply idle_contexts|lia| |].
  - intros d e s' w' x' Hro Hwk. set (ds := map _ _).
    eapply (wp_cast _ _ (send_all ds)); [unfold with_worker; by rewrite (sp_ops _ _ _ _ _ _ _ _ _ _ (ro_stepped _ _ _ _ _ _ _ _ _ _ _ _ _ _ _ Hro)), lookup_insert_eq|].
    apply wp_send_all. cbn [app]. destruct (ro_tagged _ _ _ _ _ _ _ _ _ _ _ _ _ _ _ Hro) as [[En Et]|[_ ?]]; [|done].
    assert (Forall (fun o => is_dispatch o = true /\ (tok_ok (nextTensorLocalTag_ s') o /\ of_key key o = true) /\ weight o = 1%nat) ds) as Hds.
    { apply Forall_map, Forall_forall. intros index Hin. apply elem_of_seqZ in Hin. split; [done|]. split; [|done]. apply self_ok; try done; lia. }
    assert (length ds = (length (contexts w) - 1)%nat) as Lds by (unfold ds; rewrite length_map, length_seqZ; unfold len; lia).
    destruct (runs_token w' x' 0 None d e s' Hro) as (T1 & T2 & T3); [done|done|lia|].
    eapply (lives w'); [by eapply ro_stepped| | | |].
    + eapply (running_phase w' x' 0 None d e s' ds Hro); try done.
      * by rewrite H2.
      * rewrite Et. by apply toks_fresh_row.
      * intros j y _ Hy Hb. by rewrite (idle_contexts j y H3 Hy) in Hb.
      * eapply Forall_impl; [exact Hds|]. by intros o [? _].
    + lia.
    + apply Forall_cons. split; [done|]. eapply Forall_impl; [exact Hds|]. by intros o (_ & ? & _).
    + rewrite Hnr, Hwt. change (list_sum weight (Self d e :: ds)) with (weight (Self d e) + list_sum weight ds)%nat. rewrite T1.
      assert (list_sum weight ds = length ds) as ->; [|lia]. clear - Hds. unfold list_sum. induction Hds as [|o l (_ & _ & Ho) _ IH]; cbn; [done|]. rewrite IH, Ho. done.
  - intros s' l Hf. eapply (wp_cast _ _ (ret tt)); [unfold with_worker; by rewrite (fl_ops _ _ _ _ _ _ _ _ _ _ _ _ Hf), lookup_delete_eq|].
    apply wp_ret. apply ends_failed; try done. by eapply no_access.
Qed.

Lemma weight_pos o : (1 <= weight o)%nat.
Proof using Type. clear. destruct o; cbn; repeat case_match; lia. Qed.
Lemma work_step log w' : (list_sum weight log <= 1)%nat -> (tile_work w' < tile_work w)%nat ->
  (list_sum weight log + tile_work w' + (if is_retry tok then 0 else 1) <= weight tok + tile_work w)%nat.
Proof. pose proof (weight_pos tok). case_match; lia. Qed.

(** A context that is to begin a row. *)
Lemma wp_dispatched i x : contexts w !! Z.to_nat i = Some x -> 0 <= i -> toks key is_start R = [] -> 1 <= pendingTileStreamTag w ->
  rowsCompleted w < expectedRows (dispatch w) -> is_dispatch tok = true ->
  Forall (fun o => is_dispatch o = true) (toks key (is_stream (pendingTileStreamTag w)) R) ->
  (forall j y, contexts w !! j = Some y -> busy y = true -> waited j y R) ->
  handled key w before s R tok now [] s ->
  wp (issueTensorInputDma c exp32 exp64 accepts now key i) post [] s.
Proof.
  intros Hx Hi H1 H2 Hc Hd H3 H4 Hsame. destruct rest_ok as [Hr _]. pose proof (lookup_lt_Some _ _ _ Hx) as Hlt. destruct (busy x) eqn:Hb.
  - apply (wp_at _ _ x Hx). rewrite Hb. cbn [orb]. by apply wp_ret.
  - eapply (wp_continue c exp32 exp64 accepts lanes_pos Hw Hact _ i w x on n s []); [by apply handling_init|done| | |done].
    + intros d e s' w' x' Hro Hwk. destruct (ro_tagged _ _ _ _ _ _ _ _ _ _ _ _ _ _ _ Hro) as [[En Et]|[_ ?]]; [|done].
      destruct (runs_token w' x' i None d e s' Hro) as (T1 & T2 & T3); [done|done|lia|]. cbn [app].
      eapply (lives w'); [by eapply ro_stepped| |lia|by apply Forall_singleton|apply work_step; [change (weight (Self d e) + 0 <= 1)%nat; lia|done]].
      eapply (running_phase w' x' i None d e s' [] Hro); try done.
      * rewrite Et. by apply toks_fresh_row.
      * intros j y _ Hy Hby. by apply H4.
    + intros s' l Hf. apply ends_failed; try done. by eapply no_access_dispatch.
Qed.

(** The weights are written. *)
Lemma all_done : rowsCompleted w = expectedRows (dispatch w) -> forall row, in_tile w row -> row_done c exp32 exp64 w before on row.
Proof using Hinv.
  clear Hall Hfd Hact Hn Hroom Hw lanes_pos.
  intros Hc row Hin. destruct Hinv as [Hok Hri _]. destruct (ri_next _ _ _ _ _ _ Hri) as [_ Hnx]. destruct (ri_count _ _ _ _ _ _ Hri) as [_ Hct].
  assert (busy_contexts w = []) as Hnb by (apply length_zero_iff_nil; lia). rewrite Hnb in Hct. cbn in Hct. unfold in_tile in Hin.
  destruct (ri_started _ _ _ _ _ _ Hri row) as [Hd|(i & x & Hx & Hb & _)]; [lia|done|]. exfalso.
  assert (x ∈ busy_contexts w) as Hel by (apply list_elem_of_filter; split; [done|by eapply list_elem_of_lookup_2]). rewrite Hnb in Hel. by apply elem_of_nil in Hel.
Qed.
Lemma wp_weights_written : toks key is_start R = [] -> toks key is_access R = [] -> rowsCompleted w = expectedRows (dispatch w) ->
  wp (finishTensorWorker c now key true) post [] s.
Proof.
  intros H1 H2 Hc. destruct (Hinv) as [Hok _ _]. destruct (tk_streamed _ _ Hok) as [Hl _ _ _].
  eapply (wp_finish c lanes_pos _ _ w); try done. intros s' E1 E2 E3 E4. cbn [app]. fold (without_tile w on) in E2.
  apply (Ends _ _ _ _ _ _ _ _ _ true (attentionResult w)); try done; rewrite ?E2; [| |by apply frame_without|by apply filed_without].
  - split; [done|]. by apply all_done.
  - apply toks_nil. intros o Hin Hk. apply orb_false_iff. split; [by eapply (proj1 (toks_nil _ _ _) H1)|by eapply (proj1 (toks_nil _ _ _) H2)].
Qed.

Lemma busy_exists w' on' : rows_inv c exp32 exp64 w' before on' -> rowsCompleted w' < nextRow w' - d_row (dispatch w') ->
  exists i x, contexts w' !! i = Some x /\ busy x = true.
Proof.
  intros Hri Hlt. destruct (ri_count _ _ _ _ _ _ Hri) as [_ Hc]. destruct (busy_contexts w') as [|x l] eqn:E; [cbn in Hc; lia|].
  assert (x ∈ busy_contexts w') as Hin by (rewrite E; by left). apply list_elem_of_filter in Hin as [Hb Hin]. apply list_elem_of_lookup in Hin as [i Hi]. by exists i, x.
Qed.

(** The event of a row arrives. *)
Lemma wp_row_event d e x : tok = Self d e -> e_key e = key -> 0 <= e_context e -> contexts w !! Z.to_nat (e_context e) = Some x -> busy x = true ->
  is_row (e_context e) (pendingLocalTag x) tok = true ->
  wp (handle_row_event c exp32 exp64 accepts now key (e_context e) w x (e_kind e)) post [] s.
Proof.
  intros Et Ek Hi Hx Hb Hrow. set (i := e_context e) in *. destruct (Hinv) as [Hok Hri Hp]. destruct rest_ok as [Hr Htok]. pose proof (lookup_lt_Some _ _ _ Hx) as Hlt.
  assert (of_key key tok = true) as Hk by (rewrite Et; cbn; by rewrite bool_decide_true).
  assert (exists d0 e0, e0 = e /\ tok = Self d0 e0 /\ tile_kind (e_kind e) = false) as (_ & _ & _ & _ & Htk).
  { exists d, e. split_and!; [done|done|]. rewrite Et in Hrow. cbn in Hrow. by destruct (tile_kind (e_kind e)). }
  assert (is_start tok = false /\ forall tg, is_stream tg tok = false) as [Hns Hnst].
  { rewrite Et. cbn. split; [apply bool_decide_eq_false; intros E; by rewrite E in Htk|]. intros tg. unfold is_stream. cbn. by rewrite Htk. }
  assert (forall f, (f = is_start \/ exists tg, f = is_stream tg) -> toks key f (P1 ++ tok :: P2) = toks key f R) as Hsame.
  { intros f Hf. apply toks_other. destruct Hf as [->|[tg ->]]; [by rewrite Hns, andb_false_r|by rewrite Hnst, andb_false_r]. }
  destruct Hp as [_ _ _ Hnr|a _ _ Hnr _ _|H1 H2 H3 H4 H5 H6|a _ _ _ Hrc _].
  1,2: by rewrite (idle_contexts _ x Hnr Hx) in Hb.
  2: { exfalso. destruct (ri_next _ _ _ _ _ _ Hri) as [_ Hnx]. destruct (ri_count _ _ _ _ _ _ Hri) as [_ Hct].
    assert (busy_contexts w = []) as Hnb by (apply length_zero_iff_nil; lia).
    assert (x ∈ busy_contexts w) as Hel by (apply list_elem_of_filter; split; [done|by eapply list_elem_of_lookup_2]). rewrite Hnb in Hel. by apply elem_of_nil in Hel. }
  rewrite !Hsame in H1, H2 by eauto. destruct (H6 _ _ Hx Hb) as (d0 & e0 & Haw & Hone). rewrite Z2Nat.id in Haw, Hone by done.
  apply toks_one in Hone as [Et' HR]; [|by rewrite Hk, Hrow]. rewrite Et in Et'. assert (d0 = d /\ e0 = e) as [-> ->] by (by injection Et').
  assert (forall j y, j <> Z.to_nat i -> contexts w !! j = Some y -> busy y = true -> waited j y R) as Hothers.
  { intros j y Hne Hy Hby. destruct (H6 j y Hy Hby) as (d1 & e1 & Ha1 & Hr1). exists d1, e1. split; [done|]. rewrite <- Hr1. symmetry. apply toks_other.
    rewrite Et. cbn. fold i. assert ((i =? Z.of_nat j) = false) as -> by (apply Z.eqb_neq; lia). by rewrite andb_false_r, andb_false_r. }
  destruct (ri_runs _ _ _ _ _ _ Hri _ _ Hx Hb) as (_ & _ & o & _ & _).
  assert (is_retry tok = bool_decide (e_kind e = HardwareRetry) /\ weight tok = 1%nat) as [Eretry Ewt].
  { rewrite Et. cbn. destruct (e_kind e); done. }
  assert (0 <= pendingLocalTag x < n) as Htag by (rewrite Et in Htok; destruct Haw as (k & Ee & _); cbn in Htok; rewrite Ee in Htok; cbn in Htok; lia).
  eapply (wp_row c exp32 exp64 accepts lanes_pos Hw Hact _ i x e []); try done; [lia| | | |].
  - intros d' e' s' w' x' Hro Hwk. cbn [app].
    assert (n <= nextTensorLocalTag_ s' /\ 0 <= pendingLocalTag x' < nextTensorLocalTag_ s' /\ toks key (is_row i (pendingLocalTag x')) R = []) as (N1 & N2 & N3).
    { destruct (ro_tagged _ _ _ _ _ _ _ _ _ _ _ _ _ _ _ Hro) as [[-> ->]|[-> [= <-]]]; split_and!; try lia; [by apply toks_fresh_row|done]. }
    destruct (runs_token w' x' i _ d' e' s' Hro) as (T1 & T2 & T3); [done|done|done|].
    eapply (lives w'); [by eapply ro_stepped|by eapply (running_phase w' x' i _ d' e' s' [] Hro)|lia|by apply Forall_singleton|].
    change (weight (Self d' e') + 0 + tile_work w' + (if is_retry tok then 0 else 1) <= weight tok + tile_work w)%nat. rewrite Eretry, Ewt, T1. unfold slack in Hwk.
    case_decide; case_bool_decide; try done; lia.
  - intros s' l Hf. cbn [app]. apply ends_failed; try done. by eapply no_access_dispatch.
  - intros s' w' x' [S1 S2 S3 S4 S5 S6 S7] Hwk.
    eapply (lives w'); [done| |by rewrite S4|done|apply work_step; [cbn; lia|done]]. rewrite app_nil_r.
    assert (dispatch w' = dispatch w) as Ed by (destruct (static_eq c exp32 exp64 w' w (sp_static _ _ _ _ _ _ _ _ _ _ S1)) as (? & _); done).
    eapply Running; rewrite ?S5; try done.
    + eapply busy_exists; [by eapply sp_rows|]. lia.
    + intros j y Hy Hby. rewrite S2 in Hy. destruct (decide (j = Z.to_nat i)) as [->|Hne].
      * rewrite list_lookup_insert_eq in Hy by done. injection Hy as <-. by rewrite S3 in Hby.
      * rewrite list_lookup_insert_ne in Hy by done. by apply Hothers.
  - intros a s' w' [S1 S2 S3 S4 S5] Hwk. cbn [app].
    assert (of_key key a && is_stream n a = true /\ is_start a = false /\ weight a = 2%nat) as (A1 & A2 & A3).
    { destruct S5 as [->|[d' ->]]; cbn; rewrite bool_decide_true by done; [done|]. by rewrite Z.eqb_refl. }
    pose proof (no_access_dispatch _ _ _ H2) as Hna.
    eapply (lives w'); [done| |lia| |].
    + eapply (Writing _ _ _ a); rewrite ?S3; try done; [| |].
      * rewrite toks_app, H1, toks_cons. by rewrite A2, andb_false_r.
      * by rewrite toks_app, toks_cons, A1, toks_fresh_stream by done.
      * destruct S5 as [->|[d' ->]]; [by left|right; eauto].
    + apply Forall_singleton. rewrite S4. destruct S5 as [->|[d' ->]]; [cbn; rewrite bool_decide_true by done; repeat split; lia|]. apply self_ok; try done; lia.
    + change (weight a + 0 + tile_work w' + (if is_retry tok then 0 else 1) <= weight tok + tile_work w)%nat. rewrite A3. case_match; lia.
Qed.

(** Events for the tile as a whole. *)
Lemma wp_tile_event d e x : tok = Self d e -> e_key e = key -> 0 <= e_context e -> contexts w !! Z.to_nat (e_context e) = Some x ->
  tile_kind (e_kind e) = true -> wp (handle_tile_event c exp32 exp64 accepts now e w) post [] s.
Proof.
  intros Et Ek Hi Hx Htk. assert (of_key key tok = true) as Hk by (rewrite Et; cbn; by rewrite bool_decide_true).
  destruct (Hinv) as [Hok Hri _]. destruct (tk_streamed _ _ Hok) as [_ Hst _ _]. destruct rest_ok as [Hr Htok]. pose proof Hinv as Hinv'.
  destruct (is_start tok) eqn:Es.
  - destruct (start_phase Hk Es) as (Et' & H1 & H2 & H3). rewrite Et in Et'. injection Et' as -> ->. unfold handle_tile_event. cbn. rewrite Hst.
    apply wp_read_stream; try done. rewrite Et. cbn. lia.
  - assert (e_kind e <> AttentionStart) as Hne by (rewrite Et in Es; cbn in Es; by apply bool_decide_eq_false in Es).
    destruct (is_stream (pendingTileStreamTag w) tok) eqn:Estr.
    + assert (e_localTag e = pendingTileStreamTag w) as Etag.
      { rewrite Et in Estr. unfold is_stream in Estr. cbn in Estr. rewrite Htk in Estr. apply andb_true_iff in Estr as [_ Estr]. lia. }
      destruct stream_phase as (H1 & H2 & Hcase); try done; [by rewrite Et|].
      assert (pendingTileStreamTag w < n) as Htg by (rewrite <- Etag; rewrite Et in Htok; cbn in Htok; lia).
      destruct Hcase as [d' k Et' Hkk Hnr HR|Hd Hc HF Hw8|d' k Et' Hkk Hrc HR].
      * rewrite Et in Et'. injection Et' as -> ->. unfold handle_tile_event. cbn [e_kind e_localTag e_key]. rewrite Hst, Z.eqb_refl. cbn [negb orb].
        destruct Hkk as [->| ->]; [apply wp_read_stream|apply wp_scores_read]; try done; [by eapply no_access|rewrite Et; cbn; lia| |]; by rewrite Et.
      * assert (e_kind e = RowDispatch) as Ekd by (rewrite Et in Hd; cbn in Hd; by apply bool_decide_eq_true in Hd).
        unfold handle_tile_event. rewrite Ekd, Hst, Etag, Z.eqb_refl, Ek. cbn [negb orb]. eapply wp_dispatched; try done.
        apply ignored. intros _. split_and!; try done. intros i y _ _. rewrite Et. cbn. by rewrite Ekd.
      * rewrite Et in Et'. injection Et' as -> ->. unfold handle_tile_event. cbn [e_kind e_localTag e_key]. rewrite Hst, Z.eqb_refl. cbn [negb orb].
        destruct Hkk as [->| ->]; [apply wp_write_stream|apply wp_weights_written]; try done; [by eapply no_access|rewrite Et; cbn; lia|by eapply no_access].
    + assert ((e_localTag e =? pendingTileStreamTag w) = false) as Etag.
      { rewrite Et in Estr. unfold is_stream in Estr. cbn in Estr. rewrite Htk, bool_decide_false in Estr by done. done. }
      eapply (wp_cast _ _ (ret tt)); [unfold handle_tile_event; rewrite Etag, orb_true_r; by destruct (e_kind e)|]. apply wp_ret.
      apply ignored. intros _. split_and!; try done; [by rewrite Estr|]. intros i y _ _. rewrite Et. cbn. by rewrite Htk.
Qed.

(** A busy context and its event agree on the stage. *)
Lemma awaited_stage d e x : tok = Self d e -> of_key key tok = true -> 0 <= e_context e -> contexts w !! Z.to_nat (e_context e) = Some x -> busy x = true ->
  is_row (e_context e) (pendingLocalTag x) tok = true -> stage x = e_stage e.
Proof.
  intros Et Hk Hi Hx Hb Hrow. destruct (Hinv) as [Hok Hri Hp]. destruct Hp as [_ _ _ Hnr|a _ _ Hnr _ _|_ _ _ _ _ H6|a _ _ _ Hrc _].
  1,2: by rewrite (idle_contexts _ x Hnr Hx) in Hb.
  - destruct (H6 _ _ Hx Hb) as (d0 & e0 & (k & Ee & _) & Hone). rewrite Z2Nat.id in * by done. apply toks_one in Hone as [Et' _]; [|by rewrite Hk, Hrow].
    rewrite Et in Et'. injection Et' as _ <-. by rewrite Ee.
  - exfalso. destruct (ri_next _ _ _ _ _ _ Hri) as [_ Hnx]. destruct (ri_count _ _ _ _ _ _ Hri) as [_ Hct].
    assert (busy_contexts w = []) as Hnb by (apply length_zero_iff_nil; lia).
    assert (x ∈ busy_contexts w) as Hel by (apply list_elem_of_filter; split; [done|by eapply list_elem_of_lookup_2]). rewrite Hnb in Hel. by apply elem_of_nil in Hel.
Qed.

(** No context has the event's number. *)
Lemma misdirected d e : tok = Self d e -> 0 <= e_context e -> contexts w !! Z.to_nat (e_context e) = None -> handled key w before s R tok now [] s.
Proof.
  intros Et Hi Hx. destruct context_0 as [x0 Hx0]. assert (e_context e <> 0) as Hne by (intros E; rewrite E in Hx; change (Z.to_nat 0) with 0%nat in Hx; by rewrite Hx0 in Hx).
  apply ignored. intros Hk. assert (is_start tok = false) as Hs.
  { destruct (is_start tok) eqn:Es; [|done]. destruct (start_phase Hk Es) as (Et' & _). rewrite Et in Et'. by injection Et' as _ ->. }
  split_and!; [done| |].
  - intros Hst. destruct stream_phase as (_ & _ & Hcase); try done; [by rewrite Et|].
    destruct Hcase as [d' k Et' _ _ _|Hd _ _ _|d' k Et' _ _ _]; [|done|]; rewrite Et in Et'; by injection Et' as _ ->.
  - intros i y Hy _. rewrite Et. cbn. assert ((e_context e =? Z.of_nat i) = false) as ->; [|by rewrite andb_false_r].
    apply Z.eqb_neq. intros E. by rewrite E, Nat2Z.id, Hy in Hx.
Qed.

Lemma wp_deliver raw : of_key key tok = true -> answers tok raw -> wp (deliver now tok raw) post [] s.
Proof.
  intros Hk Hans. destruct rest_ok as [Hr Htok]. destruct (is_access tok) eqn:Ea; [by apply wp_access|].
  assert (exists d e, tok = Self d e) as (d & e & Et) by (destruct tok; try done; eauto).
  assert (e_key e = key) as Ek by (rewrite Et in Hk; cbn in Hk; by apply bool_decide_eq_true in Hk).
  assert (tok_ok n (Self d e)) as (T1 & T2 & T3 & T4 & T5) by (by rewrite <- Et).
  assert (deliver now tok raw = handleTensorRowEngineEvent c exp32 exp64 accepts now e) as -> by (by rewrite Et).
  rewrite handle_event_eq, Ek by done. destruct (contexts w !! Z.to_nat (e_context e)) as [x|] eqn:Hx; [|apply wp_nowhere; [done|by eapply misdirected]].
  apply (wp_at _ _ x Hx). destruct (Hinv) as [Hok _ _]. rewrite (tk_generation _ _ Hok), Z.eqb_refl. cbn [negb].
  destruct (tile_kind (e_kind e)) eqn:Htk; [by eapply wp_tile_event|].
  assert (forall j y, contexts w !! j = Some y -> is_row (Z.of_nat j) (pendingLocalTag y) tok = true ->
    y = x /\ is_row (e_context e) (pendingLocalTag x) tok = true /\ pendingLocalTag x = e_localTag e) as Hmine.
  { intros j y Hy Hrw. rewrite Et in Hrw |- *. cbn in *. apply andb_true_iff in Hrw as [Hrw E2]. apply andb_true_iff in Hrw as [_ E1].
    apply Z.eqb_eq in E1, E2. rewrite E1, Nat2Z.id, Hy in Hx. injection Hx as ->. rewrite Htk, E2, !Z.eqb_refl. done. }
  destruct (busy x && is_row (e_context e) (pendingLocalTag x) tok) eqn:Ecur.
  - apply andb_true_iff in Ecur as [Hb Hrw]. pose proof (awaited_stage d e x Et Hk T1 Hx Hb Hrw) as Hst.
    assert (pendingLocalTag x = e_localTag e) as Etag by (rewrite Et in Hrw; cbn in Hrw; apply andb_true_iff in Hrw as [_ E]; apply Z.eqb_eq in E; done).
    rewrite Hb, Hst, Etag, Z.eqb_refl, bool_decide_true by done. cbn [negb orb]. by eapply wp_row_event.
  - assert (busy x = true -> (pendingLocalTag x =? e_localTag e) = false) as Hn0.
    { intros Hb. rewrite Hb in Ecur. cbn in Ecur. rewrite Et in Ecur. cbn in Ecur. rewrite Htk, Z.eqb_refl in Ecur. cbn in Ecur. by rewrite Z.eqb_sym. }
    assert (negb (busy x) || negb (bool_decide (stage x = e_stage e)) || negb (pendingLocalTag x =? e_localTag e) = true) as ->.
    { destruct (busy x); [|done]. rewrite Hn0 by done. by rewrite orb_true_r. }
    apply wp_ret, ignored. intros _. split_and!.
    + rewrite Et. cbn. apply bool_decide_eq_false. intros E. by rewrite E in Htk.
    + rewrite Et. unfold is_stream. cbn. by rewrite Htk.
    + intros j y Hy Hb. destruct (is_row (Z.of_nat j) (pendingLocalTag y) tok) eqn:Erow; [|done]. destruct (Hmine j y Hy Erow) as (-> & Hrw & _). by rewrite Hb, Hrw in Ecur.
Qed.
End Deliver.
End System.
