(* ===== verification/SfuHistory.v ===== *)
(** * Histories of the row engine

    Systems of a row engine ([Sfu]) and of the events and accesses that are on
    their way to it, which arrive in any order; the client issues streamed tiles
    whose rows no other tile has.  For every history: a tile ends with what the
    reference makes of its rows ([tile_results]); no tile waits for nothing, and
    nothing is fatal ([tiles_never_stall]); all that arrives, but for tries that
    have to be repeated, uses up work ([tile_work_decreases]). *)

From S2P Require Import Prelude Telemetry Float32 Cluster ScoreFifo Effects Softmax Sfu SfuRows SfuTiles SfuEvents.
#[local] Open Scope Z_scope.
#[local] Open Scope mach_scope.
Import Sfu.

Section System.
Variable c : Config.
Variable exp32 exp64 : float -> float.
Variable accepts : Z -> bool.
#[local] Hint Extern 0 (Arith _ _) => exact (numbers exp32 exp64) : typeclass_instances.

(** ** Systems *)

Record Sys := mkSys {
  engine : t;
  pending : list effect;
  clock : Z;
  found : gmap Key (Z -> option (Online double))
}.

(** The online states of a job as a tile finds them. *)
Definition found_by (r : AttentionTileRequest) (s : t) (row : Z) : option (Online double) :=
  if rq_kvTileIndex r =? 0 then Some fresh_online
  else match attentionOnlineContexts_ s !! (rq_jobId r, row) with Some e => if o_valid e then Some (o_state e) else None | None => None end.

(** Streamed tiles of machine-sized shape whose rows no other tile has. *)
Record proper (r : AttentionTileRequest) (s : t) : Prop := {
  pr_stream : tileStreamEnable_ c = true;
  pr_scores : rq_directScoreMode r = false;
  pr_weights : rq_directPMode r = false;
  pr_rows : 0 <= rq_rows r;
  pr_cols : 0 <= rq_cols r < 2 ^ 32;
  pr_begin : 0 <= globalRowBegin r /\ globalRowBegin r + rq_rows r < 2 ^ 32;
  pr_alone : forall key w, tensorWorkerOps_ s !! key = Some w -> attentionJobId w = rq_jobId r ->
    forall row, globalRowBegin r <= row < globalRowBegin r + rq_rows r -> ~ in_tile w row
}.

(** Tags and tiles are counted in 64 bits. *)
Definition room (s : t) : Prop := nextTensorLocalTag_ s + 1 < 2 ^ 64 /\ Z.of_nat (base.size (tensorWorkerOps_ s)) + 1 < 2 ^ 64.

Definition accepted (log : list effect) : bool := existsb (fun o => match o with Returned b => b | _ => false end) log.

Inductive step : Sys -> list effect -> Sys -> Prop :=
| step_issue s P clk g now r log s' :
    clk <= now -> room s -> proper r s ->
    issueAttentionTile c exp32 exp64 now r s = Some (tt, (log, s')) ->
    step (mkSys s P clk g) log
      (mkSys s' (P ++ tokens log) now (if accepted log then <[request_key r := found_by r s]> g else g))
| step_deliver s P1 tok P2 clk g now raw log s' :
    clk <= now -> room s -> answers tok raw ->
    deliver c exp32 exp64 accepts now tok raw s = Some (tt, (log, s')) ->
    step (mkSys s (P1 ++ tok :: P2) clk g) log (mkSys s' (P1 ++ P2 ++ tokens log) now g).

(** An engine without tiles. *)
Record initial (S : Sys) : Prop := {
  in_ops : tensorWorkerOps_ (engine S) = ∅;
  in_online : attentionOnlineContexts_ (engine S) = ∅;
  in_tag : nextTensorLocalTag_ (engine S) = 1;
  in_activity : attentionClusterSfuActivity_ (engine S) = BusyActivityTracker.init;
  in_pending : pending S = [];
  in_clock : 0 <= clock S
}.
Inductive reach : Sys -> Prop :=
| reach_init S : initial S -> reach S
| reach_step S log S' : reach S -> step S log S' -> reach S'.

Definition sys_work (S : Sys) : nat :=
  list_sum weight (pending S) + list_sum (fun e : Key * Worker => tile_work e.2) (map_to_list (tensorWorkerOps_ (engine S))).

Record sys_inv (S : Sys) : Prop := {
  si_tokens : Forall (tok_ok (nextTensorLocalTag_ (engine S))) (pending S);
  si_filed : filed (attentionOnlineContexts_ (engine S));
  si_tag : 1 <= nextTensorLocalTag_ (engine S);
  si_activity : activity_ok c (clock S) (attentionClusterSfuActivity_ (engine S)) (base.size (tensorWorkerOps_ (engine S)));
  si_live : forall key w, tensorWorkerOps_ (engine S) !! key = Some w ->
    exists before, found S !! key = Some before /\ tile_inv c exp32 exp64 key w before (attentionOnlineContexts_ (engine S)) (pending S);
  si_dead : forall key, tensorWorkerOps_ (engine S) !! key = None -> toks key (fun tok => is_start tok || is_access tok) (pending S) = [];
  si_apart : forall k1 k2 w1 w2, tensorWorkerOps_ (engine S) !! k1 = Some w1 -> tensorWorkerOps_ (engine S) !! k2 = Some w2 -> k1 <> k2 ->
    attentionJobId w1 = attentionJobId w2 -> forall row, in_tile w1 row -> ~ in_tile w2 row
}.


Hypothesis lanes_pos : (0 < vectorLanes c)%nat /\ (0 < expLanes c)%nat.

(** ** Sums *)

Definition tiles_work (m : gmap Key Worker) : nat := list_sum (fun e : Key * Worker => tile_work e.2) (map_to_list m).
Lemma list_sum_perm {A} (f : A -> nat) l l' : l ≡ₚ l' -> list_sum f l = list_sum f l'.
Proof. unfold list_sum. induction 1; cbn; lia. Qed.
Lemma tiles_work_insert m key w : m !! key = None -> tiles_work (<[key := w]> m) = (tile_work w + tiles_work m)%nat.
Proof. intros H. unfold tiles_work. by rewrite (list_sum_perm _ _ _ (map_to_list_insert m key w H)). Qed.
Lemma tiles_work_delete m key w : m !! key = Some w -> tiles_work m = (tile_work w + tiles_work (delete key m))%nat.
Proof. intros H. rewrite <- (insert_delete_id m key w H) at 1. apply tiles_work_insert, lookup_delete_eq. Qed.
Lemma tiles_work_update m key w w' : m !! key = Some w -> (tiles_work (<[key := w']> m) + tile_work w = tile_work w' + tiles_work m)%nat.
Proof.
  intros H. rewrite (tiles_work_delete m key w H). rewrite <- insert_delete_eq, tiles_work_insert by apply lookup_delete_eq. lia.
Qed.

(** ** Tokens of other tiles *)

Lemma of_key_other k key o : of_key key o = true -> k <> key -> of_key k o = false.
Proof. intros H Hne. destruct o; try done; cbn in *; apply bool_decide_eq_true in H; apply bool_decide_eq_false; congruence. Qed.
Lemma toks_add key f P L : Forall (fun o => of_key key o = false) L -> toks key f (P ++ L) = toks key f P.
Proof.
  intros H. rewrite toks_app. rewrite (proj2 (toks_nil key f L)); [apply app_nil_r|]. intros o Hin Hk. rewrite Forall_forall in H. by rewrite (H o Hin) in Hk.
Qed.
Lemma phase_add key w P L : phase key w P -> Forall (fun o => of_key key o = false) L -> phase key w (P ++ L).
Proof.
  intros H HL. assert (forall f, toks key f (P ++ L) = toks key f P) as E by (intros f; by apply toks_add).
  destruct H; [eapply Starting|eapply Reading|eapply Running|eapply Writing]; rewrite ?E; try done.
  intros i x Hx Hb. destruct (H4 i x Hx Hb) as (d & e & Ha & Hr). exists d, e. split; [done|]. by rewrite E.
Qed.
Lemma tokens_id n log : Forall (tok_ok n) log -> tokens log = log.
Proof. unfold tokens. induction 1 as [|o l Ho _ IH]; [done|]. rewrite filter_cons. rewrite decide_True by (by destruct o). by rewrite IH. Qed.
Lemma activity_later clk now a k : clk <= now -> activity_ok c clk a k -> activity_ok c now a k.
Proof. intros Hle H En. destruct (H En) as (H1 & H2 & H3). split_and!; lia. Qed.

(** The tile under [key] has changed; what is on its way to others has not. *)
Lemma other_tile key w P1 tok P2 log on on' k w2 before2 :
  of_key key tok = true -> Forall (fun o => of_key key o = true) log -> k <> key ->
  (attentionJobId w2 = attentionJobId w -> forall row, in_tile w2 row -> ~ in_tile w row) -> frame w on on' ->
  tile_inv c exp32 exp64 k w2 before2 on (P1 ++ tok :: P2) -> tile_inv c exp32 exp64 k w2 before2 on' ((P1 ++ P2) ++ log).
Proof.
  intros Hk Hlog Hne Hap Hf [T1 T2 T3]. constructor; [done| |].
  - eapply (rows_same c exp32 exp64 lanes_pos w2); try done. intros row Hin. apply Hf. destruct (decide (attentionJobId w2 = attentionJobId w)); [right; auto|by left].
  - apply phase_add; [|eapply Forall_impl; [exact Hlog|]; intros o Ho; exact (of_key_other k key o Ho Hne)].
    eapply phase_drop; [exact lanes_pos|exact T3|]. intros Hk2. by rewrite (of_key_other k key tok) in Hk2.
Qed.

(** ** Deliveries *)

(** The scores of a tile when [tok] has arrived. *)
Definition scores_after (key : Key) (tok : effect) (raw : list Z) (w : Worker) : list float :=
  if of_key key tok && is_read tok then floats_of_bytes raw else tileScoreValues w.

(** What a delivery does to the system. *)
Record good (S : Sys) (tok : effect) (raw : list Z) (log : list effect) (S' : Sys) : Prop := {
  gd_inv : sys_inv S';
  gd_results : forall key ok res, TileDone key ok res ∈ log -> exists w before,
    tensorWorkerOps_ (engine S) !! key = Some w /\ found S !! key = Some before /\ tensorWorkerOps_ (engine S') !! key = None /\
    verdict c exp32 exp64 w before (attentionOnlineContexts_ (engine S)) ok res;
  gd_alive : forall key, is_Some (tensorWorkerOps_ (engine S) !! key) -> is_Some (tensorWorkerOps_ (engine S') !! key) \/
    tensorWorkerOps_ (engine S') !! key = None /\ exists ok res, log = [TileDone key ok res];
  gd_scores : forall key w w', tensorWorkerOps_ (engine S) !! key = Some w -> tensorWorkerOps_ (engine S') !! key = Some w' ->
    tileScoreValues w' = scores_after key tok raw w;
  gd_work : (sys_work S' + (if is_retry tok then 0 else 1) <= sys_work S)%nat
}.

Section Delivery.
Context {s : t} {P1 : list effect} {tok : effect} {P2 : list effect} {clk : Z} {g : gmap Key (Z -> option (Online double))} {now : Z} {raw : list Z}.
Abbreviation S0 := (mkSys s (P1 ++ tok :: P2) clk g).
Hypothesis Hinv : sys_inv S0.
Hypothesis Hclk : clk <= now.

Lemma rest_tokens : Forall (tok_ok (nextTensorLocalTag_ s)) (P1 ++ P2) /\ tok_ok (nextTensorLocalTag_ s) tok.
Proof. pose proof (si_tokens _ Hinv) as H. cbn in H. apply Forall_app in H as [H1 H2]. apply Forall_cons in H2 as [H2 H3]. split; [by apply Forall_app|done]. Qed.

Lemma dead_rest key : toks key (fun o => is_start o || is_access o) (P1 ++ tok :: P2) = [] -> toks key (fun o => is_start o || is_access o) (P1 ++ P2) = [].
Proof. rewrite !toks_app, toks_cons. intros H. apply app_nil in H as [-> H]. by apply app_nil in H as [_ ->]. Qed.

(** Nothing happens to a token without a tile. *)
Lemma good_ignored key : of_key key tok = true -> tensorWorkerOps_ s !! key = None -> good S0 tok raw [] (mkSys s (P1 ++ P2) now g).
Proof.
  intros Hk Hd. destruct (Hinv) as [I1 I2 I3 I4 I5 I6 I7]. destruct rest_tokens as [R1 R2]. cbn in *. constructor.
  - constructor; cbn [engine pending clock found]; try done; [by eapply activity_later| |].
    + intros k w Hw. destruct (I5 k w Hw) as (before & Hb & [T1 T2 T3]). exists before. split; [done|]. constructor; try done.
      eapply phase_drop; [exact lanes_pos|exact T3|]. intros Hk2. assert (k <> key) as Hne by congruence. by rewrite (of_key_other k key tok Hk Hne) in Hk2.
    + intros k Hk2. by apply dead_rest, I6.
  - intros k ok res Hin. by apply elem_of_nil in Hin.
  - cbn [engine]. auto.
  - cbn [engine]. intros k w w' Hw Hw'. assert (k <> key) as Hne by congruence. unfold scores_after. rewrite (of_key_other k key tok Hk Hne). cbn. congruence.
  - unfold sys_work. cbn [pending engine]. rewrite !list_sum_app. change (list_sum weight (tok :: P2)) with (weight tok + list_sum weight P2)%nat.
    pose proof (weight_pos tok). case_match; lia.
Qed.

Section Handled.
Context {key : Key} {w : Worker} {before : Z -> option (Online double)} {log : list effect} {s' : t}.
Hypothesis Hw : tensorWorkerOps_ s !! key = Some w.
Hypothesis Hg : g !! key = Some before.
Hypothesis Hk : of_key key tok = true.

Lemma others_apart k w2 : k <> key -> tensorWorkerOps_ s !! k = Some w2 -> attentionJobId w2 = attentionJobId w ->
  forall row, in_tile w2 row -> ~ in_tile w row.
Proof. intros Hne Hw2 Ej. by eapply (si_apart _ Hinv). Qed.

Lemma others_live k w2 : k <> key -> tensorWorkerOps_ s !! k = Some w2 -> Forall (fun o => of_key key o = true) log ->
  frame w (attentionOnlineContexts_ s) (attentionOnlineContexts_ s') ->
  exists b2, g !! k = Some b2 /\ tile_inv c exp32 exp64 k w2 b2 (attentionOnlineContexts_ s') ((P1 ++ P2) ++ log).
Proof.
  intros Hne Hw2 Hlog Hf. destruct (si_live _ Hinv k w2 Hw2) as (b2 & Hb2 & Ht2). exists b2. split; [done|]. eapply other_tile; eauto using others_apart.
Qed.

Lemma others_dead k L : k <> key -> tensorWorkerOps_ s !! k = None -> Forall (fun o => of_key key o = true) L ->
  toks k (fun o => is_start o || is_access o) ((P1 ++ P2) ++ L) = [].
Proof.
  intros Hne Hd HL. rewrite toks_add; [by apply dead_rest, (si_dead _ Hinv)|]. eapply Forall_impl; [exact HL|]. intros o Ho. exact (of_key_other k key o Ho Hne).
Qed.

Lemma apart_update w' : dispatch w' = dispatch w -> attentionJobId w' = attentionJobId w -> forall k1 k2 w1 w2,
  <[key := w']> (tensorWorkerOps_ s) !! k1 = Some w1 -> <[key := w']> (tensorWorkerOps_ s) !! k2 = Some w2 -> k1 <> k2 ->
  attentionJobId w1 = attentionJobId w2 -> forall row, in_tile w1 row -> ~ in_tile w2 row.
Proof.
  intros Ed Ej k1 k2 w1 w2 Hk1 Hk2 Hne. unfold in_tile. pose proof (si_apart _ Hinv) as I7. cbn in I7.
  destruct (decide (k1 = key)) as [->|N1], (decide (k2 = key)) as [->|N2]; [done| | |].
  - rewrite lookup_insert_eq in Hk1. rewrite lookup_insert_ne in Hk2 by done. injection Hk1 as <-. rewrite Ed, Ej. by apply (I7 key k2).
  - rewrite lookup_insert_ne in Hk1 by done. rewrite lookup_insert_eq in Hk2. injection Hk2 as <-. rewrite Ed, Ej. by apply (I7 k1 key).
  - rewrite lookup_insert_ne in Hk1, Hk2 by done. by apply (I7 k1 k2).
Qed.

Lemma handled_inv : handled c exp32 exp64 key w before s (P1 ++ P2) tok now log s' -> sys_inv (mkSys s' (P1 ++ P2 ++ tokens log) now g).
Proof.
  intros H. destruct (Hinv) as [I1 I2 I3 I4 I5 I6 I7]. destruct rest_tokens as [R1 R2]. cbn in I1, I2, I3, I4, I5, I6, I7.
  rewrite (assoc_L (++)). destruct H as [w' H1 H2 H3 H4 Hsc H5 H6 H7 H8 H9 H10|ok res H1 El H3 H4 H5 H6 H7 H8].
  - assert (Forall (fun o => of_key key o = true) log) as Hlog by (eapply Forall_impl; [exact H9|]; by intros o [_ ?]).
    assert (Forall (tok_ok (nextTensorLocalTag_ s')) log) as Hl by (eapply Forall_impl; [exact H9|]; by intros o [? _]).
    rewrite (tokens_id _ _ Hl). constructor; cbn [engine pending clock found]; rewrite ?H1; try done.
    + apply Forall_app. split; [|done]. eapply Forall_impl; [exact R1|]. intros o. by apply tok_ok_mono.
    + lia.
    + rewrite H7, map_size_insert_Some by done. by eapply activity_later.
    + intros k w2 Hw2. destruct (decide (k = key)) as [->|Hne]; [rewrite lookup_insert_eq in Hw2; injection Hw2 as <-; by exists before|].
      rewrite lookup_insert_ne in Hw2 by done. by apply others_live.
    + intros k Hk2. apply lookup_insert_None in Hk2 as [Hk2 Hne]. by apply others_dead.
    + by apply apart_update.
  - rewrite El. change (tokens [TileDone key ok res]) with (@nil effect). constructor; cbn [engine pending clock found]; rewrite ?H8, ?H1; try done.
    + by rewrite app_nil_r.
    + by rewrite <- H1.
    + intros k w2 Hw2. apply lookup_delete_Some in Hw2 as [Hne Hw2]. destruct (I5 k w2 Hw2) as (b2 & Hb2 & Ht2). exists b2. split; [done|].
      eapply other_tile; eauto using others_apart.
    + intros k Hk2. destruct (decide (k = key)) as [->|Hne]; [by rewrite app_nil_r|]. rewrite lookup_delete_ne in Hk2 by done. by apply others_dead.
    + intros k1 k2 w1 w2 Hk1 Hk2. apply lookup_delete_Some in Hk1 as [_ Hk1], Hk2 as [_ Hk2]. by apply (I7 k1 k2).
Qed.

Lemma good_handled : handled c exp32 exp64 key w before s (P1 ++ P2) tok now log s' ->
  (is_read tok = true -> exists w', tensorWorkerOps_ s' !! key = Some w' /\ tileScoreValues w' = floats_of_bytes raw) ->
  good S0 tok raw log (mkSys s' (P1 ++ P2 ++ tokens log) now g).
Proof.
  intros H Hrd. pose proof (handled_inv H) as Hi. constructor; [done|..]; unfold sys_work; cbn [engine found pending].
  - intros k ok' res' Hin. destruct H as [w' H1 H2 H3 H4 Hsc H5 H6 H7 H8 H9 H10|ok res H1 El H3 H4 H5 H6 H7 H8].
    + exfalso. rewrite Forall_forall in H9. by destruct (H9 _ Hin) as [? _].
    + rewrite El in Hin. apply list_elem_of_singleton in Hin as [= -> -> ->]. exists w, before. split_and!; try done. by rewrite H1, lookup_delete_eq.
  - intros k [wk Hwk]. destruct H as [w' H1 _ _ _ _ _ _ _ _ _ _|ok res H1 El _ _ _ _ _ _]; rewrite H1.
    + left. apply lookup_insert_is_Some. destruct (decide (key = k)); [by left|right]. eauto.
    + destruct (decide (key = k)) as [<-|Hne]; [right; rewrite lookup_delete_eq; eauto|left; rewrite lookup_delete_ne by done; eauto].
  - intros k w1 w2 Hw1 Hw2. unfold scores_after. destruct (decide (k = key)) as [->|Hne].
    + rewrite Hw in Hw1. injection Hw1 as <-. rewrite Hk. cbn. destruct (is_read tok) eqn:Erd; [destruct (Hrd eq_refl) as (w3 & E3 & <-); congruence|].
      destruct H as [w' H1 _ _ _ Hsc _ _ _ _ _ _|ok res H1 _ _ _ _ _ _ _]; [|by rewrite H1, lookup_delete_eq in Hw2].
      rewrite H1, lookup_insert_eq in Hw2. injection Hw2 as <-. by apply Hsc.
    + rewrite (of_key_other k key tok Hk Hne). cbn. destruct H as [w' H1 _ _ _ _ _ _ _ _ _ _|ok res H1 _ _ _ _ _ _ _]; rewrite H1 in Hw2;
        [rewrite lookup_insert_ne in Hw2 by done|rewrite lookup_delete_ne in Hw2 by done]; congruence.
  - rewrite !list_sum_app. change (list_sum weight (tok :: P2)) with (weight tok + list_sum weight P2)%nat. fold (tiles_work (tensorWorkerOps_ s')). fold (tiles_work (tensorWorkerOps_ s)).
    destruct H as [w' H1 H2 H3 H4 Hsc H5 H6 H7 H8 H9 H10|ok res H1 El H3 H4 H5 H6 H7 H8]; rewrite H1.
    + rewrite (tokens_id (nextTensorLocalTag_ s')) by (eapply Forall_impl; [exact H9|]; by intros o [? _]). pose proof (tiles_work_update _ _ _ w' Hw) as Hu. case_match; lia.
    + rewrite El. change (tokens [TileDone key ok res]) with (@nil effect). pose proof (tiles_work_delete _ _ _ Hw) as Hu. pose proof (weight_pos tok). cbn [list_sum foldr]. case_match; lia.
Qed.
End Handled.

Lemma delivered : room s -> answers tok raw -> exists log s',
  deliver c exp32 exp64 accepts now tok raw s = Some (tt, (log, s')) /\ good S0 tok raw log (mkSys s' (P1 ++ P2 ++ tokens log) now g).
Proof.
  intros [Hroom _] Hans. destruct rest_tokens as [R1 R2]. assert (exists key, of_key key tok = true) as [key Hk].
  { destruct tok as [d e|a b tg k o|a l tg k o| | | | | | |]; try done; [exists (e_key e)|exists k|exists k]; cbn; by rewrite bool_decide_true. }
  destruct (tensorWorkerOps_ s !! key) as [w|] eqn:Hw.
  - destruct (Hinv) as [I1 I2 I3 I4 I5 I6 I7]. destruct (I5 key w Hw) as (before & Hg & Ht). cbn in *.
    pose proof (wp_deliver c exp32 exp64 accepts lanes_pos Hw Ht I1 I2 (activity_later _ _ _ _ Hclk I4) I3 Hroom raw Hk Hans) as Hwp.
    unfold Effects.wp in Hwp. destruct (deliver _ _ _ _ _ _ _ _) as [[[] [log s']]|] eqn:Ed; [|done]. exists log, s'. split; [done|]. eapply good_handled; try done.
    intros Hrd. by eapply (read_scores c exp32 exp64 accepts Hw Ht).
  - exists [], s. assert (deliver c exp32 exp64 accepts now tok raw s = Some (tt, ([], s))) as ->.
    { destruct tok as [d e|a b tg k o|a l tg k o| | | | | | |]; try done; cbn in Hk; apply bool_decide_eq_true in Hk as Hk'; subst key; cbn [deliver].
      - destruct R2 as (_ & _ & _ & T4 & T5). rewrite handle_event_eq by done. unfold with_context, with_worker. by rewrite Hw.
      - destruct R2 as [_ ->]. unfold tileStreamReadAnswer, with_worker. by rewrite Hw.
      - destruct R2 as [_ ->]. unfold tileStreamWriteAnswer, with_worker. by rewrite Hw. }
    split; [done|]. change (tokens []) with (@nil effect). rewrite app_nil_r. by eapply good_ignored.
Qed.
End Delivery.

(** ** New tiles *)

Hypothesis contexts_pos : 0 < rowEngineContexts_ c.

Lemma start_rows_spec job rows : forall s, exists on',
  start_rows exp32 exp64 job rows s = Some (tt, ([], s <| attentionOnlineContexts_ := on' |>)) /\
  (forall j r, j <> job \/ r ∉ rows -> on' !! (j, r) = attentionOnlineContexts_ s !! (j, r)) /\
  (filed (attentionOnlineContexts_ s) -> filed on').
Proof.
  induction rows as [|row rows IH]; intros s; cbn [start_rows].
  - exists (attentionOnlineContexts_ s). split; [by destruct s|]. done.
  - destruct (IH (s <| attentionOnlineContexts_ := <[(job, row) := fresh_row exp32 exp64 job row]> (attentionOnlineContexts_ s) |>)) as (on' & E & H1 & H2).
    exists on'. split; [|split].
    + unfold bind, start_row, update. cbv beta iota. by rewrite E.
    + intros j r Hj. rewrite H1 by (destruct Hj as [?|Hj]; [by left|right; intros ?; apply Hj; by right]). cbn. rewrite lookup_insert_ne; [done|].
      intros [= <- <-]. destruct Hj as [?|Hj]; [done|]. apply Hj. by left.
    + intros Hf. apply H2. cbn. by apply filed_insert.
Qed.

Section Issue.
Context {s : t} {P : list effect} {clk : Z} {g : gmap Key (Z -> option (Online double))} {now : Z} {r : AttentionTileRequest}.
Abbreviation S0 := (mkSys s P clk g).
Hypothesis Hinv : sys_inv S0.
Hypothesis Hclk : clk <= now.
Hypothesis Hroom : room s.
Hypothesis Hpr : proper r s.
Abbreviation key := (request_key r).
Abbreviation w := (tile_worker c r).

Record shape : Prop := {
  sh_rows : 0 < rq_rows r <= 64;
  sh_cols : 0 < rq_cols r < 2 ^ 32;
  sh_fresh : tensorWorkerOps_ s !! key = None
}.
Lemma ready_shape : attentionTileAdmission c r s = Ready -> shape.
Proof.
  destruct Hpr as [_ D1 D2 R1 C1 B1 _]. unfold attentionTileAdmission. destruct (request_invalid c r) eqn:Ei; [done|].
  unfold request_invalid in Ei. rewrite !orb_false_iff in Ei. destruct Ei as [[[[[[[[[_ E1] E2] E3] _] _] _] _] _] _].
  apply Z.eqb_neq in E1, E3. apply Z.ltb_ge in E2. intros H. constructor; [lia|lia|].
  repeat (case_match; try done). by match goal with H : bool_decide (is_Some _) = false |- _ => apply bool_decide_eq_false in H; apply eq_None_not_Some in H end.
Qed.

Lemma tile_worker_ok : shape -> tile_ok key w.
Proof.
  intros [R1 C1 _]. destruct Hpr as [St D1 D2 R2 C2 [B1 B2] _].
  assert (0 < Z.to_nat (context_count c (rq_rows r)) <= 64)%nat as Hctx by (unfold context_count; lia).
  assert (Z.to_nat (rq_rows r * rq_cols r) = Z.to_nat (rq_rows r) * Z.to_nat (rq_cols r))%nat as Hn by (apply Z2Nat.inj_mul; lia).
  unfold tile_worker. rewrite D1, D2, St. cbn [negb andb]. constructor; unfold tile_rows, cols; try done.
  - change (0 < length (replicate (Z.to_nat (context_count c (rq_rows r))) no_context) <= 64)%nat. by rewrite length_replicate.
  - change (length (replicate (Z.to_nat (rq_rows r * rq_cols r)) float_zero) = Z.to_nat (rq_rows r) * Z.to_nat (rq_cols r))%nat. by rewrite length_replicate.
  - change (length (replicate (Z.to_nat (rq_rows r * rq_cols r)) float_zero) = Z.to_nat (rq_rows r) * Z.to_nat (rq_cols r))%nat. by rewrite length_replicate.
Qed.
Lemma tile_worker_rows on' : filed (attentionOnlineContexts_ s) -> (rq_kvTileIndex r <> 0 -> on' = attentionOnlineContexts_ s) ->
  shape -> rows_inv c exp32 exp64 w (found_by r s) on'.
Proof.
  intros Hf Hon [R1 C1 _]. assert (forall i x, contexts w !! i = Some x -> busy x = false) as Hidle.
  { intros i x Hx. change (replicate (Z.to_nat (context_count c (rq_rows r))) no_context !! i = Some x) in Hx. by apply lookup_replicate in Hx as [-> _]. }
  constructor; try (intros; cbn in *; lia).
  - intros i x Hx Hb. by rewrite (Hidle i x Hx) in Hb.
  - intros i j x y Hx _ Hb. by rewrite (Hidle i x Hx) in Hb.
  - intros row _. unfold row_waits, found_by. change (attentionKvTileIndex w) with (rq_kvTileIndex r). change (attentionJobId w) with (rq_jobId r).
    destruct (Z.eqb_spec (rq_kvTileIndex r) 0) as [Ek|Ek]; [done|]. rewrite (Hon Ek). destruct (attentionOnlineContexts_ s !! (rq_jobId r, row)) as [e|] eqn:Ee; [|done].
    destruct (o_valid e) eqn:Ev; [|split; [done|by intros e' [= <-]]]. destruct (Hf _ _ _ Ee) as [E1 E2]. f_equal. unfold online_entry. destruct e. cbn in *. by subst.
  - assert (busy_contexts w = []) as ->; [|cbn; lia]. unfold busy_contexts. apply elem_of_nil_inv. intros x Hin. apply list_elem_of_filter in Hin as [Hb Hin].
    apply list_elem_of_lookup in Hin as [i Hi]. by rewrite (Hidle i x Hi) in Hb.
Qed.

Abbreviation start := (Self 1 (mkEvent key 0 Max AttentionStart 0)).
Lemma tile_worker_phase : shape -> phase key w (P ++ [start]).
Proof.
  intros Hsh. destruct (Hinv) as [I1 _ _ _ _ I6 _]. cbn in *. pose proof (I6 _ (sh_fresh Hsh)) as Hd.
  assert (forall f, (f = is_start \/ f = is_access) -> toks key f P = []) as Hn.
  { intros f Hf. eapply toks_weaken; [|exact Hd]. intros o Ho. destruct Hf as [->| ->]; rewrite Ho; [done|apply orb_true_r]. }
  assert (toks key (is_stream 0) P = []) as Hs.
  { apply toks_nil. intros o Hin Hk. rewrite Forall_forall in I1. specialize (I1 o Hin). pose proof (proj1 (toks_nil _ _ _) (Hn is_access (or_intror eq_refl)) o Hin Hk) as Ha.
    pose proof (proj1 (toks_nil _ _ _) (Hn is_start (or_introl eq_refl)) o Hin Hk) as Hst.
    unfold is_stream. rewrite Ha. destruct o as [d e| | | | | | | | |]; try done. cbn in *. destruct (tile_kind (e_kind e)) eqn:Et; [|done]. cbn.
    destruct I1 as (_ & _ & T3 & _). destruct (T3 eq_refl) as [E|E]; [by rewrite bool_decide_true in Hst|]. apply andb_false_iff. right. apply Z.eqb_neq. lia. }
  eapply Starting; try done.
  - rewrite toks_app, (Hn _ (or_introl eq_refl)), toks_cons. cbn. by rewrite bool_decide_true.
  - rewrite toks_app, Hs, toks_cons. cbn. by rewrite andb_false_r.
Qed.

Lemma first_in_tile row : shape -> row ∈ first_rows c r -> globalRowBegin r <= row < globalRowBegin r + rq_rows r.
Proof.
  intros [R1 _ _]. destruct Hpr as [_ _ _ _ _ [B1 B2] _]. unfold first_rows, context_count. intros Hin. apply list_elem_of_fmap in Hin as (i & -> & Hi).
  apply elem_of_seqZ in Hi. rewrite u32_small by (unfold is_u32; lia). lia.
Qed.

(** What a tile that is taken on changes. *)
Record taken (s' : t) : Prop := {
  tn_ops : tensorWorkerOps_ s' = <[key := w]> (tensorWorkerOps_ s);
  tn_tag : nextTensorLocalTag_ s' = nextTensorLocalTag_ s;
  tn_online : forall j row, j <> rq_jobId r \/ ~ (globalRowBegin r <= row < globalRowBegin r + rq_rows r) ->
    attentionOnlineContexts_ s' !! (j, row) = attentionOnlineContexts_ s !! (j, row);
  tn_later : rq_kvTileIndex r <> 0 -> attentionOnlineContexts_ s' = attentionOnlineContexts_ s;
  tn_filed : filed (attentionOnlineContexts_ s');
  tn_activity : activity_ok c now (attentionClusterSfuActivity_ s') (S (base.size (tensorWorkerOps_ s)))
}.
Lemma issue_taken : attentionTileAdmission c r s = Ready -> shape ->
  exists s', issueAttentionTile c exp32 exp64 now r s = Some (tt, ([start; Returned true], s')) /\ taken s'.
Proof.
  intros Ea Hsh. destruct (Hinv) as [_ I2 _ I4 _ _ _]. cbn in I2, I4. apply (activity_later clk now) in I4; [|done].
  assert (exists on', (if rq_kvTileIndex r =? 0 then start_rows exp32 exp64 (rq_jobId r) (first_rows c r) else ret tt) s =
      Some (tt, ([], s <| attentionOnlineContexts_ := on' |>)) /\
    (forall j row, j <> rq_jobId r \/ row ∉ first_rows c r -> on' !! (j, row) = attentionOnlineContexts_ s !! (j, row)) /\
    filed on' /\ (rq_kvTileIndex r <> 0 -> on' = attentionOnlineContexts_ s)) as (on' & Eon & H1 & H2 & H3).
  { destruct (Z.eqb_spec (rq_kvTileIndex r) 0) as [Ek|Ek].
    - destruct (start_rows_spec (rq_jobId r) (first_rows c r) s) as (on' & E & H1 & H2). exists on'. by split_and!; auto.
    - exists (attentionOnlineContexts_ s). split; [by destruct s|done]. }
  assert (forall j row, j <> rq_jobId r \/ ~ (globalRowBegin r <= row < globalRowBegin r + rq_rows r) ->
    on' !! (j, row) = attentionOnlineContexts_ s !! (j, row)) as H4.
  { intros j row Hj. apply H1. destruct Hj as [?|Hj]; [by left|right]. intros Hin. apply Hj. by apply first_in_tile. }
  unfold issueAttentionTile. rewrite Ea. unfold bind at 1. rewrite Eon. unfold bind, put_worker, update, send.
  destruct (attentionClusterEnable_ c) eqn:En.
  - destruct (activity_enter c lanes_pos now _ _ En I4) as (a' & Ee & Ha'); [by apply Hroom|]. unfold enter_activity, update. cbn [attentionClusterSfuActivity_]. cbn. rewrite Ee.
    eexists. split; [reflexivity|]. by constructor.
  - eexists. split; [reflexivity|]. constructor; try done. intros E. by rewrite En in E.
Qed.

Lemma taken_inv s' : shape -> taken s' -> sys_inv (mkSys s' (P ++ [start]) now (<[key := found_by r s]> g)).
Proof.
  intros Hsh [N1 N2 N3 N4 N5 N6]. destruct (Hinv) as [I1 I2 I3 I4 I5 I6 I7]. cbn in *. pose proof (sh_fresh Hsh) as Hnew.
  assert (forall k, k <> key -> Forall (fun o => of_key k o = false) [start]) as Hoth.
  { intros k Hne. constructor; [|constructor]. cbn. apply bool_decide_eq_false. congruence. }
  assert (forall row, in_tile w row <-> globalRowBegin r <= row < globalRowBegin r + rq_rows r) as Hin by done.
  constructor; cbn [engine pending clock found]; rewrite ?N1, ?N2; try done.
  - apply Forall_app. split; [done|]. repeat constructor; cbn; try done; try lia.
  - by rewrite map_size_insert_None.
  - intros k w2 Hw2. destruct (decide (k = key)) as [->|Hne].
    + rewrite lookup_insert_eq in Hw2. injection Hw2 as <-. exists (found_by r s). rewrite lookup_insert_eq. split; [done|].
      constructor; [by apply tile_worker_ok|by apply tile_worker_rows|by apply tile_worker_phase].
    + rewrite lookup_insert_ne in Hw2 by done. destruct (I5 k w2 Hw2) as (b2 & Hb2 & [T1 T2 T3]). exists b2. rewrite lookup_insert_ne by done. split; [done|].
      constructor; [done| |by apply phase_add, Hoth]. eapply (rows_same c exp32 exp64 lanes_pos w2); try done. intros row Hrow. apply N3.
      destruct (decide (attentionJobId w2 = rq_jobId r)) as [Ej|]; [right|by left]. intros Hr. by eapply (pr_alone _ _ Hpr).
  - intros k Hk. apply lookup_insert_None in Hk as [Hk Hne]. rewrite toks_add; [by apply I6|by apply Hoth].
  - intros k1 k2 w1 w2 Hk1 Hk2 Hne Ej row Hr1 Hr2. destruct (decide (k1 = key)) as [->|M1], (decide (k2 = key)) as [->|M2]; [done| | |].
    + rewrite lookup_insert_eq in Hk1. injection Hk1 as <-. rewrite lookup_insert_ne in Hk2 by done. eapply (pr_alone _ _ Hpr); [exact Hk2|by rewrite <- Ej|by apply Hin|done].
    + rewrite lookup_insert_eq in Hk2. injection Hk2 as <-. rewrite lookup_insert_ne in Hk1 by done. eapply (pr_alone _ _ Hpr); [exact Hk1|by rewrite Ej|by apply Hin|done].
    + rewrite lookup_insert_ne in Hk1, Hk2 by done. by eapply (I7 k1 k2).
Qed.

Lemma issued : exists log s', issueAttentionTile c exp32 exp64 now r s = Some (tt, (log, s')) /\
  (forall k ok res, TileDone k ok res ∉ log) /\ (forall k, is_Some (tensorWorkerOps_ s !! k) -> is_Some (tensorWorkerOps_ s' !! k)) /\
  sys_inv (mkSys s' (P ++ tokens log) now (if accepted log then <[key := found_by r s]> g else g)).
Proof.
  destruct (decide (attentionTileAdmission c r s = Ready)) as [Ea|Ea].
  - pose proof (ready_shape Ea) as Hsh. destruct (issue_taken Ea Hsh) as (s' & E & Ht). exists [start; Returned true], s'. split_and!; [done| | |by apply taken_inv].
    + intros k ok res Hin. apply elem_of_cons in Hin as [?|Hin]; [done|]. by apply list_elem_of_singleton in Hin.
    + intros k Hk. rewrite (tn_ops _ Ht). apply lookup_insert_is_Some. destruct (decide (key = k)); auto.
  - exists [Returned false], s. split; [by unfold issueAttentionTile; destruct (attentionTileAdmission c r s)|].
    split_and!; [intros k ok res Hin; by apply list_elem_of_singleton in Hin|done|]. cbn [accepted existsb orb]. change (tokens [Returned false]) with (@nil effect). rewrite app_nil_r.
    destruct (Hinv) as [I1 I2 I3 I4 I5 I6 I7]. cbn in *. constructor; cbn; try done. by eapply activity_later.
Qed.
End Issue.

(** ** All histories *)

Lemma initial_inv S : initial S -> sys_inv S.
Proof.
  intros [N1 N2 N3 N4 N5 N6]. destruct S as [s P clk g]. cbn in *. subst P. constructor; cbn; rewrite ?N1, ?N2, ?N3, ?N4; try done.
Qed.
Lemma step_inv S log S' : sys_inv S -> step S log S' -> sys_inv S'.
Proof.
  intros Hi Hs. destruct Hs as [s P clk g now r log s' H1 H2 H3 E|s P1 tok P2 clk g now raw log s' H1 H2 H3 E].
  - destruct (issued Hi H1 H2 H3) as (l & s2 & E2 & _ & _ & H). rewrite E in E2. by injection E2 as <- <-.
  - destruct (delivered Hi H1 H2 H3) as (l & s2 & E2 & [H _ _ _ _]). rewrite E in E2. by injection E2 as <- <-.
Qed.
Lemma reach_inv S : reach S -> sys_inv S.
Proof. induction 1 as [S H|S log S' _ IH H]; [by apply initial_inv|by eapply step_inv]. Qed.

(** [tok] is what the tile under [key] goes on with. *)
Definition awaited (key : Key) (w : Worker) (tok : effect) : Prop :=
  of_key key tok = true /\
  (is_start tok = true \/ is_stream (pendingTileStreamTag w) tok && negb (is_dispatch tok) = true \/
   exists i x, contexts w !! i = Some x /\ busy x = true /\ is_row (Z.of_nat i) (pendingLocalTag x) tok = true).

Lemma toks_in key f P a : toks key f P = [a] -> a ∈ P /\ of_key key a = true /\ f a = true.
Proof using Type.
  intros E. assert (a ∈ toks key f P) as H by (rewrite E; by left). apply list_elem_of_filter in H as [H Hin]. by apply andb_true_iff in H as [? ?].
Qed.
Lemma phase_awaits key w P : phase key w P -> exists tok, tok ∈ P /\ awaited key w tok.
Proof using Type.
  unfold awaited. intros [H1 _ _ _|tok _ H2 _ _ H5|_ _ _ _ (i & x & Hx & Hb) H6|tok _ H2 _ _ H5].
  - apply toks_in in H1 as (? & ? & ?). eauto 6.
  - apply toks_in in H2 as (? & ? & H). exists tok. rewrite H. split_and!; [done|done|right; left]. by destruct H5 as [->|(d & k & -> & [->| ->])].
  - destruct (H6 i x Hx Hb) as (d & e & _ & Hr). apply toks_in in Hr as (? & ? & ?). eauto 12.
  - apply toks_in in H2 as (? & ? & H). exists tok. rewrite H. split_and!; [done|done|right; left]. by destruct H5 as [->|(d & k & -> & [->| ->])].
Qed.

(** All rows are done when the weights are written. *)
Lemma writing_done key w before s P a data tg o : tile_inv c exp32 exp64 key w before (attentionOnlineContexts_ s) P -> LocalWrite a data tg key o ∈ P ->
  a = scratchAddr w /\ data = bytes_of_floats (tilePValues w) /\
  forall row, in_tile w row -> row_done c exp32 exp64 w before (attentionOnlineContexts_ s) row.
Proof.
  intros Ht Hin. apply list_elem_of_split in Hin as (P1 & P2 & ->). assert (of_key key (LocalWrite a data tg key o) = true) as Hk by (cbn; by rewrite bool_decide_true).
  destruct (access_phase c exp32 exp64 Ht Hk eq_refl) as (_ & _ & _ & _ & [[? _]|[E Hrc]]); [done|]. injection E as -> -> _ _. split_and!; [done|done|].
  by apply (all_done c exp32 exp64 Ht).
Qed.

(** Deliveries in a row, with what has arrived. *)
Inductive deliveries : Sys -> list effect -> Sys -> Prop :=
| no_delivery S : deliveries S [] S
| a_delivery s P1 tok P2 clk g now raw log s' toks' S' :
    clk <= now -> room s -> answers tok raw -> deliver c exp32 exp64 accepts now tok raw s = Some (tt, (log, s')) ->
    deliveries (mkSys s' (P1 ++ P2 ++ tokens log) now g) toks' S' ->
    deliveries (mkSys s (P1 ++ tok :: P2) clk g) (tok :: toks') S'.
Definition progress (toks' : list effect) : nat := list_sum (fun tok => if is_retry tok then 0 else 1)%nat toks'.


Lemma access_live S a data tg key o : sys_inv S -> LocalWrite a data tg key o ∈ pending S -> is_Some (tensorWorkerOps_ (engine S) !! key).
Proof using Type.
  intros Hi Hin. destruct (tensorWorkerOps_ (engine S) !! key) as [w|] eqn:E; [done|].
  pose proof (proj1 (toks_nil _ _ _) (si_dead _ Hi key E) _ Hin) as H. cbn in H. rewrite bool_decide_true in H by done. by specialize (H eq_refl).
Qed.



(** C16. All that arrives uses up work.  From any reachable system, deliveries that
    are not tries to be repeated - of a pipeline that is full or of a memory port
    that does not take an access - are at most as many as the work of the system:
    a bound on the stages of all rows of its tiles and on what is on its way. *)
Theorem tile_work_bound S toks' S' : reach S -> deliveries S toks' S' -> (progress toks' + sys_work S' <= sys_work S)%nat.
Proof.
  intros Hr. apply reach_inv in Hr. induction 1 as [S|s P1 tok P2 clk g now raw log s' toks' S' H1 H2 H3 E _ IH]; [done|].
  destruct (delivered Hr H1 H2 H3) as (l & s2 & E2 & [Hi _ _ _ Hwk]). rewrite E in E2. injection E2 as <- <-. specialize (IH Hi).
  change (progress (tok :: toks')) with ((if is_retry tok then 0 else 1) + progress toks')%nat. lia.
Qed.

(** ** Runs

    The oldest token arrives, and the memory answers [mem]. *)
Variable mem : Z -> Z -> list Z.
Definition answer (tok : effect) : list Z := match tok with LocalRead a n _ _ _ => mem a n | _ => [] end.
Definition next (S : Sys) : option (list effect * Sys) :=
  match pending S with
  | [] => None
  | tok :: P =>
      if (nextTensorLocalTag_ (engine S) + 1 <? 2 ^ 64) && (Z.of_nat (base.size (tensorWorkerOps_ (engine S))) + 1 <? 2 ^ 64) &&
         match tok with LocalRead _ n _ _ _ => len (answer tok) =? n | _ => true end then
        match deliver c exp32 exp64 accepts (clock S + 1) tok (answer tok) (engine S) with
        | Some (_, (log, s')) => Some (log, mkSys s' (P ++ tokens log) (clock S + 1) (found S))
        | None => None
        end
      else None
  end.
Fixpoint run (n : nat) (S : Sys) : option Sys :=
  match n with O => Some S | S n => match next S with Some (_, S') => run n S' | None => None end end.

Lemma next_answered S log S' : next S = Some (log, S') -> exists tok P now s',
  pending S = tok :: P /\ clock S <= now /\ room (engine S) /\ answers tok (answer tok) /\
  deliver c exp32 exp64 accepts now tok (answer tok) (engine S) = Some (tt, (log, s')) /\ S' = mkSys s' ([] ++ P ++ tokens log) now (found S).
Proof using Type.
  clear lanes_pos contexts_pos. unfold next. destruct (pending S) as [|tok P]; [done|]. destruct (_ && _) eqn:E; [|done].
  apply andb_true_iff in E as [E E3]. apply andb_true_iff in E as [E1 E2]. apply Z.ltb_lt in E1, E2.
  destruct (deliver _ _ _ _ _ _ _ _) as [[[] [l s']]|] eqn:Ed; [|done]. intros [= <- <-]. exists tok, P, (clock S + 1), s'.
  split_and!; try done; [lia|]. destruct tok; try done. by apply Z.eqb_eq in E3.
Qed.
Lemma next_step S log S' : next S = Some (log, S') -> step S log S'.
Proof using Type.
  intros (tok & P & now & s' & EP & H1 & H2 & H3 & H4 & ->)%next_answered. destruct S as [s P0 clk g]. cbn in *. subst P0.
  change (tok :: P) with ([] ++ tok :: P). by eapply step_deliver.
Qed.
Lemma run_reach n : forall S S', reach S -> run n S = Some S' -> reach S'.
Proof using Type.
  induction n as [|n IH]; intros S S' Hr E; cbn [run] in E; [by injection E as <-|]. destruct (next S) as [[log S1]|] eqn:En; [|done].
  eapply IH; [|exact E]. eapply reach_step; [exact Hr|by apply next_step].
Qed.
Lemma run_deliveries n : forall S S', run n S = Some S' -> exists toks', deliveries S toks' S' /\ length toks' = n.
Proof using Type.
  induction n as [|n IH]; intros S S' E; cbn [run] in E; [injection E as <-; exists []; by split; [constructor|]|].
  destruct (next S) as [[log S1]|] eqn:En; [|done]. destruct (IH _ _ E) as (toks' & Hd & Hl). destruct (next_answered _ _ _ En) as (tok & P & now & s' & EP & H1 & H2 & H3 & H4 & ES).
  destruct S as [s P0 clk g]. cbn in *. subst P0 S1. exists (tok :: toks'). split; [|cbn; by rewrite Hl].
  change (tok :: P) with ([] ++ tok :: P). by eapply a_delivery.
Qed.
End System.

(** ** An engine of one context and a tile of two rows and two columns *)

Definition one_context : Config := mkConfig 0 1000000000 1000000000 2 2 1 4096 true 16 4 1 true 16 2 4 4096 65536.
Lemma one_context_lanes : (0 < vectorLanes one_context)%nat /\ (0 < expLanes one_context)%nat.
Proof. unfold vectorLanes, expLanes. cbn. lia. Qed.
Definition flat (x : float) : float := float_of_bits 1065353216.
Definition ones (a n : Z) : list Z := concat (replicate (Z.to_nat (n / 4)) [0; 0; 128; 63]).
Definition two_rows : AttentionTileRequest :=
  mkRequest 7 1 4096 0 0 2 2 4 0 1 false false 0 0 no_tag false 0 no_tag.
Definition fresh_engine : t :=
  mk ∅ ∅ [] 0 0 1 ∅ [] 0 0 1 ∅ BusyActivityTracker.init (fun _ => Pipeline.configure 2 1 2) 1.
Definition idle : Sys := mkSys fresh_engine [] 0 ∅.
Definition started : Sys :=
  match issueAttentionTile one_context flat flat 1 two_rows fresh_engine with
  | Some (_, (log, s')) =>
      mkSys s' ([] ++ tokens log) 1 (if accepted log then <[request_key two_rows := found_by flat flat two_rows fresh_engine]> ∅ else ∅)
  | None => idle
  end.
Definition later (n : nat) : Sys := default started (run one_context flat flat (fun _ => true) ones n started).

Lemma started_reach : reach one_context flat flat (fun _ => true) started.
Proof.
  assert (reach one_context flat flat (fun _ => true) idle) as Hi by (by apply reach_init).
  unfold started. destruct (issueAttentionTile _ _ _ _ _ _) as [[[] [log s']]|] eqn:E; [|exact Hi].
  eapply reach_step; [exact Hi|]. eapply step_issue; [lia|by vm_compute| |exact E]. by constructor.
Qed.
Lemma later_reach n : reach one_context flat flat (fun _ => true) (later n).
Proof.
  unfold later. destruct (run _ _ _ _ _ n started) as [S|] eqn:E; [|apply started_reach]. eapply run_reach; [apply started_reach|exact E].
Qed.




Lemma tile_work_bound_witness : exists toks', length toks' = 27%nat /\ deliveries one_context flat flat (fun _ => true) started toks' (later 27) /\
  (progress toks' + sys_work (later 27) <= sys_work started)%nat.
Proof.
  assert (is_Some (run one_context flat flat (fun _ => true) ones 27 started)) as [S E] by (vm_compute; eauto).
  assert (later 27 = S) as -> by (unfold later; rewrite E; reflexivity).
  destruct (run_deliveries _ _ _ _ _ _ _ _ E) as (toks' & Hd & Hl). exists toks'. split; [exact Hl|]. split; [exact Hd|].
  apply (tile_work_bound one_context flat flat (fun _ => true) one_context_lanes eq_refl started toks' S started_reach Hd).
Defined.
