(* ===== verification/SchedMsg.v ===== *)
(** * Request scheduler: messages, request ids and credits

    Models what both ends of golem/requestscheduler/requestscheduler.{h,cc}
    share: the message between worker and manager, a panel transfer, the layout
    of request ids and the derivation of the credit limits from the
    configuration.  The theorem states when request ids are unique and shows the
    first row-major window in which they are not. *)

From S2P Require Import Prelude.

Module SchedMsg.

Inductive RequestSchedulerMsgType := SUBMIT | DONE.
#[global] Instance msgtype_eq_dec : EqDecision RequestSchedulerMsgType.
Proof. solve_decision. Defined.

(** One request of a batch: the elements with the same index of the parallel
    [batch] vectors. *)
Record RequestSchedulerMsg := mkMsg {
  type : RequestSchedulerMsgType;
  groupId : Z;
  m_workerSlot : Z;
  srcCoreId : Z;
  m_requestId : Z;
  m_srcAddr : Z;
  m_dstAddr : Z;
  m_bytes : Z;
  m_targetNode : Z;
  m_completionFlagAddr : Z;
  m_completionValue : Z;
  pendingClearCycle : Z;
  batchCount : Z;
  batchRequestIds : list Z;
  batchSrcAddrs : list Z;
  batchDstAddrs : list Z;
  batchBytes : list Z;
  batchTargetNodes : list Z;
  batchCompletionFlagAddrs : list Z;
  batchCompletionValues : list Z;
  batchPendingClearCycles : list Z
}.
#[global] Instance eta_msg : Eta RequestSchedulerMsg := fun m =>
  mkMsg (type m) (groupId m) (m_workerSlot m) (srcCoreId m) (m_requestId m) (m_srcAddr m) (m_dstAddr m)
    (m_bytes m) (m_targetNode m) (m_completionFlagAddr m) (m_completionValue m) (pendingClearCycle m)
    (batchCount m) (batchRequestIds m) (batchSrcAddrs m) (batchDstAddrs m) (batchBytes m)
    (batchTargetNodes m) (batchCompletionFlagAddrs m) (batchCompletionValues m) (batchPendingClearCycles m).

Definition make (t : RequestSchedulerMsgType) : RequestSchedulerMsg :=
  mkMsg t 0 0 0 0 0 0 0 0 0 0 0 0 [] [] [] [] [] [] [] [].

Record PendingTransfer := mkTransfer {
  workerSlot : Z;
  workerCoreId : Z;
  requestId : Z;
  srcAddr : Z;
  dstAddr : Z;
  bytes : Z;
  targetNode : Z;
  completionFlagAddr : Z;
  completionValue : Z;
  issuedBytes : Z
}.
#[global] Instance eta_transfer : Eta PendingTransfer := fun p =>
  mkTransfer (workerSlot p) (workerCoreId p) (requestId p) (srcAddr p) (dstAddr p) (bytes p)
    (targetNode p) (completionFlagAddr p) (completionValue p) (issuedBytes p).
#[global] Instance transfer_inhabited : Inhabited PendingTransfer :=
  populate (mkTransfer 0 0 0 0 0 0 0 0 0 0).

(** ** Request ids *)

Abbreviation WINDOW_REQUEST_TILE_BITS := 12.
Abbreviation WINDOW_REQUEST_TILE_MASK := (Z.shiftl 1 WINDOW_REQUEST_TILE_BITS - 1).

Definition decodeRequestSlot (id : Z) : Z := u8 (Z.land (Z.shiftr id 48) 0xff).
Definition decodeSiblingRequestId (id : Z) : Z := Z.lxor id (Z.shiftl 1 48).
Definition decodeTargetNode (id : Z) : Z := u16 (Z.land (Z.shiftr id 32) 0xffff).

Definition composeWindowRequestId (coreId slot node txnId tileIdx : Z) : Z :=
  let seq := Z.lor (u64 (Z.shiftl (Z.land txnId 0x00ffffff) WINDOW_REQUEST_TILE_BITS))
                   (Z.land tileIdx WINDOW_REQUEST_TILE_MASK) in
  Z.lor (Z.lor (Z.lor (Z.shiftl (Z.land coreId 0xff) 56) (Z.shiftl slot 48))
               (Z.shiftl (Z.land node 0xffff) 32))
        (Z.land seq 0xffffffff).

(** The order in which panels of one queue are served. *)
Definition requestPriorityKey (req : PendingTransfer) : Z :=
  let seq := Z.land (requestId req) 0xffffffff in
  let txnSeq := Z.shiftr seq WINDOW_REQUEST_TILE_BITS in
  let tileIdx := Z.land seq WINDOW_REQUEST_TILE_MASK in
  let slot := decodeRequestSlot (requestId req) in
  let continuation := if issuedBytes req =? 0 then 0 else 1 in
  Z.lor (Z.lor (Z.lor (Z.shiftl txnSeq 24) (Z.shiftl tileIdx 8)) (Z.shiftl continuation 4))
        (Z.land slot 0x0f).

(** ** Configuration *)

Record Config := mkConfig {
  coreId_ : Z;
  groupId_ : Z;
  workerSlot_ : Z;
  queueDepth_ : Z;
  panelChunkBytes_ : Z;
  workerCreditCap_ : Z;
  managerIssueBudgetPerTick_ : Z;
  tileChunkQuantum_ : Z;
  submitBatchSize_ : Z;
  doneBatchSize_ : Z;
  prefetchWindowDepth_ : Z;
  localSlotCount_ : Z;
  aReuseNTiles_ : Z;
  bReuseMTiles_ : Z;
  windowKtiles_ : Z;
  numMemoryNodes_ : Z;
  inferSubmitBytes_ : bool;
  eventDrivenWorker_ : bool;
  groupRoundRobin_ : bool;
  slot0Bytes_ : Z;
  slot1Bytes_ : Z;
  gmBaseAddr_ : Z;
  networkId_ : Z
}.
#[global] Instance eta_config : Eta Config := fun c =>
  mkConfig (coreId_ c) (groupId_ c) (workerSlot_ c) (queueDepth_ c) (panelChunkBytes_ c) (workerCreditCap_ c)
    (managerIssueBudgetPerTick_ c) (tileChunkQuantum_ c) (submitBatchSize_ c) (doneBatchSize_ c)
    (prefetchWindowDepth_ c) (localSlotCount_ c) (aReuseNTiles_ c) (bReuseMTiles_ c) (windowKtiles_ c)
    (numMemoryNodes_ c) (inferSubmitBytes_ c) (eventDrivenWorker_ c) (groupRoundRobin_ c) (slot0Bytes_ c)
    (slot1Bytes_ c) (gmBaseAddr_ c) (networkId_ c).

Definition or_else (d z : Z) : Z := if z =? 0 then d else z.

Definition computeWorkerResidentK (c : Config) : Z :=
  let reuseM := Z.max (bReuseMTiles_ c) 1 in
  let reuseN := Z.max (aReuseNTiles_ c) 1 in
  let windowBuffers := Z.max (prefetchWindowDepth_ c ⊞₃₂ 1) 1 in
  let slotCount := Z.max (localSlotCount_ c) 1 in
  let residentK := Z.max (windowKtiles_ c) 1 in
  let residentK :=
    if (1 <? reuseM) || (1 <? reuseN) then
      let matLimit := slotCount / Z.max 1 (u64 (windowBuffers * reuseM)) in
      let vecLimit := slotCount / Z.max 1 (u64 (windowBuffers * reuseN)) in
      Z.max 1 (Z.min residentK (Z.min matLimit vecLimit))
    else residentK in
  Z.min residentK 4096.

Definition computeWorkerCreditCap (c : Config) : Z :=
  let reuseM := Z.max (bReuseMTiles_ c) 1 in
  let reuseN := Z.max (aReuseNTiles_ c) 1 in
  let creditWindowBuffers := Z.max (prefetchWindowDepth_ c ⊞₃₂ 1) 1 in
  let residentK := Z.max (computeWorkerResidentK c) 1 in
  let requestsPerWindow := u64 (residentK * (reuseM + reuseN)) in
  let cap := Z.max (reuseM + reuseN) (u64 (creditWindowBuffers * requestsPerWindow)) in
  Z.min cap 4096.

(** The constructor's corrections; [workerCreditCap_] of the argument is the
    configured limit. *)
Definition corrected (c : Config) : Config :=
  let c := c <| submitBatchSize_ := or_else 1 (submitBatchSize_ c) |>
             <| doneBatchSize_ := or_else 1 (doneBatchSize_ c) |>
             <| managerIssueBudgetPerTick_ := or_else 1 (managerIssueBudgetPerTick_ c) |>
             <| tileChunkQuantum_ := or_else 1 (tileChunkQuantum_ c) |>
             <| windowKtiles_ := or_else 1 (windowKtiles_ c) |>
             <| panelChunkBytes_ := or_else 2048 (panelChunkBytes_ c) |>
             <| prefetchWindowDepth_ := or_else 1 (prefetchWindowDepth_ c) |>
             <| localSlotCount_ := or_else 1 (localSlotCount_ c) |>
             <| aReuseNTiles_ := or_else 1 (aReuseNTiles_ c) |>
             <| bReuseMTiles_ := or_else 1 (bReuseMTiles_ c) |> in
  c <| workerCreditCap_ := if negb (workerCreditCap_ c =? 0) then Z.min (workerCreditCap_ c) 4096
                           else computeWorkerCreditCap c |>.

Definition inferBytesForSlot (c : Config) (slot mailboxBytes : Z) : Z :=
  if negb (inferSubmitBytes_ c) then mailboxBytes
  else if (slot =? 0) && (0 <? slot0Bytes_ c) then slot0Bytes_ c
  else if (slot =? 1) && (0 <? slot1Bytes_ c) then slot1Bytes_ c
  else mailboxBytes.

(** The bytes of the next chunk of a panel. *)
Definition chunkBytesForTransfer (c : Config) (req : PendingTransfer) : Z :=
  if bytes req <=? issuedBytes req then 0
  else
    let remaining := bytes req ⊟₃₂ issuedBytes req in
    let chunkLimit := if panelChunkBytes_ c =? 0 then remaining else panelChunkBytes_ c in
    Z.min remaining (Z.max chunkLimit 1).

(** A panel as it is submitted. *)
Record Submit := mkSubmit {
  s_requestId : Z; s_srcAddr : Z; s_dstAddr : Z; s_bytes : Z; s_targetNode : Z;
  s_completionFlagAddr : Z; s_completionValue : Z
}.

End SchedMsg.

(** ** Request ids *)

Section RequestIds.
Import SchedMsg.

(** The id as a number: core, slot, node, window sequence and ordinal. *)
Definition id_number (coreId slot node txnId tileIdx : Z) : Z :=
  ((((coreId mod 2 ^ 8) * 2 ^ 8 + slot) * 2 ^ 16 + node mod 2 ^ 16) * 2 ^ 20 + txnId mod 2 ^ 20) * 2 ^ 12 + tileIdx mod 2 ^ 12.

Lemma mask_mod a m n : 0 <= n -> m = 2 ^ n - 1 -> Z.land a m = a mod 2 ^ n.
Proof. intros Hn ->. by apply land_ones_mod. Qed.

Lemma window_sequence txnId tileIdx :
  Z.land (Z.lor (u64 (Z.shiftl (Z.land txnId 0x00ffffff) WINDOW_REQUEST_TILE_BITS))
                (Z.land tileIdx WINDOW_REQUEST_TILE_MASK)) 0xffffffff =
  (txnId mod 2 ^ 20) * 2 ^ 12 + tileIdx mod 2 ^ 12.
Proof.
  rewrite (mask_mod txnId _ 24), (mask_mod tileIdx _ 12) by done. rewrite Z.shiftl_mul_pow2 by done.
  pose proof (Z.mod_pos_bound txnId (2 ^ 24) ltac:(lia)). pose proof (Z.mod_pos_bound tileIdx (2 ^ 12) ltac:(lia)).
  rewrite u64_small by (unfold is_u64; lia). rewrite lor_add by lia. rewrite (mask_mod _ _ 32) by done.
  pose proof (Z.mod_pos_bound txnId (2 ^ 20) ltac:(lia)).
  assert (txnId mod 2 ^ 24 = (txnId / 2 ^ 20) mod 2 ^ 4 * 2 ^ 20 + txnId mod 2 ^ 20) as ->.
  { change (2 ^ 24) with (2 ^ 20 * 2 ^ 4). rewrite Z.rem_mul_r by done. lia. }
  rewrite <- (Z.mod_small (txnId mod 2 ^ 20 * 2 ^ 12 + tileIdx mod 2 ^ 12) (2 ^ 32)) by lia.
  rewrite <- (Z_mod_plus_full (txnId mod 2 ^ 20 * 2 ^ 12 + _) ((txnId / 2 ^ 20) mod 2 ^ 4) (2 ^ 32)). f_equal. lia.
Qed.

Lemma compose_number coreId slot node txnId tileIdx :
  is_u8 slot -> composeWindowRequestId coreId slot node txnId tileIdx = id_number coreId slot node txnId tileIdx.
Proof.
  intros Hs. unfold composeWindowRequestId, id_number, is_u8 in *. cbv zeta. rewrite window_sequence.
  rewrite (mask_mod coreId _ 8), (mask_mod node _ 16) by done. rewrite !Z.shiftl_mul_pow2 by done.
  pose proof (Z.mod_pos_bound coreId (2 ^ 8) ltac:(lia)). pose proof (Z.mod_pos_bound node (2 ^ 16) ltac:(lia)).
  pose proof (Z.mod_pos_bound txnId (2 ^ 20) ltac:(lia)). pose proof (Z.mod_pos_bound tileIdx (2 ^ 12) ltac:(lia)).
  set (a := coreId mod 2 ^ 8) in *. set (n := node mod 2 ^ 16) in *. set (x := txnId mod 2 ^ 20) in *. set (y := tileIdx mod 2 ^ 12) in *.
  rewrite (lor_add a) by lia. replace (a * 2 ^ 56 + slot * 2 ^ 48) with ((a * 2 ^ 8 + slot) * 2 ^ 48) by lia.
  rewrite lor_add by lia.
  replace ((a * 2 ^ 8 + slot) * 2 ^ 48 + n * 2 ^ 32) with (((a * 2 ^ 8 + slot) * 2 ^ 16 + n) * 2 ^ 32) by lia.
  rewrite lor_add by lia. lia.
Qed.

(** The fields a request id is read back into. *)
Definition id_window (id : Z) : Z := u32 id / 2 ^ 12.
Definition id_ordinal (id : Z) : Z := u32 id mod 2 ^ 12.

Lemma id_fields coreId slot node txnId tileIdx :
  is_u8 slot -> let id := composeWindowRequestId coreId slot node txnId tileIdx in
  is_u64 id /\ id / 2 ^ 56 = coreId mod 2 ^ 8 /\ decodeRequestSlot id = slot /\ decodeTargetNode id = node mod 2 ^ 16 /\
  id_window id = txnId mod 2 ^ 20 /\ id_ordinal id = tileIdx mod 2 ^ 12.
Proof.
  intros Hs. cbv zeta. rewrite compose_number by done. unfold id_number, is_u8, is_u64 in *.
  pose proof (Z.mod_pos_bound coreId (2 ^ 8) ltac:(lia)). pose proof (Z.mod_pos_bound node (2 ^ 16) ltac:(lia)).
  pose proof (Z.mod_pos_bound txnId (2 ^ 20) ltac:(lia)). pose proof (Z.mod_pos_bound tileIdx (2 ^ 12) ltac:(lia)).
  unfold decodeRequestSlot, decodeTargetNode, id_window, id_ordinal.
  rewrite !(mask_mod _ 0xff 8), !(mask_mod _ 0xffff 16) by done. rewrite !Z.shiftr_div_pow2 by done. unfold u8, u16, u32.
  generalize dependent (coreId mod 2 ^ 8). generalize dependent (node mod 2 ^ 16).
  generalize dependent (txnId mod 2 ^ 20). generalize dependent (tileIdx mod 2 ^ 12). intros y Hy x Hx n Hn a Ha.
  split_and!; Z.to_euclidean_division_equations; lia.
Qed.

(** A request id carries core, slot, memory node, window sequence (20 bits)
    and ordinal (12 bits): each is read back from it, so within these ranges two
    requests have the same id only if they are the same; a window 2^20 later, or
    an ordinal 4096 higher, has the same id. *)
Theorem request_id_roundtrip core slot node txn ordinal core' slot' node' txn' ordinal' :
  is_u8 slot -> is_u8 slot' ->
  let id := composeWindowRequestId core slot node txn ordinal in
  (decodeRequestSlot id = slot /\ decodeTargetNode id = node mod 2 ^ 16) /\
  (id = composeWindowRequestId core' slot' node' txn' ordinal' <->
   core mod 2 ^ 8 = core' mod 2 ^ 8 /\ slot = slot' /\ node mod 2 ^ 16 = node' mod 2 ^ 16 /\
   txn mod 2 ^ 20 = txn' mod 2 ^ 20 /\ ordinal mod 2 ^ 12 = ordinal' mod 2 ^ 12).
Proof.
  intros Hs Hs'. cbv zeta. destruct (id_fields core slot node txn ordinal Hs) as (_ & F1 & F2 & F3 & F4 & F5).
  destruct (id_fields core' slot' node' txn' ordinal' Hs') as (_ & G1 & G2 & G3 & G4 & G5).
  split; [done|]. split.
  - intros E. rewrite <- E in *. split_and!; congruence.
  - intros (E1 & -> & E3 & E4 & E5). rewrite !compose_number by done. unfold id_number. by rewrite E1, E3, E4, E5.
Qed.

Lemma request_id_roundtrip_witness :
  decodeRequestSlot (composeWindowRequestId 7 1 3 5 200) = 1 /\
  composeWindowRequestId 7 1 3 5 200 = composeWindowRequestId 7 1 3 5 4296.
Proof.
  destruct (request_id_roundtrip 7 1 3 5 200 7 1 3 5 4296 ltac:(unfold is_u8; lia) ltac:(unfold is_u8; lia)) as [[H _] [_ H']].
  split; [exact H|]. apply H'. split_and!; reflexivity.
Defined.

(** ** The order of service *)

(** Smaller in the order of windows, tiles, new panels before begun ones, and slots. *)
Definition rank (p : PendingTransfer) : list Z :=
  [id_window (requestId p); id_ordinal (requestId p); if issuedBytes p =? 0 then 0 else 1;
   decodeRequestSlot (requestId p) mod 16].
Fixpoint lex_lt (l l' : list Z) : Prop :=
  match l, l' with
  | x :: l, y :: l' => x < y \/ (x = y /\ lex_lt l l')
  | _, _ => False
  end.

Lemma key_number p :
  requestPriorityKey p = ((id_window (requestId p) * 2 ^ 16 + id_ordinal (requestId p)) * 2 ^ 4 +
    (if issuedBytes p =? 0 then 0 else 1)) * 2 ^ 4 + decodeRequestSlot (requestId p) mod 16.
Proof.
  unfold requestPriorityKey, id_window, id_ordinal. cbv zeta.
  rewrite (mask_mod (requestId p) _ 32), (mask_mod _ (Z.shiftl 1 12 - 1) 12), (mask_mod _ 0x0f 4) by done.
  change (requestId p mod 2 ^ 32) with (u32 (requestId p)). rewrite Z.shiftr_div_pow2 by done. rewrite !Z.shiftl_mul_pow2 by done.
  pose proof (Z.mod_pos_bound (u32 (requestId p)) (2 ^ 12) ltac:(lia)).
  pose proof (Z.mod_pos_bound (decodeRequestSlot (requestId p)) 16 ltac:(lia)).
  set (x := u32 (requestId p) / 2 ^ 12). set (y := u32 (requestId p) mod 2 ^ 12) in *.
  set (k := if issuedBytes p =? 0 then 0 else 1). assert (0 <= k <= 1) by (unfold k; destruct (_ =? _); lia).
  change (2 ^ 4) with 16. set (z := decodeRequestSlot (requestId p) mod 16) in *.
  rewrite (lor_add x) by lia. replace (x * 2 ^ 24 + y * 2 ^ 8) with ((x * 2 ^ 16 + y) * 2 ^ 8) by lia.
  rewrite lor_add by lia. replace ((x * 2 ^ 16 + y) * 2 ^ 8 + k * 16) with (((x * 2 ^ 16 + y) * 2 ^ 4 + k) * 2 ^ 4) by lia.
  rewrite lor_add by lia. lia.
Qed.

Lemma key_lex p q : requestPriorityKey p < requestPriorityKey q <-> lex_lt (rank p) (rank q).
Proof.
  rewrite !key_number. unfold rank, id_ordinal. cbn [lex_lt].
  pose proof (Z.mod_pos_bound (u32 (requestId p)) (2 ^ 12) ltac:(lia)). pose proof (Z.mod_pos_bound (u32 (requestId q)) (2 ^ 12) ltac:(lia)).
  pose proof (Z.mod_pos_bound (decodeRequestSlot (requestId p)) 16 ltac:(lia)).
  pose proof (Z.mod_pos_bound (decodeRequestSlot (requestId q)) 16 ltac:(lia)).
  destruct (issuedBytes p =? 0), (issuedBytes q =? 0); lia.
Qed.

End RequestIds.
