(* ===== verification/SchedManager.v ===== *)
(** * Request scheduler: the manager

    Models the manager of golem/requestscheduler/requestscheduler.cc.  Workers
    submit panels (contiguous reads of host memory); the manager queues them per
    memory node and worker and issues them to the memory nodes chunk by chunk,
    on behalf of the worker that will receive the data.  A panel takes one credit
    of its worker when its first chunk is issued, which the worker's DONE gives
    back; at most a budget of chunks is issued per cycle.

    Handlers return the requests handed to the network.  [link] tells whether
    the network accepts the [n]-th of them; a fatal exit is [None].  Traces and
    pressure counters are left out. *)

From S2P Require Import Prelude Telemetry Cluster GroupMsg LocalMem Dma RemoteAccess Effects SchedMsg.

Module SchedManager.
Import Net SchedMsg.

Definition workerCount : Z := 4.

Record t := mk {
  nodeWorkerQueues_ : list (list (list PendingTransfer));
  workerCredits_ : list Z;
  nodeIssueCursor_ : Z;
  nodeWorkerIssueCursor_ : list Z;
  groupWorkerIssueCursor_ : Z;
  workerNodeIssueCursor_ : list Z;
  lastTickCycle_ : Z;
  issueBudgetCycle_ : Z;
  issuedThisCycle_ : Z;
  endpoints : Endpoints.t;
  attempts : Z
}.
#[global] Instance eta_t : Eta t := fun s =>
  mk (nodeWorkerQueues_ s) (workerCredits_ s) (nodeIssueCursor_ s) (nodeWorkerIssueCursor_ s)
    (groupWorkerIssueCursor_ s) (workerNodeIssueCursor_ s) (lastTickCycle_ s) (issueBudgetCycle_ s)
    (issuedThisCycle_ s) (endpoints s) (attempts s).

(** The manager's view of the network: endpoints of the cores, routes to the
    memory nodes, the virtual network of requests. *)
Record View := mkView { ends : Endpoints.Config; routing : Routing.t; requestVn : Z }.

Definition init (c : Config) (e : Endpoints.t) : t :=
  mk (replicate (Z.to_nat (numMemoryNodes_ c)) (replicate (Z.to_nat workerCount) []))
     (replicate (Z.to_nat workerCount) (workerCreditCap_ c)) 0
     (replicate (Z.to_nat (numMemoryNodes_ c)) 0) 0 (replicate (Z.to_nat workerCount) 0) 0 0 0 e 0.

Abbreviation M := (Effects.M t Request).
#[local] Open Scope sched_scope.

(** ** Queues *)

Definition queue (node worker : Z) (s : t) : list PendingTransfer := ((nodeWorkerQueues_ s).[node]).[worker].
Definition set_queue (node worker : Z) (q : list PendingTransfer) (s : t) : t :=
  s <| nodeWorkerQueues_ :=
    (nodeWorkerQueues_ s).[node := ((nodeWorkerQueues_ s).[node]).[worker := q]] |>.

Definition managerPendingCount (s : t) : Z :=
  Z.of_nat (sum_list_with (fun perNode => sum_list_with List.length perNode) (nodeWorkerQueues_ s)).

Definition nodeCount (s : t) : Z := Z.of_nat (List.length (nodeWorkerQueues_ s)).

Section Manager.
Variable c : Config.
Variable v : View.
Variable link : Z -> bool.

(** ** Issuing *)

Definition link_send (req : Request) : M bool := fun s =>
  let sent := link (attempts s) in
  Some (sent, (if sent then [req] else [], s <| attempts := attempts s + 1 |>)).

Definition read_of (req : PendingTransfer) (workerEp dest_ : Z) : Request :=
  mkRequest (networkId_ c) dest_ (requestVn v) ((8 + 4 + 8) * 8)
    (mkEvent READ (srcAddr req) (bytes req) [] (dstAddr req) workerEp (completionFlagAddr req)
       (completionValue req) (requestId req) Unknown no_consumer 0) None.

Definition issueTransfer (req : PendingTransfer) : M bool := fun s =>
  if networkId_ c <? 0 then ret false s
  else
    match Endpoints.resolveEndpointForAddress (ends v) (dstAddr req) (endpoints s) with
    | None => None
    | Some (workerEp, e) =>
        (update (fun s => s <| endpoints := e |>) ;;
         if workerEp <? 0 then ret false
         else
           match Routing.destination (routing v) (srcAddr req) with
           | None => fatal
           | Some d => link_send (read_of req workerEp d)
           end) s
    end.

Definition hasIssueBudget (s : t) : bool := issuedThisCycle_ s <? managerIssueBudgetPerTick_ c.

Definition hasWorkerCredit (s : t) (req : PendingTransfer) : bool :=
  (workerSlot req <? Z.of_nat (List.length (workerCredits_ s))) &&
  negb ((workerCredits_ s).[workerSlot req] =? 0).

(** A panel whose first chunk needs a credit that is not there is passed over. *)
Definition issuable (s : t) (req : PendingTransfer) : bool :=
  negb (issuedBytes req =? 0) || hasWorkerCredit s req.

Definition spendIssued (panel : PendingTransfer) (consumeWorkerCredit : bool) (s : t) : t :=
  let s := if consumeWorkerCredit
           then s <| workerCredits_ := (workerCredits_ s).[workerSlot panel :=
                       (workerCredits_ s).[workerSlot panel] ⊟₃₂ 1] |> else s in
  s <| issuedThisCycle_ := issuedThisCycle_ s ⊞₃₂ 1 |>.

Definition chunk_of (panel : PendingTransfer) (chunkBytes : Z) : PendingTransfer :=
  panel <| srcAddr := srcAddr panel ⊞ issuedBytes panel |>
        <| dstAddr := dstAddr panel ⊞ issuedBytes panel |>
        <| bytes := chunkBytes |> <| issuedBytes := 0 |>.

(** The panel after its next chunk, if that could be issued. *)
Definition issueQueueEntry (node worker idx : Z) : M (option PendingTransfer) := fun s =>
  let q := queue node worker s in
  match q !! Z.to_nat idx with
  | None => ret None s
  | Some panel =>
      let chunkBytes := chunkBytesForTransfer c panel in
      if chunkBytes =? 0 then
        (update (set_queue node worker (delete (Z.to_nat idx) q)) ;; ret None) s
      else
        let consumeWorkerCredit := issuedBytes panel =? 0 in
        if consumeWorkerCredit && negb (hasWorkerCredit s panel) then ret None s
        else
          (let! issued := issueTransfer (chunk_of panel chunkBytes) in
           if negb issued then ret None
           else
             let panel := panel <| issuedBytes := issuedBytes panel ⊞₃₂ chunkBytes |> in
             update (set_queue node worker
               (delete (Z.to_nat idx) q ++ if issuedBytes panel <? bytes panel then [panel] else [])) ;;
             update (spendIssued panel consumeWorkerCredit) ;;
             ret (Some panel)) s
  end.

(** The scan of a queue: exhausted entries are erased, and among the entries
    that [ok] admits the first with the least key is chosen. *)
Fixpoint scan (ok : PendingTransfer -> bool) (idx : Z) (best : option (Z * Z)) (q : list PendingTransfer)
    : list PendingTransfer * option Z :=
  match q with
  | [] => ([], snd <$> best)
  | p :: q =>
      if chunkBytesForTransfer c p =? 0 then scan ok idx best q
      else
        let key := requestPriorityKey p in
        let best :=
          if ok p then
            match best with
            | None => Some (key, idx)
            | Some (bestKey, i) => if key <? bestKey then Some (key, idx) else best
            end
          else best in
        let '(q', r) := scan ok (idx + 1) best q in (p :: q', r)
  end.

(** As [scan], without erasing. *)
Fixpoint find_best (ok : PendingTransfer -> bool) (idx : Z) (best : option (Z * Z)) (q : list PendingTransfer)
    : option Z :=
  match q with
  | [] => snd <$> best
  | p :: q =>
      let key := requestPriorityKey p in
      find_best ok (idx + 1)
        (if ok p then
           match best with
           | None => Some (key, idx)
           | Some (bestKey, i) => if key <? bestKey then Some (key, idx) else best
           end
         else best) q
  end.

Definition tryIssuePrioritySibling (node worker : Z) (issuedPanel : PendingTransfer) : M unit := fun s =>
  let slot := decodeRequestSlot (requestId issuedPanel) in
  if negb (hasIssueBudget s) || (negb (slot =? 0) && negb (slot =? 1)) then ret tt s
  else
    let siblingId := decodeSiblingRequestId (requestId issuedPanel) in
    match find_best (fun p => (requestId p =? siblingId) && issuable s p) 0 None (queue node worker s) with
    | None => ret tt s
    | Some siblingIdx => (issueQueueEntry node worker siblingIdx ;; ret tt) s
    end.

Definition tryIssueFromQueue (node worker : Z) : M bool := fun s =>
  match scan (issuable s) 0 None (queue node worker s) with
  | (q, None) => (update (set_queue node worker q) ;; ret false) s
  | (q, Some idx) =>
      (update (set_queue node worker q) ;;
       let! issued := issueQueueEntry node worker idx in
       match issued with
       | None => ret false
       | Some issuedPanel =>
           (if negb (groupRoundRobin_ c) then tryIssuePrioritySibling node worker issuedPanel else ret tt) ;;
           ret true
       end) s
  end.

(** The panels a turn of a worker may issue: of a slot, and of the turn's
    window and tile once it has begun. *)
Definition wanted (wantedSlot : Z) (bundle : option Z) (s : t) (p : PendingTransfer) : bool :=
  (decodeRequestSlot (requestId p) =? wantedSlot) &&
  match bundle with None => true | Some bundleSeq => u32 (requestId p) =? bundleSeq end &&
  issuable s p.

Fixpoint slot_nodes (worker wantedSlot : Z) (bundle : option Z) (nodes : list Z) : M (option PendingTransfer) :=
  match nodes with
  | [] => ret None
  | node :: nodes => fun s =>
      let '(q, chosen) := scan (wanted wantedSlot bundle s) 0 None (queue node worker s) in
      (update (set_queue node worker q) ;;
       let! issued := match chosen with
                      | None => ret None
                      | Some idx => issueQueueEntry node worker idx
                      end in
       match issued with
       | None => slot_nodes worker wantedSlot bundle nodes
       | Some panel =>
           update (fun s => s <| workerNodeIssueCursor_ :=
             (workerNodeIssueCursor_ s).[worker := (node + 1) mod nodeCount s] |>) ;;
           ret (Some panel)
       end) s
  end.

(** All indices below [k], from [start] on. *)
Definition cyclic (start k : Z) : list Z := map (fun off => (start + off) mod k) (seqZ 0 k).

Definition tryIssueSlotFromWorker (worker wantedSlot : Z) (bundle : option Z) : M (option PendingTransfer) := fun s =>
  slot_nodes worker wantedSlot bundle
    (cyclic ((workerNodeIssueCursor_ s).[worker] mod nodeCount s) (nodeCount s)) s.

Definition if_budget {A} (d : A) (m : M A) : M A := fun s => if hasIssueBudget s then m s else ret d s.

(** The further rounds of a turn. *)
Fixpoint quantum (fuel : nat) (worker bundleSeq : Z) : M unit :=
  match fuel with
  | O => ret tt
  | S fuel =>
      if_budget tt
        (let! a := tryIssueSlotFromWorker worker 0 (Some bundleSeq) in
         let! b := if_budget None (tryIssueSlotFromWorker worker 1 (Some bundleSeq)) in
         match a, b with
         | None, None => ret tt
         | _, _ => quantum fuel worker bundleSeq
         end)
  end.

(** The turn of a worker: whether it issued anything. *)
Definition worker_turn (worker : Z) : M bool :=
  let! first := if_budget None (tryIssueSlotFromWorker worker 0 None) in
  let! first :=
    match first with
    | Some firstPanel =>
        if_budget None (tryIssueSlotFromWorker worker 1 (Some (u32 (requestId firstPanel)))) ;;
        ret (Some firstPanel)
    | None => if_budget None (tryIssueSlotFromWorker worker 1 None)
    end in
  match first with
  | None => ret false
  | Some firstPanel =>
      quantum (Z.to_nat (tileChunkQuantum_ c - 1)) worker (u32 (requestId firstPanel)) ;;
      update (fun s => s <| groupWorkerIssueCursor_ := (worker + 1) mod workerCount |>) ;;
      ret true
  end.

Fixpoint first_worker (workers : list Z) : M bool :=
  match workers with
  | [] => ret false
  | worker :: workers =>
      let! issued := worker_turn worker in if issued then ret true else first_worker workers
  end.

Definition group_round : M bool := fun s =>
  first_worker (cyclic (groupWorkerIssueCursor_ s mod workerCount) workerCount) s.

(** Node-first policy: the workers of a node, then the nodes. *)
Fixpoint node_workers (node : Z) (workers : list Z) : M bool :=
  match workers with
  | [] => ret false
  | worker :: workers => fun s =>
      match queue node worker s with
      | [] => node_workers node workers s
      | _ =>
          (let! issued := tryIssueFromQueue node worker in
           if issued then
             update (fun s => s <| nodeWorkerIssueCursor_ :=
                                   (nodeWorkerIssueCursor_ s).[node := (worker + 1) mod workerCount] |>
                                <| nodeIssueCursor_ := (node + 1) mod nodeCount s |>) ;;
             ret true
           else node_workers node workers) s
      end
  end.

Fixpoint first_node (nodes : list Z) : M bool :=
  match nodes with
  | [] => ret false
  | node :: nodes => fun s =>
      (let! issued := node_workers node (cyclic ((nodeWorkerIssueCursor_ s).[node] mod workerCount) workerCount) in
       if issued then ret true else first_node nodes) s
  end.

Definition node_round : M bool := fun s => first_node (cyclic (nodeIssueCursor_ s) (nodeCount s)) s.

Fixpoint rounds (fuel : nat) : M unit :=
  match fuel with
  | O => ret tt
  | S fuel => fun s =>
      if negb (managerPendingCount s =? 0) && hasIssueBudget s then
        (let! progress := if groupRoundRobin_ c then group_round else node_round in
         if progress then rounds fuel else ret tt) s
      else ret tt s
  end.

(** A round that goes on has issued a chunk, so the budget bounds the rounds. *)
Definition tryIssue : M unit := fun s =>
  if (nodeCount s =? 0) || (managerPendingCount s =? 0) then ret tt s
  else
    let s := if negb (issueBudgetCycle_ s =? lastTickCycle_ s)
             then s <| issueBudgetCycle_ := lastTickCycle_ s |> <| issuedThisCycle_ := 0 |> else s in
    if negb (hasIssueBudget s) then ret tt s
    else rounds (Z.to_nat (managerIssueBudgetPerTick_ c)) s.

Definition tick (cycle : Z) : M unit :=
  update (fun s => s <| lastTickCycle_ := cycle |>) ;; tryIssue.

Definition handleSendAvailable : M unit := tryIssue.

(** ** Messages of the workers *)

Definition enqueue_submit (slot srcCore : Z) (s : t) (r : Submit) : t :=
  if nodeCount s <=? s_targetNode r then s
  else if workerCount <=? u64 slot then s
  else if managerPendingCount s <? queueDepth_ c then
    set_queue (s_targetNode r) slot
      (queue (s_targetNode r) slot s ++
       [mkTransfer slot srcCore (s_requestId r) (s_srcAddr r) (s_dstAddr r) (s_bytes r) (s_targetNode r)
          (s_completionFlagAddr r) (s_completionValue r) 0]) s
  else s.

(** The requests of the parallel vectors, as far as all of them reach. *)
Fixpoint zip_batch (ids srcs dsts bs nodes flags vals : list Z) : list Submit :=
  match ids, srcs, dsts, bs, nodes, flags, vals with
  | i :: ids, a :: srcs, d :: dsts, b :: bs, nd :: nodes, f :: flags, v :: vals =>
      mkSubmit i a d b nd f v :: zip_batch ids srcs dsts bs nodes flags vals
  | _, _, _, _, _, _, _ => []
  end.

Definition submits (m : RequestSchedulerMsg) : list Submit :=
  if 0 <? batchCount m then
    take (Z.to_nat (batchCount m))
      (zip_batch (batchRequestIds m) (batchSrcAddrs m) (batchDstAddrs m) (batchBytes m) (batchTargetNodes m)
         (batchCompletionFlagAddrs m) (batchCompletionValues m))
  else [mkSubmit (m_requestId m) (m_srcAddr m) (m_dstAddr m) (m_bytes m) (m_targetNode m)
          (m_completionFlagAddr m) (m_completionValue m)].

Definition recycle_done (slot : Z) (s : t) (id : Z) : t :=
  if (0 <=? slot) && (slot <? Z.of_nat (List.length (workerCredits_ s))) &&
     ((workerCredits_ s).[slot] <? workerCreditCap_ c)
  then s <| workerCredits_ := (workerCredits_ s).[slot := (workerCredits_ s).[slot] + 1] |> else s.

Definition dones (m : RequestSchedulerMsg) : list Z :=
  match batchRequestIds m with
  | [] => [m_requestId m]
  | ids => if 0 <? batchCount m then take (Z.to_nat (batchCount m)) ids else [m_requestId m]
  end.

Definition handleReq (m : RequestSchedulerMsg) (slot : Z) (s : t) : t :=
  match type m with
  | SUBMIT => foldl (enqueue_submit slot (srcCoreId m)) s (submits m)
  | DONE => foldl (recycle_done slot) s (dones m)
  end.

End Manager.
End SchedManager.
