(* ===== verification/SchedPanels.v ===== *)
(** * Request scheduler: what the manager issues

    Facts on [SchedManager].  The queued and finished panels are followed together
    with the chunks issued of them ([accounts]); handlers are described by
    weakest preconditions ([wp]) whose rules follow the combinators of the
    handlers, and histories by the steps of [react].  The theorems: requests are
    exactly chunks of accepted panels and credits bound the panels begun, the
    issue budget holds in every cycle, a tick is work conserving, the order of
    service, and what happens to submits beyond the queue depth. *)

From S2P Require Import Prelude Telemetry Cluster GroupMsg LocalMem Dma RemoteAccess Effects SchedMsg SchedManager.


(** ** Entries of the queues *)

Section ManagerFacts.
Import Net SchedMsg SchedManager.
Local Open Scope sched_scope.

Definition entries (s : t) : list PendingTransfer := concat (map (@concat _) (nodeWorkerQueues_ s)).

Definition in_range (node worker : Z) (s : t) : Prop :=
  (Z.to_nat node < List.length (nodeWorkerQueues_ s))%nat /\
  (Z.to_nat worker < List.length ((nodeWorkerQueues_ s).[node]))%nat.

Lemma lookup_total_past {A} `{!Inhabited A} (l : list A) i : (List.length l <= i)%nat -> l !!! i = inhabitant.
Proof. intros H. by rewrite list_lookup_total_alt, lookup_ge_None_2. Qed.

Lemma queue_in_range node worker s : queue node worker s <> [] -> in_range node worker s.
Proof.
  unfold queue, in_range. intros H.
  destruct (decide (Z.to_nat worker < List.length ((nodeWorkerQueues_ s).[node]))%nat) as [Hw|Hw].
  - split; [|done]. destruct (decide (Z.to_nat node < List.length (nodeWorkerQueues_ s))%nat) as [Hn|Hn]; [done|].
    rewrite (lookup_total_past (nodeWorkerQueues_ s)) in Hw by lia. cbn in Hw. lia.
  - rewrite lookup_total_past in H by lia. done.
Qed.

(** The entries of one queue and the others. *)
Lemma entries_split node worker s :
  in_range node worker s -> exists rest, entries s ≡ₚ queue node worker s ++ rest /\
    forall q, entries (set_queue node worker q s) ≡ₚ q ++ rest.
Proof.
  intros [Hn Hw]. unfold entries, set_queue, queue in *. set (qs := nodeWorkerQueues_ s) in *.
  set (per := qs.[node]) in *.
  exists (concat (map (@concat _) (take (Z.to_nat node) qs)) ++ concat (take (Z.to_nat worker) per) ++
          concat (drop (S (Z.to_nat worker)) per) ++ concat (map (@concat _) (drop (S (Z.to_nat node)) qs))).
  assert (forall q, concat (map (@concat _) (qs.[node := per.[worker := q]])) ≡ₚ
    q ++ concat (map (@concat _) (take (Z.to_nat node) qs)) ++ concat (take (Z.to_nat worker) per) ++
          concat (drop (S (Z.to_nat worker)) per) ++ concat (map (@concat _) (drop (S (Z.to_nat node)) qs))) as H.
  { intros q. rewrite insert_take_drop by done. rewrite map_app, concat_app. cbn [map concat].
    rewrite (insert_take_drop per) by done. rewrite concat_app. cbn [concat]. solve_Permutation. }
  split; [|exact H]. rewrite <- H. unfold per at 2. rewrite list_insert_id; [done|].
  rewrite list_insert_id; [by apply list_lookup_lookup_total_lt|]. by apply list_lookup_lookup_total_lt.
Qed.

(** ** The chunks of a panel *)

Variable c : Config.
Variable v : View.
Variable link : Z -> bool.

(** The chunks issued of a panel, as offset and length, oldest first. *)
Inductive cut : PendingTransfer -> list (Z * Z) -> Prop :=
| cut_none p : issuedBytes p = 0 -> cut p []
| cut_next p l : cut p l -> chunkBytesForTransfer c p <> 0 ->
    cut (p <| issuedBytes := issuedBytes p ⊞₃₂ chunkBytesForTransfer c p |>)
        (l ++ [(issuedBytes p, chunkBytesForTransfer c p)]).

Lemma chunk_range p :
  is_u32 (bytes p) -> 0 <= issuedBytes p -> chunkBytesForTransfer c p <> 0 ->
  issuedBytes p < bytes p /\ 0 < chunkBytesForTransfer c p /\
  issuedBytes p + chunkBytesForTransfer c p <= bytes p /\
  (panelChunkBytes_ c <> 0 -> chunkBytesForTransfer c p <= Z.max (panelChunkBytes_ c) 1).
Proof.
  unfold chunkBytesForTransfer, is_u32. intros Hb Hi. destruct (Z.leb_spec (bytes p) (issuedBytes p)); [done|].
  intros _. cbv zeta. rewrite u32_small by (unfold is_u32; lia).
  destruct (Z.eqb_spec (panelChunkBytes_ c) 0); lia.
Qed.

Lemma chunk_zero p : is_u32 (bytes p) -> 0 <= issuedBytes p -> chunkBytesForTransfer c p = 0 -> bytes p <= issuedBytes p.
Proof.
  unfold chunkBytesForTransfer, is_u32. intros Hb Hi. destruct (Z.leb_spec (bytes p) (issuedBytes p)); [done|].
  cbv zeta. rewrite u32_small by (unfold is_u32; lia). lia.
Qed.

Lemma cut_spec p l :
  cut p l -> is_u32 (bytes p) ->
  0 <= issuedBytes p <= bytes p /\ concat (map (fun '(o, n) => seqZ o n) l) = seqZ 0 (issuedBytes p) /\
  Forall (fun '(_, n) => 0 < n /\ (panelChunkBytes_ c <> 0 -> n <= Z.max (panelChunkBytes_ c) 1)) l /\
  (l = [] <-> issuedBytes p = 0).
Proof.
  induction 1 as [p H|p l H IH Hc]; intros Hb.
  - rewrite H. unfold is_u32 in Hb. split_and!; [lia|lia|done|done|done].
  - change (is_u32 (bytes p)) in Hb. destruct (IH Hb) as (Hi & Hs & Hf & Hn).
    destruct (chunk_range p Hb ltac:(lia) Hc) as (H1 & H2 & H3 & H4).
    assert (issuedBytes p ⊞₃₂ chunkBytesForTransfer c p = issuedBytes p + chunkBytesForTransfer c p) as E
      by (unfold is_u32 in Hb; apply u32_small; unfold is_u32; lia).
    set (p' := p <| issuedBytes := _ |>). assert (issuedBytes p' = issuedBytes p + chunkBytesForTransfer c p) as -> by exact E.
    change (bytes p') with (bytes p). rewrite map_app, concat_app, Hs. cbn [map concat]. rewrite app_nil_r. split_and!; try lia.
    + rewrite seqZ_app by lia. by rewrite Z.add_0_l.
    + apply Forall_app. split; [done|]. by constructor.
    + split; [by intros [_ ?]%app_nil|lia].
Qed.

(** What identifies a panel: all but its progress. *)
Definition base (p : PendingTransfer) : PendingTransfer := p <| issuedBytes := 0 |>.

(** What a request asks for: id, source, destination, length, flag and value. *)
Definition piece : Type := Z * Z * Z * Z * (Z * Z).
Definition asked (r : Request) : piece :=
  let e := payload r in
  (Net.requestId e, addr e, returnAddr e, Net.length e, (Net.completionFlagAddr e, Net.completionValue e)).
Definition part (p : PendingTransfer) (x : Z * Z) : piece :=
  (requestId p, srcAddr p ⊞ fst x, dstAddr p ⊞ fst x, snd x, (completionFlagAddr p, completionValue p)).
Definition parts (x : PendingTransfer * list (Z * Z)) : list piece := map (part (fst x)) (snd x).

Definition has_started (w : Z) (x : PendingTransfer * list (Z * Z)) : bool :=
  (workerSlot (fst x) =? w) && match snd x with [] => false | _ => true end.
Definition started (w : Z) (l : list (PendingTransfer * list (Z * Z))) : Z :=
  Z.of_nat (List.length (filter (fun x => has_started w x = true) l)).

(** The panels in the queues and the finished ones, each with its chunks. *)
Record accounts (s : t) (acc : list PendingTransfer) (dn : Z -> Z) (log : list Request)
    (tr fin : list (PendingTransfer * list (Z * Z))) : Prop := {
  ac_entries : entries s ≡ₚ map fst tr;
  ac_cut : Forall (fun x => cut (fst x) (snd x)) (tr ++ fin);
  ac_fin : Forall (fun x => bytes (fst x) <= issuedBytes (fst x)) fin;
  ac_acc : acc ≡ₚ map (base ∘ fst) (tr ++ fin);
  ac_log : map asked log ≡ₚ concat (map parts (tr ++ fin));
  ac_credit : forall w, 0 <= w < workerCount -> (workerCredits_ s).[w] + started w (tr ++ fin) <= workerCreditCap_ c + dn w
}.

Record sound (s : t) (acc : list PendingTransfer) (dn : Z -> Z) (log : list Request) : Prop := {
  so_nodes : List.length (nodeWorkerQueues_ s) = Z.to_nat (numMemoryNodes_ c);
  so_workers : Forall (fun per => List.length per = Z.to_nat workerCount) (nodeWorkerQueues_ s);
  so_credits : List.length (workerCredits_ s) = Z.to_nat workerCount;
  so_cap : Forall (fun x => 0 <= x <= workerCreditCap_ c) (workerCredits_ s);
  so_typed : Forall (fun p => is_u32 (bytes p) /\ 0 <= workerSlot p < workerCount) acc;
  so_ghost : exists tr fin, accounts s acc dn log tr fin
}.

Lemma started_perm w l l' : l ≡ₚ l' -> started w l = started w l'.
Proof. intros P. unfold started. by rewrite P. Qed.
Lemma started_cons w x l : started w (x :: l) = (if has_started w x then 1 else 0) + started w l.
Proof. unfold started. rewrite filter_cons. destruct (has_started w x); case_decide; try done; cbn [List.length]; lia. Qed.
Lemma started_nonneg w l : 0 <= started w l.
Proof. unfold started. lia. Qed.

Lemma accounts_move s s' acc dn log tr tr' fin fin' :
  tr ++ fin ≡ₚ tr' ++ fin' -> entries s' ≡ₚ map fst tr' -> Forall (fun x => bytes (fst x) <= issuedBytes (fst x)) fin' ->
  workerCredits_ s' = workerCredits_ s ->
  accounts s acc dn log tr fin -> accounts s' acc dn log tr' fin'.
Proof.
  intros P He Hf Hc []. constructor; try done.
  - by rewrite <- P.
  - by rewrite <- P.
  - by rewrite <- P.
  - intros w Hw. rewrite Hc, <- (started_perm w _ _ P). by apply ac_credit0.
Qed.

Lemma typed_entry s acc dn log tr fin x :
  sound s acc dn log -> accounts s acc dn log tr fin -> x ∈ tr ++ fin ->
  is_u32 (bytes (fst x)) /\ 0 <= workerSlot (fst x) < workerCount /\ cut (fst x) (snd x).
Proof.
  intros S A Hx. pose proof (so_typed _ _ _ _ S) as T. rewrite (ac_acc _ _ _ _ _ _ A), Forall_map, Forall_forall in T.
  pose proof (ac_cut _ _ _ _ _ _ A) as C. rewrite Forall_forall in C.
  destruct (T x Hx) as [T1 T2]. by specialize (C x Hx).
Qed.

(** Entries of a permuted list keep their chunks. *)
Lemma tracked_split (tr : list (PendingTransfer * list (Z * Z))) l1 l2 :
  map fst tr ≡ₚ l1 ++ l2 -> exists t1 t2, tr ≡ₚ t1 ++ t2 /\ map fst t1 = l1 /\ map fst t2 = l2.
Proof.
  intros P. symmetry in P. destruct (Permutation_map_inv _ _ P) as (tr' & E & P').
  symmetry in E. apply map_eq_app in E as (t1 & t2 & -> & <- & <-). by exists t1, t2.
Qed.

Lemma shape_set_queue node worker q s :
  List.length (nodeWorkerQueues_ (set_queue node worker q s)) = List.length (nodeWorkerQueues_ s) /\
  forall k, Forall (fun per => List.length per = k) (nodeWorkerQueues_ s) ->
    Forall (fun per => List.length per = k) (nodeWorkerQueues_ (set_queue node worker q s)).
Proof.
  unfold set_queue. set (qs := nodeWorkerQueues_ s).
  change (nodeWorkerQueues_ (s <| nodeWorkerQueues_ := ?x |>)) with x. split; [apply length_insert|].
  intros k H. destruct (decide (Z.to_nat node < List.length qs)%nat) as [Hn|Hn].
  - apply Forall_insert; [done|]. rewrite length_insert. rewrite Forall_lookup in H. apply (H (Z.to_nat node)).
    by apply list_lookup_lookup_total_lt.
  - by rewrite list_insert_ge by lia.
Qed.

Lemma out_of_range_set node worker s : queue node worker s = [] -> set_queue node worker [] s = s.
Proof.
  intros H. unfold set_queue, queue in *. set (qs := nodeWorkerQueues_ s) in *.
  assert (qs.[node].[worker := []] = qs.[node]) as ->.
  { destruct (decide (Z.to_nat worker < List.length (qs.[node]))%nat) as [Hw|Hw]; [|by rewrite list_insert_ge by lia].
    apply list_insert_id. rewrite <- H. by apply list_lookup_lookup_total_lt. }
  assert (qs.[node := qs.[node]] = qs) as ->.
  { destruct (decide (Z.to_nat node < List.length qs)%nat) as [Hn|Hn]; [|by rewrite list_insert_ge by lia].
    apply list_insert_id. by apply list_lookup_lookup_total_lt. }
  by destruct s.
Qed.

(** Exhausted entries leave a queue. *)
Lemma panel_retire_sound node worker q gone s acc dn log :
  sound s acc dn log -> queue node worker s ≡ₚ q ++ gone -> Forall (fun p => bytes p <= issuedBytes p) gone ->
  sound (set_queue node worker q s) acc dn log.
Proof.
  intros S P Hg. destruct (shape_set_queue node worker q s) as [L1 L2]. pose proof S as [S1 S2 S3 S4 S5 (tr & fin & A)].
  constructor; try done; [by rewrite L1|by apply L2|].
  destruct (decide (queue node worker s = [])) as [E|E].
  { rewrite E in P. apply Permutation_nil in P as [-> ->]%app_nil. rewrite out_of_range_set by done. by exists tr, fin. }
  destruct (entries_split node worker s (queue_in_range _ _ _ E)) as (rest & H1 & H2).
  rewrite P in H1. pose proof (ac_entries _ _ _ _ _ _ A) as HE. rewrite HE, <- app_assoc in H1.
  destruct (tracked_split _ _ _ H1) as (t1 & t23 & P1 & <- & E23).
  apply map_eq_app in E23 as (t2 & t3 & -> & <- & <-). exists (t1 ++ t3), (t2 ++ fin).
  eapply (accounts_move s); [| | |done|exact A].
  - rewrite P1. solve_Permutation.
  - rewrite H2, map_app. done.
  - apply Forall_app. split; [by rewrite Forall_map in Hg|apply A].
Qed.

Lemma scan_filter ok q : forall idx best,
  fst (scan c ok idx best q) = filter (fun p => chunkBytesForTransfer c p <> 0) q.
Proof.
  induction q as [|p q IH]; intros idx best; [done|]. cbn [scan]. rewrite filter_cons.
  destruct (Z.eqb_spec (chunkBytesForTransfer c p) 0) as [E|E].
  - rewrite decide_False by tauto. apply IH.
  - rewrite decide_True by done. cbv zeta. specialize (IH (idx + 1) (if ok p then
      match best with Some (bestKey, _) => if requestPriorityKey p <? bestKey then Some (requestPriorityKey p, idx) else best
      | None => Some (requestPriorityKey p, idx) end else best)).
    destruct (scan c ok (idx + 1) _ q) as [q' r]. cbn [fst] in *. by f_equal.
Qed.

Lemma entry_typed s acc dn log p :
  sound s acc dn log -> p ∈ entries s -> is_u32 (bytes p) /\ 0 <= issuedBytes p <= bytes p /\ 0 <= workerSlot p < workerCount.
Proof.
  intros S Hp. pose proof S as [_ _ _ _ _ (tr & fin & A)]. rewrite (ac_entries _ _ _ _ _ _ A) in Hp.
  apply list_elem_of_fmap in Hp as (x & -> & Hx).
  destruct (typed_entry _ _ _ _ _ _ x S A ltac:(apply elem_of_app; by left)) as (H1 & H2 & H3).
  by destruct (cut_spec _ _ H3 H1) as [? _].
Qed.
Lemma queue_entries node worker s p : p ∈ queue node worker s -> p ∈ entries s.
Proof.
  intros Hp. assert (queue node worker s <> []) as Hq by (intros E; rewrite E in Hp; by apply elem_of_nil in Hp).
  destruct (entries_split _ _ _ (queue_in_range _ _ _ Hq)) as (rest & H & _). rewrite H. apply elem_of_app. by left.
Qed.

Lemma scan_sound ok node worker s acc dn log idx best :
  sound s acc dn log ->
  sound (set_queue node worker (fst (scan c ok idx best (queue node worker s))) s) acc dn log.
Proof.
  intros S. rewrite scan_filter.
  apply (panel_retire_sound _ _ _ (filter (fun p => ~ (chunkBytesForTransfer c p <> 0)) (queue node worker s))); [done| |].
  - by rewrite filter_app_complement.
  - apply Forall_forall. intros p [H1 H2]%list_elem_of_filter. apply queue_entries in H2.
    destruct (entry_typed _ _ _ _ p S H2) as (? & ? & ?). apply chunk_zero; [done|lia|]. lia.
Qed.

(** ** A chunk is issued *)

Hypothesis cap_u32 : is_u32 (workerCreditCap_ c).

Definition grown (p : PendingTransfer) : PendingTransfer :=
  p <| issuedBytes := issuedBytes p ⊞₃₂ chunkBytesForTransfer c p |>.

Lemma grown_started w p l : has_started w (grown p, l ++ [(issuedBytes p, chunkBytesForTransfer c p)]) = (workerSlot p =? w).
Proof.
  unfold has_started. cbn [fst snd]. change (workerSlot (grown p)) with (workerSlot p).
  destruct (l ++ _) eqn:E; [by apply app_nil in E as [_ ?]|]. by rewrite andb_true_r.
Qed.

(** One more chunk of a panel [x]. *)
Lemma advance_accounts s s' acc dn log r tr fin x t' tr' fin' :
  accounts s acc dn log tr fin -> tr ≡ₚ x :: t' ->
  chunkBytesForTransfer c (fst x) <> 0 ->
  asked r = part (fst x) (issuedBytes (fst x), chunkBytesForTransfer c (fst x)) ->
  tr' ++ fin' ≡ₚ (grown (fst x), snd x ++ [(issuedBytes (fst x), chunkBytesForTransfer c (fst x))]) :: t' ++ fin ->
  entries s' ≡ₚ map fst tr' -> Forall (fun x => bytes (fst x) <= issuedBytes (fst x)) fin' ->
  (forall w, 0 <= w < workerCount ->
     (workerCredits_ s').[w] + (if (workerSlot (fst x) =? w) && negb (has_started w x) then 1 else 0) <= (workerCredits_ s).[w]) ->
  accounts s' acc dn (log ++ [r]) tr' fin'.
Proof.
  destruct x as [p l]. cbn [fst snd]. set (n := chunkBytesForTransfer c p). intros A Px Hn Hr P He Hf Hc.
  assert (tr ++ fin ≡ₚ (p, l) :: t' ++ fin) as P0 by by rewrite Px.
  constructor; [done| |done| | |].
  - rewrite P. pose proof (ac_cut _ _ _ _ _ _ A) as C. rewrite P0 in C. inversion C; subst.
    constructor; [|done]. by apply cut_next.
  - rewrite P. rewrite (ac_acc _ _ _ _ _ _ A), P0. done.
  - rewrite P, map_app, (ac_log _ _ _ _ _ _ A), P0. cbn [map concat]. rewrite Hr.
    change (parts (p, l)) with (map (part p) l).
    change (parts (grown p, l ++ [(issuedBytes p, n)])) with (map (part p) (l ++ [(issuedBytes p, n)])).
    rewrite (map_app (part p)). cbn [map]. rewrite <- !app_assoc. apply Permutation_app_head, Permutation_app_comm.
  - intros w Hw. rewrite (started_perm w _ _ P), started_cons. unfold n. rewrite grown_started.
    pose proof (ac_credit _ _ _ _ _ _ A w Hw) as H. rewrite (started_perm w _ _ P0), started_cons in H.
    specialize (Hc w Hw). unfold has_started in *. cbn [fst snd] in *.
    destruct (workerSlot p =? w); cbn in *; [|lia]. destruct l; cbn in *; lia.
Qed.

Lemma issue_entries node worker i p q s :
  queue node worker s = q -> q !! i = Some p ->
  exists rest, entries s ≡ₚ p :: delete i q ++ rest /\ forall q', entries (set_queue node worker q' s) ≡ₚ q' ++ rest.
Proof.
  intros Hq Hi. destruct (entries_split node worker s) as (rest & H1 & H2).
  { apply queue_in_range. rewrite Hq. by intros ->. }
  exists rest. split; [|done]. rewrite H1, Hq. rewrite (delete_Permutation q i p Hi) at 1. done.
Qed.

Lemma sound_same s s' acc dn log :
  nodeWorkerQueues_ s' = nodeWorkerQueues_ s -> workerCredits_ s' = workerCredits_ s ->
  sound s acc dn log -> sound s' acc dn log.
Proof.
  intros H1 H2 [S1 S2 S3 S4 S5 (tr & fin & A)]. constructor; rewrite ?H1, ?H2; try done.
  exists tr, fin. eapply accounts_move; [done| | |exact H2|exact A].
  - unfold entries. rewrite H1. apply A.
  - apply A.
Qed.

(** The credits after an issue. *)
Definition charged (p : PendingTransfer) (l : list Z) : list Z :=
  if issuedBytes p =? 0 then l.[workerSlot p := l.[workerSlot p] ⊟₃₂ 1] else l.

Lemma charged_spec p s acc dn log :
  sound s acc dn log -> 0 <= workerSlot p < workerCount -> issuable s p = true ->
  (forall w, 0 <= w < workerCount -> (charged p (workerCredits_ s)).[w] +
     (if (workerSlot p =? w) && (issuedBytes p =? 0) then 1 else 0) = (workerCredits_ s).[w]) /\
  Forall (fun x => 0 <= x <= workerCreditCap_ c) (charged p (workerCredits_ s)) /\
  List.length (charged p (workerCredits_ s)) = List.length (workerCredits_ s).
Proof.
  intros [_ _ S3 S4 _ _] Hw Hi. unfold charged, issuable, hasWorkerCredit in *. unfold workerCount in *.
  destruct (Z.eqb_spec (issuedBytes p) 0) as [E|E].
  2: { split_and!; [|done|done]. intros w _. rewrite andb_false_r. lia. }
  cbn [negb orb] in Hi. apply andb_prop in Hi as [_ Hi]. apply negb_true_iff in Hi. apply Z.eqb_neq in Hi.
  set (l := workerCredits_ s) in *. assert (0 <= l.[workerSlot p] <= workerCreditCap_ c) as Hr.
  { rewrite Forall_lookup in S4. apply (S4 (Z.to_nat (workerSlot p))). apply list_lookup_lookup_total_lt. lia. }
  assert (l.[workerSlot p] ⊟₃₂ 1 = l.[workerSlot p] - 1) as -> by (apply u32_small; unfold is_u32 in *; lia).
  split_and!.
  - intros w Hw'. rewrite andb_true_r. destruct (Z.eqb_spec (workerSlot p) w) as [->|Hne].
    + rewrite list_lookup_total_insert_eq by lia. lia.
    + rewrite list_lookup_total_insert_ne by lia. lia.
  - apply Forall_insert; [done|]. lia.
  - apply length_insert.
Qed.

Lemma issue_sound node worker i p q s s' r acc dn log :
  sound s acc dn log -> queue node worker s = q -> q !! i = Some p ->
  chunkBytesForTransfer c p <> 0 -> issuable s p = true ->
  asked r = part p (issuedBytes p, chunkBytesForTransfer c p) ->
  nodeWorkerQueues_ s' = nodeWorkerQueues_ (set_queue node worker
    (delete i q ++ if issuedBytes (grown p) <? bytes (grown p) then [grown p] else []) s) ->
  workerCredits_ s' = charged p (workerCredits_ s) ->
  sound s' acc dn (log ++ [r]).
Proof.
  intros S Hq Hi Hn Hok Hr HQ HC.
  assert (p ∈ entries s) as Hp by (apply (queue_entries node worker); rewrite Hq; by eapply list_elem_of_lookup_2).
  destruct (entry_typed _ _ _ _ p S Hp) as (T1 & T2 & T3).
  destruct (charged_spec p _ _ _ _ S T3 Hok) as (C1 & C2 & C3).
  destruct (issue_entries node worker i p q s Hq Hi) as (rest & E1 & E2).
  destruct (shape_set_queue node worker (delete i q ++ if issuedBytes (grown p) <? bytes (grown p) then [grown p] else []) s) as [L1 L2].
  pose proof S as [S1 S2 S3 S4 S5 (tr & fin & A)].
  constructor; rewrite ?HQ, ?HC; [by rewrite L1|by apply L2|by rewrite C3|done|done|].
  rewrite (ac_entries _ _ _ _ _ _ A) in E1. change (p :: delete i q ++ rest) with ([p] ++ (delete i q ++ rest)) in E1.
  destruct (tracked_split _ _ _ E1) as (t1 & t2 & Pt & F1 & F2). destruct t1 as [|x [|]]; inversion F1. subst p. clear F1.
  assert (typed_x : cut (fst x) (snd x)).
  { apply (typed_entry _ _ _ _ _ _ x S A). rewrite Pt. apply elem_of_app. left. by left. }
  set (y := (grown (fst x), snd x ++ [(issuedBytes (fst x), chunkBytesForTransfer c (fst x))])).
  assert (entries s' ≡ₚ (delete i q ++ if issuedBytes (grown (fst x)) <? bytes (grown (fst x)) then [grown (fst x)] else []) ++ rest) as He.
  { unfold entries. rewrite HQ. apply E2. }
  exists (if issuedBytes (grown (fst x)) <? bytes (grown (fst x)) then y :: t2 else t2),
         (if issuedBytes (grown (fst x)) <? bytes (grown (fst x)) then fin else y :: fin).
  eapply (advance_accounts s); [exact A|exact Pt|done|done| | | |].
  - destruct (_ <? _); [done|]. symmetry. apply Permutation_middle.
  - rewrite He. destruct (_ <? _); cbn [map]; [|by rewrite app_nil_r, F2]. rewrite F2. unfold y. cbn [fst]. solve_Permutation.
  - destruct (Z.ltb_spec (issuedBytes (grown (fst x))) (bytes (grown (fst x)))); [apply A|]. constructor; [done|apply A].
  - intros w Hw. rewrite HC. specialize (C1 w Hw). destruct (cut_spec _ _ typed_x T1) as (_ & _ & _ & Hz).
    unfold has_started. destruct (snd x) eqn:Es.
    + rewrite (proj1 Hz eq_refl) in C1. rewrite andb_false_r. cbn. rewrite andb_true_r in *. cbn in C1. lia.
    + destruct (workerSlot (fst x) =? w); cbn in *; destruct (issuedBytes (fst x) =? 0); lia.
Qed.

(** ** Computations of the manager

    A fatal exit needs a panel that has no endpoint or no route. *)

Hypothesis budget_u32 : is_u32 (managerIssueBudgetPerTick_ c).

Section Pass.
Variable acc : list PendingTransfer.
Variable dn : Z -> Z.
Variable e0 : Endpoints.t.
Variable k cycle0 cycle1 : Z.

Definition reachable (p : PendingTransfer) : Prop := forall o, 0 <= o < bytes p ->
  (exists ep, 0 <= ep /\ Endpoints.resolveEndpointForAddress (ends v) (dstAddr p ⊞ o) e0 = Some (ep, e0)) /\
  exists d, Routing.destination (routing v) (srcAddr p ⊞ o) = Some d.
Definition accepts : Prop := 0 <= networkId_ c /\ (forall n, link n = true) /\ Forall reachable acc.

Local Abbreviation wp := (Effects.wp (~ accepts)).

(** What holds while the manager issues; [k] is what was counted before. *)
Record Inv (log : list Request) (s : t) : Prop := {
  i_sound : sound s acc dn log;
  i_count : issuedThisCycle_ s = k + Z.of_nat (List.length log);
  i_issued : 0 <= issuedThisCycle_ s <= managerIssueBudgetPerTick_ c;
  i_tick : lastTickCycle_ s = cycle0;
  i_cycle : issueBudgetCycle_ s = cycle1;
  i_ends : accepts -> endpoints s = e0
}.

(** Nothing was issued: the queues may have lost exhausted entries. *)
Record still (log : list Request) (s : t) (log' : list Request) (s' : t) : Prop := {
  st_log : log' = log;
  st_credits : workerCredits_ s' = workerCredits_ s;
  st_queue : forall node worker p, p ∈ queue node worker s' -> p ∈ queue node worker s
}.
Lemma still_refl log s : still log s log s.
Proof. by constructor. Qed.
Lemma still_trans log s log1 s1 log2 s2 : still log s log1 s1 -> still log1 s1 log2 s2 -> still log s log2 s2.
Proof. intros [-> A1 A2] [-> B1 B2]. constructor; [done|congruence|eauto]. Qed.
Lemma still_issuable log s log' s' p : still log s log' s' -> issuable s' p = issuable s p.
Proof. intros [_ H _]. unfold issuable, hasWorkerCredit. by rewrite H. Qed.

Definition same (s s' : t) : Prop :=
  nodeWorkerQueues_ s' = nodeWorkerQueues_ s /\ workerCredits_ s' = workerCredits_ s /\
  issuedThisCycle_ s' = issuedThisCycle_ s /\ lastTickCycle_ s' = lastTickCycle_ s /\
  issueBudgetCycle_ s' = issueBudgetCycle_ s /\ (accepts -> endpoints s = e0 -> endpoints s' = e0).
Lemma same_Inv log s s' : same s s' -> Inv log s -> Inv log s'.
Proof.
  intros (H1 & H2 & H3 & H4 & H5 & H6) []. constructor; rewrite ?H3, ?H4, ?H5; try done; [|by auto].
  by eapply sound_same.
Qed.
Lemma same_still log s s' : same s s' -> still log s log s'.
Proof. intros (H1 & H2 & _). constructor; [done|done|]. intros node worker p. unfold queue. by rewrite H1. Qed.

Lemma base_acc log s p : Inv log s -> p ∈ entries s -> base p ∈ acc.
Proof.
  intros [[_ _ _ _ _ (tr & fin & A)] _ _ _ _ _] Hp. rewrite (ac_acc _ _ _ _ _ _ A).
  rewrite (ac_entries _ _ _ _ _ _ A) in Hp. apply list_elem_of_fmap in Hp as (x & -> & Hx).
  apply list_elem_of_fmap. exists x. split; [done|]. apply elem_of_app. by left.
Qed.

Lemma issueTransfer_spec p log s :
  Inv log s -> p ∈ entries s -> chunkBytesForTransfer c p <> 0 ->
  wp (issueTransfer c v link (chunk_of p (chunkBytesForTransfer c p)))
    (fun sent log' s' => same s s' /\
       if sent then exists r, log' = log ++ [r] /\ asked r = part p (issuedBytes p, chunkBytesForTransfer c p)
       else log' = log /\ ~ accepts) log s.
Proof.
  intros I Hp Hn. destruct (entry_typed _ _ _ _ p (i_sound _ _ I) Hp) as (T1 & T2 & T3).
  destruct (chunk_range p T1 ltac:(lia) Hn) as (N1 & _).
  assert (accepts -> 0 <= networkId_ c /\ (forall n, link n = true) /\
    (exists ep, 0 <= ep /\ Endpoints.resolveEndpointForAddress (ends v) (dstAddr p ⊞ issuedBytes p) e0 = Some (ep, e0)) /\
    exists d, Routing.destination (routing v) (srcAddr p ⊞ issuedBytes p) = Some d) as Hacc.
  { intros (A1 & A2 & A3). rewrite Forall_forall in A3. split_and!; [done|done| |];
    apply (A3 _ (base_acc _ _ _ I Hp) (issuedBytes p)); cbn; lia. }
  unfold wp, issueTransfer, bind, update, link_send, ret, fatal.
  set (ch := chunk_of p (chunkBytesForTransfer c p)).
  change (dstAddr ch) with (dstAddr p ⊞ issuedBytes p). change (srcAddr ch) with (srcAddr p ⊞ issuedBytes p).
  destruct (Z.ltb_spec (networkId_ c) 0) as [Hneg|_].
  { rewrite app_nil_r. split; [by unfold same; split_and!|]. split; [done|]. intros A. apply Hacc in A. lia. }
  destruct (Endpoints.resolveEndpointForAddress _ _ (endpoints s)) as [[ep e]|] eqn:Er.
  2: { intros A. pose proof (i_ends _ _ I A) as E. apply Hacc in A as (_ & _ & (ep & _ & A) & _). rewrite E in Er. congruence. }
  assert (accepts -> e = e0 /\ 0 <= ep) as He.
  { intros A. pose proof (i_ends _ _ I A) as E. apply Hacc in A as (_ & _ & (ep' & H1 & A) & _). rewrite E in Er.
    rewrite A in Er. by inversion Er; subst. }
  destruct (Z.ltb_spec ep 0) as [Hep|_].
  { rewrite app_nil_r. split; [|split; [done|]]; [|intros A; apply He in A as [_ ?]; lia].
    unfold same. split_and!; try done. by intros [-> _]%He _. }
  destruct (Routing.destination _ _) as [d|] eqn:Ed.
  2: { intros A. apply Hacc in A as (_ & _ & _ & (d & A)). congruence. }
  cbn [attempts]. set (b := link _). split.
  { unfold same. split_and!; try done. by intros [-> _]%He _. }
  destruct b eqn:Eb; [by eexists|]. rewrite app_nil_r. split; [done|]. intros A. apply Hacc in A as (_ & A & _).
  unfold b in Eb. by rewrite A in Eb.
Qed.

(** ** One issue *)

(** A chunk was issued, or nothing was, and then [dead] tells why. *)
Definition went (issued : bool) (dead : t -> Prop) (log : list Request) (s : t) (log' : list Request) (s' : t) : Prop :=
  Inv log' s' /\
  if issued then (List.length log < List.length log')%nat else still log s log' s' /\ (accepts -> dead s').
Definition some {A} (o : option A) : bool := match o with Some _ => true | None => false end.
Definition room (s : t) : Prop := issuedThisCycle_ s < managerIssueBudgetPerTick_ c.

Lemma queue_set_elem node worker q s n w p :
  (forall p, p ∈ q -> p ∈ queue node worker s) -> p ∈ queue n w (set_queue node worker q s) -> p ∈ queue n w s.
Proof.
  intros Hq. unfold queue, set_queue in *. set (qs := nodeWorkerQueues_ s) in *.
  change (nodeWorkerQueues_ (s <| nodeWorkerQueues_ := ?x |>)) with x.
  destruct (decide (Z.to_nat n = Z.to_nat node)) as [E|E].
  2: { by rewrite list_lookup_total_insert_ne by done. }
  destruct (decide (Z.to_nat node < List.length qs)%nat) as [Hl|Hl].
  2: { rewrite list_insert_ge by lia. done. }
  rewrite E, list_lookup_total_insert_eq by done.
  destruct (decide (Z.to_nat w = Z.to_nat worker)) as [Ew|Ew].
  2: { by rewrite list_lookup_total_insert_ne by done. }
  destruct (decide (Z.to_nat worker < List.length (qs.[node]))%nat) as [Hw|Hw].
  2: { rewrite list_insert_ge by lia. done. }
  rewrite Ew, list_lookup_total_insert_eq by done. apply Hq.
Qed.
Lemma queue_set_self node worker q s :
  (forall p, p ∈ q -> p ∈ queue node worker s) -> queue node worker (set_queue node worker q s) = q.
Proof.
  intros Hq. destruct (decide (queue node worker s = [])) as [E|E].
  { destruct q as [|p q]; [by rewrite out_of_range_set|]. specialize (Hq p ltac:(by left)). rewrite E in Hq. by apply elem_of_nil in Hq. }
  destruct (queue_in_range _ _ _ E) as [H1 H2]. unfold queue, set_queue.
  change (nodeWorkerQueues_ (s <| nodeWorkerQueues_ := ?x |>)) with x.
  rewrite list_lookup_total_insert_eq by done. by rewrite list_lookup_total_insert_eq.
Qed.

(** Entries without bytes to issue leave a queue. *)
Lemma retire_Inv node worker q gone log s :
  Inv log s -> queue node worker s ≡ₚ q ++ gone -> Forall (fun p => bytes p <= issuedBytes p) gone ->
  Inv log (set_queue node worker q s) /\ still log s log (set_queue node worker q s) /\
  queue node worker (set_queue node worker q s) = q.
Proof.
  intros I P Hg. assert (forall p, p ∈ q -> p ∈ queue node worker s) as Hsub.
  { intros p Hp. rewrite P. apply elem_of_app. by left. }
  split_and!.
  - destruct I. constructor; try done. by eapply panel_retire_sound.
  - constructor; [done|done|]. intros n w p. by apply queue_set_elem.
  - by apply queue_set_self.
Qed.

(** The state after an issue. *)
Lemma spend_Inv node worker idx p q log s s' r :
  Inv log s -> room s -> same s s' -> queue node worker s = q -> q !! Z.to_nat idx = Some p ->
  chunkBytesForTransfer c p <> 0 -> issuable s p = true ->
  asked r = part p (issuedBytes p, chunkBytesForTransfer c p) ->
  Inv (log ++ [r]) (spendIssued (grown p) (issuedBytes p =? 0) (set_queue node worker
    (delete (Z.to_nat idx) q ++ if issuedBytes (grown p) <? bytes (grown p) then [grown p] else []) s')).
Proof.
  intros I Hroom (Q1 & Q2 & Q3 & Q4 & Q5 & Q6) Hq Hi Hn Hok Hr.
  set (s2 := spendIssued _ _ _).
  assert (issuedThisCycle_ s2 = issuedThisCycle_ s + 1) as Hc.
  { assert (issuedThisCycle_ s2 = issuedThisCycle_ s' ⊞₃₂ 1) as -> by (unfold s2, spendIssued; by destruct (issuedBytes p =? 0)).
    rewrite Q3. apply u32_small. pose proof (i_issued _ _ I). unfold room, is_u32 in *. lia. }
  constructor; rewrite ?Hc.
  - apply (issue_sound node worker (Z.to_nat idx) p q s s2 r); try done; [apply I| |].
    + unfold s2, spendIssued, set_queue. destruct (issuedBytes p =? 0); cbn; by rewrite Q1.
    + unfold s2, spendIssued, charged, set_queue. destruct (issuedBytes p =? 0); cbn; by rewrite Q2.
  - rewrite (i_count _ _ I), length_app. cbn. lia.
  - pose proof (i_issued _ _ I). unfold room in Hroom. lia.
  - etrans; [|apply (i_tick _ _ I)]. rewrite <- Q4. unfold s2, spendIssued. by destruct (issuedBytes p =? 0).
  - etrans; [|apply (i_cycle _ _ I)]. rewrite <- Q5. unfold s2, spendIssued. by destruct (issuedBytes p =? 0).
  - intros A. rewrite <- (Q6 A (i_ends _ _ I A)). unfold s2, spendIssued. by destruct (issuedBytes p =? 0).
Qed.

Lemma issueQueueEntry_spec node worker idx log s :
  Inv log s -> room s ->
  wp (issueQueueEntry c v link node worker idx)
    (fun a => went (some a) (fun _ => forall p, queue node worker s !! Z.to_nat idx = Some p ->
       chunkBytesForTransfer c p <> 0 -> issuable s p = false) log s) log s.
Proof.
  intros I Hroom. unfold wp, issueQueueEntry. set (q := queue node worker s).
  assert (forall p, (accepts -> issuable s p = false) -> q !! Z.to_nat idx = Some p ->
    went false (fun _ => forall p, q !! Z.to_nat idx = Some p -> chunkBytesForTransfer c p <> 0 -> issuable s p = false) log s log s) as Hno.
  { intros p Hp Hi. split; [done|]. split; [apply still_refl|]. intros A p' Hi' _. rewrite Hi in Hi'. inversion Hi'; subst. by apply Hp. }
  destruct (q !! Z.to_nat idx) as [p|] eqn:Hi.
  2: { unfold ret. rewrite app_nil_r. split; [done|]. split; [apply still_refl|done]. }
  assert (p ∈ entries s) as Hp by (apply (queue_entries node worker); by eapply list_elem_of_lookup_2).
  destruct (entry_typed _ _ _ _ p (i_sound _ _ I) Hp) as (T1 & T2 & T3).
  destruct (Z.eqb_spec (chunkBytesForTransfer c p) 0) as [E|E].
  { apply (wp_bind _ _ _ (fun a => went (some a) _ log s)). apply wp_update, wp_ret.
    destruct (retire_Inv node worker (delete (Z.to_nat idx) q) [p] log s I) as (H1 & H2 & H3).
    - rewrite Permutation_app_comm. by apply delete_Permutation.
    - constructor; [|done]. apply chunk_zero; [done|lia|done].
    - split; [done|]. split; [done|]. intros _ p' Hi'. by inversion Hi'; subst. }
  destruct ((issuedBytes p =? 0) && negb (hasWorkerCredit s p)) eqn:Ec.
  { unfold ret. rewrite app_nil_r. apply (Hno p); [|done]. intros _. unfold issuable.
    apply andb_prop in Ec as [-> ->%negb_true_iff]. done. }
  assert (issuable s p = true) as Hok.
  { unfold issuable. destruct (issuedBytes p =? 0); [|done]. cbn in *. by apply negb_false_iff in Ec. }
  apply (wp_bind _ _ _ (fun a => went (some a) _ log s)). eapply wp_mono; [by apply issueTransfer_spec|].
  intros sent log' s' [Hs Hsent]. destruct sent; cbn [negb].
  2: { destruct Hsent as [-> HA]. apply wp_ret. split; [by eapply same_Inv|]. split; [by apply same_still|done]. }
  destruct Hsent as (r & -> & Hr). apply wp_bind, wp_update, wp_bind, wp_update, wp_ret.
  change (p <| issuedBytes := _ |>) with (grown p).
  split; [|rewrite length_app; cbn; lia]. by apply (spend_Inv node worker idx p q log s s').
Qed.

Lemma scan_spec ok q : forall idx best q' r,
  scan c ok idx best q = (q', r) ->
  match r with
  | None => best = None /\ forall p, p ∈ q' -> ok p = false
  | Some i => (exists key, best = Some (key, i)) \/
      exists p, idx <= i /\ q' !! Z.to_nat (i - idx) = Some p /\ ok p = true
  end.
Proof.
  induction q as [|p q IH]; intros idx best q' r H; cbn [scan] in H.
  - inversion H; subst. destruct best as [[key i]|]; cbn; [left; by exists key|]. split; [done|]. intros p Hp. by apply elem_of_nil in Hp.
  - destruct (_ =? 0); [by apply IH|].
    destruct (scan c ok (idx + 1) _ q) as [q1 r1] eqn:E. inversion H; subst. apply IH in E.
    destruct r as [i|].
    + destruct E as [[key E]|(p' & H1 & H2 & H3)].
      * destruct (ok p) eqn:Eo; [|left; by exists key].
        assert ((exists key, best = Some (key, i)) \/ i = idx) as [?| ->]; [|by left|].
        { destruct best as [[key' i']|]; [|right; congruence].
          destruct (_ <? _); [right; congruence|]. left. exists key. congruence. }
        right. exists p. split; [lia|]. by rewrite Z.sub_diag.
      * right. exists p'. split; [lia|]. split; [|done].
        replace (Z.to_nat (i - idx)) with (S (Z.to_nat (i - (idx + 1)))) by lia. done.
    + destruct E as [E1 E2]. destruct (ok p) eqn:Eo.
      { destruct best as [[key' i']|]; [by destruct (_ <? _)|done]. }
      split; [done|]. intros p' [->|Hp]%elem_of_cons; [done|by apply E2].
Qed.

(** No panel of a queue passes [ok]. *)
Definition none (ok : t -> PendingTransfer -> bool) (node worker : Z) (s : t) : Prop :=
  forall p, p ∈ queue node worker s -> ok s p = false.

(** [ok] looks at the credits only and asks for an issuable panel. *)
Record choice (ok : t -> PendingTransfer -> bool) : Prop := {
  ch_issuable : forall s p, ok s p = true -> issuable s p = true;
  ch_credits : forall s s' p, workerCredits_ s' = workerCredits_ s -> ok s' p = ok s p
}.
Lemma issuable_choice : choice issuable.
Proof. constructor; [done|]. intros s s' p H. unfold issuable, hasWorkerCredit. by rewrite H. Qed.
Lemma wanted_choice slot bundle : choice (wanted slot bundle).
Proof.
  constructor.
  - intros s p H. unfold wanted in H. by apply andb_prop in H as [_ ?].
  - intros s s' p H. unfold wanted. by rewrite (ch_credits _ issuable_choice s s' p H).
Qed.
Lemma none_still ok node worker log s log' s' :
  choice ok -> still log s log' s' -> none ok node worker s -> none ok node worker s'.
Proof. intros C [_ H1 H2] H p Hp. rewrite (ch_credits _ C s s' p H1). auto. Qed.

(** Nothing issued in two steps. *)
Lemma went_still b dead log s log1 s1 log2 s2 :
  still log s log1 s1 -> went b dead log1 s1 log2 s2 -> went b dead log s log2 s2.
Proof.
  intros S [I H]. split; [done|]. destruct b.
  - by rewrite (st_log _ _ _ _ S) in H.
  - destruct H as [H1 H2]. split; [by eapply still_trans|done].
Qed.
Lemma went_dead b (dead dead' : t -> Prop) log s log' s' :
  (Inv log' s' -> still log s log' s' -> dead s' -> dead' s') -> went b dead log s log' s' -> went b dead' log s log' s'.
Proof. intros H [I W]. split; [done|]. destruct b; [done|]. destruct W as [W1 W2]. split; [done|]. intros A. eauto. Qed.

(** The best panel of a queue is issued, if there is one. *)
Lemma choose_spec ok node worker log s :
  choice ok -> Inv log s -> room s ->
  let '(q, chosen) := scan c (ok s) 0 None (queue node worker s) in
  wp (match chosen with None => ret None | Some idx => issueQueueEntry c v link node worker idx end)
    (fun a => went (some a) (none ok node worker) log s) log (set_queue node worker q s).
Proof.
  intros C I Hroom. destruct (scan _ _ _ _ _) as [q chosen] eqn:E.
  assert (q = filter (fun p => chunkBytesForTransfer c p <> 0) (queue node worker s)) as Hq by by rewrite <- (scan_filter (ok s) _ 0 None), E.
  destruct (retire_Inv node worker q (filter (fun p => ~ (chunkBytesForTransfer c p <> 0)) (queue node worker s)) log s I) as (H1 & H2 & H3).
  { by rewrite Hq, filter_app_complement. }
  { apply Forall_forall. intros p [F1 F2]%list_elem_of_filter. apply queue_entries in F2.
    destruct (entry_typed _ _ _ _ p (i_sound _ _ I) F2) as (? & ? & ?). apply chunk_zero; [done|lia|]. lia. }
  apply scan_spec in E. destruct chosen as [i|].
  - destruct E as [[key ?]|(p & Hi & Hp & Hok)]; [done|]. rewrite Z.sub_0_r in Hp.
    eapply wp_mono; [apply issueQueueEntry_spec; [done|exact Hroom]|]. intros a log' s' W.
    eapply went_still; [exact H2|]. eapply went_dead; [|exact W]. intros _ _ Hd. exfalso.
    rewrite H3 in Hd. specialize (Hd p Hp).
    assert (chunkBytesForTransfer c p <> 0) as Hn.
    { apply list_elem_of_lookup_2 in Hp. rewrite Hq in Hp. by apply list_elem_of_filter in Hp as [? _]. }
    specialize (Hd Hn). apply (ch_issuable _ C) in Hok.
    rewrite (still_issuable _ _ _ _ _ H2) in Hd. congruence.
  - apply wp_ret. split; [done|]. split; [done|]. intros _ p Hp. rewrite H3 in Hp. destruct E as [_ E]. specialize (E p Hp).
    by rewrite (ch_credits _ C s _ p (st_credits _ _ _ _ H2)).
Qed.

(** ** Turns and rounds *)

(** A further attempt whose outcome does not matter. *)
Definition further (log : list Request) (log' : list Request) (s' : t) : Prop :=
  Inv log' s' /\ (List.length log <= List.length log')%nat.
Lemma went_further b dead log s log' s' : went b dead log s log' s' -> further log log' s'.
Proof. intros [I W]. split; [done|]. destruct b; [lia|]. destruct W as [W _]. by rewrite (st_log _ _ _ _ W). Qed.
Lemma went_on b dead log0 s0 log1 s1 log2 s2 :
  went true dead log0 s0 log1 s1 -> further log1 log2 s2 -> went true b log0 s0 log2 s2.
Proof. intros [_ W] [I H]. split; [done|]. lia. Qed.

Lemma sibling_spec node worker panel log s :
  Inv log s -> wp (tryIssuePrioritySibling c v link node worker panel) (fun _ => further log) log s.
Proof.
  intros I. assert (further log log s) as F by by split. unfold tryIssuePrioritySibling. wp_state.
  destruct (hasIssueBudget c s) eqn:Hr; cbn [negb orb]; [|by wp_fold; apply wp_ret].
  destruct (_ && _); [by wp_fold; apply wp_ret|]. destruct (find_best _ _ _ _) as [i|]; wp_fold; [|by apply wp_ret].
  apply wp_bind. eapply wp_mono; [apply issueQueueEntry_spec; [done|by apply Z.ltb_lt]|].
  intros a log' s' W. apply wp_ret. exact (went_further _ _ _ _ _ _ W).
Qed.

Lemma tryIssueFromQueue_spec node worker log s :
  Inv log s -> room s ->
  wp (tryIssueFromQueue c v link node worker) (fun b => went b (none issuable node worker) log s) log s.
Proof.
  intros I Hr. unfold tryIssueFromQueue. pose proof (choose_spec issuable node worker log s issuable_choice I Hr) as H.
  wp_state. destruct (scan _ _ _ _ _) as [q [i|]]; wp_fold.
  - apply wp_bind, wp_update, wp_bind. eapply wp_mono; [exact H|]. intros [p|] log' s' W; [|by apply wp_ret].
    apply wp_bind. eapply (wp_mono _ _ (fun _ => further log')).
    + destruct (negb _); [apply sibling_spec, W|]. apply wp_ret. split; [apply W|lia].
    + intros _ log2 s2 F. apply wp_ret. by eapply went_on.
  - apply wp_bind, wp_update, wp_ret. unfold wp, ret in H. by rewrite app_nil_r in H.
Qed.

(** An attempt after one that issued nothing. *)
Definition stable (dead : t -> Prop) : Prop := forall log s log' s', still log s log' s' -> dead s -> dead s'.
Lemma none_stable ok node worker : choice ok -> stable (none ok node worker).
Proof. intros C log s log' s'. by apply none_still. Qed.

Lemma room_still log s log' s' : Inv log s -> Inv log' s' -> still log s log' s' -> room s -> room s'.
Proof. intros I I' S. unfold room. by rewrite (i_count _ _ I'), (st_log _ _ _ _ S), <- (i_count _ _ I). Qed.

Lemma wp_next {A} (m : M A) (f : A -> bool) (dead1 dead2 dead : t -> Prop) log s log1 s1 :
  Inv log s -> room s -> went false dead1 log s log1 s1 -> stable dead1 ->
  (Inv log1 s1 -> room s1 -> wp m (fun a => went (f a) dead2 log1 s1) log1 s1) ->
  (forall s, dead1 s -> dead2 s -> dead s) ->
  wp m (fun a => went (f a) dead log s) log1 s1.
Proof.
  intros I Hr [I1 [W1 W2]] Hs Hm Hd. eapply wp_mono; [apply Hm; [done|exact (room_still _ _ _ _ I I1 W1 Hr)]|].
  intros a log2 s2 W. eapply went_still; [exact W1|]. destruct W as [I2 W]. split; [done|]. destruct (f a); [done|].
  destruct W as [W3 W4]. split; [done|]. intros Ha. apply Hd; [|by apply W4]. eapply Hs; [exact W3|by apply W2].
Qed.

Lemma went_nothing (dead : t -> Prop) log s : Inv log s -> dead s -> went false dead log s log s.
Proof. intros I D. split; [done|]. split; [apply still_refl|done]. Qed.

Lemma went_cursor b dead log s log' s' s'' :
  same s' s'' -> went true dead log s log' s' -> went true b log s log' s''.
Proof. intros H [I W]. split; [by eapply same_Inv|done]. Qed.

Lemma node_workers_spec node workers : forall log s, Inv log s -> room s ->
  wp (node_workers c v link node workers)
    (fun b => went b (fun s' => forall w, w ∈ workers -> none issuable node w s') log s) log s.
Proof.
  induction workers as [|w workers IH]; intros log s I Hr; cbn [node_workers].
  { apply wp_ret, went_nothing; [done|]. intros w Hw. by apply elem_of_nil in Hw. }
  assert (forall log1 s1, went false (none issuable node w) log s log1 s1 ->
    wp (node_workers c v link node workers)
      (fun b => went b (fun s' => forall w', w' ∈ w :: workers -> none issuable node w' s') log s) log1 s1) as Hnext.
  { intros log1 s1 W. eapply (wp_next _ (fun b => b)); [done|done|exact W|apply none_stable, issuable_choice|apply IH|].
    intros s2 H1 H2 w' [->|Hw]%elem_of_cons; [done|by apply H2]. }
  wp_state. destruct (queue node w s) as [|p q] eqn:E; wp_fold.
  { apply Hnext, went_nothing; [done|]. intros p Hp. rewrite E in Hp. by apply elem_of_nil in Hp. }
  apply wp_bind. eapply wp_mono; [by apply tryIssueFromQueue_spec|]. intros [|] log1 s1 W; [|by apply Hnext].
  apply wp_bind, wp_update, wp_ret. eapply went_cursor; [|exact W]. by unfold same; split_and!.
Qed.

Lemma cyclic_elem start n i : 0 < n -> 0 <= i < n -> i ∈ cyclic start n.
Proof.
  intros Hn Hi. unfold cyclic. apply list_elem_of_fmap. exists ((i - start) mod n). split.
  - rewrite Z.add_mod_idemp_r by lia. replace (start + (i - start)) with i by lia. by rewrite Z.mod_small.
  - apply elem_of_seqZ. pose proof (Z.mod_pos_bound (i - start) n Hn). lia.
Qed.

(** No panel of these queues passes [ok]. *)
Definition none_of (ok : t -> PendingTransfer -> bool) (nodes workers : list Z) (s : t) : Prop :=
  forall n w, n ∈ nodes -> w ∈ workers -> none ok n w s.
Lemma none_of_stable ok nodes workers : choice ok -> stable (none_of ok nodes workers).
Proof. intros C log s log' s' S H n w Hn Hw. eapply none_stable; [done|exact S|by apply H]. Qed.
Lemma none_of_cons ok n nodes workers s :
  (forall w, w ∈ workers -> none ok n w s) -> none_of ok nodes workers s -> none_of ok (n :: nodes) workers s.
Proof. intros H1 H2 n' w [->|Hn]%elem_of_cons Hw; [by apply H1|by apply H2]. Qed.

Lemma first_node_spec nodes : forall log s, Inv log s -> room s ->
  wp (first_node c v link nodes) (fun b => went b (none_of issuable nodes (seqZ 0 workerCount)) log s) log s.
Proof.
  induction nodes as [|n nodes IH]; intros log s I Hr; cbn [first_node].
  { apply wp_ret, went_nothing; [done|]. intros n w Hn. by apply elem_of_nil in Hn. }
  wp_state. wp_fold. apply wp_bind. eapply wp_mono; [by apply node_workers_spec|]. intros [|] log1 s1 W; [by apply wp_ret|].
  eapply (wp_next _ (fun b => b)); [done|done|exact W| |apply IH|].
  - intros ???? S H w Hw. eapply none_stable; [apply issuable_choice|exact S|by apply H].
  - intros s2 H1 H2. apply none_of_cons; [|done]. intros w Hw%elem_of_seqZ. apply H1, cyclic_elem; unfold workerCount in *; lia.
Qed.

(** The turns of the round robin over the workers. *)

Lemma slot_nodes_spec worker slot bundle nodes : forall log s, Inv log s -> room s ->
  wp (slot_nodes c v link worker slot bundle nodes)
    (fun a => went (some a) (none_of (wanted slot bundle) nodes [worker]) log s) log s.
Proof.
  pose proof (wanted_choice slot bundle) as C.
  induction nodes as [|n nodes IH]; intros log s I Hr; cbn [slot_nodes].
  { apply wp_ret, (went_nothing _ log s); [done|]. intros n w Hn. by apply elem_of_nil in Hn. }
  pose proof (choose_spec _ n worker log s C I Hr) as H. wp_state.
  destruct (scan _ _ _ _ _) as [q chosen]; wp_fold.
  apply wp_bind, wp_update, wp_bind. eapply wp_mono; [exact H|]. intros [p|] log1 s1 W.
  - apply wp_bind, wp_update, wp_ret. eapply went_cursor; [|exact W]. by unfold same; split_and!.
  - eapply wp_next; [done|done|exact W|by apply none_stable|apply IH|].
    intros s2 H1 H2. apply none_of_cons; [|done]. by intros w ->%list_elem_of_singleton.
Qed.

Definition all_nodes : list Z := seqZ 0 (numMemoryNodes_ c).
Definition all_workers : list Z := seqZ 0 workerCount.

Lemma nodeCount_eq log s : Inv log s -> nodeCount s = Z.max 0 (numMemoryNodes_ c).
Proof. intros I. unfold nodeCount. rewrite (so_nodes _ _ _ _ (i_sound _ _ I)). lia. Qed.
Lemma all_cyclic start n log s : Inv log s -> n ∈ all_nodes -> n ∈ cyclic start (nodeCount s).
Proof. intros I Hn%elem_of_seqZ. apply cyclic_elem; rewrite (nodeCount_eq _ _ I); lia. Qed.

Lemma slot_spec worker slot bundle log s : Inv log s -> room s ->
  wp (tryIssueSlotFromWorker c v link worker slot bundle)
    (fun a => went (some a) (none_of (wanted slot bundle) all_nodes [worker]) log s) log s.
Proof.
  intros I Hr. unfold tryIssueSlotFromWorker. wp_state. wp_fold. eapply wp_mono; [by apply slot_nodes_spec|].
  intros a log' s' W. eapply went_dead; [|exact W]. intros _ _ H n w Hn Hw. apply H; [|done]. by eapply all_cyclic.
Qed.

Lemma slot_further worker slot bundle log s : Inv log s ->
  wp (if_budget c None (tryIssueSlotFromWorker c v link worker slot bundle)) (fun _ => further log) log s.
Proof.
  intros I. unfold if_budget. wp_state. destruct (hasIssueBudget c s) eqn:Hr; wp_fold; [|by apply wp_ret].
  eapply wp_mono; [apply slot_spec; [done|by apply Z.ltb_lt]|]. intros a log' s' W. exact (went_further _ _ _ _ _ _ W).
Qed.
Lemma further_trans log log1 s1 log2 s2 : further log log1 s1 -> further log1 log2 s2 -> further log log2 s2.
Proof. intros [_ H1] [I H2]. split; [done|lia]. Qed.

Lemma quantum_spec fuel worker seq : forall log s, Inv log s ->
  wp (quantum c v link fuel worker seq) (fun _ => further log) log s.
Proof.
  induction fuel as [|fuel IH]; intros log s I; cbn [quantum]; [by apply wp_ret|].
  unfold if_budget at 1. wp_state. destruct (hasIssueBudget c s) eqn:Hr; wp_fold; [|by apply wp_ret].
  apply wp_bind. eapply wp_mono; [apply slot_spec; [done|by apply Z.ltb_lt]|]. intros a log1 s1 W%went_further.
  apply wp_bind. eapply wp_mono; [apply slot_further, W|]. intros b log2 s2 F. pose proof (further_trans _ _ _ _ _ W F) as F2.
  assert (wp (quantum c v link fuel worker seq) (fun _ => further log) log2 s2) as Hrec.
  { eapply wp_mono; [apply IH, F|]. intros ? log3 s3 F3. exact (further_trans _ _ _ _ _ F2 F3). }
  destruct a, b; [done|done|done|by apply wp_ret].
Qed.

Lemma if_budget_room {A} (d : A) (m : M A) Q log s : room s -> wp m Q log s -> wp (if_budget c d m) Q log s.
Proof.
  intros Hr H. unfold if_budget. wp_state. assert (hasIssueBudget c s = true) as -> by by apply Z.ltb_lt. by wp_fold.
Qed.

Definition idle (worker : Z) (s : t) : Prop :=
  none_of (wanted 0 None) all_nodes [worker] s /\ none_of (wanted 1 None) all_nodes [worker] s.
Lemma idle_stable worker : stable (idle worker).
Proof. intros ???? S [H1 H2]. by split; (eapply none_of_stable; [apply wanted_choice|exact S|]). Qed.

Lemma worker_turn_spec worker log s : Inv log s -> room s ->
  wp (worker_turn c v link worker) (fun b => went b (idle worker) log s) log s.
Proof.
  intros I Hr. unfold worker_turn. apply wp_bind, if_budget_room; [done|].
  eapply wp_mono; [by apply slot_spec|]. intros first log1 s1 W1. apply wp_bind.
  apply (wp_mono _ _ (fun a => went (some a) (idle worker) log s)).
  - destruct first as [p|].
    + apply wp_bind. eapply wp_mono; [apply slot_further, W1|]. intros ? log2 s2 F. apply wp_ret. by eapply went_on.
    + apply if_budget_room; [by eapply (room_still log s); [| | |]; [done|apply W1|apply W1|]|].
      eapply wp_next; [done|done|exact W1|apply none_of_stable, wanted_choice|apply slot_spec|]. by split.
  - intros [p|] log2 s2 W2; [|by apply wp_ret]. apply wp_bind. eapply wp_mono; [apply quantum_spec, W2|].
    intros ? log3 s3 F. apply wp_bind, wp_update, wp_ret. eapply went_cursor; [|exact (went_on (idle worker) _ _ _ _ _ _ _ W2 F)].
    by unfold same; split_and!.
Qed.

Lemma first_worker_spec workers : forall log s, Inv log s -> room s ->
  wp (first_worker c v link workers) (fun b => went b (fun s' => forall w, w ∈ workers -> idle w s') log s) log s.
Proof.
  induction workers as [|w workers IH]; intros log s I Hr; cbn [first_worker].
  { apply wp_ret, went_nothing; [done|]. intros w Hw. by apply elem_of_nil in Hw. }
  apply wp_bind. eapply wp_mono; [by apply worker_turn_spec|]. intros [|] log1 s1 W; [by apply wp_ret|].
  eapply (wp_next _ (fun b => b)); [done|done|exact W|apply idle_stable|apply IH|].
  intros s2 H1 H2 w' [->|Hw]%elem_of_cons; [done|by apply H2].
Qed.

(** ** Rounds *)

(** Under the round robin panels of other slots than 0 and 1 are not served. *)
Definition served (p : PendingTransfer) : Prop :=
  groupRoundRobin_ c = false \/ decodeRequestSlot (requestId p) = 0 \/ decodeRequestSlot (requestId p) = 1.
Definition exhausted (s : t) : Prop := forall p, p ∈ entries s -> served p -> issuable s p = false.

Lemma entries_queue log s p : Inv log s -> p ∈ entries s ->
  exists n w, n ∈ all_nodes /\ w ∈ all_workers /\ p ∈ queue n w s.
Proof.
  intros I Hp. pose proof (i_sound _ _ I) as S. unfold entries in Hp.
  apply list_elem_of_In, in_concat in Hp as (l & Hl & Hp). apply in_map_iff in Hl as (per & <- & Hper).
  apply in_concat in Hp as (q & Hq & Hp). apply list_elem_of_In in Hper, Hq, Hp.
  pose proof (so_workers _ _ _ _ S) as Hw. rewrite Forall_forall in Hw. specialize (Hw per Hper).
  apply list_elem_of_lookup in Hper as (n & Hn). apply list_elem_of_lookup in Hq as (w & Hq).
  pose proof (lookup_lt_Some _ _ _ Hn) as Ln. rewrite (so_nodes _ _ _ _ S) in Ln. pose proof (lookup_lt_Some _ _ _ Hq) as Lw.
  exists (Z.of_nat n), (Z.of_nat w). split_and!; [apply elem_of_seqZ; lia|apply elem_of_seqZ; lia|].
  unfold queue. rewrite !Nat2Z.id. by rewrite (list_lookup_total_correct _ _ _ Hn), (list_lookup_total_correct _ _ _ Hq).
Qed.

Lemma round_spec log s : Inv log s -> room s ->
  wp (if groupRoundRobin_ c then group_round c v link else node_round c v link) (fun b => went b exhausted log s) log s.
Proof.
  intros I Hr. destruct (groupRoundRobin_ c) eqn:E.
  - unfold group_round. wp_state. wp_fold. eapply wp_mono; [by apply first_worker_spec|]. intros b log' s' W.
    eapply went_dead; [|exact W]. intros I' _ H p Hp Hs.
    destruct (entries_queue _ _ _ I' Hp) as (n & w & Hn & Hw & Hq). apply elem_of_seqZ in Hw.
    destruct (H w) as [H0 H1]; [apply cyclic_elem; unfold workerCount in *; lia|].
    specialize (H0 n w Hn ltac:(by left) p Hq). specialize (H1 n w Hn ltac:(by left) p Hq). unfold wanted in *.
    rewrite andb_true_r in H0, H1. destruct Hs as [?|[Hs|Hs]]; [congruence|by rewrite Hs in H0|by rewrite Hs in H1].
  - unfold node_round. wp_state. wp_fold. eapply wp_mono; [by apply first_node_spec|]. intros b log' s' W.
    eapply went_dead; [|exact W]. intros I' _ H p Hp _.
    destruct (entries_queue _ _ _ I' Hp) as (n & w & Hn & Hw & Hq). apply (H n w); [|done|done].
    by eapply all_cyclic.
Qed.

(** Nothing is left to do: the budget is spent or no panel can be issued. *)
Definition finished (s : t) : Prop := issuedThisCycle_ s = managerIssueBudgetPerTick_ c \/ exhausted s.

Lemma pending_entries s : managerPendingCount s = Z.of_nat (List.length (entries s)).
Proof.
  unfold managerPendingCount, entries. f_equal. induction (nodeWorkerQueues_ s) as [|per l IH]; [done|].
  cbn [map concat sum_list_with]. rewrite length_app, <- IH. f_equal. clear IH.
  induction per as [|q per IH]; [done|]. cbn [concat sum_list_with]. by rewrite length_app, <- IH.
Qed.
Lemma none_pending s : managerPendingCount s = 0 -> exhausted s.
Proof.
  rewrite pending_entries. intros H p Hp. destruct (entries s); [by apply elem_of_nil in Hp|cbn in H; lia].
Qed.

Definition ran (log : list Request) (log' : list Request) (s' : t) : Prop :=
  further log log' s' /\ (accepts -> finished s').

Lemma rounds_spec fuel : forall log s, Inv log s -> managerIssueBudgetPerTick_ c - issuedThisCycle_ s <= Z.of_nat fuel ->
  wp (rounds c v link fuel) (fun _ => ran log) log s.
Proof.
  induction fuel as [|fuel IH]; intros log s I Hf; cbn [rounds].
  { apply wp_ret. split; [by split|]. intros _. left. pose proof (i_issued _ _ I). lia. }
  wp_state. destruct (Z.eqb_spec (managerPendingCount s) 0) as [E|_]; cbn [negb andb].
  { wp_fold. apply wp_ret. split; [by split|]. intros _. right. by apply none_pending. }
  unfold hasIssueBudget. destruct (Z.ltb_spec (issuedThisCycle_ s) (managerIssueBudgetPerTick_ c)) as [Hr|Hr]; wp_fold.
  2: { apply wp_ret. split; [by split|]. intros _. left. pose proof (i_issued _ _ I). lia. }
  apply wp_bind. eapply wp_mono; [by apply round_spec|]. intros b log1 s1 W. pose proof (went_further _ _ _ _ _ _ W) as F1.
  destruct b.
  - eapply wp_mono; [apply IH; [apply W|]|].
    + rewrite (i_count _ _ (proj1 W)), (i_count _ _ I) in *. destruct W as [_ W]. lia.
    + intros ? log2 s2 [F2 Hfin]. split; [|done]. exact (further_trans _ _ _ _ _ F1 F2).
  - apply wp_ret. split; [done|]. intros A. right. by apply W.
Qed.

End Pass.

(** ** A call of [tryIssue] *)

(** The counter of the cycle, as a call finds it. *)
Definition spent (s : t) : Z := if issueBudgetCycle_ s =? lastTickCycle_ s then issuedThisCycle_ s else 0.

Record passed (acc : list PendingTransfer) (dn : Z -> Z) (e0 : Endpoints.t)
    (log : list Request) (s : t) (log' : list Request) (s' : t) : Prop := {
  pa_sound : sound s' acc dn log';
  pa_issued : 0 <= issuedThisCycle_ s' <= managerIssueBudgetPerTick_ c;
  pa_tick : lastTickCycle_ s' = lastTickCycle_ s;
  pa_count : (s' = s /\ log' = log) \/
    (issueBudgetCycle_ s' = lastTickCycle_ s /\
     issuedThisCycle_ s' = spent s + (Z.of_nat (List.length log') - Z.of_nat (List.length log)));
  pa_finished : accepts acc e0 -> finished s'
}.

Lemma Inv_passed acc dn e0 log s log' s' :
  Inv acc dn e0 (spent s - Z.of_nat (List.length log)) (lastTickCycle_ s) (lastTickCycle_ s) log' s' ->
  (accepts acc e0 -> finished s') -> passed acc dn e0 log s log' s'.
Proof.
  intros I F. constructor; [apply I|apply I|apply I| |done]. right. split; [apply I|].
  rewrite (i_count _ _ _ _ _ _ _ _ I). lia.
Qed.

Lemma tryIssue_spec acc dn e0 log s :
  sound s acc dn log -> 0 <= issuedThisCycle_ s <= managerIssueBudgetPerTick_ c ->
  (accepts acc e0 -> endpoints s = e0) ->
  wp (~ accepts acc e0) (tryIssue c v link) (fun _ => passed acc dn e0 log s) log s.
Proof.
  intros S Hi He. unfold tryIssue, wp. destruct ((nodeCount s =? 0) || (managerPendingCount s =? 0)) eqn:E0.
  { unfold ret. rewrite app_nil_r. constructor; try done; [by left|]. intros _. right. apply none_pending.
    apply orb_prop in E0 as [E0|E0]; apply Z.eqb_eq in E0; [|done]. unfold nodeCount in E0.
    unfold managerPendingCount. destruct (nodeWorkerQueues_ s); [done|cbn in E0; lia]. }
  set (s1 := if negb _ then _ else s).
  assert (Inv acc dn e0 (spent s - Z.of_nat (List.length log)) (lastTickCycle_ s) (lastTickCycle_ s) log s1) as I.
  { unfold s1, spent. destruct (Z.eqb_spec (issueBudgetCycle_ s) (lastTickCycle_ s)) as [E|E]; cbn [negb].
    - constructor; try done. lia.
    - constructor; try done; [by apply (sound_same s)|cbn; lia|unfold is_u32 in *; cbn; lia]. }
  destruct (hasIssueBudget c s1) eqn:Hb; cbn [negb].
  - change (wp (~ accepts acc e0) (rounds c v link (Z.to_nat (managerIssueBudgetPerTick_ c))) (fun _ => passed acc dn e0 log s) log s1).
    eapply wp_mono.
    + apply (rounds_spec acc dn e0); [exact I|]. pose proof (i_issued _ _ _ _ _ _ _ _ I). lia.
    + intros ? log' s' [[I' _] F]. by apply Inv_passed.
  - unfold ret. rewrite app_nil_r. apply Inv_passed; [done|]. intros _. left.
    apply Z.ltb_ge in Hb. pose proof (i_issued _ _ _ _ _ _ _ _ I). lia.
Qed.

(** ** Messages *)

Definition panel_of (slot srcCore : Z) (r : Submit) : PendingTransfer :=
  mkTransfer slot srcCore (s_requestId r) (s_srcAddr r) (s_dstAddr r) (s_bytes r) (s_targetNode r)
    (s_completionFlagAddr r) (s_completionValue r) 0.

(** A panel is accepted when the queues have grown. *)
Definition submit_step (slot srcCore : Z) (x : t * list PendingTransfer) (r : Submit) : t * list PendingTransfer :=
  let s' := enqueue_submit c slot srcCore (fst x) r in
  (s', if managerPendingCount (fst x) <? managerPendingCount s' then snd x ++ [panel_of slot srcCore r] else snd x).

Lemma submit_sound slot srcCore s acc dn log r :
  sound s acc dn log -> is_u32 (s_bytes r) -> 0 <= s_targetNode r -> -2 ^ 31 <= slot < 2 ^ 31 ->
  let '(s', acc') := submit_step slot srcCore (s, acc) r in sound s' acc' dn log.
Proof.
  intros S Hb Ht Hs. unfold submit_step. cbn [fst snd]. unfold enqueue_submit.
  assert (forall acc1, sound s acc1 dn log -> sound s (if managerPendingCount s <? managerPendingCount s
    then acc1 ++ [panel_of slot srcCore r] else acc1) dn log) as Hskip by (intros; by rewrite Z.ltb_irrefl).
  destruct (Z.leb_spec (nodeCount s) (s_targetNode r)) as [|Hn]; [by apply Hskip|].
  destruct (Z.leb_spec workerCount (u64 slot)) as [|Hw]; [by apply Hskip|].
  destruct (Z.ltb_spec (managerPendingCount s) (queueDepth_ c)) as [_|]; [|by apply Hskip].
  fold (panel_of slot srcCore r). set (p := panel_of slot srcCore r).
  assert (0 <= slot < workerCount) as Hslot.
  { unfold u64, workerCount in *. destruct (Z.neg_nonneg_cases slot) as [Hneg|].
    - replace slot with (slot + 2 ^ 64 + (-1) * 2 ^ 64) in Hw by lia. rewrite Z_mod_plus_full, Z.mod_small in Hw by lia. lia.
    - rewrite Z.mod_small in Hw by lia. lia. }
  pose proof S as [S1 S2 S3 S4 S5 (tr & fin & A)].
  destruct (entries_split (s_targetNode r) slot s) as (rest & E1 & E2).
  { split; [unfold nodeCount in Hn; lia|]. rewrite Forall_lookup in S2.
    rewrite (S2 (Z.to_nat (s_targetNode r)) _ ltac:(apply list_lookup_lookup_total_lt; unfold nodeCount in Hn; lia)). lia. }
  assert (entries (set_queue (s_targetNode r) slot (queue (s_targetNode r) slot s ++ [p]) s) ≡ₚ p :: entries s) as He.
  { rewrite E1, E2. solve_Permutation. }
  rewrite !pending_entries, He. rewrite (proj2 (Z.ltb_lt _ _)) by (cbn [List.length]; lia).
  destruct (shape_set_queue (s_targetNode r) slot (queue (s_targetNode r) slot s ++ [p]) s) as [L1 L2].
  constructor; [by rewrite L1|by apply L2|done|done| |].
  { apply Forall_app. split; [done|]. by constructor. }
  exists ((p, []) :: tr), fin. destruct A. constructor.
  - rewrite He. cbn [map fst]. by constructor.
  - constructor; [by apply cut_none|done].
  - done.
  - rewrite ac_acc0. cbn [map app]. symmetry. apply Permutation_cons_append.
  - done.
  - intros w Hw'. cbn [app]. rewrite started_cons. unfold has_started at 1. cbn [snd]. rewrite andb_false_r. by apply ac_credit0.
Qed.

Definition count (w : Z) (l : list Z) : Z := Z.of_nat (List.length (filter (fun x => x = w) l)).
Lemma count_concat w l l' : count w (l ++ l') = count w l + count w l'.
Proof. unfold count. rewrite filter_app, length_app. lia. Qed.
Lemma count_replicate w n x : count w (replicate n x) = if decide (x = w) then Z.of_nat n else 0.
Proof.
  induction n as [|n IH]; cbn [replicate]; [by case_decide|]. change (x :: ?l) with ([x] ++ l).
  rewrite count_concat, IH. unfold count. rewrite filter_cons, filter_nil. case_decide; cbn [List.length]; lia.
Qed.

Lemma done_sound slot s acc dn dn' log id :
  sound s acc dn log -> (forall w, dn' w = dn w + count w [slot]) -> sound (recycle_done c slot s id) acc dn' log.
Proof.
  intros [S1 S2 S3 S4 S5 (tr & fin & A)] Hd. unfold recycle_done.
  assert (forall w, dn w <= dn' w) as Hle by (intros w; rewrite Hd; unfold count; lia).
  destruct ((0 <=? slot) && _ && _) eqn:E.
  2: { constructor; try done. exists tr, fin. destruct A. constructor; try done.
       intros w Hw. specialize (ac_credit0 w Hw). specialize (Hle w). lia. }
  apply andb_prop in E as [[E1 E2]%andb_prop E3]. apply Z.leb_le in E1. apply Z.ltb_lt in E2, E3.
  set (l := workerCredits_ s) in *. assert (0 <= l.[slot]) as Hr.
  { rewrite Forall_lookup in S4. apply (S4 (Z.to_nat slot)). apply list_lookup_lookup_total_lt. lia. }
  constructor; try done.
  - change (List.length (l.[slot := l.[slot] + 1]) = Z.to_nat workerCount). by rewrite length_insert.
  - change (Forall (fun x => 0 <= x <= workerCreditCap_ c) (l.[slot := l.[slot] + 1])). apply Forall_insert; [done|]. lia.
  - exists tr, fin. destruct A. constructor; try done. intros w Hw. specialize (ac_credit0 w Hw). rewrite Hd.
    change (workerCredits_ (s <| workerCredits_ := ?x |>)) with x. unfold count. rewrite filter_cons, filter_nil.
    fold l in ac_credit0. case_decide as Hc.
    + subst slot. rewrite list_lookup_total_insert_eq by lia. cbn [List.length]. lia.
    + rewrite list_lookup_total_insert_ne by lia. cbn [List.length]. lia.
Qed.

(** ** Histories *)

(** The manager, the panels accepted, the worker slots of the DONEs received and
    the requests sent, each with the cycle it was sent in. *)
Record World := mkWorld {
  man : t;
  accepted : list PendingTransfer;
  returned : list Z;
  sent : list (Z * Request)
}.

Inductive Event := Message (m : RequestSchedulerMsg) (slot : Z) | Tick (cycle : Z) | SendAvailable.

Definition begin (e : Endpoints.t) : World := mkWorld (init c e) [] [] [].

Definition pass (m : M unit) (w : World) : option World :=
  match m (man w) with
  | None => None
  | Some (_, (o, s')) =>
      Some (mkWorld s' (accepted w) (returned w) (sent w ++ map (fun r => (lastTickCycle_ s', r)) o))
  end.

Definition react (w : World) (ev : Event) : option World :=
  match ev with
  | Message m slot =>
      let s' := handleReq c m slot (man w) in
      Some match type m with
           | SUBMIT => mkWorld s' (snd (foldl (submit_step slot (srcCoreId m)) (man w, accepted w) (submits m)))
                         (returned w) (sent w)
           | DONE => mkWorld s' (accepted w) (returned w ++ replicate (List.length (dones m)) slot) (sent w)
           end
  | Tick cycle => pass (tick c v link cycle) w
  | SendAvailable => pass (handleSendAvailable c v link) w
  end.

Definition fits (w : World) (ev : Event) : Prop :=
  match ev with
  | Message m slot => -2 ^ 31 <= slot < 2 ^ 31 /\ Forall (fun r => is_u32 (s_bytes r) /\ 0 <= s_targetNode r) (submits m)
  | Tick cycle => lastTickCycle_ (man w) <= cycle
  | SendAvailable => True
  end.

Inductive reaches (e : Endpoints.t) : World -> Prop :=
| reaches_begin : reaches e (begin e)
| reaches_step w ev w' : reaches e w -> fits w ev -> react w ev = Some w' -> reaches e w'.

Record good (w : World) : Prop := {
  g_sound : sound (man w) (accepted w) (fun x => count x (returned w)) (map snd (sent w));
  g_issued : 0 <= issuedThisCycle_ (man w) <= managerIssueBudgetPerTick_ c;
  g_cycle : issueBudgetCycle_ (man w) <= lastTickCycle_ (man w);
  g_stamps : Forall (fun x => x <= issueBudgetCycle_ (man w)) (map fst (sent w));
  g_count : issuedThisCycle_ (man w) = count (issueBudgetCycle_ (man w)) (map fst (sent w));
  g_pace : forall cy, count cy (map fst (sent w)) <= managerIssueBudgetPerTick_ c
}.

Lemma manager_init_sound e : sound (init c e) [] (fun x => count x []) [].
Proof.
  assert (forall n m, concat (map (@concat PendingTransfer) (replicate n (replicate m []))) = []) as Hnil.
  { intros n m. assert (concat (replicate m ([] : list PendingTransfer)) = []) as Hm by (induction m; [done|exact IHm]).
    induction n; [done|]. cbn. by rewrite Hm, IHn. }
  unfold init. constructor; cbn [nodeWorkerQueues_ workerCredits_].
  - apply length_replicate.
  - apply Forall_replicate, length_replicate.
  - apply length_replicate.
  - apply Forall_replicate. unfold is_u32 in *. lia.
  - done.
  - exists [], []. constructor; try done.
    + unfold entries. cbn [nodeWorkerQueues_]. by rewrite Hnil.
    + intros w Hw. cbn [workerCredits_]. rewrite lookup_total_replicate_2 by lia. unfold started, count. cbn [app filter List.length list_filter]. lia.
Qed.

Lemma submits_fst slot srcCore l : forall s acc, fst (foldl (submit_step slot srcCore) (s, acc) l) = foldl (enqueue_submit c slot srcCore) s l.
Proof. induction l as [|r l IH]; intros s acc; [done|]. cbn [foldl]. unfold submit_step at 2. cbn [fst snd]. by rewrite IH. Qed.

Lemma submits_sound slot srcCore dn log l : -2 ^ 31 <= slot < 2 ^ 31 ->
  Forall (fun r => is_u32 (s_bytes r) /\ 0 <= s_targetNode r) l -> forall s acc,
  sound s acc dn log -> let '(s', acc') := foldl (submit_step slot srcCore) (s, acc) l in sound s' acc' dn log.
Proof.
  intros Hs. induction 1 as [|r l [H1 H2] Hl IH]; intros s acc S; [done|]. cbn [foldl].
  pose proof (submit_sound slot srcCore s acc dn log r S H1 H2 Hs) as S1.
  destruct (submit_step slot srcCore (s, acc) r) as [s1 acc1]. by apply IH.
Qed.

Lemma dones_sound slot log acc ids : forall s l, sound s acc (fun x => count x l) log ->
  sound (foldl (recycle_done c slot) s ids) acc (fun x => count x (l ++ replicate (List.length ids) slot)) log.
Proof.
  induction ids as [|id ids IH]; intros s l S; cbn [foldl List.length replicate]; [by rewrite app_nil_r|].
  change (slot :: ?x) with ([slot] ++ x). rewrite app_assoc. apply IH. eapply done_sound; [exact S|]. intros w. apply count_concat.
Qed.

(** The handlers of messages leave the counters alone. *)
Lemma handleReq_counters m slot s :
  issuedThisCycle_ (handleReq c m slot s) = issuedThisCycle_ s /\
  issueBudgetCycle_ (handleReq c m slot s) = issueBudgetCycle_ s /\
  lastTickCycle_ (handleReq c m slot s) = lastTickCycle_ s.
Proof.
  unfold handleReq. destruct (type m).
  - generalize (submits m). intros l. revert s. induction l as [|r l IH]; intros s; [done|]. cbn [foldl].
    destruct (IH (enqueue_submit c slot (srcCoreId m) s r)) as (-> & -> & ->). unfold enqueue_submit.
    destruct (_ <=? _); [done|]. destruct (_ <=? _); [done|]. by destruct (_ <? _).
  - generalize (dones m). intros l. revert s. induction l as [|r l IH]; intros s; [done|]. cbn [foldl].
    destruct (IH (recycle_done c slot s r)) as (-> & -> & ->). unfold recycle_done. by destruct (_ && _).
Qed.

Lemma stamped_fst (k : Z) (o : list Request) : map fst (map (fun r => (k, r)) o) = replicate (List.length o) k.
Proof. induction o as [|r o IH]; [done|]. cbn. by rewrite IH. Qed.
Lemma stamped_snd (k : Z) (o : list Request) : map snd (map (fun r => (k, r)) o) = o.
Proof. induction o as [|r o IH]; [done|]. cbn. by rewrite IH. Qed.
Lemma count_none cy b l : Forall (fun x => x <= b) l -> b < cy -> count cy l = 0.
Proof.
  intros H Hb. unfold count. induction H as [|x l Hx Hl IH]; [done|]. rewrite filter_cons. case_decide; [lia|exact IH].
Qed.

(** The requests of a call, counted for their cycle. *)
Lemma passed_good w s' o :
  good w -> passed (accepted w) (fun x => count x (returned w)) (endpoints (man w)) (map snd (sent w)) (man w) (map snd (sent w) ++ o) s' ->
  good (mkWorld s' (accepted w) (returned w) (sent w ++ map (fun r => (lastTickCycle_ s', r)) o)).
Proof.
  intros G [P1 P2 P3 P4 _]. constructor; cbn [man accepted returned sent]; rewrite ?map_app, ?stamped_fst, ?stamped_snd, ?P3; [done|done| | | |];
  destruct P4 as [[-> E]|[Hc Hn]]; try (rewrite <- (app_nil_r (map snd _)) in E at 2; apply app_inv_head in E as ->; cbn [List.length replicate]; rewrite ?app_nil_r; apply G);
  pose proof (g_cycle _ G) as Gc; pose proof (g_stamps _ G) as Gs; rewrite ?Hc.
  - lia.
  - apply Forall_app. split; [|by apply Forall_replicate]. eapply Forall_impl; [exact Gs|]. cbn. lia.
  - rewrite count_concat, count_replicate, decide_True, Hn, length_app by done. unfold spent.
    destruct (Z.eqb_spec (issueBudgetCycle_ (man w)) (lastTickCycle_ (man w))) as [E|E].
    + rewrite (g_count _ G), E. lia.
    + rewrite (count_none _ _ _ Gs) by lia. lia.
  - intros cy. rewrite count_concat, count_replicate. pose proof (g_pace _ G cy) as Gp. case_decide as E; [|lia]. subst cy.
    rewrite length_app in Hn. unfold spent in Hn.
    destruct (Z.eqb_spec (issueBudgetCycle_ (man w)) (lastTickCycle_ (man w))) as [E|E].
    + rewrite <- E, <- (g_count _ G). lia.
    + rewrite (count_none _ _ _ Gs) by lia. lia.
Qed.

Lemma pass_good w w' : good w -> pass (tryIssue c v link) w = Some w' -> good w'.
Proof.
  intros G H. pose proof (tryIssue_spec (accepted w) (fun x => count x (returned w)) (endpoints (man w)) (map snd (sent w)) (man w)
    (g_sound _ G) (g_issued _ G) (fun _ => eq_refl)) as W.
  unfold pass in H. unfold wp in W. destruct (tryIssue c v link (man w)) as [[u [o s']]|]; [|done]. inversion H; subst. by apply passed_good.
Qed.

Definition at_cycle (cycle : Z) (w : World) : World :=
  mkWorld ((man w) <| lastTickCycle_ := cycle |>) (accepted w) (returned w) (sent w).
Lemma at_cycle_good cycle w : good w -> lastTickCycle_ (man w) <= cycle -> good (at_cycle cycle w).
Proof.
  intros [] H. constructor; try done; [by apply (sound_same (man w))|]. cbn. lia.
Qed.
Lemma tick_pass cycle w : pass (tick c v link cycle) w = pass (tryIssue c v link) (at_cycle cycle w).
Proof.
  unfold pass, tick, bind, update. cbn [man at_cycle accepted returned sent].
  destruct (tryIssue c v link _) as [[u [o s']]|]; [|done]. done.
Qed.

Lemma react_good w ev w' : good w -> fits w ev -> react w ev = Some w' -> good w'.
Proof.
  intros G F H. destruct ev as [m slot|cycle|]; cbn [react fits] in *.
  - destruct F as [Fs Fm]. destruct (handleReq_counters m slot (man w)) as (C1 & C2 & C3). inversion H; subst; clear H.
    unfold handleReq in *. destruct (type m); constructor; cbn [man accepted returned sent]; rewrite ?C1, ?C2, ?C3; try apply G.
    + pose proof (submits_sound slot (srcCoreId m) _ _ _ Fs Fm _ _ (g_sound _ G)) as S. rewrite <- (submits_fst _ _ _ _ (accepted w)).
      by destruct (foldl (submit_step slot (srcCoreId m)) _ _).
    + apply dones_sound, G.
  - rewrite tick_pass in H. eapply pass_good; [|exact H]. by apply at_cycle_good.
  - by eapply pass_good.
Qed.

Lemma reaches_good e w : reaches e w -> good w.
Proof.
  induction 1 as [|w ev w' R IH F H]; [|by eapply react_good].
  constructor; cbn; try done; [apply manager_init_sound| |]; unfold is_u32 in *; [lia|]. intros cy. unfold count. cbn. lia.
Qed.

(** ** Theorems *)

(** A panel and its chunks: they cover the issued part from the start, without
    gap or overlap, and none exceeds the chunk size. *)
Definition covers (x : PendingTransfer * list (Z * Z)) : Prop :=
  0 <= issuedBytes (fst x) <= bytes (fst x) /\
  concat (map (fun '(o, n) => seqZ o n) (snd x)) = seqZ 0 (issuedBytes (fst x)) /\
  Forall (fun '(_, n) => 0 < n /\ (panelChunkBytes_ c <> 0 -> n <= Z.max (panelChunkBytes_ c) 1)) (snd x).

(** C5. In every history of SUBMIT and DONE messages, ticks and send-available
    callbacks the requests on the network are exactly chunks of accepted panels:
    the chunks of each panel cover a prefix of it without gap or overlap, a panel
    that is no longer queued is covered completely, and the panels of a worker
    begun without a DONE never exceed its credits. *)
Theorem panels_issued_exactly e w :
  reaches e w ->
  exists queued finished_, entries (man w) ≡ₚ map fst queued /\
    accepted w ≡ₚ map (base ∘ fst) (queued ++ finished_) /\
    map asked (map snd (sent w)) ≡ₚ concat (map parts (queued ++ finished_)) /\
    Forall covers (queued ++ finished_) /\
    Forall (fun x => issuedBytes (fst x) = bytes (fst x)) finished_ /\
    forall slot, 0 <= slot < workerCount ->
      started slot (queued ++ finished_) - count slot (returned w) <= workerCreditCap_ c.
Proof.
  intros R. pose proof (g_sound _ (reaches_good _ _ R)) as S. pose proof S as [S1 S2 S3 S4 S5 (tr & fin & A)].
  exists tr, fin. assert (Forall covers (tr ++ fin)) as Hc.
  { apply Forall_forall. intros x Hx. destruct (typed_entry _ _ _ _ _ _ x S A Hx) as (T1 & _ & T3).
    destruct (cut_spec _ _ T3 T1) as (C1 & C2 & C3 & _). split; [exact C1|by split]. }
  split_and!; [apply A|apply A|apply A|done| |].
  - apply Forall_app in Hc as [_ Hc]. pose proof (ac_fin _ _ _ _ _ _ A) as Hf. rewrite Forall_forall in *.
    intros x Hx. specialize (Hf x Hx). destruct (Hc x Hx) as [? _]. lia.
  - intros slot Hs. pose proof (ac_credit _ _ _ _ _ _ A slot Hs) as H. cbv beta in H. rewrite Forall_lookup in S4.
    assert (0 <= (workerCredits_ (man w)).[slot]) as H0; [|lia].
    apply (S4 (Z.to_nat slot)), list_lookup_lookup_total_lt. lia.
Qed.

(** In no cycle does the manager send more requests than its issue budget,
    whatever the calls of the network and the messages in between. *)
Theorem issue_budget_kept e w cycle :
  reaches e w -> count cycle (map fst (sent w)) <= managerIssueBudgetPerTick_ c.
Proof. intros R. apply (g_pace _ (reaches_good _ _ R)). Qed.

(** C29. When the network takes every request and the panels have endpoints and
    routes, a tick ends without a fatal exit and stops only when the issue budget
    of the cycle is spent or no queued panel can be issued: each of them waits
    for its first credit. *)
Theorem tick_work_conserving e w cycle :
  reaches e w -> lastTickCycle_ (man w) <= cycle -> accepts (accepted w) (endpoints (man w)) ->
  exists o s', tick c v link cycle (man w) = Some (tt, (o, s')) /\
    (issuedThisCycle_ s' = managerIssueBudgetPerTick_ c \/
     forall p, p ∈ entries s' -> served p -> issuedBytes p = 0 /\ hasWorkerCredit s' p = false).
Proof.
  intros R Hc Ha. pose proof (at_cycle_good cycle w (reaches_good _ _ R) Hc) as G.
  pose proof (tryIssue_spec _ _ (endpoints (man w)) _ _ (g_sound _ G) (g_issued _ G) (fun _ => eq_refl)) as W.
  unfold wp in W. unfold tick, bind, update. cbn [at_cycle man accepted returned sent] in W.
  destruct (tryIssue c v link _) as [[[] [o s']]|]; [|done]. exists ([] ++ o), s'. split; [done|].
  destruct (pa_finished _ _ _ _ _ _ _ W Ha) as [H|H]; [by left|right]. intros p Hp Hs. specialize (H p Hp Hs).
  unfold issuable in H. apply orb_false_iff in H as [H1 H2]. apply negb_false_iff, Z.eqb_eq in H1. done.
Qed.

(** Submits with a valid node and slot, one after the other. *)
Lemma enqueue_count slot srcCore s acc dn log r :
  sound s acc dn log -> is_u32 (s_bytes r) -> 0 <= slot < workerCount -> 0 <= s_targetNode r < numMemoryNodes_ c ->
  managerPendingCount (enqueue_submit c slot srcCore s r) =
    if managerPendingCount s <? queueDepth_ c then managerPendingCount s + 1 else managerPendingCount s.
Proof.
  intros S Hb Hs Hn. unfold enqueue_submit. unfold workerCount in *. pose proof (so_nodes _ _ _ _ S) as L. pose proof (so_workers _ _ _ _ S) as W.
  destruct (Z.leb_spec (nodeCount s) (s_targetNode r)) as [H|_]; [unfold nodeCount in H; lia|].
  destruct (Z.leb_spec 4 (u64 slot)) as [H|_]; [rewrite u64_small in H by (unfold is_u64; lia); lia|].
  destruct (managerPendingCount s <? queueDepth_ c); [|done].
  destruct (entries_split (s_targetNode r) slot s) as (rest & E1 & E2).
  { split; [lia|]. rewrite Forall_lookup in W.
    rewrite (W (Z.to_nat (s_targetNode r)) _ ltac:(apply list_lookup_lookup_total_lt; lia)). unfold workerCount. lia. }
  rewrite !pending_entries, E1, E2, !length_app. cbn [List.length]. lia.
Qed.

Lemma submits_count slot srcCore dn log l : 0 <= slot < workerCount ->
  Forall (fun r => is_u32 (s_bytes r) /\ 0 <= s_targetNode r < numMemoryNodes_ c) l -> forall s acc,
  sound s acc dn log -> managerPendingCount s <= queueDepth_ c ->
  managerPendingCount (foldl (enqueue_submit c slot srcCore) s l) =
    Z.min (queueDepth_ c) (managerPendingCount s + Z.of_nat (List.length l)).
Proof.
  intros Hs. induction 1 as [|r l [H1 H2] Hl IH]; intros s acc S Hp; cbn [foldl List.length]; [lia|].
  pose proof (enqueue_count slot srcCore s acc dn log r S H1 Hs H2) as C.
  pose proof (submit_sound slot srcCore s acc dn log r S H1 ltac:(lia) ltac:(unfold workerCount in *; lia)) as S1.
  unfold submit_step in S1. cbn [fst snd] in S1. rewrite (IH _ _ S1); rewrite C; destruct (Z.ltb_spec (managerPendingCount s) (queueDepth_ c)); lia.
Qed.

(** A SUBMIT enters the queues as long as fewer panels than the queue depth
    are queued; the rest of its panels are dropped without an answer, so the
    workers' reads that wait for them never complete. *)
Theorem submits_beyond_depth_dropped e w m slot :
  reaches e w -> type m = SUBMIT -> 0 <= slot < workerCount ->
  Forall (fun r => is_u32 (s_bytes r) /\ 0 <= s_targetNode r < numMemoryNodes_ c) (submits m) ->
  managerPendingCount (man w) <= queueDepth_ c ->
  managerPendingCount (handleReq c m slot (man w)) =
    Z.min (queueDepth_ c) (managerPendingCount (man w) + Z.of_nat (List.length (submits m))).
Proof.
  intros R Ht Hs Hm Hp. unfold handleReq. rewrite Ht.
  eapply submits_count; [done|done|exact (g_sound _ (reaches_good _ _ R))|done].
Qed.

(** ** The best panel of a queue *)

Lemma scan_least ok q : forall idx best q' i,
  scan c ok idx best q = (q', Some i) ->
  exists key,
    (forall bk bi, best = Some (bk, bi) -> key <= bk) /\
    (forall j p, q' !! j = Some p -> ok p = true -> key <= requestPriorityKey p) /\
    (best = Some (key, i) \/
     exists p, idx <= i /\ q' !! Z.to_nat (i - idx) = Some p /\ ok p = true /\ requestPriorityKey p = key /\
       (forall bk bi, best = Some (bk, bi) -> key < bk) /\
       forall j p', (j < Z.to_nat (i - idx))%nat -> q' !! j = Some p' -> ok p' = true -> key < requestPriorityKey p').
Proof.
  induction q as [|p q IH]; intros idx best q' i H; cbn [scan] in H.
  { destruct best as [[bk bi]|]; inversion H; subst. exists bk. split_and!; [intros ?? [=]; lia|done|by left]. }
  destruct (_ =? 0); [by apply IH|].
  set (best1 := if ok p then _ else _) in H. destruct (scan c ok (idx + 1) best1 q) as [q1 r1] eqn:E. inversion H; subst. clear H.
  destruct (IH _ _ _ _ E) as (key & K1 & K2 & K3).
  assert (forall bk bi, best = Some (bk, bi) -> exists bk' bi', best1 = Some (bk', bi') /\ bk' <= bk) as Hb.
  { intros bk bi ->. unfold best1. destruct (ok p); [|by exists bk, bi]. destruct (Z.ltb_spec (requestPriorityKey p) bk); eexists _, _; (split; [done|lia]). }
  assert (ok p = true -> exists bk bi, best1 = Some (bk, bi) /\ bk <= requestPriorityKey p) as Hp.
  { intros Ho. unfold best1. rewrite Ho. destruct best as [[bk bi]|]; [|by exists (requestPriorityKey p), idx].
    destruct (Z.ltb_spec (requestPriorityKey p) bk); eexists _, _; (split; [done|lia]). }
  exists key. split_and!.
  - intros bk bi Hbest. destruct (Hb _ _ Hbest) as (bk' & bi' & H1 & H2). specialize (K1 _ _ H1). lia.
  - intros [|j] p' Hj Ho; [|by apply (K2 j)]. cbn in Hj. inversion Hj; subst.
    destruct (Hp Ho) as (bk & bi & H1 & H2). specialize (K1 _ _ H1). lia.
  - destruct K3 as [K3|(p' & L & Hl & Ho & Hk & B & F)].
    + unfold best1 in K3. destruct (ok p) eqn:Ho; [|by left].
      destruct best as [[bk bi]|].
      * destruct (Z.ltb_spec (requestPriorityKey p) bk); [|left; congruence]. inversion K3; subst. right. exists p.
        rewrite Z.sub_diag. split_and!; try done; [intros ?? [=]; lia|]. intros j p' Hj. lia.
      * inversion K3; subst. right. exists p. rewrite Z.sub_diag. split_and!; try done. intros j p' Hj. lia.
    + right. exists p'. replace (Z.to_nat (i - idx)) with (S (Z.to_nat (i - (idx + 1)))) by lia. split_and!; try done; [lia| |].
      * intros bk bi Hbest. destruct (Hb _ _ Hbest) as (bk' & bi' & H1 & H2). specialize (B _ _ H1). lia.
      * intros [|j] p2 Hj Hl2 Ho2; [|by apply (F j); [lia| |]]. cbn in Hl2. inversion Hl2; subst.
        destruct (Hp Ho2) as (bk & bi & H1 & H2). specialize (B _ _ H1). lia.
Qed.

(** The panel that a scan of a queue selects is the best of those that may be
    issued: no other has an older window, in the same window an earlier tile, and
    then a panel not yet begun before one in progress and slot 0 before slot 1;
    among equals the one queued first. *)
Theorem oldest_panel_served s q q' i :
  scan c (issuable s) 0 None q = (q', Some i) ->
  exists p, q' !! Z.to_nat i = Some p /\ issuable s p = true /\
    forall j p', q' !! j = Some p' -> issuable s p' = true ->
      ~ lex_lt (rank p') (rank p) /\ ((j < Z.to_nat i)%nat -> lex_lt (rank p) (rank p')).
Proof.
  intros H. destruct (scan_least _ _ _ _ _ _ H) as (key & _ & K2 & [?|(p & L & Hl & Ho & <- & _ & F)]); [done|].
  rewrite Z.sub_0_r in *. exists p. split_and!; [done|done|]. intros j p' Hj Ho'. split.
  - rewrite <- key_lex. specialize (K2 j p' Hj Ho'). lia.
  - intros Hlt. apply key_lex. by apply (F j).
Qed.

End ManagerFacts.

(** ** Witnesses *)

Section ManagerDemo.
Import Net SchedMsg SchedManager.

Definition demo_sched : Config := corrected
  (mkConfig 4 0 (-1) 3 2048 0 2 1 4 4 1 2 1 1 1 2 false false false 0 0 0 6).
Definition demo_ends : Endpoints.t := Endpoints.mk 9 {[0 := 9; 1 := 11]} [].
Definition demo_view : View :=
  mkView (Endpoints.mkConfig 4 0x10000000 0x100000 9) (Routing.mk 0x40000000 [3; 4] ∅) 0.
Definition demo_link : Z -> bool := fun _ => true.

(** Two panels of a tile for worker 1: one of 5000 bytes, one of 100. *)
Definition demo_submit : RequestSchedulerMsg :=
  (make SUBMIT) <| batchCount := 2 |> <| srcCoreId := 1 |>
    <| batchRequestIds := [composeWindowRequestId 1 0 0 1 0; composeWindowRequestId 1 1 0 1 0] |>
    <| batchSrcAddrs := [0x1000; 0x9000] |> <| batchDstAddrs := [0x10100000; 0x10102000] |>
    <| batchBytes := [5000; 100] |> <| batchTargetNodes := [0; 0] |>
    <| batchCompletionFlagAddrs := [0x101fffc8; 0x101fffd8] |> <| batchCompletionValues := [4096; 4096] |>.

Definition next (w : World) (ev : Event) : World := default w (react demo_sched demo_view demo_link w ev).
Local Abbreviation reaches_demo := (reaches demo_sched demo_view demo_link demo_ends).
Lemma reaches_next w ev :
  reaches_demo w -> fits w ev -> is_Some (react demo_sched demo_view demo_link w ev) -> reaches_demo (next w ev).
Proof. intros R F [w' E]. unfold next. rewrite E. by eapply reaches_step. Qed.

Local Abbreviation demo_w0 := (begin demo_sched demo_ends).
Local Abbreviation demo_w1 := (next demo_w0 (Message demo_submit 1)).
Local Abbreviation demo_w2 := (next demo_w1 (Tick 1)).

Lemma demo_fits1 : fits demo_w0 (Message demo_submit 1).
Proof. cbn [fits]. unfold is_u32. apply (bool_decide_unpack _). by vm_compute. Qed.
Lemma demo_reaches1 : reaches_demo demo_w1.
Proof. apply reaches_next; [apply reaches_begin|exact demo_fits1|]. vm_compute. eexists. reflexivity. Qed.
Lemma demo_reaches2 : reaches_demo demo_w2.
Proof. apply reaches_next; [exact demo_reaches1|vm_compute; congruence|]. vm_compute. eexists. reflexivity. Qed.

Lemma demo_typed : is_u32 (workerCreditCap_ demo_sched) /\ is_u32 (managerIssueBudgetPerTick_ demo_sched).
Proof. vm_compute. split_and!; congruence. Qed.

Lemma panels_issued_exactly_witness :
  List.length (sent demo_w2) = 2%nat /\
  exists queued finished_, entries (man demo_w2) ≡ₚ map fst queued /\
    accepted demo_w2 ≡ₚ map (base ∘ fst) (queued ++ finished_) /\
    map asked (map snd (sent demo_w2)) ≡ₚ concat (map parts (queued ++ finished_)) /\
    Forall (covers demo_sched) (queued ++ finished_).
Proof.
  split; [by vm_compute|].
  destruct (panels_issued_exactly demo_sched demo_view demo_link (proj1 demo_typed) (proj2 demo_typed) demo_ends demo_w2 demo_reaches2)
    as (q & f & H1 & H2 & H3 & H4 & _).
  exists q, f. exact (conj H1 (conj H2 (conj H3 H4))).
Defined.

Lemma issue_budget_kept_witness : count 1 (map fst (sent demo_w2)) = 2 /\ count 1 (map fst (sent demo_w2)) <= 2.
Proof.
  split; [by vm_compute|].
  exact (issue_budget_kept demo_sched demo_view demo_link (proj1 demo_typed) (proj2 demo_typed) demo_ends demo_w2 1 demo_reaches2).
Defined.

Lemma demo_accepts : accepts demo_sched demo_view demo_link (accepted demo_w1) (endpoints (man demo_w1)).
Proof.
  split; [vm_compute; congruence|]. split; [done|].
  assert (accepted demo_w1 = [panel_of 1 1 (mkSubmit (composeWindowRequestId 1 0 0 1 0) 0x1000 0x10100000 5000 0 0x101fffc8 4096);
    panel_of 1 1 (mkSubmit (composeWindowRequestId 1 1 0 1 0) 0x9000 0x10102000 100 0 0x101fffd8 4096)]) as -> by by vm_compute.
  assert (endpoints (man demo_w1) = demo_ends) as -> by by vm_compute.
  assert (forall a, 0x10100000 <= a < 0x10200000 ->
    Endpoints.resolveEndpointForAddress (ends demo_view) a demo_ends = Some (11, demo_ends)) as He.
  { intros a Ha. unfold Endpoints.resolveEndpointForAddress.
    change (Endpoints.ensure_network_id _ demo_ends) with demo_ends.
    change (Endpoints.globalBase _) with 0x10000000. change (Endpoints.windowSize _) with 0x100000.
    destruct (Z.ltb_spec a 0x10000000); [lia|]. rewrite u64_small by (unfold is_u64; lia).
    replace ((a - 0x10000000) / 0x100000) with 1 by (apply (Z.div_unique _ _ _ (a - 0x10100000)); lia). by vm_compute. }
  assert (forall a, 0 <= a < 0x40000000 -> Routing.destination (routing demo_view) a = Some 3) as Hr.
  { intros a Ha. unfold Routing.destination, Routing.getMemNicEndpointId, Routing.getDmaTargetRouter, Routing.getDmaTargetNode.
    change (Routing.memNodeSize _) with 0x40000000. rewrite Z.div_small by lia. by vm_compute. }
  repeat constructor; change (bytes (panel_of _ _ (mkSubmit _ _ _ ?b _ _ _))) with b in *;
    [exists 11; split; [done|]; apply He|exists 3; apply Hr|exists 11; split; [done|]; apply He|exists 3; apply Hr];
    cbn in *; rewrite u64_small by (unfold is_u64; lia); lia.
Qed.

Lemma tick_work_conserving_witness :
  exists o s', tick demo_sched demo_view demo_link 1 (man demo_w1) = Some (tt, (o, s')) /\
    (issuedThisCycle_ s' = managerIssueBudgetPerTick_ demo_sched \/
     forall p, p ∈ entries s' -> served demo_sched p -> issuedBytes p = 0 /\ hasWorkerCredit s' p = false).
Proof.
  exact (tick_work_conserving demo_sched demo_view demo_link (proj1 demo_typed) (proj2 demo_typed) demo_ends demo_w1 1
    demo_reaches1 ltac:(vm_compute; congruence) demo_accepts).
Defined.

Lemma oldest_panel_served_witness :
  exists p, queue 0 1 (man demo_w1) !! 0%nat = Some p /\
    forall j p', queue 0 1 (man demo_w1) !! j = Some p' -> issuable (man demo_w1) p' = true -> ~ lex_lt (rank p') (rank p).
Proof.
  destruct (oldest_panel_served demo_sched (man demo_w1) (queue 0 1 (man demo_w1)) (queue 0 1 (man demo_w1)) 0 ltac:(by vm_compute))
    as (p & H1 & _ & H2).
  exists p. split; [exact H1|]. intros j p' Hj Ho. exact (proj1 (H2 j p' Hj Ho)).
Defined.

(** The queues hold three panels at most: the second message loses one. *)
Lemma submits_beyond_depth_dropped_witness :
  managerPendingCount (man demo_w1) = 2 /\ List.length (submits demo_submit) = 2%nat /\
  managerPendingCount (handleReq demo_sched demo_submit 1 (man demo_w1)) = 3.
Proof.
  split; [by vm_compute|]. split; [by vm_compute|].
  rewrite (submits_beyond_depth_dropped demo_sched demo_view demo_link (proj1 demo_typed) (proj2 demo_typed) demo_ends demo_w1 demo_submit 1
    demo_reaches1 ltac:(done) ltac:(vm_compute; split; congruence)
    ltac:(unfold is_u32; apply (bool_decide_unpack _); by vm_compute) ltac:(vm_compute; congruence)).
  by vm_compute.
Defined.
End ManagerDemo.
