(* ===== verification/SchedWorker.v ===== *)
(** * Request scheduler: the worker

    Models the worker of golem/requestscheduler/requestscheduler.cc.  A window
    transaction asks for the mat and vec panels of some tiles; the worker
    registers a read with the global memory for each panel, submits the panels to
    the manager in batches, and reports DONE for a panel once the global memory
    no longer waits for it.  Software can also submit reads and report DONE
    through a mailbox in the local memory.

    The global memory is the engine of [Dma].  Handlers return the messages sent
    to the manager; [None] is a fatal exit.  [walk] is the order in which the
    hash map of windows is traversed.  The worker has a link to its manager and
    is bound to a global memory: without the first [setup] is fatal, without the
    second its methods do nothing. *)

From S2P Require Import Prelude Telemetry Cluster GroupMsg LocalMem Dma Effects SchedMsg.

Module SchedWorker.
Import SchedMsg.

(** ** Data *)

(** The fields of a window that exist once for mat and once for vec. *)
Record Operand := mkOperand {
  baseAddr : Z;
  localBaseAddr : Z;
  localSlotStrideBytes : Z;
  skipRead : bool;
  strideBytes : Z;
  tileCount : Z;
  panelRows : Z;
  sourceRowStrideBytes : Z;
  groupStrideBytes : Z
}.

(** The fields the scheduler reads. *)
Record WcpWindowTransaction := mkWindow {
  kTiles : Z;
  blockK : Z;
  elemBytes : Z;
  memNodeSize : Z;
  mat : Operand;
  vec : Operand;
  slotCount : Z;
  useIndependentMatVecTiles : bool;
  kWindowTiles : Z;
  totalKTileCount : Z;
  rowMajorPanels : bool;
  kSliceStrideBytes : Z
}.

(** The requests of a tile for one operand. *)
Record Half := mkHalf {
  requestId : Z;
  requestIds : list Z;
  doneSentKStep : list Z;
  doneCycle : Z;
  doneSent : bool
}.
#[global] Instance eta_half : Eta Half := fun h =>
  mkHalf (requestId h) (requestIds h) (doneSentKStep h) (doneCycle h) (doneSent h).

Record WorkerTileRequestState := mkTile {
  submitCycle : Z;
  matHalf : Half;
  vecHalf : Half;
  readyCycle : Z;
  kStepCount : Z;
  issued : bool;
  retired : bool
}.
#[global] Instance eta_tile : Eta WorkerTileRequestState := fun x =>
  mkTile (submitCycle x) (matHalf x) (vecHalf x) (readyCycle x) (kStepCount x) (issued x) (retired x).

Definition new_tile : WorkerTileRequestState :=
  mkTile 0 (mkHalf 0 [] [] 0 false) (mkHalf 0 [] [] 0 false) 0 0 false false.

Record WorkerWindowTxnState := mkTxn {
  txnId : Z;
  txn : WcpWindowTransaction;
  tiles : list WorkerTileRequestState
}.
#[global] Instance eta_txn : Eta WorkerWindowTxnState := fun x => mkTxn (txnId x) (txn x) (tiles x).

Record t := mk {
  gm : Dma.t;
  workerSubmitQ_ : list PendingTransfer;
  workerWindowTxns_ : gmap Z WorkerWindowTxnState;
  nextWindowTxnId_ : Z;
  lastTickCycle_ : Z;
  workerNeedsService_ : bool;
  submitSeen_ : bool;
  doneSeen_ : bool
}.
#[global] Instance eta_t : Eta t := fun s =>
  mk (gm s) (workerSubmitQ_ s) (workerWindowTxns_ s) (nextWindowTxnId_ s) (lastTickCycle_ s)
    (workerNeedsService_ s) (submitSeen_ s) (doneSeen_ s).

Definition init (m : Dma.t) : t := mk m [] ∅ 1 0 true false false.

Abbreviation W := (M t RequestSchedulerMsg).
#[local] Open Scope sched_scope.

(** ** The global memory *)

Definition ctrlGetReadFlagAddr (slot : Z) : W Z := fun s =>
  match Dma.get_dma_flag_addrs false slot (gm s) with
  | None => None
  | Some (_, flag_addr) => ret flag_addr s
  end.

Definition register (id dst flag value total : Z) : W unit := fun s =>
  match Dma.ctrlRegisterPendingReadRequest id dst flag value total (gm s) with
  | None => None
  | Some (_, m) => update (fun s => s <| gm := m |>) s
  end.

Definition pending (id : Z) (s : t) : bool := Dma.ctrlIsReadRequestPending id (gm s).

(** Requests that wait to be sent as one DONE, each with the cycle it was found
    complete in. *)
Abbreviation Batch := (list (Z * Z)).

Section Worker.
Variable c : Config.
Variable walk : gmap Z WorkerWindowTxnState -> list Z.

(** ** Windows *)

Definition slot_of (is_vec : bool) : Z := if is_vec then 1 else 0.
Definition operand (is_vec : bool) (x : WcpWindowTransaction) : Operand := if is_vec then vec x else mat x.

Definition valid (x : WcpWindowTransaction) (o : Operand) (i : Z) : bool :=
  (0 <? strideBytes o) && negb (skipRead o) &&
  (negb (useIndependentMatVecTiles x) || (i <? tileCount o)).

Definition src_base (x : WcpWindowTransaction) (o : Operand) (i : Z) : Z :=
  let kWindow := Z.max (kWindowTiles x) 1 in
  let total := Z.max (totalKTileCount x) kWindow in
  let group := if useIndependentMatVecTiles x then i / kWindow else 0 in
  let kIdx := if useIndependentMatVecTiles x then i mod kWindow else i in
  if rowMajorPanels x
  then u64 (baseAddr o + group * groupStrideBytes o + kIdx * kSliceStrideBytes x)
  else u64 (baseAddr o + (if useIndependentMatVecTiles x then u32 (group * total + kIdx) else i) * strideBytes o).

Definition dst_base (x : WcpWindowTransaction) (o : Operand) (i : Z) : Z :=
  u64 (localBaseAddr o + (i mod Z.max (slotCount x) 1) * localSlotStrideBytes o).

Definition target_node (x : WcpWindowTransaction) (src : Z) : Z :=
  if 0 <? memNodeSize x then u16 ((src / memNodeSize x) mod Z.max (numMemoryNodes_ c) 1) else 0.

Record Panel := mkPanel { p_src : Z; p_dst : Z; p_bytes : Z; p_node : Z; p_ordinal : Z }.

Definition panels (x : WcpWindowTransaction) (o : Operand) (i : Z) : list Panel :=
  if rowMajorPanels x then
    let rowBytes := u32 (blockK x * elemBytes x) in
    map (fun row =>
           let src := u64 (src_base x o i + row * sourceRowStrideBytes o) in
           mkPanel src (u64 (dst_base x o i + row * rowBytes)) rowBytes (target_node x src) (u32 (i * 128 + row)))
        (seqZ 0 (panelRows o))
  else [mkPanel (src_base x o i) (dst_base x o i) (u32 (strideBytes o)) (target_node x (src_base x o i)) i].

(** Registers the read of a panel and queues its submit. *)
Definition enqueuePanel (is_vec : bool) (txnId : Z) (h : Half) (p : Panel) : W Half :=
  if p_bytes p =? 0 then ret h
  else
    let slot := slot_of is_vec in
    let id := composeWindowRequestId (coreId_ c) slot (p_node p) txnId (p_ordinal p) in
    let! flagAddr := ctrlGetReadFlagAddr slot in
    register id (p_dst p) flagAddr (u32 id) (p_bytes p) ;;
    update (fun s => s <| workerSubmitQ_ := workerSubmitQ_ s ++
      [mkTransfer (u8 (workerSlot_ c)) (u16 (coreId_ c)) id (p_src p) (p_dst p) (p_bytes p) (p_node p)
         flagAddr (u32 id) 0] |>) ;;
    ret (h <| requestId := id |> <| requestIds := requestIds h ++ [id] |>
           <| doneSentKStep := doneSentKStep h ++ [0] |>).

Fixpoint enqueuePanels (is_vec : bool) (txnId : Z) (h : Half) (ps : list Panel) : W Half :=
  match ps with
  | [] => ret h
  | p :: ps => let! h := enqueuePanel is_vec txnId h p in enqueuePanels is_vec txnId h ps
  end.

Definition enqueue_half (is_vec : bool) (st : WorkerWindowTxnState) (i : Z) : W Half := fun s =>
  let o := operand is_vec (txn st) in
  let ok := valid (txn st) o i in
  enqueuePanels is_vec (txnId st) (mkHalf 0 [] [] (if ok then 0 else lastTickCycle_ s) (negb ok))
    (if ok then panels (txn st) o i else []) s.

Definition enqueue_tile (st : WorkerWindowTxnState) (i : Z) (tile : WorkerTileRequestState)
    : W WorkerTileRequestState :=
  if issued tile then ret tile
  else
    let! m := enqueue_half false st i in
    let! v := enqueue_half true st i in
    fun s => ret (mkTile (lastTickCycle_ s) m v 0 1 true false) s.

Fixpoint enqueue_tiles (st : WorkerWindowTxnState) (i : Z) (l : list WorkerTileRequestState)
    : W (list WorkerTileRequestState) :=
  match l with
  | [] => ret []
  | tile :: l =>
      let! tile := enqueue_tile st i tile in
      let! l := enqueue_tiles st (i + 1) l in
      ret (tile :: l)
  end.

Definition enqueueWindowTiles (st : WorkerWindowTxnState) : W unit :=
  let! l := enqueue_tiles st 0 (tiles st) in
  update (fun s => s <| workerWindowTxns_ := <[txnId st := st <| tiles := l |>]> (workerWindowTxns_ s) |>).

Definition submitWindowTransaction (x : WcpWindowTransaction) : W Z := fun s =>
  let id := nextWindowTxnId_ s in
  let st := mkTxn id x (replicate (Z.to_nat (kTiles x)) new_tile) in
  (update (fun s => s <| nextWindowTxnId_ := id ⊞ 1 |>
                      <| workerWindowTxns_ := <[id := st]> (workerWindowTxns_ s) |>) ;;
   enqueueWindowTiles st ;;
   update (fun s => s <| workerNeedsService_ := true |>) ;;
   ret id) s.

(** ** Queries *)

Definition find_tile (id idx : Z) (s : t) : option WorkerTileRequestState :=
  match workerWindowTxns_ s !! id with
  | None => None
  | Some st => tiles st !! Z.to_nat idx
  end.

Definition tile_ready (tile : WorkerTileRequestState) (s : t) : bool :=
  match requestIds (matHalf tile), requestIds (vecHalf tile) with
  | [], [] => negb (pending (requestId (matHalf tile)) s) && negb (pending (requestId (vecHalf tile)) s)
  | ms, vs => forallb (fun id => negb (pending id s)) ms && forallb (fun id => negb (pending id s)) vs
  end.

Definition isTileReady (id idx : Z) (s : t) : bool :=
  match find_tile id idx s with None => false | Some tile => tile_ready tile s end.

(** The values of matReady and vecReady; [None] is a false answer. *)
Definition getTileKStepReadiness (id idx kStep : Z) (s : t) : option (bool * bool) :=
  match find_tile id idx s with
  | None => None
  | Some tile =>
      if 0 <? kStep then None
      else
        match requestIds (matHalf tile), requestIds (vecHalf tile) with
        | [], [] => Some (negb (pending (requestId (matHalf tile)) s), negb (pending (requestId (vecHalf tile)) s))
        | ms, vs => Some (forallb (fun id => negb (pending id s)) ms, forallb (fun id => negb (pending id s)) vs)
        end
  end.

Definition getTileTimeline (id idx : Z) (s : t) : option (Z * Z * Z * Z) :=
  match find_tile id idx s with
  | None => None
  | Some x => Some (submitCycle x, doneCycle (matHalf x), doneCycle (vecHalf x), readyCycle x)
  end.

Definition isTransactionDone (id : Z) (s : t) : bool :=
  match workerWindowTxns_ s !! id with
  | None => false
  | Some st => forallb (fun x => tile_ready x s) (tiles st)
  end.

Definition retireTileReady (id idx : Z) : W unit := fun s =>
  match workerWindowTxns_ s !! id with
  | None => ret tt s
  | Some st =>
      match tiles st !! Z.to_nat idx with
      | None => ret tt s
      | Some tile =>
          (enqueueWindowTiles (st <| tiles := (tiles st).[idx := tile <| retired := true |>] |>) ;;
           update (fun s => s <| workerNeedsService_ := true |>)) s
      end
  end.

(** ** Messages to the manager *)

Definition stamp (m : RequestSchedulerMsg) : RequestSchedulerMsg :=
  m <| groupId := u8 (groupId_ c) |> <| m_workerSlot := u8 (workerSlot_ c) |> <| srcCoreId := u16 (coreId_ c) |>.

Definition done_msg (ids cycles : list Z) : RequestSchedulerMsg :=
  let first := default 0 (head ids) in
  (stamp (make DONE)) <| m_requestId := first |> <| m_targetNode := decodeTargetNode first |>
    <| batchCount := u16 (Z.of_nat (List.length ids)) |> <| batchRequestIds := ids |>
    <| pendingClearCycle := default 0 (head cycles) |> <| batchPendingClearCycles := cycles |>.

Definition flushDone (acc : Batch) : W unit :=
  match acc with [] => ret tt | _ => send (done_msg (map fst acc) (map snd acc)) end.
Definition flush_if_full (acc : Batch) : W Batch :=
  if doneBatchSize_ c <=? Z.of_nat (List.length acc) then flushDone acc ;; ret [] else ret acc.

Definition submit_msg (l : list Submit) : RequestSchedulerMsg :=
  let first := default (mkSubmit 0 0 0 0 0 0 0) (head l) in
  (stamp (make SUBMIT)) <| batchCount := u16 (Z.of_nat (List.length l)) |>
    <| batchRequestIds := map s_requestId l |> <| batchSrcAddrs := map s_srcAddr l |>
    <| batchDstAddrs := map s_dstAddr l |> <| batchBytes := map s_bytes l |>
    <| batchTargetNodes := map s_targetNode l |> <| batchCompletionFlagAddrs := map s_completionFlagAddr l |>
    <| batchCompletionValues := map s_completionValue l |>
    <| m_requestId := s_requestId first |> <| m_srcAddr := s_srcAddr first |> <| m_dstAddr := s_dstAddr first |>
    <| m_bytes := s_bytes first |> <| m_targetNode := s_targetNode first |>
    <| m_completionFlagAddr := s_completionFlagAddr first |> <| m_completionValue := s_completionValue first |>.

Definition submit_of (p : PendingTransfer) : Submit :=
  mkSubmit (SchedMsg.requestId p) (srcAddr p) (dstAddr p) (bytes p) (targetNode p)
    (completionFlagAddr p) (completionValue p).

Definition flushWorkerDirectSubmits : W unit := fun s =>
  match workerSubmitQ_ s with
  | [] => ret tt s
  | q =>
      let n := Z.to_nat (submitBatchSize_ c) in
      (update (fun s => s <| workerSubmitQ_ := drop n q |>) ;;
       send (submit_msg (map submit_of (take n q)))) s
  end.

(** ** Completed requests *)

Definition complete (id : Z) (s : t) : bool := negb (id =? 0) && negb (pending id s).

(** A half with a single request. *)
Definition done_first (h : Half) (acc : Batch) : W (Half * Batch) := fun s =>
  let id := (requestIds h).[0] in
  if ((doneSentKStep h).[0] =? 0) && complete id s
  then ret (h <| doneSentKStep := (doneSentKStep h).[0 := 1] |> <| doneSent := true |>
              <| doneCycle := lastTickCycle_ s |>, acc ++ [(id, lastTickCycle_ s)]) s
  else ret (h, acc) s.

(** The requests of a half one by one, as far as they have flags. *)
Fixpoint done_steps (ids flags : list Z) (acc : Batch) : W (list Z * Batch) :=
  match ids, flags with
  | id :: ids, flag :: flags =>
      if negb (flag =? 0) then
        let! r := done_steps ids flags acc in ret (flag :: fst r, snd r)
      else fun s =>
        let ok := complete id s in
        (let! acc := flush_if_full (if ok then acc ++ [(id, lastTickCycle_ s)] else acc) in
         let! r := done_steps ids flags acc in
         ret ((if ok then 1 else flag) :: fst r, snd r)) s
  | _, _ => ret (flags, acc)
  end.

Definition all_sent (flags : list Z) : bool := forallb (fun f => negb (f =? 0)) flags.

Definition done_half (h : Half) (acc : Batch) : W (Half * Batch) :=
  let! r := done_steps (requestIds h) (doneSentKStep h) acc in
  fun s =>
    let h := h <| doneSentKStep := fst r |> in
    let allDone := negb (bool_decide (fst r = [])) && all_sent (fst r) in
    ret (if negb (doneSent h) && allDone
         then h <| doneSent := true |> <| doneCycle := lastTickCycle_ s |> else h, snd r) s.

(** A half without a list of requests. *)
Definition done_single (h : Half) (acc : Batch) : W (Half * Batch) := fun s =>
  let ok := negb (doneSent h) && complete (requestId h) s in
  (let! acc := flush_if_full (if ok then acc ++ [(requestId h, lastTickCycle_ s)] else acc) in
   ret (if ok then h <| doneSent := true |> <| doneCycle := lastTickCycle_ s |> else h, acc)) s.

Definition one_each (tile : WorkerTileRequestState) : bool :=
  (List.length (requestIds (matHalf tile)) =? 1)%nat && (List.length (requestIds (vecHalf tile)) =? 1)%nat.
Definition none_each (tile : WorkerTileRequestState) : bool :=
  bool_decide (requestIds (matHalf tile) = []) && bool_decide (requestIds (vecHalf tile) = []).

Definition mark_ready (tile : WorkerTileRequestState) (s : t) : WorkerTileRequestState :=
  if (readyCycle tile =? 0) && doneSent (matHalf tile) && doneSent (vecHalf tile)
  then tile <| readyCycle := lastTickCycle_ s |> else tile.

Definition both (f g : Half -> Batch -> W (Half * Batch)) (tile : WorkerTileRequestState) (acc : Batch)
    : W (WorkerTileRequestState * Batch) :=
  let! m := f (matHalf tile) acc in
  let! v := g (vecHalf tile) (snd m) in
  ret (tile <| matHalf := fst m |> <| vecHalf := fst v |>, snd v).

Definition done_pair (tile : WorkerTileRequestState) (acc : Batch) : W (WorkerTileRequestState * Batch) :=
  let! r := both done_first done_first tile acc in
  let! acc := flush_if_full (snd r) in
  ret (fst r, acc).

Definition done_tile (tile : WorkerTileRequestState) (acc : Batch) : W (WorkerTileRequestState * Batch) :=
  let! r :=
    if one_each tile then done_pair tile acc
    else if none_each tile then both done_single done_single tile acc
    else both done_half done_half tile acc in
  fun s => ret (mark_ready (fst r) s, snd r) s.

Fixpoint each_tile (f : WorkerTileRequestState -> Batch -> W (WorkerTileRequestState * Batch))
    (l : list WorkerTileRequestState) (acc : Batch) : W (list WorkerTileRequestState * Batch) :=
  match l with
  | [] => ret ([], acc)
  | tile :: l =>
      let! r := f tile acc in
      let! rest := each_tile f l (snd r) in
      ret (fst r :: fst rest, snd rest)
  end.

Definition set_tiles (id : Z) (l : list WorkerTileRequestState) (s : t) : t :=
  s <| workerWindowTxns_ := alter (fun st => st <| tiles := l |>) id (workerWindowTxns_ s) |>.

Fixpoint done_windows (ids : list Z) (acc : Batch) : W Batch :=
  match ids with
  | [] => ret acc
  | id :: ids => fun s =>
      match workerWindowTxns_ s !! id with
      | None => done_windows ids acc s
      | Some st =>
          (let! r := each_tile done_tile (tiles st) acc in
           update (set_tiles id (fst r)) ;;
           done_windows ids (snd r)) s
      end
  end.

Definition flushWorkerDirectDones : W unit := fun s =>
  (let! acc := done_windows (walk (workerWindowTxns_ s)) [] in flushDone acc) s.

(** ** Retiring a window *)

Fixpoint queue_dones (ids flags : list Z) (acc : Batch) : W (list Z * Batch) :=
  match ids, flags with
  | id :: ids, flag :: flags => fun s =>
      if (id =? 0) || negb (flag =? 0) || pending id s then
        (let! r := queue_dones ids flags acc in ret (flag :: fst r, snd r)) s
      else
        (let! acc := flush_if_full (acc ++ [(id, lastTickCycle_ s)]) in
         let! r := queue_dones ids flags acc in ret (1 :: fst r, snd r)) s
  | _, _ => ret (flags, acc)
  end.

Definition last_steps (h : Half) (acc : Batch) : W (Half * Batch) :=
  let! r := queue_dones (requestIds h) (doneSentKStep h) acc in
  ret (h <| doneSentKStep := fst r |>, snd r).

Definition last_flag (h : Half) (acc : Batch) : W (Half * Batch) := fun s =>
  match requestIds h with
  | _ :: _ => ret (h <| doneSent := all_sent (doneSentKStep h) |>, acc) s
  | [] =>
      if complete (requestId h) s && negb (doneSent h) then
        (let! acc := flush_if_full (acc ++ [(requestId h, lastTickCycle_ s)]) in
         ret (h <| doneSent := true |>, acc)) s
      else ret (h, acc) s
  end.

Definition last_tile (tile : WorkerTileRequestState) (acc : Batch) : W (WorkerTileRequestState * Batch) :=
  if one_each tile then
    let! r := done_pair tile acc in
    fun s => ret (mark_ready (fst r) s, snd r) s
  else
    let! r := both last_steps last_steps tile acc in
    both last_flag last_flag (fst r) (snd r).

Definition flushDoneForWindowTransaction (st : WorkerWindowTxnState) : W unit :=
  let! r := each_tile last_tile (tiles st) [] in
  update (set_tiles (txnId st) (fst r)) ;;
  flushDone (snd r).

Definition retireTransaction (id : Z) : W unit := fun s =>
  match workerWindowTxns_ s !! id with
  | None => ret tt s
  | Some st =>
      (flushDoneForWindowTransaction st ;;
       update (fun s => s <| workerWindowTxns_ := delete id (workerWindowTxns_ s) |>
                          <| workerNeedsService_ := negb (bool_decide (workerSubmitQ_ s = [])) |>)) s
  end.

Fixpoint refill (ids : list Z) : W unit :=
  match ids with
  | [] => ret tt
  | id :: ids => fun s =>
      match workerWindowTxns_ s !! id with
      | None => refill ids s
      | Some st => (enqueueWindowTiles st ;; refill ids) s
      end
  end.
Definition refillWorkerWindows : W unit := fun s => refill (walk (workerWindowTxns_ s)) s.

(** ** The mailbox *)

Abbreviation SCHED_LOCAL_MAILBOX_BASE := 0x1A00.
Abbreviation SCHED_LOCAL_SUBMIT_HEAD_OFF := 0x00.
Abbreviation SCHED_LOCAL_SUBMIT_TAIL_OFF := 0x08.
Abbreviation SCHED_LOCAL_DONE_HEAD_OFF := 0x10.
Abbreviation SCHED_LOCAL_DONE_TAIL_OFF := 0x18.
Abbreviation SCHED_LOCAL_RING_DEPTH := 8.
Abbreviation SCHED_PAIR_SLOT_MARKER := 0xFE.

Definition submitEntryOff (ringIdx fieldOff : Z) : Z := 0x40 + (ringIdx mod SCHED_LOCAL_RING_DEPTH) * 0x30 + fieldOff.
Definition doneEntryOff (ringIdx : Z) : Z := 0x280 + (ringIdx mod SCHED_LOCAL_RING_DEPTH) * 0x08.

Definition mailboxAddr (off : Z) : Z := u64 (gmBaseAddr_ c + SCHED_LOCAL_MAILBOX_BASE + off).
Definition readMailbox (off : Z) : W Z := fun s =>
  match Storage.read_u64 (mailboxAddr off) (Dma.storage (gm s)) with
  | None => None
  | Some v => ret v s
  end.
Definition writeMailbox (off value : Z) : W unit := fun s =>
  match Dma.write_u64_to_storage (mailboxAddr off) value (gm s) with
  | None => None
  | Some (_, m) => update (fun s => s <| gm := m |>) s
  end.

Definition setup : W unit :=
  writeMailbox SCHED_LOCAL_SUBMIT_HEAD_OFF 0 ;; writeMailbox SCHED_LOCAL_SUBMIT_TAIL_OFF 0 ;;
  writeMailbox SCHED_LOCAL_DONE_HEAD_OFF 0 ;; writeMailbox SCHED_LOCAL_DONE_TAIL_OFF 0.

Definition flushSubmitBatch (acc : list Submit) : W unit :=
  match acc with [] => ret tt | _ => send (submit_msg acc) end.

Definition emit_submit (mailboxBytes : Z) (acc : list Submit) (id slot src dst : Z) : W (list Submit) :=
  let emitBytes := inferBytesForSlot c slot mailboxBytes in
  let! flag := ctrlGetReadFlagAddr slot in
  register id dst flag (u32 id) emitBytes ;;
  let acc := acc ++ [mkSubmit id src dst emitBytes (decodeTargetNode id) flag (u32 id)] in
  if submitBatchSize_ c <=? Z.of_nat (List.length acc) then flushSubmitBatch acc ;; ret [] else ret acc.

Definition pair_id (slot id : Z) : Z :=
  Z.lor (Z.lor (Z.lor (Z.shiftl (Z.land (coreId_ c) 0xff) 56) (Z.shiftl slot 48))
               (Z.shiftl (decodeTargetNode id) 32)) (u32 id).

Definition submit_entry (head : Z) (acc : list Submit) : W (list Submit) :=
  let! id := readMailbox (submitEntryOff head 0x00) in
  let! src := readMailbox (submitEntryOff head 0x08) in
  let! dst := readMailbox (submitEntryOff head 0x10) in
  let! bytes := readMailbox (submitEntryOff head 0x18) in
  if decodeRequestSlot id =? SCHED_PAIR_SLOT_MARKER then
    let! vecSrc := readMailbox (submitEntryOff head 0x20) in
    let! vecDst := readMailbox (submitEntryOff head 0x28) in
    let! acc := emit_submit (u32 bytes) acc (pair_id 0 id) 0 src dst in
    emit_submit (u32 bytes) acc (pair_id 1 id) 1 vecSrc vecDst
  else emit_submit (u32 bytes) acc id (decodeRequestSlot id) src dst.

(** The entries from [head] on, [n] of them. *)
Fixpoint submit_entries (n : nat) (head : Z) (acc : list Submit) : W (list Submit) :=
  match n with
  | O => ret acc
  | S n =>
      let! acc := submit_entry head acc in
      update (fun s => s <| submitSeen_ := true |>) ;;
      submit_entries n (head + 1) acc
  end.

Definition mailbox_done (acc : list Z) : W unit :=
  match acc with [] => ret tt | _ => send (done_msg acc []) end.

Fixpoint done_entries (n : nat) (head : Z) (acc : list Z) : W (list Z) :=
  match n with
  | O => ret acc
  | S n =>
      let! id := readMailbox (doneEntryOff head) in
      update (fun s => s <| doneSeen_ := true |>) ;;
      let acc := acc ++ [id] in
      let! acc := if doneBatchSize_ c <=? Z.of_nat (List.length acc)
                  then mailbox_done acc ;; ret [] else ret acc in
      done_entries n (head + 1) acc
  end.

(** The head of a ring after its entries, written back when it has moved. *)
Definition move_head (off head tail : Z) : W unit :=
  let head := Z.max head tail in
  let! old := readMailbox off in
  if negb (head =? old) then writeMailbox off head else ret tt.

Definition pollWorkerMailbox : W unit :=
  let! head := readMailbox SCHED_LOCAL_SUBMIT_HEAD_OFF in
  let! tail := readMailbox SCHED_LOCAL_SUBMIT_TAIL_OFF in
  let! acc := submit_entries (Z.to_nat (tail - head)) head [] in
  flushSubmitBatch acc ;;
  move_head SCHED_LOCAL_SUBMIT_HEAD_OFF head tail ;;
  let! head := readMailbox SCHED_LOCAL_DONE_HEAD_OFF in
  let! tail := readMailbox SCHED_LOCAL_DONE_TAIL_OFF in
  let! acc := done_entries (Z.to_nat (tail - head)) head [] in
  mailbox_done acc ;;
  move_head SCHED_LOCAL_DONE_HEAD_OFF head tail.

(** The part of a tick that serves the windows. *)
Definition serve_windows : W unit :=
  flushWorkerDirectSubmits ;;
  flushWorkerDirectDones ;;
  refillWorkerWindows ;;
  flushWorkerDirectSubmits ;;
  update (fun s => if bool_decide (workerSubmitQ_ s = []) then s else s <| workerNeedsService_ := true |>).

Definition tick (cycle : Z) : W unit := fun s =>
  (update (fun s => s <| lastTickCycle_ := cycle |>) ;;
   if eventDrivenWorker_ c && negb (workerNeedsService_ s) then ret tt
   else
     update (fun s => s <| workerNeedsService_ := false |>) ;;
     pollWorkerMailbox ;;
     serve_windows) s.

(** The callback the global memory runs when a read has completed. *)
Definition on_read_complete (s : t) : t :=
  if eventDrivenWorker_ c then s <| workerNeedsService_ := true |> else s.

End Worker.
End SchedWorker.
