(* ===== verification/SchedReads.v ===== *)
(** * Request scheduler: the reads of a worker

    Facts on [SchedWorker].  The requests of live windows without a DONE are the
    open ones ([open_ids]); each handler is described by what it takes from them
    and adds to the messages.  The theorems: panels submitted or queued are those
    reported and those open, a tick reports exactly the completed reads, which
    request ids of a window differ, and a wake-up that is lost when a window is
    retired. *)

From S2P Require Import Prelude Telemetry Cluster GroupMsg LocalMem Dma RemoteAccess Effects SchedMsg SchedManager SchedWorker.

Section WorkerFacts.
Import SchedMsg SchedWorker.
Local Open Scope sched_scope.

(** ** What the manager reads in the messages *)

Definition done_log (l : list RequestSchedulerMsg) : list Z :=
  concat (map (fun m => match type m with DONE => SchedManager.dones m | SUBMIT => [] end) l).
Definition submit_log (l : list RequestSchedulerMsg) : list Submit :=
  concat (map (fun m => match type m with SUBMIT => SchedManager.submits m | DONE => [] end) l).

Lemma done_log_app l l' : done_log (l ++ l') = done_log l ++ done_log l'.
Proof. unfold done_log. by rewrite map_app, concat_app. Qed.
Lemma submit_log_app l l' : submit_log (l ++ l') = submit_log l ++ submit_log l'.
Proof. unfold submit_log. by rewrite map_app, concat_app. Qed.

Variable c : Config.
Variable walk : gmap Z WorkerWindowTxnState -> list Z.

Lemma small_count {A} (l : list A) : Z.of_nat (List.length l) < 65536 -> u16 (Z.of_nat (List.length l)) = Z.of_nat (List.length l).
Proof. intros H. unfold u16. apply Z.mod_small. lia. Qed.

Lemma dones_done_msg ids cycles :
  ids <> [] -> Z.of_nat (List.length ids) < 65536 -> done_log [done_msg c ids cycles] = ids.
Proof.
  intros Hn Hl. unfold done_log. cbn [map concat]. rewrite app_nil_r. unfold done_msg, stamp.
  unfold SchedManager.dones. cbn. destruct ids as [|id ids]; [done|].
  rewrite small_count by done. rewrite (proj2 (Z.ltb_lt _ _)) by (cbn [List.length]; lia). by rewrite Nat2Z.id, take_ge.
Qed.

Lemma zip_batch_map l :
  SchedManager.zip_batch (map s_requestId l) (map s_srcAddr l) (map s_dstAddr l) (map s_bytes l) (map s_targetNode l)
    (map s_completionFlagAddr l) (map s_completionValue l) = l.
Proof. induction l as [|[] l IH]; [done|]. cbn. by rewrite IH. Qed.

Lemma submits_submit_msg l :
  l <> [] -> Z.of_nat (List.length l) < 65536 -> submit_log [submit_msg c l] = l.
Proof.
  intros Hn Hl. unfold submit_log. cbn [map concat]. rewrite app_nil_r. unfold submit_msg, stamp, SchedManager.submits. cbn.
  rewrite small_count by done. rewrite zip_batch_map. destruct l as [|x l]; [done|].
  rewrite (proj2 (Z.ltb_lt _ _)) by (cbn [List.length]; lia). by rewrite Nat2Z.id, take_ge.
Qed.

(** ** Open requests *)

Fixpoint unsent (ids flags : list Z) : list Z :=
  match ids, flags with
  | id :: ids, flag :: flags => (if flag =? 0 then [id] else []) ++ unsent ids flags
  | _, _ => []
  end.
Definition open_half (h : Half) : list Z := unsent (requestIds h) (doneSentKStep h).
Definition open_tile (x : WorkerTileRequestState) : list Z := open_half (matHalf x) ++ open_half (vecHalf x).
Definition open_tiles (l : list WorkerTileRequestState) : list Z := concat (map open_tile l).
Definition open_in (m : gmap Z WorkerWindowTxnState) : list Z :=
  concat (map (fun x => open_tiles (tiles (snd x))) (map_to_list m)).
Definition open_ids (s : t) : list Z := open_in (workerWindowTxns_ s).

Lemma open_split m id st :
  m !! id = Some st -> exists rest, open_in m ≡ₚ open_tiles (tiles st) ++ rest /\
    (forall st', open_in (<[id := st']> m) ≡ₚ open_tiles (tiles st') ++ rest) /\ open_in (delete id m) ≡ₚ rest.
Proof.
  intros H. exists (open_in (delete id m)).
  assert (forall st', open_in (<[id := st']> m) ≡ₚ open_tiles (tiles st') ++ open_in (delete id m)) as Hi.
  { intros st'. unfold open_in. rewrite <- insert_delete_eq. rewrite map_to_list_insert by apply lookup_delete_eq. done. }
  split_and!; [|done|done]. rewrite <- Hi. by rewrite insert_id.
Qed.
Lemma open_fresh m id st : m !! id = None -> open_in (<[id := st]> m) ≡ₚ open_tiles (tiles st) ++ open_in m.
Proof. intros H. unfold open_in. by rewrite map_to_list_insert. Qed.

(** A half whose requests all have a flag, and have an id that is not zero. *)
Record half_ok (h : Half) : Prop := {
  ho_flags : List.length (doneSentKStep h) = List.length (requestIds h);
  ho_ids : Forall (fun id => id <> 0) (requestIds h);
  ho_single : requestIds h = [] -> requestId h = 0
}.
Definition tile_ok (x : WorkerTileRequestState) : Prop :=
  issued x = true /\ half_ok (matHalf x) /\ half_ok (vecHalf x).

(** ** Batches of DONEs *)

Hypothesis done_batch : 1 <= doneBatchSize_ c < 65535.
Hypothesis submit_batch : 1 <= submitBatchSize_ c < 65536.

Definition told (log : list RequestSchedulerMsg) (acc : Batch) : list Z := done_log log ++ map fst acc.

Lemma flushDone_spec acc log s :
  Z.of_nat (List.length acc) < 65536 ->
  wp False (flushDone c acc) (fun _ log' s' => s' = s /\ done_log log' = told log acc /\ submit_log log' = submit_log log) log s.
Proof.
  intros H. unfold flushDone, told. destruct acc as [|x acc]; [apply wp_ret; by rewrite app_nil_r|].
  apply wp_send. rewrite done_log_app, submit_log_app. rewrite dones_done_msg; [|done|by rewrite length_map].
  split; [done|]. split; [done|]. cbn. by rewrite app_nil_r.
Qed.

Lemma flush_if_full_spec acc log s :
  Z.of_nat (List.length acc) < 65536 ->
  wp False (flush_if_full c acc) (fun acc' log' s' => s' = s /\ told log' acc' = told log acc /\ submit_log log' = submit_log log /\
    Z.of_nat (List.length acc') < doneBatchSize_ c) log s.
Proof.
  intros H. unfold flush_if_full. destruct (Z.leb_spec (doneBatchSize_ c) (Z.of_nat (List.length acc))); [|by apply wp_ret].
  apply wp_bind. eapply wp_mono; [by apply flushDone_spec|]. intros ? log' s' (-> & E1 & E2). apply wp_ret.
  split_and!; [done| |done|cbn; lia]. unfold told at 1. by rewrite app_nil_r.
Qed.

(** ** Reporting completed requests *)

(** Of the open requests [x] the completed ones are told, the others [x'] stay. *)
Definition reports (s : t) (x x' : list Z) (log : list RequestSchedulerMsg) (acc : Batch)
    (log' : list RequestSchedulerMsg) (acc' : Batch) : Prop :=
  exists new, told log' acc' = told log acc ++ new /\ submit_log log' = submit_log log /\ x ≡ₚ new ++ x' /\
    Forall (fun id => complete id s = true) new /\ Forall (fun id => complete id s = false) x'.

Lemma reports_app s x1 x1' x2 x2' log acc log1 acc1 log2 acc2 :
  reports s x1 x1' log acc log1 acc1 -> reports s x2 x2' log1 acc1 log2 acc2 ->
  reports s (x1 ++ x2) (x1' ++ x2') log acc log2 acc2.
Proof.
  intros (n1 & A1 & A2 & A3 & A4 & A5) (n2 & B1 & B2 & B3 & B4 & B5). exists (n1 ++ n2). split_and!.
  - by rewrite B1, A1, app_assoc.
  - by rewrite B2.
  - rewrite A3, B3. solve_Permutation.
  - by apply Forall_app.
  - by apply Forall_app.
Qed.
Lemma reports_same s x log acc log' acc' :
  Forall (fun id => complete id s = false) x -> told log' acc' = told log acc -> submit_log log' = submit_log log ->
  reports s x x log acc log' acc'.
Proof. intros H E1 E2. exists []. split_and!; [by rewrite app_nil_r|done|done|done|done]. Qed.
Lemma reports_flush s x x' log acc log1 acc1 log2 acc2 :
  reports s x x' log acc log1 acc1 -> told log2 acc2 = told log1 acc1 -> submit_log log2 = submit_log log1 ->
  reports s x x' log acc log2 acc2.
Proof. intros (n & A1 & A2 & A3) E1 E2. exists n. split_and!; [congruence|congruence|apply A3|apply A3|apply A3]. Qed.

Definition below (n : Z) (acc : Batch) : Prop := Z.of_nat (List.length acc) < n.
Definition batch : Z := doneBatchSize_ c.

(** An operation on a half that reports its completed requests. *)
Definition reporter (ok : Half -> Prop) (n n' : Z) (f : Half -> Batch -> W (Half * Batch)) : Prop :=
  forall h acc log s, half_ok h -> ok h -> below n acc ->
  wp False (f h acc) (fun r log' s' => s' = s /\ half_ok (fst r) /\ requestIds (fst r) = requestIds h /\
    reports s (open_half h) (open_half (fst r)) log acc log' (snd r) /\ below n' (snd r)) log s.

Lemma told_push log acc id cy : told log (acc ++ [(id, cy)]) = told log acc ++ [id].
Proof. unfold told. by rewrite map_app, app_assoc. Qed.
Lemma below_push n acc x : below n acc -> below (n + 1) (acc ++ [x]).
Proof. unfold below. rewrite length_app. cbn [List.length]. lia. Qed.

Lemma first_elem (x : Z) : [x].[0] = x.
Proof. done. Qed.
Lemma done_first_reporter n : reporter (fun h => List.length (requestIds h) = 1%nat) n (n + 1) (fun h acc => done_first h acc).
Proof.
  intros h acc log s H Hl Hb. unfold done_first. wp_state.
  destruct (((doneSentKStep h).[0] =? 0) && complete (requestIds h).[0] s) eqn:E; wp_fold; apply wp_ret; cbn [fst snd].
  all: destruct h as [r ids flags cy sent]; cbn in Hl, E; destruct ids as [|id [|]]; try done.
  all: destruct H as [H1 H2 H3]; cbn in H1; destruct flags as [|flag [|]]; try done; rewrite !first_elem in *.
  - apply andb_prop in E as [->%Z.eqb_eq E]. split_and!; [done|by constructor|done| |by apply below_push].
    exists [id]. split_and!; [apply told_push|done|done|by constructor|done].
  - split_and!; [done|by constructor|done| |unfold below in *; lia]. apply reports_same; [|done|done].
    unfold open_half. cbn. destruct (flag =? 0); [|done]. by constructor.
Qed.

Lemma done_steps_spec ids : forall flags acc log s, List.length flags = List.length ids -> Forall (fun id => id <> 0) ids -> below batch acc ->
  wp False (done_steps c ids flags acc) (fun r log' s' => s' = s /\ List.length (fst r) = List.length ids /\
    reports s (unsent ids flags) (unsent ids (fst r)) log acc log' (snd r) /\ below batch (snd r)) log s.
Proof.
  induction ids as [|id ids IH]; intros [|flag flags] acc log s Hl Hz Hb; try done; cbn [done_steps].
  { apply wp_ret. split_and!; [done|done|by apply reports_same|done]. }
  inversion Hz as [|?? Hid Hz']; subst. injection Hl as Hl. destruct (Z.eqb_spec flag 0) as [->|Hf]; cbn [negb].
  - wp_state. wp_fold. apply wp_bind. eapply wp_mono; [apply flush_if_full_spec|].
    { unfold below, batch in Hb. destruct (complete id s); rewrite ?length_app; cbn [List.length]; lia. }
    intros acc1 log1 s1 (-> & E1 & E2 & E3). apply wp_bind. eapply wp_mono; [by apply IH|].
    intros r log2 s2 (-> & L & R & B). apply wp_ret. cbn [fst snd unsent]. split_and!; [done|cbn; by rewrite L| |done].
    eapply reports_app; [|exact R]. destruct (complete id s) eqn:Ec; cbn.
    + rewrite told_push in E1. exists [id]. split_and!; [done|done|done|by constructor|done].
    + by apply reports_same; [constructor|..].
  - apply wp_bind. eapply wp_mono; [by apply IH|]. intros r log2 s2 (-> & L & R & B). apply wp_ret. cbn [fst snd unsent].
    split_and!; [done|cbn; by rewrite L| |done]. destruct (Z.eqb_spec flag 0); [done|]. exact R.
Qed.

Lemma done_half_reporter : reporter (fun _ => True) batch batch (done_half c).
Proof.
  intros h acc log s H _ Hb. unfold done_half. apply wp_bind.
  eapply wp_mono; [apply done_steps_spec; [apply H|apply H|done]|]. intros r log1 s1 (-> & L & R & B).
  wp_state. wp_fold. apply wp_ret. cbn [fst snd]. lazymatch goal with |- context [half_ok ?x] => set (h' := x) end.
  assert (requestIds h' = requestIds h /\ doneSentKStep h' = fst r /\ requestId h' = requestId h) as (E1 & E2 & E3).
  { unfold h'. by destruct (_ && _). }
  split_and!; [done| |done| |done].
  - constructor; rewrite ?E1, ?E2, ?E3; [done|apply H|apply H].
  - unfold open_half. by rewrite E1, E2.
Qed.

Lemma done_single_reporter : reporter (fun h => requestIds h = []) batch batch (done_single c).
Proof.
  intros h acc log s H He Hb. unfold done_single. wp_state. rewrite (ho_single _ H He). unfold complete. cbn [Z.eqb negb andb].
  rewrite andb_false_r. wp_fold. apply wp_bind. eapply wp_mono; [apply flush_if_full_spec; unfold below, batch in Hb; lia|].
  intros acc1 log1 s1 (-> & E1 & E2 & E3). apply wp_ret. cbn [fst snd]. split_and!; [done|done|done| |done].
  apply reports_same; [|done|done]. unfold open_half. rewrite He. by constructor.
Qed.

Lemma both_spec okf okg n n1 n2 f g tile acc log s :
  reporter okf n n1 f -> reporter okg n1 n2 g -> tile_ok tile -> okf (matHalf tile) -> okg (vecHalf tile) -> below n acc ->
  wp False (both f g tile acc) (fun r log' s' => s' = s /\ tile_ok (fst r) /\
    reports s (open_tile tile) (open_tile (fst r)) log acc log' (snd r) /\ below n2 (snd r)) log s.
Proof.
  intros Hf Hg (T1 & T2 & T3) Of Og Hb. unfold both. apply wp_bind. eapply wp_mono; [by apply Hf|].
  intros m log1 s1 (-> & M1 & _ & M3 & M4). apply wp_bind. eapply wp_mono; [by apply Hg|].
  intros v log2 s2 (-> & V1 & _ & V3 & V4). apply wp_ret. split_and!; [done|by split_and!| |done].
  by eapply reports_app.
Qed.

(** An operation on a tile that reports its completed requests. *)
Definition tile_reporter (f : WorkerTileRequestState -> Batch -> W (WorkerTileRequestState * Batch)) : Prop :=
  forall tile acc log s, tile_ok tile -> below batch acc ->
  wp False (f tile acc) (fun r log' s' => s' = s /\ tile_ok (fst r) /\
    reports s (open_tile tile) (open_tile (fst r)) log acc log' (snd r) /\ below batch (snd r)) log s.

Lemma pair_spec tile acc log s : tile_ok tile -> one_each tile = true -> below batch acc ->
  wp False (done_pair c tile acc)
    (fun r log' s' => s' = s /\ tile_ok (fst r) /\
       reports s (open_tile tile) (open_tile (fst r)) log acc log' (snd r) /\ below batch (snd r)) log s.
Proof.
  intros T H Hb. apply andb_prop in H as [H1 H2]. apply Nat.eqb_eq in H1, H2. unfold done_pair. apply wp_bind.
  eapply wp_mono; [eapply both_spec; [apply (done_first_reporter batch)|apply (done_first_reporter (batch + 1))|done|done|done|done]|].
  intros r log1 s1 (-> & R1 & R2 & R3). apply wp_bind.
  eapply wp_mono; [apply flush_if_full_spec; unfold below, batch in *; lia|]. intros acc1 log2 s2 (-> & E1 & E2 & E3). apply wp_ret.
  split_and!; [done|done|by eapply reports_flush|done].
Qed.

Lemma mark_ready_ok tile s : tile_ok tile -> tile_ok (mark_ready tile s) /\ open_tile (mark_ready tile s) = open_tile tile.
Proof. intros T. unfold mark_ready. by destruct (_ && _). Qed.

Lemma done_tile_reporter : tile_reporter (done_tile c).
Proof.
  intros tile acc log s T Hb. unfold done_tile. apply wp_bind. eapply (wp_mono _ _ (fun r log' s' => s' = s /\ tile_ok (fst r) /\
    reports s (open_tile tile) (open_tile (fst r)) log acc log' (snd r) /\ below batch (snd r))).
  - destruct (one_each tile) eqn:E1; [by apply pair_spec|]. destruct (none_each tile) eqn:E2.
    + apply andb_prop in E2 as [E2 E3]. apply bool_decide_eq_true in E2, E3.
      by eapply both_spec; [apply done_single_reporter|apply done_single_reporter|..].
    + by eapply both_spec; [apply done_half_reporter|apply done_half_reporter|..].
  - intros r log' s' (-> & R1 & R2 & R3). wp_state. wp_fold. apply wp_ret. cbn [fst snd].
    destruct (mark_ready_ok (fst r) s R1) as [M1 M2]. split_and!; [done|done|by rewrite M2|done].
Qed.

Lemma each_tile_spec f l : tile_reporter f -> forall acc log s, Forall tile_ok l -> below batch acc ->
  wp False (each_tile f l acc) (fun r log' s' => s' = s /\ Forall tile_ok (fst r) /\
    reports s (open_tiles l) (open_tiles (fst r)) log acc log' (snd r) /\ below batch (snd r)) log s.
Proof.
  intros Hf. induction l as [|tile l IH]; intros acc log s Hl Hb; cbn [each_tile].
  { apply wp_ret. split_and!; [done|done|by apply reports_same|done]. }
  inversion Hl as [|?? Ht Hl']; subst. apply wp_bind. eapply wp_mono; [by apply Hf|]. intros r log1 s1 (-> & R1 & R2 & R3).
  apply wp_bind. eapply wp_mono; [by apply IH|]. intros r2 log2 s2 (-> & S1 & S2 & S3). apply wp_ret.
  split_and!; [done|by constructor| |done]. by eapply reports_app.
Qed.

(** The same for a window that is retired. *)

Lemma queue_dones_spec ids : forall flags acc log s, List.length flags = List.length ids -> Forall (fun id => id <> 0) ids -> below batch acc ->
  wp False (queue_dones c ids flags acc) (fun r log' s' => s' = s /\ List.length (fst r) = List.length ids /\
    reports s (unsent ids flags) (unsent ids (fst r)) log acc log' (snd r) /\ below batch (snd r)) log s.
Proof.
  induction ids as [|id ids IH]; intros [|flag flags] acc log s Hl Hz Hb; try done; cbn [queue_dones].
  { apply wp_ret. split_and!; [done|done|by apply reports_same|done]. }
  inversion Hz as [|?? Hid Hz']; subst. injection Hl as Hl. wp_state.
  destruct ((id =? 0) || negb (flag =? 0) || pending id s) eqn:E; wp_fold.
  - apply wp_bind. eapply wp_mono; [by apply IH|]. intros r log2 s2 (-> & L & R & B). apply wp_ret. cbn [fst snd unsent].
    split_and!; [done|cbn; by rewrite L| |done]. eapply reports_app; [|exact R]. apply reports_same; [|done|done].
    destruct (flag =? 0); [|done]. constructor; [|done]. unfold complete. destruct (id =? 0); [done|]. cbn in E |- *. by rewrite E.
  - apply orb_false_iff in E as [[E1 E2]%orb_false_iff E3]. apply negb_false_iff in E2. apply wp_bind.
    eapply wp_mono; [apply flush_if_full_spec; unfold below, batch in Hb; rewrite length_app; cbn [List.length]; lia|].
    intros acc1 log1 s1 (-> & A1 & A2 & A3). apply wp_bind. eapply wp_mono; [by apply IH|].
    intros r log2 s2 (-> & L & R & B). apply wp_ret. cbn [fst snd unsent]. rewrite E2. split_and!; [done|cbn; by rewrite L| |done].
    eapply reports_app; [|exact R]. rewrite told_push in A1. exists [id]. split_and!; [done|done|done| |done].
    constructor; [|done]. unfold complete. by rewrite E1, E3.
Qed.

Lemma last_steps_reporter : reporter (fun _ => True) batch batch (last_steps c).
Proof.
  intros h acc log s H _ Hb. unfold last_steps. apply wp_bind.
  eapply wp_mono; [apply queue_dones_spec; [apply H|apply H|done]|]. intros r log1 s1 (-> & L & R & B).
  apply wp_ret. cbn [fst snd]. split_and!; [done| |done|done|done]. constructor; [done|apply H|apply H].
Qed.

Lemma last_flag_spec h acc log s : half_ok h -> Forall (fun id => complete id s = false) (open_half h) -> below batch acc ->
  wp False (last_flag c h acc) (fun r log' s' => s' = s /\ half_ok (fst r) /\ open_half (fst r) = open_half h /\
    log' = log /\ snd r = acc) log s.
Proof.
  intros H Hc Hb. unfold last_flag. wp_state. destruct (requestIds h) as [|id ids] eqn:E.
  - rewrite (ho_single _ H E). unfold complete. cbn [Z.eqb negb andb]. wp_fold. by apply wp_ret.
  - wp_fold. apply wp_ret. split_and!; try done. by destruct H.
Qed.

Lemma last_tile_reporter : tile_reporter (last_tile c).
Proof.
  intros tile acc log s T Hb. unfold last_tile. destruct (one_each tile) eqn:E1.
  - apply wp_bind. eapply wp_mono; [by apply pair_spec|]. intros r log' s' (-> & R1 & R2 & R3). wp_state. wp_fold. apply wp_ret. cbn [fst snd].
    destruct (mark_ready_ok (fst r) s R1) as [M1 M2]. split_and!; [done|done|by rewrite M2|done].
  - apply wp_bind. eapply wp_mono; [by eapply both_spec; [apply last_steps_reporter|apply last_steps_reporter|..]|].
    intros r log1 s1 (-> & R1 & R2 & R3). destruct R1 as (I1 & I2 & I3).
    assert (Forall (fun id => complete id s = false) (open_tile (fst r))) as [F1 F2]%Forall_app by (by destruct R2 as (? & _ & _ & _ & _ & ?)).
    unfold both. apply wp_bind. eapply wp_mono; [by apply last_flag_spec|]. intros m log2 s2 (-> & M1 & M2 & -> & M3).
    apply wp_bind. eapply wp_mono; [apply last_flag_spec; [done|done|by rewrite M3]|]. intros x log3 s3 (-> & V1 & V2 & -> & V3).
    apply wp_ret. cbn [fst snd]. rewrite V3, M3. split_and!; [done|by split_and!| |done].
    destruct r as [tile' acc']. cbn in *. unfold open_tile at 2. cbn. by rewrite M2, V2.
Qed.

(** ** All windows *)

Definition windows_ok (m : gmap Z WorkerWindowTxnState) : Prop :=
  map_Forall (fun id st => txnId st = id /\ Forall tile_ok (tiles st)) m.

(** Only the windows differ. *)
Definition frame (s s' : t) : Prop := s' = s <| workerWindowTxns_ := workerWindowTxns_ s' |>.
Lemma frame_trans s s1 s2 : frame s s1 -> frame s1 s2 -> frame s s2.
Proof. unfold frame. intros H1 H2. rewrite H2. rewrite H1 at 1. done. Qed.
Lemma frame_complete id s s' : frame s s' -> complete id s' = complete id s.
Proof. intros H. rewrite H. done. Qed.

Lemma frame_Forall b l s s' : frame s s' -> Forall (fun id => complete id s = b) l -> Forall (fun id => complete id s' = b) l.
Proof. intros F H. eapply Forall_impl; [exact H|]. intros x Hx. cbv beta. by rewrite (frame_complete x s s'). Qed.
Lemma frame_sym s s' : frame s s' -> frame s' s.
Proof. unfold frame. intros ->. by destruct s. Qed.

Definition settled (s : t) (id : Z) : Prop :=
  forall st, workerWindowTxns_ s !! id = Some st -> Forall (fun x => complete x s = false) (open_tiles (tiles st)).

Lemma done_windows_spec ids : forall acc log s, windows_ok (workerWindowTxns_ s) -> below batch acc ->
  wp False (done_windows c ids acc) (fun acc' log' s' => frame s s' /\ windows_ok (workerWindowTxns_ s') /\
    (exists new, told log' acc' = told log acc ++ new /\ open_ids s ≡ₚ new ++ open_ids s' /\ Forall (fun id => complete id s = true) new) /\
    submit_log log' = submit_log log /\ below batch acc' /\
    (forall id, settled s id \/ id ∈ ids -> settled s' id) /\
    (forall id, is_Some (workerWindowTxns_ s' !! id) <-> is_Some (workerWindowTxns_ s !! id))) log s.
Proof.
  induction ids as [|id ids IH]; intros acc log s Hw Hb; cbn [done_windows].
  { apply wp_ret. split_and!; try done; [by destruct s|exists []; split_and!; [by rewrite app_nil_r|done|done]|].
    intros id [H|H]; [done|by apply elem_of_nil in H]. }
  wp_state. destruct (workerWindowTxns_ s !! id) as [st|] eqn:E; wp_fold.
  2: { eapply wp_mono; [by apply IH|]. intros acc' log' s' (F & W & N & L & B & S & D). split_and!; try done.
       intros id' [H|[->|H]%elem_of_cons]; [apply S; by left| |apply S; by right].
       intros st Hst. destruct (proj1 (D id) ltac:(by eexists)) as [? ?]. congruence. }
  destruct (Hw id st E) as [T1 T2]. apply wp_bind. eapply wp_mono; [by apply each_tile_spec; [apply done_tile_reporter|..]|].
  intros r log1 s1 (-> & R1 & (new & R2 & R3 & R4 & R5 & R6) & R7). apply wp_bind, wp_update.
  set (s1 := set_tiles id (fst r) s). assert (workerWindowTxns_ s1 = <[id := st <| tiles := fst r |>]> (workerWindowTxns_ s)) as Em.
  { unfold s1, set_tiles. cbn. apply map_eq. intros k. destruct (decide (k = id)) as [->|Hk].
    - by rewrite lookup_alter_eq, E, lookup_insert_eq.
    - by rewrite lookup_alter_ne, lookup_insert_ne. }
  eapply wp_mono; [apply (IH (snd r) log1 s1); [|done]|].
  { rewrite Em. by apply map_Forall_insert_2. }
  intros acc' log' s' (F & W & (new' & N1 & N2 & N3) & L & B & S & D). assert (frame s s1) as F1 by by destruct s.
  destruct (open_split _ _ _ E) as (rest & O1 & O2 & _). split_and!; try done.
  - exists (new ++ new'). split_and!; [by rewrite N1, R2, app_assoc| |].
    + rewrite <- app_assoc, <- N2. unfold open_ids. rewrite O1, Em, O2, R4. cbn [tiles set_field]. solve_Permutation.
    + apply Forall_app. split; [done|]. by apply (frame_Forall _ _ s1), N3; apply frame_sym.
  - congruence.
  - intros id' H. apply S. destruct (decide (id' = id)) as [->|Hne].
    + left. intros st' Hst'. rewrite Em, lookup_insert_eq in Hst'. injection Hst' as <-. cbn.
      by apply (frame_Forall _ _ s).
    + destruct H as [H|[?|H]%elem_of_cons]; [|done|by right]. left. intros st' Hst'. rewrite Em, lookup_insert_ne in Hst' by done.
      by apply (frame_Forall _ _ s), H.
  - intros id'. rewrite D, Em. destruct (decide (id' = id)) as [->|Hne]; [rewrite lookup_insert_eq, E|by rewrite lookup_insert_ne].
    split; by eexists.
Qed.

(** ** Serving the windows *)

Hypothesis walk_all : forall m id, is_Some (m !! id) -> id ∈ walk m.

Lemma open_in_elem m x : x ∈ open_in m <-> exists id st, m !! id = Some st /\ x ∈ open_tiles (tiles st).
Proof.
  unfold open_in. rewrite list_elem_of_In, in_concat. split.
  - intros (l & Hl & Hx). apply in_map_iff in Hl as ([id st] & <- & Hm). apply list_elem_of_In, elem_of_map_to_list in Hm.
    exists id, st. split; [done|]. by apply list_elem_of_In.
  - intros (id & st & Hm & Hx). exists (open_tiles (tiles st)). split; [|by apply list_elem_of_In].
    apply in_map_iff. exists (id, st). split; [done|]. by apply list_elem_of_In, elem_of_map_to_list.
Qed.

Lemma flush_submits_spec log s :
  wp False (flushWorkerDirectSubmits c) (fun _ log' s' => exists q', s' = s <| workerSubmitQ_ := q' |> /\ done_log log' = done_log log /\
    submit_log log' ++ map submit_of q' = submit_log log ++ map submit_of (workerSubmitQ_ s)) log s.
Proof.
  unfold flushWorkerDirectSubmits. wp_state. destruct (workerSubmitQ_ s) as [|p q] eqn:E; wp_fold.
  { apply wp_ret. exists []. split_and!; [by destruct s; cbn in *; subst|done|done]. }
  set (n := Z.to_nat (submitBatchSize_ c)). apply wp_bind, wp_update, wp_send. exists (drop n (p :: q)).
  split; [done|]. rewrite done_log_app, submit_log_app, submits_submit_msg.
  - split; [by cbn; rewrite app_nil_r|]. rewrite <- app_assoc, <- map_app, take_drop. done.
  - destruct n eqn:En; [lia|done].
  - rewrite length_map, length_take. lia.
Qed.

Lemma enqueue_issued st : forall l i, Forall tile_ok l -> enqueue_tiles c st i l = ret l.
Proof.
  induction l as [|tile l IH]; intros i Hl; [done|]. inversion Hl as [|?? [Ht _] Hl']; subst.
  cbn [enqueue_tiles]. unfold enqueue_tile. rewrite Ht, IH by done. done.
Qed.

Lemma enqueue_window_idle id st log s (Q : unit -> list RequestSchedulerMsg -> t -> Prop) :
  Forall tile_ok (tiles st) -> workerWindowTxns_ s !! id = Some st -> txnId st = id ->
  Q tt log s -> wp False (enqueueWindowTiles c st) Q log s.
Proof.
  intros Ht Hst Hid H. unfold enqueueWindowTiles. rewrite enqueue_issued by done. apply wp_bind, wp_ret, wp_update.
  assert (st <| tiles := tiles st |> = st) as -> by by destruct st. rewrite Hid, insert_id by done. by destruct s.
Qed.

Lemma refill_idle ids log s (Q : unit -> list RequestSchedulerMsg -> t -> Prop) :
  windows_ok (workerWindowTxns_ s) -> Q tt log s -> wp False (refill c ids) Q log s.
Proof.
  intros Hw H. induction ids as [|id ids IH]; cbn [refill]; [by apply wp_ret|].
  wp_state. destruct (workerWindowTxns_ s !! id) as [st|] eqn:E; wp_fold; [|done].
  destruct (Hw id st E). apply wp_bind. by eapply enqueue_window_idle.
Qed.

(** What a service of the windows has done: completed requests are told, the
    others stay open, and submits have moved from the queue to the messages. *)
Record service (s : t) (log : list RequestSchedulerMsg) (s' : t) (log' : list RequestSchedulerMsg) : Prop := {
  sv_gm : gm s' = gm s;
  sv_next : nextWindowTxnId_ s' = nextWindowTxnId_ s;
  sv_keys : forall id, is_Some (workerWindowTxns_ s' !! id) -> is_Some (workerWindowTxns_ s !! id);
  sv_ok : windows_ok (workerWindowTxns_ s');
  sv_done : exists new, done_log log' = done_log log ++ new /\ open_ids s ≡ₚ new ++ open_ids s' /\
    Forall (fun id => complete id s = true) new;
  sv_submit : submit_log log' ++ map submit_of (workerSubmitQ_ s') = submit_log log ++ map submit_of (workerSubmitQ_ s)
}.

Lemma serve_windows_spec log s : windows_ok (workerWindowTxns_ s) ->
  wp False (serve_windows c walk) (fun _ log' s' => service s log s' log' /\ Forall (fun id => complete id s' = false) (open_ids s')) log s.
Proof.
  intros Hw. unfold serve_windows. apply wp_bind. eapply wp_mono; [apply flush_submits_spec|].
  intros ? log1 s1 (q1 & -> & D1 & S1). apply wp_bind. unfold flushWorkerDirectDones. wp_state. wp_fold. apply wp_bind.
  eapply wp_mono; [apply done_windows_spec; [done|unfold below, batch; cbn; lia]|].
  intros acc log2 s2 (F & W & (new & N1 & N2 & N3) & L & B & S & D).
  eapply wp_mono; [apply flushDone_spec; unfold below, batch in B; lia|]. intros ? log3 s3 (-> & E1 & E2).
  apply wp_bind. unfold refillWorkerWindows. wp_state. wp_fold. apply refill_idle; [done|].
  apply wp_bind. eapply wp_mono; [apply flush_submits_spec|]. intros ? log4 s4 (q2 & -> & D2 & S2). apply wp_update.
  lazymatch goal with |- service _ _ ?x _ /\ _ => set (s5 := x) end. assert (gm s5 = gm s /\ nextWindowTxnId_ s5 = nextWindowTxnId_ s /\
    workerWindowTxns_ s5 = workerWindowTxns_ s2 /\ workerSubmitQ_ s5 = q2) as (G1 & G2 & G3 & G4).
  { unfold s5. rewrite F. by destruct (bool_decide _). }
  assert (forall id, complete id s5 = complete id s) as Hc by (intros id; unfold complete, pending; by rewrite G1).
  split.
  - constructor; rewrite ?G3, ?G4; try done.
    + intros id. apply D.
    + exists new. split_and!; [|by unfold open_ids; rewrite G3|done].
      rewrite D2, E1, N1. unfold told. rewrite D1. cbn. by rewrite app_nil_r.
    + rewrite S2, E2, L. assert (workerSubmitQ_ s2 = q1) as -> by by rewrite F. exact S1.
  - apply Forall_forall. intros x Hx. rewrite Hc. unfold open_ids in Hx. rewrite G3 in Hx. apply open_in_elem in Hx as (id & st & Hst & Hx).
    assert (settled s2 id) as H. { apply S. right. apply walk_all. apply D. by eexists. }
    specialize (H st Hst). rewrite Forall_forall in H. specialize (H x Hx). by rewrite F in H.
Qed.

(** ** Retiring a window *)

Lemma unsent_subset ids : forall flags x, x ∈ unsent ids flags -> x ∈ ids.
Proof.
  induction ids as [|id ids IH]; intros [|f flags] x Hx; cbn in Hx; try (by apply elem_of_nil in Hx).
  apply elem_of_app in Hx as [Hx|Hx]; [|apply elem_of_cons; right; by eapply IH].
  destruct (f =? 0); [|by apply elem_of_nil in Hx]. apply list_elem_of_singleton in Hx as ->. by left.
Qed.

Lemma ready_complete tile s x : tile_ok tile -> tile_ready tile s = true -> x ∈ open_tile tile -> complete x s = true.
Proof.
  intros (_ & H1 & H2) Hr Hx. unfold tile_ready in Hr. unfold complete.
  assert (x ∈ requestIds (matHalf tile) ++ requestIds (vecHalf tile)) as Hi.
  { unfold open_tile in Hx. apply elem_of_app in Hx as [Hx|Hx]; apply elem_of_app; [left|right]; by eapply unsent_subset. }
  assert (x <> 0) as Hz.
  { pose proof (ho_ids _ H1) as I1. pose proof (ho_ids _ H2) as I2. rewrite Forall_forall in I1, I2.
    apply elem_of_app in Hi as [Hi|Hi]; auto. }
  rewrite (proj2 (Z.eqb_neq _ _) Hz). cbn.
  assert (forallb (fun id => negb (pending id s)) (requestIds (matHalf tile) ++ requestIds (vecHalf tile)) = true) as Hf.
  { rewrite forallb_app. by destruct (requestIds (matHalf tile)), (requestIds (vecHalf tile)). }
  rewrite forallb_forall in Hf. apply Hf. by apply list_elem_of_In.
Qed.

Lemma all_complete_empty s x x' new :
  (forall y, y ∈ x -> complete y s = true) -> x ≡ₚ new ++ x' -> Forall (fun y => complete y s = false) x' -> x' = [].
Proof.
  intros H P F. destruct x' as [|y x']; [done|]. inversion F as [|?? Fy _]; subst.
  rewrite H in Fy; [done|]. rewrite P. apply elem_of_app. right. by left.
Qed.

Lemma retireTransaction_spec id log s :
  windows_ok (workerWindowTxns_ s) -> isTransactionDone id s = true ->
  wp False (retireTransaction c id) (fun _ log' s' => service s log s' log' /\
    workerWindowTxns_ s' = delete id (workerWindowTxns_ s) /\ workerSubmitQ_ s' = workerSubmitQ_ s /\
    workerNeedsService_ s' = negb (bool_decide (workerSubmitQ_ s = []))) log s.
Proof.
  intros Hw Hd. unfold retireTransaction, isTransactionDone in *. wp_state. destruct (workerWindowTxns_ s !! id) as [st|] eqn:E; [|done].
  wp_fold. destruct (Hw id st E) as [T1 T2]. apply wp_bind. unfold flushDoneForWindowTransaction. apply wp_bind.
  eapply wp_mono; [apply each_tile_spec; [apply last_tile_reporter|done|unfold below, batch; cbn; lia]|].
  intros r log1 s1 (-> & R1 & (new & R2 & R3 & R4 & R5 & R6) & R7). apply wp_bind, wp_update.
  eapply wp_mono; [apply flushDone_spec; unfold below, batch in R7; lia|]. intros ? log2 s2 (-> & E1 & E2). apply wp_update.
  assert (open_tiles (fst r) = []) as Hnil.
  { eapply all_complete_empty; [|exact R4|exact R6]. intros y Hy. unfold open_tiles in Hy.
    rewrite list_elem_of_In, in_concat in Hy. destruct Hy as (l & Hl & Hy). apply in_map_iff in Hl as (tile & <- & Ht).
    rewrite forallb_forall in Hd. specialize (Hd tile Ht). rewrite Forall_forall in T2.
    eapply ready_complete; [|exact Hd|by apply list_elem_of_In]. apply T2. by apply list_elem_of_In. }
  rewrite Hnil, app_nil_r in R4. destruct (open_split _ _ _ E) as (rest & O1 & _ & O3).
  lazymatch goal with |- service _ _ ?x _ /\ _ => set (s3 := x) end.
  assert (workerWindowTxns_ s3 = delete id (workerWindowTxns_ s)) as G3.
  { unfold s3, set_tiles. cbn. rewrite T1. apply map_eq. intros k. destruct (decide (k = id)) as [->|Hk].
    - by rewrite !lookup_delete_eq.
    - by rewrite !lookup_delete_ne, lookup_alter_ne. }
  split_and!; [|done|done|done]. constructor; try done.
  - intros k. rewrite G3. destruct (decide (k = id)) as [->|Hk]; [by rewrite lookup_delete_eq; intros [? ?]|by rewrite lookup_delete_ne].
  - rewrite G3. by apply map_Forall_delete.
  - exists new. split_and!; [|unfold open_ids; by rewrite G3, O1, O3, R4|done]. rewrite E1, R2. unfold told. cbn. by rewrite app_nil_r.
  - rewrite E2, R3. done.
Qed.

(** ** A new window *)

(** Only the queue of submits has grown, by [new], whose reads are registered. *)
Record enqueued (s s' : t) (new : list PendingTransfer) : Prop := {
  en_queue : workerSubmitQ_ s' = workerSubmitQ_ s ++ new;
  en_windows : workerWindowTxns_ s' = workerWindowTxns_ s;
  en_next : nextWindowTxnId_ s' = nextWindowTxnId_ s;
  en_pending : forall id, pending id s' = true -> pending id s = true \/ id ∈ map SchedMsg.requestId new
}.
Lemma enqueued_refl s : enqueued s s [].
Proof. constructor; [by rewrite app_nil_r|done|done|by left]. Qed.
Lemma enqueued_trans s s1 s2 n1 n2 : enqueued s s1 n1 -> enqueued s1 s2 n2 -> enqueued s s2 (n1 ++ n2).
Proof.
  intros [] []. constructor; [by rewrite en_queue1, en_queue0, app_assoc|congruence|congruence|].
  intros id H. apply en_pending1 in H as [H|H]; [apply en_pending0 in H as [H|H]|]; [by left|..]; right; rewrite map_app; apply elem_of_app; auto.
Qed.

Lemma wp_flag slot (Q : Z -> list RequestSchedulerMsg -> t -> Prop) log s :
  (forall a, Q a log s) -> wp True (ctrlGetReadFlagAddr slot) Q log s.
Proof.
  intros H. unfold ctrlGetReadFlagAddr. wp_state. destruct (Dma.get_dma_flag_addrs _ _ _) as [[]|]; [|done]. wp_fold. by apply wp_ret.
Qed.
Lemma wp_register id dst flag v n (Q : unit -> list RequestSchedulerMsg -> t -> Prop) log s :
  (forall m, (forall x, Dma.ctrlIsReadRequestPending x m = true -> pending x s = true \/ x = id) -> Q tt log (s <| gm := m |>)) ->
  wp True (register id dst flag v n) Q log s.
Proof.
  intros H. unfold register. wp_state. unfold Dma.ctrlRegisterPendingReadRequest. destruct (id =? 0).
  - unfold Dma.skip. wp_fold. apply wp_update, H. by left.
  - unfold Dma.modify. wp_fold. apply wp_update, H. intros x Hx. unfold pending, Dma.ctrlIsReadRequestPending in *.
    apply bool_decide_eq_true in Hx as [y Hy]. cbn in Hy. destruct (decide (x = id)) as [->|Hne]; [by right|left].
    rewrite lookup_insert_ne in Hy by done. apply bool_decide_eq_true. by eexists.
Qed.

Lemma composed_nonzero slot node txn ordinal :
  is_u8 slot -> txn mod 2 ^ 20 <> 0 -> composeWindowRequestId (coreId_ c) slot node txn ordinal <> 0.
Proof.
  intros Hs Ht E. destruct (id_fields (coreId_ c) slot node txn ordinal Hs) as (_ & _ & _ & _ & H & _).
  rewrite E in H. change (id_window 0) with 0 in H. congruence.
Qed.

Definition panel_id (is_vec : bool) (txn : Z) (p : Panel) : Z :=
  composeWindowRequestId (coreId_ c) (slot_of is_vec) (p_node p) txn (p_ordinal p).
Definition panel_ids (is_vec : bool) (txn : Z) (ps : list Panel) : list Z :=
  map (panel_id is_vec txn) (filter (fun p => p_bytes p <> 0) ps).

Record half_grown (h h' : Half) (new : list PendingTransfer) : Prop := {
  hg_ok : half_ok h';
  hg_open : open_half h' = open_half h ++ map SchedMsg.requestId new
}.

Lemma unsent_app ids flags x : List.length flags = List.length ids -> unsent (ids ++ [x]) (flags ++ [0]) = unsent ids flags ++ [x].
Proof.
  revert flags. induction ids as [|id ids IH]; intros [|f flags] H; try done. cbn in *. rewrite IH by lia. by rewrite app_assoc.
Qed.

Lemma enqueuePanels_spec is_vec txn ps : txn mod 2 ^ 20 <> 0 -> forall h log s, half_ok h ->
  wp True (enqueuePanels c is_vec txn h ps) (fun h' log' s' => log' = log /\
    exists new, enqueued s s' new /\ half_grown h h' new /\ map SchedMsg.requestId new = panel_ids is_vec txn ps) log s.
Proof.
  intros Ht. induction ps as [|p ps IH]; intros h log s Hh; cbn [enqueuePanels].
  { apply wp_ret. split; [done|]. exists []. split; [apply enqueued_refl|]. split; [|done]. constructor; [done|by rewrite app_nil_r]. }
  apply wp_bind. unfold enqueuePanel, panel_ids. rewrite filter_cons. destruct (Z.eqb_spec (p_bytes p) 0) as [Hz|Hz].
  { rewrite decide_False by tauto. apply wp_ret. by apply IH. }
  rewrite decide_True by done.
  apply wp_bind, wp_flag. intros flag. apply wp_bind, wp_register. intros m Hm. apply wp_bind, wp_update, wp_ret.
  set (id := composeWindowRequestId _ _ _ _ _). set (h1 := h <| requestId := id |> <| requestIds := _ |> <| doneSentKStep := _ |>).
  set (x := mkTransfer _ _ _ _ _ _ _ _ _ _). set (s1 := _ <| workerSubmitQ_ := _ |>).
  assert (half_ok h1) as H1.
  { constructor; unfold h1; cbn.
    - rewrite !length_app. cbn. by rewrite (ho_flags _ Hh).
    - apply Forall_app. split; [apply Hh|]. constructor; [|done]. apply composed_nonzero; [|done]. unfold is_u8, slot_of. destruct is_vec; lia.
    - by intros [_ ?]%app_nil. }
  assert (enqueued s s1 [x]) as En.
  { constructor; try done. intros y Hy. destruct (Hm y Hy) as [?| ->]; [by left|right]. by left. }
  eapply wp_mono; [by apply IH|]. intros h2 log2 s2 (-> & new & E2 & G2 & I2). split; [done|]. exists (x :: new). split_and!.
  - by apply (enqueued_trans _ s1 _ [x]).
  - destruct G2 as [G1 G2]. constructor; [done|]. rewrite G2. unfold open_half at 1, h1. cbn.
    rewrite unsent_app by apply Hh. by rewrite <- app_assoc.
  - cbn. by rewrite I2.
Qed.

(** The ids of the requests of a tile, and of tiles from [i] on. *)
Definition half_ids (is_vec : bool) (txn : Z) (x : WcpWindowTransaction) (i : Z) : list Z :=
  let o := operand is_vec x in if valid x o i then panel_ids is_vec txn (panels c x o i) else [].
Definition tile_ids (txn : Z) (x : WcpWindowTransaction) (i : Z) : list Z := half_ids false txn x i ++ half_ids true txn x i.
Definition tiles_ids (txn : Z) (x : WcpWindowTransaction) (i n : Z) : list Z := concat (map (tile_ids txn x) (seqZ i n)).

Lemma enqueue_half_spec is_vec st i log s : txnId st mod 2 ^ 20 <> 0 ->
  wp True (enqueue_half c is_vec st i) (fun h log' s' => log' = log /\
    exists new, enqueued s s' new /\ half_ok h /\ open_half h = map SchedMsg.requestId new /\
      map SchedMsg.requestId new = half_ids is_vec (txnId st) (txn st) i) log s.
Proof.
  intros Ht. unfold enqueue_half. wp_state. wp_fold. eapply wp_mono; [apply enqueuePanels_spec; [done|by constructor]|].
  intros h log' s' (-> & new & E & [G1 G2] & I). split; [done|]. exists new. split_and!; [done|done|done|].
  rewrite I. unfold half_ids. by destruct (valid _ _ _).
Qed.

Definition pending_tile (x : WorkerTileRequestState) : Prop := issued x = false.

Lemma enqueue_tile_spec st i tile log s : txnId st mod 2 ^ 20 <> 0 -> pending_tile tile ->
  wp True (enqueue_tile c st i tile) (fun x log' s' => log' = log /\
    exists new, enqueued s s' new /\ tile_ok x /\ open_tile x = map SchedMsg.requestId new /\
      map SchedMsg.requestId new = tile_ids (txnId st) (txn st) i) log s.
Proof.
  intros Ht Hp. unfold enqueue_tile. rewrite Hp. apply wp_bind. eapply wp_mono; [by apply enqueue_half_spec|].
  intros m log1 s1 (-> & n1 & E1 & M1 & M2 & M3). apply wp_bind. eapply wp_mono; [by apply enqueue_half_spec|].
  intros v log2 s2 (-> & n2 & E2 & V1 & V2 & V3). wp_state. wp_fold. apply wp_ret. split; [done|]. exists (n1 ++ n2).
  split; [by eapply enqueued_trans|]. split; [by split_and!|]. rewrite map_app. unfold open_tile, tile_ids. cbn. by rewrite M2, V2, M3, V3.
Qed.

Lemma enqueue_tiles_spec st l : txnId st mod 2 ^ 20 <> 0 -> forall i log s, Forall pending_tile l ->
  wp True (enqueue_tiles c st i l) (fun l' log' s' => log' = log /\
    exists new, enqueued s s' new /\ Forall tile_ok l' /\ open_tiles l' = map SchedMsg.requestId new /\
      map SchedMsg.requestId new = tiles_ids (txnId st) (txn st) i (Z.of_nat (List.length l))) log s.
Proof.
  intros Ht. induction l as [|tile l IH]; intros i log s Hl; cbn [enqueue_tiles].
  { apply wp_ret. split; [done|]. exists []. by split_and!; [apply enqueued_refl|..]. }
  inversion Hl as [|?? H1 H2]; subst. apply wp_bind. eapply wp_mono; [by apply enqueue_tile_spec|].
  intros x log1 s1 (-> & n1 & E1 & M1 & M2 & M3). apply wp_bind. eapply wp_mono; [by apply IH|].
  intros l' log2 s2 (-> & n2 & E2 & V1 & V2 & V3). apply wp_ret. split; [done|]. exists (n1 ++ n2).
  split_and!; [by eapply enqueued_trans|by constructor|unfold open_tiles in *; cbn; by rewrite M2, V2, map_app|].
  rewrite map_app, M3, V3. unfold tiles_ids. cbn [List.length]. rewrite (seqZ_cons i) by lia. cbn [map concat].
  by replace (Z.pred (Z.of_nat (S (List.length l)))) with (Z.of_nat (List.length l)) by lia.
Qed.

(** A window is opened: its panels join the queue and its requests the open ones. *)
Record opened (s : t) (s' : t) (new : list PendingTransfer) : Prop := {
  op_queue : workerSubmitQ_ s' = workerSubmitQ_ s ++ new;
  op_next : nextWindowTxnId_ s' = nextWindowTxnId_ s + 1;
  op_keys : forall id, is_Some (workerWindowTxns_ s' !! id) -> is_Some (workerWindowTxns_ s !! id) \/ id = nextWindowTxnId_ s;
  op_ok : windows_ok (workerWindowTxns_ s');
  op_open : open_ids s' ≡ₚ map SchedMsg.requestId new ++ open_ids s;
  op_pending : forall id, pending id s' = true -> pending id s = true \/ id ∈ map SchedMsg.requestId new
}.

Lemma submitWindowTransaction_spec x log s :
  windows_ok (workerWindowTxns_ s) -> workerWindowTxns_ s !! nextWindowTxnId_ s = None -> 0 < nextWindowTxnId_ s < 2 ^ 20 ->
  wp True (submitWindowTransaction c x) (fun id log' s' => log' = log /\ id = nextWindowTxnId_ s /\
    exists new, opened s s' new /\ map SchedMsg.requestId new = tiles_ids (nextWindowTxnId_ s) x 0 (Z.max 0 (kTiles x))) log s.
Proof.
  intros Hw Hf Hn. unfold submitWindowTransaction. wp_state. wp_fold. set (id := nextWindowTxnId_ s) in *.
  set (st := mkTxn id x _). apply wp_bind, wp_update, wp_bind. set (s1 := _ <| workerWindowTxns_ := _ |>).
  unfold enqueueWindowTiles. apply wp_bind.
  eapply wp_mono; [apply (enqueue_tiles_spec st); [unfold st; cbn; rewrite Z.mod_small; lia|by apply Forall_replicate]|].
  intros l log1 s2 (-> & new & E & T1 & T2 & T3). apply wp_update, wp_bind, wp_update, wp_ret. split; [done|]. split; [done|]. exists new.
  split; [|rewrite T3; unfold st; cbn; rewrite length_replicate; f_equal; lia].
  assert (workerWindowTxns_ s2 = <[id := st]> (workerWindowTxns_ s)) as Em by by rewrite (en_windows _ _ _ E).
  lazymatch goal with |- opened _ ?x _ => set (s3 := x) end.
  assert (workerWindowTxns_ s3 = <[id := st <| tiles := l |>]> (workerWindowTxns_ s)) as G3.
  { unfold s3. cbn. rewrite Em. apply insert_insert_eq. }
  constructor.
  - apply (en_queue _ _ _ E).
  - unfold s3. cbn. rewrite (en_next _ _ _ E). unfold s1. cbn. apply u64_small. unfold is_u64. lia.
  - intros k. rewrite G3. destruct (decide (k = id)) as [->|Hk]; [by right|]. rewrite lookup_insert_ne by done. by left.
  - rewrite G3. apply map_Forall_insert_2; [|done]. done.
  - unfold open_ids. rewrite G3, open_fresh by done. change (tiles (st <| tiles := l |>)) with l. by rewrite T2.
  - intros k Hk. apply (en_pending _ _ _ E k Hk).
Qed.

(** ** The mailbox *)

(** The reads that are registered have been submitted, wait in [acc], or are in
    [known] already. *)
Definition backed (known : list Z) (acc : list Submit) (log : list RequestSchedulerMsg) (s : t) : Prop :=
  forall id, pending id s = true -> id ∈ known ++ map s_requestId (submit_log log ++ acc).

(** The windows stay as they are. *)
Definition untouched (s s' : t) : Prop :=
  workerSubmitQ_ s' = workerSubmitQ_ s /\ workerWindowTxns_ s' = workerWindowTxns_ s /\ nextWindowTxnId_ s' = nextWindowTxnId_ s.

Lemma wp_read off (Q : Z -> list RequestSchedulerMsg -> t -> Prop) log s :
  (forall v, Q v log s) -> wp True (readMailbox c off) Q log s.
Proof. intros H. unfold readMailbox. wp_state. destruct (Storage.read_u64 _ _); [|done]. wp_fold. by apply wp_ret. Qed.
Lemma wp_write off v (Q : unit -> list RequestSchedulerMsg -> t -> Prop) log s :
  (forall s', untouched s s' -> (forall id, pending id s' = pending id s) -> Q tt log s') -> wp True (writeMailbox c off v) Q log s.
Proof.
  intros H. unfold writeMailbox, Dma.write_u64_to_storage. wp_state. destruct (Storage.write_u64 _ _ _); [|done]. wp_fold. apply wp_update.
  by apply H.
Qed.

Lemma submit_batch_spec known acc log s :
  Z.of_nat (List.length acc) < 65536 -> backed known acc log s ->
  wp True (flushSubmitBatch c acc) (fun _ log' s' => s' = s /\ backed known [] log' s) log s.
Proof.
  intros Hl H. unfold flushSubmitBatch. destruct acc as [|x acc]; [by apply wp_ret|]. apply wp_send. split; [done|].
  intros id Hid. rewrite submit_log_app, submits_submit_msg by done. rewrite app_nil_r. by apply H.
Qed.

Lemma emit_submit_spec known b acc id slot src dst log s :
  backed known acc log s -> Z.of_nat (List.length acc) < submitBatchSize_ c ->
  wp True (emit_submit c b acc id slot src dst) (fun acc' log' s' => untouched s s' /\ backed known acc' log' s' /\
    Z.of_nat (List.length acc') < submitBatchSize_ c) log s.
Proof.
  intros H Hl. unfold emit_submit. apply wp_bind, wp_flag. intros flag. apply wp_bind, wp_register. intros m Hm.
  set (x := mkSubmit _ _ _ _ _ _ _). set (s1 := s <| gm := m |>). assert (backed known (acc ++ [x]) log s1) as H1.
  { intros y Hy. rewrite app_assoc, map_app, app_assoc. apply elem_of_app. destruct (Hm y Hy) as [Hp| ->]; [left; by apply H|right]. by left. }
  rewrite length_app. cbn [List.length].
  destruct (Z.leb_spec (submitBatchSize_ c) (Z.of_nat (List.length acc + 1))); [|apply wp_ret; split_and!; [done|done|rewrite length_app; cbn; lia]].
  apply wp_bind. eapply wp_mono; [apply submit_batch_spec; [rewrite length_app; cbn; lia|exact H1]|].
  intros ? log' s' [-> B]. apply wp_ret. split_and!; [done|done|cbn; lia].
Qed.

Lemma untouched_trans s s1 s2 : untouched s s1 -> untouched s1 s2 -> untouched s s2.
Proof. intros (A1 & A2 & A3) (B1 & B2 & B3). unfold untouched. split_and!; congruence. Qed.

Definition mailing (known : list Z) (s : t) (acc' : list Submit) (log' : list RequestSchedulerMsg) (s' : t) : Prop :=
  untouched s s' /\ backed known acc' log' s'.
Definition small (acc : list Submit) : Prop := Z.of_nat (List.length acc) < submitBatchSize_ c.

Lemma submit_entry_spec known head acc log s : backed known acc log s -> small acc ->
  wp True (submit_entry c head acc) (fun acc' log' s' => mailing known s acc' log' s' /\ small acc') log s.
Proof.
  intros H Hl. unfold submit_entry. do 4 (apply wp_bind, wp_read; intros ?). destruct (_ =? _).
  - do 2 (apply wp_bind, wp_read; intros ?). apply wp_bind. eapply wp_mono; [by apply emit_submit_spec|].
    intros acc1 log1 s1 (U1 & B1 & L1). eapply wp_mono; [by apply emit_submit_spec|]. intros acc2 log2 s2 (U2 & B2 & L2).
    split; [|done]. split; [by eapply untouched_trans|done].
  - eapply wp_mono; [by apply emit_submit_spec|]. intros acc1 log1 s1 (U1 & B1 & L1). done.
Qed.

Lemma submit_entries_spec known n : forall head acc log s, backed known acc log s -> small acc ->
  wp True (submit_entries c n head acc) (fun acc' log' s' => mailing known s acc' log' s' /\ small acc') log s.
Proof.
  induction n as [|n IH]; intros head acc log s H Hl; cbn [submit_entries]; [by apply wp_ret|].
  apply wp_bind. eapply wp_mono; [by apply submit_entry_spec|]. intros acc1 log1 s1 ((U1 & B1) & L1).
  apply wp_bind, wp_update. eapply wp_mono; [by apply (IH _ acc1 log1)|]. intros acc2 log2 s2 ((U2 & B2) & L2).
  split; [|done]. split; [|done]. eapply untouched_trans; [exact U1|]. exact U2.
Qed.

Lemma mailbox_done_spec known acc ids log s : backed known acc log s ->
  wp True (mailbox_done c ids) (fun _ log' s' => s' = s /\ backed known acc log' s) log s.
Proof.
  intros H. unfold mailbox_done. destruct ids as [|id ids]; [by apply wp_ret|]. apply wp_send. split; [done|].
  intros x Hx. rewrite submit_log_app. change (submit_log [done_msg c (id :: ids) []]) with (@nil Submit). rewrite app_nil_r. by apply H.
Qed.

Lemma done_entries_spec known n : forall head acc log s, backed known [] log s ->
  wp True (done_entries c n head acc) (fun _ log' s' => mailing known s [] log' s') log s.
Proof.
  induction n as [|n IH]; intros head acc log s H; cbn [done_entries]; [by apply wp_ret|].
  apply wp_bind, wp_read. intros id. apply wp_bind, wp_update, wp_bind.
  eapply (wp_mono _ _ (fun _ log' s' => s' = s <| doneSeen_ := true |> /\ backed known [] log' s')).
  - destruct (_ <=? _); [|by apply wp_ret]. apply wp_bind. eapply wp_mono; [by apply mailbox_done_spec|].
    intros ? log1 s1 [-> B]. by apply wp_ret.
  - intros acc1 log1 s1 [-> B]. eapply wp_mono; [by apply IH|]. intros ? log2 s2 [U2 B2]. by split.
Qed.

Lemma move_head_spec known off head tail log s : backed known [] log s ->
  wp True (move_head c off head tail) (fun _ log' s' => mailing known s [] log' s') log s.
Proof.
  intros H. unfold move_head. apply wp_bind, wp_read. intros old. destruct (negb _); [|by apply wp_ret].
  apply wp_write. intros s' U P. split; [done|]. intros id Hid. apply H. by rewrite <- P.
Qed.

Lemma poll_spec known log s : backed known [] log s ->
  wp True (pollWorkerMailbox c) (fun _ log' s' => mailing known s [] log' s') log s.
Proof.
  intros H. unfold pollWorkerMailbox. do 2 (apply wp_bind, wp_read; intros ?). apply wp_bind.
  eapply wp_mono; [apply (submit_entries_spec known); [done|unfold small; cbn; lia]|]. intros acc log1 s1 ((U1 & B1) & L1).
  apply wp_bind. eapply wp_mono; [apply (submit_batch_spec known); [unfold small in L1; lia|done]|]. intros ? log2 s2 [-> B2].
  apply wp_bind. eapply wp_mono; [by apply (move_head_spec known)|]. intros ? log3 s3 [U3 B3].
  do 2 (apply wp_bind, wp_read; intros ?). apply wp_bind. eapply wp_mono; [by apply (done_entries_spec known)|].
  intros ids log4 s4 [U4 B4]. apply wp_bind. eapply wp_mono; [by apply (mailbox_done_spec known)|]. intros ? log5 s5 [-> B5].
  eapply wp_mono; [by apply (move_head_spec known)|]. intros ? log6 s6 [U6 B6]. split; [|done].
  do 3 (eapply untouched_trans; [done|]). done.
Qed.

(** ** Histories *)

(** The worker with the messages it sent for the mailbox and for the windows. *)
Record World := mkWorld {
  wk : t;
  mail : list RequestSchedulerMsg;
  direct : list RequestSchedulerMsg
}.

(** Of the memory only the reads it waits for matter here. *)
Inductive Event :=
| OpenWindow (x : WcpWindowTransaction)
| TileReady (id idx : Z)
| RetireWindow (id : Z)
| Tick (cycle : Z)
| Memory (m : Dma.t) (completed : bool).

Definition asleep (s : t) : bool := eventDrivenWorker_ c && negb (workerNeedsService_ s).
Definition awake (cycle : Z) (s : t) : t := s <| lastTickCycle_ := cycle |> <| workerNeedsService_ := false |>.

(** How many of the messages of a tick come from the mailbox. *)
Definition mail_count (cycle : Z) (s : t) : nat :=
  if asleep s then O else
  match pollWorkerMailbox c (awake cycle s) with Some (_, (o, _)) => List.length o | None => O end.

Definition act {A} (m : W A) (w : World) : option World :=
  match m (wk w) with None => None | Some (_, (o, s')) => Some (mkWorld s' (mail w) (direct w ++ o)) end.

Definition react (w : World) (ev : Event) : option World :=
  match ev with
  | OpenWindow x => act (submitWindowTransaction c x) w
  | TileReady id idx => act (retireTileReady c id idx) w
  | RetireWindow id => act (retireTransaction c id) w
  | Tick cycle =>
      match tick c walk cycle (wk w) with
      | None => None
      | Some (_, (o, s')) =>
          let k := mail_count cycle (wk w) in
          Some (mkWorld s' (mail w ++ take k o) (direct w ++ drop k o))
      end
  | Memory m completed =>
      let s := (wk w) <| gm := m |> in
      Some (mkWorld (if completed then on_read_complete c s else s) (mail w) (direct w))
  end.

(** Windows are retired when they are done, and reads only complete. *)
Definition fits (w : World) (ev : Event) : Prop :=
  match ev with
  | OpenWindow _ => nextWindowTxnId_ (wk w) < 2 ^ 20
  | RetireWindow id => isTransactionDone id (wk w) = true
  | Memory m _ => forall id, Dma.ctrlIsReadRequestPending id m = true -> pending id (wk w) = true
  | _ => True
  end.

Inductive reaches (m : Dma.t) : World -> Prop :=
| reaches_begin : (forall id, Dma.ctrlIsReadRequestPending id m = false) -> reaches m (mkWorld (init m) [] [])
| reaches_step w ev w' : reaches m w -> fits w ev -> react w ev = Some w' -> reaches m w'.

Record good (w : World) : Prop := {
  g_ok : windows_ok (workerWindowTxns_ (wk w));
  g_keys : forall id, is_Some (workerWindowTxns_ (wk w) !! id) -> id < nextWindowTxnId_ (wk w);
  g_next : 0 < nextWindowTxnId_ (wk w);
  g_balance : map s_requestId (submit_log (direct w)) ++ map SchedMsg.requestId (workerSubmitQ_ (wk w))
    ≡ₚ done_log (direct w) ++ open_ids (wk w);
  g_backed : backed (map s_requestId (submit_log (mail w))) (map submit_of (workerSubmitQ_ (wk w))) (direct w) (wk w)
}.

Lemma begin_good m : (forall id, Dma.ctrlIsReadRequestPending id m = false) -> good (mkWorld (init m) [] []).
Proof.
  intros H. constructor; cbn; [by apply map_Forall_empty| |done|done|].
  - intros id. rewrite lookup_empty. by intros [? ?].
  - intros id Hid. unfold pending in Hid. cbn in Hid. by rewrite H in Hid.
Qed.

(** What is submitted or queued stays so. *)
Lemma service_good w s' log' :
  good w -> service (wk w) (direct w) s' log' -> good (mkWorld s' (mail w) log').
Proof.
  intros [] [V1 V2 V3 V4 (new & D1 & D2 & _) V6]. constructor; cbn [wk mail direct]; [done| |by rewrite V2| |].
  - intros id Hid. rewrite V2. auto.
  - assert (map s_requestId (submit_log log') ++ map SchedMsg.requestId (workerSubmitQ_ s') =
      map s_requestId (submit_log (direct w)) ++ map SchedMsg.requestId (workerSubmitQ_ (wk w))) as ->.
    { assert (forall q, map SchedMsg.requestId q = map s_requestId (map submit_of q)) as Eq by (intros q; by rewrite map_map).
      rewrite !Eq, <- !map_app. by rewrite V6. }
    rewrite g_balance0, D1, D2. by rewrite app_assoc.
  - intros id Hid. rewrite V6. apply g_backed0. unfold pending in *. by rewrite <- V1.
Qed.

Lemma tick_split cycle s : asleep s = false ->
  tick c walk cycle s =
    match pollWorkerMailbox c (awake cycle s) with
    | None => None
    | Some (_, (o1, s1)) =>
        match serve_windows c walk s1 with None => None | Some (_, (o2, s2)) => Some (tt, (o1 ++ o2, s2)) end
    end.
Proof.
  unfold asleep. intros H. unfold tick. rewrite H. unfold bind at 1 2, update at 1 2. change (_ <| workerNeedsService_ := false |>) with (awake cycle s).
  unfold bind. destruct (pollWorkerMailbox c (awake cycle s)) as [[[] [o1 s1]]|]; [|done].
  by destruct (serve_windows c walk s1) as [[[] [o2 s2]]|].
Qed.

(** After the mailbox has been served. *)
Definition polled (cycle : Z) (w : World) : option World :=
  match pollWorkerMailbox c (awake cycle (wk w)) with
  | None => None
  | Some (_, (o1, s1)) => Some (mkWorld s1 (mail w ++ o1) (direct w))
  end.
Lemma polled_good cycle w w1 : good w -> polled cycle w = Some w1 -> good w1.
Proof.
  intros [] H. unfold polled in H.
  pose proof (poll_spec (map s_requestId (submit_log (direct w) ++ map submit_of (workerSubmitQ_ (wk w)))) (mail w) (awake cycle (wk w))) as P.
  unfold wp in P. destruct (pollWorkerMailbox c _) as [[[] [o1 s1]]|]; [|done]. injection H as <-. destruct P as [(U1 & U2 & U3) B].
  { intros id Hid. rewrite app_nil_r. apply elem_of_app. specialize (g_backed0 id Hid). apply elem_of_app in g_backed0 as [?|?]; auto. }
  constructor; cbn [wk mail direct]; unfold open_ids; rewrite ?U1, ?U2, ?U3; try done.
  intros id Hid. specialize (B id Hid). rewrite app_nil_r in B. apply elem_of_app in B as [?|?]; apply elem_of_app; auto.
Qed.

Lemma open_tiles_insert l i x y : l !! i = Some x -> open_tile y = open_tile x -> open_tiles (<[i := y]> l) = open_tiles l.
Proof.
  intros H E. unfold open_tiles. f_equal. apply list_eq. intros j. rewrite !list_lookup_fmap.
  destruct (decide (i = j)) as [->|Hne]; [|by rewrite list_lookup_insert_ne].
  rewrite list_lookup_insert_eq by (by eapply lookup_lt_Some). rewrite H. cbn. by rewrite E.
Qed.

Lemma retireTileReady_spec id idx log s : windows_ok (workerWindowTxns_ s) ->
  wp False (retireTileReady c id idx) (fun _ log' s' => log' = log /\ service s log s' log') log s.
Proof.
  intros Hw. assert (forall n, service s log (s <| workerNeedsService_ := n |>) log) as Hid.
  { intros n. constructor; try done. exists []. split_and!; [by rewrite app_nil_r|done|done]. }
  assert (service s log s log) as Hs by (constructor; try done; exists []; split_and!; [by rewrite app_nil_r|done|done]).
  unfold retireTileReady. wp_state. destruct (workerWindowTxns_ s !! id) as [st|] eqn:E; [|by wp_fold; apply wp_ret].
  destruct (tiles st !! Z.to_nat idx) as [tile|] eqn:Et; wp_fold; [|by apply wp_ret]. destruct (Hw id st E) as [T1 T2].
  apply wp_bind. unfold enqueueWindowTiles. set (l := (tiles st).[idx := tile <| retired := true |>]).
  assert (Forall tile_ok l) as Hl.
  { apply Forall_insert; [done|]. rewrite Forall_lookup in T2. exact (T2 _ _ Et). }
  change (tiles (st <| tiles := l |>)) with l. rewrite enqueue_issued by done. apply wp_bind, wp_ret, wp_update, wp_update. split; [done|].
  change (txnId (st <| tiles := l |>)) with (txnId st). rewrite T1. set (st' := (st <| tiles := l |>) <| tiles := l |>).
  constructor; cbn; try done.
  - intros k. destruct (decide (k = id)) as [->|Hk]; [rewrite lookup_insert_eq, E; by eexists|by rewrite lookup_insert_ne].
  - by apply map_Forall_insert_2.
  - exists []. split_and!; [by rewrite app_nil_r| |done]. unfold open_ids. cbn. destruct (open_split _ _ _ E) as (rest & O1 & O2 & _).
    rewrite O1, O2. change (tiles st') with l. unfold l. by rewrite (open_tiles_insert _ _ tile).
Qed.

Lemma wp_act {A} F (m : W A) w w' Q :
  wp F m Q (direct w) (wk w) -> act m w = Some w' -> exists a, Q a (direct w') (wk w') /\ mail w' = mail w.
Proof. unfold wp, act. destruct (m (wk w)) as [[a [o s']]|]; [|done]. intros H [= <-]. by exists a. Qed.

Lemma worker_react_good w ev w' : good w -> fits w ev -> react w ev = Some w' -> good w'.
Proof.
  intros G Hf H. destruct w' as [s' ml' d']. destruct ev as [x|id idx|id|cycle|m b]; cbn [react fits] in *.
  - pose proof G as [G1 G2 G3 G4 G5].
    assert (workerWindowTxns_ (wk w) !! nextWindowTxnId_ (wk w) = None) as Hn.
    { destruct (_ !! _) eqn:E; [|done]. specialize (G2 _ ltac:(by eexists)). lia. }
    destruct (wp_act _ _ _ _ _ (submitWindowTransaction_spec x (direct w) (wk w) G1 Hn ltac:(lia)) H) as (? & (E1 & _ & new & [] & _) & E2).
    cbn in *. subst. constructor; cbn; [done| |lia| |].
    + intros k Hk. apply op_keys0 in Hk as [Hk| ->]; [specialize (G2 k Hk)|]; lia.
    + rewrite op_queue0, map_app, op_open0, app_assoc, G4. solve_Permutation.
    + intros k Hk. rewrite op_queue0. apply op_pending0 in Hk as [Hk|Hk].
      * specialize (G5 k Hk). rewrite !map_app, !elem_of_app in *. tauto.
      * rewrite !map_app, !elem_of_app, (map_map submit_of s_requestId new). cbn. tauto.
  - destruct (wp_act _ _ _ _ _ (retireTileReady_spec id idx (direct w) (wk w) (g_ok _ G)) H) as (? & (E1 & S) & E2). cbn in *. subst. by apply (service_good w).
  - destruct (wp_act _ _ _ _ _ (retireTransaction_spec id (direct w) (wk w) (g_ok _ G) Hf) H) as (? & (S & _) & E2). cbn in *. subst. by apply (service_good w).
  - unfold mail_count in H. destruct (asleep (wk w)) eqn:Ea.
    + unfold asleep in Ea. unfold tick in H. rewrite Ea in H. cbn in H. injection H as <- <- <-. rewrite !app_nil_r. by destruct G.
    + rewrite tick_split in H by done. pose proof (fun w1 => polled_good cycle w w1 G) as P. unfold polled in P.
      destruct (pollWorkerMailbox c _) as [[[] [o1 s1]]|]; [|done]. specialize (P _ eq_refl).
      pose proof (serve_windows_spec (direct w) s1 (g_ok _ P)) as V. unfold wp in V.
      destruct (serve_windows c walk s1) as [[[] [o2 s2]]|]; [|done]. injection H as <- <- <-.
      rewrite take_app_length, drop_app_length. destruct V as [V _]. exact (service_good _ _ _ P V).
  - assert (good (mkWorld ((wk w) <| gm := m |>) (mail w) (direct w))) as G1.
    { destruct G. constructor; try done. intros k Hk. apply g_backed0. by apply Hf. }
    injection H as <- <- <-. destruct b; [|done]. unfold on_read_complete. destruct (eventDrivenWorker_ c); [|done]. by destruct G1.
Qed.

Lemma worker_reaches_good m w : reaches m w -> good w.
Proof. induction 1 as [H|w ev w' R IH F H]; [by apply begin_good|by eapply worker_react_good]. Qed.

(** ** The ids of a window *)

(** The rows of the panels of a tile, and the ordinals they get. *)
Definition rows (x : WcpWindowTransaction) (o : Operand) : Z := if rowMajorPanels x then panelRows o else 1.
Definition ordinal (x : WcpWindowTransaction) (i row : Z) : Z := if rowMajorPanels x then i * 128 + row else i.
Definition narrow (x : WcpWindowTransaction) (n : Z) : Prop :=
  if rowMajorPanels x then n <= 32 /\ panelRows (mat x) <= 128 /\ panelRows (vec x) <= 128 else n <= 4096.

Definition panel_at (x : WcpWindowTransaction) (o : Operand) (i row : Z) : Panel :=
  if rowMajorPanels x then
    let rowBytes := u32 (blockK x * elemBytes x) in
    let src := u64 (src_base x o i + row * sourceRowStrideBytes o) in
    mkPanel src (u64 (dst_base x o i + row * rowBytes)) rowBytes (target_node c x src) (u32 (i * 128 + row))
  else mkPanel (src_base x o i) (dst_base x o i) (u32 (strideBytes o)) (target_node c x (src_base x o i)) i.
Lemma panels_at x o i : panels c x o i = map (panel_at x o i) (seqZ 0 (rows x o)).
Proof. unfold panels, panel_at, rows. by destruct (rowMajorPanels x). Qed.

Lemma slot_u8 is_vec : is_u8 (slot_of is_vec).
Proof. unfold is_u8, slot_of. destruct is_vec; lia. Qed.

Lemma panel_id_fields is_vec txn x i row n :
  narrow x n -> 0 <= i < n -> 0 <= row < rows x (operand is_vec x) ->
  decodeRequestSlot (panel_id is_vec txn (panel_at x (operand is_vec x) i row)) = slot_of is_vec /\
  id_ordinal (panel_id is_vec txn (panel_at x (operand is_vec x) i row)) = ordinal x i row.
Proof.
  intros Hn Hi Hr. unfold panel_id. destruct (id_fields (coreId_ c) (slot_of is_vec) (p_node (panel_at x (operand is_vec x) i row)) txn
    (p_ordinal (panel_at x (operand is_vec x) i row)) (slot_u8 is_vec)) as (_ & _ & H1 & _ & _ & H2).
  split; [done|]. rewrite H2. unfold narrow, rows, ordinal, panel_at, operand in *.
  destruct (rowMajorPanels x); cbn [p_ordinal]; [|apply Z.mod_small; lia].
  destruct is_vec; rewrite u32_small by (unfold is_u32; lia); apply Z.mod_small; lia.
Qed.

Lemma half_ids_elem is_vec txn x i n y :
  narrow x n -> 0 <= i < n -> y ∈ half_ids is_vec txn x i ->
  exists row, 0 <= row < rows x (operand is_vec x) /\ decodeRequestSlot y = slot_of is_vec /\ id_ordinal y = ordinal x i row.
Proof.
  intros Hn Hi Hy. unfold half_ids in Hy. destruct (valid _ _ _); [|by apply elem_of_nil in Hy].
  unfold panel_ids in Hy. apply list_elem_of_fmap in Hy as (p & -> & Hp). apply list_elem_of_filter in Hp as [_ Hp].
  rewrite panels_at in Hp. apply list_elem_of_fmap in Hp as (row & -> & Hr). apply elem_of_seqZ in Hr.
  exists row. split; [lia|]. eapply panel_id_fields; [done|done|lia].
Qed.

Lemma half_ids_NoDup is_vec txn x i n : narrow x n -> 0 <= i < n -> NoDup (half_ids is_vec txn x i).
Proof.
  intros Hn Hi. unfold half_ids. destruct (valid _ _ _); [|constructor]. unfold panel_ids. rewrite panels_at.
  assert (forall r r', 0 <= r < rows x (operand is_vec x) -> 0 <= r' < rows x (operand is_vec x) ->
    panel_id is_vec txn (panel_at x (operand is_vec x) i r) = panel_id is_vec txn (panel_at x (operand is_vec x) i r') -> r = r') as Hinj.
  { intros r r' Hr Hr' E. destruct (panel_id_fields is_vec txn x i r n Hn Hi Hr) as [_ H1].
    destruct (panel_id_fields is_vec txn x i r' n Hn Hi Hr') as [_ H2]. rewrite E, H2 in H1. unfold ordinal, rows in *.
    destruct (rowMajorPanels x); lia. }
  apply NoDup_fmap_2_strong.
  - intros p p' [_ Hp]%list_elem_of_filter [_ Hp']%list_elem_of_filter E.
    apply list_elem_of_fmap in Hp as (r & -> & Hr). apply list_elem_of_fmap in Hp' as (r' & -> & Hr').
    apply elem_of_seqZ in Hr, Hr'. f_equal. apply Hinj; [lia|lia|done].
  - apply NoDup_filter, NoDup_fmap_2_strong; [|apply NoDup_seqZ]. intros r r' Hr Hr' E. apply elem_of_seqZ in Hr, Hr'.
    apply Hinj; [lia|lia|by rewrite E].
Qed.

Lemma tile_ids_NoDup txn x i n : narrow x n -> 0 <= i < n -> NoDup (tile_ids txn x i).
Proof.
  intros Hn Hi. unfold tile_ids. apply NoDup_app. split_and!; [by eapply half_ids_NoDup| |by eapply half_ids_NoDup].
  intros y H1 H2. destruct (half_ids_elem _ _ _ _ _ _ Hn Hi H1) as (r1 & _ & S1 & _).
  destruct (half_ids_elem _ _ _ _ _ _ Hn Hi H2) as (r2 & _ & S2 & _). rewrite S1 in S2. done.
Qed.

Lemma tile_ids_ordinal txn x i n y : narrow x n -> 0 <= i < n -> y ∈ tile_ids txn x i ->
  i = if rowMajorPanels x then id_ordinal y / 128 else id_ordinal y.
Proof.
  intros Hn Hi Hy. assert (exists is_vec, y ∈ half_ids is_vec txn x i) as [is_vec Hv] by (apply elem_of_app in Hy as [?|?]; eauto).
  destruct (half_ids_elem _ _ _ _ _ _ Hn Hi Hv) as (r & Hr & _ & ->). unfold narrow, rows, ordinal, operand in *.
  destruct (rowMajorPanels x); [|done]. apply (Z.div_unique _ _ _ r); [|lia]. destruct is_vec; lia.
Qed.

Lemma tiles_ids_NoDup txn x n : narrow x n -> NoDup (tiles_ids txn x 0 n).
Proof.
  intros Hn. unfold tiles_ids. assert (forall l, concat (map (tile_ids txn x) l) = l ≫= tile_ids txn x) as ->.
  { intros l. induction l as [|i l IH]; [done|]. cbn. by rewrite IH. }
  apply NoDup_bind; [| |apply NoDup_seqZ].
  - intros i j y Hi Hj H1 H2. apply elem_of_seqZ in Hi, Hj.
    rewrite (tile_ids_ordinal txn x i n y Hn ltac:(lia) H1). by rewrite (tile_ids_ordinal txn x j n y Hn ltac:(lia) H2).
  - intros i Hi. apply elem_of_seqZ in Hi. eapply tile_ids_NoDup; [done|lia].
Qed.

(** ** Theorems *)

(** C8. In every history the requests of windows are accounted for: those
    submitted to the manager and those still queued are, one for one, those
    reported DONE and those open in live windows; so each is submitted once and
    reported at most once, and all of a window are reported when it is retired.
    And no read is awaited that has not been submitted or queued. *)
Theorem window_reads_reported_once m w :
  reaches m w ->
  map s_requestId (submit_log (direct w)) ++ map SchedMsg.requestId (workerSubmitQ_ (wk w))
    ≡ₚ done_log (direct w) ++ open_ids (wk w) /\
  (forall id, pending id (wk w) = true ->
    id ∈ map s_requestId (submit_log (mail w)) ++ map s_requestId (submit_log (direct w)) ++ map SchedMsg.requestId (workerSubmitQ_ (wk w))) /\
  (workerWindowTxns_ (wk w) = ∅ -> done_log (direct w) ≡ₚ
    map s_requestId (submit_log (direct w)) ++ map SchedMsg.requestId (workerSubmitQ_ (wk w))).
Proof.
  intros R. destruct (worker_reaches_good _ _ R) as [_ _ _ G4 G5]. split_and!; [done| |].
  - intros id Hid. specialize (G5 id Hid). by rewrite map_app, map_map in G5.
  - intros E. rewrite G4. unfold open_ids. rewrite E. unfold open_in. rewrite map_to_list_empty. cbn. by rewrite app_nil_r.
Qed.

(** A tick that finds work and whose mailbox can be read returns, reports DONE
    only for reads that have completed, and leaves no completed read of a live
    window unreported. *)
Theorem tick_reports_completed m w cycle o1 s1 :
  reaches m w -> asleep (wk w) = false -> pollWorkerMailbox c (awake cycle (wk w)) = Some (tt, (o1, s1)) ->
  exists o2 s', tick c walk cycle (wk w) = Some (tt, (o1 ++ o2, s')) /\
    Forall (fun id => pending id s' = false) (done_log o2) /\
    Forall (fun id => pending id s' = true) (open_ids s').
Proof.
  intros R Ha Hp. rewrite (tick_split cycle (wk w) Ha), Hp.
  assert (good (mkWorld s1 (mail w ++ o1) (direct w))) as G.
  { apply (polled_good cycle w); [by eapply worker_reaches_good|]. unfold polled. by rewrite Hp. }
  pose proof (serve_windows_spec [] s1 (g_ok _ G)) as V. unfold wp in V.
  destruct (serve_windows c walk s1) as [[[] [o2 s2]]|]; [|done]. cbn in V. destruct V as [[V1 _ _ V4 (new & D1 & _ & D3) _] V2].
  exists o2, s2. split_and!; [done| |].
  - rewrite D1. cbn. eapply Forall_impl; [exact D3|]. intros id Hid. unfold complete, pending in *. rewrite V1.
    apply andb_prop in Hid as [_ Hid]. by apply negb_true_iff in Hid.
  - rewrite Forall_forall in V2 |- *. intros id Hid. specialize (V2 id Hid). unfold complete in V2.
    assert (id <> 0) as Hz; [|by rewrite (proj2 (Z.eqb_neq _ _) Hz) in V2; apply negb_false_iff in V2].
    unfold open_ids in Hid. apply open_in_elem in Hid as (k & st & Hst & Hx). destruct (V4 k st Hst) as [_ T].
    unfold open_tiles in Hx. rewrite list_elem_of_In, in_concat in Hx. destruct Hx as (l & Hl & Hx).
    apply in_map_iff in Hl as (tile & <- & Ht). rewrite Forall_forall in T. destruct (T tile ltac:(by apply list_elem_of_In)) as (_ & H1 & H2).
    apply list_elem_of_In in Hx. unfold open_tile in Hx. apply elem_of_app in Hx as [Hx|Hx]; apply unsent_subset in Hx.
    + pose proof (ho_ids _ H1) as H. rewrite Forall_forall in H. auto.
    + pose proof (ho_ids _ H2) as H. rewrite Forall_forall in H. auto.
Qed.

(** The requests a window adds have different ids if it has at most 32 tiles
    of at most 128 rows (row-major panels) or 4096 tiles (others).  Beyond that a
    row of a tile has the id of the same row 32 tiles earlier when both lie on
    the same memory node, so the second read takes the place of the first. *)
Theorem window_ids_distinct m w x id o s' :
  reaches m w -> nextWindowTxnId_ (wk w) < 2 ^ 20 -> 0 <= kTiles x ->
  submitWindowTransaction c x (wk w) = Some (id, (o, s')) ->
  exists new, workerSubmitQ_ s' = workerSubmitQ_ (wk w) ++ new /\
    (narrow x (kTiles x) -> NoDup (map SchedMsg.requestId new)) /\
    (forall is_vec i row, rowMajorPanels x = true ->
      p_node (panel_at x (operand is_vec x) (i + 32) row) = p_node (panel_at x (operand is_vec x) i row) ->
      panel_id is_vec id (panel_at x (operand is_vec x) (i + 32) row) = panel_id is_vec id (panel_at x (operand is_vec x) i row)).
Proof.
  intros R Hn Hk H. destruct (worker_reaches_good _ _ R) as [G1 G2 G3 _ _].
  assert (workerWindowTxns_ (wk w) !! nextWindowTxnId_ (wk w) = None) as Hf.
  { destruct (_ !! _) eqn:E; [|done]. specialize (G2 _ ltac:(by eexists)). lia. }
  pose proof (submitWindowTransaction_spec x [] (wk w) G1 Hf ltac:(lia)) as V. unfold wp in V. rewrite H in V.
  destruct V as (_ & -> & new & O & I). rewrite Z.max_r in I by done. exists new. split_and!; [apply O| |].
  - intros Hx. rewrite I. by apply tiles_ids_NoDup.
  - intros is_vec i row Hr Hnode. unfold panel_id. rewrite Hnode. rewrite !compose_number by apply slot_u8. unfold id_number. f_equal.
    unfold panel_at. rewrite Hr. cbn [p_ordinal]. unfold u32.
    rewrite !(Z.mod_mod_divide _ (2 ^ 32) (2 ^ 12)) by (exists (2 ^ 20); lia).
    replace ((i + 32) * 128 + row) with (i * 128 + row + 1 * 2 ^ 12) by lia. by rewrite Z_mod_plus_full.
Qed.

(** Ticks in a row. *)
Fixpoint ticks (cycles : list Z) : W unit :=
  match cycles with [] => ret tt | cycle :: cycles => tick c walk cycle ;; ticks cycles end.

Lemma asleep_ticks cycles : forall s, asleep s = true ->
  exists s', ticks cycles s = Some (tt, ([], s')) /\ workerWindowTxns_ s' = workerWindowTxns_ s /\ gm s' = gm s.
Proof.
  induction cycles as [|cycle cycles IH]; intros s H; [by exists s|]. cbn [ticks]. unfold bind.
  assert (tick c walk cycle s = Some (tt, ([], s <| lastTickCycle_ := cycle |>))) as ->.
  { unfold asleep in H. unfold tick. by rewrite H. }
  assert (asleep (s <| lastTickCycle_ := cycle |>) = true) as H1 by exact H.
  destruct (IH _ H1) as (s' & E & E1 & E2). cbv beta iota. rewrite E. by exists s'.
Qed.

(** C39. In the event-driven mode, retiring a window while no submit is queued puts
    the worker to sleep even when reads of other windows have completed since
    the last tick: these stay open and no tick reports them, until some other
    read completes or a window is opened. *)
Theorem retire_loses_wakeup m w id cycles :
  reaches m w -> eventDrivenWorker_ c = true -> isTransactionDone id (wk w) = true -> workerSubmitQ_ (wk w) = [] ->
  exists o s' s'', retireTransaction c id (wk w) = Some (tt, (o, s')) /\ ticks cycles s' = Some (tt, ([], s'')) /\
    open_ids s'' = open_in (delete id (workerWindowTxns_ (wk w))) /\
    forall x, pending x s'' = pending x (wk w).
Proof.
  intros R Hv Hd Hq. pose proof (retireTransaction_spec id [] (wk w) (g_ok _ (worker_reaches_good _ _ R)) Hd) as V. unfold wp in V.
  destruct (retireTransaction c id (wk w)) as [[[] [o s']]|]; [|done]. destruct V as (V & E1 & E2 & E3).
  assert (asleep s' = true) as Ha. { unfold asleep. rewrite Hv, E3, Hq. done. }
  destruct (asleep_ticks cycles s' Ha) as (s'' & T & T1 & T2). exists o, s', s''. split_and!; [done|done| |].
  - unfold open_ids. by rewrite T1, E1.
  - intros x. unfold pending. by rewrite T2, (sv_gm _ _ _ _ V).
Qed.

End WorkerFacts.

(** ** Witnesses *)

Section WorkerDemo.
Import SchedMsg SchedWorker.

Definition demo_cfg : Config := corrected
  (mkConfig 1 0 0 64 2048 0 2 1 4 4 1 2 1 1 1 2 false true false 0 0 0x1000 (-1)).
Definition demo_walk (m : gmap Z WorkerWindowTxnState) : list Z := map fst (map_to_list m).
Definition demo_memory : Dma.t := Dma.init (LocalMem.init (Storage.mk 0x1000 (replicate (Z.to_nat 7424) 0))).

(** A window of one mat panel of 64 bytes, and one of two tiles of two rows. *)
Definition demo_operand : Operand := mkOperand 0x40000 0x1100 0x100 false 64 0 2 0x400 0x800.
Definition demo_none : Operand := mkOperand 0 0 0 true 0 0 0 0 0.
Definition demo_window : WcpWindowTransaction :=
  mkWindow 1 8 4 0x100000 demo_operand demo_none 2 false 0 0 false 0.
Definition demo_rows : WcpWindowTransaction :=
  mkWindow 2 8 4 0x100000 demo_operand demo_operand 2 false 0 0 true 0x20.

Lemma demo_walk_all (m : gmap Z WorkerWindowTxnState) id : is_Some (m !! id) -> id ∈ demo_walk m.
Proof.
  intros [st H]. unfold demo_walk. apply list_elem_of_fmap. exists (id, st). split; [done|]. by apply elem_of_map_to_list.
Qed.
Lemma demo_done_batch : 1 <= doneBatchSize_ demo_cfg < 65535.
Proof. vm_compute. split; congruence. Qed.
Lemma demo_submit_batch : 1 <= submitBatchSize_ demo_cfg < 65536.
Proof. vm_compute. split; congruence. Qed.

Local Abbreviation reaches_demo := (reaches demo_cfg demo_walk demo_memory).
Definition next (w : World) (ev : Event) : World := default w (react demo_cfg demo_walk w ev).
Lemma worker_reaches_next w ev :
  reaches_demo w -> fits w ev -> is_Some (react demo_cfg demo_walk w ev) -> reaches_demo (next w ev).
Proof. intros R F [w' E]. unfold next. rewrite E. by eapply reaches_step. Qed.

(** Two windows are opened and submitted; both reads complete. *)
Definition completed (s : t) : Dma.t := (gm s) <| Dma.request_pending := ∅ |>.
Local Abbreviation demo_w0 := (mkWorld (init demo_memory) [] []).
Local Abbreviation demo_w1 := (next demo_w0 (OpenWindow demo_window)).
Local Abbreviation demo_w2 := (next demo_w1 (OpenWindow demo_window)).
Local Abbreviation demo_w3 := (next demo_w2 (Tick 1)).
Local Abbreviation demo_w4 := (next demo_w3 (Memory (completed (wk demo_w3)) true)).

Lemma worker_demo_reaches0 : reaches_demo demo_w0.
Proof. apply reaches_begin. done. Qed.
Lemma worker_demo_reaches2 : reaches_demo demo_w2.
Proof.
  apply worker_reaches_next; [apply worker_reaches_next; [apply worker_demo_reaches0|by vm_compute|]|by vm_compute|]; vm_compute; eexists; reflexivity.
Qed.
Lemma worker_demo_reaches4 : reaches_demo demo_w4.
Proof.
  apply worker_reaches_next; [apply worker_reaches_next; [apply worker_demo_reaches2|done|]| |]; [vm_compute; eexists; reflexivity| |vm_compute; eexists; reflexivity].
  cbn [fits]. intros id H. by vm_compute in H.
Qed.

Lemma window_reads_reported_once_witness :
  List.length (done_log (direct demo_w4)) = 0%nat /\ List.length (open_ids (wk demo_w4)) = 2%nat /\
  map s_requestId (submit_log (direct demo_w4)) ++ map SchedMsg.requestId (workerSubmitQ_ (wk demo_w4))
    ≡ₚ done_log (direct demo_w4) ++ open_ids (wk demo_w4).
Proof.
  split; [by vm_compute|]. split; [by vm_compute|].
  exact (proj1 (window_reads_reported_once demo_cfg demo_walk demo_done_batch demo_submit_batch demo_walk_all demo_memory demo_w4 worker_demo_reaches4)).
Defined.

Lemma tick_reports_completed_witness :
  exists o2 s', tick demo_cfg demo_walk 2 (wk demo_w4) = Some (tt, ([] ++ o2, s')) /\
    Forall (fun id => pending id s' = false) (done_log o2) /\ Forall (fun id => pending id s' = true) (open_ids s').
Proof.
  exact (tick_reports_completed demo_cfg demo_walk demo_done_batch demo_submit_batch demo_walk_all demo_memory demo_w4 2 [] (awake 2 (wk demo_w4))
    worker_demo_reaches4 ltac:(by vm_compute) ltac:(vm_compute; reflexivity)).
Defined.

Lemma window_ids_distinct_witness :
  exists id o s' new, submitWindowTransaction demo_cfg demo_rows (wk demo_w2) = Some (id, (o, s')) /\
    workerSubmitQ_ s' = workerSubmitQ_ (wk demo_w2) ++ new /\ NoDup (map SchedMsg.requestId new).
Proof.
  destruct (submitWindowTransaction demo_cfg demo_rows (wk demo_w2)) as [[id [o s']]|] eqn:E; [|by vm_compute in E].
  destruct (window_ids_distinct demo_cfg demo_walk demo_done_batch demo_submit_batch demo_walk_all demo_memory demo_w2 demo_rows id o s' worker_demo_reaches2
    ltac:(by vm_compute) ltac:(by vm_compute) E) as (new & H1 & H2 & _).
  exists id, o, s', new. split; [reflexivity|]. split; [exact H1|]. apply H2. split_and!; vm_compute; congruence.
Defined.

(** The second window's read has completed, and is never reported. *)
Lemma retire_loses_wakeup_witness :
  workerNeedsService_ (wk demo_w4) = true /\
  exists o s' s'', retireTransaction demo_cfg 1 (wk demo_w4) = Some (tt, (o, s')) /\
    ticks demo_cfg demo_walk [2; 3; 4] s' = Some (tt, ([], s'')) /\
    exists id, open_ids s'' = [id] /\ pending id s'' = false.
Proof.
  split; [by vm_compute|].
  destruct (retire_loses_wakeup demo_cfg demo_walk demo_done_batch demo_submit_batch demo_walk_all demo_memory demo_w4 1 [2; 3; 4]
    worker_demo_reaches4 ltac:(by vm_compute) ltac:(by vm_compute) ltac:(by vm_compute)) as (o & s' & s'' & H1 & H2 & H3 & H4).
  exists o, s', s''. split; [exact H1|]. split; [exact H2|]. exists (composeWindowRequestId 1 0 0 2 0). rewrite H3, H4.
  split; by vm_compute.
Defined.

End WorkerDemo.
