(* ===== verification/MemNic.v ===== *)
(** * Memory node: the network interface

    Models the bridge that serves the cores' DMA at a memory node:
    memHierarchy/memNICBase.h (what concerns Golem) and memHierarchy/memNIC.cc.
    Reads arrive from the network, wait for admission under a budget of credits,
    are forwarded to the memory and answered in an order that depends on the
    configuration; reads of the same K/V chunk are coalesced and served from a
    cache.  Writes are forwarded at once and acknowledged.

    Computations are those of [Effects]; the effects are events for the memory,
    packets for the network and starts of the clock.  [link] tells whether the
    network accepts the [n]-th attempt to send, [names] is the order in which the
    hash map of endpoints is walked, [sort] is what [std::sort] returns.
    Statistics and traces are left out, and so are fields that only they use and
    the sets of endpoints that only initialization reads.

    The last section relates the ids the node reads to those of [SchedMsg]. *)

From S2P Require Import Prelude Telemetry Cluster GroupMsg LocalMem Dma Effects SchedMsg.
From stdpp Require Import strings pretty.
#[local] Open Scope Z_scope.
#[local] Open Scope mach_scope.

Module MemNic.
Import Net.

(** ** Data *)

Record Config := mkConfig {
  info_addr : Z;
  golem_network_num_vns_ : Z;
  golem_dma_response_vn : Z;
  golem_dma_write_response_vn : Z;
  golem_dma_response_priority_enable : bool;
  golem_dma_kv_coalesce_enable_ : bool;
  golem_dma_kv_multicast_bytes_per_cycle_ : Z;
  golem_dma_kv_expected_consumers_ : Z;
  golem_dma_response_drain_limit : Z;
  golem_dma_credit_cap_ : Z;
  golem_dma_credit_chunk_bytes_ : Z;
  golem_dma_admission_limit_ : Z;
  golem_dma_window_priority_enable_ : bool;
  golem_dma_window_reorder_cycles_ : Z;
  golem_dma_tile_chunk_quantum_ : Z;
  golem_dma_response_tile_priority_enable_ : bool;
  golem_dma_response_reorder_cycles_ : Z;
  golem_dma_response_max_starvation_cycles_ : Z;
  golem_dma_admission_max_starvation_cycles_ : Z;
  golem_dma_clock_factor_ : Z;
  packetHeaderBytes : Z
}.

(** The checks of [build]; [response_vn] and [write_vn] are absent if not given. *)
Definition build (response_vn write_vn : option Z) (c : Config) : option Config :=
  let num_vns := Z.max (golem_network_num_vns_ c) 1 in
  let response_vn := default (if 2 <=? num_vns then 1 else 0) response_vn in
  let write_vn := default (if 3 <=? num_vns then 2 else 0) write_vn in
  if num_vns <=? response_vn then None
  else if golem_dma_kv_coalesce_enable_ c &&
          ((golem_dma_kv_multicast_bytes_per_cycle_ c =? 0) || (golem_dma_kv_expected_consumers_ c =? 0)) then None
  else if num_vns <=? write_vn then None
  else if negb (golem_dma_credit_cap_ c =? 0) && (golem_dma_credit_chunk_bytes_ c =? 0) then None
  else Some (mkConfig (info_addr c) num_vns response_vn write_vn (golem_dma_response_priority_enable c)
    (golem_dma_kv_coalesce_enable_ c) (golem_dma_kv_multicast_bytes_per_cycle_ c)
    (golem_dma_kv_expected_consumers_ c) (golem_dma_response_drain_limit c) (golem_dma_credit_cap_ c)
    (golem_dma_credit_chunk_bytes_ c) (golem_dma_admission_limit_ c) (golem_dma_window_priority_enable_ c)
    (golem_dma_window_reorder_cycles_ c) (Z.max (golem_dma_tile_chunk_quantum_ c) 1)
    (golem_dma_response_tile_priority_enable_ c) (golem_dma_response_reorder_cycles_ c)
    (golem_dma_response_max_starvation_cycles_ c) (golem_dma_admission_max_starvation_cycles_ c)
    (Z.max (golem_dma_clock_factor_ c) 1) (packetHeaderBytes c)).

(** Where and how a read is answered. *)
Record GolemDmaKvSubscriber := mkSubscriber {
  sb_returnAddr : Z;
  sb_returnEndpoint : Z;
  sb_completionFlagAddr : Z;
  sb_completionValue : Z;
  sb_requestId : Z;
  sb_creditUnits : Z;
  sb_kind : DmaRequestKind;
  sb_consumer : DmaConsumerMetadata
}.

(** A request the memory works on. *)
Record GolemDmaBridgeInfo := mkInfo {
  in_sub : GolemDmaKvSubscriber;
  in_size : Z;
  isWrite : bool;
  hostAddr : Z;
  kvSubscribers : list GolemDmaKvSubscriber
}.
#[global] Instance eta_info : Eta GolemDmaBridgeInfo := fun x =>
  mkInfo (in_sub x) (in_size x) (isWrite x) (hostAddr x) (kvSubscribers x).

(** Address, size, job, K/V tile and operand. *)
Abbreviation GolemDmaKvCacheKey := (Z * Z * Z * Z * Z)%type.
Record GolemDmaKvCacheEntry := mkEntry { ce_data : list Z; servedConsumers : list Z }.

(** A read that waits for admission. *)
Record GolemDmaIngressRequest := mkIngress {
  arrivalCycle : Z;
  sourceEndpoint : Z;
  sourceName : string;
  ig_addr : Z;
  ig_size : Z;
  ig_sub : GolemDmaKvSubscriber
}.

(** A response that waits for the network. *)
Record GolemDmaResponseRequest := mkResponse {
  request : Request;
  readyCycle : Z;
  notBeforeCycle : Z;
  rs_requestId : Z;
  rs_returnAddr : Z;
  rs_creditUnits : Z;
  rs_consumer : DmaConsumerMetadata
}.

(** Job, worker, query tile and tile. *)
Abbreviation GolemDmaBundleKey := (Z * Z * Z * Z)%type.

(** Events of the memory hierarchy: a request of the bridge, and an event for the
    network with the event it answers and a number of its own. *)
Inductive Command := GetS (size : Z) | Write (data : list Z).
Record MemEvent := mkMemEvent { me_id : Z; me_src : string; me_addr : Z; me_cmd : Command }.
Record MemResponse := mkMemResponse { responseToID : Z; me_dst : string; me_payload : list Z; me_number : Z }.
Record OtherRequest := mkOtherRequest { or_dest : Z; or_size_in_bits : Z; or_number : Z }.

(** What arrives: a message of Golem, an event for the parent, and the late
    announcement of an endpoint. *)
Inductive Packet := Golem (src : Z) (ev : event) | Client (number : Z) | Announce (name : string).

Inductive effect :=
| ToMemory (ev : MemEvent)
| ToParent (number : Z)
| NetSend (r : Request)
| NetSendOther (r : OtherRequest)
| StartClock.

Record t := mk {
  networkAddressMap : gmap string Z;
  received : list (list Packet);
  golem_recv_vn_cursor_ : Z;
  golem_dma_credit_available_ : Z;
  golem_dma_worker_cursor_ : Z;
  golem_dma_bundle_active_ : bool;
  golem_dma_bundle_window_ : Z;
  golem_dma_bundle_worker_ : Z;
  golem_dma_bundle_tile_ : Z;
  golem_dma_bundle_admitted_ : Z;
  golem_dma_bundle_key_ : GolemDmaBundleKey;
  golem_dma_response_worker_cursor_ : Z;
  golem_dma_response_bundle_active_ : bool;
  golem_dma_response_bundle_key_ : GolemDmaBundleKey;
  golem_dma_response_bundle_sent_ : Z;
  golem_dma_consumer_progress_ : gmap (Z * Z) (Z * Z);
  golem_dma_response_pending_by_bundle_ : gmap GolemDmaBundleKey Z;
  golem_dma_ingress_queue_ : list GolemDmaIngressRequest;
  golem_dma_pending : list (Z * GolemDmaBridgeInfo);
  golem_dma_kv_cache_ : gmap GolemDmaKvCacheKey GolemDmaKvCacheEntry;
  golem_dma_send_queue_ : list GolemDmaResponseRequest;
  golem_dma_kv_multicast_next_cycle_ : Z;
  sendQueue : list OtherRequest;
  clockOn : bool;
  next_id : Z;
  attempts : Z
}.
#[global] Instance eta_t : Eta t := fun s =>
  mk (networkAddressMap s) (received s) (golem_recv_vn_cursor_ s) (golem_dma_credit_available_ s)
    (golem_dma_worker_cursor_ s) (golem_dma_bundle_active_ s) (golem_dma_bundle_window_ s)
    (golem_dma_bundle_worker_ s) (golem_dma_bundle_tile_ s) (golem_dma_bundle_admitted_ s)
    (golem_dma_bundle_key_ s) (golem_dma_response_worker_cursor_ s) (golem_dma_response_bundle_active_ s)
    (golem_dma_response_bundle_key_ s) (golem_dma_response_bundle_sent_ s) (golem_dma_consumer_progress_ s)
    (golem_dma_response_pending_by_bundle_ s) (golem_dma_ingress_queue_ s) (golem_dma_pending s)
    (golem_dma_kv_cache_ s) (golem_dma_send_queue_ s) (golem_dma_kv_multicast_next_cycle_ s) (sendQueue s)
    (clockOn s) (next_id s) (attempts s).

Definition init (c : Config) (endpoints : gmap string Z) : t :=
  mk endpoints (replicate (Z.to_nat (golem_network_num_vns_ c)) []) 0 (golem_dma_credit_cap_ c) 0 false 0 0 0 0
    (0, 0, 0, 0) 0 false (0, 0, 0, 0) 0 ∅ ∅ [] [] ∅ [] 0 [] true 0 0.

Abbreviation M := (Effects.M t effect).
#[local] Open Scope sched_scope.

(** ** Lexicographic choice *)

(** [operator<] of [std::tie]. *)
Fixpoint tie_lt (a b : list Z) : bool :=
  match a, b with
  | x :: a, y :: b => (x <? y) || ((x =? y) && tie_lt a b)
  | _, _ => false
  end.

(** The position of the entry that [ok] admits and whose key is least; the first
    of several. *)
Fixpoint choose {A} (ok : A -> bool) (key : A -> list Z) (idx : nat) (chosen : option (nat * A)) (l : list A)
    : option (nat * A) :=
  match l with
  | [] => chosen
  | x :: l =>
      choose ok key (S idx)
        (if ok x && match chosen with None => true | Some (_, y) => tie_lt (key x) (key y) end
         then Some (idx, x) else chosen) l
  end.

(** ** Request ids and consumers *)

Definition golemDmaWorkerId (requestId : Z) : Z := u8 (Z.land (Z.shiftr requestId 56) 0xff).
Definition golemDmaWindowId (requestId : Z) : Z := u32 (Z.shiftr (Z.land requestId 0xffffffff) 8).
Definition golemDmaRequestSlot (requestId : Z) : Z := u8 (Z.land (Z.shiftr requestId 48) 0xff).
Definition golemDmaTileIndex (requestId : Z) : Z := u8 (Z.land requestId 0xff).

Definition golemDmaBundleKey (requestId : Z) (consumer : DmaConsumerMetadata) : GolemDmaBundleKey :=
  if valid consumer =? 0
  then (0, golemDmaWorkerId requestId, golemDmaWindowId requestId, golemDmaTileIndex requestId)
  else (jobId consumer, worker consumer, targetQueryTile consumer, targetKvTileIndex consumer).

Definition golemDmaKvConsumerId (consumer : DmaConsumerMetadata) : Z :=
  Z.lor (Z.shiftl (worker consumer) 32) (targetQueryTile consumer).

Definition updateGolemDmaConsumerProgress (consumer : DmaConsumerMetadata) (s : t) : t :=
  if valid consumer =? 0 then s
  else
    let k := (jobId consumer, worker consumer) in
    let '(queryTileIndex, tile) := default (0, 0) (golem_dma_consumer_progress_ s !! k) in
    s <| golem_dma_consumer_progress_ :=
      <[k := if tie_lt [queryTileIndex; tile] [consumerQueryTile consumer; consumerKvTileIndex consumer]
             then (consumerQueryTile consumer, consumerKvTileIndex consumer) else (queryTileIndex, tile)]>
      (golem_dma_consumer_progress_ s) |>.

Definition golemDmaConsumerDistance (consumer : DmaConsumerMetadata) (s : t) : Z :=
  if valid consumer =? 0 then 3
  else
    let '(queryTileIndex, tile) :=
      default (consumerQueryTile consumer, consumerKvTileIndex consumer)
        (golem_dma_consumer_progress_ s !! (jobId consumer, worker consumer)) in
    if targetQueryTile consumer <? queryTileIndex then 0
    else if queryTileIndex <? targetQueryTile consumer then 3
    else if targetKvTileIndex consumer <=? tile then 0
    else Z.min (targetKvTileIndex consumer - tile) 3.

Definition isGolemAttentionKvRead (kind : DmaRequestKind) (consumer : DmaConsumerMetadata) : bool :=
  negb (valid consumer =? 0) &&
  match kind with AttentionKv | AttentionKvPrefetch => true | _ => false end &&
  match operand consumer with OpAttentionK | OpAttentionV => true | OpUnknown => false end.

Definition operand_code (o : DmaOperand) : Z :=
  match o with OpUnknown => 0 | OpAttentionK => 1 | OpAttentionV => 2 end.
Definition golemDmaKvCacheKey (hostAddr size : Z) (consumer : DmaConsumerMetadata) : GolemDmaKvCacheKey :=
  (hostAddr, size, jobId consumer, targetKvTileIndex consumer, operand_code (operand consumer)).

(** ** Endpoints *)

Definition lookupNetworkAddress (dst : string) : M Z := fun s =>
  match networkAddressMap s !! dst with Some a => ret a s | None => None end.

(** The endpoint a response goes to: the one asked for, or that of [name]. *)
Definition response_dest (returnEndpoint : Z) (name : string) : M Z :=
  if 0 <=? returnEndpoint then ret returnEndpoint else lookupNetworkAddress name.

Section Bridge.
Variable c : Config.
Variable link : Z -> bool.
Variable names : gmap string Z -> list string.
Variable sort : list GolemDmaIngressRequest -> list GolemDmaIngressRequest.

(** An attempt to send: whether the network takes the message. *)
Definition link_send (o : effect) : M bool := fun s =>
  let sent := link (attempts s) in
  Some (sent, (if sent then [o] else [], s <| attempts := attempts s + 1 |>)).

Definition golemDmaResponseNowCycle (now : Z) : Z := now / golem_dma_clock_factor_ c.

(** ** Credits *)

Definition golemDmaCreditUnits (bytes : Z) : Z :=
  let chunk := Z.max (golem_dma_credit_chunk_bytes_ c) 1 in
  Z.max 1 ((bytes ⊞₃₂ chunk ⊟₃₂ 1) / chunk).

Definition releaseGolemDmaCredits (creditUnits : Z) : M unit := fun s =>
  if creditUnits =? 0 then ret tt s
  else if golem_dma_credit_cap_ c ⊟₃₂ golem_dma_credit_available_ s <? creditUnits then None
  else update (fun s => s <| golem_dma_credit_available_ := golem_dma_credit_available_ s ⊞₃₂ creditUnits |>) s.

Definition affordable (s : t) (ingress : GolemDmaIngressRequest) : bool :=
  sb_creditUnits (ig_sub ingress) <=? golem_dma_credit_available_ s.

(** ** Responses *)

Definition read_complete (sub : GolemDmaKvSubscriber) (data : list Z) : event :=
  mkEvent DMA_READ_COMPLETE (sb_returnAddr sub) (Z.of_nat (List.length data)) data (sb_returnAddr sub)
    (sb_returnEndpoint sub) (sb_completionFlagAddr sub) (sb_completionValue sub) (sb_requestId sub)
    (sb_kind sub) (sb_consumer sub) 0.
Definition write_complete (info : GolemDmaBridgeInfo) : event :=
  mkEvent DMA_WRITE_COMPLETE (hostAddr info) (in_size info) [] 0 (-1) 0 0 (sb_requestId (in_sub info))
    (sb_kind (in_sub info)) no_consumer 0.

(** A response of the shared tree: only its metadata is injected. *)
Definition branch (dest ready notBefore : Z) (sub : GolemDmaKvSubscriber) (data : list Z) : GolemDmaResponseRequest :=
  mkResponse (mkRequest (info_addr c) dest (golem_dma_response_vn c) ((8 + 8) * 8) (read_complete sub data) None)
    ready notBefore (sb_requestId sub) (sb_returnAddr sub) (sb_creditUnits sub) (sb_consumer sub).
Definition enqueue_response (r : GolemDmaResponseRequest) : M unit :=
  update (fun s => s <| golem_dma_send_queue_ := golem_dma_send_queue_ s ++ [r] |>).

(** ** Shared K/V chunks *)

Definition add_consumer (served : list Z) (consumer : DmaConsumerMetadata) : list Z :=
  let consumerId := golemDmaKvConsumerId consumer in
  if bool_decide (consumerId ∈ served) then served else served ++ [consumerId].

Definition tryServeGolemDmaKvCache (now : Z) (ingress : GolemDmaIngressRequest) : M bool := fun s =>
  let sub := ig_sub ingress in
  let key := golemDmaKvCacheKey (ig_addr ingress) (ig_size ingress) (sb_consumer sub) in
  match golem_dma_kv_cache_ s !! key with
  | None => ret false s
  | Some cached =>
      let ready := golemDmaResponseNowCycle now in
      (let! dest := response_dest (sb_returnEndpoint sub) (sourceName ingress) in
       enqueue_response (branch dest ready ready sub (ce_data cached)) ;;
       let consumers := add_consumer (servedConsumers cached) (sb_consumer sub) in
       update (fun s => s <| golem_dma_kv_cache_ :=
         if golem_dma_kv_expected_consumers_ c <=? Z.of_nat (List.length consumers)
         then delete key (golem_dma_kv_cache_ s)
         else <[key := mkEntry (ce_data cached) consumers]> (golem_dma_kv_cache_ s) |>) ;;
       ret true) s
  end.

(** A read of the memory that the request can join. *)
Definition joinable (ingress : GolemDmaIngressRequest) (info : GolemDmaBridgeInfo) : bool :=
  let mine := sb_consumer (in_sub info) in
  let other := sb_consumer (ig_sub ingress) in
  negb (isWrite info) && (hostAddr info =? ig_addr ingress) && (in_size info =? ig_size ingress) &&
  match kvSubscribers info with [] => false | _ => true end &&
  (jobId mine =? jobId other) && (targetQueryTile mine =? targetQueryTile other) &&
  (targetKvTileIndex mine =? targetKvTileIndex other) &&
  (operand_code (operand mine) =? operand_code (operand other)).

Definition same_request (ingress : GolemDmaIngressRequest) (sub : GolemDmaKvSubscriber) : bool :=
  (sb_requestId sub =? sb_requestId (ig_sub ingress)) && (sb_returnEndpoint sub =? sb_returnEndpoint (ig_sub ingress)).

Definition count_bundle (sub : GolemDmaKvSubscriber) (s : t) : t :=
  let key := golemDmaBundleKey (sb_requestId sub) (sb_consumer sub) in
  s <| golem_dma_response_pending_by_bundle_ :=
    <[key := default 0 (golem_dma_response_pending_by_bundle_ s !! key) ⊞₃₂ 1]>
    (golem_dma_response_pending_by_bundle_ s) |>.

Definition is_shared (sub : GolemDmaKvSubscriber) : bool :=
  golem_dma_kv_coalesce_enable_ c && isGolemAttentionKvRead (sb_kind sub) (sb_consumer sub).

Definition tryCoalesceGolemDmaRead (now : Z) (ingress : GolemDmaIngressRequest) : M bool :=
  if negb (is_shared (ig_sub ingress)) then ret false
  else
    let! served := tryServeGolemDmaKvCache now ingress in
    if served then ret true
    else fun s =>
      match list_find (fun p => joinable ingress (snd p) = true) (golem_dma_pending s) with
      | None => ret false s
      | Some (i, (id, info)) =>
          if existsb (same_request ingress) (kvSubscribers info) then
            (releaseGolemDmaCredits (sb_creditUnits (ig_sub ingress)) ;; ret true) s
          else
            (update (fun s => s <| golem_dma_pending :=
               <[i := (id, info <| kvSubscribers := kvSubscribers info ++ [ig_sub ingress] |>)]> (golem_dma_pending s) |>) ;;
             update (count_bundle (ig_sub ingress)) ;;
             ret true) s
      end.

(** The event for the memory, unless the read has joined another one. *)
Definition createGolemDmaRead (now : Z) (ingress : GolemDmaIngressRequest) : M (option MemEvent) :=
  let! joined := tryCoalesceGolemDmaRead now ingress in
  if joined then ret None
  else fun s =>
    let sub := ig_sub ingress in
    let id := next_id s in
    let info := mkInfo sub (ig_size ingress) false (ig_addr ingress) (if is_shared sub then [sub] else []) in
    (update (fun s => s <| next_id := id + 1 |> <| golem_dma_pending := golem_dma_pending s ++ [(id, info)] |>) ;;
     update (count_bundle sub) ;;
     ret (Some (mkMemEvent id (sourceName ingress) (ig_addr ingress) (GetS (ig_size ingress))))) s.

(** ** Admission *)

Definition hasConsumerMetadata (q : list GolemDmaIngressRequest) : bool :=
  existsb (fun ingress => negb (valid (sb_consumer (ig_sub ingress)) =? 0)) q.

Definition window_of (ingress : GolemDmaIngressRequest) : Z := golemDmaWindowId (sb_requestId (ig_sub ingress)).

(** The oldest window and its first arrival. *)
Definition oldest_window (q : list GolemDmaIngressRequest) : Z * Z :=
  foldl (fun '(oldestWindow, firstArrival) ingress =>
           if window_of ingress <? oldestWindow then (window_of ingress, arrivalCycle ingress)
           else if window_of ingress =? oldestWindow then (oldestWindow, Z.min firstArrival (arrivalCycle ingress))
           else (oldestWindow, firstArrival)) (2 ^ 32 - 1, 2 ^ 64 - 1) q.

Definition golemDmaIngressCanProgress (currentCycle : Z) (s : t) : bool :=
  let q := golem_dma_ingress_queue_ s in
  if golem_dma_window_priority_enable_ c && match q with [] => false | _ => true end then
    if hasConsumerMetadata q then
      let firstArrival := foldl (fun first ingress => Z.min first (arrivalCycle ingress)) (2 ^ 64 - 1) q in
      (currentCycle <=? firstArrival ⊞ golem_dma_window_reorder_cycles_ c) || existsb (affordable s) q
    else
      let '(oldestWindow, firstArrival) := oldest_window q in
      (currentCycle <=? firstArrival ⊞ golem_dma_window_reorder_cycles_ c) ||
      existsb (fun ingress => (window_of ingress =? oldestWindow) && affordable s ingress) q
  else existsb (fun ingress => (currentCycle <=? arrivalCycle ingress) || affordable s ingress) q.

Definition may_admit (admitted : list MemEvent) : bool :=
  (golem_dma_admission_limit_ c =? 0) || (Z.of_nat (List.length admitted) <? golem_dma_admission_limit_ c).

Definition end_bundle (s : t) : t := s <| golem_dma_bundle_active_ := false |> <| golem_dma_bundle_admitted_ := 0 |>.

(** Takes an entry from the queue and pays for it. *)
Definition spend (idx : nat) (ingress : GolemDmaIngressRequest) (s : t) : t :=
  s <| golem_dma_ingress_queue_ := delete idx (golem_dma_ingress_queue_ s) |>
    <| golem_dma_credit_available_ := golem_dma_credit_available_ s ⊟₃₂ sb_creditUnits (ig_sub ingress) |>
    <| golem_dma_bundle_admitted_ := golem_dma_bundle_admitted_ s ⊞₃₂ 1 |>.

(** *** Requests with consumer metadata *)

Definition starving (currentCycle : Z) (s : t) : option (nat * GolemDmaIngressRequest) :=
  if golem_dma_admission_max_starvation_cycles_ c =? 0 then None
  else choose (fun ingress => affordable s ingress &&
                 negb (currentCycle <? arrivalCycle ingress ⊞ golem_dma_admission_max_starvation_cycles_ c))
         (fun ingress => [arrivalCycle ingress; sb_requestId (ig_sub ingress)]) O None (golem_dma_ingress_queue_ s).

Definition bundle_of (ingress : GolemDmaIngressRequest) : GolemDmaBundleKey :=
  golemDmaBundleKey (sb_requestId (ig_sub ingress)) (sb_consumer (ig_sub ingress)).

Definition consumer_key (s : t) (ingress : GolemDmaIngressRequest) : list Z :=
  let consumer := sb_consumer (ig_sub ingress) in
  [golemDmaConsumerDistance consumer s;
   if negb (valid consumer =? 0) then u8 (worker consumer - golem_dma_worker_cursor_ s) else 255;
   targetQueryTile consumer; targetKvTileIndex consumer; arrivalCycle ingress; sb_requestId (ig_sub ingress)].

(** The next request and whether it had starved. *)
Definition pick_consumer (currentCycle : Z) : M (option (nat * GolemDmaIngressRequest * bool)) := fun s =>
  match starving currentCycle s with
  | Some x => ret (Some (x, true)) s
  | None =>
      let bundled :=
        if golem_dma_bundle_active_ s
        then choose (fun ingress => affordable s ingress && bool_decide (bundle_of ingress = golem_dma_bundle_key_ s))
               (fun _ => []) O None (golem_dma_ingress_queue_ s)
        else None in
      match bundled with
      | Some x => ret (Some (x, false)) s
      | None =>
          let s := if golem_dma_bundle_active_ s then end_bundle s else s in
          match choose (affordable s) (consumer_key s) O None (golem_dma_ingress_queue_ s) with
          | None => ret None s
          | Some (idx, ingress) =>
              (update (fun s => s <| golem_dma_bundle_active_ := true |>
                                  <| golem_dma_bundle_key_ := bundle_of ingress |>
                                  <| golem_dma_bundle_admitted_ := 0 |>) ;;
               ret (Some (idx, ingress, false))) s
          end
      end
  end.

Definition turn_consumer (ingress : GolemDmaIngressRequest) (starved : bool) (s : t) : t :=
  let consumer := sb_consumer (ig_sub ingress) in
  if (golem_dma_tile_chunk_quantum_ c <=? golem_dma_bundle_admitted_ s) || starved
  then end_bundle (if negb (valid consumer =? 0)
                   then s <| golem_dma_worker_cursor_ := u8 (worker consumer + 1) |> else s)
  else s.

Fixpoint admit_consumer (fuel : nat) (currentCycle : Z) (admitted : list MemEvent) : M (list MemEvent) :=
  match fuel with
  | O => ret admitted
  | S fuel => fun s =>
      if match golem_dma_ingress_queue_ s with [] => true | _ => false end || negb (may_admit admitted)
      then ret admitted s
      else
        (let! picked := pick_consumer currentCycle in
         match picked with
         | None => ret admitted
         | Some (idx, ingress, starved) =>
             update (spend idx ingress) ;;
             update (turn_consumer ingress starved) ;;
             let! read := createGolemDmaRead currentCycle ingress in
             admit_consumer fuel currentCycle (admitted ++ option_list read)
         end) s
  end.

(** *** Oldest window first *)

Definition in_bundle (s : t) (ingress : GolemDmaIngressRequest) : bool :=
  let requestId := sb_requestId (ig_sub ingress) in
  (golemDmaWindowId requestId =? golem_dma_bundle_window_ s) &&
  (golemDmaWorkerId requestId =? golem_dma_bundle_worker_ s) &&
  (golemDmaTileIndex requestId =? golem_dma_bundle_tile_ s).

Definition bundle_order (ingress : GolemDmaIngressRequest) : list Z :=
  let requestId := sb_requestId (ig_sub ingress) in
  [golemDmaRequestSlot requestId; ig_addr ingress; arrivalCycle ingress; requestId].
Definition window_order (s : t) (ingress : GolemDmaIngressRequest) : list Z :=
  let requestId := sb_requestId (ig_sub ingress) in
  [u8 (golemDmaWorkerId requestId - golem_dma_worker_cursor_ s); golemDmaTileIndex requestId;
   golemDmaRequestSlot requestId; arrivalCycle ingress; ig_addr ingress; requestId].

(** The turn passes to the next worker. *)
Definition next_worker (s : t) : t :=
  end_bundle (s <| golem_dma_worker_cursor_ := u8 (golem_dma_bundle_worker_ s + 1) |>).

(** Nothing to admit now, a bundle that has run out, or the next request. *)
Inductive Pick := Stop | Again | Admit (idx : nat) (ingress : GolemDmaIngressRequest).

Definition pick_window (currentCycle : Z) : M Pick := fun s =>
  let q := golem_dma_ingress_queue_ s in
  let '(oldestWindow, firstArrival) := oldest_window q in
  if currentCycle <=? firstArrival ⊞ golem_dma_window_reorder_cycles_ c then ret Stop s
  else
    let s := if golem_dma_bundle_active_ s && negb (golem_dma_bundle_window_ s =? oldestWindow)
             then end_bundle s else s in
    if golem_dma_bundle_active_ s then
      match choose (fun ingress => in_bundle s ingress && affordable s ingress) bundle_order O None q with
      | Some (idx, ingress) => ret (Admit idx ingress) s
      | None => if existsb (in_bundle s) q then ret Stop s else (update next_worker ;; ret Again) s
      end
    else
      match choose (fun ingress => (window_of ingress =? oldestWindow) && affordable s ingress) (window_order s) O None q with
      | None => ret Stop s
      | Some (idx, ingress) =>
          let requestId := sb_requestId (ig_sub ingress) in
          (update (fun s => s <| golem_dma_bundle_active_ := true |>
                              <| golem_dma_bundle_window_ := golemDmaWindowId requestId |>
                              <| golem_dma_bundle_worker_ := golemDmaWorkerId requestId |>
                              <| golem_dma_bundle_tile_ := golemDmaTileIndex requestId |>
                              <| golem_dma_bundle_admitted_ := 0 |>) ;;
           ret (Admit idx ingress)) s
      end.

Definition turn_window (s : t) : t :=
  if golem_dma_tile_chunk_quantum_ c <=? golem_dma_bundle_admitted_ s then next_worker s else s.

Fixpoint admit_window (fuel : nat) (currentCycle : Z) (admitted : list MemEvent) : M (list MemEvent) :=
  match fuel with
  | O => ret admitted
  | S fuel => fun s =>
      if match golem_dma_ingress_queue_ s with [] => true | _ => false end || negb (may_admit admitted)
      then ret admitted s
      else
        (let! picked := pick_window currentCycle in
         match picked with
         | Stop => ret admitted
         | Again => admit_window fuel currentCycle admitted
         | Admit idx ingress =>
             update (spend idx ingress) ;;
             update turn_window ;;
             let! read := createGolemDmaRead currentCycle ingress in
             admit_window fuel currentCycle (admitted ++ option_list read)
         end) s
  end.

(** *** In the order of arrival *)

(** The key by which the queue is sorted. *)
Definition arrival_order (ingress : GolemDmaIngressRequest) : list Z :=
  let sub := ig_sub ingress in
  [arrivalCycle ingress; sb_requestId sub; sourceEndpoint ingress; ig_addr ingress; sb_returnEndpoint sub;
   sb_returnAddr sub; sb_completionFlagAddr sub; sb_completionValue sub].

(** The requests that go on waiting and the events for the memory. *)
Fixpoint admit_sorted (currentCycle : Z) (q waiting : list GolemDmaIngressRequest) (admitted : list MemEvent)
    : M (list GolemDmaIngressRequest * list MemEvent) :=
  match q with
  | [] => ret (waiting, admitted)
  | ingress :: q => fun s =>
      if negb (may_admit admitted) || (currentCycle <=? arrivalCycle ingress) || negb (affordable s ingress)
      then admit_sorted currentCycle q (waiting ++ [ingress]) admitted s
      else
        (update (fun s => s <| golem_dma_credit_available_ :=
                   golem_dma_credit_available_ s ⊟₃₂ sb_creditUnits (ig_sub ingress) |>) ;;
         let! read := createGolemDmaRead currentCycle ingress in
         admit_sorted currentCycle q waiting (admitted ++ option_list read)) s
  end.

(** An entry is admitted in every turn of a loop, at the latest after a bundle
    has run out, so twice the length of the queue bounds the turns. *)
Definition admitGolemDmaIngress (currentCycle : Z) : M (list MemEvent) := fun s =>
  let q := golem_dma_ingress_queue_ s in
  match q with
  | [] => ret [] s
  | _ =>
      if golem_dma_window_priority_enable_ c then
        if hasConsumerMetadata q then admit_consumer (List.length q) currentCycle [] s
        else admit_window (2 * List.length q) currentCycle [] s
      else
        (let! r := admit_sorted currentCycle (sort q) [] [] in
         update (fun s => s <| golem_dma_ingress_queue_ := fst r |>) ;;
         ret (snd r)) s
  end.

(** ** Sending responses *)

Definition golemDmaResponsePriority (req : Request) : Z :=
  match dmaRequestKind (payload req) with
  | AttentionKv => 0
  | AttentionQuery => 1
  | AttentionOutput => 2
  | AttentionKvPrefetch => 3
  | Unknown => 4
  end.

Definition eligible (currentCycle : Z) (item : GolemDmaResponseRequest) : bool :=
  (notBeforeCycle item <=? currentCycle) &&
  (negb (golem_dma_response_tile_priority_enable_ c) ||
   (readyCycle item ⊞ golem_dma_response_reorder_cycles_ c <=? currentCycle)).

Definition response_bundle (item : GolemDmaResponseRequest) : GolemDmaBundleKey :=
  golemDmaBundleKey (rs_requestId item) (rs_consumer item).
Definition response_worker (item : GolemDmaResponseRequest) : Z :=
  if negb (valid (rs_consumer item) =? 0) then worker (rs_consumer item) else golemDmaWorkerId (rs_requestId item).

Definition response_key (s : t) (item : GolemDmaResponseRequest) : list Z :=
  if golem_dma_response_tile_priority_enable_ c then
    [golemDmaConsumerDistance (rs_consumer item) s;
     default 0 (golem_dma_response_pending_by_bundle_ s !! response_bundle item);
     u8 (response_worker item - golem_dma_response_worker_cursor_ s); golemDmaRequestSlot (rs_requestId item);
     rs_returnAddr item; readyCycle item]
  else if golem_dma_response_priority_enable c then [golemDmaResponsePriority (request item)] else [].

Definition overdue (currentCycle : Z) (s : t) : option (nat * GolemDmaResponseRequest) :=
  if golem_dma_response_tile_priority_enable_ c && negb (golem_dma_response_max_starvation_cycles_ c =? 0)
  then choose (fun item => negb (currentCycle <? readyCycle item ⊞ golem_dma_response_max_starvation_cycles_ c))
         (fun item => [readyCycle item; rs_requestId item]) O None (golem_dma_send_queue_ s)
  else None.

Definition end_response_bundle (s : t) : t :=
  s <| golem_dma_response_bundle_active_ := false |> <| golem_dma_response_bundle_sent_ := 0 |>.

(** The next response to send. *)
Definition pick_response (currentCycle : Z) : M (option (nat * GolemDmaResponseRequest)) := fun s =>
  match overdue currentCycle s with
  | Some x => ret (Some x) s
  | None =>
      let active := golem_dma_response_tile_priority_enable_ c && golem_dma_response_bundle_active_ s in
      let bundled :=
        if active
        then choose (fun item => eligible currentCycle item &&
                       bool_decide (response_bundle item = golem_dma_response_bundle_key_ s))
               (fun _ => []) O None (golem_dma_send_queue_ s)
        else None in
      match bundled with
      | Some x => ret (Some x) s
      | None =>
          let s := if active then end_response_bundle s else s in
          match choose (eligible currentCycle) (response_key s) O None (golem_dma_send_queue_ s) with
          | None => ret None s
          | Some (idx, item) =>
              (update (fun s =>
                 if golem_dma_response_tile_priority_enable_ c
                 then s <| golem_dma_response_bundle_active_ := true |>
                        <| golem_dma_response_bundle_key_ := response_bundle item |>
                        <| golem_dma_response_bundle_sent_ := 0 |> else s) ;;
               ret (Some (idx, item))) s
          end
      end
  end.

Definition turn_response (item : GolemDmaResponseRequest) (s : t) : t :=
  if golem_dma_response_tile_priority_enable_ c then
    let sent := golem_dma_response_bundle_sent_ s ⊞₃₂ 1 in
    if golem_dma_tile_chunk_quantum_ c <=? sent
    then end_response_bundle (s <| golem_dma_response_worker_cursor_ := u8 (response_worker item + 1) |>)
    else s <| golem_dma_response_bundle_sent_ := sent |>
  else s.

Fixpoint drain_responses (fuel : nat) (currentCycle maxSends sends : Z) : M unit :=
  match fuel with
  | O => ret tt
  | S fuel => fun s =>
      if match golem_dma_send_queue_ s with [] => true | _ => false end ||
         negb ((maxSends =? 0) || (sends <? maxSends))
      then ret tt s
      else
        (let! picked := pick_response currentCycle in
         match picked with
         | None => ret tt
         | Some (idx, item) =>
             let! sent := link_send (NetSend (request item)) in
             if negb sent then ret tt
             else
               update (fun s => s <| golem_dma_send_queue_ := delete idx (golem_dma_send_queue_ s) |>) ;;
               releaseGolemDmaCredits (rs_creditUnits item) ;;
               update (turn_response item) ;;
               drain_responses fuel currentCycle maxSends (sends + 1)
         end) s
  end.
Definition drainGolemDmaResponseQueue (now maxSends : Z) : M unit := fun s =>
  drain_responses (List.length (golem_dma_send_queue_ s)) (golemDmaResponseNowCycle now) maxSends 0 s.

(** The other traffic leaves in its order. *)
Fixpoint drain_other (q : list OtherRequest) : M unit :=
  match q with
  | [] => update (fun s => s <| sendQueue := [] |>)
  | head :: q' =>
      let! sent := link_send (NetSendOther head) in
      if sent then drain_other q' else update (fun s => s <| sendQueue := q |>)
  end.
Definition drainQueue : M unit := fun s => drain_other (sendQueue s) s.

(** ** Answers of the memory *)

Definition subscribers (info : GolemDmaBridgeInfo) : list GolemDmaKvSubscriber :=
  match kvSubscribers info with [] => [in_sub info] | subs => subs end.

Definition decrementBundle (s : t) (sub : GolemDmaKvSubscriber) : t :=
  let key := golemDmaBundleKey (sb_requestId sub) (sb_consumer sub) in
  if sb_requestId sub =? 0 then s
  else
    match golem_dma_response_pending_by_bundle_ s !! key with
    | Some n => if n =? 0 then s
                else s <| golem_dma_response_pending_by_bundle_ :=
                       <[key := n - 1]> (golem_dma_response_pending_by_bundle_ s) |>
    | None => s
    end.

(** When the shared tree has carried the chunk; it carries one at a time. *)
Definition reserve_multicast (ready : Z) (info : GolemDmaBridgeInfo) : M Z := fun s =>
  match kvSubscribers info with
  | [] => ret ready s
  | _ =>
      let startCycle := Z.max ready (golem_dma_kv_multicast_next_cycle_ s) in
      let transferCycles :=
        (in_size info ⊞ golem_dma_kv_multicast_bytes_per_cycle_ c ⊟ 1) / golem_dma_kv_multicast_bytes_per_cycle_ c in
      let done := startCycle ⊞ transferCycles in
      (update (fun s => s <| golem_dma_kv_multicast_next_cycle_ := done |>) ;; ret done) s
  end.

Definition sendOrQueue (info : GolemDmaBridgeInfo) (ready multicastReady : Z) (req : Request) : M unit := fun s =>
  (let! sent :=
     if (multicastReady <=? ready) && match golem_dma_send_queue_ s with [] => true | _ => false end
     then link_send (NetSend req) else ret false in
   if sent then releaseGolemDmaCredits (sb_creditUnits (in_sub info))
   else enqueue_response (mkResponse req ready multicastReady (requestId (payload req)) (addr (payload req))
                            (sb_creditUnits (in_sub info)) (dmaConsumer (payload req)))) s.

(** Keeps a shared chunk for the consumers that have not asked yet. *)
Definition cache_chunk (info : GolemDmaBridgeInfo) (data : list Z) (s : t) : t :=
  match kvSubscribers info with
  | [] => s
  | subs =>
      let served := foldl add_consumer [] (map sb_consumer subs) in
      if Z.of_nat (List.length served) <? golem_dma_kv_expected_consumers_ c
      then s <| golem_dma_kv_cache_ :=
             <[golemDmaKvCacheKey (hostAddr info) (in_size info) (sb_consumer (in_sub info)) := mkEntry data served]>
             (golem_dma_kv_cache_ s) |>
      else s
  end.

Fixpoint send_branches (name : string) (ready multicastReady : Z) (data : list Z) (subs : list GolemDmaKvSubscriber)
    : M unit :=
  match subs with
  | [] => ret tt
  | sub :: subs =>
      let! dest := response_dest (sb_returnEndpoint sub) name in
      enqueue_response (branch dest ready multicastReady sub data) ;;
      send_branches name ready multicastReady data subs
  end.

Definition erase_pending (id : Z) (s : t) : t :=
  s <| golem_dma_pending := filter (fun p => fst p <> id) (golem_dma_pending s) |>.

(** Whether the response was one to a request of the bridge. *)
Definition trySendGolemDmaResponse (now : Z) (ev : MemResponse) : M bool := fun s =>
  match list_find (fun p => fst p = responseToID ev) (golem_dma_pending s) with
  | None => ret false s
  | Some (_, (id, info)) =>
      let ready := golemDmaResponseNowCycle now in
      let data := me_payload ev in
      (update (fun s => if isWrite info then s else foldl decrementBundle s (subscribers info)) ;;
       let! dest := response_dest (sb_returnEndpoint (in_sub info)) (me_dst ev) in
       let! multicastReady := reserve_multicast ready info in
       (if isWrite info then
          sendOrQueue info ready multicastReady
            (mkRequest (info_addr c) dest (golem_dma_write_response_vn c) ((8 + 8) * 8) (write_complete info) None)
        else
          update (cache_chunk info data) ;;
          sendOrQueue info ready multicastReady
            (mkRequest (info_addr c) dest (golem_dma_response_vn c) ((8 + 8 + Z.of_nat (List.length data)) * 8)
               (read_complete (in_sub info) data) None) ;;
          send_branches (me_dst ev) ready multicastReady data (tail (kvSubscribers info))) ;;
       update (erase_pending id) ;;
       ret true) s
  end.

(** ** Messages from the network *)

(** The name under which an endpoint is known, entered if there is none. *)
Definition source_name (src : Z) : M string := fun s =>
  match list_find (fun name => networkAddressMap s !! name = Some src) (names (networkAddressMap s)) with
  | Some (_, name) => ret name s
  | None =>
      let name := ("golem_ep_" +:+ pretty src)%string in
      (update (fun s => s <| networkAddressMap := <[name := src]> (networkAddressMap s) |>) ;; ret name) s
  end.

Definition subscriber_of (ev : event) (creditUnits : Z) : GolemDmaKvSubscriber :=
  mkSubscriber (returnAddr ev) (returnEndpoint ev) (completionFlagAddr ev) (completionValue ev) (requestId ev)
    creditUnits (dmaRequestKind ev) (dmaConsumer ev).

Definition receive_read (now src : Z) (name : string) (ev : event) : M (option MemEvent) :=
  let size := u32 (length ev) in
  update (updateGolemDmaConsumerProgress (dmaConsumer ev)) ;;
  if negb (golem_dma_credit_cap_ c =? 0) || golem_dma_window_priority_enable_ c then
    let creditUnits := if negb (golem_dma_credit_cap_ c =? 0) then golemDmaCreditUnits size else 0 in
    if golem_dma_credit_cap_ c <? creditUnits then fatal
    else
      update (fun s => s <| golem_dma_ingress_queue_ := golem_dma_ingress_queue_ s ++
        [mkIngress now src name (addr ev) size (subscriber_of ev creditUnits)] |>) ;;
      ret None
  else createGolemDmaRead now (mkIngress now src name (addr ev) size (subscriber_of ev 0)).

Definition receive_write (name : string) (ev : event) : M (option MemEvent) := fun s =>
  let id := next_id s in
  let sub := mkSubscriber 0 (-1) 0 0 (requestId ev) 0 (dmaRequestKind ev) no_consumer in
  (update (fun s => s <| next_id := id + 1 |> <| golem_dma_pending := golem_dma_pending s ++
     [(id, mkInfo sub (u32 (length ev)) true (addr ev) [])] |>) ;;
   ret (Some (mkMemEvent id name (addr ev) (Write (data ev))))) s.

Definition receive_golem (now src : Z) (ev : event) : M (option MemEvent) :=
  let! name := source_name src in
  match type ev with
  | READ => receive_read now src name ev
  | DMA_CONSUMER_PROGRESS => update (updateGolemDmaConsumerProgress (dmaConsumer ev)) ;; ret None
  | DMA_WRITE => receive_write name ev
  | _ => ret None
  end.

(** [recv] of the network, over the virtual networks from [vn] on. *)
Definition recv (startVn : Z) : M (option Packet) := fun s =>
  let vns := map (fun offset => (startVn + offset) mod golem_network_num_vns_ c) (seqZ 0 (golem_network_num_vns_ c)) in
  match list_find (fun vn => (received s).[vn] <> []) vns with
  | None => ret None s
  | Some (_, vn) =>
      match (received s).[vn] with
      | [] => ret None s
      | p :: q =>
          (update (fun s => s <| received := (received s).[vn := q] |>
                              <| golem_recv_vn_cursor_ := (vn + 1) mod golem_network_num_vns_ c |>) ;;
           ret (Some p)) s
      end
  end.

(** What the parent is handed. *)
Definition doRecv (now preferredVn : Z) : M (list effect) :=
  drainGolemDmaResponseQueue now (golem_dma_response_drain_limit c) ;;
  fun s =>
    let startVn := if (0 <=? preferredVn) && (preferredVn <? golem_network_num_vns_ c)
                   then preferredVn else golem_recv_vn_cursor_ s in
    (let! req := recv startVn in
     match req with
     | None => ret []
     | Some (Golem src ev) => let! me := receive_golem now src ev in ret (map ToMemory (option_list me))
     | Some (Client number) => ret [ToParent number]
     | Some (Announce name) => let! _ := lookupNetworkAddress name in ret []
     end) s.

(** ** The interface of the node *)

Definition start_clock : M unit := fun s =>
  if clockOn s then ret tt s else (update (fun s => s <| clockOn := true |>) ;; Effects.send StartClock) s.

Fixpoint hand_over (l : list effect) : M unit :=
  match l with [] => ret tt | o :: l => Effects.send o ;; hand_over l end.

Definition recvNotify (now vn : Z) : M unit :=
  let! out := doRecv now vn in
  hand_over out ;;
  fun s => (match golem_dma_ingress_queue_ s with [] => ret tt | _ => start_clock end) s.

(** Any event for the network, a response of the memory or other traffic. *)
Definition send_other (ev : MemResponse) : M unit :=
  let! dest := lookupNetworkAddress (me_dst ev) in
  update (fun s => s <| sendQueue := sendQueue s ++
    [mkOtherRequest dest (8 * (packetHeaderBytes c + Z.of_nat (List.length (me_payload ev)))) (me_number ev)] |>) ;;
  (fun s => (if (List.length (sendQueue s) =? 1)%nat then drainQueue else ret tt) s) ;;
  fun s => (if (List.length (sendQueue s) =? 1)%nat then start_clock else ret tt) s.

Definition send (now : Z) (ev : MemResponse) : M unit :=
  let! handled := trySendGolemDmaResponse now ev in
  if handled then fun s =>
    (match golem_dma_send_queue_ s, golem_dma_ingress_queue_ s with [], [] => ret tt | _, _ => start_clock end) s
  else send_other ev.

(** Returns whether the clock is turned off. *)
Definition clock (now : Z) : M bool :=
  let! admitted := admitGolemDmaIngress now in
  hand_over (map ToMemory admitted) ;;
  drainGolemDmaResponseQueue now (golem_dma_response_drain_limit c) ;;
  drainQueue ;;
  fun s =>
    match sendQueue s, golem_dma_send_queue_ s with
    | [], [] =>
        if golemDmaIngressCanProgress now s then ret false s
        else (update (fun s => s <| clockOn := false |>) ;; ret true) s
    | _, _ => ret false s
    end.

End Bridge.
End MemNic.

(** ** Request ids of the scheduler *)

Section NicIds.
Import SchedMsg MemNic.

(** C34. The memory node reads the ids of the request scheduler with 8 tile bits
    where these have 12: what it takes for the window is the window's sequence
    number times 16 plus the upper part of the ordinal, its tile index the lower
    8 bits of the ordinal.  Older windows still come first, but a window of more
    than 256 tiles is several windows to the node; core and slot are read right. *)
Theorem nic_splits_windows core slot node txn ordinal :
  is_u8 slot -> let id := composeWindowRequestId core slot node txn ordinal in
  golemDmaWindowId id = (txn mod 2 ^ 20) * 16 + (ordinal mod 2 ^ 12) / 2 ^ 8 /\
  golemDmaTileIndex id = ordinal mod 2 ^ 8 /\ golemDmaWorkerId id = core mod 2 ^ 8 /\ golemDmaRequestSlot id = slot /\
  (forall node' txn' ordinal', txn mod 2 ^ 20 < txn' mod 2 ^ 20 ->
     golemDmaWindowId id < golemDmaWindowId (composeWindowRequestId core slot node' txn' ordinal')).
Proof.
  intros Hs. cbv zeta.
  assert (forall node txn ordinal, golemDmaWindowId (composeWindowRequestId core slot node txn ordinal) =
    (txn mod 2 ^ 20) * 16 + (ordinal mod 2 ^ 12) / 2 ^ 8) as W.
  { clear node txn ordinal. intros node txn ordinal. rewrite compose_number by done. unfold id_number, golemDmaWindowId, is_u8 in *.
    rewrite (mask_mod _ 0xffffffff 32) by done. rewrite Z.shiftr_div_pow2 by done. unfold u32.
    pose proof (Z.mod_pos_bound core (2 ^ 8) ltac:(lia)). pose proof (Z.mod_pos_bound node (2 ^ 16) ltac:(lia)).
    pose proof (Z.mod_pos_bound txn (2 ^ 20) ltac:(lia)). pose proof (Z.mod_pos_bound ordinal (2 ^ 12) ltac:(lia)).
    generalize dependent (core mod 2 ^ 8). generalize dependent (node mod 2 ^ 16).
    generalize dependent (txn mod 2 ^ 20). generalize dependent (ordinal mod 2 ^ 12). intros y Hy x Hx n Hn a Ha.
    Z.to_euclidean_division_equations; lia. }
  split_and!; [by apply W| | | |].
  - rewrite compose_number by done. unfold id_number, golemDmaTileIndex. rewrite (mask_mod _ 0xff 8) by done. unfold u8.
    rewrite Z.mod_mod by lia. Z.to_euclidean_division_equations; lia.
  - destruct (id_fields core slot node txn ordinal Hs) as (_ & F & _). unfold golemDmaWorkerId. rewrite Z.shiftr_div_pow2, F by done.
    rewrite (mask_mod _ 0xff 8) by done. unfold u8. by rewrite !Z.mod_mod by lia.
  - by destruct (id_fields core slot node txn ordinal Hs) as (_ & _ & F & _).
  - intros node' txn' ordinal' Ht. rewrite !W. pose proof (Z.mod_pos_bound ordinal (2 ^ 12) ltac:(lia)).
    pose proof (Z.mod_pos_bound ordinal' (2 ^ 12) ltac:(lia)). Z.to_euclidean_division_equations; lia.
Qed.

Lemma nic_splits_windows_witness :
  golemDmaWindowId (composeWindowRequestId 7 1 3 5 300) = 81 /\ golemDmaTileIndex (composeWindowRequestId 7 1 3 5 300) = 44.
Proof. destruct (nic_splits_windows 7 1 3 5 300 ltac:(unfold is_u8; lia)) as (H1 & H2 & _). by rewrite H1, H2. Defined.
End NicIds.
