(* ===== verification/MemNicSteps.v ===== *)
(** * Memory node: the handlers

    Facts on [MemNic].  Whatever a core has sent is owed an answer; an answer is
    followed from the network queues through admission, the memory and the
    response queue to the network ([inv]), together with the credits spent on it.
    Each handler is specified by a weakest precondition: what it keeps of the
    books, what it hands to the memory, and why it stops. *)

From S2P Require Import Prelude Telemetry Cluster GroupMsg LocalMem Dma Effects MemNic.
From stdpp Require Import strings pretty.
#[local] Open Scope Z_scope.
#[local] Open Scope mach_scope.

(** ** The choice of an entry *)

Section Choice.
Import MemNic.

Lemma tie_lt_trans a : forall b c, tie_lt a b = true -> tie_lt b c = true -> tie_lt a c = true.
Proof.
  induction a as [|x a IH]; intros [|y b] [|z c]; cbn [tie_lt]; try done.
  rewrite !orb_true_iff, !andb_true_iff, !Z.ltb_lt, !Z.eqb_eq.
  intros [?|[-> ?]] [?|[-> ?]]; [left; lia|left; lia|left; lia|]. right. eauto.
Qed.
Lemma tie_lt_irrefl a : tie_lt a a = false.
Proof. induction a as [|x a IH]; [done|]. cbn [tie_lt]. by rewrite Z.ltb_irrefl, Z.eqb_refl, IH. Qed.

Lemma tie_ge_trans a : forall b c, List.length a = List.length b ->
  tie_lt a b = false -> tie_lt b c = false -> tie_lt a c = false.
Proof.
  induction a as [|x a IH]; intros [|y b] [|z c]; cbn [tie_lt List.length]; try done. intros [= L].
  rewrite !orb_false_iff, !andb_false_iff, !Z.ltb_ge, !Z.eqb_neq.
  intros [H1 H2] [H3 H4]. split; [lia|]. destruct (decide (x = z)) as [->|]; [|by left]. right.
  assert (y = z) as -> by lia. destruct H2 as [?|H2]; [done|]. destruct H4 as [?|H4]; [done|]. eauto.
Qed.

Context {A : Type} (ok : A -> bool) (key : A -> list Z).
Hypothesis key_length : forall x y, List.length (key x) = List.length (key y).

Definition least (l : list A) (x : A) : Prop := forall y, y ∈ l -> ok y = true -> tie_lt (key y) (key x) = false.

Lemma choose_least l : forall idx chosen,
  match choose ok key idx chosen l with
  | None => chosen = None /\ forall y, y ∈ l -> ok y = false
  | Some (i, x) =>
      (chosen = Some (i, x) \/ ((idx <= i)%nat /\ l !! (i - idx)%nat = Some x /\ ok x = true)) /\
      least l x /\ forall j y, chosen = Some (j, y) -> tie_lt (key y) (key x) = false
  end.
Proof.
  induction l as [|z l IH]; intros idx chosen; cbn [choose].
  { destruct chosen as [[i x]|]; [|split; [done|]; intros y Hy; by apply elem_of_nil in Hy].
    split_and!; [by left| |]; [intros y Hy; by apply elem_of_nil in Hy|]. intros j y [= <- <-]. apply tie_lt_irrefl. }
  destruct (ok z && match chosen with None => true | Some (_, y) => tie_lt (key z) (key y) end) eqn:E.
  - apply andb_prop in E as [E1 E2]. specialize (IH (S idx) (Some (idx, z))).
    destruct (choose _ _ _ _ _) as [[i x]|]; [|by destruct IH]. destruct IH as (H1 & H2 & H3).
    specialize (H3 _ _ eq_refl). split_and!.
    + right. destruct H1 as [[= <- <-]|(H1 & H4 & H5)].
      * split; [lia|]. by rewrite Nat.sub_diag.
      * split; [lia|]. split; [|done]. by replace (i - idx)%nat with (S (i - S idx)) by lia.
    + intros y [->|Hy]%elem_of_cons Ho; [done|by apply H2].
    + intros j y ->. destruct (tie_lt (key y) (key x)) eqn:F; [|done].
      by rewrite (tie_lt_trans _ _ _ E2 F) in H3.
  - specialize (IH (S idx) chosen). destruct (choose _ _ _ _ _) as [[i x]|].
    + destruct IH as (H1 & H2 & H3). split_and!.
      * destruct H1 as [H1|(H1 & H4 & H5)]; [by left|]. right. split; [lia|]. split; [|done].
        by replace (i - idx)%nat with (S (i - S idx)) by lia.
      * intros y [->|Hy]%elem_of_cons Ho; [|by apply H2]. rewrite Ho in E. destruct chosen as [[j w]|]; [|done].
        eapply tie_ge_trans; [apply key_length|exact E|]. by eapply H3.
      * done.
    + destruct IH as [-> H2]. split; [done|]. intros y [->|Hy]%elem_of_cons; [|by apply H2].
      by destruct (ok z).
Qed.

Corollary choose_some l i x :
  choose ok key O None l = Some (i, x) -> l !! i = Some x /\ ok x = true /\ least l x.
Proof.
  intros H. pose proof (choose_least l O None) as S. rewrite H in S. destruct S as ([?|(_ & S1 & S2)] & S3 & _); [done|].
  by rewrite Nat.sub_0_r in S1.
Qed.
Corollary choose_none l : choose ok key O None l = None -> forall y, y ∈ l -> ok y = false.
Proof. intros H. pose proof (choose_least l O None) as S. rewrite H in S. by destruct S. Qed.
End Choice.

(** ** Answers *)

Section NicFacts.
Import Net MemNic.
Local Open Scope sched_scope.

Definition total (l : list Z) : Z := foldr Z.add 0 l.
Lemma total_app l l' : total (l ++ l') = total l + total l'.
Proof. unfold total. induction l as [|x l IH]; cbn in *; lia. Qed.
#[local] Instance total_proper : Proper ((≡ₚ) ==> eq) total.
Proof. intros l l' H. unfold total. induction H; cbn in *; lia. Qed.
Lemma total_nonneg l : Forall (fun x => 0 <= x) l -> 0 <= total l.
Proof. unfold total. induction 1; cbn; lia. Qed.

Variable c : Config.
Variable link : Z -> bool.
Variable names : gmap string Z -> list string.
Variable sort : list GolemDmaIngressRequest -> list GolemDmaIngressRequest.
(** The contents of the memory: the bytes a read returns. *)
Variable host : Z -> Z -> list Z.

Hypothesis sort_perm : forall q, sort q ≡ₚ q.
Hypothesis names_all : forall m name, is_Some (m !! name) -> name ∈ names m.
Hypothesis cap_u32 : is_u32 (golem_dma_credit_cap_ c).

(** Where an answer goes and what it says. *)
Abbreviation Answer := (Z * event)%type.
Definition of_sub (a n : Z) (sub : GolemDmaKvSubscriber) : Answer :=
  (sb_returnEndpoint sub, read_complete sub (host a n)).
Definition write_info (ev : event) : GolemDmaBridgeInfo :=
  mkInfo (mkSubscriber 0 (-1) 0 0 (requestId ev) 0 (dmaRequestKind ev) no_consumer) (u32 (length ev)) true (addr ev) [].

(** The answer owed for a message. *)
Definition owed (src : Z) (ev : event) : list Answer :=
  match type ev with
  | READ => [of_sub (addr ev) (u32 (length ev)) (subscriber_of ev 0)]
  | DMA_WRITE => [(src, write_complete (write_info ev))]
  | _ => []
  end.
Definition of_packet (p : Packet) : list Answer := match p with Golem src ev => owed src ev | _ => [] end.
Definition of_packets (l : list Packet) : list Answer := concat (map of_packet l).
Definition unreceived (s : t) : list Answer := of_packets (concat (received s)).
Definition of_ingress (i : GolemDmaIngressRequest) : Answer := of_sub (ig_addr i) (ig_size i) (ig_sub i).
Definition of_pending (m : gmap string Z) (p : Z * GolemDmaBridgeInfo) (ev : MemEvent) : list Answer :=
  let info := snd p in
  if isWrite info then [(default 0 (m !! me_src ev), write_complete info)]
  else map (of_sub (hostAddr info) (in_size info)) (subscribers info).
Definition at_memory (m : gmap string Z) (pending : list (Z * GolemDmaBridgeInfo)) (mem : list MemEvent) : list Answer :=
  concat (zip_with (of_pending m) pending mem).
Definition of_request (r : Request) : Answer := (dest r, payload r).
Definition queued (s : t) : list Answer := map (fun r => of_request (request r)) (golem_dma_send_queue_ s).
Definition sends (log : list effect) : list Answer :=
  concat (map (fun o => match o with NetSend r => [of_request r] | _ => [] end) log).
Definition forwarded (log : list effect) : list MemEvent :=
  concat (map (fun o => match o with ToMemory ev => [ev] | _ => [] end) log).

Lemma sends_app l l' : sends (l ++ l') = sends l ++ sends l'.
Proof. unfold sends. by rewrite map_app, concat_app. Qed.
Lemma forwarded_app l l' : forwarded (l ++ l') = forwarded l ++ forwarded l'.
Proof. unfold forwarded. by rewrite map_app, concat_app. Qed.
Lemma of_packets_app l l' : of_packets (l ++ l') = of_packets l ++ of_packets l'.
Proof. unfold of_packets. by rewrite map_app, concat_app. Qed.

#[local] Instance of_packets_proper : Proper ((≡ₚ) ==> (≡ₚ)) of_packets.
Proof. intros l l' H. unfold of_packets. induction H; cbn; [done|by f_equiv|solve_Permutation|by etrans]. Qed.

(** ** Credits *)

Definition units_of (p : Z * GolemDmaBridgeInfo) : list Z := map sb_creditUnits (subscribers (snd p)).
Definition pending_units (pending : list (Z * GolemDmaBridgeInfo)) : Z := total (concat (map units_of pending)).
Definition queue_units (q : list GolemDmaResponseRequest) : Z := total (map rs_creditUnits q).

(** ** The state of the bridge *)

Definition bridge_name (n : Z) : string := ("golem_ep_" +:+ pretty n)%string.

Definition sub_ok (sub : GolemDmaKvSubscriber) : Prop := 0 <= sb_returnEndpoint sub /\ 0 <= sb_creditUnits sub.

(** A request of the bridge and the event for the memory. *)
Record matches (m : gmap string Z) (p : Z * GolemDmaBridgeInfo) (ev : MemEvent) : Prop := {
  ma_id : me_id ev = fst p;
  ma_subs : kvSubscribers (snd p) = [] \/ exists rest, kvSubscribers (snd p) = in_sub (snd p) :: rest;
  ma_units : Forall (fun u => 0 <= u) (units_of p);
  ma_write : isWrite (snd p) = true -> kvSubscribers (snd p) = [] /\ sb_returnEndpoint (in_sub (snd p)) = -1 /\
    is_Some (m !! me_src ev) /\ exists data, me_cmd ev = Write data;
  ma_read : isWrite (snd p) = false -> me_addr ev = hostAddr (snd p) /\ me_cmd ev = GetS (in_size (snd p)) /\
    Forall sub_ok (subscribers (snd p))
}.

(** A message the bridge can serve: a read names the endpoint of its answer and
    needs no more credits than there are. *)
Definition event_ok (ev : event) : Prop :=
  type ev = READ -> 0 <= returnEndpoint ev /\
    (golem_dma_credit_cap_ c <> 0 -> golemDmaCreditUnits c (u32 (length ev)) <= golem_dma_credit_cap_ c).
Definition packet_ok (m : gmap string Z) (p : Packet) : Prop :=
  match p with Golem _ ev => event_ok ev | Client _ => True | Announce name => is_Some (m !! name) end.

(** Of the answers [all] some are owed twice ([duplicates]), [hand] is held by the
    running handler, and the others are in the state, at the memory or sent.
    [paid] are credits the running handler has spent; [ing] are the requests that
    wait for admission. *)
Definition twin (l : list Answer) (d : Answer) : Prop :=
  exists x, x ∈ l /\ fst x = fst d /\ requestId (snd x) = requestId (snd d).
Definition accounts (all rest : list Answer) : Prop :=
  exists duplicates, all ≡ₚ duplicates ++ rest /\ Forall (twin rest) duplicates.
Lemma owed_move (all A A' : list Answer) : accounts all A -> A ≡ₚ A' -> accounts all A'.
Proof.
  intros (d & H1 & H2) HA. exists d. split; [by rewrite H1, HA|]. eapply Forall_impl; [exact H2|].
  intros x (y & Hy & Hx). exists y. by rewrite <- HA.
Qed.

Definition served (mem : list MemEvent) (log : list effect) (s : t) : list Answer :=
  at_memory (networkAddressMap s) (golem_dma_pending s) mem ++ queued s ++ sends log.

Record inv (all : list Answer) (paid : Z) (hand : list Answer) (ing : list GolemDmaIngressRequest)
    (mem : list MemEvent) (log : list effect) (s : t) : Prop := {
  v_available : 0 <= golem_dma_credit_available_ s;
  v_credits : golem_dma_credit_available_ s + paid + pending_units (golem_dma_pending s) +
    queue_units (golem_dma_send_queue_ s) = golem_dma_credit_cap_ c;
  v_queue : Forall (fun r => 0 <= rs_creditUnits r) (golem_dma_send_queue_ s);
  v_ingress : Forall (fun i => sub_ok (ig_sub i) /\ sb_creditUnits (ig_sub i) <= golem_dma_credit_cap_ c) ing;
  v_matches : Forall2 (matches (networkAddressMap s)) (golem_dma_pending s) mem;
  v_ids : Forall (fun p => fst p < next_id s) (golem_dma_pending s) /\ NoDup (map fst (golem_dma_pending s));
  v_names : forall n a, networkAddressMap s !! bridge_name n = Some a -> a = n;
  v_packets : Forall (packet_ok (networkAddressMap s)) (concat (received s));
  v_cache : forall k e, golem_dma_kv_cache_ s !! k = Some e -> ce_data e = host (fst (fst (fst (fst k)))) (snd (fst (fst (fst k))));
  v_owed : accounts all (hand ++ unreceived s ++ map of_ingress ing ++ served mem log s)
}.

(** What [inv] looks at. *)
Definition same (s s' : t) : Prop :=
  networkAddressMap s' = networkAddressMap s /\ received s' = received s /\
  golem_dma_credit_available_ s' = golem_dma_credit_available_ s /\ golem_dma_pending s' = golem_dma_pending s /\
  golem_dma_kv_cache_ s' = golem_dma_kv_cache_ s /\ golem_dma_send_queue_ s' = golem_dma_send_queue_ s /\
  next_id s' = next_id s.
Lemma same_inv all paid hand ing mem log s s' : same s s' -> inv all paid hand ing mem log s -> inv all paid hand ing mem log s'.
Proof.
  intros (E1 & E2 & E3 & E4 & E5 & E6 & E7) [].
  assert (served mem log s' = served mem log s) as Es by (unfold served, queued; by rewrite E1, E4, E6).
  assert (unreceived s' = unreceived s) as Er by (unfold unreceived; by rewrite E2).
  constructor; rewrite ?E1, ?E2, ?E3, ?E4, ?E5, ?E6, ?E7, ?Es, ?Er; done.
Qed.

Lemma inv_ing_perm all paid hand ing ing' mem log s :
  ing ≡ₚ ing' -> inv all paid hand ing mem log s -> inv all paid hand ing' mem log s.
Proof.
  intros H []. constructor; try done; [by rewrite <- H|]. eapply owed_move; [exact v_owed0|]. by rewrite H.
Qed.

(** One request of the bridge and the others. *)
Lemma pending_split m pending mem i p ev :
  pending !! i = Some p -> mem !! i = Some ev -> List.length pending = List.length mem -> exists rest units,
    at_memory m pending mem ≡ₚ of_pending m p ev ++ rest /\
    (forall p', at_memory m (<[i := p']> pending) mem ≡ₚ of_pending m p' ev ++ rest) /\
    at_memory m (delete i pending) (delete i mem) ≡ₚ rest /\
    pending_units pending = total (units_of p) + units /\
    (forall p', pending_units (<[i := p']> pending) = total (units_of p') + units) /\
    pending_units (delete i pending) = units.
Proof.
  intros Hp Hm Hl. pose proof (take_drop_middle _ _ _ Hp) as Ep. pose proof (take_drop_middle _ _ _ Hm) as Em.
  pose proof (lookup_lt_Some _ _ _ Hp) as Lp. pose proof (lookup_lt_Some _ _ _ Hm) as Lm.
  exists (at_memory m (delete i pending) (delete i mem)), (pending_units (delete i pending)).
  assert (forall q, at_memory m (take i pending ++ q :: drop (S i) pending) mem ≡ₚ
    of_pending m q ev ++ at_memory m (delete i pending) (delete i mem)) as H1.
  { intros q. rewrite <- Em at 1. rewrite !delete_take_drop. unfold at_memory. rewrite !zip_with_app by (rewrite !length_take; lia).
    cbn [zip_with]. rewrite !concat_app. cbn [concat]. solve_Permutation. }
  assert (forall q, pending_units (take i pending ++ q :: drop (S i) pending) = total (units_of q) + pending_units (delete i pending)) as H2.
  { intros q. rewrite delete_take_drop. unfold pending_units. rewrite !map_app, !concat_app. cbn [map concat]. rewrite !total_app. lia. }
  split_and!; [rewrite <- Ep at 1; apply H1| |done|rewrite <- Ep at 1; apply H2| |done].
  - intros p'. rewrite insert_take_drop by done. apply H1.
  - intros p'. rewrite insert_take_drop by done. apply H2.
Qed.

(** What the handlers of requests leave alone. *)
Record kept (s s' : t) : Prop := {
  k_clock : clockOn s' = clockOn s;
  k_other : sendQueue s' = sendQueue s;
  k_ingress : golem_dma_ingress_queue_ s' = golem_dma_ingress_queue_ s
}.
Lemma nic_kept_refl s : kept s s.
Proof. done. Qed.
Lemma nic_kept_trans s s1 s2 : kept s s1 -> kept s1 s2 -> kept s s2.
Proof. intros [] []. constructor; congruence. Qed.

Lemma units_bounds all paid hand ing mem log s :
  inv all paid hand ing mem log s -> 0 <= pending_units (golem_dma_pending s) /\ 0 <= queue_units (golem_dma_send_queue_ s).
Proof.
  intros []. split.
  - apply total_nonneg, Forall_concat, Forall_map. apply Forall_forall. intros p [i Hp]%list_elem_of_lookup.
    destruct (Forall2_lookup_l _ _ _ _ _ v_matches0 Hp) as (ev & _ & Hm). apply Hm.
  - apply total_nonneg, Forall_map. done.
Qed.

(** [e] forgets something that does not matter for the credits. *)
Record forgets (e : t -> t) : Prop := {
  fg_available : forall s, golem_dma_credit_available_ (e s) = golem_dma_credit_available_ s;
  fg_credit : forall s x, e (s <| golem_dma_credit_available_ := x |>) = (e s) <| golem_dma_credit_available_ := x |>;
  fg_queue : forall s q, e (s <| golem_dma_send_queue_ := q |>) = (e s) <| golem_dma_send_queue_ := q |>;
  fg_same : forall s, golem_dma_send_queue_ (e s) = golem_dma_send_queue_ s;
  fg_attempts : forall s x, same (e s) (e (s <| attempts := x |>))
}.

Lemma release_at e all paid units hand ing mem log s :
  forgets e -> inv all (paid + units) hand ing mem log (e s) -> 0 <= units -> 0 <= paid ->
  wp False (releaseGolemDmaCredits c units) (fun _ log' s' => log' = log /\ kept s s' /\ inv all paid hand ing mem log (e s') /\
    golem_dma_credit_available_ s' = golem_dma_credit_available_ s + units /\
    golem_dma_send_queue_ s' = golem_dma_send_queue_ s) log s.
Proof.
  intros Fe I Hu Hp. pose proof (units_bounds _ _ _ _ _ _ _ I) as [B1 B2]. pose proof (v_credits _ _ _ _ _ _ _ I) as C.
  pose proof (v_available _ _ _ _ _ _ _ I) as A. rewrite (fg_available _ Fe) in A, C. unfold is_u32 in cap_u32.
  unfold releaseGolemDmaCredits. wp_state. destruct (Z.eqb_spec units 0) as [->|Hz].
  { wp_fold. apply wp_ret. split_and!; [done|done| |lia|done]. by rewrite Z.add_0_r in I. }
  destruct (Z.ltb_spec (golem_dma_credit_cap_ c ⊟₃₂ golem_dma_credit_available_ s) units) as [H|_].
  { rewrite u32_small in H by (unfold is_u32; lia). lia. }
  wp_fold. apply wp_update. rewrite u32_small by (unfold is_u32; lia). split_and!; [done|done| |done|done].
  rewrite (fg_credit _ Fe). destruct I. constructor; try done.
  - change (0 <= golem_dma_credit_available_ s + units). lia.
  - change (golem_dma_credit_available_ s + units + paid + pending_units (golem_dma_pending (e s)) +
      queue_units (golem_dma_send_queue_ (e s)) = golem_dma_credit_cap_ c). lia.
Qed.
Lemma forgets_id : forgets (fun s => s).
Proof. by constructor. Qed.
Lemma credit_release_spec all paid units hand ing mem log s :
  inv all (paid + units) hand ing mem log s -> 0 <= units -> 0 <= paid ->
  wp False (releaseGolemDmaCredits c units) (fun _ log' s' => log' = log /\ kept s s' /\ inv all paid hand ing mem log s' /\
    golem_dma_credit_available_ s' = golem_dma_credit_available_ s + units /\
    golem_dma_send_queue_ s' = golem_dma_send_queue_ s) log s.
Proof. exact (release_at (fun s => s) all paid units hand ing mem log s forgets_id). Qed.

(** A response is queued. *)
Lemma enqueue_inv all paid hand ing mem log s r :
  inv all (paid + rs_creditUnits r) (of_request (request r) :: hand) ing mem log s -> 0 <= rs_creditUnits r ->
  inv all paid hand ing mem log (s <| golem_dma_send_queue_ := golem_dma_send_queue_ s ++ [r] |>).
Proof.
  intros [] Hr. constructor; try done.
  - change (golem_dma_credit_available_ s + paid + pending_units (golem_dma_pending s) +
      queue_units (golem_dma_send_queue_ s ++ [r]) = golem_dma_credit_cap_ c).
    unfold queue_units at 1. rewrite map_app, total_app. change (total (map rs_creditUnits [r])) with (rs_creditUnits r + 0).
    unfold queue_units in v_credits0. lia.
  - cbn. apply Forall_app. split; [done|]. by constructor.
  - eapply owed_move; [exact v_owed0|].
    unfold served, queued, unreceived. cbn. rewrite map_app. cbn. solve_Permutation.
Qed.

Lemma response_dest_spec endpoint name log s Q :
  0 <= endpoint -> Q endpoint log s -> wp False (response_dest endpoint name) Q log s.
Proof. intros H HQ. unfold response_dest. rewrite (proj2 (Z.leb_le _ _) H). by apply wp_ret. Qed.

(** What a handler that creates a read promises; at most the credits paid for it
    come back. *)
Definition created (all : list Answer) (paid : Z) (hand : list Answer) (ing : list GolemDmaIngressRequest)
    (units : Z) (log : list effect) (s : t) (mem : list MemEvent) (log' : list effect) (s' : t) : Prop :=
  log' = log /\ kept s s' /\ inv all paid hand ing mem log s' /\
  golem_dma_credit_available_ s' <= golem_dma_credit_available_ s + units.

Lemma serve_spec now i all paid hand ing mem log s :
  inv all (paid + sb_creditUnits (ig_sub i)) (of_ingress i :: hand) ing mem log s -> sub_ok (ig_sub i) -> 0 <= paid ->
  wp False (tryServeGolemDmaKvCache c now i)
    (fun b log' s' => if b then created all paid hand ing (sb_creditUnits (ig_sub i)) log s mem log' s' else log' = log /\ s' = s) log s.
Proof.
  intros I [O1 O2] Hp. unfold tryServeGolemDmaKvCache. wp_state. set (key := golemDmaKvCacheKey _ _ _).
  destruct (golem_dma_kv_cache_ s !! key) as [cached|] eqn:E; wp_fold; [|by apply wp_ret].
  pose proof (v_cache _ _ _ _ _ _ _ I _ _ E) as D. cbn in D.
  apply wp_bind, response_dest_spec; [done|]. unfold enqueue_response. apply wp_bind, wp_update, wp_bind, wp_update, wp_ret.
  split_and!; [done|done| |cbn; lia]. set (r := branch _ _ _ _ _ _).
  assert (inv all paid hand ing mem log (s <| golem_dma_send_queue_ := golem_dma_send_queue_ s ++ [r] |>)) as [].
  { apply enqueue_inv; [|done]. unfold of_request. cbn. rewrite D. exact I. }
  constructor; try done. cbn. intros k e. set (served := add_consumer _ _).
  destruct (_ <=? _).
  - intros [_ Hk]%lookup_delete_Some. by apply v_cache0.
  - intros [[<- <-]|[_ Hk]]%lookup_insert_Some; [done|by apply v_cache0].
Qed.

Lemma find_pending {P : Z * GolemDmaBridgeInfo -> Prop} `{!forall x, Decision (P x)} all paid hand ing mem log s i p :
  inv all paid hand ing mem log s -> list_find P (golem_dma_pending s) = Some (i, p) ->
  exists ev, golem_dma_pending s !! i = Some p /\ P p /\ mem !! i = Some ev /\ matches (networkAddressMap s) p ev /\
    List.length (golem_dma_pending s) = List.length mem.
Proof.
  intros I (H1 & H2 & _)%list_find_Some. destruct (Forall2_lookup_l _ _ _ _ _ (v_matches _ _ _ _ _ _ _ I) H1) as (ev & H3 & H4).
  exists ev. split_and!; [done..|]. apply (Forall2_length _ _ _ (v_matches _ _ _ _ _ _ _ I)).
Qed.

Lemma map_fst_insert (l : list (Z * GolemDmaBridgeInfo)) i id info info' :
  l !! i = Some (id, info) -> map fst (<[i := (id, info')]> l) = map fst l.
Proof.
  intros H. rewrite list_fmap_insert. apply list_insert_id. by rewrite list_lookup_fmap, H.
Qed.

Lemma joinable_read i info : joinable i info = true ->
  isWrite info = false /\ hostAddr info = ig_addr i /\ in_size info = ig_size i /\ kvSubscribers info <> [].
Proof.
  unfold joinable. rewrite !andb_true_iff, negb_true_iff, !Z.eqb_eq.
  intros (((((((H1 & H2) & H3) & H4) & _) & _) & _) & _). split_and!; [done|done|done|]. by destruct (kvSubscribers info).
Qed.

Lemma subscribers_some info : kvSubscribers info <> [] -> subscribers info = kvSubscribers info.
Proof. unfold subscribers. by destruct (kvSubscribers info). Qed.

(** A request joins a read of the memory. *)
Definition joined (info : GolemDmaBridgeInfo) (sub : GolemDmaKvSubscriber) : GolemDmaBridgeInfo :=
  info <| kvSubscribers := kvSubscribers info ++ [sub] |>.

Lemma joined_matches m id info ev k :
  matches m (id, info) ev -> joinable k info = true -> sub_ok (ig_sub k) -> matches m (id, joined info (ig_sub k)) ev.
Proof.
  intros [H1 H2 H3 H4 H5] (J1 & J2 & J3 & J4)%joinable_read [O1 O2]. cbn in *.
  assert (subscribers (joined info (ig_sub k)) = subscribers info ++ [ig_sub k]) as E.
  { rewrite !subscribers_some; [done|done|]. cbn. by intros [_ ?]%app_nil. }
  constructor; cbn [fst snd]; [done| | | |].
  - right. destruct H2 as [H2|[rest H2]]; [done|]. exists (rest ++ [ig_sub k]). cbn. by rewrite H2.
  - unfold units_of in *. cbn in *. rewrite E, map_app. apply Forall_app. split; [done|]. by constructor.
  - cbn. congruence.
  - intros _. destruct (H5 J1) as (R1 & R2 & R3). split_and!; [done|done|]. rewrite E. apply Forall_app. split; [done|]. by constructor.
Qed.

Lemma join_inv all paid hand ing mem log s i id info ev k :
  inv all (paid + sb_creditUnits (ig_sub k)) (of_ingress k :: hand) ing mem log s ->
  golem_dma_pending s !! i = Some (id, info) -> mem !! i = Some ev -> matches (networkAddressMap s) (id, info) ev ->
  List.length (golem_dma_pending s) = List.length mem -> joinable k info = true -> sub_ok (ig_sub k) ->
  inv all paid hand ing mem log (s <| golem_dma_pending := <[i := (id, joined info (ig_sub k))]> (golem_dma_pending s) |>).
Proof.
  intros I Hp Hm Hma Hl J O. pose proof (joinable_read _ _ J) as (J1 & J2 & J3 & J4).
  destruct (pending_split (networkAddressMap s) _ _ _ _ _ Hp Hm Hl) as (rest & units & S1 & S2 & _ & U1 & U2 & _).
  assert (subscribers (joined info (ig_sub k)) = subscribers info ++ [ig_sub k]) as E.
  { rewrite !subscribers_some; [done|done|]. cbn. by intros [_ ?]%app_nil. }
  assert (of_pending (networkAddressMap s) (id, joined info (ig_sub k)) ev =
    of_pending (networkAddressMap s) (id, info) ev ++ [of_ingress k]) as Ea.
  { unfold of_pending. cbn [snd]. change (isWrite (joined info (ig_sub k))) with (isWrite info). rewrite J1, E, map_app.
    change (hostAddr (joined info (ig_sub k))) with (hostAddr info). change (in_size (joined info (ig_sub k))) with (in_size info).
    unfold of_ingress. by rewrite J2, J3. }
  destruct I. set (s' := s <| golem_dma_pending := _ |>). set (p' := (id, joined info (ig_sub k))) in *.
  assert (served mem log s' ≡ₚ of_ingress k :: served mem log s) as Hs.
  { unfold served. change (golem_dma_pending s') with (<[i := p']> (golem_dma_pending s)). change (networkAddressMap s') with (networkAddressMap s).
    rewrite S2, S1, Ea. change (queued s') with (queued s). solve_Permutation. }
  constructor; try done.
  - change (golem_dma_credit_available_ s + paid + pending_units (<[i := p']> (golem_dma_pending s)) +
      queue_units (golem_dma_send_queue_ s) = golem_dma_credit_cap_ c).
    rewrite U2. unfold units_of, p'. cbn [snd]. rewrite E, map_app, total_app. unfold units_of in U1. cbn [snd] in U1.
    change (total (map sb_creditUnits [ig_sub k])) with (sb_creditUnits (ig_sub k) + 0). lia.
  - change (Forall2 (matches (networkAddressMap s)) (<[i := p']> (golem_dma_pending s)) mem).
    rewrite <- (list_insert_id mem i ev) by done. apply Forall2_insert; [done|]. by apply joined_matches.
  - change (Forall (fun p => fst p < next_id s) (<[i := p']> (golem_dma_pending s)) /\ NoDup (map fst (<[i := p']> (golem_dma_pending s)))).
    destruct v_ids0 as [V1 V2]. unfold p'. rewrite (map_fst_insert _ _ _ _ _ Hp). split; [|done].
    apply Forall_insert; [done|]. rewrite Forall_lookup in V1. exact (V1 _ _ Hp).
  - eapply owed_move; [exact v_owed0|].
    change (unreceived s') with (unreceived s). rewrite Hs. solve_Permutation.
Qed.

(** A request that has been made before. *)
Lemma duplicate_inv all paid hand ing mem log s i id info ev k :
  inv all paid (of_ingress k :: hand) ing mem log s ->
  golem_dma_pending s !! i = Some (id, info) -> mem !! i = Some ev -> List.length (golem_dma_pending s) = List.length mem ->
  joinable k info = true -> existsb (same_request k) (kvSubscribers info) = true -> inv all paid hand ing mem log s.
Proof.
  intros I Hp Hm Hl (J1 & J2 & J3 & J4)%joinable_read (sub & Hsub & Hsame)%existsb_exists. destruct I. constructor; try done.
  destruct v_owed0 as (d & H1 & H2). exists (of_ingress k :: d). split; [rewrite H1; solve_Permutation|].
  apply andb_prop in Hsame as [E1%Z.eqb_eq E2%Z.eqb_eq].
  set (rest := hand ++ unreceived s ++ map of_ingress ing ++ served mem log s) in *.
  assert (twin rest (of_ingress k)) as T.
  { exists (of_sub (hostAddr info) (in_size info) sub). split_and!; [|done|done]. unfold rest, served. rewrite !elem_of_app. right. right. right. left.
    destruct (pending_split (networkAddressMap s) _ _ _ _ _ Hp Hm Hl) as (l & units & S1 & _). rewrite S1. apply elem_of_app. left.
    unfold of_pending. cbn [snd]. rewrite J1, subscribers_some by done. apply list_elem_of_fmap. exists sub. split; [done|].
    by apply list_elem_of_In. }
  constructor; [done|]. eapply Forall_impl; [exact H2|]. intros x (y & Hy & Ey). change (y ∈ of_ingress k :: rest) in Hy.
  apply elem_of_cons in Hy as [->|Hy]; [|by exists y]. destruct T as (z & Hz & Ez1 & Ez2), Ey as [Ey1 Ey2]. exists z.
  split_and!; [done|congruence|congruence].
Qed.

Lemma same_count sub s : same s (count_bundle sub s) /\ kept s (count_bundle sub s).
Proof. split; [by unfold same; split_and!|done]. Qed.

Lemma coalesce_spec now k all paid hand ing mem log s :
  inv all (paid + sb_creditUnits (ig_sub k)) (of_ingress k :: hand) ing mem log s -> sub_ok (ig_sub k) -> 0 <= paid ->
  wp False (tryCoalesceGolemDmaRead c now k)
    (fun b log' s' => if b then created all paid hand ing (sb_creditUnits (ig_sub k)) log s mem log' s' else log' = log /\ s' = s) log s.
Proof.
  intros I O Hp. unfold tryCoalesceGolemDmaRead. destruct (is_shared c (ig_sub k)); cbn [negb]; [|by apply wp_ret].
  apply wp_bind. eapply wp_mono; [by apply serve_spec|]. intros [|] log' s'; [intros C; by apply wp_ret|]. intros [-> ->].
  wp_state. destruct (list_find _ _) as [[i [id info]]|] eqn:E; [|by wp_fold; apply wp_ret].
  destruct (find_pending _ _ _ _ _ _ _ _ _ I E) as (ev & F1 & F2 & F3 & F4 & F5). cbn [snd] in F2.
  destruct (existsb _ _) eqn:Ed; wp_fold.
  - apply wp_bind. eapply wp_mono.
    + apply credit_release_spec; [|apply O|done]. by apply (duplicate_inv _ _ _ _ _ _ _ i id info ev k).
    + intros _ log1 s1 (-> & K & I1 & E1 & _). apply wp_ret. split_and!; [done|done|done|lia].
  - apply wp_bind, wp_update, wp_bind, wp_update, wp_ret. destruct O. split_and!; [done|done| |cbn; lia].
    eapply same_inv; [apply same_count|]. by eapply join_inv.
Qed.

(** A read for the memory. *)
Definition fresh_info (k : GolemDmaIngressRequest) : GolemDmaBridgeInfo :=
  mkInfo (ig_sub k) (ig_size k) false (ig_addr k) (if is_shared c (ig_sub k) then [ig_sub k] else []).
Lemma fresh_subscribers k : subscribers (fresh_info k) = [ig_sub k].
Proof. unfold subscribers, fresh_info. cbn. by destruct (is_shared c (ig_sub k)). Qed.

(** A request that the memory gets. *)
Lemma forward_inv all paid units hand ing mem log s info ev a :
  inv all (paid + units) (a ++ hand) ing mem log s -> me_id ev = next_id s -> matches (networkAddressMap s) (next_id s, info) ev ->
  total (units_of (next_id s, info)) = units -> of_pending (networkAddressMap s) (next_id s, info) ev = a ->
  inv all paid hand ing (mem ++ [ev]) log
    (s <| next_id := next_id s + 1 |> <| golem_dma_pending := golem_dma_pending s ++ [(next_id s, info)] |>).
Proof.
  intros I Hid Hma Hu Ha. destruct I. set (p := (next_id s, info)) in *.
  set (s' := _ <| golem_dma_pending := _ |>).
  assert (served (mem ++ [ev]) log s' ≡ₚ a ++ served mem log s) as Hs.
  { unfold served. change (golem_dma_pending s') with (golem_dma_pending s ++ [p]). change (networkAddressMap s') with (networkAddressMap s).
    unfold at_memory. rewrite zip_with_app by (by eapply Forall2_length). cbn [zip_with]. rewrite concat_app. cbn [concat].
    rewrite app_nil_r, Ha. change (queued s') with (queued s). solve_Permutation. }
  constructor; try done.
  - change (golem_dma_credit_available_ s + paid + pending_units (golem_dma_pending s ++ [p]) +
      queue_units (golem_dma_send_queue_ s) = golem_dma_credit_cap_ c).
    unfold pending_units at 1. rewrite map_app, concat_app, total_app. cbn [map concat]. rewrite app_nil_r, Hu.
    unfold pending_units in v_credits0. lia.
  - change (Forall2 (matches (networkAddressMap s)) (golem_dma_pending s ++ [p]) (mem ++ [ev])). apply Forall2_app; [done|]. by constructor.
  - destruct v_ids0 as [V1 V2]. change (Forall (fun p => fst p < next_id s + 1) (golem_dma_pending s ++ [p]) /\ NoDup (map fst (golem_dma_pending s ++ [p]))).
    split.
    + apply Forall_app. split; [eapply Forall_impl; [exact V1|]; cbn; lia|]. constructor; [cbn; lia|done].
    + rewrite map_app. apply NoDup_app. split_and!; [done| |apply NoDup_singleton].
      intros x Hx ->%list_elem_of_singleton. apply list_elem_of_fmap in Hx as (q & Hq & Hx). rewrite Forall_forall in V1.
      specialize (V1 _ Hx). cbn in Hq. lia.
  - eapply owed_move; [exact v_owed0|].
    change (unreceived s') with (unreceived s). rewrite Hs. solve_Permutation.
Qed.

Lemma create_spec now k all paid hand ing mem log s :
  inv all (paid + sb_creditUnits (ig_sub k)) (of_ingress k :: hand) ing mem log s -> sub_ok (ig_sub k) -> 0 <= paid ->
  wp False (createGolemDmaRead c now k)
    (fun read => created all paid hand ing (sb_creditUnits (ig_sub k)) log s (mem ++ option_list read)) log s.
Proof.
  intros I O Hp. unfold createGolemDmaRead. apply wp_bind. eapply wp_mono; [by apply coalesce_spec|].
  intros [|] log' s'; [intros C; apply wp_ret; by rewrite app_nil_r|]. intros [-> ->]. wp_state. wp_fold.
  apply wp_bind, wp_update, wp_bind, wp_update, wp_ret. split_and!; [done|done| |destruct O; cbn; lia].
  eapply same_inv; [apply same_count|]. fold (fresh_info k). eapply (forward_inv _ _ _ _ _ _ _ _ _ _ [of_ingress k]); [exact I|done| | |].
  - constructor; cbn [fst snd]; [done| | |done|].
    + cbn. destruct (is_shared c (ig_sub k)); [right; by exists []|by left].
    + unfold units_of. cbn [snd]. rewrite fresh_subscribers. constructor; [apply O|done].
    + intros _. rewrite fresh_subscribers. split_and!; [done|done|]. by constructor.
  - unfold units_of. cbn [snd]. rewrite fresh_subscribers. cbn. lia.
  - unfold of_pending. cbn [snd]. by rewrite fresh_subscribers.
Qed.

(** ** Admission *)

(** Only the turns of bundles and workers change. *)
Definition quiet (s s' : t) : Prop := same s s' /\ kept s s'.
Lemma nic_quiet_refl s : quiet s s.
Proof. split; [by unfold same; split_and!|done]. Qed.
Lemma nic_quiet_trans s s1 s2 : quiet s s1 -> quiet s1 s2 -> quiet s s2.
Proof.
  intros [(A1 & A2 & A3 & A4 & A5 & A6 & A7) A] [(B1 & B2 & B3 & B4 & B5 & B6 & B7) B].
  split; [|by eapply nic_kept_trans]. unfold same. split_and!; congruence.
Qed.
Lemma quiet_inv all paid hand mem log s s' :
  quiet s s' -> inv all paid hand (golem_dma_ingress_queue_ s) mem log s -> inv all paid hand (golem_dma_ingress_queue_ s') mem log s'.
Proof. intros [S K] I. rewrite (k_ingress _ _ K). by eapply same_inv. Qed.
Lemma quiet_affordable s s' k : quiet s s' -> affordable s' k = affordable s k.
Proof. intros [(_ & _ & E & _) _]. unfold affordable. by rewrite E. Qed.
Ltac solve_quiet := split; [by unfold same; split_and!|done].

(** A request is paid for. *)
Definition pay (k : GolemDmaIngressRequest) (s : t) : t :=
  s <| golem_dma_credit_available_ := golem_dma_credit_available_ s ⊟₃₂ sb_creditUnits (ig_sub k) |>.

Lemma pay_inv all hand ing ing' mem log s k :
  inv all 0 hand ing mem log s -> ing ≡ₚ k :: ing' -> affordable s k = true ->
  inv all (0 + sb_creditUnits (ig_sub k)) (of_ingress k :: hand) ing' mem log (pay k s) /\ sub_ok (ig_sub k) /\
  golem_dma_credit_available_ (pay k s) = golem_dma_credit_available_ s - sb_creditUnits (ig_sub k).
Proof.
  intros I Hk Ha%Z.leb_le. pose proof (units_bounds _ _ _ _ _ _ _ I) as [B1 B2]. destruct I. unfold is_u32 in cap_u32.
  rewrite Hk in v_ingress0. apply Forall_cons in v_ingress0 as [[[O1 O2] O3] V].
  assert (golem_dma_credit_available_ (pay k s) = golem_dma_credit_available_ s - sb_creditUnits (ig_sub k)) as Ec.
  { cbn. rewrite u32_small; [done|]. unfold is_u32. lia. }
  split; [|done]. constructor; try done.
  - rewrite Ec. lia.
  - rewrite Ec. change (golem_dma_pending (pay k s)) with (golem_dma_pending s).
    change (golem_dma_send_queue_ (pay k s)) with (golem_dma_send_queue_ s). lia.
  - change (served mem log (pay k s)) with (served mem log s). eapply owed_move; [exact v_owed0|].
    change (unreceived (pay k s)) with (unreceived s). rewrite Hk. cbn [map]. solve_Permutation.
Qed.

Lemma spend_inv all hand mem log s idx k :
  inv all 0 hand (golem_dma_ingress_queue_ s) mem log s -> golem_dma_ingress_queue_ s !! idx = Some k -> affordable s k = true ->
  inv all (0 + sb_creditUnits (ig_sub k)) (of_ingress k :: hand) (golem_dma_ingress_queue_ (spend idx k s)) mem log (spend idx k s) /\
  sub_ok (ig_sub k).
Proof.
  intros I Hk Ha. destruct (pay_inv _ _ _ (delete idx (golem_dma_ingress_queue_ s)) _ _ _ k I (delete_Permutation _ _ _ Hk) Ha) as (I1 & O & _).
  split; [|done]. apply (same_inv _ _ _ _ _ _ (pay k s)); [by unfold same; split_and!|exact I1].
Qed.

(** After some requests have been admitted. *)
Record admission (all hand : list Answer) (mem : list MemEvent) (log : list effect) (s : t)
    (admitted : list MemEvent) (log' : list effect) (s' : t) : Prop := {
  ad_log : log' = log;
  ad_clock : clockOn s' = clockOn s;
  ad_other : sendQueue s' = sendQueue s;
  ad_inv : inv all 0 hand (golem_dma_ingress_queue_ s') (mem ++ admitted) log s'
}.

(** The chosen request is taken and forwarded; [turn] passes the turn on. *)
Lemma take_spec now all hand mem log s idx k (turn : t -> t) :
  (forall s, quiet s (turn s)) ->
  inv all 0 hand (golem_dma_ingress_queue_ s) mem log s -> golem_dma_ingress_queue_ s !! idx = Some k -> affordable s k = true ->
  wp False (update (spend idx k) ;; update turn ;; createGolemDmaRead c now k)
    (fun read log' s' => admission all hand mem log s (option_list read) log' s' /\
       golem_dma_ingress_queue_ s' = delete idx (golem_dma_ingress_queue_ s)) log s.
Proof.
  intros Ht I Hk Ha. destruct (spend_inv _ _ _ _ _ _ _ I Hk Ha) as [I1 O].
  apply wp_bind, wp_update, wp_bind, wp_update.
  pose proof (Ht (spend idx k s)) as [Q1 Q2]. pose proof (same_inv _ _ _ _ _ _ _ _ Q1 I1) as I2.
  eapply wp_mono; [apply create_spec; [exact I2|exact O|lia]|]. intros read log' s' (-> & K & I3 & _).
  pose proof (k_ingress _ _ K) as K3. rewrite (k_ingress _ _ Q2) in K3. split; [|exact K3]. constructor.
  - done.
  - rewrite (k_clock _ _ K). exact (k_clock _ _ Q2).
  - rewrite (k_other _ _ K). exact (k_other _ _ Q2).
  - by rewrite K3.
Qed.

(** One turn of an admission loop. *)
Lemma turn_spec now all hand mem log s0 s idx k turn admitted (next : list MemEvent -> M (list MemEvent)) (done_ : list MemEvent -> t -> Prop) :
  (forall s, quiet s (turn s)) ->
  inv all 0 hand (golem_dma_ingress_queue_ s) (mem ++ admitted) log s -> clockOn s = clockOn s0 -> sendQueue s = sendQueue s0 ->
  golem_dma_ingress_queue_ s !! idx = Some k -> affordable s k = true ->
  (forall admitted' s', inv all 0 hand (golem_dma_ingress_queue_ s') (mem ++ admitted') log s' -> clockOn s' = clockOn s0 ->
     sendQueue s' = sendQueue s0 -> S (List.length (golem_dma_ingress_queue_ s')) = List.length (golem_dma_ingress_queue_ s) ->
     wp False (next admitted') (fun ad log' s' => admission all hand mem log s0 ad log' s' /\ done_ ad s') log s') ->
  wp False (update (spend idx k) ;; update turn ;; let! read := createGolemDmaRead c now k in next (admitted ++ option_list read))
    (fun ad log' s' => admission all hand mem log s0 ad log' s' /\ done_ ad s') log s.
Proof.
  intros Ht I C1 C2 Hk Ha Hn. pose proof (take_spec now _ _ _ _ _ _ _ turn Ht I Hk Ha) as T.
  apply wp_bind, wp_update, wp_bind, wp_update, wp_bind.
  unfold wp in T. unfold wp at 1. unfold bind, update in T. cbn in T.
  destruct (createGolemDmaRead c now k (turn (spend idx k s))) as [[read [o s']]|]; [|done]. destruct T as [[A1 A2 A3 A4] A5].
  rewrite A1 in *. apply Hn; [by rewrite app_assoc|congruence|congruence|].
  rewrite A5, length_delete by (by eexists). pose proof (lookup_lt_Some _ _ _ Hk). lia.
Qed.

Lemma quiet_end s : quiet s (end_bundle s).
Proof. solve_quiet. Qed.
Lemma quiet_turn_consumer k b s : quiet s (turn_consumer c k b s).
Proof. unfold turn_consumer. destruct (_ || _); [|apply nic_quiet_refl]. destruct (negb _); solve_quiet. Qed.
Lemma quiet_next s : quiet s (next_worker s).
Proof. solve_quiet. Qed.
Lemma quiet_turn_window s : quiet s (turn_window c s).
Proof. unfold turn_window. destruct (_ <=? _); [apply quiet_next|apply nic_quiet_refl]. Qed.

(** No request can be paid for. *)
Definition none_affordable (s : t) : Prop := forall k, k ∈ golem_dma_ingress_queue_ s -> affordable s k = false.

Lemma pick_consumer_spec now log s :
  wp False (pick_consumer c now)
    (fun picked log' s' => log' = log /\ quiet s s' /\
       match picked with
       | None => none_affordable s'
       | Some (idx, k, _) => golem_dma_ingress_queue_ s' !! idx = Some k /\ affordable s' k = true
       end) log s.
Proof.
  unfold pick_consumer. wp_state. destruct (starving c now s) as [[idx k]|] eqn:E1.
  { wp_fold. apply wp_ret. split; [done|]. split; [apply nic_quiet_refl|]. unfold starving in E1. destruct (_ =? 0); [done|].
    apply choose_some in E1 as (H1 & H2 & _); [|done]. by apply andb_prop in H2 as [H2 _]. }
  destruct (if golem_dma_bundle_active_ s then _ else None) as [[idx k]|] eqn:E2.
  { wp_fold. apply wp_ret. split; [done|]. split; [apply nic_quiet_refl|]. destruct (golem_dma_bundle_active_ s); [|done].
    apply choose_some in E2 as (H1 & H2 & _); [|done]. by apply andb_prop in H2 as [H2 _]. }
  assert (quiet s (if golem_dma_bundle_active_ s then end_bundle s else s)) as Q.
  { destruct (golem_dma_bundle_active_ s); [apply quiet_end|apply nic_quiet_refl]. }
  set (s1 := if golem_dma_bundle_active_ s then _ else s) in *. clearbody s1.
  destruct (choose (affordable s1) _ _ _ _) as [[idx k]|] eqn:E3.
  - unfold bind, update, ret. rewrite !app_nil_r. split; [done|]. split; [eapply nic_quiet_trans; [exact Q|solve_quiet]|].
    by apply choose_some in E3 as (H1 & H2 & _).
  - unfold ret. rewrite app_nil_r. split; [done|]. split; [done|]. intros k Hk. by eapply choose_none in E3.
Qed.

Lemma admit_consumer_spec now fuel all hand mem log s0 : forall admitted s,
  inv all 0 hand (golem_dma_ingress_queue_ s) (mem ++ admitted) log s -> clockOn s = clockOn s0 -> sendQueue s = sendQueue s0 ->
  (List.length (golem_dma_ingress_queue_ s) <= fuel)%nat ->
  wp False (admit_consumer c fuel now admitted)
    (fun ad log' s' => admission all hand mem log s0 ad log' s' /\ (may_admit c ad = false \/ none_affordable s')) log s.
Proof.
  induction fuel as [|fuel IH]; intros admitted s I C1 C2 Hf; cbn [admit_consumer].
  { apply wp_ret. split; [by constructor|]. right. intros k Hk. destruct (golem_dma_ingress_queue_ s); [by apply elem_of_nil in Hk|cbn in Hf; lia]. }
  wp_state. destruct (golem_dma_ingress_queue_ s) as [|k0 q0] eqn:Eq; cbn [orb].
  { wp_fold. apply wp_ret. rewrite <- Eq in I. split; [by constructor|]. right. intros k Hk. rewrite Eq in Hk. by apply elem_of_nil in Hk. }
  rewrite <- Eq in I, Hf. destruct (may_admit c admitted) eqn:Em; cbn [negb]; wp_fold; [|by apply wp_ret; split; [constructor|left]].
  apply wp_bind. eapply wp_mono; [apply pick_consumer_spec|]. intros picked log' s1 (-> & Q & H).
  pose proof (quiet_inv _ _ _ _ _ _ _ Q I) as I1. destruct Q as [Q1 Q2].
  assert (clockOn s1 = clockOn s0) as C1' by (rewrite (k_clock _ _ Q2); done).
  assert (sendQueue s1 = sendQueue s0) as C2' by (rewrite (k_other _ _ Q2); done).
  destruct picked as [[[idx k] starved]|]; [|apply wp_ret; split; [by constructor|by right]]. destruct H as [H1 H2].
  eapply turn_spec; [intros; apply quiet_turn_consumer|exact I1|exact C1'|exact C2'|exact H1|exact H2|].
  intros admitted' s' I' D1 D2 L. apply IH; [done|done|done|]. rewrite (k_ingress _ _ Q2) in L. lia.
Qed.

(** The oldest window waits: its interval has not passed, none of its requests can
    be paid for, or those of the bundle that has the turn cannot. *)
Definition window_waits (now : Z) (s : t) : Prop :=
  let '(oldest, first) := oldest_window (golem_dma_ingress_queue_ s) in
  now <= first ⊞ golem_dma_window_reorder_cycles_ c \/
  (forall k, k ∈ golem_dma_ingress_queue_ s -> window_of k = oldest -> affordable s k = false) \/
  (golem_dma_bundle_active_ s = true /\ existsb (in_bundle s) (golem_dma_ingress_queue_ s) = true /\
   forall k, k ∈ golem_dma_ingress_queue_ s -> in_bundle s k = true -> affordable s k = false).

Lemma pick_window_spec now log s :
  wp False (pick_window c now)
    (fun picked log' s' => log' = log /\ quiet s s' /\
       match picked with
       | Stop => window_waits now s'
       | Again => golem_dma_bundle_active_ s = true /\ golem_dma_bundle_active_ s' = false
       | Admit idx k => golem_dma_ingress_queue_ s' !! idx = Some k /\ affordable s' k = true
       end) log s.
Proof.
  unfold pick_window. wp_state. destruct (oldest_window (golem_dma_ingress_queue_ s)) as [oldest first] eqn:Eo.
  destruct (Z.leb_spec now (first ⊞ golem_dma_window_reorder_cycles_ c)) as [Hl|Hl].
  { wp_fold. apply wp_ret. split; [done|]. split; [apply nic_quiet_refl|]. unfold window_waits. rewrite Eo. by left. }
  set (s1 := if _ && _ then end_bundle s else s).
  assert (quiet s s1) as Q by (unfold s1; destruct (_ && _); [apply quiet_end|apply nic_quiet_refl]).
  assert (golem_dma_bundle_active_ s1 = true -> golem_dma_bundle_active_ s = true) as Ha by (unfold s1; by destruct (_ && _)).
  assert (golem_dma_ingress_queue_ s1 = golem_dma_ingress_queue_ s) as Ei by apply Q. rewrite <- Ei in Eo |- *. clearbody s1.
  match goal with |- match ?m with _ => _ end => change (match (fun _ => m) s1 with None => False | Some (a, (o, s')) =>
    (fun picked log' s' => log' = log /\ quiet s s' /\
       match picked with
       | Stop => window_waits now s'
       | Again => golem_dma_bundle_active_ s = true /\ golem_dma_bundle_active_ s' = false
       | Admit idx k => golem_dma_ingress_queue_ s' !! idx = Some k /\ affordable s' k = true
       end) a (log ++ o) s' end); cbv beta end.
  destruct (golem_dma_bundle_active_ s1) eqn:E1.
  - destruct (choose _ _ _ _ _) as [[idx k]|] eqn:E2.
    { unfold ret. rewrite app_nil_r. split; [done|]. split; [done|]. apply choose_some in E2 as (H1 & H2 & _); [|done]. by apply andb_prop in H2 as [_ H2]. }
    destruct (existsb _ _) eqn:E3.
    { unfold ret. rewrite app_nil_r. split; [done|]. split; [done|]. unfold window_waits. rewrite Eo. right. right. split; [done|]. split; [done|].
      intros k Hk Hb. eapply choose_none in E2; [|done|exact Hk]. cbv beta in E2. by rewrite Hb in E2. }
    unfold bind, update, ret. rewrite !app_nil_r. split; [done|]. split; [eapply nic_quiet_trans; [exact Q|apply quiet_next]|]. split; [by apply Ha|done].
  - destruct (choose _ _ _ _ _) as [[idx k]|] eqn:E2.
    + unfold bind, update, ret. rewrite !app_nil_r. split; [done|]. split; [eapply nic_quiet_trans; [exact Q|solve_quiet]|]. split.
      * by apply choose_some in E2 as (H1 & _).
      * apply choose_some in E2 as (_ & H2 & _); [|done]. by apply andb_prop in H2 as [_ H2].
    + unfold ret. rewrite app_nil_r. split; [done|]. split; [done|]. unfold window_waits. rewrite Eo. right. left.
      intros k Hk Hw. eapply choose_none in E2; [|done|exact Hk]. cbv beta in E2. by rewrite (proj2 (Z.eqb_eq _ _) Hw) in E2.
Qed.

Definition inactive (s : t) : nat := if golem_dma_bundle_active_ s then 0 else 1.

Lemma admit_window_spec now fuel all hand mem log s0 : forall admitted s,
  inv all 0 hand (golem_dma_ingress_queue_ s) (mem ++ admitted) log s -> clockOn s = clockOn s0 -> sendQueue s = sendQueue s0 ->
  (2 * List.length (golem_dma_ingress_queue_ s) <= fuel + inactive s)%nat ->
  wp False (admit_window c fuel now admitted)
    (fun ad log' s' => admission all hand mem log s0 ad log' s' /\
       (may_admit c ad = false \/ golem_dma_ingress_queue_ s' = [] \/ window_waits now s')) log s.
Proof.
  assert (forall s, (inactive s <= 1)%nat) as Hi by (intros s; unfold inactive; destruct (golem_dma_bundle_active_ s); lia).
  induction fuel as [|fuel IH]; intros admitted s I C1 C2 Hf; cbn [admit_window].
  { apply wp_ret. split; [by constructor|]. right. left. specialize (Hi s). destruct (golem_dma_ingress_queue_ s); [done|cbn in Hf; lia]. }
  wp_state. destruct (golem_dma_ingress_queue_ s) as [|k0 q0] eqn:Eq; cbn [orb].
  { wp_fold. apply wp_ret. rewrite <- Eq in I. split; [by constructor|]. right. by left. }
  rewrite <- Eq in I, Hf. destruct (may_admit c admitted) eqn:Em; cbn [negb]; wp_fold; [|by apply wp_ret; split; [constructor|left]].
  apply wp_bind. eapply wp_mono; [apply pick_window_spec|]. intros picked log' s1 (-> & Q & H).
  pose proof (quiet_inv _ _ _ _ _ _ _ Q I) as I1. destruct Q as [Q1 Q2].
  assert (clockOn s1 = clockOn s0) as C1' by (rewrite (k_clock _ _ Q2); done).
  assert (sendQueue s1 = sendQueue s0) as C2' by (rewrite (k_other _ _ Q2); done).
  pose proof (k_ingress _ _ Q2) as Ei. destruct picked as [| |idx k].
  - apply wp_ret. split; [by constructor|]. right. by right.
  - destruct H as [H1 H2]. apply IH; [done|done|done|]. rewrite Ei. unfold inactive in *. rewrite H1 in Hf. rewrite H2. lia.
  - destruct H as [H1 H2]. eapply turn_spec; [intros; apply quiet_turn_window|exact I1|exact C1'|exact C2'|exact H1|exact H2|].
    intros admitted' s' I' D1 D2 L. apply IH; [done|done|done|]. rewrite Ei in L. specialize (Hi s). lia.
Qed.

(** A request waits: it has just arrived or cannot be paid for. *)
Definition waits (now : Z) (s : t) (k : GolemDmaIngressRequest) : Prop := now <= arrivalCycle k \/ affordable s k = false.
Lemma waits_less now s s' k :
  golem_dma_credit_available_ s' <= golem_dma_credit_available_ s -> waits now s k -> waits now s' k.
Proof. intros H [W|W]; [by left|]. right. unfold affordable in *. apply Z.leb_gt in W. apply Z.leb_gt. lia. Qed.

Lemma admit_sorted_spec now all hand mem log s0 q : forall waiting admitted s,
  inv all 0 hand (waiting ++ q) (mem ++ admitted) log s -> kept s0 s ->
  may_admit c admitted = false \/ Forall (waits now s) waiting ->
  wp False (admit_sorted c now q waiting admitted)
    (fun r log' s' => log' = log /\ kept s0 s' /\ inv all 0 hand (fst r) (mem ++ snd r) log s' /\
       (may_admit c (snd r) = false \/ Forall (waits now s') (fst r))) log s.
Proof.
  induction q as [|k q IH]; intros waiting admitted s I K W; cbn [admit_sorted].
  { apply wp_ret. rewrite app_nil_r in I. done. }
  wp_state. destruct (may_admit c admitted) eqn:Em; cbn [negb orb].
  2: { wp_fold. apply IH; [by rewrite <- app_assoc|done|by left]. }
  destruct W as [?|W]; [done|].
  destruct (Z.leb_spec now (arrivalCycle k)) as [Hl|Hl]; cbn [orb].
  { wp_fold. apply IH; [by rewrite <- app_assoc|done|]. right. apply Forall_app. split; [done|]. constructor; [by left|done]. }
  destruct (affordable s k) eqn:Ha; cbn [negb]; wp_fold.
  2: { apply IH; [by rewrite <- app_assoc|done|]. right. apply Forall_app. split; [done|]. constructor; [by right|done]. }
  destruct (pay_inv _ _ _ (waiting ++ q) _ _ _ k I ltac:(solve_Permutation) Ha) as (I1 & O & E1).
  apply wp_bind, wp_update, wp_bind. eapply wp_mono; [apply create_spec; [exact I1|exact O|lia]|].
  intros read log' s' (-> & K1 & I2 & E2). apply IH; [by rewrite app_assoc| |].
  - eapply nic_kept_trans; [exact K|]. eapply nic_kept_trans; [|exact K1]. done.
  - right. eapply Forall_impl; [exact W|]. intros x. apply waits_less.
    change (golem_dma_credit_available_ s' <= golem_dma_credit_available_ (pay k s) + sb_creditUnits (ig_sub k)) in E2. lia.
Qed.

(** No more requests are admitted. *)
Definition settled (now : Z) (q : list GolemDmaIngressRequest) (s : t) : Prop :=
  if golem_dma_window_priority_enable_ c then
    if hasConsumerMetadata q then none_affordable s else golem_dma_ingress_queue_ s = [] \/ window_waits now s
  else Forall (waits now s) (golem_dma_ingress_queue_ s).

Lemma admit_spec now all hand mem log s q :
  inv all 0 hand (golem_dma_ingress_queue_ s) mem log s -> golem_dma_ingress_queue_ s = q ->
  wp False (admitGolemDmaIngress c sort now)
    (fun ad log' s' => admission all hand mem log s ad log' s' /\ (may_admit c ad = false \/ settled now q s')) log s.
Proof.
  intros I Eq. assert (inv all 0 hand (golem_dma_ingress_queue_ s) (mem ++ []) log s) as I0 by by rewrite app_nil_r.
  unfold admitGolemDmaIngress, settled. wp_state. rewrite Eq. destruct q as [|k0 q0].
  { wp_fold. apply wp_ret. split; [by constructor|]. right.
    destruct (golem_dma_window_priority_enable_ c); [|by rewrite Eq]. cbn. by left. }
  set (q := k0 :: q0) in *. destruct (golem_dma_window_priority_enable_ c).
  - destruct (hasConsumerMetadata q); wp_fold.
    + apply admit_consumer_spec; [done|done|done|by rewrite Eq].
    + apply admit_window_spec; [done|done|done|rewrite Eq; lia].
  - wp_fold. apply wp_bind. eapply wp_mono; [apply (admit_sorted_spec now all hand mem log s); [|done|by right]|].
    { cbn [app]. eapply (inv_ing_perm); [|exact I0]. by rewrite sort_perm, Eq. }
    intros r log' s' (-> & K & I' & W). apply wp_bind, wp_update, wp_ret. split.
    + constructor; [done|apply K|apply K|]. eapply same_inv; [|exact I']. by unfold same; split_and!.
    + destruct W as [W|W]; [by left|right]. eapply Forall_impl; [exact W|]. intros x. by apply waits_less.
Qed.

(** ** Sending *)

Lemma inv_log all paid hand ing mem log log' s :
  sends log' = sends log -> inv all paid hand ing mem log s -> inv all paid hand ing mem log' s.
Proof.
  intros E []. constructor; try done. assert (served mem log' s = served mem log s) as -> by (unfold served; by rewrite E). done.
Qed.

Lemma pick_response_spec now log s :
  wp False (pick_response c now)
    (fun picked log' s' => log' = log /\ quiet s s' /\
       match picked with
       | None => forall r, r ∈ golem_dma_send_queue_ s' -> eligible c now r = false
       | Some (idx, r) => golem_dma_send_queue_ s' !! idx = Some r
       end) log s.
Proof.
  unfold pick_response. wp_state. destruct (overdue c now s) as [[idx r]|] eqn:E1.
  { wp_fold. apply wp_ret. split; [done|]. split; [apply nic_quiet_refl|]. unfold overdue in E1. destruct (_ && _); [|done].
    by apply choose_some in E1 as (H1 & _). }
  set (active := _ && golem_dma_response_bundle_active_ s) in *.
  destruct (if active then choose _ _ _ _ _ else None) as [[idx r]|] eqn:E2.
  { wp_fold. apply wp_ret. split; [done|]. split; [apply nic_quiet_refl|]. destruct active; [|done]. by apply choose_some in E2 as (H1 & _). }
  set (s1 := if active then end_response_bundle s else s).
  assert (quiet s s1) as Q by (unfold s1; destruct active; [solve_quiet|apply nic_quiet_refl]). clearbody s1.
  destruct (choose (eligible c now) _ _ _ _) as [[idx r]|] eqn:E3.
  - unfold bind, update, ret. rewrite !app_nil_r. split; [done|].
    destruct (golem_dma_response_tile_priority_enable_ c) eqn:Et.
    + split; [eapply nic_quiet_trans; [exact Q|solve_quiet]|]. by apply choose_some in E3 as (H1 & _); [|unfold response_key; rewrite Et].
    + split; [done|]. apply choose_some in E3 as (H1 & _); [done|]. intros x y. unfold response_key. rewrite Et. by destruct (golem_dma_response_priority_enable c).
  - unfold ret. rewrite app_nil_r. split; [done|]. split; [done|]. intros r Hr. eapply choose_none in E3; [done| |done].
    intros x y. unfold response_key. destruct (golem_dma_response_tile_priority_enable_ c); [done|]. by destruct (golem_dma_response_priority_enable c).
Qed.

(** A queued response is sent. *)
Lemma sent_inv all hand ing mem log s idx r :
  inv all 0 hand ing mem log s -> golem_dma_send_queue_ s !! idx = Some r ->
  inv all (0 + rs_creditUnits r) hand ing mem (log ++ [NetSend (request r)])
    (s <| golem_dma_send_queue_ := delete idx (golem_dma_send_queue_ s) |>) /\ 0 <= rs_creditUnits r.
Proof.
  intros [] Hr. pose proof v_queue0 as V. rewrite Forall_lookup in V. specialize (V _ _ Hr). split; [|done].
  set (s' := s <| golem_dma_send_queue_ := _ |>). pose proof (delete_Permutation _ _ _ Hr) as P.
  assert (served mem (log ++ [NetSend (request r)]) s' ≡ₚ served mem log s) as Hs.
  { unfold served. rewrite sends_app. change (queued s') with (map (fun r => of_request (request r)) (delete idx (golem_dma_send_queue_ s))).
    change (at_memory (networkAddressMap s') (golem_dma_pending s') mem) with (at_memory (networkAddressMap s) (golem_dma_pending s) mem).
    unfold queued. rewrite P at 2. cbn. solve_Permutation. }
  constructor; try done.
  - change (golem_dma_credit_available_ s + (0 + rs_creditUnits r) + pending_units (golem_dma_pending s) +
      queue_units (delete idx (golem_dma_send_queue_ s)) = golem_dma_credit_cap_ c).
    unfold queue_units in *. rewrite P in v_credits0. change (total (map rs_creditUnits (r :: delete idx (golem_dma_send_queue_ s))))
      with (rs_creditUnits r + total (map rs_creditUnits (delete idx (golem_dma_send_queue_ s)))) in v_credits0. lia.
  - by apply Forall_delete.
  - eapply owed_move; [exact v_owed0|].
    change (unreceived s') with (unreceived s). by rewrite Hs.
Qed.

(** What sending keeps. *)
Definition emitted (all hand : list Answer) (ing : list GolemDmaIngressRequest) (mem : list MemEvent)
    (log : list effect) (s : t) (log' : list effect) (s' : t) : Prop :=
  inv all 0 hand ing mem log' s' /\ kept s s' /\ forwarded log' = forwarded log.

Lemma quiet_turn_response r s : quiet s (turn_response c r s).
Proof.
  unfold turn_response. destruct (golem_dma_response_tile_priority_enable_ c); [|apply nic_quiet_refl]. destruct (_ <=? _); solve_quiet.
Qed.

Lemma drain_responses_spec fuel now maxSends all hand ing mem s0 log0 : forall sends log s,
  emitted all hand ing mem log0 s0 log s ->
  wp False (drain_responses c link fuel now maxSends sends) (fun _ log' s' => emitted all hand ing mem log0 s0 log' s' /\
    ((forall n, link n = true) -> maxSends = 0 -> (List.length (golem_dma_send_queue_ s) <= fuel)%nat ->
     forall r, r ∈ golem_dma_send_queue_ s' -> eligible c now r = false)) log s.
Proof.
  assert (forall s, golem_dma_send_queue_ s = [] -> forall r, r ∈ golem_dma_send_queue_ s -> eligible c now r = false) as Hnil.
  { intros s -> r ?%elem_of_nil. done. }
  induction fuel as [|fuel IH]; intros n log s E; cbn [drain_responses].
  { apply wp_ret. split; [done|]. intros _ _ Hl. apply Hnil, length_zero_iff_nil. lia. }
  wp_state. destruct (_ || _) eqn:Eg; wp_fold.
  { apply wp_ret. split; [done|]. intros _ -> _. cbn in Eg. rewrite orb_false_r in Eg. apply Hnil. by destruct (golem_dma_send_queue_ s). }
  destruct E as (I & K & F). apply wp_bind. eapply wp_mono; [apply pick_response_spec|]. intros picked log' s1 (-> & [Q1 Q2] & H).
  pose proof (same_inv _ _ _ _ _ _ _ _ Q1 I) as I1. pose proof (nic_kept_trans _ _ _ K Q2) as K1.
  destruct picked as [[idx r]|]; [|by apply wp_ret].
  apply wp_bind. unfold link_send, wp at 1. destruct (link (attempts s1)) eqn:El; cbn [negb].
  2: { rewrite app_nil_r. apply wp_ret. split; [split_and!; [|by destruct K1|done]|intros L; by rewrite L in El].
       eapply same_inv; [|exact I1]. by unfold same; split_and!. }
  destruct (sent_inv _ _ _ _ _ _ _ _ I1 H) as [I2 Hr]. apply wp_bind, wp_update, wp_bind.
  set (s2 := s1 <| attempts := _ |>). eapply wp_mono; [apply (credit_release_spec all 0 (rs_creditUnits r) hand ing mem); [|done|done]|].
  { eapply same_inv; [|exact I2]. by unfold same; split_and!. }
  intros _ log3 s3 (-> & K3 & I3 & _ & Eq). apply wp_bind, wp_update. pose proof (quiet_turn_response r s3) as [Q3 Q4].
  eapply wp_mono; [apply IH; split_and!|].
  - by eapply same_inv.
  - eapply nic_kept_trans; [exact K1|]. eapply nic_kept_trans; [|exact Q4]. eapply nic_kept_trans; [|exact K3]. done.
  - by rewrite forwarded_app, F, app_nil_r.
  - intros [] log' s' [H1 H2]. split; [done|]. intros L M Hl. apply H2; [done|done|].
    destruct Q3 as (_ & _ & _ & _ & _ & -> & _). rewrite Eq. cbn. destruct Q1 as (_ & _ & _ & _ & _ & Eq1 & _).
    rewrite length_delete; [rewrite Eq1; lia|by eexists].
Qed.

Lemma drain_spec now maxSends all hand ing mem log s :
  inv all 0 hand ing mem log s ->
  wp False (drainGolemDmaResponseQueue c link now maxSends) (fun _ log' s' => emitted all hand ing mem log s log' s' /\
    (golem_dma_send_queue_ s = [] -> s' = s) /\
    ((forall n, link n = true) -> maxSends = 0 ->
     forall r, r ∈ golem_dma_send_queue_ s' -> eligible c (golemDmaResponseNowCycle c now) r = false)) log s.
Proof.
  intros I. unfold drainGolemDmaResponseQueue. wp_state. wp_fold. destruct (golem_dma_send_queue_ s) as [|r q] eqn:E.
  { apply wp_ret. split_and!; [done|done|]. rewrite E. intros _ _ x ?%elem_of_nil. done. }
  eapply wp_mono; [by apply drain_responses_spec|]. intros [] log' s' [H1 H2]. split_and!; [done|done|]. intros L M. apply H2; [done|done|].
  by rewrite E.
Qed.

(** The other traffic does not matter. *)
Record aside (log : list effect) (s : t) (log' : list effect) (s' : t) : Prop := {
  as_same : same s s';
  as_clock : clockOn s' = clockOn s;
  as_ingress : golem_dma_ingress_queue_ s' = golem_dma_ingress_queue_ s;
  as_sends : sends log' = sends log;
  as_forwarded : forwarded log' = forwarded log
}.

Lemma drain_other_spec q : forall log s,
  wp False (drain_other link q)
    (fun _ log' s' => aside log s log' s' /\ (List.length (sendQueue s') <= List.length q)%nat) log s.
Proof.
  induction q as [|r q IH]; intros log s; cbn [drain_other].
  { apply wp_update. split; [|done]. constructor; try done; by unfold same; split_and!. }
  apply wp_bind. unfold link_send, wp at 1. destruct (link (attempts s)).
  - eapply wp_mono; [apply IH|]. intros _ log' s' [[(A1 & A2 & A3 & A4 & A5 & A6 & A7) B1 B2 B3 B4] Hl].
    split; [|cbn; lia]. constructor; [by unfold same; split_and!|done|done| |].
    + by rewrite B3, sends_app, app_nil_r.
    + by rewrite B4, forwarded_app, app_nil_r.
  - rewrite app_nil_r. apply wp_update. split; [|done]. constructor; try done; by unfold same; split_and!.
Qed.

(** ** Answers of the memory *)

Definition answer_of (ev : MemEvent) (number : Z) : MemResponse :=
  mkMemResponse (me_id ev) (me_src ev) (match me_cmd ev with GetS n => host (me_addr ev) n | Write _ => [] end) number.

Lemma filter_keeps {A} (P : A -> Prop) `{!forall x, Decision (P x)} (l : list A) : Forall P l -> filter P l = l.
Proof. induction 1 as [|x l Hx _ IH]; [done|]. by rewrite filter_cons_True, IH. Qed.
Lemma filter_delete (l : list (Z * GolemDmaBridgeInfo)) i id info :
  NoDup (map fst l) -> l !! i = Some (id, info) -> filter (fun p => fst p <> id) l = delete i l.
Proof.
  revert i. induction l as [|[k x] l IH]; intros i N H; [done|]. cbn [map fst] in N. apply NoDup_cons in N as [N1 N2].
  destruct i as [|i]; cbn in H.
  - injection H as -> ->. rewrite filter_cons_False by (cbn; lia). cbn [delete list_delete]. apply filter_keeps.
    apply Forall_forall. intros [j y] Hj. cbn. intros ->. apply N1. apply list_elem_of_fmap. by exists (id, y).
  - rewrite filter_cons_True; [by rewrite (IH i)|]. cbn. intros ->. apply N1. apply list_elem_of_fmap. exists (id, info).
    split; [done|]. by eapply list_elem_of_lookup_2.
Qed.

Lemma forgets_erase id : forgets (erase_pending id).
Proof. by constructor. Qed.

(** The answers to a request are taken in hand. *)
Lemma answered_inv all ing mem log s i id info ev :
  inv all 0 [] ing mem log s -> golem_dma_pending s !! i = Some (id, info) -> mem !! i = Some ev ->
  inv all (total (units_of (id, info))) (of_pending (networkAddressMap s) (id, info) ev) ing (delete i mem) log (erase_pending id s).
Proof.
  intros I Hp Hm. pose proof (Forall2_length _ _ _ (v_matches _ _ _ _ _ _ _ I)) as Hl.
  destruct (pending_split (networkAddressMap s) _ _ _ _ _ Hp Hm Hl) as (rest & units & S1 & _ & S3 & U1 & _ & U3).
  destruct I. destruct v_ids0 as [V1 V2]. set (s' := erase_pending id s).
  assert (golem_dma_pending s' = delete i (golem_dma_pending s)) as Ep by (by apply (filter_delete _ _ _ info)).
  assert (served (delete i mem) log s' ≡ₚ rest ++ queued s ++ sends log) as Hs.
  { unfold served. rewrite Ep. change (networkAddressMap s') with (networkAddressMap s). change (queued s') with (queued s). by rewrite S3. }
  assert (served mem log s ≡ₚ of_pending (networkAddressMap s) (id, info) ev ++ rest ++ queued s ++ sends log) as Hs0.
  { unfold served. rewrite S1. solve_Permutation. }
  constructor; try done.
  - rewrite Ep, U3. change (golem_dma_credit_available_ s') with (golem_dma_credit_available_ s).
    change (golem_dma_send_queue_ s') with (golem_dma_send_queue_ s). lia.
  - rewrite Ep. change (networkAddressMap s') with (networkAddressMap s). by apply Forall2_delete.
  - rewrite Ep. split; [by apply Forall_delete|].
    rewrite (delete_Permutation _ _ _ Hp) in V2. by apply NoDup_cons in V2 as [_ V2].
  - eapply owed_move; [exact v_owed0|].
    change (unreceived s') with (unreceived s). rewrite Hs, Hs0. solve_Permutation.
Qed.

Lemma hand_sent all paid hand ing mem log s r :
  inv all paid (of_request r :: hand) ing mem log s -> inv all paid hand ing mem (log ++ [NetSend r]) s.
Proof.
  intros []. constructor; try done.
  assert (served mem (log ++ [NetSend r]) s ≡ₚ of_request r :: served mem log s) as Hs.
  { unfold served. rewrite sends_app. cbn. solve_Permutation. }
  eapply owed_move; [exact v_owed0|]. rewrite Hs. solve_Permutation.
Qed.

(** What remains to be done for a request, and what has been kept. *)
Definition delivers (e : t -> t) (all : list Answer) (paid : Z) (hand : list Answer) (ing : list GolemDmaIngressRequest)
    (mem : list MemEvent) (log : list effect) (s : t) (log' : list effect) (s' : t) : Prop :=
  inv all paid hand ing mem log' (e s') /\ kept s s' /\ forwarded log' = forwarded log.

Lemma enqueue_at e all paid hand ing mem log s r :
  forgets e -> inv all (paid + rs_creditUnits r) (of_request (request r) :: hand) ing mem log (e s) -> 0 <= rs_creditUnits r ->
  wp False (enqueue_response r) (fun _ => delivers e all paid hand ing mem log s) log s.
Proof.
  intros Fe I Hr. unfold enqueue_response. apply wp_update. split_and!; [|done|done].
  rewrite (fg_queue _ Fe), <- (fg_same _ Fe). by apply enqueue_inv.
Qed.

Lemma sendOrQueue_spec e info ready multicastReady req all paid hand ing mem log s :
  forgets e -> inv all (paid + sb_creditUnits (in_sub info)) (of_request req :: hand) ing mem log (e s) ->
  0 <= sb_creditUnits (in_sub info) -> 0 <= paid ->
  wp False (sendOrQueue c link info ready multicastReady req) (fun _ => delivers e all paid hand ing mem log s) log s.
Proof.
  intros Fe I Hu Hp. unfold sendOrQueue. wp_state. wp_fold. apply wp_bind.
  apply (wp_mono _ _ (fun (sent : bool) log' s' => same (e s) (e s') /\ kept s s' /\ log' = log ++ (if sent then [NetSend req] else []))).
  { destruct (_ && _).
    - unfold link_send, wp. destruct (link (attempts s)); split_and!; try done; apply (fg_attempts _ Fe).
    - apply wp_ret. split_and!; [by unfold same; split_and!|done|by rewrite app_nil_r]. }
  intros sent log' s' (S & K & ->). pose proof (same_inv _ _ _ _ _ _ _ _ S I) as I1. destruct sent.
  - eapply wp_mono; [apply (release_at e); [done|apply hand_sent, I1|done|done]|]. intros _ log1 s1 (-> & K1 & I2 & _).
    split_and!; [done|by eapply nic_kept_trans|by rewrite forwarded_app, app_nil_r].
  - rewrite app_nil_r. eapply wp_mono; [by apply (enqueue_at e all paid hand ing mem)|]. intros _ log1 s1 (I2 & K1 & F1).
    split_and!; [done|by eapply nic_kept_trans|done].
Qed.

Lemma send_branches_spec e name ready multicastReady data all paid hand ing mem log0 s0 subs :
  forgets e -> 0 <= paid -> Forall sub_ok subs -> forall log s,
  delivers e all (paid + total (map sb_creditUnits subs)) (map (fun sub => (sb_returnEndpoint sub, read_complete sub data)) subs ++ hand)
    ing mem log0 s0 log s ->
  wp False (send_branches c name ready multicastReady data subs) (fun _ => delivers e all paid hand ing mem log0 s0) log s.
Proof.
  intros Fe Hp. induction 1 as [|sub subs [O1 O2] Hs IH]; intros log s (I & K & F); cbn [send_branches].
  { apply wp_ret. cbn in I. rewrite Z.add_0_r in I. done. }
  apply wp_bind, response_dest_spec; [done|]. apply wp_bind. eapply wp_mono; [apply (enqueue_at e); [done| |done]|].
  - change (total (map sb_creditUnits (sub :: subs))) with (sb_creditUnits sub + total (map sb_creditUnits subs)) in I.
    rewrite (Z.add_comm (sb_creditUnits sub)), Z.add_assoc in I. exact I.
  - intros _ log1 s1 (I1 & K1 & F1). apply IH. split_and!; [done|by eapply nic_kept_trans|congruence].
Qed.

Lemma quiet_decrement subs : forall s, quiet s (foldl decrementBundle s subs).
Proof.
  induction subs as [|sub subs IH]; intros s; [apply nic_quiet_refl|]. cbn [foldl]. eapply nic_quiet_trans; [|apply IH].
  unfold decrementBundle. destruct (_ =? 0); [apply nic_quiet_refl|]. destruct (_ !! _) as [n|]; [|apply nic_quiet_refl].
  destruct (n =? 0); [apply nic_quiet_refl|solve_quiet].
Qed.

Lemma cache_inv all paid hand ing mem log s info data :
  inv all paid hand ing mem log s -> data = host (hostAddr info) (in_size info) ->
  inv all paid hand ing mem log (cache_chunk c info data s) /\ kept s (cache_chunk c info data s) /\
  golem_dma_pending (cache_chunk c info data s) = golem_dma_pending s /\
  networkAddressMap (cache_chunk c info data s) = networkAddressMap s.
Proof.
  intros I ->. unfold cache_chunk. destruct (kvSubscribers info) as [|sub subs]; [done|]. destruct (_ <? _); [|done].
  split_and!; try done. destruct I. constructor; try done. cbn. intros k e [[<- <-]|[_ Hk]]%lookup_insert_Some; [done|by apply v_cache0].
Qed.

Lemma reserve_spec ready info log s :
  wp False (reserve_multicast c ready info) (fun _ log' s' => log' = log /\ quiet s s') log s.
Proof.
  unfold reserve_multicast. wp_state. destruct (kvSubscribers info); wp_fold.
  - apply wp_ret. split; [done|apply nic_quiet_refl].
  - apply wp_bind, wp_update, wp_ret. split; [done|solve_quiet].
Qed.

Lemma find_answered all ing mem log s i ev number :
  inv all 0 [] ing mem log s -> mem !! i = Some ev -> exists info,
    list_find (fun p => fst p = responseToID (answer_of ev number)) (golem_dma_pending s) = Some (i, (me_id ev, info)) /\
    golem_dma_pending s !! i = Some (me_id ev, info) /\ matches (networkAddressMap s) (me_id ev, info) ev.
Proof.
  intros [] Hm. destruct (Forall2_lookup_r _ _ _ _ _ v_matches0 Hm) as ([id info] & Hp & Hma).
  pose proof (ma_id _ _ _ Hma) as Hid. cbn [fst] in Hid. subst id. exists info. split_and!; [|done|done].
  apply list_find_Some. split_and!; [done|done|]. intros j [id info'] Hj Hji Hf. cbn in Hf. subst id. destruct v_ids0 as [_ N].
  assert (j = i) as ->; [|lia]. apply (NoDup_lookup _ _ _ (me_id ev) N); by rewrite list_lookup_fmap, ?Hj, ?Hp.
Qed.

Lemma subscribers_cons info :
  kvSubscribers info = [] \/ (exists rest, kvSubscribers info = in_sub info :: rest) ->
  subscribers info = in_sub info :: tail (kvSubscribers info).
Proof. unfold subscribers. intros [->|[rest ->]]; done. Qed.

(** Where the answer to a request goes. *)
Definition destination (m : gmap string Z) (info : GolemDmaBridgeInfo) (ev : MemEvent) : Z :=
  if isWrite info then default 0 (m !! me_src ev) else sb_returnEndpoint (in_sub info).

Lemma destination_spec id info ev log s :
  matches (networkAddressMap s) (id, info) ev ->
  wp False (response_dest (sb_returnEndpoint (in_sub info)) (me_src ev))
    (fun dest log' s' => dest = destination (networkAddressMap s) info ev /\ log' = log /\ s' = s) log s.
Proof.
  intros H. unfold response_dest, destination. destruct (isWrite info) eqn:Ew.
  - destruct (ma_write _ _ _ H Ew) as (_ & E & [d Hd] & _). cbn [snd] in E. rewrite E. cbn.
    unfold wp, lookupNetworkAddress, ret. rewrite Hd. by rewrite app_nil_r.
  - destruct (ma_read _ _ _ H Ew) as (_ & _ & O). cbn [snd] in O. rewrite (subscribers_cons info (ma_subs _ _ _ H)) in O.
    apply Forall_cons in O as [[O _] _]. rewrite (proj2 (Z.leb_le _ _) O). by apply wp_ret.
Qed.

Lemma write_deliver all ing mem log s i id info ev ready multicastReady vn bits :
  inv all 0 [] ing mem log s -> golem_dma_pending s !! i = Some (id, info) -> mem !! i = Some ev ->
  matches (networkAddressMap s) (id, info) ev -> isWrite info = true ->
  wp False (sendOrQueue c link info ready multicastReady
      (mkRequest (info_addr c) (destination (networkAddressMap s) info ev) vn bits (write_complete info) None))
    (fun _ => delivers (erase_pending id) all 0 [] ing (delete i mem) log s) log s.
Proof.
  intros I Hp Hm H Ew. pose proof (answered_inv _ _ _ _ _ _ _ _ _ I Hp Hm) as J.
  destruct (ma_write _ _ _ H Ew) as (Ek & _). cbn [snd] in Ek.
  assert (units_of (id, info) = [sb_creditUnits (in_sub info)]) as Eu by (unfold units_of, subscribers; cbn [snd]; by rewrite Ek).
  pose proof (ma_units _ _ _ H) as Hu. rewrite Eu in J, Hu. apply Forall_cons in Hu as [Hu _].
  apply (sendOrQueue_spec (erase_pending id)); [apply forgets_erase| |done|done]. unfold of_pending in J. cbn [snd] in J. rewrite Ew in J.
  unfold of_request, destination. cbn [dest payload]. rewrite Ew. change (total [sb_creditUnits (in_sub info)]) with (sb_creditUnits (in_sub info) + 0) in J.
  by rewrite Z.add_comm in J.
Qed.

Lemma read_deliver all ing mem log s i id info ev ready multicastReady vn bits :
  inv all 0 [] ing mem log s -> golem_dma_pending s !! i = Some (id, info) -> mem !! i = Some ev ->
  matches (networkAddressMap s) (id, info) ev -> isWrite info = false ->
  let data := host (hostAddr info) (in_size info) in
  wp False (sendOrQueue c link info ready multicastReady
      (mkRequest (info_addr c) (destination (networkAddressMap s) info ev) vn bits (read_complete (in_sub info) data) None) ;;
      send_branches c (me_src ev) ready multicastReady data (tail (kvSubscribers info)))
    (fun _ => delivers (erase_pending id) all 0 [] ing (delete i mem) log s) log s.
Proof.
  intros I Hp Hm H Ew data. pose proof (answered_inv _ _ _ _ _ _ _ _ _ I Hp Hm) as J.
  destruct (ma_read _ _ _ H Ew) as (_ & _ & O). cbn [snd] in O. pose proof (subscribers_cons _ (ma_subs _ _ _ H)) as Es. cbn [snd] in Es.
  rewrite Es in O. apply Forall_cons in O as [[O1 O2] O]. unfold of_pending, units_of in J. cbn [snd] in J. rewrite Ew, Es in J. cbn [map] in J.
  set (subs := tail (kvSubscribers info)) in *.
  apply wp_bind. eapply wp_mono; [apply (sendOrQueue_spec (erase_pending id) _ _ _ _ all (0 + total (map sb_creditUnits subs))
    (map (of_sub (hostAddr info) (in_size info)) subs) ing (delete i mem)); [apply forgets_erase| |done|]|].
  - unfold of_request, destination. cbn [dest payload]. rewrite Ew.
    change (total (sb_creditUnits (in_sub info) :: map sb_creditUnits subs)) with (sb_creditUnits (in_sub info) + total (map sb_creditUnits subs)) in J.
    by rewrite Z.add_0_l, Z.add_comm.
  - rewrite Z.add_0_l. apply total_nonneg, Forall_map. eapply Forall_impl; [exact O|]. by intros x [_ ?].
  - intros [] log1 s1 D. apply (send_branches_spec (erase_pending id)); [apply forgets_erase|done|done|]. by rewrite app_nil_r.
Qed.

Lemma trySend_spec now i ev number all ing mem log s :
  inv all 0 [] ing mem log s -> mem !! i = Some ev ->
  wp False (trySendGolemDmaResponse c link now (answer_of ev number))
    (fun b log' s' => b = true /\ emitted all [] ing (delete i mem) log s log' s') log s.
Proof.
  intros I Hm. destruct (find_answered _ _ _ _ _ _ _ number I Hm) as (info & Hf & Hp & Hma).
  unfold trySendGolemDmaResponse. wp_state. rewrite Hf. wp_fold. apply wp_bind, wp_update.
  set (s1 := if isWrite info then s else _).
  assert (quiet s s1) as Q1 by (unfold s1; destruct (isWrite info); [apply nic_quiet_refl|apply quiet_decrement]). clearbody s1.
  assert (networkAddressMap s1 = networkAddressMap s) as En by apply Q1. rewrite <- En in Hma.
  apply wp_bind. eapply wp_mono; [by apply (destination_spec (me_id ev))|]. intros dest log1 ? (-> & -> & ->).
  apply wp_bind. eapply wp_mono; [apply reserve_spec|]. intros multicastReady log1 s2 [-> Q2].
  assert (networkAddressMap s2 = networkAddressMap s1) as En2 by apply Q2. rewrite <- En2 in Hma |- *.
  pose proof (nic_quiet_trans _ _ _ Q1 Q2) as [Sa Ka]. pose proof (same_inv _ _ _ _ _ _ _ _ Sa I) as I2.
  assert (golem_dma_pending s2 !! i = Some (me_id ev, info)) as Hp2 by (destruct Sa as (_ & _ & _ & -> & _); done).
  apply wp_bind. apply (wp_mono _ _ (fun _ => delivers (erase_pending (me_id ev)) all 0 [] ing (delete i mem) log s2)).
  - destruct (isWrite info) eqn:Ew; [by apply write_deliver|].
    destruct (ma_read _ _ _ Hma Ew) as (E1 & E2 & _). cbn [snd] in E1, E2.
    unfold answer_of. cbn [me_payload me_dst]. rewrite E1, E2. apply wp_bind, wp_update.
    destruct (cache_inv _ _ _ _ _ _ _ info _ I2 eq_refl) as (I3 & K3 & E3 & E4).
    rewrite <- E4 in Hma |- *. rewrite <- E3 in Hp2.
    eapply wp_mono; [exact (read_deliver _ _ _ _ _ _ _ _ _ _ _ _ _ I3 Hp2 Hm Hma Ew)|].
    intros _ log3 s3 (J & K & F). split_and!; [done|by eapply nic_kept_trans|done].
  - intros _ log3 s3 (J & K & F). apply wp_bind, wp_update, wp_ret. split; [done|]. split_and!; [done| |done].
    eapply nic_kept_trans; [exact Ka|]. by eapply nic_kept_trans.
Qed.

(** ** Messages from the network *)

Lemma bridge_name_inj n n' : bridge_name n = bridge_name n' -> n = n'.
Proof. intros H. by apply (inj _) in H. Qed.

Lemma of_pending_grow m m' pending mem :
  (forall name, is_Some (m !! name) -> m' !! name = m !! name) -> Forall2 (matches m) pending mem ->
  at_memory m' pending mem = at_memory m pending mem /\ Forall2 (matches m') pending mem.
Proof.
  intros Hm H. unfold at_memory. induction H as [|p ev pending mem H _ [IH1 IH2]]; [done|]. cbn [zip_with concat]. rewrite IH1. split.
  - f_equal. unfold of_pending. destruct (isWrite (snd p)) eqn:Ew; [|done]. destruct (ma_write _ _ _ H Ew) as (_ & _ & Hs & _).
    by rewrite (Hm _ Hs).
  - constructor; [|done]. destruct H. constructor; [done..| |done]. intros Ew. destruct (ma_write0 Ew) as (? & ? & Hs & ?).
    split_and!; [done|done| |done]. by rewrite (Hm _ Hs).
Qed.

(** An endpoint that has no name gets one. *)
Lemma name_inv all paid hand ing mem log s src :
  inv all paid hand ing mem log s -> (forall name, networkAddressMap s !! name <> Some src) ->
  inv all paid hand ing mem log (s <| networkAddressMap := <[bridge_name src := src]> (networkAddressMap s) |>).
Proof.
  intros I Hn. set (m' := <[bridge_name src := src]> (networkAddressMap s)).
  assert (forall name, is_Some (networkAddressMap s !! name) -> m' !! name = networkAddressMap s !! name) as Hg.
  { intros name [a Ha]. unfold m'. destruct (decide (bridge_name src = name)) as [<-|]; [|by rewrite lookup_insert_ne].
    pose proof (v_names _ _ _ _ _ _ _ I _ _ Ha) as ->. by destruct (Hn (bridge_name src)). }
  destruct I. destruct (of_pending_grow _ _ _ _ Hg v_matches0) as [G1 G2].
  constructor; try done.
  - intros n a. cbn. fold m'. unfold m'. intros [[E <-]|[_ H]]%lookup_insert_Some; [by apply bridge_name_inj|by apply v_names0].
  - cbn. eapply Forall_impl; [exact v_packets0|]. intros [?|?|name]; [done|done|]. intros H. unfold packet_ok. fold m'. by rewrite (Hg _ H).
  - set (s' := s <| networkAddressMap := m' |>). assert (served mem log s' = served mem log s) as Es.
    { unfold served. change (networkAddressMap s') with m'. change (golem_dma_pending s') with (golem_dma_pending s). by rewrite G1. }
    by rewrite Es.
Qed.

Lemma source_name_spec src all paid hand ing mem log s :
  inv all paid hand ing mem log s ->
  wp False (source_name names src) (fun name log' s' => log' = log /\ inv all paid hand ing mem log s' /\ kept s s' /\
    golem_dma_send_queue_ s' = golem_dma_send_queue_ s /\ next_id s' = next_id s /\
    networkAddressMap s' !! name = Some src) log s.
Proof.
  intros I. unfold source_name. wp_state. destruct (list_find _ _) as [[i name]|] eqn:E; wp_fold.
  - apply wp_ret. apply list_find_Some in E as (_ & E & _). done.
  - apply wp_bind, wp_update, wp_ret. split_and!; try done; [|by cbn; rewrite lookup_insert_eq].
    apply name_inv; [done|]. intros name Hn. apply list_find_None in E. rewrite Forall_forall in E.
    eapply E; [|exact Hn]. apply names_all. by eexists.
Qed.

Lemma same_progress consumer s : quiet s (updateGolemDmaConsumerProgress consumer s).
Proof.
  unfold updateGolemDmaConsumerProgress. destruct (_ =? 0); [apply nic_quiet_refl|]. destruct (default _ _). solve_quiet.
Qed.

(** Whether reads wait for admission. *)
Definition admission_control : bool :=
  negb (golem_dma_credit_cap_ c =? 0) || golem_dma_window_priority_enable_ c.

(** What a message has changed: [me] goes to the memory. *)
Definition taken (all : list Answer) (mem : list MemEvent) (log : list effect) (s : t)
    (me : option MemEvent) (log' : list effect) (s' : t) : Prop :=
  log' = log /\ inv all 0 [] (golem_dma_ingress_queue_ s') (mem ++ option_list me) log s' /\
  clockOn s' = clockOn s /\ sendQueue s' = sendQueue s /\
  (admission_control = true -> golem_dma_send_queue_ s' = golem_dma_send_queue_ s).

Lemma receive_read_spec now src name ev all mem log s :
  inv all 0 (owed src ev) (golem_dma_ingress_queue_ s) mem log s -> type ev = READ -> event_ok ev ->
  wp False (receive_read c now src name ev) (taken all mem log s) log s.
Proof.
  intros I Ht Ho. destruct (Ho Ht) as [O1 O2]. unfold owed in I. rewrite Ht in I. unfold receive_read.
  apply wp_bind, wp_update. pose proof (same_progress (dmaConsumer ev) s) as [Q1 Q2]. set (s1 := updateGolemDmaConsumerProgress _ s) in *.
  pose proof (same_inv _ _ _ _ _ _ _ _ Q1 I) as I1. rewrite <- (k_ingress _ _ Q2) in I1.
  change (negb (golem_dma_credit_cap_ c =? 0) || golem_dma_window_priority_enable_ c) with admission_control.
  assert (golem_dma_send_queue_ s1 = golem_dma_send_queue_ s) as Es by apply Q1. destruct Q2 as [Q2 Q3 Q4]. destruct admission_control eqn:Ea.
  - set (units := if negb _ then _ else 0).
    assert (0 <= units <= golem_dma_credit_cap_ c) as Hu.
    { unfold units, is_u32 in *. destruct (Z.eqb_spec (golem_dma_credit_cap_ c) 0) as [E|E]; cbn [negb]; [lia|].
      specialize (O2 E). split; [|done]. unfold golemDmaCreditUnits. lia. }
    destruct (Z.ltb_spec (golem_dma_credit_cap_ c) units); [lia|]. apply wp_bind, wp_update, wp_ret.
    split_and!; [done| |done|done|done]. rewrite app_nil_r. destruct I1. constructor; try done.
    + cbn. apply Forall_app. split; [done|]. constructor; [|done]. destruct Hu as [Hu1 Hu2]. by split_and!.
    + eapply owed_move; [exact v_owed0|]. change (served mem log (set_field golem_dma_ingress_queue_ _ s1)) with (served mem log s1).
      change (unreceived (set_field golem_dma_ingress_queue_ _ s1)) with (unreceived s1). cbn [golem_dma_ingress_queue_ set_field].
      cbn. rewrite map_app. cbn [map].
      change (of_ingress _) with (of_sub (addr ev) (u32 (length ev)) (subscriber_of ev 0)). solve_Permutation.
  - eapply wp_mono; [apply (create_spec now (mkIngress now src name (addr ev) (u32 (length ev)) (subscriber_of ev 0)) all 0 []
      (golem_dma_ingress_queue_ s1) mem); [exact I1|split; [exact O1|cbn; lia]|lia]|].
    intros me log' s' (-> & K & I2 & _). split_and!; [done| | | |congruence].
    + by rewrite (k_ingress _ _ K).
    + by rewrite (k_clock _ _ K).
    + by rewrite (k_other _ _ K).
Qed.

Lemma receive_write_spec src name ev all mem log s :
  inv all 0 (owed src ev) (golem_dma_ingress_queue_ s) mem log s -> type ev = DMA_WRITE -> networkAddressMap s !! name = Some src ->
  wp False (receive_write name ev) (taken all mem log s) log s.
Proof.
  intros I Ht Hn. unfold owed in I. rewrite Ht in I. unfold receive_write. wp_state. wp_fold.
  apply wp_bind, wp_update, wp_ret. split_and!; [done| |done|done|done].
  fold (write_info ev). apply (forward_inv all 0 0 [] _ _ _ _ _ _ [(src, write_complete (write_info ev))]); [exact I|done| |done|].
  - constructor; cbn; [done|by left|by constructor; [lia|]| |done]. intros _. split_and!; [done|done|by exists src|by eexists].
  - unfold of_pending. cbn. by rewrite Hn.
Qed.

Lemma receive_golem_spec now src ev all mem log s :
  inv all 0 (owed src ev) (golem_dma_ingress_queue_ s) mem log s -> event_ok ev ->
  wp False (receive_golem c names now src ev) (taken all mem log s) log s.
Proof.
  intros I Ho. unfold receive_golem. apply wp_bind. eapply wp_mono; [by apply source_name_spec|].
  intros name log' s1 (-> & I1 & [K1 K2 K3] & Eq & _ & Hn). rewrite <- K3 in I1.
  apply (wp_mono _ _ (taken all mem log s1)).
  2: { intros me log' s' (-> & I2 & C1 & C2 & C3). split_and!; [done|done|congruence|congruence|]. intros A. by rewrite C3, Eq. }
  assert (forall s2, quiet s1 s2 -> owed src ev = [] -> taken all mem log s1 None log s2) as Hskip.
  { intros s2 [Q1 [Q2 Q3 Q4]] E. split_and!; [done| |done|done|intros _; apply Q1]. rewrite app_nil_r, Q4. rewrite E in I1. by eapply same_inv. }
  destruct (type ev) eqn:Ht; try (apply wp_ret, Hskip; [apply nic_quiet_refl|unfold owed; by rewrite Ht]).
  - by apply receive_read_spec.
  - by apply (receive_write_spec src).
  - apply wp_bind, wp_update, wp_ret. apply Hskip; [apply same_progress|unfold owed; by rewrite Ht].
Qed.

Lemma concat_pop {A} (l : list (list A)) i x q : l !! i = Some (x :: q) -> concat l ≡ₚ x :: concat (<[i := q]> l).
Proof.
  intros H. rewrite <- (take_drop_middle _ _ _ H) at 1. rewrite insert_take_drop by (by eapply lookup_lt_Some).
  rewrite !concat_app. cbn. solve_Permutation.
Qed.

Lemma recv_spec startVn all ing mem log s :
  inv all 0 [] ing mem log s ->
  wp False (recv c startVn) (fun p log' s' => log' = log /\ kept s s' /\ golem_dma_send_queue_ s' = golem_dma_send_queue_ s /\
    match p with
    | None => s' = s
    | Some p => inv all 0 (of_packet p) ing mem log s' /\ packet_ok (networkAddressMap s') p
    end) log s.
Proof.
  intros I. unfold recv. wp_state. destruct (list_find _ _) as [[i vn]|]; [|by wp_fold; apply wp_ret].
  destruct ((received s).[vn]) as [|p q] eqn:E; wp_fold; [by apply wp_ret|]. apply wp_bind, wp_update, wp_ret.
  assert (received s !! Z.to_nat vn = Some (p :: q)) as Hl.
  { rewrite list_lookup_total_alt in E. by destruct (received s !! Z.to_nat vn); cbn in E; [f_equal|]. }
  apply concat_pop in Hl. destruct I. rewrite Hl in v_packets0. apply Forall_cons in v_packets0 as [P1 P2].
  split; [done|]. split; [done|]. split; [done|]. split; [|done]. constructor; try done.
  eapply owed_move; [exact v_owed0|]. unfold unreceived at 1. rewrite Hl.
  set (s' := s <| received := _ |> <| golem_recv_vn_cursor_ := _ |>).
  change (of_packets (p :: concat ((received s).[vn:=q]))) with (of_packet p ++ unreceived s').
  change (served mem log s') with (served mem log s). solve_Permutation.
Qed.

(** ** Handlers *)

(** A clock that is off has nothing to do, now and later. *)
Definition rest (time : Z) (s : t) : Prop :=
  clockOn s = false -> golem_dma_send_queue_ s = [] /\ sendQueue s = [] /\
    forall now, time <= now -> golemDmaIngressCanProgress c now s = false.

Lemma empty_progress now s : golem_dma_ingress_queue_ s = [] -> golemDmaIngressCanProgress c now s = false.
Proof. intros H. unfold golemDmaIngressCanProgress. rewrite H. by rewrite andb_false_r. Qed.
Lemma progress_mono now now' s :
  now <= now' -> golemDmaIngressCanProgress c now s = false -> golemDmaIngressCanProgress c now' s = false.
Proof.
  intros H. unfold golemDmaIngressCanProgress. destruct (golem_dma_ingress_queue_ s) as [|k q] eqn:E; [by rewrite andb_false_r|]. rewrite andb_true_r.
  rewrite <- E. clear E k q. set (q := golem_dma_ingress_queue_ s). destruct (golem_dma_window_priority_enable_ c).
  - destruct (hasConsumerMetadata q).
    + intros [H1%Z.leb_gt ->]%orb_false_iff. rewrite orb_false_r. apply Z.leb_gt. lia.
    + destruct (oldest_window q) as [oldest first]. intros [H1%Z.leb_gt ->]%orb_false_iff. rewrite orb_false_r. apply Z.leb_gt. lia.
  - intros Hf. apply not_true_iff_false. intros (k & Hk & Ht)%existsb_exists. apply not_true_iff_false in Hf. apply Hf, existsb_exists.
    exists k. split; [done|]. apply orb_true_iff in Ht as [Ht|Ht]; apply orb_true_iff; [|by right]. left. apply Z.leb_le in Ht. apply Z.leb_le. lia.
Qed.

Definition handled (all : list Answer) (mem : list MemEvent) (log : list effect) (log' : list effect) (s' : t) : Prop :=
  exists out, inv all 0 [] (golem_dma_ingress_queue_ s') (mem ++ out) log' s' /\ forwarded log' = forwarded log ++ out.

Lemma start_clock_spec all ing mem log s :
  inv all 0 [] ing mem log s ->
  wp False start_clock (fun _ log' s' => inv all 0 [] ing mem log' s' /\ forwarded log' = forwarded log /\
    golem_dma_ingress_queue_ s' = golem_dma_ingress_queue_ s /\ clockOn s' = true) log s.
Proof.
  intros I. unfold start_clock. wp_state. destruct (clockOn s) eqn:E; wp_fold; [by apply wp_ret|].
  apply wp_bind, wp_update, wp_send. split_and!; [|by rewrite forwarded_app, app_nil_r|done|done].
  eapply inv_log; [by rewrite sends_app, app_nil_r|]. eapply same_inv; [|exact I]. by unfold same; split_and!.
Qed.

Lemma hand_over_spec out log s Q : Q tt (log ++ out) s -> wp False (hand_over out) Q log s.
Proof.
  revert log. induction out as [|o out IH]; intros log H; cbn [hand_over]; [apply wp_ret; by rewrite app_nil_r in H|].
  apply wp_bind, wp_send, IH. by rewrite <- app_assoc.
Qed.

Lemma doRecv_spec now vn all mem log s :
  inv all 0 [] (golem_dma_ingress_queue_ s) mem log s ->
  wp False (doRecv c link names now vn)
    (fun out log' s' => inv all 0 [] (golem_dma_ingress_queue_ s') (mem ++ forwarded out) log' s' /\ sends out = [] /\
       forwarded log' = forwarded log /\ clockOn s' = clockOn s /\ sendQueue s' = sendQueue s /\
       (admission_control = true -> golem_dma_send_queue_ s = [] -> golem_dma_send_queue_ s' = [])) log s.
Proof.
  intros I. unfold doRecv. apply wp_bind. eapply wp_mono; [by apply drain_spec|].
  intros [] log1 s1 ((I1 & [K1 K2 K3] & F) & D & _). rewrite <- K3 in I1.
  wp_state. wp_fold. apply wp_bind. eapply wp_mono; [by apply recv_spec|].
  intros p log2 s2 (-> & [L1 L2 L3] & E2 & H). destruct p as [[src ev|number|name]|].
  - destruct H as [I2 Ho]. rewrite <- L3 in I2. apply wp_bind. eapply wp_mono; [by apply receive_golem_spec|].
    intros me log' s' (-> & I3 & C1 & C2 & C3). apply wp_ret. split_and!; [|by destruct me|done|congruence|congruence|].
    + by destruct me.
    + intros A E. rewrite (C3 A), E2, (D E). done.
  - destruct H as [I2 Ho]. rewrite <- L3 in I2. apply wp_ret. split_and!; [by rewrite app_nil_r|done|done|congruence|congruence|].
    intros A E. by rewrite E2, (D E).
  - destruct H as [I2 [a Ha]]. rewrite <- L3 in I2. apply wp_bind. unfold lookupNetworkAddress. wp_state. rewrite Ha. wp_fold.
    apply wp_ret, wp_ret. split_and!; [by rewrite app_nil_r|done|done|congruence|congruence|]. intros A E. by rewrite E2, (D E).
  - subst s2. apply wp_ret. split_and!; [by rewrite app_nil_r|done|done|congruence|congruence|]. intros A E. by rewrite (D E).
Qed.

Lemma recvNotify_spec now vn all mem log s time :
  inv all 0 [] (golem_dma_ingress_queue_ s) mem log s ->
  wp False (recvNotify c link names now vn)
    (fun _ log' s' => handled all mem log log' s' /\ (admission_control = true -> rest time s -> rest now s')) log s.
Proof.
  intros I. unfold recvNotify. apply wp_bind. eapply wp_mono; [by apply doRecv_spec|].
  intros out log1 s1 (I1 & S & F & C & O & D). apply wp_bind, hand_over_spec.
  assert (inv all 0 [] (golem_dma_ingress_queue_ s1) (mem ++ forwarded out) (log1 ++ out) s1) as I2.
  { eapply inv_log; [|exact I1]. by rewrite sends_app, S, app_nil_r. }
  assert (forwarded (log1 ++ out) = forwarded log ++ forwarded out) as F2 by (by rewrite forwarded_app, F).
  wp_state. destruct (golem_dma_ingress_queue_ s1) as [|k q] eqn:E; wp_fold; rewrite <- E in I2.
  - apply wp_ret. split; [by eexists|]. intros A R Hoff. rewrite C in Hoff. destruct (R Hoff) as (R1 & R2 & _).
    split_and!; [by apply D|congruence|]. intros now' _. by apply empty_progress.
  - eapply wp_mono; [by apply start_clock_spec|]. intros [] log2 s2 (I3 & F3 & E3 & C3). split; [|by intros _ _ Hoff; rewrite C3 in Hoff].
    exists (forwarded out). split; [by rewrite E3|by rewrite F3].
Qed.

Lemma rest_empty time s :
  golem_dma_send_queue_ s = [] -> (clockOn s = false -> sendQueue s = []) -> golem_dma_ingress_queue_ s = [] -> rest time s.
Proof. intros H1 H2 H3 Hoff. split_and!; [done|by apply H2|]. intros now _. by apply empty_progress. Qed.
Lemma rest_on time s : clockOn s = true -> rest time s.
Proof. intros H Hoff. congruence. Qed.

(** The memory answers the [i]-th event. *)
Lemma send_answer_spec now i ev number all mem log s time :
  inv all 0 [] (golem_dma_ingress_queue_ s) mem log s -> mem !! i = Some ev ->
  wp False (send c link now (answer_of ev number))
    (fun _ log' s' => handled all (delete i mem) log log' s' /\ (rest time s -> rest now s')) log s.
Proof.
  intros I Hm. unfold send. apply wp_bind. eapply wp_mono; [by apply trySend_spec|].
  intros b log1 s1 (-> & I1 & [K1 K2 K3] & F1). rewrite <- K3 in I1.
  assert (handled all (delete i mem) log log1 s1) as H1 by (exists []; by rewrite !app_nil_r).
  assert (forall log', inv all 0 [] (golem_dma_ingress_queue_ s1) (delete i mem) log' s1 -> forwarded log' = forwarded log1 ->
    wp False start_clock (fun _ log' s' => handled all (delete i mem) log log' s' /\ (rest time s -> rest now s')) log' s1) as Start.
  { intros log' I' F'. eapply wp_mono; [by apply start_clock_spec|]. intros [] log2 s2 (I2 & F2 & E2 & C2).
    split; [|intros _; by apply rest_on]. exists []. rewrite !app_nil_r, E2. split; [done|congruence]. }
  wp_state. destruct (golem_dma_send_queue_ s1) as [|r q] eqn:Eq; [destruct (golem_dma_ingress_queue_ s1) as [|k l] eqn:Ei|]; wp_fold.
  - apply wp_ret. split; [done|]. intros R. apply rest_empty; [done| |done]. rewrite K1, K2. intros Hoff. apply R in Hoff. apply Hoff.
  - by apply Start.
  - by apply Start.
Qed.

Lemma aside_inv all mem log s log' s' :
  aside log s log' s' -> inv all 0 [] (golem_dma_ingress_queue_ s) mem log s -> inv all 0 [] (golem_dma_ingress_queue_ s') mem log' s'.
Proof. intros [A1 A2 A3 A4 A5] I. rewrite A3. eapply inv_log; [exact A4|]. by eapply same_inv. Qed.
Lemma aside_rest time now log s log' s' :
  aside log s log' s' -> time <= now -> sendQueue s' = [] -> rest time s -> rest now s'.
Proof.
  intros [(_ & _ & A3 & _ & _ & A6 & _) B1 B2 _ _] Ht E R Hoff. rewrite B1 in Hoff. destruct (R Hoff) as (R1 & R2 & R3).
  split_and!; [congruence|done|]. intros now' Hn. rewrite <- (R3 now') by lia.
  unfold golemDmaIngressCanProgress, affordable. by rewrite B2, A3.
Qed.

(** Other traffic of the memory. *)
Lemma send_other_spec now ev all mem log s time :
  inv all 0 [] (golem_dma_ingress_queue_ s) mem log s ->
  responseToID ev ∉ map fst (golem_dma_pending s) -> is_Some (networkAddressMap s !! me_dst ev) -> time <= now ->
  wp False (send c link now ev)
    (fun _ log' s' => handled all mem log log' s' /\ (rest time s -> rest now s')) log s.
Proof.
  intros I Hn [a Ha] Ht. unfold send. apply wp_bind. unfold trySendGolemDmaResponse. wp_state.
  rewrite (proj2 (list_find_None _ _)).
  2:{ apply Forall_forall. intros p Hp E. apply Hn. rewrite <- E. apply list_elem_of_fmap. by exists p. }
  wp_fold. apply wp_ret. unfold send_other. apply wp_bind. unfold lookupNetworkAddress. wp_state. rewrite Ha. wp_fold. apply wp_ret.
  set (r := mkOtherRequest _ _ _). apply wp_bind, wp_update. set (s1 := s <| sendQueue := _ |>).
  assert (aside log s log s1) as A1 by (constructor; try done; by unfold same; split_and!).
  assert (sendQueue s1 = sendQueue s ++ [r]) as E1 by done. clearbody s1.
  apply wp_bind. wp_state. rewrite E1, length_app. destruct (sendQueue s) as [|o q] eqn:Eq.
  - change ((List.length [] + List.length [r] =? 1)%nat) with true. cbv iota. unfold drainQueue. rewrite E1. wp_fold.
    eapply wp_mono; [apply drain_other_spec|]. intros [] log2 s2 [A2 L2].
    assert (aside log s log2 s2) as A.
    { destruct A1 as [(? & ? & ? & ? & ? & ? & ?) ? ? ? ?], A2 as [(? & ? & ? & ? & ? & ? & ?) ? ? ? ?].
      constructor; try congruence. unfold same. split_and!; congruence. }
    pose proof (aside_inv _ _ _ _ _ _ A I) as I2. wp_state.
    destruct (Nat.eqb_spec (List.length (sendQueue s2)) 1) as [El|El]; wp_fold.
    + eapply wp_mono; [by apply start_clock_spec|]. intros [] log3 s3 (I3 & F3 & E3 & C3).
      split; [|intros _; by apply rest_on]. exists []. rewrite !app_nil_r, E3. split; [done|]. rewrite F3. apply A.
    + apply wp_ret. split; [exists []; rewrite !app_nil_r; split; [done|apply A]|]. eapply aside_rest; [exact A|done|].
      apply length_zero_iff_nil. cbn in L2. lia.
  - replace ((List.length (o :: q) + List.length [r] =? 1)%nat) with false by (symmetry; apply Nat.eqb_neq; cbn; lia). wp_fold.
    apply wp_ret. wp_state. replace ((List.length (sendQueue s1) =? 1)%nat) with false
      by (symmetry; apply Nat.eqb_neq; rewrite E1, length_app; cbn; lia). wp_fold.
    apply wp_ret. split; [exists []; rewrite !app_nil_r; split; [by eapply aside_inv|apply A1]|].
    intros R Hoff. rewrite (as_clock _ _ _ _ A1) in Hoff. destruct (R Hoff) as (_ & E & _). congruence.
Qed.

Lemma forwarded_map l : forwarded (map ToMemory l) = l.
Proof. unfold forwarded. induction l as [|x l IH]; cbn; [done|]. by f_equal. Qed.
Lemma sends_map l : sends (map ToMemory l) = [].
Proof. unfold sends. by induction l. Qed.

Lemma clock_spec now all mem log s :
  inv all 0 [] (golem_dma_ingress_queue_ s) mem log s -> clockOn s = true ->
  wp False (clock c link sort now)
    (fun _ log' s' => handled all mem log log' s' /\ rest now s' /\
       ((forall n, link n = true) -> golem_dma_response_drain_limit c = 0 ->
        forall r, r ∈ golem_dma_send_queue_ s' -> eligible c (golemDmaResponseNowCycle c now) r = false)) log s.
Proof.
  intros I On. unfold clock. apply wp_bind. eapply wp_mono; [by eapply admit_spec|].
  intros ad log1 s1 [[-> C1 O1 I1] _]. apply wp_bind, hand_over_spec.
  assert (inv all 0 [] (golem_dma_ingress_queue_ s1) (mem ++ ad) (log ++ map ToMemory ad) s1) as I2.
  { eapply inv_log; [|exact I1]. by rewrite sends_app, sends_map, app_nil_r. }
  apply wp_bind. eapply wp_mono; [by apply drain_spec|]. intros [] log3 s3 [(I3 & [K1 K2 K3] & F3) [_ D]]. rewrite <- K3 in I3.
  apply wp_bind. unfold drainQueue. wp_state. wp_fold. eapply wp_mono; [apply drain_other_spec|]. intros [] log4 s4 [A _].
  pose proof (aside_inv _ _ _ _ _ _ A I3) as I4.
  assert (forwarded log4 = forwarded log ++ ad) as F4.
  { rewrite (as_forwarded _ _ _ _ A), F3, forwarded_app. by rewrite forwarded_map. }
  assert (handled all mem log log4 s4) as H4 by (by exists ad).
  assert (clockOn s4 = true) as On4 by (rewrite (as_clock _ _ _ _ A); congruence).
  assert (golem_dma_send_queue_ s4 = golem_dma_send_queue_ s3) as E4 by apply A. rewrite <- E4 in D.
  wp_state. destruct (sendQueue s4) eqn:Eo; [destruct (golem_dma_send_queue_ s4) eqn:Eq|];
    [destruct (golemDmaIngressCanProgress c now s4) eqn:Ep| |]; wp_fold; try (apply wp_ret; split_and!; [done|by apply rest_on|by rewrite ?Eq]).
  apply wp_bind, wp_update, wp_ret. split_and!; [| |by cbn; rewrite Eq].
  - destruct H4 as (out & H4 & H5). exists out. split; [|done]. eapply same_inv; [|exact H4]. by unfold same; split_and!.
  - intros _. split_and!; [done|done|]. intros now' Hn. by apply (progress_mono now).
Qed.

(** ** Arrivals *)

Lemma concat_push (l : list (list Packet)) (vn : nat) (q : list Packet) p :
  l !! vn = Some q -> concat (<[vn := q ++ [p]]> l) ≡ₚ concat l ++ [p].
Proof.
  intros H. rewrite <- (take_drop_middle _ _ _ H) at 2. rewrite insert_take_drop by (by eapply lookup_lt_Some).
  rewrite !concat_app. cbn [concat]. solve_Permutation.
Qed.

Lemma arrive_inv all ing mem log s vn q p :
  inv all 0 [] ing mem log s -> received s !! vn = Some q -> packet_ok (networkAddressMap s) p ->
  inv (all ++ of_packet p) 0 [] ing mem log (s <| received := <[vn := q ++ [p]]> (received s) |>).
Proof.
  intros [] H Hp. pose proof (concat_push _ _ _ p H) as E. constructor; try done.
  - change (Forall (packet_ok (networkAddressMap s)) (concat (<[vn := q ++ [p]]> (received s)))). rewrite E.
    apply Forall_app. by split; [|apply Forall_singleton].
  - destruct v_owed0 as (d & H1 & H2). exists d.
    assert ([] ++ unreceived (s <| received := <[vn := q ++ [p]]> (received s) |>) ++ map of_ingress ing ++ served mem log s ≡ₚ
      ([] ++ unreceived s ++ map of_ingress ing ++ served mem log s) ++ of_packet p) as Ep.
    { unfold unreceived. change (received (s <| received := ?x |>)) with x. rewrite E, of_packets_app.
      unfold of_packets at 2. cbn [map concat]. rewrite app_nil_r. solve_Permutation. }
    split; [change (served mem log (s <| received := ?x |>)) with (served mem log s); rewrite Ep, H1; solve_Permutation|].
    eapply Forall_impl; [exact H2|]. intros x (y & Hy & Hx). exists y. split; [|done].
    change (served mem log (s <| received := ?x |>)) with (served mem log s). rewrite Ep. apply elem_of_app. by left.
Qed.

(** ** A bridge at rest *)

Lemma oldest_fold q : forall acc, let r := foldl (fun '(oldestWindow, firstArrival) ingress =>
      if window_of ingress <? oldestWindow then (window_of ingress, arrivalCycle ingress)
      else if window_of ingress =? oldestWindow then (oldestWindow, Z.min firstArrival (arrivalCycle ingress))
      else (oldestWindow, firstArrival)) acc q in
  (fst r = fst acc \/ exists k, k ∈ q /\ window_of k = fst r) /\ fst r <= fst acc /\ forall k, k ∈ q -> fst r <= window_of k.
Proof.
  induction q as [|x q IH]; intros [w first]; cbv zeta; cbn [foldl].
  { split_and!; [by left|done|]. by intros k ?%elem_of_nil. }
  set (acc := if window_of x <? w then _ else _). specialize (IH acc). cbv zeta in IH. destruct IH as (H1 & H2 & H3).
  assert (fst acc <= w /\ fst acc <= window_of x /\ (fst acc = w \/ fst acc = window_of x)) as (A1 & A2 & A3).
  { unfold acc. destruct (Z.ltb_spec (window_of x) w); [cbn; lia|]. destruct (window_of x =? w); cbn; lia. }
  cbn [fst]. split_and!.
  - destruct H1 as [H1|(k & Hk & E)]; [|right; exists k; split; [by constructor|done]].
    destruct A3 as [A3|A3]; [left; lia|]. right. exists x. split; [by constructor|lia].
  - lia.
  - intros k [->|Hk]%elem_of_cons; [lia|by apply H3].
Qed.
Lemma window_small k : 0 <= window_of k < 2 ^ 24.
Proof.
  unfold window_of, golemDmaWindowId. set (id := sb_requestId _). change 0xffffffff with (Z.ones 32). rewrite Z.land_ones by lia.
  rewrite Z.shiftr_div_pow2 by lia. pose proof (Z.mod_pos_bound id (2 ^ 32) ltac:(lia)).
  assert (0 <= id mod 2 ^ 32 / 2 ^ 8 < 2 ^ 24) by (split; [apply Z.div_pos; lia|apply Z.div_lt_upper_bound; lia]).
  rewrite u32_small; [done|]. unfold is_u32. lia.
Qed.
Lemma oldest_attained q : q <> [] -> exists k, k ∈ q /\ window_of k = fst (oldest_window q).
Proof.
  intros H. destruct (oldest_fold q (2 ^ 32 - 1, 2 ^ 64 - 1)) as ([E|E] & _ & L); [|done].
  destruct q as [|k q]; [done|]. specialize (L k (list_elem_of_here _ _)). rewrite E in L. cbn [fst] in L.
  pose proof (window_small k). lia.
Qed.

(** Requests that can all be paid make progress. *)
Lemma affordable_progress now s :
  golem_dma_ingress_queue_ s <> [] -> Forall (fun k => affordable s k = true) (golem_dma_ingress_queue_ s) ->
  golemDmaIngressCanProgress c now s = true.
Proof.
  unfold golemDmaIngressCanProgress. set (q := golem_dma_ingress_queue_ s). intros H A. rewrite Forall_forall in A.
  assert (exists k, k ∈ q) as [k Hk] by (destruct q as [|k q']; [done|by exists k; constructor]).
  assert (existsb (affordable s) q = true) as E1 by (apply existsb_exists; exists k; rewrite <- list_elem_of_In; auto).
  assert (match q with [] => false | _ => true end = true) as -> by (by destruct q). rewrite andb_true_r.
  destruct (golem_dma_window_priority_enable_ c); [destruct (hasConsumerMetadata q)|].
  - by rewrite E1, orb_true_r.
  - destruct (oldest_attained q H) as (k' & Hk' & Ew). destruct (oldest_window q) as [w first]. apply orb_true_iff. right.
    apply existsb_exists. exists k'. rewrite <- list_elem_of_In. split; [done|]. cbn [fst] in Ew. by rewrite Ew, Z.eqb_refl, A.
  - apply existsb_exists. exists k. rewrite <- list_elem_of_In. split; [done|]. by rewrite (A k), orb_true_r.
Qed.

(** With nothing at the memory, nothing waits. *)
Lemma rest_all_sent all time log s :
  inv all 0 [] (golem_dma_ingress_queue_ s) [] log s -> rest time s -> clockOn s = false -> unreceived s = [] ->
  golem_dma_ingress_queue_ s = [] /\ golem_dma_send_queue_ s = [] /\ golem_dma_credit_available_ s = golem_dma_credit_cap_ c /\
  accounts all (sends log).
Proof.
  intros I R Hoff Hu. destruct (R Hoff) as (R1 & _ & R2). destruct I. apply Forall2_nil_inv_r in v_matches0.
  rewrite v_matches0, R1 in v_credits0. change (pending_units []) with 0 in v_credits0. change (queue_units []) with 0 in v_credits0.
  assert (golem_dma_credit_available_ s = golem_dma_credit_cap_ c) as Ec by lia.
  assert (golem_dma_ingress_queue_ s = []) as Ei.
  { destruct (decide (golem_dma_ingress_queue_ s = [])) as [?|Hne]; [done|]. specialize (R2 time ltac:(lia)).
    rewrite (affordable_progress _ _ Hne) in R2; [done|]. eapply Forall_impl; [exact v_ingress0|].
    intros k [_ Hk]. unfold affordable. apply Z.leb_le. lia. }
  split_and!; [done|done|done|]. rewrite Hu, Ei in v_owed0. unfold served, at_memory, queued in v_owed0.
  by rewrite v_matches0, R1 in v_owed0.
Qed.
End NicFacts.
