(* ===== verification/MemNicAnswers.v ===== *)
(** * Memory node: histories

    Histories of a memory node interleave arrivals from the network, its
    notifications, clock ticks, answers of the memory and other traffic of the
    memory.  With the handlers' specifications of [MemNicSteps], every history
    keeps the books of answers and credits, never stops with a fatal error, and
    turns the clock off only when nothing is left to do; where the bridge breaks
    this promise is shown at the end. *)

From S2P Require Import Prelude Telemetry Cluster GroupMsg LocalMem Dma Effects MemNic MemNicSteps.
From stdpp Require Import strings pretty sorting.
#[local] Open Scope Z_scope.
#[local] Open Scope mach_scope.

(** ** Histories *)

Section History.
Import Net MemNic.

Variable c : Config.
Variable link : Z -> bool.
Variable names : gmap string Z -> list string.
Variable sort : list GolemDmaIngressRequest -> list GolemDmaIngressRequest.
(** The contents of the memory; what is read is not written meanwhile. *)
Variable host : Z -> Z -> list Z.

(** The node, the events the memory works on, and what has happened. *)
Record World := mkWorld {
  nic : t;
  memory : list MemEvent;
  arrived : list Packet;
  log : list effect;
  time : Z
}.

Inductive Input :=
| Arrive (vn : nat) (p : Packet)
| Notify (now vn : Z)
| Clock (now : Z)
| Answered (now : Z) (i : nat) (number : Z)
| Other (now : Z) (ev : MemResponse).

Definition after {A} (r : option (A * (list effect * t))) (mem : list MemEvent) (now : Z) (w : World) : option World :=
  match r with
  | None => None
  | Some (_, (out, s)) => Some (mkWorld s (mem ++ forwarded out) (arrived w) (log w ++ out) now)
  end.

Definition react (w : World) (i : Input) : option World :=
  match i with
  | Arrive vn p =>
      let s := nic w in
      Some (mkWorld (s <| received := <[vn := default [] (received s !! vn) ++ [p]]> (received s) |>)
                    (memory w) (arrived w ++ [p]) (log w) (time w))
  | Notify now vn => after (recvNotify c link names now vn (nic w)) (memory w) now w
  | Clock now => after (clock c link sort now (nic w)) (memory w) now w
  | Answered now i number =>
      match memory w !! i with
      | None => Some w
      | Some ev => after (send c link now (answer_of host ev number) (nic w)) (delete i (memory w)) now w
      end
  | Other now ev => after (send c link now ev (nic w)) (memory w) now w
  end.

Fixpoint run (w : World) (l : list Input) : option World :=
  match l with [] => Some w | i :: l => match react w i with None => None | Some w' => run w' l end end.

(** What the surroundings guarantee: packets the node can serve on its virtual
    networks, time that does not go back, a clock that ticks only when it is on,
    and other traffic that answers no request of the bridge. *)
Definition fits (w : World) (i : Input) : Prop :=
  match i with
  | Arrive vn p => (vn < List.length (received (nic w)))%nat /\ packet_ok c (networkAddressMap (nic w)) p
  | Notify now _ => time w <= now
  | Clock now => time w <= now /\ clockOn (nic w) = true
  | Answered now _ _ => time w <= now
  | Other now ev => time w <= now /\ (responseToID ev ∉ map fst (golem_dma_pending (nic w))) /\
      is_Some (networkAddressMap (nic w) !! me_dst ev)
  end.
Fixpoint fitting (w : World) (l : list Input) : Prop :=
  match l with [] => True | i :: l => fits w i /\ forall w', react w i = Some w' -> fitting w' l end.

Definition start (endpoints : gmap string Z) : World := mkWorld (init c endpoints) [] [] [] 0.

Hypothesis sort_perm : forall q, sort q ≡ₚ q.
Hypothesis names_all : forall m name, is_Some (m !! name) -> name ∈ names m.
Hypothesis cap_u32 : is_u32 (golem_dma_credit_cap_ c).

Definition good (w : World) : Prop :=
  inv c host (of_packets host (arrived w)) 0 [] (golem_dma_ingress_queue_ (nic w)) (memory w) (log w) (nic w) /\
  (admission_control c = true -> rest c (time w) (nic w)).

Lemma after_good {A} (m : M A) mem now w :
  wp False m (fun _ log' s' => handled c host (of_packets host (arrived w)) mem (log w) log' s' /\
    (admission_control c = true -> rest c now s')) (log w) (nic w) ->
  exists w', after (m (nic w)) mem now w = Some w' /\ good w'.
Proof.
  unfold wp, after. destruct (m (nic w)) as [[a [out s']]|]; [|done]. intros [(ms & I & F) R].
  rewrite forwarded_app in F. apply app_inv_head in F as <-. eexists. split; [done|]. by split.
Qed.

Lemma input_good w i : good w -> fits w i -> exists w', react w i = Some w' /\ good w'.
Proof.
  intros [I R] Hf. destruct i as [vn p|now vn|now|now i number|now ev]; cbn [react fits] in *.
  - destruct Hf as [Hl Hp]. apply lookup_lt_is_Some in Hl as [q Hq]. eexists. split; [done|]. rewrite Hq. split; [|done].
    cbn [arrived nic memory log]. rewrite of_packets_app. unfold of_packets at 2. cbn [map concat]. rewrite app_nil_r.
    by apply arrive_inv.
  - apply after_good. eapply wp_mono; [by eapply recvNotify_spec|]. intros [] log' s' [H1 H2]. split; [done|].
    intros A. by eapply H2, R.
  - apply after_good. eapply wp_mono; [by eapply clock_spec; [..|apply Hf]|]. intros ? log' s' (H1 & H2 & _). by split; [|intros _].
  - destruct (memory w !! i) as [ev|] eqn:E; [|by eexists]. apply after_good.
    eapply wp_mono; [by eapply send_answer_spec|]. intros [] log' s' [H1 H2]. split; [done|]. intros A. by eapply H2, R.
  - destruct Hf as (Ht & Hn & Ha). apply after_good. eapply wp_mono; [by eapply send_other_spec|]. intros [] log' s' [H1 H2]. split; [done|]. intros A. by eapply H2, R.
Qed.

Lemma run_good l : forall w, good w -> fitting w l -> exists w', run w l = Some w' /\ good w'.
Proof.
  induction l as [|i l IH]; intros w G Hf; [by eexists|]. destruct Hf as [Hf Hl].
  destruct (input_good _ _ G Hf) as (w1 & E & G1). cbn [run]. rewrite E. auto.
Qed.

(** Bridge names of the endpoint table stand for their endpoint. *)
Definition endpoints_ok (endpoints : gmap string Z) : Prop :=
  forall n a, endpoints !! bridge_name n = Some a -> a = n.

Lemma start_good endpoints : endpoints_ok endpoints -> good (start endpoints).
Proof.
  intros H. split; [|intros _; by apply rest_on]. unfold start. cbn [nic memory arrived log].
  assert (concat (received (init c endpoints)) = []) as E.
  { unfold init. cbn [received]. generalize (Z.to_nat (golem_network_num_vns_ c)). intros n. by induction n. }
  unfold is_u32 in cap_u32. constructor; try done.
  - cbn. lia.
  - cbn [golem_dma_credit_available_ golem_dma_pending golem_dma_send_queue_ init]. change (pending_units []) with 0.
    change (queue_units []) with 0. lia.
  - split; constructor.
  - by rewrite E.
  - exists []. split; [|constructor]. unfold unreceived. by rewrite E.
Qed.

Lemma start_run endpoints l :
  endpoints_ok endpoints -> fitting (start endpoints) l -> exists w, run (start endpoints) l = Some w /\ good w.
Proof. intros H. by apply run_good, start_good. Qed.

(** C9. Every read and write a core has sent to the memory node is accounted for:
    its answer, to the right endpoint, with the right ids and with the bytes of the
    memory, is still in a network queue, waits for admission, is awaited from the
    memory, waits for the network, or has been sent - exactly once, whatever the
    order of arrivals, ticks, answers and refusals of the network, with shared K/V
    reads coalesced and served from the cache.  Only a read with the endpoint and
    the id of one that is accounted for may be dropped. *)
Theorem nic_answers_exactly endpoints l :
  endpoints_ok endpoints -> fitting (start endpoints) l ->
  exists w duplicates, run (start endpoints) l = Some w /\
    let s := nic w in
    let present := unreceived host s ++ map (of_ingress host) (golem_dma_ingress_queue_ s) ++
      at_memory host (networkAddressMap s) (golem_dma_pending s) (memory w) ++ queued s ++ sends (log w) in
    of_packets host (arrived w) ≡ₚ duplicates ++ present /\ Forall (twin present) duplicates.
Proof.
  intros H Hf. destruct (start_run _ _ H Hf) as (w & E & [I _]). destruct (v_owed _ _ _ _ _ _ _ _ _ I) as (d & H1 & H2).
  by exists w, d.
Qed.


(** C10. Under admission control the memory node does not sleep on work: when its
    clock is off, the memory has answered and the network has handed everything
    over, then every answer has been sent and all credits are free. *)
Theorem nic_idle_all_answered endpoints l w :
  endpoints_ok endpoints -> fitting (start endpoints) l -> run (start endpoints) l = Some w ->
  admission_control c = true -> clockOn (nic w) = false -> memory w = [] -> unreceived host (nic w) = [] ->
  golem_dma_credit_available_ (nic w) = golem_dma_credit_cap_ c /\
  exists duplicates, of_packets host (arrived w) ≡ₚ duplicates ++ sends (log w) /\ Forall (twin (sends (log w))) duplicates.
Proof.
  intros H Hf E A Hoff Hm Hu. destruct (start_run _ _ H Hf) as (w' & E' & [I R]). rewrite E' in E. injection E as ->.
  rewrite Hm in I. destruct (rest_all_sent _ _ _ _ _ _ I (R A) Hoff Hu) as (_ & _ & E1 & E2). done.
Qed.

(** Admission is work conserving: a clock tick stops admitting reads only when
    the limit of the tick is reached or no waiting read may go - with consumer
    metadata when no waiting read can be paid for; in window order when the oldest
    window is still being gathered or cannot be paid for, or the bundle being
    served cannot; else when each waiting read has just arrived or cannot be paid. *)
Theorem admission_work_conserving endpoints l w now :
  endpoints_ok endpoints -> fitting (start endpoints) l -> run (start endpoints) l = Some w ->
  exists admitted s, admitGolemDmaIngress c sort now (nic w) = Some (admitted, ([], s)) /\
    (may_admit c admitted = false \/ settled c now (golem_dma_ingress_queue_ (nic w)) s).
Proof.
  intros H Hf E. destruct (start_run _ _ H Hf) as (w' & E' & [I _]). rewrite E' in E. injection E as ->.
  pose proof (admit_spec c sort host sort_perm cap_u32 now _ _ _ _ _ _ I eq_refl) as S. unfold wp in S.
  destruct (admitGolemDmaIngress c sort now (nic w)) as [[ad [out s]]|]; [|done]. destruct S as [[L _ _ _] S].
  exists ad, s. split; [|done]. rewrite <- (app_nil_r (log w)) in L at 2. by apply app_inv_head in L as ->.
Qed.

(** While the network accepts everything and a tick may send as much as there
    is, a clock tick sends every response whose time has come. *)
Theorem responses_leave endpoints l w now :
  endpoints_ok endpoints -> fitting (start endpoints) l -> run (start endpoints) l = Some w ->
  clockOn (nic w) = true -> (forall n, link n = true) -> golem_dma_response_drain_limit c = 0 ->
  exists w', react w (Clock now) = Some w' /\
    forall r, r ∈ golem_dma_send_queue_ (nic w') -> eligible c (golemDmaResponseNowCycle c now) r = false.
Proof.
  intros H Hf E On L M. destruct (start_run _ _ H Hf) as (w' & E' & [I _]). rewrite E' in E. injection E as ->.
  pose proof (clock_spec c link sort host sort_perm cap_u32 now _ _ _ _ I On) as S. unfold wp in S. cbn [react]. unfold after.
  destruct (clock c link sort now (nic w)) as [[b [out s]]|]; [|done]. destruct S as (_ & _ & S). eexists. split; [done|]. by apply S.
Qed.
End History.

(** *** An example: two cores read the same K tile, one of them also writes *)

Section Example.
Import Net MemNic.

Definition ex_config (cap : Z) : Config :=
  mkConfig 9 1 0 0 false true 256 16 0 cap 4 0 false 512 1 false 0 65536 4096 1 32.
Definition ex_link (n : Z) : bool := true.
Definition ex_names (m : gmap string Z) : list string := map fst (map_to_list m).
Definition ex_before (a b : GolemDmaIngressRequest) : Prop := tie_lt (arrival_order b) (arrival_order a) = false.
#[local] Instance ex_before_dec a b : Decision (ex_before a b).
Proof. unfold ex_before. apply _. Defined.
Definition ex_sort : list GolemDmaIngressRequest -> list GolemDmaIngressRequest := merge_sort ex_before.
Definition ex_host (a n : Z) : list Z := seqZ (a mod 2 ^ 8) n.
Definition ex_endpoints : gmap string Z := {["directory" := 2]}.
Definition ex_read (core id : Z) : event :=
  mkEvent READ 64 8 [] 4096 core 128 1 id AttentionKv (mkConsumer 1 1 core 0 0 0 2 OpAttentionK) 0.
Definition ex_write (id : Z) : event := mkEvent DMA_WRITE 512 4 [1; 2; 3; 4] 0 (-1) 0 0 id AttentionOutput no_consumer 0.
Definition ex_inputs : list Input :=
  [Arrive 0 (Golem 3 (ex_read 3 100)); Arrive 0 (Golem 5 (ex_read 5 200)); Notify 1 0; Notify 1 0; Clock 2;
   Arrive 0 (Golem 3 (ex_write 101)); Notify 3 0; Answered 4 1 7; Answered 5 0 8; Clock 6].
Abbreviation ex_start := (start (ex_config 4) ex_endpoints).
Abbreviation ex_run := (run (ex_config 4) ex_link ex_names ex_sort ex_host).
Abbreviation ex_fitting := (fitting (ex_config 4) ex_link ex_names ex_sort ex_host).
Definition ex_end : World := Eval vm_compute in default ex_start (ex_run ex_start ex_inputs).

Lemma ex_sort_perm q : ex_sort q ≡ₚ q.
Proof. apply merge_sort_Permutation. Qed.
Lemma ex_names_all m name : is_Some (m !! name) -> name ∈ ex_names m.
Proof. intros [a H]. apply list_elem_of_fmap. exists (name, a). by rewrite elem_of_map_to_list. Qed.
Lemma ex_cap : is_u32 (golem_dma_credit_cap_ (ex_config 4)).
Proof. unfold is_u32. cbn. lia. Qed.
Lemma ex_endpoints_ok : endpoints_ok ex_endpoints.
Proof. intros n a. unfold ex_endpoints. rewrite lookup_singleton_Some. intros [H _]. discriminate H. Qed.
Lemma ex_runs : ex_run ex_start ex_inputs = Some ex_end.
Proof. vm_compute. reflexivity. Qed.

Lemma fitting_step c link names sort host w i l w' :
  fits c w i -> react c link names sort host w i = Some w' -> fitting c link names sort host w' l ->
  fitting c link names sort host w (i :: l).
Proof. intros H1 H2 H3. split; [done|]. intros w1 H. rewrite H2 in H. by injection H as <-. Qed.
Ltac next := eapply fitting_step; [|vm_compute; reflexivity|].
Lemma ex_fits : ex_fitting ex_start ex_inputs.
Proof.
  unfold ex_inputs.
  next. { split; [vm_compute; lia|]. intros _. split; [done|]. intros _. by vm_compute. }
  next. { split; [vm_compute; lia|]. intros _. split; [done|]. intros _. by vm_compute. }
  next. { by vm_compute. } next. { by vm_compute. } next. { by vm_compute. }
  next. { split; [vm_compute; lia|]. intros [=]. }
  next. { by vm_compute. } next. { by vm_compute. } next. { by vm_compute. } next. { by vm_compute. } done.
Qed.

Lemma nic_answers_exactly_witness : exists w, ex_run ex_start ex_inputs = Some w /\ of_packets ex_host (arrived w) ≡ₚ sends (log w).
Proof.
  destruct (nic_answers_exactly (ex_config 4) ex_link ex_names ex_sort ex_host ex_sort_perm ex_names_all ex_cap
    ex_endpoints ex_inputs ex_endpoints_ok ex_fits) as (w & d & E & P & _).
  exists w. split; [exact E|]. rewrite ex_runs in E. injection E as <-.
  assert (d = []) as ->; [|exact P]. apply Permutation_length in P. rewrite length_app in P.
  change (3 = List.length d + 3)%nat in P. apply length_zero_iff_nil. lia.
Defined.
Lemma nic_idle_all_answered_witness : golem_dma_credit_available_ (nic ex_end) = 4.
Proof.
  destruct (nic_idle_all_answered (ex_config 4) ex_link ex_names ex_sort ex_host ex_sort_perm ex_names_all ex_cap
    ex_endpoints ex_inputs ex_end ex_endpoints_ok ex_fits ex_runs eq_refl eq_refl eq_refl eq_refl) as [H _]. exact H.
Defined.

(** The history up to the [n]-th input. *)
Definition ex_at (n : nat) : World := default ex_start (ex_run ex_start (take n ex_inputs)).
Definition ex_mid : World := Eval vm_compute in ex_at 4.
Definition ex_late : World := Eval vm_compute in ex_at 9.
Lemma ex_runs_mid : ex_run ex_start (take 4 ex_inputs) = Some ex_mid.
Proof. vm_compute. reflexivity. Qed.
Lemma ex_runs_late : ex_run ex_start (take 9 ex_inputs) = Some ex_late.
Proof. vm_compute. reflexivity. Qed.
Lemma fitting_prefix c link names sort host l l' : forall w,
  fitting c link names sort host w (l ++ l') -> fitting c link names sort host w l.
Proof. induction l as [|i l IH]; intros w; [done|]. intros [H1 H2]. split; [done|]. intros w' E. by apply IH, H2. Qed.
Lemma ex_fits_at n : ex_fitting ex_start (take n ex_inputs).
Proof. apply (fitting_prefix _ _ _ _ _ _ (drop n ex_inputs)). rewrite take_drop. exact ex_fits. Qed.

Lemma admission_work_conserving_witness : exists admitted s,
  admitGolemDmaIngress (ex_config 4) ex_sort 2 (nic ex_mid) = Some (admitted, ([], s)) /\ golem_dma_ingress_queue_ s = [].
Proof.
  destruct (admission_work_conserving (ex_config 4) ex_link ex_names ex_sort ex_host ex_sort_perm ex_names_all ex_cap
    ex_endpoints _ ex_mid 2 ex_endpoints_ok (ex_fits_at 4) ex_runs_mid) as (ad & s & E & _).
  exists ad, s. split; [exact E|]. vm_compute in E. by injection E as <- <-.
Defined.
Lemma responses_leave_witness : golem_dma_send_queue_ (nic ex_late) <> [] /\ exists w',
  react (ex_config 4) ex_link ex_names ex_sort ex_host ex_late (Clock 6) = Some w' /\
  forall r, r ∈ golem_dma_send_queue_ (nic w') -> eligible (ex_config 4) 6 r = false.
Proof.
  split; [intros [=]|]. exact (responses_leave (ex_config 4) ex_link ex_names ex_sort ex_host ex_sort_perm ex_names_all ex_cap
    ex_endpoints _ ex_late 6 ex_endpoints_ok (ex_fits_at 9) ex_runs_late eq_refl (fun _ => eq_refl) eq_refl).
Defined.

(** A second read of the tile, without admission control. *)
Definition ex_hit : World := Eval vm_compute in
  default ex_start (run (ex_config 0) ex_link ex_names ex_sort ex_host (start (ex_config 0) ex_endpoints)
    [Arrive 0 (Golem 3 (ex_read 3 100)); Notify 1 0; Answered 2 0 7; Clock 3; Arrive 0 (Golem 5 (ex_read 5 200))]).
End Example.

(** ** A response that nobody sends *)

Section Stranded.
Import Net MemNic.
Local Open Scope sched_scope.

Variable c : Config.
Variable link : Z -> bool.
Variable names : gmap string Z -> list string.
Variable sort : list GolemDmaIngressRequest -> list GolemDmaIngressRequest.
Variable host : Z -> Z -> list Z.

Lemma known_source src log s Q :
  (forall name s', kept s s' -> golem_dma_send_queue_ s' = golem_dma_send_queue_ s ->
     golem_dma_kv_cache_ s' = golem_dma_kv_cache_ s -> Q name log s') ->
  wp False (source_name names src) Q log s.
Proof.
  intros HQ. unfold source_name. wp_state. destruct (list_find _ _) as [[i name]|]; wp_fold.
  - by apply wp_ret, HQ.
  - by apply wp_bind, wp_update, wp_ret, HQ.
Qed.

Lemma receive_cached now src name ev e log s Q :
  admission_control c = false -> golem_dma_kv_coalesce_enable_ c = true -> 0 <= returnEndpoint ev ->
  isGolemAttentionKvRead (dmaRequestKind ev) (dmaConsumer ev) = true ->
  golem_dma_kv_cache_ s !! golemDmaKvCacheKey (addr ev) (u32 (length ev)) (dmaConsumer ev) = Some e ->
  (forall s', kept s s' -> golem_dma_send_queue_ s' = golem_dma_send_queue_ s ++
     [branch c (returnEndpoint ev) (golemDmaResponseNowCycle c now) (golemDmaResponseNowCycle c now) (subscriber_of ev 0) (ce_data e)] ->
   Q None log s') ->
  wp False (receive_read c now src name ev) Q log s.
Proof.
  intros A C O K E HQ. unfold receive_read. apply wp_bind, wp_update.
  destruct (same_progress (dmaConsumer ev) s) as [S1 K1]. set (s1 := updateGolemDmaConsumerProgress _ _) in *. clearbody s1.
  unfold admission_control in A. rewrite A. unfold createGolemDmaRead. apply wp_bind. unfold tryCoalesceGolemDmaRead, is_shared.
  cbn [ig_sub sb_kind sb_consumer subscriber_of]. rewrite C, K. cbn [andb negb]. apply wp_bind. unfold tryServeGolemDmaKvCache. wp_state.
  cbn [ig_sub ig_addr ig_size sb_consumer sb_returnEndpoint subscriber_of]. destruct S1 as (_ & _ & _ & _ & S5 & S6 & _).
  rewrite S5, E. wp_fold. apply wp_bind. apply response_dest_spec; [done|]. apply wp_bind, wp_update, wp_bind, wp_update, wp_ret, wp_ret, wp_ret.
  apply HQ; [by destruct K1|]. cbn. by rewrite S6.
Qed.

(** C36. Without admission control a read that hits the shared K/V cache is not
    answered: its response is queued and could leave at once, but the notification
    ends with the clock off, so that nothing sends it until other traffic comes. *)
Theorem cache_hit_stranded now src ev e w :
  let s := nic w in
  golem_network_num_vns_ c = 1 -> admission_control c = false -> golem_dma_kv_coalesce_enable_ c = true ->
  received s = [[Golem src ev]] -> type ev = READ -> 0 <= returnEndpoint ev ->
  isGolemAttentionKvRead (dmaRequestKind ev) (dmaConsumer ev) = true ->
  golem_dma_kv_cache_ s !! golemDmaKvCacheKey (addr ev) (u32 (length ev)) (dmaConsumer ev) = Some e ->
  clockOn s = false -> golem_dma_send_queue_ s = [] -> golem_dma_ingress_queue_ s = [] ->
  exists w' r, react c link names sort host w (Notify now 0) = Some w' /\ log w' = log w /\ memory w' = memory w /\
    clockOn (nic w') = false /\ golem_dma_send_queue_ (nic w') = [r] /\
    of_request (request r) = (returnEndpoint ev, read_complete (subscriber_of ev 0) (ce_data e)) /\
    notBeforeCycle r = golemDmaResponseNowCycle c now.
Proof.
  intros s N A C Er Et O K E Hoff Eq Ei.
  enough (wp False (recvNotify c link names now 0) (fun _ log' s' => log' = [] /\ clockOn s' = false /\
    golem_dma_send_queue_ s' = [branch c (returnEndpoint ev) (golemDmaResponseNowCycle c now) (golemDmaResponseNowCycle c now)
      (subscriber_of ev 0) (ce_data e)]) [] s) as W.
  { unfold wp, s in W. cbn [react]. unfold after. destruct (recvNotify c link names now 0 (nic w)) as [[[] [out s']]|]; [|done].
    destruct W as (W0 & W1 & W2). cbn in W0. subst out. do 2 eexists. split; [done|]. cbn [log memory nic].
    rewrite !app_nil_r. by rewrite W2. }
  clearbody s. clear w.
  unfold recvNotify. apply wp_bind. unfold doRecv. apply wp_bind. unfold drainGolemDmaResponseQueue. wp_state. rewrite Eq. wp_fold.
  apply wp_ret. wp_state. rewrite N. change ((0 <=? 0) && (0 <? 1)) with true. cbv iota. wp_fold. apply wp_bind.
  unfold recv. wp_state. rewrite N, Er. change (map (fun offset => (0 + offset) mod 1) (seqZ 0 1)) with [0].
  rewrite (proj2 (list_find_Some _ _ 0%nat 0)) by (split_and!; [done|done|intros j y _ ?; lia]).
  change ([[Golem src ev]].[0]) with [Golem src ev]. cbv iota. wp_fold.
  apply wp_bind, wp_update, wp_ret. set (s1 := s <| received := _ |> <| golem_recv_vn_cursor_ := _ |>).
  assert (golem_dma_send_queue_ s1 = [] /\ clockOn s1 = false /\ golem_dma_ingress_queue_ s1 = [] /\
    golem_dma_kv_cache_ s1 = golem_dma_kv_cache_ s) as (Eq1 & Hoff1 & Ei1 & Ec1) by done. clearbody s1.
  apply wp_bind. unfold receive_golem. apply wp_bind, known_source. intros name s2 [K1 _ K3] E2 Ec2. rewrite Et.
  eapply receive_cached; try done; [by rewrite Ec2, Ec1|]. intros s3 [L1 _ L3] E3. rewrite E2, Eq1 in E3.
  apply wp_ret. apply wp_bind, wp_ret. wp_state. rewrite L3, K3, Ei1. wp_fold. apply wp_ret. split_and!; [done|congruence|done].
Qed.
End Stranded.

Lemma cache_hit_stranded_witness : exists w' r,
  react (ex_config 0) ex_link ex_names ex_sort ex_host ex_hit (Notify 4 0) = Some w' /\
  MemNic.clockOn (nic w') = false /\ MemNic.golem_dma_send_queue_ (nic w') = [r].
Proof.
  edestruct (cache_hit_stranded (ex_config 0) ex_link ex_names ex_sort ex_host 4 5 (ex_read 5 200))
    as (w' & r & H1 & _ & _ & H2 & H3 & _);
    [..|exists w', r; split; [exact H1|]; split; [exact H2|exact H3]]; vm_compute; reflexivity || discriminate.
Defined.
