(* ===== verification/ComputeArray.v ===== *)
(** * Compute arrays

    Models array/computeArray.h and array/mvmComputeArray.h: a set of arrays, each
    with one or two banks of operands (a matrix and an input vector) and an output
    vector.  Operands and outputs are moved by transfers over a few ports, with
    credits and banks for reads of outputs and a separate fabric for grouped
    drains; a launch multiplies matrix and input after a latency.

    The element type is a template parameter of the code and a class here, with
    the instances of mvmIntArray.h and mvmFloatArray.h.  Computations are those of
    [Effects]; the effects are events the array sends to itself, what calls return
    to the client, its callbacks and the notification of the tile.  A client may
    call the array from inside a callback: what it does there is an argument of the
    handlers.  Callbacks and completions of the code are functions, here their data.
    Statistics, dumps and log output are left out; [setMatrixItem],
    [setVectorItem] and [moveOutputToInput] do not check indices, and neither do
    they here. *)

From S2P Require Import Prelude Telemetry Cluster Float32 Effects.
#[local] Open Scope Z_scope.
#[local] Open Scope mach_scope.

(** ** Elements *)

(** Operations of the element type [T]; [D] are the doubles of the interface. *)
Class Element (T D : Type) := {
  elem_zero : T;
  elem_add : T -> T -> T;
  elem_mul : T -> T -> T;
  of_double : D -> T;
  to_double : T -> D;
  elem_size : Z;
  elem_bytes : T -> list Z
}.


(** [m * 2^e], rounded down or up. *)
Definition scaled (up : bool) (m e : Z) : Z :=
  if 0 <=? e then m * 2 ^ e else if up then - (- m / 2 ^ (- e)) else m / 2 ^ (- e).
Definition ceil (d : double) : Z :=
  match d with S754_finite s m e => if s then - scaled false (Zpos m) e else scaled true (Zpos m) e | _ => 0 end.
Definition trunc (d : double) : Z :=
  match d with S754_finite s m e => cond_Zopp s (scaled false (Zpos m) e) | _ => 0 end.

Definition s64 (z : Z) : Z := (z + 2 ^ 63) mod 2 ^ 64 - 2 ^ 63.

(** [int64_t]; sums and products wrap where they overflow. *)
#[export] Instance int64_element : Element Z double := {
  elem_zero := 0;
  elem_add x y := s64 (x + y);
  elem_mul x y := s64 (x * y);
  of_double d := s64 (trunc d);
  to_double := double_of_Z;
  elem_size := 8;
  elem_bytes := le_bytes 8
}.

(** [float]. *)
#[export] Instance float_element : Element float double := {
  elem_zero := float_zero;
  elem_add := SFadd prec32 emax32;
  elem_mul := SFmul prec32 emax32;
  of_double := round_to prec32 emax32;
  to_double := round_to prec64 emax64;
  elem_size := 4;
  elem_bytes f := le_bytes 4 (float_bits f)
}.

#[export] Instance traffic_eq_dec : EqDecision AttentionClusterTrafficClass.
Proof. solve_decision. Defined.

Module ComputeArray.

(** ** Data *)

Record Config := mkConfig {
  modeledComputeCycles : Z;
  arrayMacPerCuPerCycle : double;
  arrayPipelineDepth : Z;
  numArrays : Z;
  operandContextBanks : Z;
  inputArraySize : Z;
  outputArraySize : Z;
  arrayBufferBaseLatencyCycles_ : Z;
  arrayBufferBytesPerCycle_ : Z;
  arrayBufferPorts_ : Z;
  arrayBufferQueueDepth_ : Z;
  arrayOutputReadCredits_ : Z;
  arrayOutputReadBanks_ : Z;
  attentionNearArrayOutputBytesPerCycle_ : Z;
  attentionNearArrayOutputCredits_ : Z;
  matrixBroadcastMaxFanout_ : Z;
  matrixBroadcastBytesPerCycle_ : Z;
  matrixBroadcastBaseLatencyCycles_ : Z;
  matrixBroadcastStageLatencyCycles_ : Z;
  inputScatterBytesPerCycle_ : Z;
  outputScatterGatherBytesPerCycle_ : Z;
  attentionClusterEnable_ : bool;
  functionalCompute : bool;
  attentionClusterQkArrays : Z
}.

(** [0.000001]. *)
Abbreviation micro := (S754_finite false 4722366482869645 (-72)).

(** The configuration the constructor makes of its parameters. *)
Definition corrected (c : Config) : option Config :=
  if (operandContextBanks c =? 0) || (2 <? operandContextBanks c) then None
  else Some (mkConfig (if modeledComputeCycles c =? 0 then 1 else modeledComputeCycles c)
    (if SFltb (arrayMacPerCuPerCycle c) micro then micro else arrayMacPerCuPerCycle c) (arrayPipelineDepth c) (numArrays c) (operandContextBanks c) (inputArraySize c) (outputArraySize c)
    (Z.max (arrayBufferBaseLatencyCycles_ c) 1) (Z.max (arrayBufferBytesPerCycle_ c) 1)
    (Z.max (arrayBufferPorts_ c) 1) (Z.max (arrayBufferQueueDepth_ c) 1) (Z.max (arrayOutputReadCredits_ c) 1)
    (Z.max (arrayOutputReadBanks_ c) 1) (Z.max (attentionNearArrayOutputBytesPerCycle_ c) 1)
    (Z.max (attentionNearArrayOutputCredits_ c) 1) (Z.max (matrixBroadcastMaxFanout_ c) 1)
    (Z.max (matrixBroadcastBytesPerCycle_ c) 1) (Z.max (matrixBroadcastBaseLatencyCycles_ c) 1)
    (matrixBroadcastStageLatencyCycles_ c) (Z.max (inputScatterBytesPerCycle_ c) 1)
    (Z.max (outputScatterGatherBytesPerCycle_ c) 1) (attentionClusterEnable_ c) (functionalCompute c)
    (attentionClusterQkArrays c)).

(** The client's tag, and whether it has passed a callback. *)
Record Reply := mkReply { tag : Z; callback : bool }.

(** What a transfer does when it is complete; operands are named by their context
    (array and bank), outputs by their array. *)
Inductive Completion {D : Type} :=
| WriteMatrix (contexts : list Z) (matrix : list D)
| WriteCompact (contexts : list Z) (matrix : list D) (activeColumns : Z)
| WriteInput (contexts : list Z) (fill : bool) (input : list D)
| ScatterInput (contexts : list Z) (inputs : list D)
| WriteOperands (context : Z) (matrix input : list D)
| ReadOutputs (arrays : list Z)
| ReadBytes (array elemBytes : Z)
| WriteOutputs (arrays : list Z) (outputs : list D).
#[global] Arguments Completion D : clear implicits.

Record BufferRequest {D : Type} := mkBufferRequest {
  reply : Reply;
  transferCycles : Z;
  completion : Completion D;
  outputRead : bool;
  outputBank : Z;
  trafficClass : AttentionClusterTrafficClass;
  dedicatedOutput : bool
}.
#[global] Arguments BufferRequest D : clear implicits.

Inductive OutputMode := Overwrite | Accumulate.
#[global] Instance OutputMode_inhabited : Inhabited OutputMode := populate Overwrite.

Inductive effect {D : Type} :=
| BufferEvent (delay requestId : Z)
| ComputeEvent (delay array bank : Z)
| Returned (r : Reply) (accepted : bool)
| Callback (ok : bool) (tag : Z) (values : list D)
| CallbackBytes (tag : Z) (bytes : list Z)
| Tile (array bank : Z).
#[global] Arguments effect D : clear implicits.

Record t {T D : Type} := mk {
  inputVectors : list (list T);
  outputVectors : list (list T);
  matrixData : list (list T);
  outputModes : list OutputMode;
  activeInputColumns : list Z;
  attentionClusterBufferIntervals_ : BusyIntervalUnion.t;
  arrayBufferInFlight_ : Z;
  nextBufferRequestId_ : Z;
  nearArrayOutputInFlight_ : Z;
  outputReadInFlight_ : Z;
  outputReadBankInFlight_ : list Z;
  bufferQueue_ : list Z;
  bufferRequests_ : gmap Z (BufferRequest D)
}.
#[global] Arguments t T D : clear implicits.
#[export] Instance eta_t {T D} : Eta (t T D) := fun s =>
  mk _ _ (inputVectors s) (outputVectors s) (matrixData s) (outputModes s) (activeInputColumns s)
    (attentionClusterBufferIntervals_ s) (arrayBufferInFlight_ s) (nextBufferRequestId_ s)
    (nearArrayOutputInFlight_ s) (outputReadInFlight_ s) (outputReadBankInFlight_ s) (bufferQueue_ s) (bufferRequests_ s).

(** Calls of the client. *)
Inductive Call {D : Type} :=
| ProgramMatrix (array bank : Z) (matrix : list D) (elemBytes : Z) (r : Reply)
| ProgramMatrixGroup (arrays : list Z) (bank : Z) (matrix : list D) (elemBytes : Z) (r : Reply)
| ProgramMatrixGroupClass (arrays : list Z) (bank : Z) (matrix : list D) (elemBytes : Z) (cls : AttentionClusterTrafficClass) (r : Reply)
| ProgramMatrixActive (array bank : Z) (matrix : list D) (activeColumns elemBytes : Z) (r : Reply)
| ProgramMatrixGroupActive (arrays : list Z) (bank : Z) (matrix : list D) (activeColumns elemBytes : Z) (r : Reply)
| ProgramInput (array bank : Z) (input : list D) (elemBytes : Z) (r : Reply)
| ProgramInputGroup (arrays : list Z) (bank : Z) (input : list D) (elemBytes : Z) (cls : AttentionClusterTrafficClass) (r : Reply)
| ProgramInputScatter (arrays : list Z) (bank : Z) (inputs : list D) (elemBytes : Z) (cls : AttentionClusterTrafficClass) (r : Reply)
| ProgramInputActive (array bank : Z) (input : list D) (activeColumns elemBytes : Z) (r : Reply)
| ProgramOperands (array : Z) (matrix input : list D) (elemBytes : Z) (r : Reply)
| ReadOutput (array elemBytes : Z) (r : Reply)
| ReadOutputClass (array elemBytes : Z) (cls : AttentionClusterTrafficClass) (r : Reply)
| ReadOutputGroupClass (arrays : list Z) (elemBytes : Z) (cls : AttentionClusterTrafficClass) (r : Reply)
| ReadOutputBytes (array elemBytes : Z) (r : Reply)
| WriteOutput (array : Z) (output : list D) (elemBytes : Z) (r : Reply)
| WriteOutputGroupClass (arrays : list Z) (outputs : list D) (elemBytes : Z) (cls : AttentionClusterTrafficClass) (r : Reply)
| Begin (array bank : Z)
| BeginActive (array bank activeColumns : Z)
| ConfigureOutput (array command : Z)
| SetMatrixItem (array index : Z) (value : D)
| SetVectorItem (array index : Z) (value : D)
| MoveOutputToInput (source destination : Z).
#[global] Arguments Call D : clear implicits.

#[local] Open Scope sched_scope.

Section Array.
Context {T D : Type} {inhabited : Inhabited T} {element : Element T D}.
Variable c : Config.
(** [convertToCoreTime] of the array's clock. *)
Variable core_time : Z -> Z.

Abbreviation M := (Effects.M (t T D) (effect D)).

Definition contexts : nat := Z.to_nat (numArrays c * operandContextBanks c).
Definition init : t T D :=
  let vector n := replicate (Z.to_nat n) elem_zero in
  mk _ _ (replicate contexts (vector (inputArraySize c))) (replicate (Z.to_nat (numArrays c)) (vector (outputArraySize c)))
    (replicate contexts (vector (inputArraySize c * outputArraySize c))) (replicate (Z.to_nat (numArrays c)) Overwrite)
    (replicate contexts (u32 (inputArraySize c))) BusyIntervalUnion.init 0 1 0 0
    (replicate (Z.to_nat (arrayOutputReadBanks_ c)) 0) [] ∅.

(** ** Transfers *)

(** Whether a waiting transfer may start: a read of an output needs a credit and
    its bank. *)
Definition issuable (s : t T D) (id : Z) : bool :=
  match bufferRequests_ s !! id with
  | None => false
  | Some r =>
      if outputRead r then
        (outputReadInFlight_ s <? arrayOutputReadCredits_ c) &&
        (outputBank r <? Z.of_nat (List.length (outputReadBankInFlight_ s))) &&
        ((outputReadBankInFlight_ s).[outputBank r] =? 0)
      else true
  end.

Definition record_interval (now : Z) (r : BufferRequest D) : M unit := fun s =>
  if attentionClusterEnable_ c && negb (bool_decide (trafficClass r = Legacy)) then
    let '(ok, intervals) := BusyIntervalUnion.add now (now ⊞ core_time (transferCycles r)) (attentionClusterBufferIntervals_ s) in
    if ok then update (fun s => s <| attentionClusterBufferIntervals_ := intervals |>) s else None
  else ret tt s.

Definition start (r : BufferRequest D) (s : t T D) : t T D :=
  let s := s <| arrayBufferInFlight_ := arrayBufferInFlight_ s ⊞ 1 |> in
  if outputRead r then
    s <| outputReadInFlight_ := outputReadInFlight_ s ⊞ 1 |>
      <| outputReadBankInFlight_ := (outputReadBankInFlight_ s).[outputBank r := (outputReadBankInFlight_ s).[outputBank r] ⊞₃₂ 1] |>
  else s.

Fixpoint issue_loop (fuel : nat) (now : Z) : M unit :=
  match fuel with
  | O => ret tt
  | S fuel => fun s =>
      if (arrayBufferPorts_ c <=? arrayBufferInFlight_ s) || match bufferQueue_ s with [] => true | _ => false end
      then ret tt s
      else
        match list_find (fun id => issuable s id = true) (bufferQueue_ s) with
        | None => ret tt s
        | Some (i, id) =>
            (update (fun s => s <| bufferQueue_ := delete i (bufferQueue_ s) |>) ;;
             match bufferRequests_ s !! id with
             | None => issue_loop fuel now
             | Some r =>
                 record_interval now r ;;
                 update (start r) ;;
                 send (BufferEvent (transferCycles r) id) ;;
                 issue_loop fuel now
             end) s
        end
  end.
(** A turn of the loop takes an entry from the queue. *)
Definition tryIssueBufferTransfers (now : Z) : M unit := fun s =>
  issue_loop (List.length (bufferQueue_ s)) now s.

Definition insert_request (r : BufferRequest D) (s : t T D) : t T D :=
  s <| nextBufferRequestId_ := nextBufferRequestId_ s ⊞ 1 |>
    <| bufferRequests_ := <[nextBufferRequestId_ s := r]> (bufferRequests_ s) |>.
Definition full (s : t T D) : bool := arrayBufferQueueDepth_ c <=? Z.of_nat (size (bufferRequests_ s)).

Definition enqueueModeledBufferTransfer (now : Z) (r : BufferRequest D) : M bool := fun s =>
  if full s then ret false s
  else
    (update (fun s => insert_request r s <| bufferQueue_ := bufferQueue_ s ++ [nextBufferRequestId_ s] |>) ;;
     tryIssueBufferTransfers now ;;
     ret true) s.

(** Cycles to move [bytes] at [bytesPerCycle] after the latency [base]. *)
Definition cycles (base bytes bytesPerCycle : Z) : Z := base ⊞ (bytes ⊞ bytesPerCycle ⊟ 1) / bytesPerCycle.
Definition shared (r : Reply) (cyc : Z) (k : Completion D) (bank : option Z) (cls : AttentionClusterTrafficClass) : BufferRequest D :=
  mkBufferRequest _ r cyc k (match bank with Some _ => true | None => false end) (default 0 bank) cls false.

Definition enqueueBufferTransfer (now bytes : Z) (r : Reply) (k : Completion D) : M bool :=
  enqueueModeledBufferTransfer now
    (shared r (cycles (arrayBufferBaseLatencyCycles_ c) bytes (arrayBufferBytesPerCycle_ c)) k None Legacy).
Definition enqueueOutputReadTransfer (now array bytes : Z) (r : Reply) (k : Completion D) (cls : AttentionClusterTrafficClass) : M bool :=
  let bank := if arrayOutputReadBanks_ c =? 0 then 0 else array mod arrayOutputReadBanks_ c in
  enqueueModeledBufferTransfer now
    (shared r (cycles (arrayBufferBaseLatencyCycles_ c) bytes (arrayBufferBytesPerCycle_ c)) k (Some bank) cls).

Definition enqueueNearArrayOutputTransfer (bytes : Z) (r : Reply) (k : Completion D) (cls : AttentionClusterTrafficClass) : M bool := fun s =>
  if (negb (attentionClusterEnable_ c) && negb (bool_decide (cls = SequentialQkScoreOut))) ||
     (attentionNearArrayOutputCredits_ c <=? nearArrayOutputInFlight_ s) || full s
  then ret false s
  else
    let cyc := cycles (arrayBufferBaseLatencyCycles_ c) bytes (attentionNearArrayOutputBytesPerCycle_ c) in
    (update (fun s => insert_request (mkBufferRequest _ r cyc k false 0 cls true) s
                        <| nearArrayOutputInFlight_ := nearArrayOutputInFlight_ s ⊞ 1 |>) ;;
     send (BufferEvent cyc (nextBufferRequestId_ s)) ;;
     ret true) s.

Fixpoint ceilLog2_loop (fuel : nat) (value stages : Z) : Z :=
  match fuel with
  | O => stages
  | S fuel => if 1 <? value then ceilLog2_loop fuel ((value ⊞ 1) / 2) (stages ⊞ 1) else stages
  end.
(** The value is halved in every turn. *)
Definition ceilLog2 (value : Z) : Z := ceilLog2_loop 64 value 0.

Definition enqueueMatrixBroadcastTransfer (now bytes fanout : Z) (r : Reply) (k : Completion D) (cls : AttentionClusterTrafficClass) : M bool :=
  enqueueModeledBufferTransfer now
    (shared r (cycles (matrixBroadcastBaseLatencyCycles_ c) bytes (matrixBroadcastBytesPerCycle_ c) ⊞
               u64 (ceilLog2 fanout * matrixBroadcastStageLatencyCycles_ c)) k None cls).
Definition enqueueInputScatterTransfer (now bytes : Z) (r : Reply) (k : Completion D) (cls : AttentionClusterTrafficClass) : M bool :=
  enqueueModeledBufferTransfer now
    (shared r (cycles (arrayBufferBaseLatencyCycles_ c) bytes (inputScatterBytesPerCycle_ c)) k None cls).
Definition enqueueOutputScatterGatherTransfer (now bytes : Z) (r : Reply) (k : Completion D) (cls : AttentionClusterTrafficClass) : M bool :=
  enqueueModeledBufferTransfer now
    (shared r (cycles (arrayBufferBaseLatencyCycles_ c) bytes (outputScatterGatherBytesPerCycle_ c)) k None cls).

(** ** Validation *)

Definition all_different (l : list Z) : bool := bool_decide (NoDup l).
Definition in_range (array : Z) : bool := array <? numArrays c.
Definition elements {A} (l : list A) : Z := Z.of_nat (List.length l).

Definition validateActiveColumnRequest (activeColumns : Z) : bool :=
  (0 <? activeColumns) && (activeColumns <=? inputArraySize c).
Definition validateActiveMatrixRequest (array matrixElements activeColumns elemBytes : Z) : bool :=
  in_range array && validateActiveColumnRequest activeColumns &&
  (matrixElements =? u64 (activeColumns * outputArraySize c)) && (0 <? elemBytes).
Definition validateActiveInputRequest (array inputElements activeColumns elemBytes : Z) : bool :=
  in_range array && validateActiveColumnRequest activeColumns && (inputElements =? activeColumns) && (0 <? elemBytes).
Definition validOperandContext (array bank : Z) : bool := in_range array && (bank <? operandContextBanks c).

Definition validateMatrixBroadcastRequest (arrays : list Z) (matrixElements elemBytes activeColumns : Z) : bool :=
  let columns := if activeColumns =? 0 then u32 (inputArraySize c) else activeColumns in
  match arrays with [] => false | _ => true end && (elements arrays <=? matrixBroadcastMaxFanout_ c) &&
  all_different arrays && validateActiveColumnRequest columns &&
  (matrixElements =? u64 (columns * outputArraySize c)) && (0 <? elemBytes) && forallb in_range arrays.
Definition validateInputMulticastRequest (arrays : list Z) (inputElements elemBytes : Z) : bool :=
  match arrays with [] => false | _ => true end && (elements arrays <=? matrixBroadcastMaxFanout_ c) &&
  all_different arrays && (0 <? inputElements) && (inputElements <=? inputArraySize c) && (0 <? elemBytes) &&
  forallb in_range arrays.
Definition validateInputScatterRequest (arrays : list Z) (inputElements elemBytes : Z) : bool :=
  match arrays with [] => false | _ => true end && all_different arrays &&
  (inputElements =? u64 (elements arrays * inputArraySize c)) && (0 <? elemBytes) && forallb in_range arrays.

(** [arrays] are the first arrays, in order. *)
Definition first_arrays (arrays : list Z) : bool := bool_decide (arrays = seqZ 0 (elements arrays)).
Definition validateOutputGroupRequest (arrays : list Z) (elemBytes : Z) (cls : AttentionClusterTrafficClass) : bool :=
  (numArrays c =? 64) && (inputArraySize c =? 64) && (outputArraySize c =? 64) && (elemBytes =? elem_size) &&
  match cls with
  | SequentialQkScoreOut => (elements arrays =? 64) && first_arrays arrays
  | SequentialPvORestore | SequentialPvOOutput =>
      negb (elements arrays =? 0) && (elements arrays <=? 64) && first_arrays arrays
  | _ =>
      match arrays with
      | [a; b] => (b =? a ⊞₃₂ 1) && (a mod 2 =? 0) &&
          match cls with
          | QkScoreOut => b <? attentionClusterQkArrays c
          | PvOFinalDrain => (attentionClusterQkArrays c <=? a) && (b <? 64)
          | _ => false
          end
      | _ => false
      end
  end.

(** Groups of arrays that the attention classes may address with an input. *)
Definition valid_topology (arrays : list Z) (n : Z) (cls : AttentionClusterTrafficClass) : bool :=
  match cls with
  | PvPInput =>
      match arrays with
      | [a; b] => ((n =? 32) || (n =? 64)) && (attentionClusterQkArrays c <=? a) && (b =? a ⊞₃₂ 1) && (a mod 2 =? 0) && (b <? 64)
      | _ => false
      end
  | QkQPair => match arrays with [a] => (a <? attentionClusterQkArrays c) && (n =? 64) | _ => false end
  | SequentialPvInput =>
      match arrays with [a] => (n =? 64) && (a <? 64) | _ => (elements arrays =? 64) && (n =? 64) end
  | _ => false
  end.

(** ** Contents *)

Definition operandIndex (bank array : Z) : Z := bank * numArrays c + array.
(** [std::transform] into a vector that is long enough. *)
Definition overwrite {A} (values target : list A) : list A := values ++ drop (List.length values) target.
Definition zeros {A} (target : list A) : list T := replicate (List.length target) elem_zero.

Fixpoint each {A} (f : Z -> list A -> list A) (indices : list Z) (l : list (list A)) : list (list A) :=
  match indices with [] => l | i :: indices => each f indices (l.[i := f i (l.[i])]) end.

(** The [lane]-th piece of [n] values. *)
Definition piece {A} (n : Z) (lane : nat) (l : list A) : list A := take (Z.to_nat n) (drop (lane * Z.to_nat n) l).
Fixpoint scatter (n : Z) (indices : list Z) (values : list D) (l : list (list T)) : list (list T) :=
  match indices with
  | [] => l
  | i :: indices => scatter n indices (drop (Z.to_nat n) values) (l.[i := overwrite (map of_double (piece n 0 values)) (l.[i])])
  end.

(** A matrix of [activeColumns] columns in the layout of full rows. *)
Definition writeCompactMatrix (matrix : list D) (activeColumns : Z) : list T :=
  concat (map (fun row => map of_double (piece activeColumns row matrix) ++
    replicate (Z.to_nat (inputArraySize c - activeColumns)) elem_zero) (seq 0 (Z.to_nat (outputArraySize c)))).

Definition transfer (k : Completion D) (s : t T D) : t T D :=
  match k with
  | WriteMatrix ctx matrix => s <| matrixData := each (fun _ => overwrite (map of_double matrix)) ctx (matrixData s) |>
  | WriteCompact ctx matrix cols => s <| matrixData := each (fun _ _ => writeCompactMatrix matrix cols) ctx (matrixData s) |>
  | WriteInput ctx fill input =>
      s <| inputVectors := each (fun _ old => overwrite (map of_double input) (if fill then zeros old else old)) ctx (inputVectors s) |>
  | ScatterInput ctx inputs => s <| inputVectors := scatter (inputArraySize c) ctx inputs (inputVectors s) |>
  | WriteOperands ctx matrix input =>
      s <| matrixData := each (fun _ => overwrite (map of_double matrix)) [ctx] (matrixData s) |>
        <| inputVectors := each (fun _ => overwrite (map of_double input)) [ctx] (inputVectors s) |>
  | WriteOutputs arrays outputs => s <| outputVectors := scatter (outputArraySize c) arrays outputs (outputVectors s) |>
  | ReadOutputs _ | ReadBytes _ _ => s
  end.

(** The bytes of an element in [elemBytes] bytes. *)
Definition packed (elemBytes : Z) (value : T) : list Z :=
  let n := Z.to_nat elemBytes in
  take n (elem_bytes value) ++ replicate (n - Z.to_nat elem_size) 0.
Definition answer (k : Completion D) (tag : Z) (s : t T D) : effect D :=
  match k with
  | ReadOutputs arrays =>
      if forallb (fun a => a <? elements (outputVectors s)) arrays
      then Callback true tag (concat (map (fun a => map to_double ((outputVectors s).[a])) arrays))
      else Callback false tag []
  | ReadBytes array elemBytes => CallbackBytes tag (concat (map (packed elemBytes) ((outputVectors s).[array])))
  | _ => Callback true tag []
  end.

(** ** Calls *)

Abbreviation indices bank arrays := (map (operandIndex bank) arrays).
Abbreviation reject := (ret false).

Definition programMatrixBankAsync (now array bank : Z) (matrix : list D) (elemBytes : Z) (r : Reply) : M bool :=
  if negb (validOperandContext array bank) || negb (elements matrix =? u64 (inputArraySize c * outputArraySize c)) || (elemBytes =? 0)
  then reject
  else enqueueBufferTransfer now (u64 (elements matrix * elemBytes)) r (WriteMatrix [operandIndex bank array] matrix).

Definition programMatrixGroupBankAsync (now : Z) (arrays : list Z) (bank : Z) (matrix : list D) (elemBytes : Z) (r : Reply) : M bool :=
  if negb (validateMatrixBroadcastRequest arrays (elements matrix) elemBytes 0) || (operandContextBanks c <=? bank) then reject
  else enqueueMatrixBroadcastTransfer now (u64 (elements matrix * elemBytes)) (elements arrays) r
         (WriteMatrix (indices bank arrays) matrix) Legacy.

Definition programMatrixGroupClassBankAsync (now : Z) (arrays : list Z) (bank : Z) (matrix : list D) (elemBytes : Z)
    (cls : AttentionClusterTrafficClass) (r : Reply) : M bool :=
  if negb (validateMatrixBroadcastRequest arrays (elements matrix) elemBytes 0) || (operandContextBanks c <=? bank) ||
     bool_decide (cls = Legacy) then reject
  else enqueueMatrixBroadcastTransfer now (u64 (elements matrix * elemBytes)) (elements arrays) r
         (WriteMatrix (indices bank arrays) matrix) cls.

Definition programMatrixActiveBankAsync (now array bank : Z) (matrix : list D) (activeColumns elemBytes : Z) (r : Reply) : M bool :=
  if negb (validateActiveMatrixRequest array (elements matrix) activeColumns elemBytes) || (operandContextBanks c <=? bank) then reject
  else enqueueBufferTransfer now (u64 (elements matrix * elemBytes)) r (WriteCompact [operandIndex bank array] matrix activeColumns).

Definition programMatrixGroupActiveBankAsync (now : Z) (arrays : list Z) (bank : Z) (matrix : list D)
    (activeColumns elemBytes : Z) (r : Reply) : M bool :=
  if negb (validateMatrixBroadcastRequest arrays (elements matrix) elemBytes activeColumns) || (operandContextBanks c <=? bank)
  then reject
  else enqueueMatrixBroadcastTransfer now (u64 (elements matrix * elemBytes)) (elements arrays) r
         (WriteCompact (indices bank arrays) matrix activeColumns) Legacy.

Definition programInputBankAsync (now array bank : Z) (input : list D) (elemBytes : Z) (r : Reply) : M bool :=
  if negb (validOperandContext array bank) || (elements input =? 0) || (inputArraySize c <? elements input) || (elemBytes =? 0)
  then reject
  else enqueueBufferTransfer now (u64 (elements input * elemBytes)) r (WriteInput [operandIndex bank array] false input).

Definition programInputGroupBankAsync (now : Z) (arrays : list Z) (bank : Z) (input : list D) (elemBytes : Z)
    (cls : AttentionClusterTrafficClass) (r : Reply) : M bool :=
  if negb (validateInputMulticastRequest arrays (elements input) elemBytes) || (operandContextBanks c <=? bank) ||
     negb (valid_topology arrays (elements input) cls) then reject
  else enqueueMatrixBroadcastTransfer now (u64 (elements input * elemBytes)) (elements arrays) r
         (WriteInput (indices bank arrays) true input) cls.

Definition programInputScatterBankAsync (now : Z) (arrays : list Z) (bank : Z) (inputs : list D) (elemBytes : Z)
    (cls : AttentionClusterTrafficClass) (r : Reply) : M bool :=
  if negb (validateInputScatterRequest arrays (elements inputs) elemBytes) || (operandContextBanks c <=? bank) ||
     negb (bool_decide (cls = SequentialQkInputScatter \/ cls = SequentialPvInputScatter)) then reject
  else enqueueInputScatterTransfer now (u64 (elements inputs * elemBytes)) r (ScatterInput (indices bank arrays) inputs) cls.

Definition programInputActiveBankAsync (now array bank : Z) (input : list D) (activeColumns elemBytes : Z) (r : Reply) : M bool :=
  if negb (validateActiveInputRequest array (elements input) activeColumns elemBytes) || (operandContextBanks c <=? bank) then reject
  else enqueueBufferTransfer now (u64 (elements input * elemBytes)) r (WriteInput [operandIndex bank array] true input).

Definition programOperandsAsync (now array : Z) (matrix input : list D) (elemBytes : Z) (r : Reply) : M bool :=
  if negb (in_range array) || negb (elements matrix =? u64 (inputArraySize c * outputArraySize c)) ||
     negb (elements input =? inputArraySize c) || (elemBytes =? 0) then reject
  else enqueueBufferTransfer now (u64 ((elements matrix + elements input) * elemBytes)) r (WriteOperands array matrix input).

Definition readOutputAsync (now array elemBytes : Z) (r : Reply) : M bool := fun s =>
  (if (elements (outputVectors s) <=? array) || (elemBytes =? 0) then reject
   else enqueueOutputReadTransfer now array (u64 (outputArraySize c * elemBytes)) r (ReadOutputs [array]) Legacy) s.

Definition readOutputClassAsync (now array elemBytes : Z) (cls : AttentionClusterTrafficClass) (r : Reply) : M bool := fun s =>
  (if (elements (outputVectors s) <=? array) || (elemBytes =? 0) || negb (bool_decide (cls = QkScoreOut)) then reject
   else enqueueOutputReadTransfer now array (u64 (outputArraySize c * elemBytes)) r (ReadOutputs [array]) cls) s.

Definition readOutputGroupClassAsync (now : Z) (arrays : list Z) (elemBytes : Z) (cls : AttentionClusterTrafficClass) (r : Reply) : M bool :=
  let bytes := u64 (elements arrays * outputArraySize c * elemBytes) in
  if negb (validateOutputGroupRequest arrays elemBytes cls) then reject
  else if bool_decide (cls = SequentialPvOOutput) then enqueueOutputScatterGatherTransfer now bytes r (ReadOutputs arrays) cls
  else enqueueNearArrayOutputTransfer bytes r (ReadOutputs arrays) cls.

Definition readOutputBytesAsync (now array elemBytes : Z) (r : Reply) : M bool := fun s =>
  (if (elements (outputVectors s) <=? array) || (elemBytes =? 0) then reject
   else enqueueBufferTransfer now (u64 (outputArraySize c * elemBytes)) r (ReadBytes array elemBytes)) s.

Definition writeOutputAsync (now array : Z) (output : list D) (elemBytes : Z) (r : Reply) : M bool := fun s =>
  (if (elements (outputVectors s) <=? array) || negb (elements output =? outputArraySize c) || (elemBytes =? 0) then reject
   else enqueueBufferTransfer now (u64 (elements output * elemBytes)) r (WriteOutputs [array] output)) s.

Definition writeOutputGroupClassAsync (now : Z) (arrays : list Z) (outputs : list D) (elemBytes : Z)
    (cls : AttentionClusterTrafficClass) (r : Reply) : M bool :=
  if negb (validateOutputGroupRequest arrays elemBytes cls) || negb (bool_decide (cls = SequentialPvORestore)) ||
     negb (elements outputs =? u64 (elements arrays * outputArraySize c)) then reject
  else enqueueOutputScatterGatherTransfer now (u64 (elements outputs * elemBytes)) r (WriteOutputs arrays outputs) cls.

(** ** Computation *)

Definition modeledActiveComputeCycles (activeColumns : Z) : Z :=
  u64 (ceil (SFdiv prec64 emax64 (double_of_Z activeColumns) (arrayMacPerCuPerCycle c))) ⊞ arrayPipelineDepth c.
Definition getArrayLatencyActive (activeColumns : Z) : Z :=
  if negb (validateActiveColumnRequest activeColumns) then 0
  else if activeColumns =? inputArraySize c then modeledComputeCycles c else modeledActiveComputeCycles activeColumns.

Definition set_columns (array bank activeColumns : Z) (s : t T D) : t T D :=
  s <| activeInputColumns := (activeInputColumns s).[operandIndex bank array := activeColumns] |>.
Definition beginComputationBank (array bank : Z) : M unit :=
  if negb (validOperandContext array bank) then ret tt
  else update (set_columns array bank (u32 (inputArraySize c))) ;; send (ComputeEvent (modeledComputeCycles c) array bank).
Definition beginComputationActiveBank (array bank activeColumns : Z) : M unit :=
  if negb (validOperandContext array bank) || negb (validateActiveColumnRequest activeColumns) then ret tt
  else update (set_columns array bank activeColumns) ;; send (ComputeEvent (getArrayLatencyActive activeColumns) array bank).

Definition dot (row input : list T) : T := foldl (fun d p => elem_add d (elem_mul (fst p) (snd p))) elem_zero (zip row input).
Definition matrix_row {A} (row : nat) (columns : Z) (matrix : list A) : list A :=
  take (Z.to_nat columns) (piece (inputArraySize c) row matrix).

Definition clearOutputVector (array : Z) (s : t T D) : t T D :=
  s <| outputVectors := (outputVectors s).[array := zeros ((outputVectors s).[array])] |>.
Definition computeBank (array bank : Z) (s : t T D) : t T D :=
  if negb (validOperandContext array bank) then s
  else
    let context := operandIndex bank array in
    let accumulate := match (outputModes s).[array] with Accumulate => true | Overwrite => false end in
    let columns := (activeInputColumns s).[context] in
    let products := map (fun row => dot (matrix_row row columns ((matrixData s).[context])) (take (Z.to_nat columns) ((inputVectors s).[context])))
                      (seq 0 (Z.to_nat (outputArraySize c))) in
    s <| outputVectors := (outputVectors s).[array :=
      if accumulate then zip_with elem_add (resize (List.length products) elem_zero ((outputVectors s).[array])) products
      else products] |>.

Definition configureOutputMode (array command : Z) (s : t T D) : t T D :=
  if elements (outputModes s) <=? array then s
  else if command =? 0 then s <| outputModes := (outputModes s).[array := Overwrite] |>
  else if command =? 1 then s <| outputModes := (outputModes s).[array := Accumulate] |>
  else if command =? 2 then clearOutputVector array s
  else s.
Definition setMatrixItem (array index : Z) (value : D) (s : t T D) : t T D :=
  s <| matrixData := (matrixData s).[array := (matrixData s).[array].[index := of_double value]] |>.
Definition setVectorItem (array index : Z) (value : D) (s : t T D) : t T D :=
  s <| inputVectors := (inputVectors s).[array := (inputVectors s).[array].[index := of_double value]] |>.
Definition moveOutputToInput (source destination : Z) (s : t T D) : t T D :=
  s <| inputVectors := (inputVectors s).[destination := overwrite ((outputVectors s).[source]) ((inputVectors s).[destination])] |>.

(** ** The client and the events *)

Definition request_call (now : Z) (k : Call D) : option (Reply * M bool) :=
  match k with
  | ProgramMatrix array bank matrix n r => Some (r, programMatrixBankAsync now array bank matrix n r)
  | ProgramMatrixGroup arrays bank matrix n r => Some (r, programMatrixGroupBankAsync now arrays bank matrix n r)
  | ProgramMatrixGroupClass arrays bank matrix n cls r => Some (r, programMatrixGroupClassBankAsync now arrays bank matrix n cls r)
  | ProgramMatrixActive array bank matrix cols n r => Some (r, programMatrixActiveBankAsync now array bank matrix cols n r)
  | ProgramMatrixGroupActive arrays bank matrix cols n r => Some (r, programMatrixGroupActiveBankAsync now arrays bank matrix cols n r)
  | ProgramInput array bank input n r => Some (r, programInputBankAsync now array bank input n r)
  | ProgramInputGroup arrays bank input n cls r => Some (r, programInputGroupBankAsync now arrays bank input n cls r)
  | ProgramInputScatter arrays bank inputs n cls r => Some (r, programInputScatterBankAsync now arrays bank inputs n cls r)
  | ProgramInputActive array bank input cols n r => Some (r, programInputActiveBankAsync now array bank input cols n r)
  | ProgramOperands array matrix input n r => Some (r, programOperandsAsync now array matrix input n r)
  | ReadOutput array n r => Some (r, readOutputAsync now array n r)
  | ReadOutputClass array n cls r => Some (r, readOutputClassAsync now array n cls r)
  | ReadOutputGroupClass arrays n cls r => Some (r, readOutputGroupClassAsync now arrays n cls r)
  | ReadOutputBytes array n r => Some (r, readOutputBytesAsync now array n r)
  | WriteOutput array output n r => Some (r, writeOutputAsync now array output n r)
  | WriteOutputGroupClass arrays outputs n cls r => Some (r, writeOutputGroupClassAsync now arrays outputs n cls r)
  | _ => None
  end.
Definition plain_call (k : Call D) : M unit :=
  match k with
  | Begin array bank => beginComputationBank array bank
  | BeginActive array bank cols => beginComputationActiveBank array bank cols
  | ConfigureOutput array command => update (configureOutputMode array command)
  | SetMatrixItem array index value => update (setMatrixItem array index value)
  | SetVectorItem array index value => update (setVectorItem array index value)
  | MoveOutputToInput source destination => update (moveOutputToInput source destination)
  | _ => ret tt
  end.
Definition call (now : Z) (k : Call D) : M unit :=
  match request_call now k with
  | Some (r, m) => let! ok := m in send (Returned r ok)
  | None => plain_call k
  end.
Fixpoint calls (now : Z) (l : list (Call D)) : M unit :=
  match l with [] => ret tt | k :: l => call now k ;; calls now l end.

(** The credits a finished transfer gives back. *)
Definition give_back (r : BufferRequest D) (s : t T D) : t T D :=
  if dedicatedOutput r then
    if 0 <? nearArrayOutputInFlight_ s then s <| nearArrayOutputInFlight_ := nearArrayOutputInFlight_ s - 1 |> else s
  else if outputRead r then
    let s := if 0 <? outputReadInFlight_ s then s <| outputReadInFlight_ := outputReadInFlight_ s - 1 |> else s in
    let banks := outputReadBankInFlight_ s in
    if (outputBank r <? elements banks) && (0 <? banks.[outputBank r])
    then s <| outputReadBankInFlight_ := banks.[outputBank r := banks.[outputBank r] - 1] |> else s
  else s.
Definition free_port (r : BufferRequest D) (s : t T D) : t T D :=
  if negb (dedicatedOutput r) && (0 <? arrayBufferInFlight_ s)
  then s <| arrayBufferInFlight_ := arrayBufferInFlight_ s - 1 |> else s.

(** [reaction] is what the client calls in its callback. *)
Definition handleBufferEvent (now requestId : Z) (reaction : list (Call D)) : M unit := fun s =>
  match bufferRequests_ s !! requestId with
  | None => tryIssueBufferTransfers now s
  | Some r =>
      (update (give_back r) ;;
       update (fun s => s <| bufferRequests_ := delete requestId (bufferRequests_ s) |>) ;;
       update (transfer (completion r)) ;;
       (if callback (reply r)
        then (fun s => send (answer (completion r) (tag (reply r)) s) s) ;; calls now reaction
        else ret tt) ;;
       update (free_port r) ;;
       tryIssueBufferTransfers now) s
  end.

(** [reaction] is what the tile calls when it is told. *)
Definition handleSelfEvent (now array bank : Z) (reaction : list (Call D)) : M unit :=
  update (fun s =>
    if functionalCompute c then computeBank array bank s
    else match (outputModes s).[array] with Overwrite => clearOutputVector array s | Accumulate => s end) ;;
  send (Tile array bank) ;;
  calls now reaction.

End Array.
End ComputeArray.
