(* ===== verification/ArrayTransfers.v ===== *)
(** * Compute arrays: transfers

    Facts on the transfers of [ComputeArray].  Every accepted transfer is queued,
    on its way or complete, and each counter of the array is the number of the
    transfers it counts ([inv]).  Histories interleave calls of the client,
    completed transfers and completed launches, with further calls from inside the
    callbacks. *)

From S2P Require Import Prelude Telemetry Cluster Float32 Effects ComputeArray.
#[local] Open Scope Z_scope.
#[local] Open Scope mach_scope.

Section Transfers.
Import ComputeArray.
Local Open Scope sched_scope.
Context {T D : Type} {inhabited : Inhabited T} {element : Element T D}.
Variable c : Config.
Variable core_time : Z -> Z.
(** Bounds on the bytes of a transfer and the time it takes. *)
Variable most longest : Z.

(** A configuration the constructor leaves, with room for [most] bytes. *)
Record config_ok : Prop := {
  c_depth : 1 <= arrayBufferQueueDepth_ c;
  c_ports : 1 <= arrayBufferPorts_ c < 2 ^ 64;
  c_credits : 1 <= arrayOutputReadCredits_ c < 2 ^ 64;
  c_banks : 1 <= arrayOutputReadBanks_ c;
  c_near : 1 <= attentionNearArrayOutputCredits_ c < 2 ^ 64;
  c_base : 1 <= arrayBufferBaseLatencyCycles_ c <= 2 ^ 20 /\ 1 <= matrixBroadcastBaseLatencyCycles_ c <= 2 ^ 20;
  c_rates : Forall (fun x => 1 <= x < 2 ^ 62)
    [arrayBufferBytesPerCycle_ c; attentionNearArrayOutputBytesPerCycle_ c; matrixBroadcastBytesPerCycle_ c;
     inputScatterBytesPerCycle_ c; outputScatterGatherBytesPerCycle_ c];
  c_stage : 0 <= matrixBroadcastStageLatencyCycles_ c <= 2 ^ 20;
  c_most : 0 <= most <= 2 ^ 40
}.
Hypothesis cfg : config_ok.
Hypothesis core_time_ok : forall x, 0 < x <= 2 ^ 41 -> 0 < core_time x <= longest.

Abbreviation Entry := (Z * BufferRequest D)%type.
Definition tally (P : BufferRequest D -> bool) (l : list Entry) : Z :=
  Z.of_nat (List.length (filter (fun x => P (snd x) = true) l)).
Lemma tally_app P l l' : tally P (l ++ l') = tally P l + tally P l'.
Proof. unfold tally. rewrite filter_app, length_app. lia. Qed.
Lemma tally_one P x : tally P [x] = if P (snd x) then 1 else 0.
Proof. unfold tally. rewrite filter_cons. by destruct (P (snd x)); case_decide. Qed.
#[local] Instance tally_proper P : Proper ((≡ₚ) ==> eq) (tally P).
Proof. intros l l' E. unfold tally. by rewrite E. Qed.
Lemma tally_nonneg P l : 0 <= tally P l.
Proof. unfold tally. lia. Qed.

Definition on_port (r : BufferRequest D) : bool := negb (dedicatedOutput r).
Definition on_bank (b : Z) (r : BufferRequest D) : bool := outputRead r && (outputBank r =? b).
Definition req_ok (r : BufferRequest D) : Prop :=
  (outputRead r = true -> dedicatedOutput r = false /\ 0 <= outputBank r < arrayOutputReadBanks_ c) /\
  0 < core_time (transferCycles r) <= longest.

(** What has been accepted, started and called back. *)
Definition tags (r : Reply) : list Z := if callback r then [tag r] else [].
Definition asked (log : list (effect D)) : list Z :=
  concat (map (fun e => match e with Returned r true => tags r | _ => [] end) log).
Definition answered (log : list (effect D)) : list Z :=
  concat (map (fun e => match e with Callback _ t _ | CallbackBytes t _ => [t] | _ => [] end) log).
Definition started (log : list (effect D)) : list Z :=
  concat (map (fun e => match e with BufferEvent _ id => [id] | _ => [] end) log).
Definition open_tags (l : list Entry) : list Z := concat (map (fun x => tags (reply (snd x))) l).

Lemma asked_app l l' : asked (l ++ l') = asked l ++ asked l'.
Proof. unfold asked. by rewrite map_app, concat_app. Qed.
Lemma answered_app l l' : answered (l ++ l') = answered l ++ answered l'.
Proof. unfold answered. by rewrite map_app, concat_app. Qed.
Lemma started_app l l' : started (l ++ l') = started l ++ started l'.
Proof. unfold started. by rewrite map_app, concat_app. Qed.
#[local] Instance open_tags_proper : Proper ((≡ₚ) ==> (≡ₚ)) open_tags.
Proof. intros l l' E. unfold open_tags. induction E; cbn; [done|by f_equiv|solve_Permutation|by etrans]. Qed.

(** [Q] wait, [P] are on their way; [extra] ports are held by the running handler,
    which still has to report the acceptance of [hand]; [delivered] have been
    completed. *)
Record inv (extra : Z) (hand : list Z) (delivered : list Z) (time : Z) (Q P : list Entry) (log : list (effect D)) (s : t T D) : Prop := {
  i_queue : bufferQueue_ s = map fst Q;
  i_requests : bufferRequests_ s = list_to_map (Q ++ P);
  i_nodup : NoDup (map fst (Q ++ P));
  i_ids : 0 <= nextBufferRequestId_ s /\ Forall (fun x => fst x < nextBufferRequestId_ s) (Q ++ P);
  i_queued : Forall (fun x => dedicatedOutput (snd x) = false) Q;
  i_ok : Forall (fun x => req_ok (snd x)) (Q ++ P);
  i_ports : arrayBufferInFlight_ s = tally on_port P + extra /\ arrayBufferInFlight_ s <= arrayBufferPorts_ c;
  i_near : nearArrayOutputInFlight_ s = tally dedicatedOutput P /\ nearArrayOutputInFlight_ s <= attentionNearArrayOutputCredits_ c;
  i_reads : outputReadInFlight_ s = tally outputRead P /\ outputReadInFlight_ s <= arrayOutputReadCredits_ c;
  i_banks : Z.of_nat (List.length (outputReadBankInFlight_ s)) = arrayOutputReadBanks_ c /\
    forall b, 0 <= b < arrayOutputReadBanks_ c -> (outputReadBankInFlight_ s).[b] = tally (on_bank b) P /\ tally (on_bank b) P <= 1;
  i_time : BusyIntervalUnion.hasInterval_ (attentionClusterBufferIntervals_ s) = true ->
    BusyIntervalUnion.lastStart_ (attentionClusterBufferIntervals_ s) <= time;
  i_events : started log ≡ₚ delivered ++ map fst P;
  i_books : asked log ++ hand ≡ₚ open_tags (Q ++ P) ++ answered log
}.

(** The contents of the arrays. *)
Definition contents (s : t T D) := (inputVectors s, outputVectors s, matrixData s, outputModes s, activeInputColumns s).

(** No waiting transfer could start. *)
Definition settled (s : t T D) : Prop :=
  arrayBufferPorts_ c <= arrayBufferInFlight_ s \/ forall id, id ∈ bufferQueue_ s -> issuable c s id = false.

(** *** Starting transfers *)

Lemma interval_added now d u :
  0 < d -> (BusyIntervalUnion.hasInterval_ u = true -> BusyIntervalUnion.lastStart_ u <= now) ->
  exists u', BusyIntervalUnion.add now (now + d) u = (true, u') /\ BusyIntervalUnion.lastStart_ u' = now.
Proof.
  intros Hd Hu. unfold BusyIntervalUnion.add. rewrite (proj2 (Z.leb_gt _ _)) by lia. cbn [orb].
  destruct (BusyIntervalUnion.hasInterval_ u && (now <? BusyIntervalUnion.lastStart_ u)) eqn:E.
  { apply andb_prop in E as [E1 E2%Z.ltb_lt]. specialize (Hu E1). lia. }
  eexists. split; [reflexivity|]. done.
Qed.

Lemma queued_lookup (Q P : list Entry) i id r :
  NoDup (map fst (Q ++ P)) -> Q !! i = Some (id, r) -> (list_to_map (Q ++ P) : gmap Z (BufferRequest D)) !! id = Some r.
Proof. intros N Hi. apply elem_of_list_to_map; [done|]. apply elem_of_app. left. by eapply list_elem_of_lookup_2. Qed.
Lemma queue_moved (Q P : list Entry) i x : Q !! i = Some x -> Q ++ P ≡ₚ delete i Q ++ P ++ [x].
Proof. intros Hi. rewrite (delete_Permutation _ _ _ Hi) at 1. solve_Permutation. Qed.

Lemma map_delete {A B} (f : A -> B) l : forall i, delete i (map f l) = map f (delete i l).
Proof. induction l as [|x l IH]; intros [|i]; cbn; [done|done|done|]. f_equal. apply IH. Qed.
Lemma bank_set (l : list Z) b b' v :
  0 <= b < Z.of_nat (List.length l) -> 0 <= b' -> l.[b := v].[b'] = if b' =? b then v else l.[b'].
Proof.
  intros Hb Hb'. destruct (Z.eqb_spec b' b) as [->|Hn].
  - apply list_lookup_total_insert_eq. lia.
  - apply list_lookup_total_insert_ne. lia.
Qed.

Lemma start_inv extra hand delivered time Q P log s i id r :
  inv extra hand delivered time Q P log s -> Q !! i = Some (id, r) -> arrayBufferInFlight_ s < arrayBufferPorts_ c ->
  issuable c s id = true -> 0 <= extra ->
  inv extra hand delivered time (delete i Q) (P ++ [(id, r)]) (log ++ [BufferEvent (transferCycles r) id])
    (start r (s <| bufferQueue_ := delete i (bufferQueue_ s) |>)).
Proof.
  intros [] Hi Hp Hs Hx. pose proof (queue_moved Q P i _ Hi) as E. destruct cfg.
  assert (dedicatedOutput r = false) as Hd by (apply (Forall_lookup_1 _ _ _ _ i_queued0 Hi)).
  assert (req_ok r) as [Hr _] by (rewrite Forall_app in i_ok0; apply (Forall_lookup_1 _ _ _ _ (proj1 i_ok0) Hi)).
  unfold issuable in Hs. rewrite i_requests0, (queued_lookup _ _ _ _ _ i_nodup0 Hi) in Hs.
  destruct i_ports0 as [N1 N2], i_near0 as [N3 N4], i_reads0 as [N5 N6], i_banks0 as [N7 N8].
  pose proof (tally_nonneg on_port P). pose proof (tally_nonneg outputRead P).
  assert (on_port r = true) as Ho by (unfold on_port; by rewrite Hd).
  assert (delete i (bufferQueue_ s) = map fst (delete i Q)) as Eq by (rewrite i_queue0; apply map_delete).
  assert (u64 (arrayBufferInFlight_ s + 1) = arrayBufferInFlight_ s + 1) as W by (apply u64_small; unfold is_u64; lia).
  assert (forall s', bufferQueue_ s' = delete i (bufferQueue_ s) -> bufferRequests_ s' = bufferRequests_ s ->
    nextBufferRequestId_ s' = nextBufferRequestId_ s -> attentionClusterBufferIntervals_ s' = attentionClusterBufferIntervals_ s ->
    nearArrayOutputInFlight_ s' = nearArrayOutputInFlight_ s -> arrayBufferInFlight_ s' = arrayBufferInFlight_ s + 1 ->
    outputReadInFlight_ s' = tally outputRead (P ++ [(id, r)]) /\ outputReadInFlight_ s' <= arrayOutputReadCredits_ c ->
    (Z.of_nat (List.length (outputReadBankInFlight_ s')) = arrayOutputReadBanks_ c /\
     forall b, 0 <= b < arrayOutputReadBanks_ c ->
       (outputReadBankInFlight_ s').[b] = tally (on_bank b) (P ++ [(id, r)]) /\ tally (on_bank b) (P ++ [(id, r)]) <= 1) ->
    inv extra hand delivered time (delete i Q) (P ++ [(id, r)]) (log ++ [BufferEvent (transferCycles r) id]) s') as Build.
  { intros s' E1 E2 E3 E4 E5 E6 E7 E8. constructor; rewrite ?E1, ?E2, ?E3, ?E4, ?E5, ?E6; try done.
    - rewrite i_requests0. apply list_to_map_proper; [done|]. done.
    - by rewrite <- E.
    - split; [apply i_ids0|]. rewrite <- E. apply i_ids0.
    - by apply Forall_delete.
    - by rewrite <- E.
    - rewrite tally_app, tally_one. cbn [snd]. rewrite Ho. lia.
    - rewrite tally_app, tally_one. cbn [snd]. rewrite Hd. lia.
    - rewrite started_app, i_events0, map_app. cbn. solve_Permutation.
    - rewrite asked_app, answered_app, <- E. cbn. rewrite !app_nil_r. done. }
  unfold start. destruct (outputRead r) eqn:Er; apply Build; try done; cbn.
  - apply andb_prop in Hs as [[Hs%Z.ltb_lt _]%andb_prop _]. rewrite tally_app, tally_one. cbn. rewrite Er.
    rewrite u64_small by (unfold is_u64; lia). lia.
  - apply andb_prop in Hs as [_ Hs%Z.eqb_eq]. destruct (Hr eq_refl) as [_ Hb]. split; [by rewrite length_insert|]. intros b Hb'.
    rewrite bank_set by lia. rewrite !tally_app, !tally_one. cbn. unfold on_bank at 2 4. rewrite Er. cbn [andb].
    destruct (N8 b Hb') as [N9 N10]. rewrite (Z.eqb_sym (outputBank r)). destruct (Z.eqb_spec b (outputBank r)) as [->|Hn]; [|lia].
    rewrite Hs in N9 |- *. rewrite <- N9. done.
  - rewrite tally_app, tally_one. cbn. rewrite Er. lia.
  - split; [done|]. intros b Hb. rewrite !tally_app, !tally_one. cbn. unfold on_bank at 2 4. rewrite Er. cbn [andb]. destruct (N8 b Hb). lia.
Qed.

(** The union of busy intervals is at most at [now]. *)
Definition until (now : Z) (u : BusyIntervalUnion.t) : Prop :=
  BusyIntervalUnion.hasInterval_ u = true -> BusyIntervalUnion.lastStart_ u <= now.

Lemma record_spec now r log (s : t T D) Z0 :
  until now (attentionClusterBufferIntervals_ s) -> req_ok r -> 0 <= now -> now + longest < 2 ^ 64 ->
  (forall u, until now u -> Z0 tt log (s <| attentionClusterBufferIntervals_ := u |>)) ->
  wp False (record_interval c core_time now r) Z0 log s.
Proof.
  intros Hu [_ Hr] Hn Hl HQ. unfold record_interval. wp_state. destruct (_ && _).
  - destruct (interval_added now (core_time (transferCycles r)) (attentionClusterBufferIntervals_ s)) as (u & E & Eu); [lia|done|].
    rewrite u64_small by (unfold is_u64; lia). rewrite E. wp_fold. apply wp_update, HQ. intros _. lia.
  - wp_fold. apply wp_ret. specialize (HQ (attentionClusterBufferIntervals_ s) Hu). by destruct s.
Qed.

(** After a handler that has left the transfers [E], with [n] new ids. *)
Definition moved (extra : Z) (hand delivered : list Z) (now : Z) (E : list Entry) (s : t T D) (n : Z) (log' : list (effect D)) (s' : t T D) : Prop :=
  (exists Q P, inv extra hand delivered now Q P log' s' /\ Q ++ P ≡ₚ E) /\ (settled s -> settled s') /\ contents s' = contents s /\
  nextBufferRequestId_ s' <= nextBufferRequestId_ s + n.

Lemma settle_moved extra hand delivered now E s n log' s' :
  (exists Q P, inv extra hand delivered now Q P log' s' /\ Q ++ P ≡ₚ E) -> settled s' -> contents s' = contents s ->
  nextBufferRequestId_ s' <= nextBufferRequestId_ s + n -> moved extra hand delivered now E s n log' s' /\ settled s'.
Proof. intros H1 H2 H3 H4. split; [|done]. by split_and!. Qed.

Lemma inv_intervals extra hand delivered time now Q P log s u :
  inv extra hand delivered time Q P log s -> until now u ->
  inv extra hand delivered now Q P log (s <| attentionClusterBufferIntervals_ := u |>).
Proof. intros [] Hu. by constructor. Qed.
Lemma inv_time extra hand delivered time now Q P log s :
  inv extra hand delivered time Q P log s -> time <= now -> inv extra hand delivered now Q P log s.
Proof. intros [] Ht. constructor; try done. intros Hi. specialize (i_time0 Hi). lia. Qed.

Lemma issue_spec fuel now extra hand delivered : forall time Q P log s,
  inv extra hand delivered time Q P log s -> (List.length Q <= fuel)%nat -> 0 <= extra ->
  time <= now -> 0 <= now -> now + longest < 2 ^ 64 ->
  wp False (issue_loop c core_time fuel now) (fun _ log' s' => moved extra hand delivered now (Q ++ P) s 0 log' s' /\ settled s') log s.
Proof.
  induction fuel as [|fuel IH]; intros time Q P log s I Hf Hx Ht Hn Hl; cbn [issue_loop].
  { apply wp_ret. pose proof (inv_time _ _ _ _ now _ _ _ _ I Ht) as I'. apply settle_moved; [by do 2 eexists| |done|lia].
    right. rewrite (i_queue _ _ _ _ _ _ _ _ I). destruct Q; [|cbn in Hf; lia]. by intros id ?%elem_of_nil. }
  wp_state. destruct (_ || _) eqn:Eg.
  { wp_fold. apply wp_ret. pose proof (inv_time _ _ _ _ now _ _ _ _ I Ht) as I'. apply settle_moved; [by do 2 eexists| |done|lia].
    apply orb_prop in Eg as [Eg%Z.leb_le|Eg]; [by left|]. right. destruct (bufferQueue_ s); [|done]. by intros id ?%elem_of_nil. }
  apply orb_false_iff in Eg as [Eg%Z.leb_gt _].
  destruct (list_find _ (bufferQueue_ s)) as [[i id]|] eqn:E; wp_fold.
  2:{ apply wp_ret. pose proof (inv_time _ _ _ _ now _ _ _ _ I Ht) as I'. apply settle_moved; [by do 2 eexists| |done|lia].
      right. intros id Hid. apply list_find_None in E. rewrite Forall_forall in E. specialize (E id Hid). by apply not_true_is_false in E. }
  apply list_find_Some in E as (Hi & Hs & _). rewrite (i_queue _ _ _ _ _ _ _ _ I) in Hi. apply list_lookup_fmap_Some in Hi as ([id' r] & E1 & Hi). cbn in E1. subst id'.
  rewrite (i_requests _ _ _ _ _ _ _ _ I), (queued_lookup _ _ _ _ _ (i_nodup _ _ _ _ _ _ _ _ I) Hi).
  assert (req_ok r) as Hr by (pose proof (i_ok _ _ _ _ _ _ _ _ I) as G; rewrite Forall_app in G; apply (Forall_lookup_1 _ _ _ _ (proj1 G) Hi)).
  pose proof (start_inv _ _ _ _ _ _ _ _ _ _ _ I Hi Eg Hs Hx) as I1.
  apply wp_bind, wp_update, wp_bind. set (s1 := s <| bufferQueue_ := _ |>) in *.
  apply record_spec; [|done|done|done|].
  { intros Hu. pose proof (i_time _ _ _ _ _ _ _ _ I Hu) as G. change (attentionClusterBufferIntervals_ s1) with (attentionClusterBufferIntervals_ s). lia. }
  intros u Hu. apply wp_bind, wp_update, wp_bind, wp_send. set (s2 := start r _).
  assert (s2 = (start r s1) <| attentionClusterBufferIntervals_ := u |>) as E2 by (unfold s2, start; by destruct (outputRead r)).
  pose proof (inv_intervals _ _ _ _ now _ _ _ _ u I1 Hu) as I2. rewrite <- E2 in I2. clearbody s2.
  eapply wp_mono; [eapply (IH now); [exact I2| |done|lia|done|done]|].
  { rewrite length_delete by (by eexists). lia. }
  intros [] log' s' [((Q' & P' & H0 & H1) & _ & H3 & H4) H2]. apply settle_moved; [|done| |].
  - exists Q', P'. split; [done|]. rewrite H1. symmetry. by apply queue_moved.
  - rewrite H3, E2. unfold start. by destruct (outputRead r).
  - etrans; [exact H4|]. rewrite E2. unfold start. by destruct (outputRead r).
Qed.

Definition horizon (time now : Z) : Prop := time <= now /\ 0 <= now /\ now + longest < 2 ^ 64.

Lemma transfers_issue_spec now extra hand delivered time Q P log s :
  inv extra hand delivered time Q P log s -> 0 <= extra -> horizon time now ->
  wp False (tryIssueBufferTransfers c core_time now) (fun _ log' s' => moved extra hand delivered now (Q ++ P) s 0 log' s' /\ settled s') log s.
Proof.
  intros I Hx (Ht & Hn & Hl). unfold tryIssueBufferTransfers. wp_state. wp_fold. eapply issue_spec; try done.
  rewrite (i_queue _ _ _ _ _ _ _ _ I), length_map. done.
Qed.

(** *** New transfers *)

Lemma fresh_entry (E : list Entry) id : Forall (fun x => fst x < id) E -> id ∉ map fst E.
Proof. intros F [x [-> Hx]]%list_elem_of_fmap. rewrite Forall_forall in F. specialize (F x Hx). lia. Qed.

Lemma insert_inv extra hand delivered time Q P log s r :
  inv extra hand delivered time Q P log s -> req_ok r -> dedicatedOutput r = false -> nextBufferRequestId_ s + 1 < 2 ^ 64 ->
  inv extra (hand ++ tags (reply r)) delivered time (Q ++ [(nextBufferRequestId_ s, r)]) P log
    (insert_request r (s <| bufferQueue_ := bufferQueue_ s ++ [nextBufferRequestId_ s] |>)).
Proof.
  intros [] Hr Hd Hn. destruct i_ids0 as [N1 N2]. pose proof (fresh_entry _ _ N2) as Hf.
  set (x := (nextBufferRequestId_ s, r)). assert ((Q ++ [x]) ++ P ≡ₚ x :: Q ++ P) as E by solve_Permutation.
  assert (u64 (nextBufferRequestId_ s + 1) = nextBufferRequestId_ s + 1) as W by (apply u64_small; unfold is_u64; lia).
  constructor; cbn; try done.
  - by rewrite i_queue0, map_app.
  - rewrite i_requests0. rewrite <- list_to_map_cons. symmetry. apply list_to_map_proper; [|done]. rewrite E. cbn. by apply NoDup_cons.
  - rewrite E. cbn. by apply NoDup_cons.
  - rewrite W. split; [lia|]. rewrite E. constructor; [cbn; lia|]. eapply Forall_impl; [exact N2|]. cbn. lia.
  - apply Forall_app. split; [done|]. by constructor.
  - rewrite E. by constructor.
  - rewrite E. unfold open_tags. cbn [map concat]. rewrite app_assoc, i_books0. unfold open_tags. cbn. solve_Permutation.
Qed.

(** What a request of the client has come to. *)
Definition requested (extra : Z) (hand delivered : list Z) (now : Z) (E : list Entry) (r : BufferRequest D) (s : t T D)
    (ok : bool) (log' : list (effect D)) (s' : t T D) : Prop :=
  if ok then moved extra (hand ++ tags (reply r)) delivered now (E ++ [(nextBufferRequestId_ s, r)]) s 1 log' s'
  else moved extra hand delivered now E s 0 log' s'.

Lemma enqueue_spec now extra hand delivered time Q P log s r :
  inv extra hand delivered time Q P log s -> req_ok r -> dedicatedOutput r = false ->
  nextBufferRequestId_ s + 1 < 2 ^ 64 -> 0 <= extra -> horizon time now ->
  wp False (enqueueModeledBufferTransfer c core_time now r)
    (fun ok log' s' => requested extra hand delivered now (Q ++ P) r s ok log' s' /\ ok = negb (full c s)) log s.
Proof.
  intros I Hr Hd Hn Hx Hh. unfold enqueueModeledBufferTransfer. wp_state. destruct (full c s); wp_fold.
  { apply wp_ret. split; [|done]. destruct Hh as [Ht _]. pose proof (inv_time _ _ _ _ now _ _ _ _ I Ht) as I'. split_and!; [by do 2 eexists|done|done|lia]. }
  apply wp_bind, wp_update, wp_bind. pose proof (insert_inv _ _ _ _ _ _ _ _ _ I Hr Hd Hn) as I1.
  eapply wp_mono; [by eapply transfers_issue_spec|]. intros [] log' s' [((Q' & P' & H0 & H1) & _ & H3 & H4) H2]. apply wp_ret. split; [|done]. split_and!; [|done|done|].
  - exists Q', P'. split; [done|]. rewrite H1. solve_Permutation.
  - etrans; [exact H4|]. cbn. rewrite u64_small; [lia|]. destruct (i_ids _ _ _ _ _ _ _ _ I). unfold is_u64. lia.
Qed.

(** A grouped drain needs no port. *)
Lemma dedicated_inv extra hand delivered time Q P log s r :
  inv extra hand delivered time Q P log s -> req_ok r -> dedicatedOutput r = true -> nextBufferRequestId_ s + 1 < 2 ^ 64 ->
  nearArrayOutputInFlight_ s < attentionNearArrayOutputCredits_ c ->
  inv extra (hand ++ tags (reply r)) delivered time Q (P ++ [(nextBufferRequestId_ s, r)])
    (log ++ [BufferEvent (transferCycles r) (nextBufferRequestId_ s)])
    (insert_request r (s <| nearArrayOutputInFlight_ := nearArrayOutputInFlight_ s ⊞ 1 |>)).
Proof.
  intros [] Hr Hd Hn Hc. destruct i_ids0 as [N1 N2], cfg. pose proof (fresh_entry _ _ N2) as Hf.
  set (x := (nextBufferRequestId_ s, r)). assert (Q ++ P ++ [x] ≡ₚ x :: Q ++ P) as E by solve_Permutation.
  destruct i_ports0 as [A1 A2], i_near0 as [A3 A4], i_reads0 as [A5 A6], i_banks0 as [A7 A8].
  assert (outputRead r = false) as Ho by (destruct (outputRead r) eqn:Eo; [destruct Hr as [Hr _]; destruct (Hr Eo); congruence|done]).
  assert (u64 (nextBufferRequestId_ s + 1) = nextBufferRequestId_ s + 1) as W by (apply u64_small; unfold is_u64; lia).
  pose proof (tally_nonneg dedicatedOutput P). constructor; cbn; try done.
  - rewrite i_requests0. rewrite <- list_to_map_cons. symmetry. apply list_to_map_proper; [|done]. rewrite E. cbn. by apply NoDup_cons.
  - rewrite E. cbn. by apply NoDup_cons.
  - rewrite W. split; [lia|]. rewrite E. constructor; [cbn; lia|]. eapply Forall_impl; [exact N2|]. cbn. lia.
  - rewrite E. by constructor.
  - rewrite tally_app, tally_one. cbn. unfold on_port at 2. rewrite Hd. cbn. lia.
  - rewrite tally_app, tally_one. cbn. rewrite Hd, u64_small by (unfold is_u64; lia). lia.
  - rewrite tally_app, tally_one. cbn. rewrite Ho. lia.
  - split; [done|]. intros b Hb. rewrite tally_app, tally_one. cbn. unfold on_bank at 2 4. rewrite Ho. cbn. destruct (A8 b Hb). lia.
  - rewrite started_app, i_events0, map_app. cbn. solve_Permutation.
  - rewrite asked_app, answered_app, E. unfold open_tags. cbn [map concat asked answered]. cbn. rewrite !app_nil_r, app_assoc, i_books0.
    unfold open_tags. solve_Permutation.
Qed.

Lemma near_spec now bytes k cls r extra hand delivered time Q P log s :
  let b := mkBufferRequest _ r (cycles (arrayBufferBaseLatencyCycles_ c) bytes (attentionNearArrayOutputBytesPerCycle_ c)) k false 0 cls true in
  inv extra hand delivered time Q P log s -> req_ok b -> nextBufferRequestId_ s + 1 < 2 ^ 64 -> horizon time now ->
  wp False (enqueueNearArrayOutputTransfer c bytes r k cls) (requested extra hand delivered now (Q ++ P) b s) log s.
Proof.
  intros b I Hr Hn [Ht _]. pose proof (inv_time _ _ _ _ now _ _ _ _ I Ht) as I'. unfold enqueueNearArrayOutputTransfer. wp_state.
  destruct (_ || _) eqn:Eg; wp_fold.
  { apply wp_ret. split_and!; [by do 2 eexists|done|done|lia]. }
  apply orb_false_iff in Eg as [[_ Eg%Z.leb_gt]%orb_false_iff _]. apply wp_bind, wp_update, wp_bind, wp_send, wp_ret.
  pose proof (dedicated_inv _ _ _ _ _ _ _ _ b I' Hr eq_refl Hn Eg) as I1. unfold requested. split_and!.
  - exists Q, (P ++ [(nextBufferRequestId_ s, b)]). split; [exact I1|]. solve_Permutation.
  - intros [Hs|Hs]; [by left|]. right. cbn. intros id Hid. specialize (Hs id Hid). unfold issuable in *. cbn.
    assert (id <> nextBufferRequestId_ s) as Hne.
    { rewrite (i_queue _ _ _ _ _ _ _ _ I) in Hid. apply list_elem_of_fmap in Hid as (x & -> & Hx).
      destruct (i_ids _ _ _ _ _ _ _ _ I) as [_ F]. rewrite Forall_forall in F. specialize (F x). rewrite elem_of_app in F. specialize (F (or_introl Hx)). lia. }
    by rewrite lookup_insert_ne.
  - done.
  - cbn. destruct (i_ids _ _ _ _ _ _ _ _ I). rewrite u64_small; [lia|]. unfold is_u64. lia.
Qed.

(** *** The time a transfer takes *)

Lemma cycles_bounds base bytes rate :
  1 <= base <= 2 ^ 20 -> 0 <= bytes <= 2 ^ 40 -> 1 <= rate < 2 ^ 62 -> 0 < cycles base bytes rate <= 2 ^ 20 + 2 ^ 40 + 1.
Proof.
  intros Hb Hy Hr. unfold cycles. rewrite (u64_small (bytes + rate)) by (unfold is_u64; lia).
  rewrite (u64_small (bytes + rate - 1)) by (unfold is_u64; lia).
  assert (0 <= (bytes + rate - 1) / rate <= bytes + 1) as Hd.
  { split; [apply Z.div_pos; lia|]. apply Z.div_le_upper_bound; nia. }
  rewrite u64_small by (unfold is_u64; lia). lia.
Qed.

Lemma log2_bounds fuel : forall value stages, 0 <= stages -> stages + Z.of_nat fuel < 2 ^ 64 ->
  stages <= ceilLog2_loop fuel value stages <= stages + Z.of_nat fuel.
Proof.
  induction fuel as [|fuel IH]; intros value stages H1 H2; cbn [ceilLog2_loop]; [lia|]. destruct (1 <? value); [|lia].
  rewrite (u64_small (stages + 1)) by (unfold is_u64; lia). specialize (IH (u64 (value + 1) / 2) (stages + 1) ltac:(lia) ltac:(lia)). lia.
Qed.

(** *** Calls *)

Definition call_bytes (k : Call D) : Z :=
  match k with
  | ProgramMatrix _ _ l n _ | ProgramMatrixGroup _ _ l n _ | ProgramMatrixGroupClass _ _ l n _ _ | ProgramMatrixActive _ _ l _ n _
  | ProgramMatrixGroupActive _ _ l _ n _ | ProgramInput _ _ l n _ | ProgramInputGroup _ _ l n _ _ | ProgramInputScatter _ _ l n _ _
  | ProgramInputActive _ _ l _ n _ | WriteOutput _ l n _ | WriteOutputGroupClass _ l n _ _ => elements l * n
  | ProgramOperands _ l l' n _ => (elements l + elements l') * n
  | ReadOutput _ n _ | ReadOutputClass _ n _ _ | ReadOutputBytes _ n _ => outputArraySize c * n
  | ReadOutputGroupClass arrays n _ _ => elements arrays * outputArraySize c * n
  | _ => 0
  end.
Definition call_ok (k : Call D) : Prop := 0 <= call_bytes k <= most.

Lemma bytes_ok x : 0 <= x <= most -> u64 x = x.
Proof. intros Hx. apply u64_small. destruct cfg. unfold is_u64. lia. Qed.

Lemma shared_ok r x base rate k bank cls :
  0 <= x <= most -> 1 <= base <= 2 ^ 20 -> 1 <= rate < 2 ^ 62 ->
  (forall b, bank = Some b -> 0 <= b < arrayOutputReadBanks_ c) ->
  req_ok (shared r (cycles base x rate) k bank cls).
Proof.
  intros Hx Hb Hr Hk. destruct cfg. pose proof (cycles_bounds base x rate Hb ltac:(lia) Hr). split.
  - unfold shared. cbn. destruct bank as [b|]; [|done]. intros _. split; [done|]. by apply Hk.
  - apply core_time_ok. unfold shared. cbn [transferCycles]. lia.
Qed.
Lemma broadcast_ok r x fanout k cls :
  0 <= x <= most ->
  req_ok (shared r (cycles (matrixBroadcastBaseLatencyCycles_ c) x (matrixBroadcastBytesPerCycle_ c) ⊞
    u64 (ceilLog2 fanout * matrixBroadcastStageLatencyCycles_ c)) k None cls).
Proof.
  intros Hx. destruct cfg. rewrite !Forall_cons in c_rates0. destruct c_rates0 as (_ & _ & F & _).
  pose proof (cycles_bounds (matrixBroadcastBaseLatencyCycles_ c) x (matrixBroadcastBytesPerCycle_ c) ltac:(lia) ltac:(lia) ltac:(lia)).
  pose proof (log2_bounds 64 fanout 0 ltac:(lia) ltac:(lia)) as L. fold (ceilLog2 fanout) in L.
  assert (0 <= ceilLog2 fanout * matrixBroadcastStageLatencyCycles_ c <= 64 * 2 ^ 20) by nia.
  rewrite (u64_small (_ * _)) by (unfold is_u64; lia). rewrite u64_small by (unfold is_u64; lia).
  split; [done|]. apply core_time_ok. unfold shared. cbn [transferCycles]. lia.
Qed.

Lemma bank_ok array : 0 <= (if arrayOutputReadBanks_ c =? 0 then 0 else array mod arrayOutputReadBanks_ c) < arrayOutputReadBanks_ c.
Proof. destruct cfg. destruct (Z.eqb_spec (arrayOutputReadBanks_ c) 0); [lia|]. apply Z.mod_pos_bound. lia. Qed.
Lemma near_ok r x k cls :
  0 <= x <= most ->
  req_ok (mkBufferRequest _ r (cycles (arrayBufferBaseLatencyCycles_ c) x (attentionNearArrayOutputBytesPerCycle_ c)) k false 0 cls true).
Proof.
  intros Hx. destruct cfg. rewrite !Forall_cons in c_rates0. destruct c_rates0 as (_ & F & _).
  pose proof (cycles_bounds (arrayBufferBaseLatencyCycles_ c) x (attentionNearArrayOutputBytesPerCycle_ c) ltac:(lia) ltac:(lia) F).
  split; [done|]. apply core_time_ok. cbn [transferCycles]. lia.
Qed.
Ltac call_of f := unfold f; match goal with R : wp False (ret false) _ _ _, K : forall b, _ -> _ -> _ -> wp _ _ _ _ _ |- _ =>
  match goal with |- wp _ (if ?b then _ else _) _ _ _ => destruct b; [exact R|] | _ => idtac end;
  rewrite ?bytes_ok by done; apply K; [done| |done] end.

(** A call that asks for a transfer. *)
Lemma request_spec now k r m extra hand delivered time Q P log s :
  request_call c core_time now k = Some (r, m) -> call_ok k ->
  inv extra hand delivered time Q P log s -> nextBufferRequestId_ s + 1 < 2 ^ 64 -> 0 <= extra -> horizon time now ->
  wp False m (fun ok log' s' => exists b, reply b = r /\ requested extra hand delivered now (Q ++ P) b s ok log' s') log s.
Proof.
  intros E Hk I Hn Hx Hh. unfold call_ok in Hk.
  assert (forall b, reply b = r -> req_ok b -> dedicatedOutput b = false ->
    wp False (enqueueModeledBufferTransfer c core_time now b)
      (fun ok log' s' => exists b, reply b = r /\ requested extra hand delivered now (Q ++ P) b s ok log' s') log s) as K.
  { intros b Hb Hr Hd. eapply wp_mono; [by eapply enqueue_spec|]. intros ok log' s' [G _]. by exists b. }
  assert (wp False (ret false) (fun ok log' s' => exists b, reply b = r /\ requested extra hand delivered now (Q ++ P) b s ok log' s') log s) as R.
  { apply wp_ret. exists (shared r 1 (ReadOutputs []) None Legacy). split; [done|]. destruct Hh as [Ht _].
    pose proof (inv_time _ _ _ _ now _ _ _ _ I Ht). split_and!; [by do 2 eexists|done|done|lia]. }
  pose proof cfg as [_ C1 C2 C3 C4 [C5 C6] C7 C8 C9]. rewrite !Forall_cons in C7. destruct C7 as (F1 & F2 & F3 & F4 & F5 & _).
  destruct k; cbn [request_call] in E; try discriminate E; injection E as <- <-; cbn [call_bytes] in Hk.
  - call_of @programMatrixBankAsync; by apply shared_ok.
  - call_of @programMatrixGroupBankAsync; by apply broadcast_ok.
  - call_of @programMatrixGroupClassBankAsync; by apply broadcast_ok.
  - call_of @programMatrixActiveBankAsync; by apply shared_ok.
  - call_of @programMatrixGroupActiveBankAsync; by apply broadcast_ok.
  - call_of @programInputBankAsync; by apply shared_ok.
  - call_of @programInputGroupBankAsync; by apply broadcast_ok.
  - call_of @programInputScatterBankAsync; by apply shared_ok.
  - call_of @programInputActiveBankAsync; by apply shared_ok.
  - call_of @programOperandsAsync; by apply shared_ok.
  - unfold readOutputAsync. wp_state. wp_fold. call_of @enqueueOutputReadTransfer. apply shared_ok; try done. intros b [= <-]. by apply bank_ok.
  - unfold readOutputClassAsync. wp_state. wp_fold. call_of @enqueueOutputReadTransfer. apply shared_ok; try done. intros b [= <-]. by apply bank_ok.
  - unfold readOutputGroupClassAsync. destruct (negb _); [exact R|]. destruct (bool_decide _).
    + rewrite bytes_ok by done. apply K; [done|by apply shared_ok|done].
    + rewrite bytes_ok by done. eapply wp_mono; [eapply near_spec; try done; by apply near_ok|]. intros ok log' s' G. eexists. by split; [|exact G].
  - unfold readOutputBytesAsync. wp_state. wp_fold. call_of @enqueueBufferTransfer. by apply shared_ok.
  - unfold writeOutputAsync. wp_state. wp_fold. call_of @enqueueBufferTransfer. by apply shared_ok.
  - call_of @writeOutputGroupClassAsync; by apply shared_ok.
Qed.

(** What the transfers look at. *)
Definition same_buffer (s s' : t T D) : Prop :=
  attentionClusterBufferIntervals_ s' = attentionClusterBufferIntervals_ s /\ arrayBufferInFlight_ s' = arrayBufferInFlight_ s /\
  nextBufferRequestId_ s' = nextBufferRequestId_ s /\ nearArrayOutputInFlight_ s' = nearArrayOutputInFlight_ s /\
  outputReadInFlight_ s' = outputReadInFlight_ s /\ outputReadBankInFlight_ s' = outputReadBankInFlight_ s /\
  bufferQueue_ s' = bufferQueue_ s /\ bufferRequests_ s' = bufferRequests_ s.
Definition silent (log log' : list (effect D)) : Prop :=
  asked log' = asked log /\ answered log' = answered log /\ started log' = started log.

Lemma same_inv_buffer extra hand delivered time Q P log log' s s' :
  same_buffer s s' -> silent log log' -> inv extra hand delivered time Q P log s -> inv extra hand delivered time Q P log' s'.
Proof.
  intros (E1 & E2 & E3 & E4 & E5 & E6 & E7 & E8) (L1 & L2 & L3) [].
  constructor; rewrite ?E1, ?E2, ?E3, ?E4, ?E5, ?E6, ?E7, ?E8, ?L1, ?L2, ?L3; done.
Qed.
Lemma same_settled s s' : same_buffer s s' -> settled s -> settled s'.
Proof.
  intros (E1 & E2 & E3 & E4 & E5 & E6 & E7 & E8) [Hs|Hs]; [left; by rewrite E2|]. right. intros id Hid. rewrite E7 in Hid.
  rewrite <- (Hs id Hid). unfold issuable. by rewrite E5, E6, E8.
Qed.

(** After calls of the client. *)
Definition served (extra : Z) (delivered : list Z) (now : Z) (s : t T D) (n : Z) (log' : list (effect D)) (s' : t T D) : Prop :=
  (exists Q P, inv extra [] delivered now Q P log' s') /\ (settled s -> settled s') /\
  nextBufferRequestId_ s' <= nextBufferRequestId_ s + n.

Lemma plain_spec now k extra delivered time Q P log s :
  inv extra [] delivered time Q P log s -> time <= now ->
  wp False (plain_call c k) (fun _ => served extra delivered now s 0) log s.
Proof.
  intros I Ht. apply (inv_time _ _ _ _ now) in I; [|done].
  assert (forall log' s', same_buffer s s' -> silent log log' -> served extra delivered now s 0 log' s') as K.
  { intros log' s' S L. split_and!; [exists Q, P; by eapply same_inv_buffer|by apply same_settled|].
    destruct S as (_ & _ & -> & _). lia. }
  assert (forall d array bank, silent log (log ++ [ComputeEvent d array bank])) as L.
  { intros d array bank. unfold silent. rewrite asked_app, answered_app, started_app. cbn. by rewrite !app_nil_r. }
  destruct k; cbn [plain_call]; try (apply wp_ret; by apply K); try (apply wp_update, K; [|done]; by unfold same_buffer; split_and!).
  - unfold beginComputationBank. destruct (negb _); [apply wp_ret; by apply K|]. apply wp_bind, wp_update, wp_send, K; [|done].
    by unfold same_buffer; split_and!.
  - unfold beginComputationActiveBank. destruct (_ || _); [apply wp_ret; by apply K|]. apply wp_bind, wp_update, wp_send, K; [|done].
    by unfold same_buffer; split_and!.
  - apply wp_update, K; [|done]. unfold configureOutputMode, clearOutputVector.
    destruct (_ <=? _); [done|]. destruct (_ =? _); [by unfold same_buffer; split_and!|].
    destruct (_ =? _); [by unfold same_buffer; split_and!|]. destruct (_ =? _); by unfold same_buffer; split_and!.
Qed.

Lemma returned_inv extra hand delivered time Q P log s r (ok : bool) :
  inv extra (if ok then hand ++ tags r else hand) delivered time Q P log s ->
  inv extra hand delivered time Q P (log ++ [Returned r ok]) s.
Proof.
  intros []. constructor; try done; rewrite ?started_app, ?asked_app, ?answered_app; cbn; rewrite ?app_nil_r; try done.
  destruct ok; cbn; rewrite ?app_nil_r; [|done]. rewrite <- i_books0. solve_Permutation.
Qed.

Lemma call_spec now k extra delivered time Q P log s :
  inv extra [] delivered time Q P log s -> call_ok k -> nextBufferRequestId_ s + 1 < 2 ^ 64 -> 0 <= extra -> horizon time now ->
  wp False (call c core_time now k) (fun _ => served extra delivered now s 1) log s.
Proof.
  intros I Hk Hn Hx Hh. unfold call. destruct (request_call c core_time now k) as [[r m]|] eqn:E.
  - apply wp_bind. eapply wp_mono; [by eapply request_spec|]. intros ok log' s' (b & <- & G). apply wp_send.
    assert (exists hand' n E', moved extra hand' delivered now E' s n log' s' /\ n <= 1 /\ hand' = if ok then [] ++ tags (reply b) else [])
      as (hand' & n & E' & ((Q' & P' & G1 & _) & G2 & _ & G4) & Hn' & ->) by (destruct ok; do 3 eexists; (split; [exact G|]); done || lia).
    split_and!; [|done|lia]. exists Q', P'. by apply returned_inv.
  - destruct Hh as [Ht _]. eapply wp_mono; [by eapply plain_spec|]. intros [] log' s' (G1 & G2 & G3). split_and!; [done|done|lia].
Qed.

Lemma calls_spec now l : forall extra delivered time log s,
  (exists Q P, inv extra [] delivered time Q P log s) -> Forall call_ok l -> nextBufferRequestId_ s + Z.of_nat (List.length l) < 2 ^ 64 ->
  0 <= extra -> horizon time now ->
  wp False (calls c core_time now l) (fun _ => served extra delivered now s (Z.of_nat (List.length l))) log s.
Proof.
  induction l as [|k l IH]; intros extra delivered time log s (Q & P & I) Hk Hn Hx Hh; cbn [calls].
  { apply wp_ret. destruct Hh as [Ht _]. split_and!; [do 2 eexists; by eapply inv_time|done|cbn; lia]. }
  apply Forall_cons in Hk as [Hk Hl]. cbn [List.length] in Hn. apply wp_bind. eapply wp_mono; [eapply call_spec; try done; lia|].
  intros [] log1 s1 (G1 & G2 & G3). eapply wp_mono; [apply (IH extra delivered now); try done; [lia|]|].
  { destruct Hh as (H1 & H2 & H3). split_and!; [done|done|done]. }
  intros [] log2 s2 (J1 & J2 & J3). split_and!; [done|by intros; apply J2, G2|cbn [List.length]; lia].
Qed.

(** *** Completed transfers *)

Definition taken (id : Z) (r : BufferRequest D) (s : t T D) : t T D :=
  (give_back r s) <| bufferRequests_ := delete id (bufferRequests_ (give_back r s)) |>.
Definition port (r : BufferRequest D) : Z := if dedicatedOutput r then 0 else 1.

Lemma removed (P : list Entry) j x f : P !! j = Some x -> tally f P = (if f (snd x) then 1 else 0) + tally f (delete j P).
Proof. intros Hj. rewrite (delete_Permutation _ _ _ Hj) at 1. change (x :: delete j P) with ([x] ++ delete j P). by rewrite tally_app, tally_one. Qed.

Lemma give_back_spec delivered time Q P log s j id r :
  inv 0 [] delivered time Q P log s -> P !! j = Some (id, r) ->
  let s' := give_back r s in
  nearArrayOutputInFlight_ s' = tally dedicatedOutput (delete j P) /\
  outputReadInFlight_ s' = tally outputRead (delete j P) /\
  Z.of_nat (List.length (outputReadBankInFlight_ s')) = arrayOutputReadBanks_ c /\
  (forall b, 0 <= b < arrayOutputReadBanks_ c -> (outputReadBankInFlight_ s').[b] = tally (on_bank b) (delete j P)) /\
  contents s' = contents s /\ attentionClusterBufferIntervals_ s' = attentionClusterBufferIntervals_ s /\
  arrayBufferInFlight_ s' = arrayBufferInFlight_ s /\ nextBufferRequestId_ s' = nextBufferRequestId_ s /\
  bufferQueue_ s' = bufferQueue_ s /\ bufferRequests_ s' = bufferRequests_ s.
Proof.
  intros [] Hj. cbv zeta. destruct i_near0 as [A3 A4], i_reads0 as [A5 A6], i_banks0 as [A7 A8].
  assert (req_ok r) as [Hr _] by (rewrite Forall_app in i_ok0; apply (Forall_lookup_1 _ _ _ _ (proj2 i_ok0) Hj)).
  pose proof (removed P j _ dedicatedOutput Hj) as R1. pose proof (removed P j _ outputRead Hj) as R2. cbn [snd] in R1, R2.
  pose proof (tally_nonneg dedicatedOutput (delete j P)). pose proof (tally_nonneg outputRead (delete j P)).
  assert (forall b, tally (on_bank b) P = (if on_bank b r then 1 else 0) + tally (on_bank b) (delete j P)) as R3 by (intros b; exact (removed P j _ (on_bank b) Hj)).
  unfold give_back. destruct (dedicatedOutput r) eqn:Ed.
  - assert (outputRead r = false) as Eo by (destruct (outputRead r); [by destruct (Hr eq_refl)|done]).
    rewrite Eo in R2. rewrite (proj2 (Z.ltb_lt _ _)) by lia. cbn. split_and!; try done; [lia|lia|].
    intros b Hb. rewrite (proj1 (A8 b Hb)), R3. unfold on_bank at 1. by rewrite Eo.
  - destruct (outputRead r) eqn:Eo.
    + rewrite (proj2 (Z.ltb_lt 0 (outputReadInFlight_ s))) by lia. cbn. destruct (Hr eq_refl) as [_ Hb].
      assert (on_bank (outputBank r) r = true) as Eb by (unfold on_bank; by rewrite Eo, Z.eqb_refl).
      pose proof (proj1 (A8 _ Hb)) as A9. rewrite R3, Eb in A9. pose proof (tally_nonneg (on_bank (outputBank r)) (delete j P)).
      unfold elements. rewrite (proj2 (Z.ltb_lt (outputBank r) _)) by lia. rewrite (proj2 (Z.ltb_lt 0 _)) by lia. cbn. split_and!; try done; [lia|lia|by rewrite length_insert|].
      intros b Hb'. rewrite bank_set by lia. destruct (Z.eqb_spec b (outputBank r)) as [->|Hne]; [lia|].
      rewrite (proj1 (A8 b Hb')), R3. unfold on_bank at 1. rewrite Eo, (proj2 (Z.eqb_neq (outputBank r) b)) by lia. done.
    + split_and!; try done; [lia|lia|]. intros b Hb. rewrite (proj1 (A8 b Hb)), R3. unfold on_bank at 1. by rewrite Eo.
Qed.

Lemma finish_inv delivered time Q P log log' s s' j id r :
  inv 0 [] delivered time Q P log s -> P !! j = Some (id, r) -> same_buffer (taken id r s) s' ->
  asked log' = asked log -> started log' = started log -> answered log' = answered log ++ tags (reply r) ->
  inv (port r) [] (id :: delivered) time Q (delete j P) log' s'.
Proof.
  intros I Hj (E1 & E2 & E3 & E4 & E5 & E6 & E7 & E8) L1 L2 L3.
  destruct (give_back_spec _ _ _ _ _ _ _ _ _ I Hj) as (G1 & G2 & G3 & G4 & _ & G6 & G7 & G8 & G9 & G10). unfold taken in *. cbn in *.
  destruct I. assert (Q ++ P ≡ₚ (id, r) :: Q ++ delete j P) as E by (rewrite (delete_Permutation _ _ _ Hj) at 1; solve_Permutation).
  assert (NoDup (id :: map fst (Q ++ delete j P))) as N by (change (NoDup (map fst ((id, r) :: Q ++ delete j P))); by rewrite <- E).
  apply NoDup_cons in N as [N1 N2].
  constructor; rewrite ?E1, ?E2, ?E3, ?E4, ?E5, ?E6, ?E7, ?E8, ?G6, ?G7, ?G8, ?G9, ?G10; try done.
  - rewrite i_requests0. rewrite (list_to_map_proper _ _ i_nodup0 E). cbn. apply delete_insert_id. by apply not_elem_of_list_to_map_1.
  - split; [apply i_ids0|]. destruct i_ids0 as [_ F]. rewrite E in F. by apply Forall_cons in F as [_ F].
  - rewrite E in i_ok0. by apply Forall_cons in i_ok0 as [_ F].
  - rewrite (removed P j _ on_port Hj) in i_ports0. cbn [snd] in i_ports0. unfold on_port at 1 in i_ports0. unfold port.
    destruct (dedicatedOutput r); cbn in i_ports0; lia.
  - rewrite (removed P j _ dedicatedOutput Hj) in i_near0. cbn [snd] in i_near0. destruct (dedicatedOutput r); lia.
  - rewrite (removed P j _ outputRead Hj) in i_reads0. cbn [snd] in i_reads0. destruct (outputRead r); lia.
  - split; [done|]. intros b Hb. split; [by apply G4|]. destruct i_banks0 as [_ B]. destruct (B b Hb) as [_ B2].
    rewrite (removed P j _ (on_bank b) Hj) in B2. destruct (on_bank b (snd (id, r))); lia.
  - rewrite L2, i_events0. rewrite (delete_Permutation _ _ _ Hj) at 1. cbn. solve_Permutation.
  - rewrite L1, L3, i_books0, E. unfold open_tags. cbn. solve_Permutation.
Qed.

Lemma transfer_same k s : same_buffer s (transfer c k s).
Proof. destruct k; by unfold same_buffer; split_and!. Qed.
Lemma answer_log k tg s : answered [answer k tg s] = [tg] /\ asked [answer k tg s] = [] /\ started [answer k tg s] = [].
Proof. destruct k; cbn [answer]; try done. by destruct (forallb _ _). Qed.

Lemma free_inv r delivered time Q P log s :
  inv (port r) [] delivered time Q P log s -> inv 0 [] delivered time Q P log (free_port r s).
Proof.
  intros []. pose proof (tally_nonneg on_port P). unfold free_port, port in *. destruct (dedicatedOutput r); cbn [negb andb]; [by constructor|].
  rewrite (proj2 (Z.ltb_lt _ _)) by lia. constructor; try done. cbn. lia.
Qed.
Lemma free_rest r s : contents (free_port r s) = contents s /\ nextBufferRequestId_ (free_port r s) = nextBufferRequestId_ s.
Proof. unfold free_port. by destruct (_ && _). Qed.

Lemma finish_spec now id reaction delivered time Q P log s j r :
  inv 0 [] delivered time Q P log s -> P !! j = Some (id, r) -> Forall call_ok reaction ->
  nextBufferRequestId_ s + Z.of_nat (List.length reaction) < 2 ^ 64 -> horizon time now ->
  wp False (handleBufferEvent c core_time now id reaction)
    (fun _ log' s' => (exists Q' P', inv 0 [] (id :: delivered) now Q' P' log' s') /\ settled s') log s.
Proof.
  intros I Hj Hk Hn Hh. unfold handleBufferEvent. wp_state.
  assert (bufferRequests_ s !! id = Some r) as ->.
  { rewrite (i_requests _ _ _ _ _ _ _ _ I). apply elem_of_list_to_map; [apply I|]. apply elem_of_app. right. by eapply list_elem_of_lookup_2. }
  wp_fold. apply wp_bind, wp_update, wp_bind, wp_update, wp_bind, wp_update. fold (taken id r s).
  set (s3 := transfer c (completion r) (taken id r s)). assert (same_buffer (taken id r s) s3) as S by apply transfer_same.
  assert (nextBufferRequestId_ s3 = nextBufferRequestId_ s) as E3.
  { destruct S as (_ & _ & -> & _). by destruct (give_back_spec _ _ _ _ _ _ _ _ _ I Hj) as (_ & _ & _ & _ & _ & _ & _ & G & _). }
  clearbody s3. apply wp_bind.
  assert (forall log' s', (exists Q' P', inv (port r) [] (id :: delivered) now Q' P' log' s') ->
    wp False (update (free_port r) ;; tryIssueBufferTransfers c core_time now)
      (fun _ log' s' => (exists Q' P', inv 0 [] (id :: delivered) now Q' P' log' s') /\ settled s') log' s') as K.
  { intros log' s' (Q' & P' & I'). apply wp_bind, wp_update. eapply wp_mono.
    - eapply transfers_issue_spec; [by apply free_inv|done|]. destruct Hh as (H1 & H2 & H3). split_and!; done.
    - intros [] log2 s2 [((Q2 & P2 & I2 & _) & _) S2]. split; [by do 2 eexists|done]. }
  destruct (callback (reply r)) eqn:Ec.
  - apply wp_bind. wp_state. wp_fold. apply wp_send. destruct (answer_log (completion r) (tag (reply r)) s3) as (A1 & A2 & A3).
    eapply wp_mono; [eapply (calls_spec now reaction (port r) (id :: delivered) time)|].
    + do 2 eexists. eapply finish_inv; [exact I|exact Hj|exact S|..]; rewrite ?asked_app, ?answered_app, ?started_app, ?A1, ?A2, ?A3, ?app_nil_r; try done.
      unfold tags. by rewrite Ec.
    + done.
    + by rewrite E3.
    + unfold port. by destruct (dedicatedOutput r).
    + done.
    + intros [] log' s' (G & _). by apply K.
  - apply wp_ret, K. destruct Hh as [Ht _]. do 2 eexists. eapply inv_time; [|exact Ht].
    eapply finish_inv; [exact I|exact Hj|exact S|done|done|]. unfold tags. by rewrite Ec, app_nil_r.
Qed.

Lemma computed_same array bank s : same_buffer s (computeBank c array bank s).
Proof. unfold computeBank. destruct (negb _); by unfold same_buffer; split_and!. Qed.

Lemma launched_spec now array bank reaction delivered time Q P log s :
  inv 0 [] delivered time Q P log s -> settled s -> Forall call_ok reaction ->
  nextBufferRequestId_ s + Z.of_nat (List.length reaction) < 2 ^ 64 -> horizon time now ->
  wp False (handleSelfEvent c core_time now array bank reaction)
    (fun _ log' s' => (exists Q' P', inv 0 [] delivered now Q' P' log' s') /\ settled s') log s.
Proof.
  intros I Hs Hk Hn Hh. unfold handleSelfEvent. apply wp_bind, wp_update. set (s1 := if functionalCompute c then _ else _).
  assert (same_buffer s s1) as S.
  { unfold s1. destruct (functionalCompute c); [apply computed_same|]. destruct ((outputModes s).[array]); by unfold same_buffer; split_and!. }
  clearbody s1. apply wp_bind, wp_send. eapply wp_mono; [eapply (calls_spec now reaction 0 delivered time)|].
  - exists Q, P. eapply same_inv_buffer; [exact S| |exact I]. unfold silent. rewrite asked_app, answered_app, started_app. cbn. by rewrite !app_nil_r.
  - done.
  - destruct S as (_ & _ & -> & _). done.
  - done.
  - done.
  - intros [] log' s' (G1 & G2 & _). split; [done|]. apply G2. by eapply same_settled.
Qed.

(** With nothing on its way, nothing waits. *)
Lemma idle_empty delivered time Q log s : inv 0 [] delivered time Q [] log s -> settled s -> Q = [].
Proof.
  intros [] Hs. destruct cfg, i_ports0 as [A1 A2], i_reads0 as [A3 A4], i_banks0 as [A5 A6]. change (tally on_port []) with 0 in A1.
  change (tally outputRead []) with 0 in A3. destruct Hs as [Hs|Hs]; [lia|]. destruct Q as [|[id r] Q]; [done|].
  specialize (Hs id). rewrite i_queue0 in Hs. specialize (Hs (list_elem_of_here _ _)). unfold issuable in Hs.
  assert (bufferRequests_ s !! id = Some r) as Hr by (rewrite i_requests0; cbn; by rewrite lookup_insert_eq). rewrite Hr in Hs.
  destruct (outputRead r) eqn:Eo; [|done]. apply Forall_cons in i_ok0 as [[Ho _] _]. destruct (Ho Eo) as [_ Hb]. cbn [snd] in Hb.
  destruct (A6 _ Hb) as [A7 _]. change (tally _ []) with 0 in A7. rewrite A3, A5, A7 in Hs.
  rewrite (proj2 (Z.ltb_lt _ _)) in Hs by lia. rewrite (proj2 (Z.ltb_lt _ _)) in Hs by lia. done.
Qed.

(** ** Histories *)

(** The array, the events it has sent to itself, and what has happened. *)
Record World := mkWorld {
  arr : t T D;
  buffer : list Z;
  launches : list (Z * Z);
  log : list (effect D);
  time : Z
}.

Inductive Input :=
| FromClient (now : Z) (k : Call D)
| Transferred (now : Z) (i : nat) (reaction : list (Call D))
| Launched (now : Z) (i : nat) (reaction : list (Call D)).

Definition launched (log : list (effect D)) : list (Z * Z) :=
  concat (map (fun e => match e with ComputeEvent _ a b => [(a, b)] | _ => [] end) log).
Definition after (r : option (unit * (list (effect D) * t T D))) (waiting : list Z) (running : list (Z * Z)) (now : Z) (w : World) : option World :=
  match r with
  | None => None
  | Some (_, (out, s)) => Some (mkWorld s (waiting ++ started out) (running ++ launched out) (log w ++ out) now)
  end.
Definition react (w : World) (i : Input) : option World :=
  match i with
  | FromClient now k => after (call c core_time now k (arr w)) (buffer w) (launches w) now w
  | Transferred now i reaction =>
      match buffer w !! i with
      | None => Some w
      | Some id => after (handleBufferEvent c core_time now id reaction (arr w)) (delete i (buffer w)) (launches w) now w
      end
  | Launched now i reaction =>
      match launches w !! i with
      | None => Some w
      | Some (a, b) => after (handleSelfEvent c core_time now a b reaction (arr w)) (buffer w) (delete i (launches w)) now w
      end
  end.
Fixpoint run (w : World) (l : list Input) : option World :=
  match l with [] => Some w | i :: l => match react w i with None => None | Some w' => run w' l end end.

(** What the surroundings guarantee: time does not go back, transfers are not too
    large, and the request counter does not wrap. *)
Definition fits (w : World) (i : Input) : Prop :=
  let '(now, ks) := match i with FromClient now k => (now, [k]) | Transferred now _ l | Launched now _ l => (now, l) end in
  horizon (time w) now /\ Forall call_ok ks /\ nextBufferRequestId_ (arr w) + Z.of_nat (List.length ks) < 2 ^ 64.
Fixpoint fitting (w : World) (l : list Input) : Prop :=
  match l with [] => True | i :: l => fits w i /\ forall w', react w i = Some w' -> fitting w' l end.
Definition begin : World := mkWorld (init c) [] [] [] 0.

Definition good (w : World) : Prop :=
  exists delivered Q P, inv 0 [] delivered (time w) Q P (log w) (arr w) /\ settled (arr w) /\ buffer w ≡ₚ map fst P.

Lemma array_after_good (m : Effects.M (t T D) (effect D) unit) delivered delivered' waiting running now w :
  started (log w) ≡ₚ delivered ++ buffer w -> delivered ++ buffer w ≡ₚ delivered' ++ waiting ->
  wp False m (fun _ log' s' => (exists Q P, inv 0 [] delivered' now Q P log' s') /\ settled s') (log w) (arr w) ->
  exists w', after (m (arr w)) waiting running now w = Some w' /\ good w'.
Proof.
  intros Hb Hd. unfold wp, after. destruct (m (arr w)) as [[[] [out s']]|]; [|done]. intros [(Q & P & I) S].
  eexists. split; [done|]. exists delivered', Q, P. cbn. split; [done|]. split; [done|].
  pose proof (i_events _ _ _ _ _ _ _ _ I) as E. rewrite started_app, Hb, Hd in E. rewrite <- app_assoc in E. by apply Permutation_app_inv_l in E.
Qed.

Lemma served_wp now delivered s n log' s' : settled s -> served 0 delivered now s n log' s' ->
  (exists Q P, inv 0 [] delivered now Q P log' s') /\ settled s'.
Proof. intros S (G1 & G2 & _). auto. Qed.

Lemma input_step w i : good w -> fits w i -> exists w', react w i = Some w' /\ good w'.
Proof.
  intros G Hf. destruct (id G) as (delivered & Q & P & I & S & B).
  assert (started (log w) ≡ₚ delivered ++ buffer w) as Hb by (rewrite B; apply I).
  destruct i as [now k|now i l|now i l]; cbn [react]; destruct Hf as (Hh & Hk & Hn).
  - eapply array_after_good; [exact Hb|done|]. apply Forall_cons in Hk as [Hk _]. eapply wp_mono; [eapply call_spec; [exact I|exact Hk|cbn in Hn; lia|lia|exact Hh]|].
    intros [] log' s'. by apply served_wp.
  - destruct (buffer w !! i) as [id|] eqn:E; [|by exists w].
    assert (id ∈ map fst P) as Hid by (rewrite <- B; by eapply list_elem_of_lookup_2).
    apply list_elem_of_fmap in Hid as ([id' r] & Eid & Hp). cbn in Eid. subst id'. apply list_elem_of_lookup in Hp as [j Hj].
    eapply (array_after_good _ delivered (id :: delivered)); [exact Hb| |by eapply finish_spec].
    rewrite (delete_Permutation _ _ _ E) at 1. cbn. solve_Permutation.
  - destruct (launches w !! i) as [[a b]|] eqn:E; [|by exists w]. eapply array_after_good; [exact Hb|done|by eapply launched_spec].
Qed.

Lemma run_settles l : forall w, good w -> fitting w l -> exists w', run w l = Some w' /\ good w'.
Proof.
  induction l as [|i l IH]; intros w G Hf; [by eexists|]. destruct Hf as [Hf Hl].
  destruct (input_step _ _ G Hf) as (w1 & E & G1). cbn [run]. rewrite E. auto.
Qed.

Lemma array_begin_good : good begin.
Proof.
  exists [], [], []. destruct cfg. split; [|split; [right; by intros id ?%elem_of_nil|done]]. 
  constructor; try done; cbn; try (change (tally _ []) with 0; lia); [constructor|].
  split; [rewrite length_replicate; lia|]. intros b Hb. rewrite lookup_total_replicate_2 by lia. done.
Qed.
Lemma history l : fitting begin l -> exists w, run begin l = Some w /\ good w.
Proof. apply run_settles, array_begin_good. Qed.

(** The transfers on their way. *)
Definition in_flight (w : World) : list Entry :=
  omap (fun id => match bufferRequests_ (arr w) !! id with Some r => Some (id, r) | None => None end) (buffer w).

Lemma in_flight_spec delivered time Q P l w :
  inv 0 [] delivered time Q P l (arr w) -> buffer w ≡ₚ map fst P -> in_flight w ≡ₚ P.
Proof.
  intros I B. unfold in_flight. rewrite B. rewrite (i_requests _ _ _ _ _ _ _ _ I).
  assert (forall x, x ∈ P -> (list_to_map (Q ++ P) : gmap Z (BufferRequest D)) !! fst x = Some (snd x)) as L.
  { intros [id r] Hx. apply elem_of_list_to_map; [apply I|]. apply elem_of_app. by right. }
  clear B I. revert L. generalize (list_to_map (Q ++ P) : gmap Z (BufferRequest D)). intros m. induction P as [|[id r] P IH]; intros L; [done|].
  assert (m !! id = Some r) as Hr by (apply (L (id, r)); constructor). cbn. rewrite Hr. cbn. f_equiv. apply IH. intros x Hx. apply L. by constructor.
Qed.

(** C12. Every transfer the array has accepted is called back exactly once: in every
    history of calls, completed transfers and launches, with any calls from inside
    the callbacks, the tags accepted are those called back and those of the
    transfers still open, and an open transfer is either queued or has exactly one
    event on its way. *)
Theorem array_transfers_once l : fitting begin l ->
  exists w, run begin l = Some w /\
    asked (log w) ≡ₚ open_tags (map_to_list (bufferRequests_ (arr w))) ++ answered (log w) /\
    map fst (map_to_list (bufferRequests_ (arr w))) ≡ₚ bufferQueue_ (arr w) ++ buffer w.
Proof.
  intros Hf. destruct (history l Hf) as (w & E & delivered & Q & P & I & _ & B). exists w. split; [done|].
  assert (map_to_list (bufferRequests_ (arr w)) ≡ₚ Q ++ P) as Em by (rewrite (i_requests _ _ _ _ _ _ _ _ I); apply map_to_list_to_map, I).
  split.
  - rewrite Em. pose proof (i_books _ _ _ _ _ _ _ _ I) as K. by rewrite app_nil_r in K.
  - rewrite B, (i_queue _ _ _ _ _ _ _ _ I), <- map_app. by rewrite Em.
Qed.

(** C31. The array keeps its limits: the transfers on their way use no more than the
    ports, output reads no more than the credits and one per bank, grouped drains
    no more than their credits, and the counters of the array are these numbers. *)
Theorem array_limits l : fitting begin l ->
  exists w, run begin l = Some w /\
    let s := arr w in
    (arrayBufferInFlight_ s = tally on_port (in_flight w) /\ arrayBufferInFlight_ s <= arrayBufferPorts_ c) /\
    (outputReadInFlight_ s = tally outputRead (in_flight w) /\ outputReadInFlight_ s <= arrayOutputReadCredits_ c) /\
    (nearArrayOutputInFlight_ s = tally dedicatedOutput (in_flight w) /\ nearArrayOutputInFlight_ s <= attentionNearArrayOutputCredits_ c) /\
    forall b, 0 <= b < arrayOutputReadBanks_ c -> tally (on_bank b) (in_flight w) <= 1.
Proof.
  intros Hf. destruct (history l Hf) as (w & E & delivered & Q & P & I & _ & B). exists w. split; [done|]. cbv zeta.
  pose proof (in_flight_spec _ _ _ _ _ _ I B) as F. rewrite !F. destruct I as [? ? ? ? ? ? [G1 G1'] G2 G3 [_ G4] ? ? ?].
  split_and!; try lia. intros b Hb. rewrite F. by apply G4.
Qed.

(** C13. The array does not stall: while no event of a transfer is on its way,
    nothing waits in the queue, so that all accepted transfers have been called
    back; and a port stays free only while the queue holds nothing but output
    reads without credit or bank. *)
Theorem array_never_stalls l : fitting begin l ->
  exists w, run begin l = Some w /\
    (buffer w = [] -> bufferQueue_ (arr w) = [] /\ bufferRequests_ (arr w) = ∅ /\ asked (log w) ≡ₚ answered (log w)) /\
    (arrayBufferInFlight_ (arr w) < arrayBufferPorts_ c -> forall id, id ∈ bufferQueue_ (arr w) -> issuable c (arr w) id = false).
Proof.
  intros Hf. destruct (history l Hf) as (w & E & delivered & Q & P & I & S & B). exists w. split; [done|]. split.
  - intros Hb. rewrite Hb in B. apply Permutation_nil_l in B. symmetry in B. apply map_eq_nil in B. subst P. pose proof (idle_empty _ _ _ _ _ I S) as ->.
    destruct I. rewrite app_nil_r in i_books0. done.
  - intros Hp. destruct S as [S|S]; [lia|done].
Qed.

End Transfers.

(** ** An example *)

(** Two arrays of two by two 64-bit integers with two banks; one port, and a core
    that is a thousand times as fast. *)
Module ArrayExample.
Import ComputeArray.

Definition config : Config :=
  mkConfig 4 (double_of_Z 1) 1 2 2 2 2 1 8 1 4 1 1 8 1 2 8 1 1 8 8 true true 1.
Definition core_time (x : Z) : Z := 1000 * x.
Abbreviation longest := (1000 * 2 ^ 41).

Lemma config_fits : config_ok config (2 ^ 10).
Proof. constructor; try (cbn; lia). repeat (constructor; [cbn; lia|]). constructor. Qed.
Lemma core_time_fits x : 0 < x <= 2 ^ 41 -> 0 < core_time x <= longest.
Proof. unfold core_time. lia. Qed.

Definition values (l : list Z) : list double := map double_of_Z l.
(** A matrix and, at once, an input for the first array; the launch from the
    callback of the input; the result is read when the tile is told. *)
Definition inputs : list (@Input double) :=
  [FromClient 0 (ProgramMatrix 0 0 (values [1; 2; 3; 4]) 8 (mkReply 7 true));
   FromClient 0 (ProgramInput 0 0 (values [5; 6]) 8 (mkReply 8 true));
   Transferred 5000 0 [ProgramMatrix 1 1 (values [1; 0; 0; 1]) 8 (mkReply 9 false)];
   Transferred 8000 0 [Begin 0 0; ReadOutput 5 8 (mkReply 10 true)];
   Launched 12000 0 [ReadOutput 0 8 (mkReply 11 true)];
   Transferred 13000 0 []; Transferred 16000 0 []].
Abbreviation start := (@begin Z double int64_element config).
Abbreviation runs := (@run Z double int64_element config core_time).
Abbreviation fits_all := (@fitting Z double int64_element config core_time (2 ^ 10) longest).
Definition final : World := Eval vm_compute in default start (runs start inputs).

Lemma inputs_run : runs start inputs = Some final.
Proof. vm_compute. reflexivity. Qed.
Lemma fitting_next w i w1 l :
  fits config (2 ^ 10) longest w i -> @react Z double int64_element config core_time w i = Some w1 -> fits_all w1 l -> fits_all w (i :: l).
Proof. intros F E L. split; [exact F|]. intros w' E'. rewrite E in E'. by injection E' as <-. Qed.
Ltac next := eapply fitting_next;
  [split_and!; [cbv; split_and!; congruence|repeat (constructor; [cbv; split; congruence|]); constructor|cbv; congruence]
  |vm_compute; reflexivity|].
Lemma inputs_fit : fits_all start inputs.
Proof. unfold inputs. do 7 next. exact I. Qed.

Lemma array_transfers_once_witness : answered (log final) = [7; 8; 11] /\ bufferRequests_ (arr final) = ∅ /\
  exists w, runs start inputs = Some w /\ map fst (map_to_list (bufferRequests_ (arr w))) ≡ₚ bufferQueue_ (arr w) ++ buffer w.
Proof.
  split; [reflexivity|]. split; [reflexivity|].
  destruct (array_transfers_once config core_time (2 ^ 10) longest config_fits core_time_fits inputs inputs_fit) as (w & E & _ & P).
  exists w. split; [exact E|exact P].
Defined.

(** While the first operands are on their way. *)
Definition busy : World := Eval vm_compute in default start (runs start (take 2 inputs)).
Lemma busy_runs : runs start (take 2 inputs) = Some busy.
Proof. vm_compute. reflexivity. Qed.
Lemma busy_fit : fits_all start (take 2 inputs).
Proof. unfold inputs. cbn [take]. do 2 next. exact I. Qed.

Lemma array_limits_witness : arrayBufferInFlight_ (arr busy) = 1 /\ exists w, runs start (take 2 inputs) = Some w /\
  arrayBufferInFlight_ (arr w) = tally on_port (in_flight w) /\ arrayBufferInFlight_ (arr w) <= arrayBufferPorts_ config.
Proof.
  split; [reflexivity|].
  destruct (array_limits config core_time (2 ^ 10) longest config_fits core_time_fits _ busy_fit) as (w & E & H & _).
  exists w. split; [exact E|exact H].
Defined.

Lemma array_never_stalls_witness : buffer final = [] /\ exists w, runs start inputs = Some w /\
  (buffer w = [] -> asked (log w) ≡ₚ answered (log w)).
Proof.
  split; [reflexivity|].
  destruct (array_never_stalls config core_time (2 ^ 10) longest config_fits core_time_fits inputs inputs_fit) as (w & E & H & _).
  exists w. split; [exact E|]. intros B. exact (proj2 (proj2 (H B))).
Defined.
End ArrayExample.
