(* ===== verification/ArrayProduct.v ===== *)
(** * Compute arrays: products

    Facts on what the arrays of [ComputeArray] compute.  Programming an array,
    launching it from the callbacks and reading its output delivers the product of
    matrix and input ([array_product_delivered]); on 64-bit integers this is the
    exact product modulo [2^64] ([launch_multiplies]), and a launch with fewer
    columns is the launch on operands padded with zeros ([active_columns_padded]). *)

From S2P Require Import Prelude Telemetry Cluster Float32 Effects ComputeArray ArrayTransfers.
#[local] Open Scope Z_scope.
#[local] Open Scope mach_scope.

Lemma wp_conj {T O A} (m : Effects.M T O A) (P Q : A -> list O -> T -> Prop) log s :
  wp False m P log s -> wp True m Q log s -> wp False m (fun a log' s' => P a log' s' /\ Q a log' s') log s.
Proof. unfold wp. by destruct (m s) as [[a [o s']]|]. Qed.

Section Product.
Import ComputeArray.
Local Open Scope sched_scope.
Context {T D : Type} {inhabited : Inhabited T} {element : Element T D}.
Variable c : Config.
Variable core_time : Z -> Z.
Variable most longest : Z.

(** ** The numbers of vectors *)

Definition shape (s : t T D) :=
  (List.length (inputVectors s), List.length (outputVectors s), List.length (matrixData s),
   List.length (outputModes s), List.length (activeInputColumns s)).
Definition keeps {A} (m : Effects.M (t T D) (effect D) A) : Prop :=
  forall log s, wp True m (fun _ _ s' => shape s' = shape s) log s.

Lemma keeps_ret {A} (a : A) : keeps (ret a).
Proof. intros log s. by apply wp_ret. Qed.
Lemma keeps_send e : keeps (send e).
Proof. intros log s. by apply wp_send. Qed.
Lemma keeps_updated f : (forall s, shape (f s) = shape s) -> keeps (update f).
Proof. intros Hf log s. by apply wp_update. Qed.
Lemma keeps_bind {A B} (m : Effects.M _ _ A) (f : A -> Effects.M _ _ B) : keeps m -> (forall a, keeps (f a)) -> keeps (bind m f).
Proof.
  intros Hm Hf log s. apply wp_bind. eapply wp_mono; [apply Hm|]. intros a log' s' E. eapply wp_mono; [apply Hf|].
  intros b log2 s2 E2. by rewrite E2.
Qed.
Lemma keeps_run {A} (m : Effects.M _ _ A) s a out s' : keeps m -> m s = Some (a, (out, s')) -> shape s' = shape s.
Proof. intros Hm E. specialize (Hm [] s). unfold wp in Hm. by rewrite E in Hm. Qed.

Lemma each_length {A} f ix : forall l : list (list A), List.length (each f ix l) = List.length l.
Proof. induction ix as [|i ix IH]; intros l; cbn; [done|]. by rewrite IH, length_insert. Qed.
Lemma scatter_length n ix : forall vs (l : list (list T)), List.length (scatter n ix vs l) = List.length l.
Proof. induction ix as [|i ix IH]; intros vs l; cbn; [done|]. by rewrite IH, length_insert. Qed.
Lemma transfer_shape k s : shape (transfer c k s) = shape s.
Proof. destruct k; unfold shape; cbn; rewrite ?each_length, ?scatter_length, ?length_insert; done. Qed.

Lemma keeps_record now r : keeps (record_interval c core_time now r).
Proof.
  intros log s. unfold record_interval. wp_state. destruct (_ && _); [|wp_fold; apply keeps_ret].
  destruct (BusyIntervalUnion.add _ _ _) as [[] u]; [|done]. wp_fold. by apply keeps_updated.
Qed.
Lemma keeps_issue fuel now : keeps (issue_loop c core_time fuel now).
Proof.
  induction fuel as [|fuel IH]; cbn [issue_loop]; [apply keeps_ret|]. intros log s. wp_state. destruct (_ || _); [wp_fold; apply keeps_ret|].
  destruct (list_find _ _) as [[i id]|]; wp_fold; [|apply keeps_ret]. apply keeps_bind; [by apply keeps_updated|]. intros _.
  destruct (_ !! id) as [r|]; [|exact IH]. apply keeps_bind; [apply keeps_record|]. intros _. apply keeps_bind.
  { apply keeps_updated. intros s'. unfold start. by destruct (outputRead r). }
  intros _. apply keeps_bind; [apply keeps_send|]. by intros _.
Qed.
Lemma keeps_tryIssue now : keeps (tryIssueBufferTransfers c core_time now).
Proof. intros log s. unfold tryIssueBufferTransfers. wp_state. wp_fold. apply keeps_issue. Qed.
Lemma keeps_enqueue now r : keeps (enqueueModeledBufferTransfer c core_time now r).
Proof.
  intros log s. unfold enqueueModeledBufferTransfer. wp_state. destruct (full c s); wp_fold; [apply keeps_ret|].
  apply keeps_bind; [by apply keeps_updated|]. intros _. apply keeps_bind; [apply keeps_tryIssue|]. intros _. apply keeps_ret.
Qed.
Lemma keeps_near bytes r k cls : keeps (enqueueNearArrayOutputTransfer c bytes r k cls).
Proof.
  intros log s. unfold enqueueNearArrayOutputTransfer. wp_state. destruct (_ || _); wp_fold; [apply keeps_ret|].
  apply keeps_bind; [by apply keeps_updated|]. intros _. apply keeps_bind; [apply keeps_send|]. intros _. apply keeps_ret.
Qed.

Ltac keeps_request f := unfold f; match goal with |- keeps (if ?b then _ else _) => destruct b; [apply keeps_ret|] end;
  first [apply keeps_enqueue | apply keeps_near].
Ltac keeps_read f := intros log s; unfold f; wp_state; wp_fold; destruct (_ || _); [apply keeps_ret|apply keeps_enqueue].
Lemma keeps_requests now k r m : request_call c core_time now k = Some (r, m) -> keeps m.
Proof.
  destruct k; cbn [request_call]; intros E; try discriminate E; injection E as <- <-.
  - keeps_request @programMatrixBankAsync.
  - keeps_request @programMatrixGroupBankAsync.
  - keeps_request @programMatrixGroupClassBankAsync.
  - keeps_request @programMatrixActiveBankAsync.
  - keeps_request @programMatrixGroupActiveBankAsync.
  - keeps_request @programInputBankAsync.
  - keeps_request @programInputGroupBankAsync.
  - keeps_request @programInputScatterBankAsync.
  - keeps_request @programInputActiveBankAsync.
  - keeps_request @programOperandsAsync.
  - keeps_read @readOutputAsync.
  - keeps_read @readOutputClassAsync.
  - unfold readOutputGroupClassAsync. destruct (negb _); [apply keeps_ret|]. destruct (bool_decide _); [apply keeps_enqueue|apply keeps_near].
  - keeps_read @readOutputBytesAsync.
  - keeps_read @writeOutputAsync.
  - keeps_request @writeOutputGroupClassAsync.
Qed.
Lemma keeps_call now k : keeps (call c core_time now k).
Proof.
  unfold call. destruct (request_call c core_time now k) as [[r m]|] eqn:E.
  { apply keeps_bind; [by eapply keeps_requests|]. intros ok. apply keeps_send. }
  destruct k; cbn [plain_call]; try apply keeps_ret;
    try (apply keeps_updated; intros s; unfold shape; cbn; rewrite ?length_insert; done).
  - unfold beginComputationBank. destruct (negb _); [apply keeps_ret|]. apply keeps_bind; [|intros _; apply keeps_send].
    apply keeps_updated. intros s. unfold shape. cbn. by rewrite length_insert.
  - unfold beginComputationActiveBank. destruct (_ || _); [apply keeps_ret|]. apply keeps_bind; [|intros _; apply keeps_send].
    apply keeps_updated. intros s. unfold shape. cbn. by rewrite length_insert.
  - apply keeps_updated. intros s. unfold configureOutputMode, clearOutputVector, shape.
    repeat match goal with |- context [if ?b then _ else _] => destruct b end; cbn; by rewrite ?length_insert.
Qed.
Lemma keeps_calls now l : keeps (calls c core_time now l).
Proof. induction l as [|k l IH]; cbn [calls]; [apply keeps_ret|]. apply keeps_bind; [apply keeps_call|]. by intros _. Qed.

Lemma keeps_finish now id l : keeps (handleBufferEvent c core_time now id l).
Proof.
  intros log s. unfold handleBufferEvent. wp_state. destruct (_ !! id) as [r|]; wp_fold; [|apply keeps_tryIssue].
  apply keeps_bind. { apply keeps_updated. intros s'. unfold give_back. by repeat case_match. }
  intros _. apply keeps_bind; [by apply keeps_updated|]. intros _. apply keeps_bind; [apply keeps_updated; intros s'; apply transfer_shape|].
  intros _. apply keeps_bind.
  { destruct (callback _); [|apply keeps_ret]. apply keeps_bind; [|intros _; apply keeps_calls]. intros log' s'. wp_state. wp_fold. apply keeps_send. }
  intros _. apply keeps_bind; [|intros _; apply keeps_tryIssue]. apply keeps_updated. intros s'. unfold free_port. by destruct (_ && _).
Qed.
Lemma keeps_launch now a b l : keeps (handleSelfEvent c core_time now a b l).
Proof.
  unfold handleSelfEvent. apply keeps_bind.
  { apply keeps_updated. intros s. unfold computeBank, clearOutputVector, shape.
    repeat match goal with |- context [if ?b then _ else _] => destruct b end; try (destruct ((outputModes s).[a]));
      cbn; by rewrite ?length_insert. }
  intros _. apply keeps_bind; [apply keeps_send|]. intros _. apply keeps_calls.
Qed.

Lemma react_shape w i w' : react c core_time w i = Some w' -> shape (arr w') = shape (arr w).
Proof.
  assert (forall (m : Effects.M _ _ unit) waiting running now, keeps m -> after (m (arr w)) waiting running now w = Some w' ->
    shape (arr w') = shape (arr w)) as K.
  { intros m waiting running now Hm. unfold after. destruct (m (arr w)) as [[[] [out s]]|] eqn:E; [|done]. intros [= <-]. cbn.
    by eapply keeps_run. }
  destruct i as [now k|now i l|now i l]; cbn [react].
  - apply K, keeps_call.
  - destruct (_ !! i) as [id|]; [apply K, keeps_finish|by intros [= <-]].
  - destruct (_ !! i) as [[a b]|]; [apply K, keeps_launch|by intros [= <-]].
Qed.
Lemma run_shape l : forall w w', run c core_time w l = Some w' -> shape (arr w') = shape (arr w).
Proof.
  induction l as [|i l IH]; intros w w' E; cbn in E; [by injection E as <-|]. destruct (react c core_time w i) as [w1|] eqn:E1; [|done].
  rewrite (IH _ _ E). by apply react_shape in E1.
Qed.

(** ** A transfer at a time *)

Hypothesis cfg : config_ok c most.
Hypothesis core_time_ok : forall x, 0 < x <= 2 ^ 41 -> 0 < core_time x <= longest.

(** The callbacks that carry values. *)
Definition replies (log : list (effect D)) : list (bool * Z * list D) :=
  concat (map (fun e => match e with Callback ok tag l => [(ok, tag, l)] | _ => [] end) log).
Lemma replies_app l l' : replies (l ++ l') = replies l ++ replies l'.
Proof. unfold replies. by rewrite map_app, concat_app. Qed.
Lemma launched_app l l' : @launched D (l ++ l') = launched l ++ launched l'.
Proof. unfold launched. by rewrite map_app, concat_app. Qed.
Definition seen (log : list (effect D)) := (launched log, replies log).

Lemma seen_send log e : launched [e] = [] -> replies [e] = [] -> seen (log ++ [e]) = seen log.
Proof. intros E1 E2. unfold seen. by rewrite launched_app, replies_app, E1, E2, !app_nil_r. Qed.

(** Starting transfers shows nothing to the client. *)
Lemma issue_quiet fuel now : forall log s,
  wp True (issue_loop c core_time fuel now) (fun _ log' (s' : t T D) => seen log' = seen log /\ contents s' = contents s) log s.
Proof.
  induction fuel as [|fuel IH]; intros log s; cbn [issue_loop]; [by apply wp_ret|]. wp_state. destruct (_ || _); [wp_fold; by apply wp_ret|].
  destruct (list_find _ _) as [[i id]|]; wp_fold; [|by apply wp_ret]. apply wp_bind, wp_update.
  destruct (_ !! id) as [r|]; [|eapply wp_mono; [apply IH|]; by intros]. apply wp_bind.
  apply (wp_mono _ _ (fun _ log' (s' : t T D) => log' = log /\ contents s' = contents s)).
  { unfold record_interval. wp_state. destruct (_ && _); [|wp_fold; by apply wp_ret].
    destruct (BusyIntervalUnion.add _ _ _) as [[] u]; [|done]. wp_fold. by apply wp_update. }
  intros [] log' s' [-> E]. apply wp_bind, wp_update, wp_bind, wp_send. eapply wp_mono; [apply IH|]. intros [] log2 s2 [E1 E2]. split.
  - rewrite E1. by apply seen_send.
  - rewrite E2, <- E. unfold start. by destruct (outputRead r).
Qed.
Lemma tryIssue_quiet now log s :
  wp True (tryIssueBufferTransfers c core_time now) (fun _ log' (s' : t T D) => seen log' = seen log /\ contents s' = contents s) log s.
Proof. unfold tryIssueBufferTransfers. wp_state. wp_fold. apply issue_quiet. Qed.
Lemma enqueue_quiet now r log s :
  wp True (enqueueModeledBufferTransfer c core_time now r) (fun _ log' (s' : t T D) => seen log' = seen log /\ contents s' = contents s) log s.
Proof.
  unfold enqueueModeledBufferTransfer. wp_state. destruct (full c s); wp_fold; [by apply wp_ret|].
  apply wp_bind, wp_update, wp_bind. eapply wp_mono; [apply tryIssue_quiet|]. intros [] log' s' E. by apply wp_ret.
Qed.

(** The transfers [E] are queued or on their way, the arrays hold what [X] holds,
    and the client has seen the launches and callbacks [V]. *)
Definition standing (extra : Z) (delivered : list Z) (time : Z) (E : list (BufferRequest D)) (X : t T D)
    (V : list (Z * Z) * list (bool * Z * list D)) (n : Z) (log : list (effect D)) (s : t T D) : Prop :=
  (exists Q P, inv c core_time longest extra [] delivered time Q P log s /\ map snd (Q ++ P) ≡ₚ E) /\
  contents s = contents X /\ seen log = V /\ nextBufferRequestId_ s <= n.

Lemma calls_none now extra delivered time E X V n log s :
  standing extra delivered time E X V n log s -> time <= now ->
  wp False (calls c core_time now []) (fun _ => standing extra delivered now E X V n) log s.
Proof.
  intros ((Q & P & I & HE) & H) Ht. apply wp_ret. split; [|done]. exists Q, P. split; [|done]. by eapply inv_time.
Qed.

(** A request on an array without transfers is accepted. *)
Lemma calls_request now k r m b extra delivered time X V n log s :
  standing extra delivered time [] X V n log s -> request_call c core_time now k = Some (r, m) ->
  m s = enqueueModeledBufferTransfer c core_time now b s -> reply b = r -> req_ok c core_time longest b -> dedicatedOutput b = false ->
  n + 1 < 2 ^ 64 -> 0 <= extra -> horizon longest time now ->
  wp False (calls c core_time now [k])
    (fun _ log' s' => standing extra delivered now [b] X V (n + 1) log' s' /\ (settled c s -> settled c s')) log s.
Proof.
  intros ((Q & P & I & HE) & HX & HV & Hid) Ek Em Hr Hb Hd Hn Hx Hh. apply Permutation_nil_r, map_eq_nil in HE. apply app_eq_nil in HE as [-> ->].
  assert (full c s = false) as Hf.
  { unfold full. rewrite (i_requests _ _ _ _ _ _ _ _ _ _ _ I). change (list_to_map ([] ++ [])) with (∅ : gmap Z (BufferRequest D)). rewrite map_size_empty. destruct cfg. apply Z.leb_gt. lia. }
  cbn [calls]. apply wp_bind. unfold call. rewrite Ek. apply wp_bind.
  assert (wp False (enqueueModeledBufferTransfer c core_time now b) (fun ok log' s' =>
    (requested c core_time longest extra [] delivered now ([] ++ []) b s ok log' s' /\ ok = negb (full c s)) /\
    seen log' = seen log /\ contents s' = contents s) log s) as K.
  { apply wp_conj; [eapply enqueue_spec; try done; lia|apply enqueue_quiet]. }
  unfold wp in K |- *. rewrite Em. destruct (enqueueModeledBufferTransfer c core_time now b s) as [[ok [out s']]|]; [|done].
  rewrite Hf in K. destruct K as ((K & ->) & KV & KX). destruct K as ((Q & P & I' & HE) & Hs & _ & Hn'). cbn. unfold ret.
  rewrite app_nil_r. split; [|done]. split_and!.
  - exists Q, P. split; [|by rewrite HE]. apply returned_inv. by rewrite Hr in I'.
  - by rewrite KX.
  - rewrite seen_send by done. by rewrite KV.
  - lia.
Qed.

(** A launch is on its way. *)
Definition launching (array bank columns : Z) (X : t T D) : t T D := set_columns c array bank columns X.
Lemma calls_launch now array bank columns extra delivered time E X L R n log s :
  standing extra delivered time E X (L, R) n log s -> validOperandContext c array bank = true ->
  validateActiveColumnRequest c columns = true -> time <= now ->
  wp False (calls c core_time now [BeginActive array bank columns])
    (fun _ => standing extra delivered now E (launching array bank columns X) (L ++ [(array, bank)], R) n) log s.
Proof.
  intros ((Q & P & I & HE) & HX & HV & Hid) Hc Hv Ht. injection HV as HL HR. cbn [calls]. apply wp_bind.
  unfold call. cbn [request_call plain_call]. unfold beginComputationActiveBank. rewrite Hc, Hv. cbn [negb orb].
  apply wp_bind, wp_update, wp_send, wp_ret. split_and!.
  - exists Q, P. split; [|done]. eapply inv_time; [|exact Ht]. eapply same_inv_buffer; [| |exact I].
    + by unfold same_buffer; split_and!.
    + unfold silent. rewrite asked_app, answered_app, started_app. cbn. by rewrite !app_nil_r.
  - injection HX as E1 E2 E3 E4 E5. unfold contents. cbn. by rewrite E1, E2, E3, E4, E5.
  - unfold seen. rewrite launched_app, replies_app, HL, HR. cbn. by rewrite app_nil_r.
  - done.
Qed.

Lemma transfer_contents k (s s' : t T D) : contents s = contents s' -> contents (transfer c k s) = contents (transfer c k s').
Proof. intros [= E1 E2 E3 E4 E5]. destruct k; unfold contents; cbn; by rewrite E1, E2, E3, E4, E5. Qed.
Lemma answer_contents k tg (s s' : t T D) : contents s = contents s' -> answer k tg s = answer k tg s'.
Proof. intros [= E1 E2 E3 E4 E5]. destruct k; cbn [answer]; by rewrite ?E2. Qed.

(** A transfer is completed; [l] is called from inside its callback. *)
Lemma finish_standing now id b l delivered time P X V V' n log s E' X' V2 n' :
  inv c core_time longest 0 [] delivered time [] P log s -> P = [(id, b)] -> contents s = contents X -> seen log = V ->
  nextBufferRequestId_ s <= n -> callback (reply b) = true -> horizon longest time now ->
  V' = (V.1 ++ launched [answer (completion b) (tag (reply b)) (transfer c (completion b) X)],
        V.2 ++ replies [answer (completion b) (tag (reply b)) (transfer c (completion b) X)]) ->
  (forall log1 s1, standing (port b) (id :: delivered) time [] (transfer c (completion b) X) V' n log1 s1 ->
    wp False (calls c core_time now l) (fun _ => standing (port b) (id :: delivered) now E' X' V2 n') log1 s1) ->
  wp False (handleBufferEvent c core_time now id l)
    (fun _ log' s' => standing 0 (id :: delivered) now E' X' V2 n' log' s' /\ settled c s') log s.
Proof.
  intros I EP HX HV Hid Hb Hh -> HK. assert (P !! 0%nat = Some (id, b)) as Hj by (by rewrite EP).
  unfold handleBufferEvent. wp_state.
  assert (bufferRequests_ s !! id = Some b) as ->.
  { rewrite (i_requests _ _ _ _ _ _ _ _ _ _ _ I), EP. cbn. apply lookup_insert_eq. }
  wp_fold. apply wp_bind, wp_update, wp_bind, wp_update, wp_bind, wp_update. fold (taken id b s).
  pose proof (give_back_spec _ _ _ _ _ _ _ _ _ _ _ _ I Hj) as (_ & _ & _ & _ & GX & _ & _ & GN & _).
  set (s3 := transfer c (completion b) (taken id b s)). assert (same_buffer (taken id b s) s3) as S by apply transfer_same.
  assert (contents s3 = contents (transfer c (completion b) X)) as HX3 by (apply transfer_contents; by rewrite <- HX, <- GX).
  assert (nextBufferRequestId_ s3 <= n) as Hid3 by (destruct S as (_ & _ & -> & _); unfold taken; cbn; by rewrite GN).
  clearbody s3. rewrite Hb. apply wp_bind, wp_bind. wp_state. wp_fold. apply wp_send.
  destruct (answer_log (completion b) (tag (reply b)) s3) as (A1 & A2 & A3).
  eapply wp_mono; [apply HK|].
  - split_and!; [exists [], (delete 0%nat P); split; [|by rewrite EP]|done| |done].
    + eapply finish_inv; [exact I|exact Hj|exact S|..];
        rewrite ?asked_app, ?answered_app, ?started_app, ?A1, ?A2, ?A3, ?app_nil_r; try done. unfold tags. by rewrite Hb.
    + unfold seen. rewrite launched_app, replies_app, <- HV, (answer_contents _ _ _ _ HX3). done.
  - intros [] log2 s2 ((Q2 & P2 & I2 & HE2) & HX2 & HV2 & Hid2). apply wp_bind, wp_update.
    destruct Hh as (_ & Hn & Hl). eapply wp_mono.
    { apply wp_conj; [|apply tryIssue_quiet]. eapply transfers_issue_spec; [exact cfg|by apply free_inv|done|by split_and!]. }
    intros [] log4 s4 [[((Q4 & P4 & I4 & HE4) & _ & HX4 & Hid4) S4] [HV4 _]]. split; [|done]. split_and!.
    + exists Q4, P4. split; [done|]. by rewrite HE4.
    + rewrite HX4. by rewrite (proj1 (free_rest _ _)).
    + by rewrite HV4.
    + rewrite (proj2 (free_rest _ _)) in Hid4. lia.
Qed.

Lemma launch_standing now array bank l delivered time X V n log s E' X' V2 n' :
  standing 0 delivered time [] X V n log s -> settled c s -> functionalCompute c = true ->
  (forall log1 s1, standing 0 delivered time [] (computeBank c array bank X) V n log1 s1 ->
    wp False (calls c core_time now l) (fun _ log' s' => standing 0 delivered now E' X' V2 n' log' s' /\ (settled c s1 -> settled c s')) log1 s1) ->
  wp False (handleSelfEvent c core_time now array bank l)
    (fun _ log' s' => standing 0 delivered now E' X' V2 n' log' s' /\ settled c s') log s.
Proof.
  intros ((Q & P & I & HE) & HX & HV & Hid) Hs Hf HK. unfold handleSelfEvent. apply wp_bind, wp_update. rewrite Hf.
  pose proof (computed_same c array bank s) as S. apply wp_bind, wp_send. eapply wp_mono; [apply HK|].
  - split_and!.
    + exists Q, P. split; [|done]. eapply same_inv_buffer; [exact S| |exact I].
      unfold silent. rewrite asked_app, answered_app, started_app. cbn. by rewrite !app_nil_r.
    + injection HX as E1 E2 E3 E4 E5. unfold contents, computeBank. rewrite E1, E2, E3, E4, E5. destruct (negb _); cbn; by rewrite ?E1, ?E2, ?E3, ?E4, ?E5.
    + by rewrite seen_send.
    + by destruct S as (_ & _ & -> & _).
  - intros [] log' s' [G1 G2]. split; [done|]. apply G2. by eapply same_settled.
Qed.

(** ** Histories with one transfer at a time *)

Definition resting (w : World) (E : list (BufferRequest D)) (X : t T D) (R : list (bool * Z * list D)) (n : Z) : Prop :=
  exists delivered P, inv c core_time longest 0 [] delivered (time w) [] P (log w) (arr w) /\ settled c (arr w) /\
    buffer w = map fst P /\ map snd P = E /\ contents (arr w) = contents X /\ replies (log w) = R /\ nextBufferRequestId_ (arr w) <= n.

Lemma permutation_short {A} (l l' : list A) : (List.length l' <= 1)%nat -> l ≡ₚ l' -> l = l'.
Proof.
  destruct l' as [|x [|y l']]; cbn; intros Hl E; [by apply Permutation_nil_r in E|by apply Permutation_singleton_r in E|lia].
Qed.

Lemma after_resting (m : Effects.M (t T D) (effect D) unit) delivered delivered' waiting running now w E X L R n :
  started (log w) ≡ₚ delivered ++ buffer w -> delivered ++ buffer w ≡ₚ delivered' ++ waiting -> (List.length E <= 1)%nat ->
  wp False m (fun _ log' s' => standing 0 delivered' now E X (launched (log w) ++ L, R) n log' s' /\ settled c s') (log w) (arr w) ->
  exists w', after (m (arr w)) waiting running now w = Some w' /\ resting w' E X R n /\ launches w' = running ++ L /\ time w' = now.
Proof.
  intros Hb Hd Hl. unfold wp, after. destruct (m (arr w)) as [[[] [out s']]|]; [|done].
  intros [((Q & P & I & HE) & HX & [= HL HR] & Hid) S]. eexists. split; [done|]. cbn.
  assert (List.length (Q ++ P) <= 1)%nat as Hlen by (by rewrite <- (length_map snd), HE).
  assert (Q = []) as ->.
  { destruct P as [|x P]; [by eapply (idle_empty c core_time)|]. rewrite length_app in Hlen. cbn in Hlen. destruct Q; [done|]. cbn in Hlen. lia. }
  cbn [app] in HE, Hlen. split_and!; [|by rewrite launched_app in HL; apply app_inv_head in HL as ->|done].
  exists delivered', P. cbn. split_and!; try done.
  - apply permutation_short; [by rewrite length_map|]. pose proof (i_events _ _ _ _ _ _ _ _ _ _ _ I) as G.
    rewrite started_app, Hb, Hd, <- app_assoc in G. by apply Permutation_app_inv_l in G.
  - by apply permutation_short.
Qed.

Lemma call_alone now k (Q : unit -> list (effect D) -> t T D -> Prop) log s :
  wp False (calls c core_time now [k]) Q log s -> wp False (call c core_time now k) Q log s.
Proof. cbn [calls]. unfold wp, bind, ret. destruct (call c core_time now k s) as [[[] [out s']]|]; [|done]. by rewrite app_nil_r. Qed.

(** The request that [k] comes to while the arrays hold [X]. *)
Definition asks (now : Z) (k : Call D) (X : t T D) (b : BufferRequest D) : Prop :=
  exists m, request_call c core_time now k = Some (reply b, m) /\
    (forall s, contents s = contents X -> m s = enqueueModeledBufferTransfer c core_time now b s) /\
    req_ok c core_time longest b /\ dedicatedOutput b = false /\ callback (reply b) = true.

Lemma ask_step w now k b X R n :
  resting w [] X R n -> asks now k X b -> n + 1 < 2 ^ 64 -> horizon longest (time w) now ->
  exists w', react c core_time w (FromClient now k) = Some w' /\ resting w' [b] X R (n + 1) /\ launches w' = launches w /\ time w' = now.
Proof.
  intros (delivered & P & I & S & B & HE & HX & HR & Hid) (m & Ek & Em & Hb & Hd & _) Hn Hh. cbn [react].
  apply map_eq_nil in HE. subst P.
  destruct (after_resting (call c core_time now k) delivered delivered (buffer w) (launches w) now w [b] X [] R (n + 1)) as (w' & E & G1 & G2 & G3);
    [rewrite B; apply I|done|cbn; lia| |exists w'; rewrite app_nil_r in G2; by split_and!].
  rewrite app_nil_r. apply call_alone. eapply wp_mono.
  - eapply (calls_request now k _ m b 0 delivered (time w) X (launched (log w), R) n); try done; [|by apply Em].
    split_and!; [by exists [], []|done|unfold seen; by rewrite HR|done].
  - cbn. intros [] log' s' [G1 G2]. auto.
Qed.

Lemma finish_step w now b l X R n E' X' L R' n' :
  resting w [b] X R n -> callback (reply b) = true -> horizon longest (time w) now -> (List.length E' <= 1)%nat ->
  (forall delivered log1 s1,
    standing (port b) delivered (time w) [] (transfer c (completion b) X)
      (launched (log w), R ++ replies [answer (completion b) (tag (reply b)) (transfer c (completion b) X)]) n log1 s1 ->
    wp False (calls c core_time now l) (fun _ => standing (port b) delivered now E' X' (launched (log w) ++ L, R') n') log1 s1) ->
  exists w', react c core_time w (Transferred now 0 l) = Some w' /\ resting w' E' X' R' n' /\ launches w' = launches w ++ L /\ time w' = now.
Proof.
  intros (delivered & P & I & S & B & HE & HX & HR & Hid) Hb Hh Hl HK. destruct P as [|[id b'] [|y P]]; try discriminate HE.
  injection HE as ->. cbn [react]. assert (buffer w !! 0%nat = Some id) as -> by (by rewrite B). rewrite B. cbn [map fst delete list_delete].
  eapply (after_resting _ delivered (id :: delivered)); [rewrite B; apply I|rewrite B; cbn; solve_Permutation|done|].
  eapply finish_standing; [exact I|done|exact HX|done|exact Hid|done|done|done|].
  intros log1 s1 G. cbn [fst snd]. apply HK. unfold seen in G. rewrite HR in G. cbn [fst snd] in G.
  assert (launched [answer (completion b) (tag (reply b)) (transfer c (completion b) X)] = []) as E0.
  { unfold answer. destruct (completion b); try done. by destruct (forallb _ _). }
  rewrite E0, app_nil_r in G. done.
Qed.

Lemma launch_step w now i array bank l X R n E' X' L R' n' :
  resting w [] X R n -> launches w !! i = Some (array, bank) -> functionalCompute c = true -> (List.length E' <= 1)%nat ->
  (forall delivered log1 s1,
    standing 0 delivered (time w) [] (computeBank c array bank X) (launched (log w), R) n log1 s1 ->
    wp False (calls c core_time now l)
      (fun _ log' s' => standing 0 delivered now E' X' (launched (log w) ++ L, R') n' log' s' /\ (settled c s1 -> settled c s')) log1 s1) ->
  exists w', react c core_time w (Launched now i l) = Some w' /\ resting w' E' X' R' n' /\ launches w' = delete i (launches w) ++ L /\ time w' = now.
Proof.
  intros (delivered & P & I & S & B & HE & HX & HR & Hid) Hi Hf Hl HK. apply map_eq_nil in HE. subst P. cbn [react]. rewrite Hi.
  eapply (after_resting _ delivered delivered); [rewrite B; apply I|done|done|].
  eapply (launch_standing now array bank l delivered (time w) X (launched (log w), R) n); [|done|done|apply HK].
  split_and!; [by exists [], []|done|unfold seen; by rewrite HR|done].
Qed.

(** ** A product *)

(** A matrix of [columns] columns and an input, for a bank of an array. *)
Record Job := mkJob { array : Z; bank : Z; columns : Z; size : Z; matrix : list D; input : list D }.
Record job_ok (j : Job) : Prop := {
  j_array : 0 <= array j < numArrays c;
  j_bank : 0 <= bank j < operandContextBanks c;
  j_columns : 0 < columns j <= inputArraySize c;
  j_size : 0 < size j;
  j_matrix : elements (matrix j) = columns j * outputArraySize c;
  j_input : elements (input j) = columns j;
  j_bytes : elements (matrix j) * size j <= most /\ columns j * size j <= most
}.
Definition product (j : Job) : list T :=
  map (fun row => dot (map of_double (piece (columns j) row (matrix j))) (map of_double (input j))) (seq 0 (Z.to_nat (outputArraySize c))).

Lemma concat_piece {A} (f : nat -> list A) n m : forall k row,
  (forall i, (k <= i < k + m)%nat -> List.length (f i) = n) -> (row < m)%nat ->
  take n (drop (row * n) (concat (map f (seq k m)))) = f (k + row)%nat.
Proof.
  induction m as [|m IH]; intros k row Hf Hr; [lia|]. cbn [seq map concat]. assert (List.length (f k) = n) as Hk by (apply Hf; lia).
  destruct row as [|row].
  - rewrite Nat.mul_0_l, drop_0, <- Hk, take_app_length. f_equal. lia.
  - rewrite drop_app_ge by lia. replace (S row * n - List.length (f k))%nat with (row * n)%nat by lia.
    rewrite IH; [f_equal; lia| |lia]. intros i Hi. apply Hf. lia.
Qed.

Lemma piece_length {A} n row rows (l : list A) :
  0 <= n -> elements l = n * Z.of_nat rows -> (row < rows)%nat -> List.length (piece n row l) = Z.to_nat n.
Proof. intros Hn Hl Hr. unfold elements in Hl. unfold piece. rewrite length_take, length_drop. nia. Qed.

(** The rows of a compact matrix are found again, padded with zeros. *)
Lemma compact_piece j row : job_ok j -> (row < Z.to_nat (outputArraySize c))%nat ->
  List.length (piece (columns j) row (matrix j)) = Z.to_nat (columns j).
Proof. intros [] Hr. eapply piece_length; [lia| |exact Hr]. rewrite j_matrix0. lia. Qed.
Lemma compact_padded j row : job_ok j -> (row < Z.to_nat (outputArraySize c))%nat ->
  piece (inputArraySize c) row (writeCompactMatrix c (matrix j) (columns j)) =
    map of_double (piece (columns j) row (matrix j)) ++ replicate (Z.to_nat (inputArraySize c - columns j)) elem_zero.
Proof.
  intros Hj Hr. destruct (id Hj). unfold writeCompactMatrix, piece at 1. rewrite (concat_piece _ (Z.to_nat (inputArraySize c))); [done|intros i Hi|done].
  rewrite length_app, length_map, length_replicate, compact_piece by (done || lia). lia.
Qed.
Lemma compact_row j row : job_ok j -> (row < Z.to_nat (outputArraySize c))%nat ->
  matrix_row c row (columns j) (writeCompactMatrix c (matrix j) (columns j)) = map of_double (piece (columns j) row (matrix j)).
Proof.
  intros Hj Hr. unfold matrix_row. rewrite compact_padded by done. apply take_app_length'. by rewrite length_map, compact_piece.
Qed.

Lemma operand_range a b : 0 <= a < numArrays c -> 0 <= b < operandContextBanks c -> (Z.to_nat (operandIndex c b a) < contexts c)%nat.
Proof. intros Ha Hb. unfold operandIndex, contexts. apply Z2Nat.inj_lt; nia. Qed.

(** The state after the launch of a job. *)
Definition loaded (j : Job) (X : t T D) : t T D :=
  transfer c (WriteInput [operandIndex c (bank j) (array j)] true (input j))
    (transfer c (WriteCompact [operandIndex c (bank j) (array j)] (matrix j) (columns j)) X).
Definition computed (j : Job) (X : t T D) : t T D :=
  computeBank c (array j) (bank j) (launching (array j) (bank j) (columns j) (loaded j X)).

Lemma valid_context j : job_ok j -> validOperandContext c (array j) (bank j) = true.
Proof. intros []. unfold validOperandContext, in_range. apply andb_true_iff. rewrite !Z.ltb_lt. lia. Qed.

Lemma computed_product j X : job_ok j -> shape X = shape (@init T D element c) -> (outputModes X).[array j] = Overwrite ->
  (outputVectors (computed j X)).[array j] = product j.
Proof.
  intros Hj S Ho. unfold shape, init in S. cbn in S. rewrite !length_replicate in S. injection S as S1 S2 S3 S4 S5.
  unfold computed, computeBank. rewrite (valid_context j Hj). destruct (id Hj). pose proof (operand_range _ _ j_array0 j_bank0) as Hc.
  unfold launching, set_columns, loaded. cbn. rewrite Ho. rewrite list_lookup_total_insert_eq by lia.
  unfold product. apply map_ext_in. intros row Hr%in_seq. rewrite !list_lookup_total_insert_eq by lia. rewrite compact_row by (done || lia).
  f_equal. unfold overwrite. unfold elements in j_input0. rewrite take_app_le by (rewrite length_map; lia). apply take_ge. rewrite length_map. lia.
Qed.

(** The requests of a job. *)
Definition matrix_request (j : Job) (g : Z) : BufferRequest D :=
  shared (mkReply g true) (cycles (arrayBufferBaseLatencyCycles_ c) (elements (matrix j) * size j) (arrayBufferBytesPerCycle_ c))
    (WriteCompact [operandIndex c (bank j) (array j)] (matrix j) (columns j)) None Legacy.
Definition input_request (j : Job) (g : Z) : BufferRequest D :=
  shared (mkReply g true) (cycles (arrayBufferBaseLatencyCycles_ c) (elements (input j) * size j) (arrayBufferBytesPerCycle_ c))
    (WriteInput [operandIndex c (bank j) (array j)] true (input j)) None Legacy.
Definition output_request (j : Job) (g : Z) : BufferRequest D :=
  shared (mkReply g true) (cycles (arrayBufferBaseLatencyCycles_ c) (outputArraySize c * size j) (arrayBufferBytesPerCycle_ c))
    (ReadOutputs [array j]) (Some (if arrayOutputReadBanks_ c =? 0 then 0 else array j mod arrayOutputReadBanks_ c)) Legacy.

Lemma job_columns j : job_ok j -> validateActiveColumnRequest c (columns j) = true.
Proof. intros []. unfold validateActiveColumnRequest. apply andb_true_iff. rewrite Z.ltb_lt, Z.leb_le. lia. Qed.
Lemma job_bytes j : job_ok j ->
  0 <= outputArraySize c /\ 0 <= elements (matrix j) * size j <= most /\ 0 <= elements (input j) * size j <= most /\
  0 <= outputArraySize c * size j <= most.
Proof. intros []. rewrite j_input0. unfold elements in *. assert (0 <= outputArraySize c) by nia. split_and!; nia. Qed.
Lemma plain_request x (b : option Z) r (k : Completion D) cls : 0 <= x <= most -> (forall i, b = Some i -> 0 <= i < arrayOutputReadBanks_ c) ->
  req_ok c core_time longest (shared r (cycles (arrayBufferBaseLatencyCycles_ c) x (arrayBufferBytesPerCycle_ c)) k b cls).
Proof.
  intros Hx Hb. destruct (id cfg). rewrite !Forall_cons in c_rates. destruct c_rates as (F & _).
  eapply shared_ok; [exact cfg|exact core_time_ok|done|lia|done|done].
Qed.

Lemma matrix_asks now j g X : job_ok j ->
  asks now (ProgramMatrixActive (array j) (bank j) (matrix j) (columns j) (size j) (mkReply g true)) X (matrix_request j g).
Proof.
  intros Hj. destruct (job_bytes j Hj) as (Ho & Hm & _). pose proof (job_columns j Hj) as Hv. destruct (id Hj).
  eexists. split; [reflexivity|]. split; [|split; [by apply plain_request|done]]. intros s _. unfold programMatrixActiveBankAsync, validateActiveMatrixRequest, in_range.
  rewrite Hv, j_matrix0. assert (0 <= columns j * outputArraySize c < 2 ^ 64).
  { destruct cfg. rewrite j_matrix0 in *. unfold elements in *. nia. }
  rewrite (u64_small (columns j * _)) by done. rewrite Z.eqb_refl.
  rewrite (proj2 (Z.ltb_lt _ _)) by lia. rewrite (proj2 (Z.ltb_lt 0 _)) by lia. rewrite (proj2 (Z.leb_gt _ _)) by lia. cbn [andb negb orb].
  unfold enqueueBufferTransfer, matrix_request. by rewrite <- j_matrix0, (bytes_ok c most cfg).
Qed.
Lemma input_asks now j g X : job_ok j ->
  asks now (ProgramInputActive (array j) (bank j) (input j) (columns j) (size j) (mkReply g true)) X (input_request j g).
Proof.
  intros Hj. destruct (job_bytes j Hj) as (Ho & _ & Hm & _). pose proof (job_columns j Hj) as Hv. destruct (id Hj).
  eexists. split; [reflexivity|]. split; [|split; [by apply plain_request|done]]. intros s _. unfold programInputActiveBankAsync, validateActiveInputRequest, in_range.
  rewrite Hv. rewrite (proj2 (Z.ltb_lt _ _)) by lia. rewrite (proj2 (Z.ltb_lt 0 _)) by lia. rewrite (proj2 (Z.leb_gt _ _)) by lia.
  rewrite (proj2 (Z.eqb_eq _ _)) by done. cbn [andb negb orb]. unfold enqueueBufferTransfer, input_request. by rewrite (bytes_ok c most cfg).
Qed.
Lemma output_asks now j g X : job_ok j -> Z.of_nat (List.length (outputVectors X)) = numArrays c ->
  asks now (ReadOutput (array j) (size j) (mkReply g true)) X (output_request j g).
Proof.
  intros Hj Hl. destruct (job_bytes j Hj) as (Ho & _ & _ & Hm). destruct (id Hj).
  eexists. split; [reflexivity|]. split; [|split; [apply plain_request; [done|]|done]].
  - intros s [= _ Eo _ _ _]. unfold readOutputAsync, elements. rewrite Eo, Hl.
    rewrite (proj2 (Z.leb_gt _ _)) by lia. rewrite (proj2 (Z.eqb_neq _ _)) by lia. cbn [orb].
    unfold enqueueOutputReadTransfer, output_request. by rewrite (bytes_ok c most cfg).
  - intros i [= <-]. by eapply bank_ok.
Qed.

Lemma resting_begin w : good c core_time longest w -> buffer w = [] ->
  resting w [] (arr w) (replies (log w)) (nextBufferRequestId_ (arr w)).
Proof.
  intros (delivered & Q & P & I & S & B) Hb. rewrite Hb in B. apply Permutation_nil_l in B. symmetry in B. apply map_eq_nil in B. subst P.
  pose proof (idle_empty c core_time most longest cfg _ _ _ _ _ I S) as ->. exists delivered, []. by split_and!.
Qed.

(** The callback of a transfer asks for the next one. *)
Lemma finish_ask w now b k b' X R n :
  resting w [b] X R n -> callback (reply b) = true -> horizon longest (time w) now -> n + 1 < 2 ^ 64 ->
  asks now k (transfer c (completion b) X) b' ->
  exists w', react c core_time w (Transferred now 0 [k]) = Some w' /\
    resting w' [b'] (transfer c (completion b) X)
      (R ++ replies [answer (completion b) (tag (reply b)) (transfer c (completion b) X)]) (n + 1) /\
    launches w' = launches w /\ time w' = now.
Proof.
  intros HR Hb Hh Hn (m & Ek & Em & Hr & Hd & _).
  edestruct (finish_step w now b [k] X R n [b'] (transfer c (completion b) X) []) as (w' & E & G1 & G2 & G3); [done|done|done|cbn; lia| |].
  - intros delivered log1 s1 G. rewrite app_nil_r. eapply wp_mono; [eapply calls_request; try done; [by apply Em, G|unfold port; by destruct (dedicatedOutput b)]|].
    by intros [] log' s' [G' _].
  - exists w'. rewrite app_nil_r in G2. by split_and!.
Qed.

Lemma finish_launch w now b a k cols X R n :
  resting w [b] X R n -> callback (reply b) = true -> horizon longest (time w) now ->
  validOperandContext c a k = true -> validateActiveColumnRequest c cols = true ->
  exists w', react c core_time w (Transferred now 0 [BeginActive a k cols]) = Some w' /\
    resting w' [] (launching a k cols (transfer c (completion b) X))
      (R ++ replies [answer (completion b) (tag (reply b)) (transfer c (completion b) X)]) n /\
    launches w' = launches w ++ [(a, k)] /\ time w' = now.
Proof.
  intros HR Hb Hh Hc Hv. eapply finish_step; [done|done|done|cbn; lia|]. intros d log1 s1 G.
  eapply calls_launch; [exact G|done|done|apply Hh].
Qed.
Lemma finish_last w now b X R n :
  resting w [b] X R n -> callback (reply b) = true -> horizon longest (time w) now ->
  exists w', react c core_time w (Transferred now 0 []) = Some w' /\
    resting w' [] (transfer c (completion b) X) (R ++ replies [answer (completion b) (tag (reply b)) (transfer c (completion b) X)]) n.
Proof.
  intros HR Hb Hh. edestruct (finish_step w now b [] X R n [] (transfer c (completion b) X) []) as (w' & E & G & _); [done|done|done|cbn; lia| |].
  - intros d log1 s1 G. rewrite app_nil_r. eapply calls_none; [exact G|apply Hh].
  - by exists w'.
Qed.
Lemma launch_ask w now i a k call b X R n :
  resting w [] X R n -> launches w !! i = Some (a, k) -> functionalCompute c = true -> horizon longest (time w) now -> n + 1 < 2 ^ 64 ->
  asks now call (computeBank c a k X) b ->
  exists w', react c core_time w (Launched now i [call]) = Some w' /\ resting w' [b] (computeBank c a k X) R (n + 1) /\ time w' = now.
Proof.
  intros HR Hi Hc Hh Hn (m & Ek & Em & Hr & Hd & _).
  edestruct (launch_step w now i a k [call] X R n [b] (computeBank c a k X) []) as (w' & E & G1 & _ & G3); [done|done|done|cbn; lia| |].
  - intros d log1 s1 G. rewrite app_nil_r. eapply calls_request; [exact G|exact Ek|by apply Em, G|done..].
  - by exists w'.
Qed.

Lemma computed_shape j X : shape (computed j X) = shape X.
Proof. unfold computed, computeBank, shape, launching, set_columns, loaded. destruct (negb _); cbn; by rewrite !length_insert. Qed.


End Product.

(** ** Integers *)

Lemma s64_add_l a b : s64 (s64 a + b) = s64 (a + b).
Proof.
  unfold s64. f_equal. replace ((a + 2 ^ 63) mod 2 ^ 64 - 2 ^ 63 + b + 2 ^ 63) with ((a + 2 ^ 63) mod 2 ^ 64 + b) by lia.
  rewrite Z.add_mod_idemp_l by done. f_equal. lia.
Qed.
Lemma s64_add_r a b : s64 (a + s64 b) = s64 (a + b).
Proof. rewrite Z.add_comm, s64_add_l. f_equal. lia. Qed.
Lemma s64_idem a : s64 (s64 a) = s64 a.
Proof. rewrite <- (Z.add_0_r (s64 a)) at 1. rewrite s64_add_l. f_equal. lia. Qed.

Section Integers.
Import ComputeArray.
Variable c : Config.

Definition sum (l : list Z) : Z := foldr Z.add 0 l.
(** The product of a row with the input, without wrap-around. *)
Definition exact (row input : list Z) : Z := sum (zip_with Z.mul row input).

Lemma dot_from (row input : list Z) : forall d,
  foldl (fun d p => elem_add d (elem_mul (fst p) (snd p))) (s64 d) (zip row input) = s64 (d + exact row input).
Proof.
  revert input. induction row as [|x row IH]; intros [|y input] d; try (change (s64 d = s64 (d + 0)); f_equal; lia).
  cbn [zip zip_with foldl elem_add elem_mul fst snd int64_element].
  rewrite s64_add_l, s64_add_r. rewrite IH. f_equal. unfold exact, sum. cbn. lia.
Qed.
Lemma dot_exact (row input : list Z) : dot row input = s64 (exact row input).
Proof. exact (dot_from row input 0). Qed.

Lemma exact_app r r' x x' : List.length r = List.length x -> exact (r ++ r') (x ++ x') = exact r x + exact r' x'.
Proof.
  intros Hl. unfold exact. rewrite zip_with_app by done. unfold sum. rewrite foldr_app. generalize (foldr Z.add 0 (zip_with Z.mul r' x')).
  intros z. induction (zip_with Z.mul r x) as [|y l IH]; cbn; lia.
Qed.
Lemma exact_zeros n x : exact (replicate n 0) x = 0.
Proof. revert x. induction n as [|n IH]; intros [|y x]; cbn; try done. specialize (IH x). unfold exact, sum in *. cbn. lia. Qed.

Lemma slice_seq (l : list Z) k n : (k + n <= List.length l)%nat -> take n (drop k l) = map (fun i => l !!! (k + i)%nat) (seq 0 n).
Proof.
  intros Hl. apply list_eq. intros i. destruct (decide (i < n)%nat) as [Hi|Hi].
  - rewrite lookup_take_lt, lookup_drop by done. rewrite list_lookup_fmap, lookup_seq_lt by done. cbn. by apply list_lookup_lookup_total_lt; lia.
  - rewrite lookup_take_ge by lia. symmetry. apply lookup_ge_None. rewrite length_map, length_seq. lia.
Qed.
Lemma exact_seq f g n : exact (map f (seq 0 n)) (map g (seq 0 n)) = sum (map (fun i => f i * g i) (seq 0 n)).
Proof. unfold exact. f_equal. generalize (seq 0 n). intros l. induction l as [|x l IH]; cbn; [done|]. by rewrite IH. Qed.

(** C23. A launch multiplies: for 64-bit integers and operands of the full size, row
    [i] of the output is the sum over the active columns of the products of matrix
    and input, added to the old output in accumulate mode, modulo [2^64] with sign;
    the outputs of other arrays stay as they are. *)
Theorem launch_multiplies (s : t Z double) a b i :
  0 <= a < Z.of_nat (List.length (outputVectors s)) -> validOperandContext c a b = true ->
  let x := operandIndex c b a in
  let cols := (activeInputColumns s).[x] in
  let old := match (outputModes s).[a] with Accumulate => (outputVectors s).[a] !!! i | Overwrite => 0 end in
  0 <= cols <= inputArraySize c -> Z.of_nat i < outputArraySize c -> elements ((outputVectors s).[a]) = outputArraySize c ->
  elements ((matrixData s).[x]) = inputArraySize c * outputArraySize c -> elements ((inputVectors s).[x]) = inputArraySize c ->
  (outputVectors (computeBank c a b s)).[a] !! i =
    Some (s64 (old + sum (map (fun col => (matrixData s).[x] !!! (i * Z.to_nat (inputArraySize c) + col)%nat * (inputVectors s).[x] !!! col)
      (seq 0 (Z.to_nat cols))))) /\
  forall a', 0 <= a' -> a' <> a -> (outputVectors (computeBank c a b s)).[a'] = (outputVectors s).[a'].
Proof.
  intros Ha Hv x cols old Hc Hi Ho Hm Hx. unfold elements in *. unfold computeBank. rewrite Hv. cbn -[dot]. fold x. fold cols.
  split; [|intros a' H1 H2; apply list_lookup_total_insert_ne; lia]. rewrite list_lookup_total_insert_eq by lia.
  set (P := map _ (seq 0 (Z.to_nat (outputArraySize c)))).
  assert (P !! i = Some (s64 (sum (map (fun col => (matrixData s).[x] !!! (i * Z.to_nat (inputArraySize c) + col)%nat * (inputVectors s).[x] !!! col)
    (seq 0 (Z.to_nat cols)))))) as HP.
  { unfold P. rewrite list_lookup_fmap, lookup_seq_lt by lia. cbn [fmap option_fmap option_map plus]. f_equal. rewrite dot_exact. f_equal.
    unfold matrix_row, piece. rewrite take_take, Nat.min_l by lia. rewrite slice_seq by nia.
    rewrite <- (drop_0 ((inputVectors s).[x])) at 1. rewrite slice_seq by lia. apply exact_seq. }
  unfold old. destruct ((outputModes s).[a]) eqn:Em; [exact HP|].
  rewrite lookup_zip_with, HP. assert (List.length P = Z.to_nat (outputArraySize c)) as -> by (unfold P; by rewrite length_map, length_seq).
  rewrite resize_all_alt by lia. rewrite (list_lookup_lookup_total_lt ((outputVectors s).[a]) i) by lia. cbn. by rewrite s64_add_r.
Qed.

Lemma padded_row most (j : Job) row (old : list Z) : job_ok c most j -> (row < Z.to_nat (outputArraySize c))%nat ->
  let M := writeCompactMatrix c (matrix j) (columns j) in
  let V := overwrite (map of_double (input j)) old in
  dot (matrix_row c row (columns j) M) (take (Z.to_nat (columns j)) V) =
    dot (matrix_row c row (inputArraySize c) M) (take (Z.to_nat (inputArraySize c)) V).
Proof.
  intros Hj Hr M V. unfold M, V, overwrite. rewrite !dot_exact, (compact_row c most) by done. f_equal.
  pose proof (compact_piece c most j row Hj Hr) as Hp. unfold matrix_row. rewrite (compact_padded c most) by done. destruct Hj. unfold elements in j_input0.
  assert (List.length (map (of_double : double -> Z) (input j)) = Z.to_nat (columns j)) as Hl by (rewrite length_map; lia).
  rewrite (take_app_length' _ _ _ (eq_sym Hl)). rewrite (take_ge (_ ++ replicate _ _)) by (rewrite length_app, length_map, length_replicate, Hp; lia).
  rewrite take_app_ge by (rewrite Hl; lia). rewrite exact_app by (rewrite length_map, Hp; lia). rewrite exact_zeros. lia.
Qed.

(** Launching with the active columns only gives the same outputs as launching
    on all columns: programming a compact matrix and input pads them with zeros. *)
Theorem active_columns_padded most (j : Job) (X : t Z double) :
  job_ok c most j -> shape X = shape (@init Z double int64_element c) ->
  outputVectors (computed c j X) =
    outputVectors (computeBank c (array j) (bank j) (launching c (array j) (bank j) (inputArraySize c) (loaded c j X))).
Proof.
  intros Hj S. unfold shape, init in S. cbn in S. rewrite !length_replicate in S. injection S as S1 S2 S3 S4 S5.
  unfold computed, computeBank. rewrite (valid_context c most j Hj). destruct (id Hj).
  pose proof (operand_range c _ _ j_array0 j_bank0) as Hc. unfold launching, set_columns, loaded. cbn -[dot].
  rewrite !list_lookup_total_insert_eq by lia. do 2 f_equal.
  match goal with |- (if _ then zip_with _ (resize (List.length ?l) _ _) _ else _) = (if _ then zip_with _ (resize (List.length ?r) _ _) _ else _) =>
    assert (l = r) as -> end; [|done].
  apply map_ext_in. intros row Hr%in_seq. eapply padded_row; [exact Hj|lia].
Qed.
End Integers.

(** ** An example *)

Module ProductExample.
Import ComputeArray ArrayExample.

(** A matrix of one column for the second bank of the second array. *)
Definition job : Job := mkJob 1 1 1 8 (values [3; -4]) (values [7]).
Lemma job_fits : job_ok config (2 ^ 10) job.
Proof. constructor; cbv; intuition congruence. Qed.


Lemma launch_multiplies_witness : (outputVectors (computeBank config 0 0 (arr final))).[0] !! 1%nat = Some 39.
Proof.
  destruct (launch_multiplies config (arr final) 0 0 1 ltac:(cbv; intuition congruence) eq_refl ltac:(cbv; intuition congruence) eq_refl eq_refl eq_refl eq_refl) as [H _].
  exact H.
Defined.

Lemma active_columns_padded_witness : (outputVectors (computed config job (arr final))).[1] = [21; -28] /\
  outputVectors (computed config job (arr final)) =
    outputVectors (computeBank config 1 1 (launching config 1 1 2 (loaded config job (arr final)))).
Proof. split; [vm_compute; reflexivity|]. exact (active_columns_padded config (2 ^ 10) job (arr final) job_fits eq_refl). Defined.
End ProductExample.
